(* ===== verification/_CoqProject ===== *)
-Q . S2P
Prelude.v
GoLib.v
SortedSeq.v
SortedKV.v
SortedArray.v
Merge.v
File.v
Entry.v
SortedFile.v
SortedFileProofs.v
KVIterators.v
Log.v
LogProofs.v
Cell.v
Row.v
RowProofs.v
Metadata.v
KV.v
KVCompact.v
KVProofs.v
KVCompactProofs.v
KVSystem.v
KVOps.v
KVSpec.v
LogHistory.v
Samples.v
StorageTheorems.v
KVTheorems.v
Sql.v
EvalProofs.v
Parser.v
ParserProofs.v
ParserPrint.v
ParserStmt.v
SqlTheorems.v
Planner.v
PlannerProofs.v
TxKV.v
TxInstance.v
Table.v
TableProofs.v
TableScan.v
TableSelect.v
TableBatch.v
TableStmt.v
SchemaSample.v
Relational.v
DB.v
Refine.v
DBTheorems.v
Reopen.v
Recovery.v
RecoveryTheorems.v
Cache.v
Command.v
Snapshot.v
FSM.v
FSMProofs.v
Restore.v
SnapshotProofs.v
AppliedIndex.v
ClusterTheorems.v
Service.v
ServiceProofs.v
Client.v
Dump.v
DumpProofs.v
DumpLocal.v
SqlService.v
SqlServiceProofs.v
ServiceTheorems.v
Membership.v
MembershipProofs.v
MembershipTheorems.v
ClusterService.v
ClusterServiceProofs.v
ClusterServiceTheorems.v
Access.v
Cli.v
