(* ===== verification/Prelude.v ===== *)
(** * PallasDB: a verification development

    PallasDB is an embedded database written in Go: an LSM key-value store with
    snapshot-isolated transactions (db/kv.go and the files below it) and, on top
    of it, tables with secondary indices and a small SQL dialect (db/table.go,
    db/sql_parser.go, db/eval.go).  A cluster replicates the key-value store
    through a Raft log (cluster/): the state machine applies the log to a store
    and takes and restores snapshots of it, and the nodes manage the membership
    of the Raft cluster.  Servers expose the store, SQL and the cluster over gRPC
    (grpc/), a client follows redirects to the leader (client/), and a command
    dumps and restores databases (cmd/pallasdb).  This library models
    these parts as executable definitions and proves what makes them correct.

    ** The parts and where they are

    - [Prelude], [GoLib]: results of Go calls ([res]: value, error, panic, out
      of fuel), bytes and their order, fixed-width integers, the parts of the
      Go library the sources use (encoding/binary, hash/crc32, strconv,
      slices.BinarySearchFunc).
    - [SortedSeq], [SortedKV]: sorted sequences of entries, and the Go
      interfaces SortedKV and SortedKVIter as type classes with laws: an
      iterator stands at a position of a sorted sequence.
    - [SortedArray] (db/sorted_array.go), [Merge] (db/merge.go), [SortedFile]
      and [SortedFileProofs] (db/sorted_file.go): the memtable, the merge of
      levels and the SSTable, each with the instance of the laws.
    - [File]: a file as durable contents and pending operations; [crash] is what
      a power loss can leave (a prefix of the pending operations, the last one
      possibly torn; pending operations of one file are not reordered).  [Entry] (db/kv_entry.go), [Log], [LogProofs],
      [LogHistory] (db/log.go): records, the write-ahead log, its crashes.
      [Metadata] (db/metadata.go): the two slots.
    - [KVIterators], [KV], [KVCompact] (db/kv.go): the iterators of the
      store, its state, transactions and commit, flush, merge, recovery.
      [KVProofs], [KVCompactProofs]: the invariant and its
      preservation; [KVSystem]: the store as a step relation in which
      transactions, the phases of a flush and the phases of a merge interleave;
      [KVOps]: single operations; [KVSpec]: the abstract snapshot-isolation
      machine and the simulation.
      [Recovery]: what is on disk at every point at which a crash can happen, and
      that opening it recovers the store.  [Cache] (db/kv.go): the options and
      the read cache, with Ristretto and its buffer of writes as an interface
      ([Ristretto]).  Everything above the store reads it without a cache.
    - [Cell], [Row], [RowProofs] (db/cell.go, db/row.go): ordered key encoding
      and row values.
    - [Sql], [EvalProofs] (db/sql_parser.go, db/eval.go): syntax trees,
      evaluation.
    - [Parser] (db/sql_parser.go): the recursive-descent parser;
      [ParserProofs]: it is total; [ParserPrint], [ParserStmt]: a printer for
      expressions and statements, and that the parser inverts it.
    - [Planner], [PlannerProofs], [Table], [DB] (db/table.go): from a WHERE
      clause to index ranges; rows and their index entries, cursors, batched
      statements, schemas, in a transaction and as methods of DB.  A table runs
      on any transaction that satisfies the interface of [TxKV]; [TxInstance]
      shows that the transactions of the store do.  [TableProofs], [TableScan],
      [TableSelect], [TableBatch], [TableStmt]: what each statement does to the entries a transaction sees.  [Relational]: databases
      as lists of rows, the specification of the statements; [Refine]: the
      methods of DB implement it.
    - [Command] (cluster/command.go), [Snapshot] (cluster/fsm_snapshot.go): the
      formats of the Raft log and of snapshots.  [FSM], [Restore]
      (cluster/fsm.go): the state machine, and the swap of directories with any
      file operation failing.  [FSMProofs]: the state machine the replicas agree
      on ([spec_apply]) and that Apply implements it; [Reopen]: closing and
      opening a store; [SnapshotProofs]: snapshot and restore.
      [AppliedIndex]: the applied index, its waiters and their interleavings.
    - [Service] (grpc/range.go, grpc/server.go): range scans and the handlers of
      the key-value service; [ServiceProofs]: what they do, as calls on a map.
      [Client] (client/client.go, client/kv.go): calls, redirects, streams.
      [Dump], [DumpProofs], [DumpLocal] (cmd/pallasdb/dump.go): the
      dump format, dumps and restores of a server and of a directory.
      [SqlService], [SqlServiceProofs] (grpc/sql.go, client/sql.go): a statement
      from its text through the stream to the result the client collects.
    - [Membership] (cluster/discovery, cluster/membership.go, parts of
      cluster/node.go): what a node sees of gossip, the state of a node and its
      operations on the Raft configuration; [MembershipProofs]: the changes they
      make, the candidates of a bootstrap, the
      eviction timers.
    - [ClusterService] (grpc/cluster_server.go, grpc/cluster_node.go,
      grpc/errors.go, cluster/fence.go): the handlers of a replicated node, the
      readiness of reads, redirects, the fence of the applied index;
      [ClusterServiceProofs]: a state machine that is fed a log.
    - [Access] (grpc/auth.go, grpc/interceptors.go, grpc/metrics.go,
      grpc/options.go): the options of a server, the chain of its interceptors
      around the handlers, who is authorised.
    - [Cli] (cmd/pallasdb/cluster.go, config.go, sql.go): from settings to the
      configuration of a node and its store, and the interactive SQL session.
    - [StorageTheorems], [KVTheorems], [RecoveryTheorems], [SqlTheorems], [DBTheorems],
      [ClusterTheorems], [ServiceTheorems], [MembershipTheorems],
      [ClusterServiceTheorems]: the properties, with their instances on concrete
      inputs; [Samples], [SchemaSample]: concrete parameters.

    ** How code corresponds to definitions

    A Go function is a function on values; one that mutates its receiver returns
    the new state, with the result when it can fail half way ([bindS] and the
    notation [let!]).  Pointers to tables and transactions are indices into the
    heaps [kv_tables] and [kv_txs].  Mutexes appear as the atomicity of the
    steps of [KVSystem] and [AppliedIndex]: one critical section, one step.  Memtables are values:
    the code publishes an array by value and later only appends to it or
    replaces it, so a published array never changes.  Loops over iterators take
    the iterator's own bound ([steps]) as fuel; the other loops recurse on their
    data or on the length of their input, and the theorems state that a result
    is returned, so the fuel is enough.  Only the wait for an applied index can
    last as long as Raft likes: there the fuel is the number of rounds that are
    looked at, and out of fuel means that the call still waits.

    What a call cannot decide itself is an argument: the outcome of each [Send]
    and of each look at the context or the clock ([stream_env], [call_ctx]), the
    servers behind a client, the file operation that fails in Restore.

    Third-party code is an interface: the Bloom filter ([Bloom], with
    [BloomLaws]: an added key tests positive, marshalling round-trips) and
    encoding/json at the types the code stores ([MetaJson] with [MetaJsonLaws],
    the schemas of [Table], [CommandJson]).  The cache is [Ristretto] with
    [RistrettoLaws]: a Set is buffered or dropped, a Del acts at once and again
    from the buffer, the library applies the buffer in order and evicts as it
    likes.  Raft, gossip and the other nodes are
    [Cluster] with [ClusterLaws] (what a configuration change does, and that the
    other nodes run the same code) and [RaftLog] with [RaftLogLaws] (what is
    committed stays, the state machine is fed the committed log in order, a
    future that succeeded has been applied, a verified leader that has committed
    an entry of its term knows the commit index).

    ** What the theorems show

    - The store ([KVTheorems]): snapshot isolation and refinement of the
      abstract machine in every reachable state, first committer wins, no lost
      update, reference counts and table lifetime, flushes and merges are
      invisible to readers, range scans, Set, Del and Get.
    - Crashes ([RecoveryTheorems]): whatever the store was doing and however often
      it crashed, opening its directory finds every acknowledged transaction,
      unless the crash fell into the first flush, before any metadata was
      published, when Open can refuse the directory; what a crash inside the
      rewrite of the log leaves.  The theorems ask for sizes within the limits
      ([room]) and for a checksum that notices a torn metadata slot.  The lemma
      [crash_windows] runs the two crashes that do harm.
    - The cache ([Cache]): when no Get overlaps a commit, a Get answers the
      committed value, or an earlier one while the invalidation of the key is
      still buffered ([cache_coherent]); the lemma [cache_stale] runs a Get that
      overlaps a commit and leaves a stale value.
    - Storage ([StorageTheorems]): SSTable and record round trips, the merge as
      a cursor in both directions, durability and atomicity of the log under
      crashes, atomic metadata updates; and a defect of SortedArray.Del.
    - Rows and expressions ([SqlTheorems]): key order, prefix bounds, row round
      trips, schema validation, typed and total evaluation, tuple order; the
      parser is total and reads back every statement that can be printed.
    - Tables ([DBTheorems]): every statement takes the committed database where
      the relational specification says, or fails and leaves it; SELECT returns
      the matching rows whatever plan is chosen; nested transactions; rows are
      written and removed with all their index entries.
    - The cluster ([ClusterTheorems]): replicas agree, commands and snapshots
      round-trip, a cut snapshot is refused, what Restore can leave behind, and
      no waiter for the applied index misses its wake-up.
    - Services and tools ([ServiceTheorems]): calls are steps of a map that keeps
      engine metadata out of reach, scans deliver what was asked for, a
      redirected scan delivers its rows once, dumps are complete and restore what
      was dumped; a client of the SQL service gets the answer of the relational
      specification.
    - Membership ([MembershipTheorems]): the configuration stays electable with
      distinct identities, one node bootstraps, evictions are justified, a node
      gets its vote in two steps.
    - Replicated nodes ([ClusterServiceTheorems]): acknowledged writes are in the
      log with the log's answer, linearizable reads see all that was committed
      before them on a leader that has committed an entry of its term, the fence
      keeps them from blocking; the lemma [stale_after_election] runs a leader
      that has not.

    - Access ([Access]): guarded calls reach their handler only for authorised
      callers, whatever the options; counters of requests balance.
    - The command line ([Cli]): checked options make configurations the node, the
      store and gossip accept; a session runs exactly the statements of a script.

    ** Not modelled

    Failures of file operations other than crashes, except in Restore, and the
    background compaction of a store while it is being restored; writes to a
    transaction while a nested one is open (a nested transaction copies the
    updates of its parent); the check of gRPC that the text of a statement is
    UTF-8 (it is bytes here); goroutines
    and channels of the background compaction, and error logging; directory
    handling (db/os_unix.go, db/os_other.go).  hashicorp/raft and Serf themselves,
    and the code that only wires them up (Open of cluster/node.go, Start of
    cluster/discovery/serf.go, the ticker loops); the races inside one membership
    operation, which is a step here.  The loading of certificates, the registry
    of metrics, health checks, starting and stopping of servers, generated
    protocol code, flags and files of settings, output formats, benchmarks and
    the commands that print what one call returns: input and output around the
    database or configuration of libraries. *)

From Stdlib Require Import ZArith Lia.
From Stdlib.Strings Require Import Byte.
From Stdlib Require Export Sorted.
From stdpp Require Export base list numbers strings.

#[global] Set Default Goal Selector "!".

(** ** Results: value, error, panic, out of fuel *)

(** The gRPC status codes the services use ([codes.Code]). *)
Inductive Code : Type :=
  | codes_OK | codes_Canceled | codes_Unknown | codes_InvalidArgument | codes_DeadlineExceeded
  | codes_NotFound | codes_PermissionDenied | codes_Aborted | codes_Internal | codes_Unavailable | codes_Unauthenticated.

#[export] Instance Code_eq_dec : EqDecision Code.
Proof. solve_decision. Defined.

(** [leaderInfo] of grpc/errors.go, the details of a redirect. *)
Record leaderInfo := MkLeader { li_ID : string; li_GRPCAddr : string; li_RaftAddr : string }.

#[export] Instance leaderInfo_eq_dec : EqDecision leaderInfo.
Proof. solve_decision. Defined.

(** The sentinel errors the sources compare with [errors.Is], a gRPC status
    with its details, the [noRetry] wrapper of the client, and [errorsNew] for
    the errors that are only ever reported. *)
Inductive error : Type :=
  | io_EOF | io_ErrUnexpectedEOF | os_ErrClosed
  | ErrEntryTooLarge | ErrBadSum | ErrBadEntryOp
  | ErrLogHeaderCorrupt
  | errMetaAbsent | ErrMetaCorrupt | ErrMetaUnreadable
  | ErrKVClosed | ErrTXDone | ErrTXConflict
  | ErrOutOfRange | errTooDeep
  | ErrEmptyCommand | ErrUnknownCommandFormat | ErrTrailingCommandBytes
  | ErrEmptyBatch | ErrUnsupportedCommandVersion | ErrUnknownCommandOp
  | ErrSnapshotMagic | ErrSnapshotVersion | ErrSnapshotChecksum | ErrSnapshotCorrupt
  | ErrFSMClosed | ErrRestoreBusy | ctx_Err
  | context_Canceled | context_DeadlineExceeded
  | raft_ErrNotLeader | raft_ErrLeadershipLost | raft_ErrRaftShutdown
  | raft_ErrLeadershipTransferInProgress | raft_ErrCantBootstrap
  | raft_ErrEnqueueTimeout | raft_ErrAbortedByRestore
  | errStreamClosed | errDumpCorrupt
  | client_ErrClosed | client_ErrNoLeader | client_ErrNotFound
  | status_Error (c : Code) (msg : string) (leader : option leaderInfo)
  | noRetry (e : error)
  | errorsNew (msg : string).

#[export] Instance error_eq_dec : EqDecision error.
Proof. solve_decision. Defined.

(** A Go call returns a value, returns a non-nil [error], panics (a failed
    [check], an index out of range), or, for a loop modelled with fuel, runs
    out of it.  The theorems rule the last case out. *)
Inductive res (A : Type) : Type :=
  | Ok (a : A)
  | Err (e : error)
  | Panic (msg : string)
  | OutOfFuel.
Arguments Ok {A} a.
Arguments Err {A} e.
Arguments Panic {A} msg.
Arguments OutOfFuel {A}.

#[export] Instance res_ret : MRet res := @Ok.
#[export] Instance res_bind : MBind res := fun A B f m =>
  match m with
  | Ok a => f a
  | Err e => Err e
  | Panic s => Panic s
  | OutOfFuel => OutOfFuel
  end.
#[export] Instance res_fmap : FMap res := fun A B f m =>
  match m with
  | Ok a => Ok (f a)
  | Err e => Err e
  | Panic s => Panic s
  | OutOfFuel => OutOfFuel
  end.

#[export] Instance res_eq_dec `{EqDecision A} : EqDecision (res A).
Proof. solve_decision. Defined.

Definition is_ok {A} (r : res A) : Prop := ∃ a, r = Ok a.

(** [check(cond)] of db/assert.go. *)
Definition check (cond : bool) : res unit :=
  if cond then Ok tt else Panic "assertion failure".

(** [xs[i]] with Go's bounds check. *)
Definition go_index {A} (l : list A) (i : nat) : res A :=
  match l !! i with
  | Some a => Ok a
  | None => Panic "index out of range"
  end.

Lemma bind_ok {A B} (m : res A) (f : A → res B) b :
  (m ≫= f) = Ok b → ∃ a, m = Ok a ∧ f a = Ok b.
Proof. destruct m; simpl; intros; try discriminate. eauto. Qed.

Lemma go_index_ok {A} (l : list A) i a : go_index l i = Ok a ↔ l !! i = Some a.
Proof. unfold go_index. destruct (l !! i); split; congruence. Qed.

(** Left fold in the result monad: a [for ... range] loop with early return. *)
Fixpoint foldM {A S} (f : S → A → res S) (s : S) (l : list A) : res S :=
  match l with
  | [] => Ok s
  | a :: l => s' ← f s a; foldM f s' l
  end.

Fixpoint mapM_res {A B} (f : A → res B) (l : list A) : res (list B) :=
  match l with
  | [] => Ok []
  | a :: l => b ← f a; bs ← mapM_res f l; Ok (b :: bs)
  end.

Lemma foldM_app {A S} (f : S → A → res S) s l1 l2 :
  foldM f s (l1 ++ l2) = (s' ← foldM f s l1; foldM f s' l2).
Proof. revert s. induction l1 as [|a l1 IH]; intros s; [done|]. simpl. destruct (f s a); simpl; auto. Qed.

(** Operations that keep their state when they fail: a state with a result. *)
Definition bindS {S A B} (m : S * res A) (f : S → A → S * res B) : S * res B :=
  match m with
  | (s, Ok a) => f s a
  | (s, Err e) => (s, Err e)
  | (s, Panic msg) => (s, Panic msg)
  | (s, OutOfFuel) => (s, OutOfFuel)
  end.

Notation "'let!' ( s , a ) := m 'in' k" := (bindS m (fun s a => k))
  (at level 10, s name, a name, k at level 200).

(** ** Automation *)

Create HintDb pallas.
Create Rewrite HintDb pallas_rw.

(** Invert a chain of monadic binds that produced [Ok]. *)
Ltac inv_ok :=
  repeat match goal with
  | H : (_ ≫= _) = Ok _ |- _ => apply bind_ok in H as (? & ? & ?)
  | H : Ok _ = Ok _ |- _ => injection H as H; try subst
  | H : Err _ = Ok _ |- _ => discriminate H
  | H : Panic _ = Ok _ |- _ => discriminate H
  | H : OutOfFuel = Ok _ |- _ => discriminate H
  | H : go_index _ _ = Ok _ |- _ => rewrite go_index_ok in H
  | H : check ?c = Ok _ |- _ => destruct c eqn:?; [clear H|discriminate H]
  end.

(** Reduce monadic binds and nothing else. *)
Ltac rs := cbn [mbind res_bind fmap res_fmap mret res_ret].

(** Case split on the scrutinee of the first [if]/[match] of the goal. *)
Ltac case_if :=
  match goal with
  | |- context [if ?b then _ else _] => destruct b eqn:?
  end.

(** The same in a hypothesis. *)
Ltac case_if_in H :=
  match type of H with
  | context [if ?b then _ else _] => destruct b eqn:?
  end.

(** ** Bytes *)

Abbreviation byte := Byte.byte (only parsing).
Abbreviation bytes := (list Byte.byte) (only parsing).

#[export] Instance byte_eq_dec : EqDecision Byte.byte.
Proof. refine (fun a b => Byte.byte_eq_dec a b). Defined.

Definition b2z (b : byte) : Z := Z.of_N (Byte.to_N b).

(** Conversion to [uint8] with wrap-around. *)
Definition z2b (z : Z) : byte :=
  match Byte.of_N (Z.to_N (z mod 256)) with
  | Some b => b
  | None => x00
  end.

(** The bytes of a string constant. *)
Definition bs (s : string) : bytes := String.list_byte_of_string s.

Lemma b2z_range b : (0 ≤ b2z b < 256)%Z.
Proof.
  unfold b2z. pose proof (Byte.to_N_bounded b). lia.
Qed.

Lemma b2z_inj a b : b2z a = b2z b → a = b.
Proof.
  unfold b2z. intros H%N2Z.inj.
  pose proof (Byte.of_to_N a) as Ha. pose proof (Byte.of_to_N b) as Hb.
  rewrite H in Ha. congruence.
Qed.

#[export] Instance b2z_Inj : Inj (=) (=) b2z := b2z_inj.

Lemma b2z_z2b z : b2z (z2b z) = (z mod 256)%Z.
Proof.
  unfold z2b, b2z. pose proof (Z.mod_pos_bound z 256 eq_refl) as Hb.
  destruct (Byte.of_N (Z.to_N (z mod 256))) eqn:E.
  - apply Byte.to_of_N in E. rewrite E. lia.
  - apply Byte.of_N_None_iff in E. lia.
Qed.

Lemma z2b_b2z b : z2b (b2z b) = b.
Proof.
  apply b2z_inj. rewrite b2z_z2b. apply Z.mod_small, b2z_range.
Qed.

#[export] Hint Rewrite b2z_z2b z2b_b2z : pallas_rw.

(** ** [bytes.Compare] *)

Fixpoint bytes_compare (a b : bytes) : comparison :=
  match a, b with
  | [], [] => Eq
  | [], _ :: _ => Lt
  | _ :: _, [] => Gt
  | x :: a, y :: b =>
      match (b2z x ?= b2z y)%Z with
      | Eq => bytes_compare a b
      | c => c
      end
  end.

(** [bytes.Compare(a, b) < 0] and friends. *)
Definition bytes_lt (a b : bytes) : Prop := bytes_compare a b = Lt.
Definition bytes_ltb (a b : bytes) : bool :=
  match bytes_compare a b with Lt => true | _ => false end.
Definition bytes_leb (a b : bytes) : bool :=
  match bytes_compare a b with Gt => false | _ => true end.
Definition bytes_equal (a b : bytes) : bool := bool_decide (a = b).

Lemma bytes_compare_eq a b : bytes_compare a b = Eq ↔ a = b.
Proof.
  revert b. induction a as [|x a IH]; intros [|y b]; simpl; try (split; congruence).
  destruct (Z.compare_spec (b2z x) (b2z y)) as [E|E|E].
  - apply b2z_inj in E as ->. rewrite IH. split; congruence.
  - split; [congruence|]. intros [= -> ->]. lia.
  - split; [congruence|]. intros [= -> ->]. lia.
Qed.

Lemma bytes_compare_refl a : bytes_compare a a = Eq.
Proof. by apply bytes_compare_eq. Qed.

Lemma bytes_compare_antisym a b : bytes_compare a b = CompOpp (bytes_compare b a).
Proof.
  revert b. induction a as [|x a IH]; intros [|y b]; simpl; try done.
  rewrite (Z.compare_antisym (b2z y) (b2z x)).
  destruct (b2z y ?= b2z x)%Z; simpl; auto.
Qed.

Lemma bytes_compare_gt a b : bytes_compare a b = Gt ↔ bytes_lt b a.
Proof.
  unfold bytes_lt. rewrite bytes_compare_antisym.
  destruct (bytes_compare b a); simpl; split; congruence.
Qed.

#[export] Instance bytes_lt_trans : Transitive bytes_lt.
Proof.
  unfold bytes_lt. intros a. induction a as [|x a IH]; intros [|y b] [|z c]; simpl; try done.
  destruct (Z.compare_spec (b2z x) (b2z y)), (Z.compare_spec (b2z y) (b2z z)); try done.
  - rewrite (proj2 (Z.compare_eq_iff (b2z x) (b2z z))) by lia. eauto.
  - intros _ _. rewrite (proj2 (Z.compare_lt_iff (b2z x) (b2z z))) by lia. done.
  - intros _ _. rewrite (proj2 (Z.compare_lt_iff (b2z x) (b2z z))) by lia. done.
  - intros _ _. rewrite (proj2 (Z.compare_lt_iff (b2z x) (b2z z))) by lia. done.
Qed.

#[export] Instance bytes_lt_irrefl : Irreflexive bytes_lt.
Proof. intros a. unfold complement, bytes_lt. rewrite bytes_compare_refl. discriminate. Qed.

#[export] Instance bytes_lt_dec a b : Decision (bytes_lt a b).
Proof. unfold bytes_lt. apply _. Defined.

Lemma bytes_lt_total a b : bytes_lt a b ∨ a = b ∨ bytes_lt b a.
Proof.
  destruct (bytes_compare a b) eqn:E.
  - right; left. by apply bytes_compare_eq.
  - by left.
  - right; right. by apply bytes_compare_gt.
Qed.

Lemma bytes_lt_not a b : bytes_lt a b → ¬ bytes_lt b a.
Proof. intros H1 H2. by apply (bytes_lt_irrefl a), (bytes_lt_trans _ b). Qed.

Lemma bytes_ltb_lt a b : bytes_ltb a b = true ↔ bytes_lt a b.
Proof. unfold bytes_ltb, bytes_lt. destruct (bytes_compare a b); split; congruence. Qed.

Lemma bytes_leb_le a b : bytes_leb a b = true ↔ ¬ bytes_lt b a.
Proof.
  unfold bytes_leb. destruct (bytes_compare a b) eqn:E.
  - apply bytes_compare_eq in E as ->. split; [|done]. intros _. apply bytes_lt_irrefl.
  - split; [|done]. intros _. by apply bytes_lt_not.
  - apply bytes_compare_gt in E. split; [done|]. intros []. done.
Qed.

Lemma bytes_compare_spec a b :
  CompareSpec (a = b) (bytes_lt a b) (bytes_lt b a) (bytes_compare a b).
Proof.
  destruct (bytes_compare a b) eqn:E; constructor.
  - by apply bytes_compare_eq.
  - done.
  - by apply bytes_compare_gt.
Qed.

Lemma bytes_equal_eq a b : bytes_equal a b = true ↔ a = b.
Proof. apply bool_decide_eq_true. Qed.

Lemma bytes_equal_false a b : a ≠ b → bytes_equal a b = false.
Proof. apply bool_decide_eq_false_2. Qed.

Lemma bytes_equal_refl a : bytes_equal a a = true.
Proof. by apply bytes_equal_eq. Qed.

(** A shared prefix does not matter to the comparison. *)
Lemma bytes_compare_app_l p a b : bytes_compare (p ++ a) (p ++ b) = bytes_compare a b.
Proof. induction p as [|x p IH]; [done|]. simpl. by rewrite Z.compare_refl. Qed.

(** Strings of one length compare like their concatenations start. *)
Lemma bytes_compare_app_eqlen a a' b b' :
  length a = length a' →
  bytes_compare (a ++ b) (a' ++ b') =
    match bytes_compare a a' with Eq => bytes_compare b b' | c => c end.
Proof.
  revert a'. induction a as [|x a IH]; intros [|y a'] Hl; try discriminate Hl; [done|].
  simpl. destruct (b2z x ?= b2z y)%Z; [|done|done]. apply IH. by injection Hl.
Qed.

Lemma bytes_compare_cons_lt x y a b :
  (b2z x < b2z y)%Z → bytes_compare (x :: a) (y :: b) = Lt.
Proof. intros H. simpl. by rewrite (proj2 (Z.compare_lt_iff _ _) H). Qed.

#[export] Hint Resolve bytes_compare_refl bytes_lt_irrefl bytes_lt_not : pallas.

(** ** Calls that return *)

(** The call returns, with a value or with an error: it does not panic and the
    fuel was enough. *)
Definition returns {A} (r : res A) : Prop :=
  match r with Ok _ | Err _ => True | _ => False end.

Lemma returns_bind {A B} (m : res A) (f : A → res B) :
  returns m → (∀ a, m = Ok a → returns (f a)) → returns (m ≫= f).
Proof. destruct m; simpl; auto. Qed.

Lemma returns_if {A} (b : bool) (x y : res A) : returns x → returns y → returns (if b then x else y).
Proof. by destruct b. Qed.


