(* ===== verification/GoLib.v ===== *)
(** * The parts of Go's standard library the sources use

    Fixed-width integers ([uint32], [uint64], [int64] as [Z] with the wrap
    written out), [encoding/binary] (little and big endian, uvarint),
    [hash/crc32], the [string(byte)] conversion and [slices.BinarySearchFunc].
    Everything is executable; the lemmas are the facts the components share. *)

From Stdlib Require Import ZArith Lia.
From Stdlib.Strings Require Import Byte.
From stdpp Require Import base list numbers.
From S2P Require Import Prelude.

Open Scope Z_scope.

(** ** Machine integers *)

Definition u32 (z : Z) : Z := z mod 2 ^ 32.
Definition u64 (z : Z) : Z := z mod 2 ^ 64.

(** Conversion to [int64]: two's complement wrap-around. *)
Definition s64 (z : Z) : Z :=
  let m := z mod 2 ^ 64 in if m <? 2 ^ 63 then m else m - 2 ^ 64.

Definition is_i64 (z : Z) : Prop := - 2 ^ 63 ≤ z < 2 ^ 63.

#[export] Instance is_i64_dec z : Decision (is_i64 z).
Proof. unfold is_i64. apply _. Defined.

Lemma s64_range z : is_i64 (s64 z).
Proof.
  unfold s64, is_i64. pose proof (Z.mod_pos_bound z (2 ^ 64) eq_refl).
  destruct (Z.ltb_spec (z mod 2 ^ 64) (2 ^ 63)); lia.
Qed.

Lemma s64_id z : is_i64 z → s64 z = z.
Proof.
  unfold s64, is_i64. intros H. destruct (decide (0 ≤ z)).
  - rewrite Z.mod_small by lia. destruct (Z.ltb_spec z (2 ^ 63)); lia.
  - rewrite <- (Z.mod_add z 1) by lia. rewrite Z.mod_small by lia.
    destruct (Z.ltb_spec (z + 1 * 2 ^ 64) (2 ^ 63)); lia.
Qed.

Lemma s64_u64 z : s64 (u64 z) = s64 z.
Proof. unfold s64, u64. by rewrite Z.mod_mod by lia. Qed.

Lemma u64_i64 z : is_i64 z → u64 z = if 0 <=? z then z else z + 2 ^ 64.
Proof.
  unfold u64, is_i64. intros H. destruct (Z.leb_spec 0 z).
  - rewrite Z.mod_small; lia.
  - rewrite <- (Z.mod_add z 1) by lia. rewrite Z.mod_small by lia. lia.
Qed.

Lemma testbit_small w n : 0 ≤ n → 0 ≤ w < 2 ^ n → Z.testbit w n = false.
Proof.
  intros Hn Hw. rewrite Z.testbit_eqb by done. rewrite Z.div_small by done. done.
Qed.

Lemma land_pow2_small w n : 0 ≤ n → 0 ≤ w < 2 ^ n → Z.land w (2 ^ n) = 0.
Proof.
  intros Hn Hw. apply Z.bits_inj'. intros m Hm.
  rewrite Z.land_spec, Z.bits_0, Z.pow2_bits_eqb by lia.
  destruct (Z.eqb_spec n m) as [<-|]; [|by rewrite andb_false_r].
  by rewrite testbit_small.
Qed.

(** Flipping the sign bit turns the [int64] order into the [uint64] order. *)
Lemma u64_flip_sign z : is_i64 z → Z.lxor (u64 z) (2 ^ 63) = z + 2 ^ 63.
Proof.
  intros H. rewrite (u64_i64 z H). unfold is_i64 in H.
  assert (Hadd : ∀ w, 0 ≤ w < 2 ^ 63 → Z.lxor w (2 ^ 63) = w + 2 ^ 63).
  { intros w Hw. symmetry. apply Z.add_nocarry_lxor, land_pow2_small; lia. }
  destruct (Z.leb_spec 0 z).
  - apply Hadd. lia.
  - replace (z + 2 ^ 64) with ((z + 2 ^ 63) + 2 ^ 63) by lia.
    rewrite <- (Hadd (z + 2 ^ 63)) at 1 by lia.
    by rewrite Z.lxor_assoc, Z.lxor_nilpotent, Z.lxor_0_r.
Qed.

(** ** [encoding/binary] *)

Fixpoint le_bytes (n : nat) (z : Z) : bytes :=
  match n with
  | O => []
  | S n => z2b z :: le_bytes n (z / 256)
  end.

Fixpoint le_val (l : bytes) : Z :=
  match l with
  | [] => 0
  | b :: l => b2z b + 256 * le_val l
  end.

Definition be_bytes (n : nat) (z : Z) : bytes := rev (le_bytes n z).
Definition be_val (l : bytes) : Z := le_val (rev l).

Lemma le_bytes_length n z : length (le_bytes n z) = n.
Proof. revert z. induction n; intros; simpl; auto. Qed.

Lemma be_bytes_length n z : length (be_bytes n z) = n.
Proof. unfold be_bytes. by rewrite length_rev, le_bytes_length. Qed.

Lemma le_val_bytes n z : le_val (le_bytes n z) = z mod 256 ^ Z.of_nat n.
Proof.
  revert z. induction n as [|n IH]; intros z; simpl le_bytes; simpl le_val.
  - by rewrite Z.mod_1_r.
  - rewrite IH, b2z_z2b, Nat2Z.inj_succ, Z.pow_succ_r by lia.
    symmetry. apply Z.rem_mul_r; lia.
Qed.

Lemma le_val_range l : 0 ≤ le_val l < 256 ^ Z.of_nat (length l).
Proof.
  induction l as [|b l IH]; [simpl; lia|].
  simpl le_val. simpl length. rewrite Nat2Z.inj_succ, Z.pow_succ_r by lia.
  pose proof (b2z_range b). nia.
Qed.

Lemma le_bytes_val l : le_bytes (length l) (le_val l) = l.
Proof.
  induction l as [|b l IH]; [done|]. simpl. pose proof (b2z_range b).
  f_equal.
  - apply b2z_inj. rewrite b2z_z2b, Z.mul_comm, Z.mod_add by lia. by apply Z.mod_small.
  - rewrite Z.mul_comm, Z.div_add, Z.div_small, Z.add_0_l by lia. done.
Qed.

Lemma le_bytes_mod n z : le_bytes n (z mod 256 ^ Z.of_nat n) = le_bytes n z.
Proof.
  rewrite <- le_val_bytes. rewrite <- (le_bytes_length n z) at 1. apply le_bytes_val.
Qed.

Lemma be_val_bytes n z : be_val (be_bytes n z) = z mod 256 ^ Z.of_nat n.
Proof. unfold be_val, be_bytes. by rewrite rev_involutive, le_val_bytes. Qed.

(** Big-endian strings sort like the numbers they encode. *)
Lemma be_bytes_snoc n z : be_bytes (S n) z = be_bytes n (z / 256) ++ [z2b z].
Proof. done. Qed.

Lemma be_bytes_compare n a b :
  0 ≤ a < 256 ^ Z.of_nat n → 0 ≤ b < 256 ^ Z.of_nat n →
  bytes_compare (be_bytes n a) (be_bytes n b) = (a ?= b).
Proof.
  revert a b. induction n as [|n IH]; intros a b Ha Hb.
  - simpl in *. replace a with b by lia. by rewrite Z.compare_refl.
  - rewrite !be_bytes_snoc.
    rewrite Nat2Z.inj_succ, Z.pow_succ_r in Ha, Hb by lia.
    rewrite bytes_compare_app_eqlen by (by rewrite !be_bytes_length).
    rewrite IH.
    2,3: split; [apply Z.div_pos; lia|apply Z.div_lt_upper_bound; lia].
    simpl. rewrite !b2z_z2b.
    pose proof (Z.div_mod a 256 ltac:(lia)). pose proof (Z.div_mod b 256 ltac:(lia)).
    pose proof (Z.mod_pos_bound a 256 eq_refl). pose proof (Z.mod_pos_bound b 256 eq_refl).
    destruct (Z.compare_spec (a / 256) (b / 256)) as [E|E|E];
      destruct (Z.compare_spec (a mod 256) (b mod 256)) as [E'|E'|E'];
      symmetry; (apply Z.compare_eq_iff || apply Z.compare_lt_iff || apply Z.compare_gt_iff); lia.
Qed.

(** ** [binary.AppendUvarint] / [binary.Uvarint] *)

(** At most [MaxVarintLen64 = 10] groups of seven bits are ever produced. *)
Fixpoint uvarint_enc (fuel : nat) (v : Z) : bytes :=
  match fuel with
  | O => []
  | S fuel =>
      if 128 <=? v then z2b (Z.lor (v mod 128) 128) :: uvarint_enc fuel (v / 128)
      else [z2b v]
  end.
Definition AppendUvarint (buf : bytes) (v : Z) : bytes := buf ++ uvarint_enc 10 v.

(** [Uvarint]: [Some (value, bytes read)]; [None] stands for [n <= 0]
    (buffer too small or overflow of 64 bits). *)
Fixpoint uvarint_dec (i : nat) (fuel : nat) (buf : bytes) : option (Z * nat) :=
  match fuel, buf with
  | S fuel, b :: rest =>
      if b2z b <? 128 then
        if (i =? 9)%nat && (1 <? b2z b) then None else Some (b2z b, 1%nat)
      else
        match uvarint_dec (S i) fuel rest with
        | Some (v, n) => Some (b2z b - 128 + 128 * v, S n)
        | None => None
        end
  | _, _ => None
  end.
Definition Uvarint (buf : bytes) : option (Z * nat) := uvarint_dec 0 10 buf.

Lemma uvarint_group v : 0 ≤ v → b2z (z2b (Z.lor (v mod 128) 128)) = v mod 128 + 128.
Proof.
  intros Hv. pose proof (Z.mod_pos_bound v 128 eq_refl).
  rewrite b2z_z2b.
  assert (Z.lor (v mod 128) 128 = v mod 128 + 128) as ->.
  { rewrite Z.add_nocarry_lxor by (apply (land_pow2_small _ 7); lia).
    symmetry. apply Z.lxor_lor, (land_pow2_small _ 7); lia. }
  apply Z.mod_small. lia.
Qed.

Lemma uvarint_dec_enc fuel i v rest :
  (i + fuel = 10)%nat → 0 ≤ v → v < 2 ^ (64 - 7 * Z.of_nat i) → (0 < fuel)%nat →
  uvarint_dec i fuel (uvarint_enc fuel v ++ rest) = Some (v, length (uvarint_enc fuel v)).
Proof.
  revert i v. induction fuel as [|fuel IH]; intros i v Hi Hv Hlt Hf; [lia|].
  simpl uvarint_enc. destruct (Z.leb_spec 128 v) as [Hge|Hge].
  - simpl. rewrite uvarint_group by lia.
    pose proof (Z.mod_pos_bound v 128 eq_refl).
    destruct (Z.ltb_spec (v mod 128 + 128) 128); [lia|].
    assert (i ≠ 9)%nat as Hi9.
    { intros ->. change (64 - 7 * Z.of_nat 9) with 1 in Hlt. lia. }
    rewrite IH; [| lia | apply Z.div_pos; lia | | lia].
    + f_equal. f_equal. pose proof (Z.div_mod v 128 ltac:(lia)). lia.
    + apply Z.div_lt_upper_bound; [lia|].
      change 128 with (2 ^ 7). rewrite <- Z.pow_add_r by lia.
      replace (7 + (64 - 7 * Z.of_nat (S i))) with (64 - 7 * Z.of_nat i) by lia. done.
  - simpl. rewrite b2z_z2b, Z.mod_small by lia.
    destruct (Z.ltb_spec v 128); [|lia].
    destruct (Nat.eqb_spec i 9) as [->|]; [|done].
    change (64 - 7 * Z.of_nat 9) with 1 in Hlt.
    destruct (Z.ltb_spec 1 v); [lia|done].
Qed.

Lemma Uvarint_Append v rest :
  0 ≤ v < 2 ^ 64 →
  Uvarint (AppendUvarint [] v ++ rest) = Some (v, length (AppendUvarint [] v)).
Proof.
  intros H. apply uvarint_dec_enc; lia.
Qed.

(** ** [hash/crc32] *)

Definition crc_bit (poly c : Z) : Z :=
  if Z.odd c then Z.lxor (Z.shiftr c 1) poly else Z.shiftr c 1.
Definition crc_byte (poly c : Z) (b : byte) : Z :=
  Nat.iter 8 (crc_bit poly) (Z.lxor c (b2z b)).
Definition crc_sum (poly : Z) (l : bytes) : Z :=
  Z.lxor (foldl (crc_byte poly) 0xFFFFFFFF l) 0xFFFFFFFF.

(** [crc32.ChecksumIEEE] and a CRC-32C (Castagnoli) sum. *)
Definition ChecksumIEEE : bytes → Z := crc_sum 0xEDB88320.
Definition ChecksumC : bytes → Z := crc_sum 0x82F63B78.

Example crc_ieee_check : ChecksumIEEE (bs "123456789") = 0xCBF43926.
Proof. vm_compute. reflexivity. Qed.
Example crc_castagnoli_check : ChecksumC (bs "123456789") = 0xE3069283.
Proof. vm_compute. reflexivity. Qed.

Lemma lxor_u32 a b : 0 ≤ a < 2 ^ 32 → 0 ≤ b < 2 ^ 32 → 0 ≤ Z.lxor a b < 2 ^ 32.
Proof.
  intros Ha Hb. split; [apply Z.lxor_nonneg; lia|].
  destruct (decide (Z.lxor a b = 0)) as [->|Hne]; [lia|].
  apply Z.log2_lt_pow2; [pose proof (proj2 (Z.lxor_nonneg a b)); lia|].
  eapply Z.le_lt_trans; [apply Z.log2_lxor; lia|].
  assert (∀ x, 0 ≤ x < 2 ^ 32 → Z.log2 x < 32).
  { intros x Hx. destruct (decide (x = 0)) as [->|]; [simpl; lia|]. apply Z.log2_lt_pow2; lia. }
  pose proof (H a Ha). pose proof (H b Hb). lia.
Qed.

Lemma crc_sum_range poly l : 0 ≤ poly < 2 ^ 32 → 0 ≤ crc_sum poly l < 2 ^ 32.
Proof.
  intros Hp. unfold crc_sum. apply lxor_u32; [|lia].
  assert (Hbit : ∀ c, 0 ≤ c < 2 ^ 32 → 0 ≤ crc_bit poly c < 2 ^ 32).
  { intros c Hc. unfold crc_bit.
    assert (0 ≤ Z.shiftr c 1 < 2 ^ 32).
    { rewrite Z.shiftr_div_pow2 by lia. change (2 ^ 1) with 2.
      split; [apply Z.div_pos; lia|]. apply Z.div_lt_upper_bound; lia. }
    destruct (Z.odd c); [apply lxor_u32; lia|done]. }
  assert (Hiter : ∀ n c, 0 ≤ c < 2 ^ 32 → 0 ≤ Nat.iter n (crc_bit poly) c < 2 ^ 32).
  { intros n. induction n; intros; simpl; auto. }
  assert (Hc0 : 0 ≤ 0xFFFFFFFF < 2 ^ 32) by lia.
  revert Hc0. generalize 0xFFFFFFFF.
  induction l as [|b l IH]; intros c Hc; [done|]. simpl. apply IH.
  apply Hiter, lxor_u32; [done|]. pose proof (b2z_range b). lia.
Qed.

Lemma ChecksumIEEE_range l : 0 ≤ ChecksumIEEE l < 2 ^ 32.
Proof. apply crc_sum_range. lia. Qed.
Lemma ChecksumC_range l : 0 ≤ ChecksumC l < 2 ^ 32.
Proof. apply crc_sum_range. lia. Qed.

Global Opaque ChecksumIEEE ChecksumC.
Global Arguments ChecksumIEEE : simpl never.
Global Arguments ChecksumC : simpl never.

(** ** [string(b)] for [b] of type [byte]

    The conversion yields the UTF-8 encoding of the code point [b], which is
    two bytes long from 128 on. *)
Definition string_of_byte (b : byte) : bytes :=
  if b2z b <? 128 then [b]
  else [z2b (Z.lor 0xC0 (Z.shiftr (b2z b) 6)); z2b (Z.lor 0x80 (Z.land (b2z b) 0x3F))].

(** ** [slices.BinarySearchFunc] with [bytes.Compare] *)

Fixpoint binary_search_loop (fuel : nat) (keys : list bytes) (target : bytes) (i j : nat) : nat :=
  match fuel with
  | O => i
  | S fuel =>
      if (i <? j)%nat then
        let h := ((i + j) / 2)%nat in
        match keys !! h with
        | Some k =>
            if bytes_ltb k target then binary_search_loop fuel keys target (S h) j
            else binary_search_loop fuel keys target i h
        | None => i
        end
      else i
  end.

Definition BinarySearch (keys : list bytes) (target : bytes) : nat * bool :=
  let n := length keys in
  let i := binary_search_loop n keys target 0 n in
  (i, match keys !! i with Some k => bytes_equal k target | None => false end).

Global Arguments le_bytes : simpl never.
Global Arguments le_val : simpl never.
Global Arguments be_bytes : simpl never.
Global Arguments be_val : simpl never.
Global Arguments s64 : simpl never.
Global Arguments u64 : simpl never.
Global Arguments u32 : simpl never.
Global Arguments AppendUvarint : simpl never.
Global Arguments Uvarint : simpl never.

(** ** [strconv]: decimal numbers *)

(** A 64-bit number has at most 20 digits. *)
Fixpoint format_digits (fuel : nat) (n : Z) : bytes :=
  match fuel with
  | O => []
  | S fuel => (if n <? 10 then [] else format_digits fuel (n / 10)) ++ [z2b (48 + n mod 10)]
  end.

Definition FormatUint (n : Z) : bytes := format_digits 20 n.
Definition FormatInt (n : Z) : bytes := if n <? 0 then bs "-" ++ FormatUint (- n) else FormatUint n.

Definition is_digit (ch : byte) : bool := (48 <=? b2z ch) && (b2z ch <=? 57).

Definition digits_value (l : bytes) : Z := foldl (fun n b => 10 * n + (b2z b - 48)) 0 l.

(** An optional sign. *)
Definition split_sign (s : bytes) : bool * bytes :=
  match s with
  | x2d :: s => (true, s)
  | x2b :: s => (false, s)
  | s => (false, s)
  end.

Lemma split_sign_none c s : c ≠ x2d → c ≠ x2b → split_sign (c :: s) = (false, c :: s).
Proof. by destruct c. Qed.

(** [strconv.ParseInt(s, 10, 64)]: an optional sign and at least one digit. *)
Definition ParseInt (s : bytes) : res Z :=
  let '(neg, digits) := split_sign s in
  if bool_decide (digits = []) || negb (forallb is_digit digits) then Err (errorsNew "invalid syntax") else
  let n := digits_value digits in
  let n := if (neg : bool) then - n else n in
  if bool_decide (is_i64 n) then Ok n else Err (errorsNew "value out of range").

Lemma format_digits_value fuel n : 0 ≤ n < 10 ^ Z.of_nat fuel → digits_value (format_digits fuel n) = n.
Proof.
  revert n. induction fuel as [|fuel IH]; intros n Hn; [cbn in *; lia|].
  cbn [format_digits]. unfold digits_value in *. rewrite foldl_app. cbn [foldl].
  pose proof (Z.mod_pos_bound n 10 ltac:(lia)) as Hm.
  rewrite b2z_z2b, (Z.mod_small (48 + n mod 10)) by lia.
  destruct (Z.ltb_spec n 10) as [Hlt|Hge]; cbn [foldl].
  - rewrite Z.mod_small by lia. lia.
  - rewrite IH; [pose proof (Z.div_mod n 10); lia|].
    rewrite Nat2Z.inj_succ, Z.pow_succ_r in Hn by lia.
    split; [apply Z.div_pos; lia|apply Z.div_lt_upper_bound; lia].
Qed.

Lemma FormatUint_inj a b : 0 ≤ a < 2 ^ 64 → 0 ≤ b < 2 ^ 64 → FormatUint a = FormatUint b → a = b.
Proof.
  intros Ha Hb Heq. apply (f_equal digits_value) in Heq.
  unfold FormatUint in Heq. rewrite !format_digits_value in Heq by (cbn; lia). done.
Qed.

Lemma format_digits_digits fuel n : 0 ≤ n → Forall (fun ch => is_digit ch = true) (format_digits fuel n).
Proof.
  revert n. induction fuel as [|fuel IH]; intros n Hn; [constructor|]. cbn [format_digits].
  apply Forall_app. split.
  - destruct (n <? 10); [constructor|]. apply IH, Z.div_pos; lia.
  - apply Forall_singleton. unfold is_digit. pose proof (Z.mod_pos_bound n 10 ltac:(lia)).
    rewrite b2z_z2b, (Z.mod_small (48 + n mod 10)) by lia. apply andb_true_iff. lia.
Qed.

Lemma FormatUint_ne n : FormatUint n ≠ [].
Proof. unfold FormatUint. cbn [format_digits]. intros [_ ?]%app_eq_nil. done. Qed.
