(* ===== verification/SortedSeq.v ===== *)
(** * Sorted sequences of entries: the abstract view of every sorted container

    A memtable, an SSTable and a merge of both all denote a list of entries
    strictly sorted by key.  This file has the abstract operations on such
    lists ([assoc], [upsert], [overlay], [merge_levels]) and the counting
    lemmas that relate positions with key bounds. *)

From Stdlib Require Import ZArith Lia.
From stdpp Require Import base list numbers.
From S2P Require Import Prelude GoLib.

Record ent := Ent { e_key : bytes; e_val : bytes; e_del : bool }.

#[export] Instance ent_eq_dec : EqDecision ent.
Proof. solve_decision. Defined.

Definition ent_lt (a b : ent) : Prop := bytes_lt (e_key a) (e_key b).

(** Strictly increasing keys. *)
Definition sorted (s : list ent) : Prop := StronglySorted ent_lt s.

Fixpoint sortedb (s : list ent) : bool :=
  match s with
  | e :: (e' :: _) as s' => bytes_ltb (e_key e) (e_key e') && sortedb s'
  | _ => true
  end.

Fixpoint assoc (s : list ent) (k : bytes) : option ent :=
  match s with
  | [] => None
  | e :: s => if bytes_equal (e_key e) k then Some e else assoc s k
  end.

(** Insert an entry, replacing the one with the same key. *)
Fixpoint upsert (e : ent) (s : list ent) : list ent :=
  match s with
  | [] => [e]
  | e' :: s' =>
      match bytes_compare (e_key e) (e_key e') with
      | Lt => e :: s
      | Eq => e :: s'
      | Gt => e' :: upsert e s'
      end
  end.

(** [overlay l s]: the entries of [l] shadow those of [s]. *)
Definition overlay (l s : list ent) : list ent := foldr upsert s l.

(** Levels from newest to oldest, the newest entry of a key wins. *)
Definition merge_levels (ls : list (list ent)) : list ent := foldr overlay [] ls.

(** What a point lookup through the levels finds. *)
Fixpoint assoc_levels (ls : list (list ent)) (k : bytes) : option ent :=
  match ls with
  | [] => None
  | l :: ls => match assoc l k with Some e => Some e | None => assoc_levels ls k end
  end.

Definition live (e : ent) : bool := negb (e_del e).

(** The value a reader sees for [k]: tombstones hide it. *)
Definition visible (o : option ent) : option bytes :=
  match o with
  | Some e => if e_del e then None else Some (e_val e)
  | None => None
  end.

(** The number of entries whose key satisfies [P]. *)
Fixpoint cnt (P : bytes → bool) (s : list ent) : nat :=
  match s with
  | [] => 0
  | e :: s => if P (e_key e) then S (cnt P s) else cnt P s
  end.

(** A set of keys closed under smaller keys: a cut of the key order. *)
Definition down (P : bytes → bool) : Prop :=
  ∀ a b, bytes_lt a b → P b = true → P a = true.

Definition below (k : bytes) : bytes → bool := fun x => bytes_ltb x k.
Definition upto (k : bytes) : bytes → bool := fun x => bytes_leb x k.

(** ** Sortedness *)

Lemma sorted_cons e s : sorted (e :: s) ↔ sorted s ∧ Forall (ent_lt e) s.
Proof.
  split.
  - intros H. inversion H; subst. done.
  - intros []. by constructor.
Qed.

#[export] Instance ent_lt_trans : Transitive ent_lt.
Proof. intros a b c. unfold ent_lt. apply transitivity. Qed.

Lemma sortedb_sorted s : sortedb s = true ↔ sorted s.
Proof.
  induction s as [|e s IH]; [split; [constructor|done]|].
  destruct s as [|e' s]; [split; [repeat constructor|done]|].
  change (bytes_ltb (e_key e) (e_key e') && sortedb (e' :: s) = true ↔ sorted (e :: e' :: s)).
  rewrite andb_true_iff, IH, (sorted_cons e), bytes_ltb_lt. split.
  - intros [Hlt Hs]. split; [done|]. constructor; [done|].
    apply sorted_cons in Hs as [_ Hs]. eapply Forall_impl; [exact Hs|].
    intros x Hx. by eapply ent_lt_trans.
  - intros [Hs Hf]. inversion Hf; subst. done.
Qed.

#[export] Instance sorted_dec s : Decision (sorted s).
Proof. refine (cast_if (decide (sortedb s = true))); by rewrite <- sortedb_sorted. Defined.

Lemma sorted_app_inv s1 s2 :
  sorted (s1 ++ s2) → sorted s1 ∧ sorted s2 ∧ ∀ a b, a ∈ s1 → b ∈ s2 → ent_lt a b.
Proof.
  induction s1 as [|e s1 IH]; simpl.
  - intros H. split_and!; [constructor|done|]. intros a b Ha. by apply elem_of_nil in Ha.
  - intros [Hs Hf]%sorted_cons. apply IH in Hs as (H1 & H2 & H3).
    apply Forall_app in Hf as [Hf1 Hf2]. split_and!; [by apply sorted_cons|done|].
    intros a b [->|Ha]%elem_of_cons Hb; [|by apply H3].
    rewrite Forall_forall in Hf2. by apply Hf2.
Qed.

Lemma sorted_app s1 s2 :
  sorted s1 → sorted s2 → (∀ a b, a ∈ s1 → b ∈ s2 → ent_lt a b) → sorted (s1 ++ s2).
Proof.
  induction s1 as [|e s1 IH]; simpl; intros H1 H2 H3; [done|].
  apply sorted_cons in H1 as [H1 Hf]. apply sorted_cons. split.
  - apply IH; [done..|]. intros a b Ha. apply H3. by right.
  - apply Forall_app. split; [done|]. apply Forall_forall. intros b Hb. apply H3; [by left|done].
Qed.

Lemma sorted_lookup_lt s i j a b :
  sorted s → s !! i = Some a → s !! j = Some b → (i < j)%nat → ent_lt a b.
Proof.
  revert i j. induction s as [|e s IH]; intros i j Hs Hi Hj Hij; [done|].
  apply sorted_cons in Hs as [Hs Hf].
  destruct j as [|j]; [lia|]. simpl in Hj. destruct i as [|i]; simpl in Hi.
  - simplify_eq. rewrite Forall_forall in Hf. apply Hf. by eapply list_elem_of_lookup_2.
  - eapply IH; eauto. lia.
Qed.

Lemma sorted_lookup_inj s i j a b :
  sorted s → s !! i = Some a → s !! j = Some b → e_key a = e_key b → i = j.
Proof.
  intros Hs Hi Hj E. destruct (Nat.lt_trichotomy i j) as [H|[H|H]]; [|done|].
  - pose proof (sorted_lookup_lt _ _ _ _ _ Hs Hi Hj H) as L. unfold ent_lt in L.
    rewrite E in L. by apply bytes_lt_irrefl in L.
  - pose proof (sorted_lookup_lt _ _ _ _ _ Hs Hj Hi H) as L. unfold ent_lt in L.
    rewrite E in L. by apply bytes_lt_irrefl in L.
Qed.

Lemma sorted_drop n s : sorted s → sorted (drop n s).
Proof. intros Hs. rewrite <- (take_drop n s) in Hs. by apply sorted_app_inv in Hs as (_ & ? & _). Qed.

Lemma sorted_filter (P : ent → Prop) `{!∀ x, Decision (P x)} s : sorted s → sorted (filter P s).
Proof.
  induction s as [|e s IH]; intros Hs; [done|]. apply sorted_cons in Hs as [Hs Hf].
  rewrite filter_cons. destruct (decide (P e)); [|by apply IH].
  apply sorted_cons. split; [by apply IH|]. rewrite Forall_forall in Hf |- *.
  intros x [_ Hx]%list_elem_of_filter. by apply Hf.
Qed.

#[export] Hint Resolve sorted_drop : pallas.

(** ** Lookup *)

Lemma assoc_Some_key s k e : assoc s k = Some e → e_key e = k.
Proof.
  induction s as [|e' s IH]; simpl; [done|].
  destruct (bytes_equal (e_key e') k) eqn:E; [|done].
  intros [= ->]. by apply bytes_equal_eq.
Qed.

Lemma assoc_elem s k e : assoc s k = Some e → e ∈ s.
Proof.
  induction s as [|e' s IH]; simpl; [done|].
  destruct (bytes_equal (e_key e') k); [intros [= ->]; by left|]. intros H. right. auto.
Qed.

Lemma assoc_None s k : assoc s k = None ↔ ∀ e, e ∈ s → e_key e ≠ k.
Proof.
  induction s as [|e' s IH]; simpl.
  - split; [|done]. intros _ e He. by apply elem_of_nil in He.
  - destruct (bytes_equal (e_key e') k) eqn:E.
    + apply bytes_equal_eq in E. split; [done|]. intros H. exfalso. apply (H e'); [by left|done].
    + rewrite IH. split.
      * intros H e [->|He]%elem_of_cons; [|by apply H]. intros ?%bytes_equal_eq. congruence.
      * intros H e He. apply H. by right.
Qed.

Lemma assoc_lookup s i e : sorted s → s !! i = Some e → assoc s (e_key e) = Some e.
Proof.
  intros Hs Hi. destruct (assoc s (e_key e)) as [e'|] eqn:E.
  - pose proof (assoc_Some_key _ _ _ E) as K.
    apply assoc_elem, list_elem_of_lookup_1 in E as [j Hj].
    assert (j = i) as -> by (by eapply sorted_lookup_inj). congruence.
  - rewrite assoc_None in E. exfalso. by eapply E; [eapply list_elem_of_lookup_2|].
Qed.

Lemma assoc_app s1 s2 k :
  assoc (s1 ++ s2) k = match assoc s1 k with Some e => Some e | None => assoc s2 k end.
Proof. induction s1 as [|e s1 IH]; simpl; [done|]. by destruct (bytes_equal (e_key e) k). Qed.

(** Two sorted sequences with the same lookups are equal. *)
Lemma sorted_ext s1 s2 :
  sorted s1 → sorted s2 → (∀ k, assoc s1 k = assoc s2 k) → s1 = s2.
Proof.
  revert s2. induction s1 as [|e1 s1 IH]; intros [|e2 s2] H1 H2 Hk; [done| | |].
  - specialize (Hk (e_key e2)). simpl in Hk.
    by rewrite bytes_equal_refl in Hk.
  - specialize (Hk (e_key e1)). simpl in Hk.
    by rewrite bytes_equal_refl in Hk.
  - apply sorted_cons in H1 as [H1 F1]. apply sorted_cons in H2 as [H2 F2].
    rewrite Forall_forall in F1, F2.
    assert (Hhd : ∀ a b sa sb, (∀ x, x ∈ sb → ent_lt b x) →
              (∀ k, assoc (a :: sa) k = assoc (b :: sb) k) → ¬ bytes_lt (e_key a) (e_key b)).
    { intros a b sa sb Fb Hab Hlt. specialize (Hab (e_key a)). simpl in Hab.
      rewrite bytes_equal_refl in Hab.
      destruct (bytes_equal (e_key b) (e_key a)) eqn:E.
      - apply bytes_equal_eq in E. rewrite E in Hlt. by apply bytes_lt_irrefl in Hlt.
      - symmetry in Hab. pose proof (assoc_elem _ _ _ Hab) as Hin.
        apply Fb in Hin. by eapply bytes_lt_not. }
    assert (e_key e1 = e_key e2) as Ek.
    { destruct (bytes_lt_total (e_key e1) (e_key e2)) as [H|[H|H]]; [|done|].
      - exfalso. by apply (Hhd e1 e2 s1 s2 F2 Hk).
      - exfalso. by apply (Hhd e2 e1 s2 s1 F1 (fun k => eq_sym (Hk k))). }
    assert (e1 = e2) as ->.
    { specialize (Hk (e_key e1)). simpl in Hk. rewrite <- Ek in Hk.
      rewrite bytes_equal_refl in Hk. congruence. }
    f_equal. apply IH; [done..|]. intros k. specialize (Hk k). simpl in Hk.
    destruct (bytes_equal (e_key e2) k) eqn:E; [|done].
    apply bytes_equal_eq in E as <-.
    rewrite !(proj2 (assoc_None _ _)); [done| |].
    + intros e He ?%eq_sym. specialize (F2 e He). unfold ent_lt in F2. rewrite H in F2.
      by apply bytes_lt_irrefl in F2.
    + intros e He ?%eq_sym. specialize (F1 e He). unfold ent_lt in F1. rewrite H in F1.
      by apply bytes_lt_irrefl in F1.
Qed.

(** ** [upsert], [overlay], [merge_levels] *)

Lemma upsert_elem e s x : x ∈ upsert e s → x = e ∨ x ∈ s.
Proof.
  induction s as [|e' s IH]; simpl.
  - intros ->%list_elem_of_singleton. by left.
  - destruct (bytes_compare (e_key e) (e_key e')); rewrite !elem_of_cons; tauto.
Qed.

Lemma upsert_sorted e s : sorted s → sorted (upsert e s).
Proof.
  induction s as [|e' s IH]; simpl; intros Hs; [repeat constructor|].
  destruct (bytes_compare_spec (e_key e) (e_key e')) as [E|E|E].
  - apply sorted_cons in Hs as [Hs Hf]. apply sorted_cons. split; [done|].
    eapply Forall_impl; [exact Hf|]. intros x. unfold ent_lt. by rewrite E.
  - apply sorted_cons. split; [done|]. constructor; [done|].
    apply sorted_cons in Hs as [Hs Hf]. eapply Forall_impl; [exact Hf|].
    intros x Hx. by eapply ent_lt_trans.
  - apply sorted_cons in Hs as [Hs Hf]. apply sorted_cons. split; [by apply IH|].
    apply Forall_forall. intros x [->|Hx]%upsert_elem; [done|].
    rewrite Forall_forall in Hf. by apply Hf.
Qed.

Lemma assoc_upsert e s k :
  sorted s → assoc (upsert e s) k = if bytes_equal (e_key e) k then Some e else assoc s k.
Proof.
  induction s as [|e' s IH]; simpl; intros Hs; [done|].
  destruct (bytes_compare_spec (e_key e) (e_key e')) as [E|E|E]; simpl.
  - rewrite E. destruct (bytes_equal (e_key e') k); done.
  - done.
  - apply sorted_cons in Hs as [Hs _]. rewrite IH by done.
    destruct (bytes_equal (e_key e) k) eqn:E1; [|done].
    apply bytes_equal_eq in E1 as <-.
    destruct (bytes_equal (e_key e') (e_key e)) eqn:E2; [|done].
    apply bytes_equal_eq in E2. rewrite E2 in E. by apply bytes_lt_irrefl in E.
Qed.

Lemma overlay_sorted l s : sorted s → sorted (overlay l s).
Proof. intros Hs. induction l as [|e l IH]; [done|]. by apply upsert_sorted. Qed.

Lemma assoc_overlay l s k :
  sorted s → assoc (overlay l s) k = match assoc l k with Some e => Some e | None => assoc s k end.
Proof.
  intros Hs. induction l as [|e l IH]; [done|]. simpl.
  rewrite assoc_upsert by (by apply overlay_sorted). rewrite IH.
  by destruct (bytes_equal (e_key e) k).
Qed.

Lemma merge_levels_sorted ls : sorted (merge_levels ls).
Proof. induction ls as [|l ls IH]; [constructor|]. by apply overlay_sorted. Qed.

Lemma assoc_merge_levels ls k : assoc (merge_levels ls) k = assoc_levels ls k.
Proof.
  induction ls as [|l ls IH]; [done|]. simpl.
  rewrite assoc_overlay by apply merge_levels_sorted. by rewrite IH.
Qed.

Lemma merge_levels_single s : sorted s → merge_levels [s] = s.
Proof.
  intros Hs. apply sorted_ext; [apply merge_levels_sorted|done|].
  intros k. rewrite assoc_merge_levels. simpl. by destruct (assoc s k).
Qed.

Lemma assoc_levels_app l1 l2 k :
  assoc_levels (l1 ++ l2) k =
    match assoc_levels l1 k with Some e => Some e | None => assoc_levels l2 k end.
Proof. induction l1 as [|l l1 IH]; simpl; [done|]. by destruct (assoc l k). Qed.

Lemma merge_levels_app l1 l2 :
  merge_levels (l1 ++ l2) = merge_levels [merge_levels l1; merge_levels l2].
Proof.
  apply sorted_ext; [apply merge_levels_sorted..|]. intros k.
  rewrite !assoc_merge_levels, assoc_levels_app. simpl. rewrite !assoc_merge_levels.
  destruct (assoc_levels l1 k); [done|]. by destruct (assoc_levels l2 k).
Qed.

Lemma assoc_filter_live s k :
  sorted s →
  assoc (filter (fun e => live e = true) s) k =
    match assoc s k with Some e => if e_del e then None else Some e | None => None end.
Proof.
  intros Hs. induction s as [|e s IH]; [done|].
  apply sorted_cons in Hs as [Hs Hf]. rewrite filter_cons. simpl.
  destruct (bytes_equal (e_key e) k) eqn:E.
  - unfold live. destruct (e_del e) eqn:Ed.
    + rewrite decide_False by done. apply bytes_equal_eq in E as <-.
      apply assoc_None. intros e' [_ He']%list_elem_of_filter Hk.
      rewrite Forall_forall in Hf. apply Hf in He'. unfold ent_lt in He'. rewrite Hk in He'.
      by apply bytes_lt_irrefl in He'.
    + rewrite decide_True by done. simpl. by rewrite E.
  - destruct (decide (live e = true)); [simpl; rewrite E|]; by apply IH.
Qed.

(** ** Sorted lists read backwards *)

Lemma StronglySorted_snoc_inv {A} (R : A → A → Prop) l x :
  StronglySorted R (l ++ [x]) → StronglySorted R l ∧ Forall (fun y => R y x) l.
Proof.
  induction l as [|y l IH]; [by repeat constructor|]. cbn. intros [Hs Hf]%StronglySorted_inv.
  destruct (IH Hs) as [H1 H2]. apply Forall_app in Hf as [Hf [Hx _]%Forall_cons]. split; [by apply SSorted_cons|by apply Forall_cons].
Qed.

Lemma StronglySorted_reverse {A} (R : A → A → Prop) l : StronglySorted R (reverse l) → StronglySorted (flip R) l.
Proof.
  induction l as [|x l IH]; [constructor|]. rewrite reverse_cons. intros [Hs Hf]%StronglySorted_snoc_inv.
  constructor; [by apply IH|]. apply Forall_forall. rewrite Forall_forall in Hf. intros y Hy. apply Hf. by apply elem_of_reverse.
Qed.

(** ** Cuts and positions *)

Lemma below_true k x : below k x = true ↔ bytes_lt x k.
Proof. apply bytes_ltb_lt. Qed.

Lemma below_false k x : below k x = false ↔ ¬ bytes_lt x k.
Proof. rewrite <- below_true. destruct (below k x); split; congruence. Qed.

Lemma upto_true k x : upto k x = true ↔ ¬ bytes_lt k x.
Proof. apply bytes_leb_le. Qed.

Lemma down_below k : down (below k).
Proof.
  intros a b Hab Hb. unfold below in *. rewrite bytes_ltb_lt in *. by eapply bytes_lt_trans.
Qed.

Lemma down_upto k : down (upto k).
Proof.
  intros a b Hab Hb. unfold upto in *. rewrite bytes_leb_le in *.
  intros H. apply Hb. by eapply bytes_lt_trans.
Qed.

Lemma down_const c : down (fun _ => c).
Proof. intros a b _ H. done. Qed.

#[export] Hint Resolve down_below down_upto down_const : pallas.

Lemma cnt_le P s : (cnt P s ≤ length s)%nat.
Proof. induction s as [|e s IH]; simpl; [lia|]. destruct (P (e_key e)); lia. Qed.

Lemma cnt_true s : cnt (fun _ => true) s = length s.
Proof. induction s; simpl; auto. Qed.

Lemma cnt_false s : cnt (fun _ => false) s = 0%nat.
Proof. induction s; simpl; auto. Qed.

Lemma cnt_ext P Q s : (∀ e, e ∈ s → P (e_key e) = Q (e_key e)) → cnt P s = cnt Q s.
Proof.
  induction s as [|e s IH]; intros H; [done|]. simpl.
  rewrite (H e) by (by left). rewrite IH; [done|]. intros e' He'. apply H. by right.
Qed.

(** In a sorted sequence a cut is a prefix. *)
Lemma cnt_lookup P s i e :
  sorted s → down P → s !! i = Some e → P (e_key e) = true ↔ (i < cnt P s)%nat.
Proof.
  intros Hs HP. revert i e. induction s as [|e' s IH]; intros i e Hi; [done|].
  apply sorted_cons in Hs as [Hs Hf]. specialize (IH Hs). rewrite Forall_forall in Hf.
  assert (Hz : P (e_key e') = false → cnt P s = 0%nat).
  { intros E. destruct (decide (cnt P s = 0%nat)) as [|Hne]; [done|]. exfalso.
    destruct (lookup_lt_is_Some_2 s 0) as [e2 H2].
    { pose proof (cnt_le P s). lia. }
    assert (P (e_key e2) = true) as HP2 by (apply (IH 0%nat); [done|lia]).
    assert (P (e_key e') = true); [|congruence].
    apply (HP _ (e_key e2)); [|done]. apply Hf. by eapply list_elem_of_lookup_2. }
  destruct i as [|i]; simpl in Hi.
  - simplify_eq. simpl. destruct (P (e_key e)); [split; [lia|done]|].
    rewrite Hz by done. split; [done|lia].
  - rewrite (IH i e) by done. simpl. destruct (P (e_key e')); [lia|]. rewrite Hz by done. lia.
Qed.

Lemma cnt_below_lookup s i e : sorted s → s !! i = Some e → cnt (below (e_key e)) s = i.
Proof.
  intros Hs Hi.
  pose proof (cnt_lookup (below (e_key e)) s i e Hs (down_below _) Hi) as H.
  unfold below in H at 1. rewrite bytes_ltb_lt in H.
  destruct (Nat.lt_trichotomy (cnt (below (e_key e)) s) i) as [L|[L|L]]; [|done|].
  - destruct (lookup_lt_is_Some_2 s (cnt (below (e_key e)) s)) as [e' He'].
    { apply lookup_lt_Some in Hi. lia. }
    pose proof (sorted_lookup_lt _ _ _ _ _ Hs He' Hi L) as Hlt.
    pose proof (cnt_lookup (below (e_key e)) s _ e' Hs (down_below _) He') as H'.
    unfold below in H' at 1. rewrite bytes_ltb_lt in H'. apply H' in Hlt. lia.
  - apply H in L. by apply bytes_lt_irrefl in L.
Qed.

Lemma cnt_upto_lookup s i e : sorted s → s !! i = Some e → cnt (upto (e_key e)) s = S i.
Proof.
  intros Hs Hi.
  pose proof (cnt_lookup (upto (e_key e)) s i e Hs (down_upto _) Hi) as H.
  unfold upto in H at 1. rewrite bytes_leb_le in H.
  assert (i < cnt (upto (e_key e)) s)%nat as L by (apply H, bytes_lt_irrefl).
  destruct (decide (S i < cnt (upto (e_key e)) s)%nat) as [L2|]; [|lia].
  destruct (lookup_lt_is_Some_2 s (S i)) as [e' He'].
  { pose proof (cnt_le (upto (e_key e)) s). lia. }
  apply (cnt_lookup _ s _ e' Hs (down_upto _) He') in L2.
  unfold upto in L2. rewrite bytes_leb_le in L2.
  destruct L2. eapply sorted_lookup_lt; eauto.
Qed.

(** [assoc] found at the position of the cut. *)
Lemma lookup_cnt_below s k :
  sorted s →
  match s !! cnt (below k) s with
  | Some e => bytes_equal (e_key e) k
  | None => false
  end = match assoc s k with Some _ => true | None => false end.
Proof.
  intros Hs. destruct (assoc s k) as [e|] eqn:E.
  - pose proof (assoc_Some_key _ _ _ E) as <-.
    apply assoc_elem, list_elem_of_lookup_1 in E as [i Hi].
    rewrite (cnt_below_lookup _ _ _ Hs Hi), Hi. by apply bytes_equal_eq.
  - destruct (s !! cnt (below k) s) as [e|] eqn:L; [|done].
    apply not_true_is_false. intros Heq%bytes_equal_eq.
    rewrite assoc_None in E. by eapply E; [eapply list_elem_of_lookup_2|].
Qed.

Lemma assoc_at_cnt s k e :
  sorted s → assoc s k = Some e → s !! cnt (below k) s = Some e.
Proof.
  intros Hs E. pose proof (assoc_Some_key _ _ _ E) as <-.
  apply assoc_elem, list_elem_of_lookup_1 in E as [i Hi].
  by rewrite (cnt_below_lookup _ _ _ Hs Hi).
Qed.

(** ** Binary search finds the cut *)

Lemma binary_search_loop_spec fuel s t i j :
  sorted s → (j ≤ length s)%nat → (i ≤ cnt (below t) s ≤ j)%nat → (j - i ≤ fuel)%nat →
  binary_search_loop fuel (e_key <$> s) t i j = cnt (below t) s.
Proof.
  intros Hs. revert i j. induction fuel as [|fuel IH]; intros i j Hj Hc Hf; [simpl; lia|].
  cbn [binary_search_loop].
  destruct (Nat.ltb_spec i j) as [Hij|Hij]; [|lia].
  assert (i ≤ (i + j) / 2 < j)%nat as Hh.
  { split; [apply Nat.div_le_lower_bound; lia|apply Nat.Div0.div_lt_upper_bound; lia]. }
  revert Hh. generalize ((i + j) / 2)%nat as h. intros h Hh. rewrite list_lookup_fmap.
  destruct (lookup_lt_is_Some_2 s h) as [e He]; [lia|]. rewrite He. simpl.
  pose proof (cnt_lookup (below t) s _ e Hs (down_below t) He) as Hcut. unfold below in Hcut at 1.
  destruct (bytes_ltb (e_key e) t).
  - apply IH; [done| |lia]. pose proof (proj1 Hcut eq_refl). lia.
  - apply IH; [lia| |lia]. split; [lia|].
    apply Nat.nlt_ge. intros H. by apply Hcut in H.
Qed.

Lemma BinarySearch_spec s t :
  sorted s →
  BinarySearch (e_key <$> s) t =
    (cnt (below t) s, match assoc s t with Some _ => true | None => false end).
Proof.
  intros Hs. unfold BinarySearch. rewrite length_fmap.
  rewrite binary_search_loop_spec; [|done|lia|pose proof (cnt_le (below t) s); lia|lia].
  f_equal. rewrite <- (lookup_cnt_below s t Hs), list_lookup_fmap.
  by destruct (s !! cnt (below t) s).
Qed.
