(* ===== verification/SortedKV.v ===== *)
(** * The [SortedKV] / [SortedKVIter] interfaces of db/sorted_file.go

    The Go interfaces as type classes of operations ([KVIter], [SortedKV]) and
    what an implementation promises as classes of laws ([IterLaws],
    [SortedKVLaws]): an iterator stands at a position of a sorted sequence.
    The memtable, the SSTable and the merge discharge the laws; the clients
    (merge, transactions, compaction) are proved against them. *)

From Stdlib Require Import ZArith Lia.
From stdpp Require Import base list numbers.
From S2P Require Import Prelude GoLib SortedSeq.

Open Scope Z_scope.

(** ** Operations *)

(** [type SortedKVIter interface].  A mutating method returns the new iterator;
    [steps] bounds how often it can move in one direction, the fuel of the
    loops that run it to the end. *)
Class KVIter (It : Type) := {
  Valid : It → bool;
  Key : It → res bytes;
  Val : It → res bytes;
  Deleted : It → res bool;
  Next : It → res It;
  Prev : It → res It;
  steps : It → nat;
}.

(** [type SortedKV interface], and the optional [sortedKVExactGetter] of
    db/merge.go that [getExactFromSortedKV] probes for at run time. *)
Class SortedKV (T It : Type) := {
  EstimatedSize : T → nat;
  Iter : T → res It;
  Seek : T → bytes → res It;
  SeekToLast : T → res It;
  exact_getter : option (T → bytes → res (bytes * bool * bool));
}.

#[global] Hint Mode KVIter ! : typeclass_instances.
#[global] Hint Mode SortedKV ! - : typeclass_instances.

(** [getExactFromSortedKV]: value, found, deleted. *)
Definition getExactFromSortedKV `{KVIter It} `{SortedKV T It} (kv : T) (key : bytes)
    : res (bytes * bool * bool) :=
  match exact_getter with
  | Some getExact => getExact kv key
  | None =>
      iter ← Seek kv key;
      if negb (Valid iter) then Ok ([], false, false) else
      k ← Key iter;
      if negb (bytes_equal k key) then Ok ([], false, false) else
      v ← Val iter; d ← Deleted iter; Ok (v, true, d)
  end.

(** The loop [for ; err == nil && iter.Valid(); err = iter.Next() { body }]
    with loop state [st]. *)
Fixpoint iter_loop `{KVIter It} {St} (body : St → bytes → bytes → bool → res St)
    (fuel : nat) (it : It) (st : St) : res St :=
  if Valid it then
    match fuel with
    | O => OutOfFuel
    | S fuel =>
        k ← Key it; v ← Val it; d ← Deleted it;
        st' ← body st k v d;
        it' ← Next it;
        iter_loop body fuel it' st'
    end
  else Ok st.

Definition for_each `{KVIter It} {St} (body : St → bytes → bytes → bool → res St) (it : It) (st : St) : res St :=
  iter_loop body (steps it) it st.

(** The same loop collecting every entry it visits. *)
Fixpoint collect_loop `{KVIter It} (fuel : nat) (it : It) : res (list ent) :=
  if Valid it then
    match fuel with
    | O => OutOfFuel
    | S fuel =>
        k ← Key it; v ← Val it; d ← Deleted it;
        it' ← Next it;
        rest ← collect_loop fuel it';
        Ok (Ent k v d :: rest)
    end
  else Ok [].

Definition collect `{KVIter It} (it : It) : res (list ent) := collect_loop (steps it) it.

(** ** Laws *)

Class IterLaws (It : Type) `{KVIter It} := {
  (** [At it s p]: the iterator stands at position [p] of the sequence [s];
      [-1] is before the first entry and [length s] past the last. *)
  At : It → list ent → Z → Prop;
  At_sorted it s p : At it s p → sorted s;
  At_range it s p : At it s p → -1 ≤ p ≤ Z.of_nat (length s);
  At_valid it s p : At it s p → Valid it = bool_decide (0 ≤ p < Z.of_nat (length s));
  At_entry it s p e :
    At it s p → 0 ≤ p → s !! Z.to_nat p = Some e →
    Key it = Ok (e_key e) ∧ Val it = Ok (e_val e) ∧ Deleted it = Ok (e_del e);
  At_next it s p :
    At it s p → ∃ it', Next it = Ok it' ∧ At it' s (Z.min (p + 1) (Z.of_nat (length s)));
  At_prev it s p :
    At it s p → ∃ it', Prev it = Ok it' ∧ At it' s (Z.max (p - 1) (-1));
  At_steps it s p : At it s p → (length s ≤ steps it)%nat;
}.

Class SortedKVLaws (T It : Type) `{SortedKV T It} `{IterLaws It} := {
  (** [Holds kv s]: the container denotes the sequence [s]. *)
  Holds : T → list ent → Prop;
  Holds_sorted kv s : Holds kv s → sorted s;
  Holds_size kv s : Holds kv s → (length s ≤ EstimatedSize kv)%nat;
  Holds_iter kv s : Holds kv s → ∃ it, Iter kv = Ok it ∧ At it s 0;
  Holds_seek kv s k :
    Holds kv s → ∃ it, Seek kv k = Ok it ∧ At it s (Z.of_nat (cnt (below k) s));
  Holds_last kv s :
    Holds kv s → ∃ it, SeekToLast kv = Ok it ∧ At it s (Z.of_nat (length s) - 1);
  Holds_exact kv s k getter :
    Holds kv s → exact_getter = Some getter →
    getter kv k = Ok (match assoc s k with
                      | Some e => (e_val e, true, e_del e)
                      | None => ([], false, false)
                      end);
}.

(** ** Consequences *)

Section laws.
Context `{IterLaws It}.

Lemma At_valid_entry it s p :
  At it s p → Valid it = true → ∃ e, s !! Z.to_nat p = Some e ∧ 0 ≤ p ∧
    Key it = Ok (e_key e) ∧ Val it = Ok (e_val e) ∧ Deleted it = Ok (e_del e).
Proof.
  intros Hat Hv. rewrite (At_valid _ _ _ Hat), bool_decide_eq_true in Hv.
  destruct (lookup_lt_is_Some_2 s (Z.to_nat p)) as [e He]; [lia|].
  exists e. split; [done|]. split; [lia|]. eapply At_entry; eauto. lia.
Qed.

Lemma At_invalid it s p :
  At it s p → Valid it = false → p = -1 ∨ p = Z.of_nat (length s).
Proof.
  intros Hat Hv. pose proof (At_range _ _ _ Hat).
  rewrite (At_valid _ _ _ Hat), bool_decide_eq_false in Hv. lia.
Qed.

Lemma collect_loop_spec fuel it s p :
  At it s p → 0 ≤ p → (length s - Z.to_nat p ≤ fuel)%nat →
  collect_loop fuel it = Ok (drop (Z.to_nat p) s).
Proof.
  revert it p. induction fuel as [|fuel IH]; intros it p Hat Hp Hf; simpl.
  - destruct (Valid it) eqn:Hv.
    + destruct (At_valid_entry _ _ _ Hat Hv) as (e & He & _). apply lookup_lt_Some in He. lia.
    + rewrite drop_ge; [done|]. lia.
  - destruct (Valid it) eqn:Hv.
    + destruct (At_valid_entry _ _ _ Hat Hv) as (e & He & _ & -> & -> & ->). simpl.
      destruct (At_next _ _ _ Hat) as (it' & -> & Hat'). simpl.
      apply lookup_lt_Some in He as Hlt.
      rewrite (IH it' _ Hat'); [|lia|lia]. simpl.
      rewrite (drop_S s e (Z.to_nat p)) by done.
      replace (Z.to_nat (Z.min (p + 1) (Z.of_nat (length s)))) with (S (Z.to_nat p)) by lia.
      by destruct e.
    + destruct (At_invalid _ _ _ Hat Hv) as [ -> | -> ]; [lia|].
      rewrite drop_ge; [done|lia].
Qed.

(** The forward loop visits exactly the entries from the current one on. *)
Lemma collect_spec it s p :
  At it s p → 0 ≤ p → collect it = Ok (drop (Z.to_nat p) s).
Proof.
  intros Hat Hp. apply collect_loop_spec; [done..|]. pose proof (At_steps _ _ _ Hat). lia.
Qed.

Lemma iter_loop_spec {St} (body : St → bytes → bytes → bool → res St) fuel it s p st :
  At it s p → 0 ≤ p → (length s - Z.to_nat p ≤ fuel)%nat →
  iter_loop body fuel it st =
    foldM (fun st e => body st (e_key e) (e_val e) (e_del e)) st (drop (Z.to_nat p) s).
Proof.
  revert it p st. induction fuel as [|fuel IH]; intros it p st Hat Hp Hf; simpl.
  - destruct (Valid it) eqn:Hv.
    + destruct (At_valid_entry _ _ _ Hat Hv) as (e & He & _). apply lookup_lt_Some in He. lia.
    + rewrite drop_ge; [done|]. lia.
  - destruct (Valid it) eqn:Hv.
    + destruct (At_valid_entry _ _ _ Hat Hv) as (e & He & _ & -> & -> & ->). simpl.
      rewrite (drop_S s e (Z.to_nat p)) by done. simpl.
      destruct (body st (e_key e) (e_val e) (e_del e)) as [st'| | |]; try done. simpl.
      destruct (At_next _ _ _ Hat) as (it' & -> & Hat'). simpl.
      apply lookup_lt_Some in He as Hlt.
      rewrite (IH it' _ _ Hat'); [|lia|lia].
      by replace (Z.to_nat (Z.min (p + 1) (Z.of_nat (length s)))) with (S (Z.to_nat p)) by lia.
    + destruct (At_invalid _ _ _ Hat Hv) as [ -> | -> ]; [lia|].
      rewrite drop_ge; [done|lia].
Qed.

(** A loop over a fresh iterator folds over the whole sequence. *)
Lemma for_each_spec {St} (body : St → bytes → bytes → bool → res St) it s st :
  At it s 0 → for_each body it st = foldM (fun st e => body st (e_key e) (e_val e) (e_del e)) st s.
Proof.
  intros Hat. unfold for_each. rewrite (iter_loop_spec body _ it s 0); [done|done|lia|].
  pose proof (At_steps _ _ _ Hat). lia.
Qed.

Context `{!SortedKV T It} `{!SortedKVLaws T It}.

Lemma collect_iter kv s it :
  Holds kv s → Iter kv = Ok it → collect it = Ok s.
Proof.
  intros Hh Hi. destruct (Holds_iter _ _ Hh) as (it' & Hi' & Hat).
  rewrite Hi in Hi'. injection Hi' as <-. by rewrite (collect_spec _ _ _ Hat).
Qed.

(** A point lookup through the interface, whichever way it is implemented. *)
Lemma getExactFromSortedKV_spec kv s k :
  Holds kv s →
  getExactFromSortedKV kv k =
    Ok (match assoc s k with
        | Some e => (e_val e, true, e_del e)
        | None => ([], false, false)
        end).
Proof.
  intros Hh. unfold getExactFromSortedKV. destruct exact_getter as [getter|] eqn:E.
  - by eapply Holds_exact.
  - destruct (Holds_seek _ _ k Hh) as (it & -> & Hat). simpl.
    pose proof (Holds_sorted _ _ Hh) as Hs. pose proof (lookup_cnt_below s k Hs) as Hl.
    destruct (Valid it) eqn:Hv; simpl.
    + destruct (At_valid_entry _ _ _ Hat Hv) as (e & He & _ & -> & -> & ->). simpl.
      rewrite Nat2Z.id in He. rewrite He in Hl. rewrite Hl.
      destruct (assoc s k) as [e'|] eqn:Ea; simpl; [|done].
      apply assoc_at_cnt in Ea; [|done]. rewrite He in Ea. by injection Ea as <-.
    + destruct (At_invalid _ _ _ Hat Hv) as [?|Hend]; [lia|].
      rewrite lookup_ge_None_2 in Hl by lia. by destruct (assoc s k).
Qed.

End laws.

(** ** Levels: a memtable or an SSTable

    [MergedSortedKV] holds interface values; the levels of a transaction are
    memtables and SSTables.  The sum of two containers is a container, with the
    laws of both. *)

Section sum.
Context `{IterLaws I1} `{IterLaws I2}.

#[export] Instance sum_KVIter : KVIter (I1 + I2) := {
  Valid it := match it with inl a => Valid a | inr b => Valid b end;
  Key it := match it with inl a => Key a | inr b => Key b end;
  Val it := match it with inl a => Val a | inr b => Val b end;
  Deleted it := match it with inl a => Deleted a | inr b => Deleted b end;
  Next it := match it with inl a => inl <$> Next a | inr b => inr <$> Next b end;
  Prev it := match it with inl a => inl <$> Prev a | inr b => inr <$> Prev b end;
  steps it := match it with inl a => steps a | inr b => steps b end;
}.

Definition sum_At (it : I1 + I2) (s : list ent) (p : Z) : Prop :=
  match it with inl a => At a s p | inr b => At b s p end.

#[export] Instance sum_IterLaws : IterLaws (I1 + I2).
Proof.
  refine {| At := sum_At |}; intros [a|b] s p; simpl;
    try (first [apply At_sorted | apply At_range | apply At_valid | apply At_entry | apply At_steps]).
  - intros Hat. destruct (At_next _ _ _ Hat) as (it' & -> & Hat'). by exists (inl it').
  - intros Hat. destruct (At_next _ _ _ Hat) as (it' & -> & Hat'). by exists (inr it').
  - intros Hat. destruct (At_prev _ _ _ Hat) as (it' & -> & Hat'). by exists (inl it').
  - intros Hat. destruct (At_prev _ _ _ Hat) as (it' & -> & Hat'). by exists (inr it').
Defined.

Context `{!SortedKV T1 I1} `{!SortedKVLaws T1 I1} `{!SortedKV T2 I2} `{!SortedKVLaws T2 I2}.

#[export] Instance sum_SortedKV : SortedKV (T1 + T2) (I1 + I2) := {
  EstimatedSize kv := match kv with inl a => EstimatedSize a | inr b => EstimatedSize b end;
  Iter kv := match kv with inl a => inl <$> Iter a | inr b => inr <$> Iter b end;
  Seek kv k := match kv with inl a => inl <$> Seek a k | inr b => inr <$> Seek b k end;
  SeekToLast kv := match kv with inl a => inl <$> SeekToLast a | inr b => inr <$> SeekToLast b end;
  exact_getter := Some (fun kv k =>
    match kv with inl a => getExactFromSortedKV a k | inr b => getExactFromSortedKV b k end);
}.

#[export] Instance sum_SortedKVLaws : SortedKVLaws (T1 + T2) (I1 + I2).
Proof.
  refine {| Holds kv s := match kv with inl a => Holds a s | inr b => Holds b s end |};
    intros [a|b] s; simpl; try (first [apply Holds_sorted | apply Holds_size]).
  - intros Hh. destruct (Holds_iter _ _ Hh) as (it & -> & Hat). by exists (inl it).
  - intros Hh. destruct (Holds_iter _ _ Hh) as (it & -> & Hat). by exists (inr it).
  - intros k Hh. destruct (Holds_seek _ _ k Hh) as (it & -> & Hat). by exists (inl it).
  - intros k Hh. destruct (Holds_seek _ _ k Hh) as (it & -> & Hat). by exists (inr it).
  - intros Hh. destruct (Holds_last _ _ Hh) as (it & -> & Hat). by exists (inl it).
  - intros Hh. destruct (Holds_last _ _ Hh) as (it & -> & Hat). by exists (inr it).
  - intros k getter Hh [= <-]. by apply getExactFromSortedKV_spec.
  - intros k getter Hh [= <-]. by apply getExactFromSortedKV_spec.
Defined.

End sum.
