(* ===== verification/SortedArray.v ===== *)
(** * The memtable: db/sorted_array.go

    [SortedArray] keeps three parallel slices.  [arr_ents] is its abstract
    view, a list of entries; [arr_wf] its invariant. *)

From Stdlib Require Import ZArith Lia.
From stdpp Require Import base list numbers.
From S2P Require Import Prelude GoLib SortedSeq SortedKV.

Open Scope Z_scope.

(** ** Data and operations *)

Record SortedArray := MkArr {
  arr_keys : list bytes;
  arr_vals : list bytes;
  arr_deleted : list bool;
}.

Definition arr_empty : SortedArray := MkArr [] [] [].

Definition Size (arr : SortedArray) : nat := length (arr_keys arr).

Record SortedArrayIter := MkArrIter {
  ai_keys : list bytes;
  ai_vals : list bytes;
  ai_deleted : list bool;
  ai_pos : Z;
}.

Definition arr_iter_at (arr : SortedArray) (pos : Z) : SortedArrayIter :=
  MkArrIter (arr_keys arr) (arr_vals arr) (arr_deleted arr) pos.

Definition arr_Iter (arr : SortedArray) : res SortedArrayIter := Ok (arr_iter_at arr 0).

Definition arr_Seek (arr : SortedArray) (key : bytes) : res SortedArrayIter :=
  let '(pos, _) := BinarySearch (arr_keys arr) key in
  Ok (arr_iter_at arr (Z.of_nat pos)).

Definition arr_SeekToLast (arr : SortedArray) : res SortedArrayIter :=
  Ok (arr_iter_at arr (Z.of_nat (length (arr_keys arr)) - 1)).

Definition arr_getExact (arr : SortedArray) (key : bytes) : res (bytes * bool * bool) :=
  let '(idx, ok) := BinarySearch (arr_keys arr) key in
  if negb ok then Ok ([], false, false) else
  v ← go_index (arr_vals arr) idx;
  d ← go_index (arr_deleted arr) idx;
  Ok (v, true, d).

Definition ai_Valid (it : SortedArrayIter) : bool :=
  (0 <=? ai_pos it) && (ai_pos it <? Z.of_nat (length (ai_keys it))).

Definition ai_Key (it : SortedArrayIter) : res bytes :=
  _ ← check (ai_Valid it); go_index (ai_keys it) (Z.to_nat (ai_pos it)).
Definition ai_Val (it : SortedArrayIter) : res bytes :=
  _ ← check (ai_Valid it); go_index (ai_vals it) (Z.to_nat (ai_pos it)).
Definition ai_Deleted (it : SortedArrayIter) : res bool :=
  _ ← check (ai_Valid it); go_index (ai_deleted it) (Z.to_nat (ai_pos it)).

Definition ai_set_pos (it : SortedArrayIter) (pos : Z) : SortedArrayIter :=
  MkArrIter (ai_keys it) (ai_vals it) (ai_deleted it) pos.

Definition ai_Next (it : SortedArrayIter) : res SortedArrayIter :=
  if ai_pos it <? Z.of_nat (length (ai_keys it)) then Ok (ai_set_pos it (ai_pos it + 1)) else Ok it.
Definition ai_Prev (it : SortedArrayIter) : res SortedArrayIter :=
  if 0 <=? ai_pos it then Ok (ai_set_pos it (ai_pos it - 1)) else Ok it.

#[export] Instance arr_KVIter : KVIter SortedArrayIter := {
  Valid := ai_Valid; Key := ai_Key; Val := ai_Val; Deleted := ai_Deleted;
  Next := ai_Next; Prev := ai_Prev;
  steps it := length (ai_keys it);
}.

#[export] Instance arr_SortedKV : SortedKV SortedArray SortedArrayIter := {
  EstimatedSize := Size;
  Iter := arr_Iter; Seek := arr_Seek; SeekToLast := arr_SeekToLast;
  exact_getter := Some arr_getExact;
}.

Definition arr_Clear (arr : SortedArray) : SortedArray := arr_empty.

Definition arr_Push (arr : SortedArray) (key val : bytes) (deleted : bool) : SortedArray :=
  MkArr (arr_keys arr ++ [key]) (arr_vals arr ++ [val]) (arr_deleted arr ++ [deleted]).

(** [n-1] is negative on an empty array and the reslice panics. *)
Definition arr_Pop (arr : SortedArray) : res SortedArray :=
  match Size arr with
  | O => Panic "slice bounds out of range"
  | S n => Ok (MkArr (take n (arr_keys arr)) (take n (arr_vals arr)) (take n (arr_deleted arr)))
  end.

Definition arr_Key (arr : SortedArray) (i : nat) : res bytes := go_index (arr_keys arr) i.

(** [slices.Insert(s, i, v)]: panics when [i > len(s)]. *)
Definition go_insert {A} (l : list A) (i : nat) (v : A) : res (list A) :=
  if (length l <? i)%nat then Panic "slice bounds out of range"
  else Ok (take i l ++ v :: drop i l).

Definition arr_insert (arr : SortedArray) (idx : nat) (key val : bytes) (d : bool) : res SortedArray :=
  ks ← go_insert (arr_keys arr) idx key;
  vs ← go_insert (arr_vals arr) idx val;
  ds ← go_insert (arr_deleted arr) idx d;
  Ok (MkArr ks vs ds).

Definition arr_Set (arr : SortedArray) (key val : bytes) : res (SortedArray * bool) :=
  let '(idx, ok) := BinarySearch (arr_keys arr) key in
  updated ← (if negb ok then Ok true else
             d ← go_index (arr_deleted arr) idx;
             if (d : bool) then Ok true else
             v ← go_index (arr_vals arr) idx;
             Ok (negb (bytes_equal val v)));
  if (updated : bool) then
    if ok then
      Ok (MkArr (arr_keys arr) (<[idx := val]> (arr_vals arr)) (<[idx := false]> (arr_deleted arr)), true)
    else
      arr' ← arr_insert arr idx key val false;
      Ok (arr', true)
  else Ok (arr, false).

Definition arr_Del (arr : SortedArray) (key : bytes) : res (SortedArray * bool) :=
  let '(idx, ok) := BinarySearch (arr_keys arr) key in
  exist ← (if (ok : bool) then d ← go_index (arr_deleted arr) idx; Ok (negb d) else Ok false);
  if (exist : bool) then
    Ok (MkArr (arr_keys arr) (<[idx := []]> (arr_vals arr)) (<[idx := true]> (arr_deleted arr)), true)
  else
    arr' ← arr_insert arr idx key [] true;
    Ok (arr', false).

(** ** Abstract view and invariant *)

Fixpoint zip_ents (ks vs : list bytes) (ds : list bool) : list ent :=
  match ks, vs, ds with
  | k :: ks, v :: vs, d :: ds => Ent k v d :: zip_ents ks vs ds
  | _, _, _ => []
  end.

Definition arr_ents (arr : SortedArray) : list ent :=
  zip_ents (arr_keys arr) (arr_vals arr) (arr_deleted arr).

(** The array that denotes a given sequence. *)
Definition arr_of (s : list ent) : SortedArray :=
  MkArr (e_key <$> s) (e_val <$> s) (e_del <$> s).

(** The three slices agree in length and the keys are strictly increasing. *)
Definition arr_wf (arr : SortedArray) : Prop :=
  length (arr_vals arr) = length (arr_keys arr) ∧
  length (arr_deleted arr) = length (arr_keys arr) ∧
  sorted (arr_ents arr).

#[export] Instance arr_wf_dec arr : Decision (arr_wf arr).
Proof. unfold arr_wf. apply _. Defined.

Lemma arr_ents_of s : arr_ents (arr_of s) = s.
Proof. induction s as [|[k v d] s IH]; [done|]. unfold arr_ents in *. simpl. f_equal. exact IH. Qed.

Lemma zip_ents_proj ks vs ds :
  length vs = length ks → length ds = length ks →
  e_key <$> zip_ents ks vs ds = ks ∧ e_val <$> zip_ents ks vs ds = vs ∧
  e_del <$> zip_ents ks vs ds = ds.
Proof.
  revert vs ds. induction ks as [|k ks IH]; intros [|v vs] [|d ds] H1 H2; simpl in *; try lia; [done|].
  destruct (IH vs ds) as (E1 & E2 & E3); [lia..|]. split_and!; f_equal; done.
Qed.

(** Under the invariant the array is determined by its entries. *)
Lemma arr_wf_of arr : arr_wf arr → arr = arr_of (arr_ents arr) ∧ sorted (arr_ents arr).
Proof.
  destruct arr as [ks vs ds]. intros (H1 & H2 & Hs). split; [|done].
  unfold arr_of, arr_ents in *. simpl in *. by destruct (zip_ents_proj ks vs ds) as (-> & -> & ->).
Qed.

Lemma arr_of_wf s : sorted s → arr_wf (arr_of s).
Proof.
  intros Hs. unfold arr_wf. rewrite arr_ents_of. simpl. rewrite !length_fmap. done.
Qed.

Lemma arr_size_of s : Size (arr_of s) = length s.
Proof. unfold Size. simpl. by rewrite length_fmap. Qed.

(** ** The iterator laws *)

Definition arr_At (it : SortedArrayIter) (s : list ent) (p : Z) : Prop :=
  it = arr_iter_at (arr_of s) p ∧ sorted s ∧ -1 ≤ p ≤ Z.of_nat (length s).

#[export] Instance arr_IterLaws : IterLaws SortedArrayIter.
Proof.
  refine {| At := arr_At |}.
  - by intros it s p (_ & ? & _).
  - by intros it s p (_ & _ & ?).
  - intros it s p (-> & _ & Hr). simpl. unfold ai_Valid. simpl. rewrite length_fmap.
    symmetry. destruct (Z.leb_spec 0 p), (Z.ltb_spec p (Z.of_nat (length s))); simpl;
      (apply bool_decide_eq_true || apply bool_decide_eq_false); lia.
  - intros it s p e (-> & _ & Hr) Hp He. simpl.
    apply lookup_lt_Some in He as Hlt.
    unfold ai_Key, ai_Val, ai_Deleted, ai_Valid, go_index. simpl.
    rewrite length_fmap, !list_lookup_fmap, He.
    destruct (Z.leb_spec 0 p), (Z.ltb_spec p (Z.of_nat (length s))); try lia. done.
  - intros it s p (-> & Hs & Hr). simpl. unfold ai_Next. simpl. rewrite length_fmap.
    destruct (Z.ltb_spec p (Z.of_nat (length s))).
    + eexists. split; [done|]. unfold arr_At. split_and!; [|done|lia|lia].
      unfold arr_iter_at, ai_set_pos. simpl. f_equal. lia.
    + eexists. split; [done|]. unfold arr_At. split_and!; [|done|lia|lia]. f_equal. lia.
  - intros it s p (-> & Hs & Hr). simpl. unfold ai_Prev. simpl.
    destruct (Z.leb_spec 0 p).
    + eexists. split; [done|]. unfold arr_At. split_and!; [|done|lia|lia].
      unfold arr_iter_at, ai_set_pos. simpl. f_equal. lia.
    + eexists. split; [done|]. unfold arr_At. split_and!; [|done|lia|lia]. f_equal. lia.
  - intros it s p (-> & Hs & Hr). simpl. by rewrite length_fmap.
Defined.

Lemma arr_getExact_of s k :
  sorted s →
  arr_getExact (arr_of s) k =
    Ok (match assoc s k with Some e => (e_val e, true, e_del e) | None => ([], false, false) end).
Proof.
  intros Hs. unfold arr_getExact. simpl arr_keys. rewrite BinarySearch_spec by done.
  destruct (assoc s k) as [e|] eqn:E; simpl; [|done].
  apply assoc_at_cnt in E; [|done]. unfold go_index. by rewrite !list_lookup_fmap, E.
Qed.

#[export] Instance arr_SortedKVLaws : SortedKVLaws SortedArray SortedArrayIter.
Proof.
  refine {| Holds arr s := arr = arr_of s ∧ sorted s |}.
  - by intros kv s [].
  - intros kv s [-> _]. simpl. by rewrite arr_size_of.
  - intros kv s [-> Hs]. eexists. split; [done|]. split_and!; [done|done|lia|lia].
  - intros kv s k [-> Hs]. simpl. unfold arr_Seek. simpl arr_keys. rewrite BinarySearch_spec by done.
    eexists. split; [done|]. pose proof (cnt_le (below k) s). split_and!; [done|done|lia|lia].
  - intros kv s [-> Hs]. eexists. split; [done|].
    unfold arr_iter_at. simpl. rewrite length_fmap. split_and!; [done|done|lia|lia].
  - intros kv s k getter [-> Hs] [= <-]. by apply arr_getExact_of.
Defined.

Lemma arr_wf_holds arr : arr_wf arr → Holds arr (arr_ents arr).
Proof. apply arr_wf_of. Qed.

#[export] Hint Resolve arr_wf_holds arr_of_wf : pallas.

(** ** Mutations *)

Lemma upsert_split e s :
  sorted s →
  upsert e s = take (cnt (below (e_key e)) s) s ++ e ::
    drop (match assoc s (e_key e) with
          | Some _ => S (cnt (below (e_key e)) s)
          | None => cnt (below (e_key e)) s
          end) s.
Proof.
  induction s as [|e' s IH]; intros Hs; [done|]. simpl.
  apply sorted_cons in Hs as [Hs Hf]. specialize (IH Hs).
  assert (Hz : ¬ bytes_lt (e_key e') (e_key e) →
                 below (e_key e) (e_key e') = false ∧ cnt (below (e_key e)) s = 0%nat).
  { intros Hn. split; [by apply below_false|].
    rewrite <- (cnt_false s). apply cnt_ext. intros x Hx. apply below_false.
    intros Hlt. apply Hn. rewrite Forall_forall in Hf. eapply bytes_lt_trans; [by apply Hf|done]. }
  destruct (bytes_compare_spec (e_key e) (e_key e')) as [E|E|E].
  - destruct Hz as [-> ->]; [rewrite E; apply bytes_lt_irrefl|].
    by rewrite (proj2 (bytes_equal_eq (e_key e') (e_key e)) (eq_sym E)).
  - destruct Hz as [-> ->]; [by apply bytes_lt_not|].
    rewrite (bytes_equal_false (e_key e') (e_key e)) by (intros E'; by rewrite E' in E; apply bytes_lt_irrefl in E).
    assert (assoc s (e_key e) = None) as ->; [|done].
    apply assoc_None. intros x Hx Hk. rewrite Forall_forall in Hf. apply Hf in Hx.
    unfold ent_lt in Hx. rewrite Hk in Hx. by eapply bytes_lt_not.
  - rewrite (proj2 (below_true (e_key e) (e_key e')) E).
    rewrite (bytes_equal_false (e_key e') (e_key e)) by (intros E'; by rewrite E' in E; apply bytes_lt_irrefl in E).
    rewrite IH. by destruct (assoc s (e_key e)).
Qed.

Lemma insert_fmap_split {A} (f : ent → A) s i e :
  (i < length s)%nat → <[i := f e]> (f <$> s) = f <$> (take i s ++ e :: drop (S i) s).
Proof.
  intros Hi. rewrite <- list_fmap_insert. f_equal. by apply insert_take_drop.
Qed.

Lemma arr_of_overwrite s k v d :
  sorted s → is_Some (assoc s k) →
  MkArr (e_key <$> s) (<[cnt (below k) s := v]> (e_val <$> s)) (<[cnt (below k) s := d]> (e_del <$> s))
    = arr_of (upsert (Ent k v d) s).
Proof.
  intros Hs [e E]. rewrite upsert_split by done. simpl. rewrite E.
  pose proof (assoc_Some_key _ _ _ E) as Hk. apply assoc_at_cnt in E; [|done].
  pose proof (lookup_lt_Some _ _ _ E) as Hlt. unfold arr_of. f_equal.
  - rewrite <- (insert_fmap_split e_key _ _ (Ent k v d)) by done. simpl.
    symmetry. apply list_insert_id. rewrite list_lookup_fmap, E. simpl. by rewrite Hk.
  - by apply (insert_fmap_split e_val _ _ (Ent k v d)).
  - by apply (insert_fmap_split e_del _ _ (Ent k v d)).
Qed.

Lemma arr_insert_of s i e :
  (i ≤ length s)%nat →
  arr_insert (arr_of s) i (e_key e) (e_val e) (e_del e) = Ok (arr_of (take i s ++ e :: drop i s)).
Proof.
  intros Hi. unfold arr_insert, go_insert. simpl. rewrite !length_fmap.
  destruct (Nat.ltb_spec (length s) i); [lia|]. simpl.
  unfold arr_of. by rewrite !fmap_app, !fmap_take, !fmap_cons, !fmap_drop.
Qed.

(** [Set] stores the live value; it reports whether anything changed. *)
Lemma arr_Set_of s k v :
  sorted s →
  arr_Set (arr_of s) k v =
    Ok (if bool_decide (visible (assoc s k) = Some v)
        then (arr_of s, false) else (arr_of (upsert (Ent k v false) s), true)).
Proof.
  intros Hs. unfold arr_Set. simpl arr_keys. rewrite BinarySearch_spec by done.
  destruct (assoc s k) as [e|] eqn:E.
  - pose proof (assoc_at_cnt _ _ _ Hs E) as Hc. unfold go_index. simpl.
    rewrite !list_lookup_fmap, Hc. simpl. destruct (e_del e) eqn:Ed; simpl.
    + do 2 f_equal. apply arr_of_overwrite; eauto.
    + destruct (bytes_equal v (e_val e)) eqn:Ev; simpl.
      * apply bytes_equal_eq in Ev as ->. by rewrite bool_decide_eq_true_2.
      * rewrite bool_decide_eq_false_2.
        -- do 2 f_equal. apply arr_of_overwrite; eauto.
        -- intros [= E']. rewrite E' in Ev. by rewrite bytes_equal_refl in Ev.
  - simpl. rewrite (arr_insert_of s _ (Ent k v false)) by apply cnt_le. simpl.
    rewrite upsert_split by done. simpl. by rewrite E.
Qed.

(** [Del] on a key that is absent or live stores a tombstone.  On a key that
    already is a tombstone the code inserts a second entry for it. *)
Lemma arr_Del_of s k :
  sorted s → (∀ e, assoc s k = Some e → e_del e = false) →
  arr_Del (arr_of s) k =
    Ok (arr_of (upsert (Ent k [] true) s), match assoc s k with Some _ => true | None => false end).
Proof.
  intros Hs Hlive. unfold arr_Del. simpl arr_keys. rewrite BinarySearch_spec by done.
  destruct (assoc s k) as [e|] eqn:E.
  - pose proof (assoc_at_cnt _ _ _ Hs E) as Hc. unfold go_index. simpl.
    rewrite !list_lookup_fmap, Hc. simpl. rewrite (Hlive e eq_refl). simpl.
    do 2 f_equal. apply arr_of_overwrite; eauto.
  - simpl. rewrite (arr_insert_of s _ (Ent k [] true)) by apply cnt_le. simpl.
    rewrite upsert_split by done. simpl. by rewrite E.
Qed.

Lemma arr_Push_of s k v d : arr_Push (arr_of s) k v d = arr_of (s ++ [Ent k v d]).
Proof. unfold arr_Push, arr_of. simpl. by rewrite !fmap_app. Qed.

Lemma arr_Pop_of s e : arr_Pop (arr_of (s ++ [e])) = Ok (arr_of s).
Proof.
  unfold arr_Pop. rewrite arr_size_of, length_app. simpl. rewrite Nat.add_1_r.
  unfold arr_of. simpl. rewrite !fmap_app.
  rewrite !take_app_length' by (by rewrite length_fmap). done.
Qed.
