(* ===== verification/Merge.v ===== *)
(** * Merging levels: db/merge.go

    [MergedSortedKV] presents a stack of sorted containers, newest first, as
    one.  Its iterator refines an iterator over [merge_levels] of what the
    levels hold, in both directions and across changes of direction. *)

From Stdlib Require Import ZArith Lia.
From stdpp Require Import base list numbers.
From S2P Require Import Prelude GoLib SortedSeq SortedKV.

Open Scope Z_scope.

(** ** Operations *)

Record MergedSortedKVIter (It : Type) := MkMIter {
  mi_levels : list It;
  mi_which : Z;
}.
Arguments MkMIter {It}.
Arguments mi_levels {It}.
Arguments mi_which {It}.

(** [type MergedSortedKV []SortedKV], a type of its own. *)
Record MergedSortedKV (T : Type) := MkMerged { merged_subs : list T }.
Arguments MkMerged {T}.
Arguments merged_subs {T}.

Section operations.
Context `{KVIter It}.

(** The loop of [levelsLowest]/[levelsHighest]: [worse c] says that the
    current winner's key, compared with the candidate's, must be replaced. *)
Fixpoint levels_pick (worse : comparison → bool) (i win : Z) (winKey : bytes) (levels : list It) : res Z :=
  match levels with
  | [] => Ok win
  | sub :: rest =>
      if Valid sub then
        k ← Key sub;
        if (win <? 0) || worse (bytes_compare winKey k)
        then levels_pick worse (i + 1) i k rest
        else levels_pick worse (i + 1) win winKey rest
      else levels_pick worse (i + 1) win winKey rest
  end.

Definition levelsLowest (levels : list It) : res Z :=
  levels_pick (fun c => match c with Gt => true | _ => false end) 0 (-1) [] levels.
Definition levelsHighest (levels : list It) : res Z :=
  levels_pick (fun c => match c with Lt => true | _ => false end) 0 (-1) [] levels.

Definition mi_Valid (it : MergedSortedKVIter It) : bool := 0 <=? mi_which it.

(** [iter.levels[iter.which]] *)
Definition mi_current (it : MergedSortedKVIter It) : res It :=
  if mi_which it <? 0 then Panic "index out of range"
  else go_index (mi_levels it) (Z.to_nat (mi_which it)).

Definition mi_Key (it : MergedSortedKVIter It) : res bytes := sub ← mi_current it; Key sub.
Definition mi_Val (it : MergedSortedKVIter It) : res bytes := sub ← mi_current it; Val sub.
Definition mi_Deleted (it : MergedSortedKVIter It) : res bool := sub ← mi_current it; Deleted sub.

Definition mi_cur (it : MergedSortedKVIter It) : res bytes :=
  if mi_Valid it then mi_Key it else Ok [].

Definition mi_Next (it : MergedSortedKVIter It) : res (MergedSortedKVIter It) :=
  cur ← mi_cur it;
  levels ← mapM_res (fun sub =>
    if negb (Valid sub) then Next sub else
    k ← Key sub;
    match bytes_compare cur k with Lt => Ok sub | _ => Next sub end) (mi_levels it);
  which ← levelsLowest levels;
  Ok (MkMIter levels which).

Definition mi_Prev (it : MergedSortedKVIter It) : res (MergedSortedKVIter It) :=
  cur ← mi_cur it;
  levels ← mapM_res (fun sub =>
    if negb (Valid sub) then Prev sub else
    k ← Key sub;
    match bytes_compare cur k with Gt => Ok sub | _ => Prev sub end) (mi_levels it);
  which ← levelsHighest levels;
  Ok (MkMIter levels which).

#[export] Instance mi_KVIter : KVIter (MergedSortedKVIter It) := {
  Valid := mi_Valid; Key := mi_Key; Val := mi_Val; Deleted := mi_Deleted;
  Next := mi_Next; Prev := mi_Prev;
  steps it := foldr (fun sub n => (steps sub + n)%nat) 0%nat (mi_levels it);
}.

Context `{!SortedKV T It}.

Definition m_EstimatedSize (m : MergedSortedKV T) : nat :=
  foldl (fun total sub => (total + EstimatedSize sub)%nat) 0%nat (merged_subs m).

Definition m_Iter (m : MergedSortedKV T) : res (MergedSortedKVIter It) :=
  levels ← mapM_res Iter (merged_subs m);
  which ← levelsLowest levels;
  Ok (MkMIter levels which).

Definition m_Seek (m : MergedSortedKV T) (key : bytes) : res (MergedSortedKVIter It) :=
  levels ← mapM_res (fun sub => Seek sub key) (merged_subs m);
  which ← levelsLowest levels;
  Ok (MkMIter levels which).

Definition m_SeekToLast (m : MergedSortedKV T) : res (MergedSortedKVIter It) :=
  levels ← mapM_res SeekToLast (merged_subs m);
  which ← levelsHighest levels;
  Ok (MkMIter levels which).

Fixpoint m_getExact_loop (subs : list T) (key : bytes) : res (bytes * bool * bool) :=
  match subs with
  | [] => Ok ([], false, false)
  | sub :: rest =>
      '(val, found, deleted) ← getExactFromSortedKV sub key;
      if (found : bool) then Ok (val, found, deleted) else m_getExact_loop rest key
  end.

Definition m_getExact (m : MergedSortedKV T) (key : bytes) : res (bytes * bool * bool) :=
  m_getExact_loop (merged_subs m) key.

#[export] Instance m_SortedKV : SortedKV (MergedSortedKV T) (MergedSortedKVIter It) := {
  EstimatedSize := m_EstimatedSize;
  Iter := m_Iter; Seek := m_Seek; SeekToLast := m_SeekToLast;
  exact_getter := Some m_getExact;
}.

End operations.

(** ** Merged sequences and cuts *)

Lemma merge_levels_elem ls e :
  e ∈ merge_levels ls → ∃ j l, ls !! j = Some l ∧ e ∈ l.
Proof.
  intros He.
  assert (assoc (merge_levels ls) (e_key e) = Some e) as Ha.
  { apply list_elem_of_lookup_1 in He as [i Hi].
    eapply assoc_lookup; [apply merge_levels_sorted|done]. }
  rewrite assoc_merge_levels in Ha. clear He.
  induction ls as [|l ls IH]; simpl in Ha; [done|].
  destruct (assoc l (e_key e)) as [e'|] eqn:E.
  - simplify_eq. exists 0%nat, l. split; [done|]. by eapply assoc_elem.
  - destruct (IH Ha) as (j & l' & ? & ?). by exists (S j), l'.
Qed.

Lemma assoc_levels_first ls w l e :
  ls !! w = Some l → assoc l (e_key e) = Some e →
  (∀ j l', (j < w)%nat → ls !! j = Some l' → assoc l' (e_key e) = None) →
  assoc_levels ls (e_key e) = Some e.
Proof.
  revert w. induction ls as [|l0 ls IH]; intros [|w] Hw He Hfirst; simpl in *; simplify_eq.
  - by rewrite He.
  - rewrite (Hfirst 0%nat l0) by (done || lia). eapply IH; eauto.
    intros j l' Hj Hl'. apply (Hfirst (S j)); [lia|done].
Qed.

Lemma assoc_levels_elem ls j l e :
  ls !! j = Some l → assoc l (e_key e) = Some e → is_Some (assoc_levels ls (e_key e)).
Proof.
  revert j. induction ls as [|l0 ls IH]; intros [|j] Hj He; simpl in *; simplify_eq.
  - rewrite He. eauto.
  - destruct (assoc l0 (e_key e)); eauto.
Qed.

(** [picks ls pos w e]: among the entries at the positions of the levels, the
    one of level [w] is [e], no other is better (in [lt]) and none of an earlier level
    ties with it. *)
Definition picks (lt : bytes → bytes → Prop) (cur : list (option ent)) (w : nat) (e : ent) : Prop :=
  cur !! w = Some (Some e) ∧
  ∀ j e', cur !! j = Some (Some e') →
    ¬ lt (e_key e') (e_key e) ∧ ((j < w)%nat → lt (e_key e) (e_key e')).

(** The entries just past a cut, and just before it. *)
Definition after (P : bytes → bool) (l : list ent) : option ent := l !! cnt P l.
Definition before (P : bytes → bool) (l : list ent) : option ent :=
  match cnt P l with O => None | S i => l !! i end.

Section cuts.
Context (P : bytes → bool) (ls : list (list ent)).
Hypothesis HP : down P.
Hypothesis Hsorted : Forall sorted ls.

Lemma level_sorted j l : ls !! j = Some l → sorted l.
Proof. intros H. rewrite Forall_forall in Hsorted. by eapply Hsorted, list_elem_of_lookup_2. Qed.

Lemma after_min l e x :
  sorted l → after P l = Some e → x ∈ l → P (e_key x) = false → ¬ bytes_lt (e_key x) (e_key e).
Proof.
  intros Hl He [i Hi]%list_elem_of_lookup_1 Hx Hlt.
  assert (cnt P l ≤ i)%nat as Hc.
  { apply Nat.nlt_ge. intros Hc. apply (cnt_lookup P l i x Hl HP Hi) in Hc. congruence. }
  destruct (decide (i = cnt P l)) as [->|].
  - unfold after in He. rewrite Hi in He. simplify_eq. by apply bytes_lt_irrefl in Hlt.
  - eapply (bytes_lt_not (e_key e) (e_key x)); [|done].
    eapply (sorted_lookup_lt l (cnt P l) i); eauto. lia.
Qed.

Lemma after_not_P l e : sorted l → after P l = Some e → P (e_key e) = false.
Proof.
  intros Hl He. apply not_true_is_false. intros HPe.
  apply (cnt_lookup P l _ e Hl HP He) in HPe. lia.
Qed.

Lemma after_some l x : sorted l → x ∈ l → P (e_key x) = false → is_Some (after P l).
Proof.
  intros Hl [i Hi]%list_elem_of_lookup_1 Hx. apply lookup_lt_is_Some_2.
  apply lookup_lt_Some in Hi as Hlt.
  assert (¬ (i < cnt P l)%nat); [|lia].
  intros Hc. apply (cnt_lookup P l i x Hl HP Hi) in Hc. congruence.
Qed.

Lemma before_max l e x :
  sorted l → before P l = Some e → x ∈ l → P (e_key x) = true → ¬ bytes_lt (e_key e) (e_key x).
Proof.
  unfold before. intros Hl He [i Hi]%list_elem_of_lookup_1 Hx Hlt.
  apply (cnt_lookup P l i x Hl HP Hi) in Hx.
  destruct (cnt P l) as [|n]; [lia|].
  destruct (decide (i = n)) as [->|].
  - simplify_eq. by apply bytes_lt_irrefl in Hlt.
  - eapply (bytes_lt_not (e_key x) (e_key e)); [|done].
    eapply (sorted_lookup_lt l i n); eauto. lia.
Qed.

Lemma before_P l e : sorted l → before P l = Some e → P (e_key e) = true.
Proof.
  unfold before. intros Hl He. destruct (cnt P l) as [|n] eqn:E; [done|].
  apply (cnt_lookup P l n e Hl HP He). lia.
Qed.

Lemma before_some l x : sorted l → x ∈ l → P (e_key x) = true → is_Some (before P l).
Proof.
  unfold before. intros Hl [i Hi]%list_elem_of_lookup_1 Hx.
  apply (cnt_lookup P l i x Hl HP Hi) in Hx. pose proof (cnt_le P l).
  destruct (cnt P l); [lia|]. apply lookup_lt_is_Some_2. lia.
Qed.

Lemma after_elem l e : after P l = Some e → e ∈ l.
Proof. intros H. by eapply list_elem_of_lookup_2. Qed.

Lemma before_elem l e : before P l = Some e → e ∈ l.
Proof. unfold before. destruct (cnt P l); [done|]. intros H. by eapply list_elem_of_lookup_2. Qed.

(** The merge has nothing past (before) the cut when no level has. *)
Lemma merge_after_none :
  Forall (fun l => after P l = None) ls → cnt P (merge_levels ls) = length (merge_levels ls).
Proof.
  intros Hn. rewrite <- cnt_true. apply cnt_ext. intros e He.
  apply merge_levels_elem in He as (j & l & Hj & He).
  destruct (P (e_key e)) eqn:E; [done|].
  apply (after_some l e) in E as [x Hx]; [|by eapply level_sorted|done].
  rewrite Forall_forall in Hn. rewrite (Hn l) in Hx; [done|]. by eapply list_elem_of_lookup_2.
Qed.

Lemma merge_before_none :
  Forall (fun l => before P l = None) ls → cnt P (merge_levels ls) = 0%nat.
Proof.
  intros Hn. rewrite <- (cnt_false (merge_levels ls)). apply cnt_ext. intros e He.
  apply merge_levels_elem in He as (j & l & Hj & He).
  destruct (P (e_key e)) eqn:E; [|done].
  apply (before_some l e) in E as [x Hx]; [|by eapply level_sorted|done].
  rewrite Forall_forall in Hn. rewrite (Hn l) in Hx; [done|]. by eapply list_elem_of_lookup_2.
Qed.

(** The picked entry wins in the merge: no newer level has its key. *)
Lemma picked_in_merge w l e :
  ls !! w = Some l → e ∈ l →
  (∀ j l', (j < w)%nat → ls !! j = Some l' → ∀ x, x ∈ l' → e_key x ≠ e_key e) →
  ∃ i, merge_levels ls !! i = Some e.
Proof.
  intros Hw He Hfirst. apply list_elem_of_lookup_1, (assoc_elem _ (e_key e)).
  rewrite assoc_merge_levels. eapply assoc_levels_first; [done| |].
  - apply list_elem_of_lookup_1 in He as [i Hi].
    eapply assoc_lookup; [by eapply level_sorted|done].
  - intros j l' Hj Hl'. apply assoc_None. eauto.
Qed.

Lemma merge_after w e :
  picks bytes_lt (after P <$> ls) w e → after P (merge_levels ls) = Some e.
Proof.
  intros [Hw Hmin]. rewrite list_lookup_fmap in Hw.
  destruct (ls !! w) as [l|] eqn:El; [|done]. simpl in Hw. injection Hw as Hw.
  pose proof (level_sorted _ _ El) as Hl. pose proof (after_not_P _ _ Hl Hw) as HPe.
  assert (Hbest : ∀ j l' x, ls !! j = Some l' → x ∈ l' → P (e_key x) = false →
            ¬ bytes_lt (e_key x) (e_key e) ∧ ((j < w)%nat → e_key x ≠ e_key e)).
  { intros j l' x Hj Hx HPx. pose proof (level_sorted _ _ Hj) as Hl'.
    destruct (after_some l' x Hl' Hx HPx) as [y Hy].
    destruct (Hmin j y) as [Hm1 Hm2]; [by rewrite list_lookup_fmap, Hj; simpl; f_equal|].
    pose proof (after_min l' y x Hl' Hy Hx HPx) as Hyx.
    split.
    - intros Hlt. destruct (bytes_lt_total (e_key y) (e_key x)) as [H|[H|H]]; [| |done].
      + apply Hm1. by eapply bytes_lt_trans.
      + apply Hm1. by rewrite H.
    - intros Hjw Hk. apply Hyx. rewrite Hk. by apply Hm2. }
  destruct (picked_in_merge w l e El (after_elem _ _ Hw)) as [i Hi].
  { intros j l' Hj Hl' x Hx Hk. destruct (P (e_key x)) eqn:E.
    - rewrite Hk in E. congruence.
    - by eapply Hbest. }
  unfold after. rewrite <- Hi. f_equal.
  rewrite <- (cnt_below_lookup _ _ _ (merge_levels_sorted ls) Hi).
  apply cnt_ext. intros x (j & l' & Hj & Hx)%merge_levels_elem.
  destruct (P (e_key x)) eqn:E; symmetry.
  - apply below_true. destruct (bytes_lt_total (e_key x) (e_key e)) as [H|[H|H]]; [done| |].
    + rewrite H in E. congruence.
    + rewrite (HP _ _ H E) in HPe. done.
  - apply below_false. by eapply Hbest.
Qed.

Lemma merge_before w e :
  picks (flip bytes_lt) (before P <$> ls) w e → before P (merge_levels ls) = Some e.
Proof.
  intros [Hw Hmax]. rewrite list_lookup_fmap in Hw.
  destruct (ls !! w) as [l|] eqn:El; [|done]. simpl in Hw. injection Hw as Hw.
  pose proof (level_sorted _ _ El) as Hl. pose proof (before_P _ _ Hl Hw) as HPe.
  assert (Hbest : ∀ j l' x, ls !! j = Some l' → x ∈ l' → P (e_key x) = true →
            ¬ bytes_lt (e_key e) (e_key x) ∧ ((j < w)%nat → e_key x ≠ e_key e)).
  { intros j l' x Hj Hx HPx. pose proof (level_sorted _ _ Hj) as Hl'.
    destruct (before_some l' x Hl' Hx HPx) as [y Hy].
    destruct (Hmax j y) as [Hm1 Hm2]; [by rewrite list_lookup_fmap, Hj; simpl; f_equal|].
    unfold flip in *. pose proof (before_max l' y x Hl' Hy Hx HPx) as Hyx.
    split.
    - intros Hlt. destruct (bytes_lt_total (e_key x) (e_key y)) as [H|[H|H]]; [| |done].
      + apply Hm1. by eapply bytes_lt_trans.
      + apply Hm1. by rewrite <- H.
    - intros Hjw Hk. apply Hyx. rewrite Hk. by apply Hm2. }
  destruct (picked_in_merge w l e El (before_elem _ _ Hw)) as [i Hi].
  { intros j l' Hj Hl' x Hx Hk. eapply Hbest; eauto. by rewrite Hk. }
  assert (cnt P (merge_levels ls) = S i) as Hc.
  { rewrite <- (cnt_upto_lookup _ _ _ (merge_levels_sorted ls) Hi).
    apply cnt_ext. intros x (j & l' & Hj & Hx)%merge_levels_elem.
    destruct (P (e_key x)) eqn:E; symmetry.
    - apply upto_true. by eapply Hbest.
    - apply not_true_is_false. rewrite upto_true. intros Hn.
      destruct (bytes_lt_total (e_key x) (e_key e)) as [H|[H|H]]; [| |done].
      + rewrite (HP _ _ H HPe) in E. done.
      + rewrite H in E. congruence. }
  unfold before. by rewrite Hc.
Qed.

End cuts.

(** ** Picking the winner *)

Section pick.
Context `{KVIter It}.
Context (lt : bytes → bytes → Prop) (worse : comparison → bool).
Hypothesis lt_trans : Transitive lt.
Hypothesis lt_irrefl : Irreflexive lt.
Hypothesis lt_total : ∀ a b, lt a b ∨ a = b ∨ lt b a.
Hypothesis worse_lt : ∀ a b, worse (bytes_compare a b) = true ↔ lt b a.

(** What a sub-iterator shows: its current entry, if any. *)
Definition shows (sub : It) (o : option ent) : Prop :=
  match o with
  | Some e => Valid sub = true ∧ Key sub = Ok (e_key e)
  | None => Valid sub = false
  end.

Lemma picks_snoc_none cur w e : picks lt cur w e → picks lt (cur ++ [None]) w e.
Proof.
  intros [Hw Hmin]. split; [by apply lookup_app_l_Some|].
  intros j e' [Hj|[Hge Hj]]%lookup_app_Some; [by apply Hmin|].
  destruct (j - length cur)%nat; [done|]. by destruct n.
Qed.

Lemma picks_snoc_keep cur w e e' :
  picks lt cur w e → ¬ lt (e_key e') (e_key e) → picks lt (cur ++ [Some e']) w e.
Proof.
  intros [Hw Hmin] Hk. split; [by apply lookup_app_l_Some|].
  intros j e2 [Hj|[Hge Hj]]%lookup_app_Some; [by apply Hmin|].
  destruct (j - length cur)%nat eqn:E; [|by destruct n].
  simpl in Hj. simplify_eq. split; [done|]. apply lookup_lt_Some in Hw. lia.
Qed.

Lemma picks_snoc_new cur w e e' :
  picks lt cur w e → lt (e_key e') (e_key e) → picks lt (cur ++ [Some e']) (length cur) e'.
Proof.
  intros [Hw Hmin] Hk. split.
  { rewrite lookup_app_r, Nat.sub_diag by lia. done. }
  intros j e2 [Hj|[Hge Hj]]%lookup_app_Some.
  - apply Hmin in Hj as [Hj _]. split.
    + intros H2. apply Hj. by eapply lt_trans.
    + intros _. destruct (lt_total (e_key e) (e_key e2)) as [H2|[H2|H2]]; [| |done].
      * by eapply lt_trans.
      * by rewrite <- H2.
  - destruct (j - length cur)%nat eqn:E; [|by destruct n].
    simpl in Hj. simplify_eq. split; [apply lt_irrefl|lia].
Qed.

Lemma levels_pick_spec subs cur done win winKey :
  Forall2 shows subs cur →
  (win = -1 ∧ Forall (fun o => o = None) done ∨
   ∃ w e, win = Z.of_nat w ∧ winKey = e_key e ∧ picks lt done w e) →
  (levels_pick worse (Z.of_nat (length done)) win winKey subs = Ok (-1) ∧
     Forall (fun o => o = None) (done ++ cur)) ∨
  (∃ w e, levels_pick worse (Z.of_nat (length done)) win winKey subs = Ok (Z.of_nat w) ∧
     picks lt (done ++ cur) w e).
Proof.
  intros Hs. revert done win winKey. induction Hs as [|sub o subs cur Hso Hs IH]; intros done win winKey Hinv.
  - rewrite app_nil_r. simpl.
    destruct Hinv as [[-> Hn]|(w & e & -> & -> & Hp)]; [left; done|right; eauto].
  - replace (done ++ o :: cur) with ((done ++ [o]) ++ cur) by (by rewrite <- app_assoc).
    assert (Z.of_nat (length done) + 1 = Z.of_nat (length (done ++ [o]))) as El
      by (rewrite length_app; simpl; lia).
    simpl. destruct o as [e|]; simpl in Hso.
    + destruct Hso as [-> ->]. simpl. rewrite El.
      destruct Hinv as [[-> Hn]|(w & e' & -> & -> & Hp)].
      * apply IH. right. exists (length done), e. split_and!; [done..|]. split.
        { rewrite lookup_app_r, Nat.sub_diag by lia. done. }
        intros j e2 [Hj|[Hge Hj]]%lookup_app_Some.
        -- rewrite Forall_forall in Hn. by apply list_elem_of_lookup_2, Hn in Hj.
        -- destruct (j - length done)%nat eqn:E; [|by destruct n].
           simpl in Hj. simplify_eq. split; [apply lt_irrefl|lia].
      * destruct (Z.ltb_spec (Z.of_nat w) 0); [lia|]. simpl.
        destruct (worse (bytes_compare (e_key e') (e_key e))) eqn:Ew.
        -- apply worse_lt in Ew. apply IH. right. exists (length done), e.
           split_and!; [done..|]. by eapply picks_snoc_new.
        -- apply IH. right. exists w, e'. split_and!; [done..|]. apply picks_snoc_keep; [done|].
           rewrite <- worse_lt. congruence.
    + rewrite Hso, El. apply IH. destruct Hinv as [[-> Hn]|(w & e' & -> & -> & Hp)].
      * left. split; [done|]. apply Forall_app. split; [done|]. by constructor.
      * right. exists w, e'. split_and!; [done..|]. by apply picks_snoc_none.
Qed.

End pick.

Lemma levelsLowest_spec `{KVIter It} (subs : list It) cur :
  Forall2 shows subs cur →
  (levelsLowest subs = Ok (-1) ∧ Forall (fun o => o = None) cur) ∨
  (∃ w e, levelsLowest subs = Ok (Z.of_nat w) ∧ picks bytes_lt cur w e).
Proof.
  intros Hs. apply (levels_pick_spec bytes_lt _ _ _ bytes_lt_total) with (done := []); [|done|by left].
  intros a b. rewrite <- bytes_compare_gt. destruct (bytes_compare a b); split; congruence.
Qed.

Lemma levelsHighest_spec `{KVIter It} (subs : list It) cur :
  Forall2 shows subs cur →
  (levelsHighest subs = Ok (-1) ∧ Forall (fun o => o = None) cur) ∨
  (∃ w e, levelsHighest subs = Ok (Z.of_nat w) ∧ picks (flip bytes_lt) cur w e).
Proof.
  intros Hs. apply (levels_pick_spec (flip bytes_lt) _) with (done := []); [| | | |done|by left].
  - intros a b c Hab Hbc. unfold flip in *. by eapply bytes_lt_trans.
  - intros a Ha. by apply bytes_lt_irrefl in Ha.
  - intros a b. destruct (bytes_lt_total a b) as [?|[?|?]]; unfold flip; auto.
  - intros a b. unfold flip, bytes_lt. destruct (bytes_compare a b); split; congruence.
Qed.

(** ** The laws of the merged iterator *)

Section laws.
Context `{IterLaws It}.

(** The sub-iterators stand at one cut [P] of the key order: all just past it
    (moving forward) or all just before it (moving backward). *)
Definition aligned (P : bytes → bool) (fwd : bool) (subs : list It) (ls : list (list ent)) : Prop :=
  Forall2 (fun sub l => At sub l (if fwd then Z.of_nat (cnt P l) else Z.of_nat (cnt P l) - 1)) subs ls.

Definition mi_At (it : MergedSortedKVIter It) (s : list ent) (p : Z) : Prop :=
  ∃ ls P fwd, down P ∧ aligned P fwd (mi_levels it) ls ∧ s = merge_levels ls ∧
    p = (if (fwd : bool) then Z.of_nat (cnt P s) else Z.of_nat (cnt P s) - 1) ∧
    (if fwd then levelsLowest (mi_levels it) else levelsHighest (mi_levels it)) = Ok (mi_which it).

Lemma aligned_sorted P fwd subs ls : aligned P fwd subs ls → Forall sorted ls.
Proof. intros Ha. eapply Forall2_Forall_r; [exact Ha|]. apply Forall_true. intros sub l. apply At_sorted. Qed.

Definition shown (P : bytes → bool) (fwd : bool) : list ent → option ent :=
  if fwd then after P else before P.

Lemma At_shows sub l P (fwd : bool) :
  At sub l (if fwd then Z.of_nat (cnt P l) else Z.of_nat (cnt P l) - 1) →
  shows sub (shown P fwd l).
Proof.
  intros Hat. pose proof (cnt_le P l) as Hle. unfold shown, shows, after, before.
  destruct fwd.
  - destruct (l !! cnt P l) as [e|] eqn:E.
    + apply lookup_lt_Some in E as Hlt.
      split; [rewrite (At_valid _ _ _ Hat); apply bool_decide_eq_true; lia|].
      eapply At_entry; [done|lia|]. by rewrite Nat2Z.id.
    + apply lookup_ge_None_1 in E. rewrite (At_valid _ _ _ Hat). apply bool_decide_eq_false. lia.
  - destruct (cnt P l) as [|n] eqn:En.
    + rewrite (At_valid _ _ _ Hat). apply bool_decide_eq_false. lia.
    + destruct (lookup_lt_is_Some_2 l n) as [e E]; [lia|]. rewrite E.
      split; [rewrite (At_valid _ _ _ Hat); apply bool_decide_eq_true; lia|].
      eapply At_entry; [done|lia|]. by replace (Z.to_nat (Z.of_nat (S n) - 1)) with n by lia.
Qed.

Lemma aligned_shows P fwd subs ls :
  aligned P fwd subs ls → Forall2 shows subs (shown P fwd <$> ls).
Proof.
  intros Ha. apply Forall2_fmap_r. eapply Forall2_impl; [exact Ha|].
  intros sub l. apply At_shows.
Qed.

(** An aligned stack shows the entry of the merge at the cut. *)
Lemma aligned_which P (fwd : bool) subs ls :
  down P → aligned P fwd subs ls →
  let m := merge_levels ls in
  (if fwd then levelsLowest subs else levelsHighest subs) = Ok (-1) ∧ shown P fwd m = None ∨
  ∃ w sub l e,
    (if fwd then levelsLowest subs else levelsHighest subs) = Ok (Z.of_nat w) ∧
    subs !! w = Some sub ∧ ls !! w = Some l ∧ shown P fwd l = Some e ∧ shown P fwd m = Some e.
Proof.
  intros HP Ha m. subst m. pose proof (aligned_shows _ _ _ _ Ha) as Hsh.
  pose proof (aligned_sorted _ _ _ _ Ha) as Hsort.
  assert (Hpick : ∀ lt w e, picks lt (shown P fwd <$> ls) w e →
            ∃ sub l, subs !! w = Some sub ∧ ls !! w = Some l ∧ shown P fwd l = Some e).
  { intros lt w e [Hw _]. rewrite list_lookup_fmap in Hw.
    destruct (ls !! w) as [l|] eqn:El; [|done]. simpl in Hw. injection Hw as Hw.
    destruct (Forall2_lookup_r _ _ _ _ _ Ha El) as (sub & Hsub & _). eauto. }
  destruct fwd; simpl in *.
  - destruct (levelsLowest_spec subs _ Hsh) as [[-> Hn]|(w & e & -> & Hp)].
    + left. split; [done|]. unfold after. rewrite (merge_after_none P ls HP Hsort).
      * by apply lookup_ge_None_2.
      * by apply Forall_fmap in Hn.
    + right. destruct (Hpick _ _ _ Hp) as (sub & l & ? & ? & ?).
      exists w, sub, l, e. split_and!; [done..|]. by apply (merge_after P ls HP Hsort w e).
  - destruct (levelsHighest_spec subs _ Hsh) as [[-> Hn]|(w & e & -> & Hp)].
    + left. split; [done|]. unfold before. rewrite (merge_before_none P ls HP Hsort); [done|].
      by apply Forall_fmap in Hn.
    + right. destruct (Hpick _ _ _ Hp) as (sub & l & ? & ? & ?).
      exists w, sub, l, e. split_and!; [done..|]. by apply (merge_before P ls HP Hsort w e).
Qed.

Lemma shown_pos P (fwd : bool) s (p : Z) :
  p = (if fwd then Z.of_nat (cnt P s) else Z.of_nat (cnt P s) - 1) →
  match shown P fwd s with
  | Some e => 0 ≤ p ∧ s !! Z.to_nat p = Some e
  | None => ¬ (0 ≤ p < Z.of_nat (length s))
  end.
Proof.
  intros ->. unfold shown, after, before. pose proof (cnt_le P s). destruct fwd.
  - destruct (s !! cnt P s) as [e|] eqn:E.
    + rewrite Nat2Z.id. split; [lia|done].
    + apply lookup_ge_None_1 in E. lia.
  - destruct (cnt P s) as [|n] eqn:En; [lia|].
    destruct (lookup_lt_is_Some_2 s n) as [e E]; [lia|]. rewrite E.
    replace (Z.to_nat (Z.of_nat (S n) - 1)) with n by lia. split; [lia|done].
Qed.

(** Realigning: an aligned stack is a merged iterator at the cut. *)
Lemma mi_At_intro P fwd subs ls w :
  down P → aligned P fwd subs ls →
  (if fwd then levelsLowest subs else levelsHighest subs) = Ok w →
  mi_At (MkMIter subs w) (merge_levels ls)
    (if (fwd : bool) then Z.of_nat (cnt P (merge_levels ls)) else Z.of_nat (cnt P (merge_levels ls)) - 1).
Proof. intros HP Ha Hw. exists ls, P, fwd. done. Qed.

Lemma aligned_which_ok P (fwd : bool) subs ls :
  down P → aligned P fwd subs ls →
  ∃ w, (if fwd then levelsLowest subs else levelsHighest subs) = Ok w.
Proof.
  intros HP Ha. destruct (aligned_which _ _ _ _ HP Ha) as [[-> _]|(w & ? & ? & ? & -> & _)]; eauto.
Qed.

Lemma mapM_res_aligned (f : It → res It) P' (fwd' : bool) subs ls Q :
  Forall2 Q subs ls →
  (∀ sub l, Q sub l → l ∈ ls →
     ∃ sub', f sub = Ok sub' ∧ At sub' l (if fwd' then Z.of_nat (cnt P' l) else Z.of_nat (cnt P' l) - 1)) →
  ∃ subs', mapM_res f subs = Ok subs' ∧ aligned P' fwd' subs' ls.
Proof.
  intros HQ. induction HQ as [|sub l subs ls HQ1 HQ IH]; intros Hstep; simpl.
  - exists []. split; [done|]. constructor.
  - destruct (Hstep sub l HQ1) as (sub' & -> & Hat); [by left|]. simpl.
    destruct IH as (subs' & -> & Ha'). { intros. apply Hstep; [done|by right]. }
    exists (sub' :: subs'). split; [done|]. by constructor.
Qed.

(** Every key of a level is a key of the merge. *)
Lemma merge_key_in ls l x :
  Forall sorted ls → l ∈ ls → x ∈ l → ∃ y, y ∈ merge_levels ls ∧ e_key y = e_key x.
Proof.
  intros Hs [j Hj]%list_elem_of_lookup_1 [i Hi]%list_elem_of_lookup_1.
  destruct (assoc_levels_elem ls j l x Hj) as [y Hy].
  { eapply assoc_lookup; [|done]. eapply level_sorted; eauto. }
  rewrite <- assoc_merge_levels in Hy. exists y.
  split; [by eapply assoc_elem|by eapply assoc_Some_key].
Qed.

Section step.
Context (P : bytes → bool) (ls : list (list ent)).
Hypothesis HP : down P.
Hypothesis Hsorted : Forall sorted ls.

Lemma fwd_side e l x :
  after P (merge_levels ls) = Some e → l ∈ ls → x ∈ l →
  (P (e_key x) = true → bytes_lt (e_key x) (e_key e)) ∧
  (P (e_key x) = false → ¬ bytes_lt (e_key x) (e_key e)).
Proof.
  intros He Hl Hx. destruct (merge_key_in _ _ _ Hsorted Hl Hx) as (y & Hy & Hk).
  pose proof (after_not_P P HP _ _ (merge_levels_sorted ls) He) as HPe.
  rewrite <- Hk. split; intros HPy.
  - destruct (bytes_lt_total (e_key y) (e_key e)) as [H'|[H'|H']]; [done| |].
    + rewrite H' in HPy. congruence.
    + rewrite (HP _ _ H' HPy) in HPe. done.
  - eapply (after_min P HP _ _ _ (merge_levels_sorted ls)); done.
Qed.

Lemma bwd_side e l x :
  before P (merge_levels ls) = Some e → l ∈ ls → x ∈ l →
  (P (e_key x) = true → ¬ bytes_lt (e_key e) (e_key x)) ∧
  (P (e_key x) = false → bytes_lt (e_key e) (e_key x)).
Proof.
  intros He Hl Hx. destruct (merge_key_in _ _ _ Hsorted Hl Hx) as (y & Hy & Hk).
  pose proof (before_P P HP _ _ (merge_levels_sorted ls) He) as HPe.
  rewrite <- Hk. split; intros HPy.
  - eapply (before_max P HP _ _ _ (merge_levels_sorted ls)); done.
  - destruct (bytes_lt_total (e_key y) (e_key e)) as [H'|[H'|H']]; [| |done].
    + rewrite (HP _ _ H' HPe) in HPy. done.
    + rewrite H' in HPy. congruence.
Qed.

(** With nothing shown by the merge, no level shows anything. *)
Lemma shown_none (fwd : bool) l :
  shown P fwd (merge_levels ls) = None → l ∈ ls →
  cnt P l = if fwd then length l else 0%nat.
Proof.
  intros Hn Hl. destruct fwd; simpl in Hn.
  - rewrite <- cnt_true. apply cnt_ext. intros x Hx.
    destruct (merge_key_in _ _ _ Hsorted Hl Hx) as (y & Hy & Hk). rewrite <- Hk.
    destruct (P (e_key y)) eqn:E; [done|].
    destruct (after_some P HP _ _ (merge_levels_sorted ls) Hy E). congruence.
  - rewrite <- (cnt_false l). apply cnt_ext. intros x Hx.
    destruct (merge_key_in _ _ _ Hsorted Hl Hx) as (y & Hy & Hk). rewrite <- Hk.
    destruct (P (e_key y)) eqn:E; [|done].
    destruct (before_some P HP _ _ (merge_levels_sorted ls) Hy E). congruence.
Qed.

Definition next_sub (cur : bytes) (sub : It) : res It :=
  if negb (Valid sub) then Next sub else
  k ← Key sub; match bytes_compare cur k with Lt => Ok sub | _ => Next sub end.

Definition prev_sub (cur : bytes) (sub : It) : res It :=
  if negb (Valid sub) then Prev sub else
  k ← Key sub; match bytes_compare cur k with Gt => Ok sub | _ => Prev sub end.

Lemma next_sub_invalid cur sub l p :
  At sub l p → Valid sub = false →
  ∃ sub', next_sub cur sub = Ok sub' ∧ At sub' l (Z.min (p + 1) (Z.of_nat (length l))).
Proof. intros Hat Hv. unfold next_sub. rewrite Hv. by apply At_next. Qed.

Lemma prev_sub_invalid cur sub l p :
  At sub l p → Valid sub = false →
  ∃ sub', prev_sub cur sub = Ok sub' ∧ At sub' l (Z.max (p - 1) (-1)).
Proof. intros Hat Hv. unfold prev_sub. rewrite Hv. by apply At_prev. Qed.

(** One level of [Next]: whatever the direction before, the level ends just
    past every key up to the current one. *)
Lemma next_sub_spec (fwd : bool) e sub l :
  shown P fwd (merge_levels ls) = Some e → l ∈ ls →
  At sub l (if fwd then Z.of_nat (cnt P l) else Z.of_nat (cnt P l) - 1) →
  ∃ sub', next_sub (e_key e) sub = Ok sub' ∧ At sub' l (Z.of_nat (cnt (upto (e_key e)) l)).
Proof.
  intros He Hl Hat. pose proof (At_shows _ _ _ _ Hat) as Hsh. pose proof (cnt_le P l) as Hle.
  assert (sorted l) as Hsl by (rewrite Forall_forall in Hsorted; auto).
  destruct fwd; simpl in *.
  - pose proof (fun x => fwd_side e l x He Hl) as Hside.
    assert (Hsame : (∀ x, x ∈ l → P (e_key x) = false → bytes_lt (e_key e) (e_key x)) →
              cnt (upto (e_key e)) l = cnt P l).
    { intros Hgt. apply cnt_ext. intros x Hx. destruct (P (e_key x)) eqn:E.
      - apply upto_true, bytes_lt_not. by apply Hside.
      - apply not_true_is_false. rewrite upto_true. intros Hn. by apply Hn, Hgt. }
    destruct (after P l) as [x|] eqn:Ex; simpl in Hsh.
    + destruct Hsh as [Hv Hk]. pose proof (after_elem _ _ _ Ex) as Hx.
      pose proof (proj2 (Hside x Hx) (after_not_P P HP _ _ Hsl Ex)) as Hnlt.
      unfold next_sub. rewrite Hv, Hk. simpl.
      destruct (bytes_compare_spec (e_key e) (e_key x)) as [Ek|Ek|Ek]; [| |done].
      * destruct (At_next _ _ _ Hat) as (sub' & -> & Hat'). exists sub'. split; [done|].
        unfold after in Ex. rewrite Ek, (cnt_upto_lookup _ _ _ Hsl Ex).
        apply lookup_lt_Some in Ex. by replace (Z.of_nat (S (cnt P l)))
          with (Z.min (Z.of_nat (cnt P l) + 1) (Z.of_nat (length l))) by lia.
      * exists sub. split; [done|]. rewrite Hsame; [done|]. intros y Hy HPy.
        pose proof (after_min P HP _ _ _ Hsl Ex Hy HPy) as Hm.
        destruct (bytes_lt_total (e_key x) (e_key y)) as [H'|[H'|H']]; [| |done].
        -- by eapply bytes_lt_trans.
        -- by rewrite <- H'.
    + destruct (next_sub_invalid (e_key e) _ _ _ Hat Hsh) as (sub' & -> & Hat').
      exists sub'. split; [done|]. rewrite Hsame.
      * unfold after in Ex. apply lookup_ge_None_1 in Ex.
        by replace (Z.of_nat (cnt P l))
          with (Z.min (Z.of_nat (cnt P l) + 1) (Z.of_nat (length l))) by lia.
      * intros x Hx HPx. destruct (after_some P HP _ _ Hsl Hx HPx). congruence.
  - pose proof (fun x => bwd_side e l x He Hl) as Hside.
    assert (cnt (upto (e_key e)) l = cnt P l) as ->.
    { apply cnt_ext. intros x Hx. destruct (P (e_key x)) eqn:E.
      - apply upto_true. by apply Hside.
      - apply not_true_is_false. rewrite upto_true. intros Hn. apply Hn. by apply Hside. }
    assert (∃ sub', next_sub (e_key e) sub = Ok sub' ∧
              At sub' l (Z.min (Z.of_nat (cnt P l) - 1 + 1) (Z.of_nat (length l)))) as (sub' & -> & Hat').
    { destruct (before P l) as [x|] eqn:Ex; simpl in Hsh; [|by apply next_sub_invalid].
      destruct Hsh as [Hv Hk]. unfold next_sub. rewrite Hv, Hk. simpl.
      pose proof (proj1 (Hside x (before_elem _ _ _ Ex)) (before_P P HP _ _ Hsl Ex)) as Hnlt.
      destruct (bytes_compare_spec (e_key e) (e_key x)) as [Ek|Ek|Ek]; [|done|]; by apply At_next. }
    exists sub'. split; [done|].
    by replace (Z.of_nat (cnt P l)) with (Z.min (Z.of_nat (cnt P l) - 1 + 1) (Z.of_nat (length l))) by lia.
Qed.

(** One level of [Prev]: the level ends just before every key from the
    current one on. *)
Lemma prev_sub_spec (fwd : bool) e sub l :
  shown P fwd (merge_levels ls) = Some e → l ∈ ls →
  At sub l (if fwd then Z.of_nat (cnt P l) else Z.of_nat (cnt P l) - 1) →
  ∃ sub', prev_sub (e_key e) sub = Ok sub' ∧ At sub' l (Z.of_nat (cnt (below (e_key e)) l) - 1).
Proof.
  intros He Hl Hat. pose proof (At_shows _ _ _ _ Hat) as Hsh. pose proof (cnt_le P l) as Hle.
  assert (sorted l) as Hsl by (rewrite Forall_forall in Hsorted; auto).
  destruct fwd; simpl in *.
  - pose proof (fun x => fwd_side e l x He Hl) as Hside.
    assert (cnt (below (e_key e)) l = cnt P l) as ->.
    { apply cnt_ext. intros x Hx. destruct (P (e_key x)) eqn:E.
      - apply below_true. by apply Hside.
      - apply below_false. by apply Hside. }
    assert (∃ sub', prev_sub (e_key e) sub = Ok sub' ∧
              At sub' l (Z.max (Z.of_nat (cnt P l) - 1) (-1))) as (sub' & -> & Hat').
    { destruct (after P l) as [x|] eqn:Ex; simpl in Hsh; [|by apply prev_sub_invalid].
      destruct Hsh as [Hv Hk]. unfold prev_sub. rewrite Hv, Hk. simpl.
      pose proof (proj2 (Hside x (after_elem _ _ _ Ex)) (after_not_P P HP _ _ Hsl Ex)) as Hnlt.
      destruct (bytes_compare_spec (e_key e) (e_key x)) as [Ek|Ek|Ek]; [| |done]; by apply At_prev. }
    exists sub'. split; [done|].
    by replace (Z.of_nat (cnt P l) - 1) with (Z.max (Z.of_nat (cnt P l) - 1) (-1)) by lia.
  - pose proof (fun x => bwd_side e l x He Hl) as Hside.
    assert (Hsame : (∀ x, x ∈ l → P (e_key x) = true → bytes_lt (e_key x) (e_key e)) →
              cnt (below (e_key e)) l = cnt P l).
    { intros Hgt. apply cnt_ext. intros x Hx. destruct (P (e_key x)) eqn:E.
      - apply below_true. auto.
      - apply below_false, bytes_lt_not. by apply Hside. }
    destruct (before P l) as [x|] eqn:Ex; simpl in Hsh.
    + destruct Hsh as [Hv Hk]. pose proof (before_elem _ _ _ Ex) as Hx.
      pose proof (proj1 (Hside x Hx) (before_P P HP _ _ Hsl Ex)) as Hnlt.
      unfold prev_sub. rewrite Hv, Hk. simpl.
      destruct (bytes_compare_spec (e_key e) (e_key x)) as [Ek|Ek|Ek]; [|done|].
      * destruct (At_prev _ _ _ Hat) as (sub' & -> & Hat'). exists sub'. split; [done|].
        unfold before in Ex. destruct (cnt P l) as [|n]; [done|].
        rewrite Ek, (cnt_below_lookup _ _ _ Hsl Ex).
        by replace (Z.of_nat n - 1) with (Z.max (Z.of_nat (S n) - 1 - 1) (-1)) by lia.
      * exists sub. split; [done|]. rewrite Hsame; [done|]. intros y Hy HPy.
        pose proof (before_max P HP _ _ _ Hsl Ex Hy HPy) as Hm.
        destruct (bytes_lt_total (e_key y) (e_key x)) as [H'|[H'|H']]; [| |done].
        -- by eapply bytes_lt_trans.
        -- by rewrite H'.
    + destruct (prev_sub_invalid (e_key e) _ _ _ Hat Hsh) as (sub' & -> & Hat').
      exists sub'. split; [done|]. rewrite Hsame.
      * unfold before in Ex. destruct (cnt P l) as [|n].
        -- by replace (Z.of_nat 0 - 1) with (Z.max (Z.of_nat 0 - 1 - 1) (-1)) by lia.
        -- destruct (lookup_lt_is_Some_2 l n); [lia|congruence].
      * intros x Hx HPx. destruct (before_some P HP _ _ Hsl Hx HPx). congruence.
Qed.

End step.

(** The merged iterator at [p] shows the entry of the merge there. *)
Lemma mi_At_shown it s p :
  mi_At it s p →
  (mi_Valid it = false ∧ ¬ (0 ≤ p < Z.of_nat (length s))) ∨
  (∃ sub e, mi_Valid it = true ∧ mi_current it = Ok sub ∧ 0 ≤ p ∧ s !! Z.to_nat p = Some e ∧
     Key sub = Ok (e_key e) ∧ Val sub = Ok (e_val e) ∧ Deleted sub = Ok (e_del e)).
Proof.
  intros (ls & P & fwd & HP & Ha & -> & Hp & Hw).
  pose proof (shown_pos _ _ _ _ Hp) as Hpos. unfold mi_Valid, mi_current.
  destruct (aligned_which _ _ _ _ HP Ha) as [[Hw' Hn]|(w & sub & l & e & Hw' & Hsub & Hl & Hsl & Hm)].
  - rewrite Hw' in Hw. injection Hw as <-. rewrite Hn in Hpos. by left.
  - rewrite Hw' in Hw. injection Hw as <-. rewrite Hm in Hpos. right. exists sub, e.
    destruct (Z.leb_spec 0 (Z.of_nat w)); [|lia]. destruct (Z.ltb_spec (Z.of_nat w) 0); [lia|].
    rewrite Nat2Z.id. split; [done|]. split; [by apply go_index_ok|].
    split; [apply Hpos|]. split; [apply Hpos|].
    pose proof (Forall2_lookup_lr _ _ _ _ _ _ Ha Hsub Hl) as Hat. simpl in Hat.
    pose proof (shown_pos _ _ _ _ (eq_refl (if fwd then Z.of_nat (cnt P l) else Z.of_nat (cnt P l) - 1))) as Hpl.
    rewrite Hsl in Hpl. destruct Hpl. eapply At_entry; eauto.
Qed.

Lemma mi_cur_shown it s p :
  mi_At it s p →
  mi_cur it = Ok (match s !! Z.to_nat p with
                  | Some e => if bool_decide (0 ≤ p) then e_key e else []
                  | None => []
                  end).
Proof.
  intros Hat. unfold mi_cur. destruct (mi_At_shown _ _ _ Hat) as [[-> Hn]|(sub & e & -> & Hc & Hp & He & Hk & _)].
  - destruct (s !! Z.to_nat p) as [e|] eqn:E; [|done].
    apply lookup_lt_Some in E. by rewrite bool_decide_eq_false_2 by lia.
  - unfold mi_Key. rewrite Hc, He. simpl. rewrite Hk. by rewrite bool_decide_eq_true_2.
Qed.

Lemma mi_At_next it s p :
  mi_At it s p → ∃ it', mi_Next it = Ok it' ∧ mi_At it' s (Z.min (p + 1) (Z.of_nat (length s))).
Proof.
  intros Hat. pose proof (mi_cur_shown _ _ _ Hat) as Hcur.
  destruct Hat as (ls & P & fwd & HP & Ha & -> & Hp & Hw).
  pose proof (aligned_sorted _ _ _ _ Ha) as Hs. pose proof (shown_pos _ _ _ _ Hp) as Hpos.
  unfold mi_Next. rewrite Hcur. simpl. clear Hcur.
  assert (∃ P' subs', down P' ∧ mapM_res (next_sub (match merge_levels ls !! Z.to_nat p with
                  | Some e => if bool_decide (0 ≤ p) then e_key e else []
                  | None => [] end)) (mi_levels it) = Ok subs' ∧ aligned P' true subs' ls ∧
            Z.min (p + 1) (Z.of_nat (length (merge_levels ls))) = Z.of_nat (cnt P' (merge_levels ls)))
    as (P' & subs' & HP' & Hmap & Ha' & Hp').
  { destruct (shown P fwd (merge_levels ls)) as [e|] eqn:Esh.
    - destruct Hpos as [Hp0 He]. rewrite He, bool_decide_eq_true_2 by done.
      exists (upto (e_key e)).
      destruct (mapM_res_aligned (next_sub (e_key e)) (upto (e_key e)) true _ _ _ Ha) as (subs' & ? & ?).
      { intros sub l Hat Hl. by eapply (next_sub_spec P ls HP Hs fwd). }
      exists subs'. split; [apply down_upto|]. split; [done|]. split; [done|].
      rewrite (cnt_upto_lookup _ _ _ (merge_levels_sorted ls) He).
      apply lookup_lt_Some in He. lia.
    - exists P.
      destruct (mapM_res_aligned (next_sub (match merge_levels ls !! Z.to_nat p with
                  | Some e => if bool_decide (0 ≤ p) then e_key e else []
                  | None => [] end)) P true _ _ _ Ha) as (subs' & ? & ?).
      { intros sub l Hat Hl. simpl in Hat.
        pose proof (shown_none P ls HP Hs fwd l Esh Hl) as Hc.
        destruct (next_sub_invalid (match merge_levels ls !! Z.to_nat p with
                  | Some e => if bool_decide (0 ≤ p) then e_key e else []
                  | None => [] end) _ _ _ Hat) as (sub' & -> & Hat').
        { rewrite (At_valid _ _ _ Hat). apply bool_decide_eq_false. destruct fwd; lia. }
        exists sub'. split; [done|]. destruct fwd.
        - by replace (Z.of_nat (cnt P l)) with (Z.min (Z.of_nat (cnt P l) + 1) (Z.of_nat (length l))) by lia.
        - by replace (Z.of_nat (cnt P l)) with (Z.min (Z.of_nat (cnt P l) - 1 + 1) (Z.of_nat (length l))) by lia. }
      exists subs'. split; [done|]. split; [done|]. split; [done|].
      pose proof (cnt_le P (merge_levels ls)). destruct fwd; lia. }
  unfold next_sub in Hmap. rewrite Hmap. simpl.
  destruct (aligned_which_ok P' true subs' ls HP' Ha') as [w Hw']. simpl in Hw'. rewrite Hw'. simpl.
  eexists. split; [done|]. rewrite Hp'. by apply (mi_At_intro P' true).
Qed.

Lemma mi_At_prev it s p :
  mi_At it s p → ∃ it', mi_Prev it = Ok it' ∧ mi_At it' s (Z.max (p - 1) (-1)).
Proof.
  intros Hat. pose proof (mi_cur_shown _ _ _ Hat) as Hcur.
  destruct Hat as (ls & P & fwd & HP & Ha & -> & Hp & Hw).
  pose proof (aligned_sorted _ _ _ _ Ha) as Hs. pose proof (shown_pos _ _ _ _ Hp) as Hpos.
  unfold mi_Prev. rewrite Hcur. simpl. clear Hcur.
  assert (∃ P' subs', down P' ∧ mapM_res (prev_sub (match merge_levels ls !! Z.to_nat p with
                  | Some e => if bool_decide (0 ≤ p) then e_key e else []
                  | None => [] end)) (mi_levels it) = Ok subs' ∧ aligned P' false subs' ls ∧
            Z.max (p - 1) (-1) = Z.of_nat (cnt P' (merge_levels ls)) - 1)
    as (P' & subs' & HP' & Hmap & Ha' & Hp').
  { destruct (shown P fwd (merge_levels ls)) as [e|] eqn:Esh.
    - destruct Hpos as [Hp0 He]. rewrite He, bool_decide_eq_true_2 by done.
      exists (below (e_key e)).
      destruct (mapM_res_aligned (prev_sub (e_key e)) (below (e_key e)) false _ _ _ Ha) as (subs' & ? & ?).
      { intros sub l Hat Hl. by eapply (prev_sub_spec P ls HP Hs fwd). }
      exists subs'. split; [apply down_below|]. split; [done|]. split; [done|].
      rewrite (cnt_below_lookup _ _ _ (merge_levels_sorted ls) He). lia.
    - exists P.
      destruct (mapM_res_aligned (prev_sub (match merge_levels ls !! Z.to_nat p with
                  | Some e => if bool_decide (0 ≤ p) then e_key e else []
                  | None => [] end)) P false _ _ _ Ha) as (subs' & ? & ?).
      { intros sub l Hat Hl. simpl in Hat.
        pose proof (shown_none P ls HP Hs fwd l Esh Hl) as Hc.
        destruct (prev_sub_invalid (match merge_levels ls !! Z.to_nat p with
                  | Some e => if bool_decide (0 ≤ p) then e_key e else []
                  | None => [] end) _ _ _ Hat) as (sub' & -> & Hat').
        { rewrite (At_valid _ _ _ Hat). apply bool_decide_eq_false. destruct fwd; lia. }
        exists sub'. split; [done|]. destruct fwd.
        - by replace (Z.of_nat (cnt P l) - 1) with (Z.max (Z.of_nat (cnt P l) - 1) (-1)) by lia.
        - by replace (Z.of_nat (cnt P l) - 1) with (Z.max (Z.of_nat (cnt P l) - 1 - 1) (-1)) by lia. }
      exists subs'. split; [done|]. split; [done|]. split; [done|].
      pose proof (cnt_le P (merge_levels ls)). destruct fwd; lia. }
  unfold prev_sub in Hmap. rewrite Hmap. simpl.
  destruct (aligned_which_ok P' false subs' ls HP' Ha') as [w Hw']. simpl in Hw'. rewrite Hw'. simpl.
  eexists. split; [done|]. rewrite Hp'. by apply (mi_At_intro P' false).
Qed.

Lemma merge_levels_length ls :
  (length (merge_levels ls) ≤ foldr (fun l n => (length l + n)%nat) 0%nat ls)%nat.
Proof.
  assert (∀ e s, (length (upsert e s) ≤ S (length s))%nat) as Hu.
  { intros e s. induction s as [|e' s IHs]; simpl; [lia|].
    destruct (bytes_compare (e_key e) (e_key e')); simpl; lia. }
  induction ls as [|l ls IH]; simpl; [lia|].
  enough (∀ s, (length (overlay l s) ≤ length l + length s)%nat) as Ho
    by (specialize (Ho (merge_levels ls)); lia).
  intros s. induction l as [|e l IHl]; simpl; [lia|].
  specialize (Hu e (overlay l s)). unfold overlay in *. lia.
Qed.

#[export] Instance mi_IterLaws : IterLaws (MergedSortedKVIter It).
Proof.
  refine {| At := mi_At |}.
  - intros it s p (ls & P & fwd & _ & _ & -> & _). apply merge_levels_sorted.
  - intros it s p (ls & P & fwd & _ & _ & -> & -> & _).
    pose proof (cnt_le P (merge_levels ls)). destruct fwd; lia.
  - intros it s p Hat. destruct (mi_At_shown _ _ _ Hat) as [[Hv Hn]|(sub & e & Hv & _ & Hp & He & _)]; simpl.
    + rewrite Hv. symmetry. by apply bool_decide_eq_false.
    + rewrite Hv. symmetry. apply bool_decide_eq_true. apply lookup_lt_Some in He. lia.
  - intros it s p e Hat Hp He.
    destruct (mi_At_shown _ _ _ Hat) as [[Hv Hn]|(sub & e' & Hv & Hc & _ & He' & Hk & Hvl & Hd)].
    + apply lookup_lt_Some in He. lia.
    + simplify_eq. simpl. unfold mi_Key, mi_Val, mi_Deleted. rewrite Hc. simpl. done.
  - exact mi_At_next.
  - exact mi_At_prev.
  - intros it s p (ls & P & fwd & _ & Ha & -> & _). simpl.
    etransitivity; [apply merge_levels_length|].
    unfold aligned in Ha. induction Ha as [|sub l subs ls Hat Ha IH]; simpl; [lia|].
    apply At_steps in Hat. lia.
Defined.

Context `{!SortedKV T It} `{!SortedKVLaws T It}.

Definition m_Holds (m : MergedSortedKV T) (s : list ent) : Prop :=
  ∃ ls, Forall2 Holds (merged_subs m) ls ∧ s = merge_levels ls.

Lemma mapM_res_open (f : T → res It) P fwd subs ls :
  down P → Forall2 Holds subs ls →
  (∀ sub l, Holds sub l →
     ∃ it, f sub = Ok it ∧ At it l (if (fwd : bool) then Z.of_nat (cnt P l) else Z.of_nat (cnt P l) - 1)) →
  ∃ its w, mapM_res f subs = Ok its ∧
    (if fwd then levelsLowest its else levelsHighest its) = Ok w ∧
    mi_At (MkMIter its w) (merge_levels ls)
      (if fwd then Z.of_nat (cnt P (merge_levels ls)) else Z.of_nat (cnt P (merge_levels ls)) - 1).
Proof.
  intros HP HQ Hopen.
  assert (∃ its, mapM_res f subs = Ok its ∧ aligned P fwd its ls) as (its & Hmap & Ha).
  { induction HQ as [|sub l subs ls HQ1 HQ IH]; simpl.
    - exists []. split; [done|]. constructor.
    - destruct (Hopen sub l HQ1) as (it & -> & Hat). destruct IH as (its & -> & Ha).
      exists (it :: its). split; [done|]. by constructor. }
  destruct (aligned_which_ok _ _ _ _ HP Ha) as [w Hw].
  exists its, w. split; [done|]. split; [done|]. by apply mi_At_intro.
Qed.

Lemma m_getExact_spec subs ls k :
  Forall2 Holds subs ls →
  m_getExact_loop subs k =
    Ok (match assoc_levels ls k with
        | Some e => (e_val e, true, e_del e)
        | None => ([], false, false)
        end).
Proof.
  induction 1 as [|sub l subs ls Hh HQ IH]; simpl; [done|].
  rewrite (getExactFromSortedKV_spec _ _ k Hh). simpl.
  destruct (assoc l k); [done|]. exact IH.
Qed.

#[export] Instance m_SortedKVLaws : SortedKVLaws (MergedSortedKV T) (MergedSortedKVIter It).
Proof.
  refine {| Holds := m_Holds |}.
  - intros m s (ls & _ & ->). apply merge_levels_sorted.
  - intros m s (ls & HQ & ->). etransitivity; [apply merge_levels_length|].
    simpl. unfold m_EstimatedSize. destruct m as [subs]. simpl in *.
    assert (∀ n, (n + foldr (fun l n => (length l + n)%nat) 0%nat ls ≤
                  foldl (fun total sub => (total + EstimatedSize sub)%nat) n subs)%nat) as Hg.
    { induction HQ as [|sub l subs ls Hh HQ IH]; intros n; simpl; [lia|].
      specialize (IH (n + EstimatedSize sub)%nat). apply Holds_size in Hh. lia. }
    specialize (Hg 0%nat). lia.
  - intros m s (ls & HQ & ->). simpl. unfold m_Iter.
    destruct (mapM_res_open Iter (fun _ => false) true _ _ (down_const _) HQ) as (its & w & -> & Hw & Hat).
    { intros sub l Hh. rewrite cnt_false. by apply Holds_iter. }
    simpl in *. rewrite Hw. simpl. eexists. split; [done|]. by rewrite cnt_false in Hat.
  - intros m s k (ls & HQ & ->). simpl. unfold m_Seek.
    destruct (mapM_res_open (fun sub => Seek sub k) (below k) true _ _ (down_below k) HQ) as (its & w & -> & Hw & Hat).
    { intros sub l Hh. by apply Holds_seek. }
    simpl in *. rewrite Hw. simpl. eexists. split; [done|]. done.
  - intros m s (ls & HQ & ->). simpl. unfold m_SeekToLast.
    destruct (mapM_res_open SeekToLast (fun _ => true) false _ _ (down_const _) HQ) as (its & w & -> & Hw & Hat).
    { intros sub l Hh. rewrite cnt_true. by apply Holds_last. }
    simpl in *. rewrite Hw. simpl. eexists. split; [done|]. by rewrite cnt_true in Hat.
  - intros m s k getter (ls & HQ & ->) [= <-]. unfold m_getExact.
    rewrite (m_getExact_spec _ _ k HQ), assoc_merge_levels. done.
Defined.

End laws.
