(* ===== verification/File.v ===== *)
(** * Files: what the sources use of [os.File]

    The contents of a file with [ReadAt], [WriteAt] and [Truncate], and the
    state of an open file between two [Sync] calls: the contents that are
    durable plus the operations that a crash may lose.  [crash] keeps any
    prefix of the pending operations, the last one possibly torn. *)

From Stdlib Require Import ZArith Lia.
From Stdlib.Strings Require Import Byte.
From stdpp Require Import base list numbers.
From S2P Require Import Prelude GoLib.

(** ** Contents *)

(** [ReadAt(buf, off)] with [len(buf) = n], as used by callers that need the
    whole buffer: a short read is [io.EOF]. *)
Definition read_at (f : bytes) (off n : nat) : res bytes :=
  if (n =? 0)%nat then Ok []
  else if (off + n <=? length f)%nat then Ok (take n (drop off f))
  else Err io_EOF.

(** [WriteAt(data, off)]: a hole before [off] reads as zeros; writing nothing
    does not extend the file. *)
Definition write_at (f : bytes) (off : nat) (data : bytes) : bytes :=
  match data with
  | [] => f
  | _ => take off f ++ replicate (off - length f) x00 ++ data ++ drop (off + length data) f
  end.

Definition truncate (f : bytes) (n : nat) : bytes :=
  take n f ++ replicate (n - length f) x00.

(** ** Open files *)

Inductive fop :=
  | FWrite (off : nat) (data : bytes)
  | FTrunc (n : nat).

Definition apply_op (f : bytes) (o : fop) : bytes :=
  match o with
  | FWrite off data => write_at f off data
  | FTrunc n => truncate f n
  end.

Record file := MkFile { f_synced : bytes; f_pending : list fop }.

(** What reads through the handle see. *)
Definition f_view (f : file) : bytes := foldl apply_op (f_synced f) (f_pending f).

Definition f_write (f : file) (off : nat) (data : bytes) : file :=
  MkFile (f_synced f) (f_pending f ++ [FWrite off data]).
Definition f_truncate (f : file) (n : nat) : file :=
  MkFile (f_synced f) (f_pending f ++ [FTrunc n]).
Definition f_sync (f : file) : file := MkFile (f_view f) [].
Definition f_open (content : bytes) : file := MkFile content [].

(** A write of which only the first bytes arrived. *)
Inductive torn : fop → fop → Prop :=
  | torn_all o : torn o o
  | torn_write off data n : torn (FWrite off data) (FWrite off (take n data)).

(** The contents a crash may leave. *)
Inductive crash (f : file) : bytes → Prop :=
  | crash_prefix l1 l2 : f_pending f = l1 ++ l2 → crash f (foldl apply_op (f_synced f) l1)
  | crash_torn l1 o o' l2 :
      f_pending f = l1 ++ o :: l2 → torn o o' →
      crash f (apply_op (foldl apply_op (f_synced f) l1) o').

(** ** Regions of a file *)

(** The bytes [b] are in [f] at offset [a]. *)
Definition has (f : bytes) (a : nat) (b : bytes) : Prop :=
  ∀ i x, b !! i = Some x → f !! (a + i)%nat = Some x.

Lemma write_at_lookup f off data j :
  data ≠ [] →
  write_at f off data !! j =
    if decide (off ≤ j < off + length data)%nat then data !! (j - off)%nat
    else if decide (length f ≤ j < off)%nat then Some x00
    else f !! j.
Proof.
  intros Hne. unfold write_at. destruct data as [|d ds]; [done|].
  set (data := d :: ds) in *. clearbody data.
  destruct (decide (j < off)%nat) as [Hj|Hj].
  - rewrite decide_False by lia. destruct (decide (j < length f)%nat) as [Hl|Hl].
    + rewrite decide_False by lia. rewrite lookup_app_l by (rewrite length_take; lia).
      by rewrite lookup_take_lt by lia.
    + rewrite decide_True by lia. rewrite lookup_app_r by (rewrite length_take; lia).
      rewrite lookup_app_l by (rewrite length_take, length_replicate; lia).
      rewrite length_take. apply lookup_replicate_2. lia.
  - rewrite lookup_app_r by (rewrite length_take; lia).
    rewrite lookup_app_r by (rewrite length_take, length_replicate; lia).
    rewrite length_take, length_replicate.
    replace (j - off `min` length f - (off - length f))%nat with (j - off)%nat by lia.
    destruct (decide (j < off + length data)%nat) as [Hd|Hd].
    + rewrite decide_True by lia. by rewrite lookup_app_l by lia.
    + rewrite decide_False by lia. rewrite decide_False by lia.
      rewrite lookup_app_r by lia. rewrite lookup_drop. f_equal. lia.
Qed.

Lemma write_at_length f off data :
  data ≠ [] → length (write_at f off data) = Nat.max (length f) (off + length data).
Proof.
  intros Hne. unfold write_at. destruct data as [|d ds]; [done|].
  rewrite !length_app, length_take, length_replicate, length_drop. simpl. lia.
Qed.

Lemma write_at_nil f off : write_at f off [] = f.
Proof. done. Qed.

Global Arguments write_at : simpl never.
Global Arguments truncate : simpl never.

Lemma has_nil f a : has f a [].
Proof. intros i x H. by rewrite lookup_nil in H. Qed.

Lemma has_lt f a b : has f a b → b ≠ [] → (a + length b ≤ length f)%nat.
Proof.
  intros H Hne. destruct (lookup_lt_is_Some_2 b (length b - 1)) as [x Hx].
  { destruct b; [done|]. simpl. lia. }
  apply H, lookup_lt_Some in Hx. destruct b; [done|]. simpl in *. lia.
Qed.

Lemma has_app f a b1 b2 : has f a (b1 ++ b2) ↔ has f a b1 ∧ has f (a + length b1) b2.
Proof.
  split.
  - intros H. split.
    + intros i x Hi. apply H. by apply lookup_app_l_Some.
    + intros i x Hi. rewrite <- Nat.add_assoc. apply H.
      rewrite lookup_app_r by lia. by replace (length b1 + i - length b1)%nat with i by lia.
  - intros [H1 H2] i x [Hi|[Hge Hi]]%lookup_app_Some; [by apply H1|].
    apply H2 in Hi. by replace (a + length b1 + (i - length b1))%nat with (a + i)%nat in Hi by lia.
Qed.

Lemma has_take_drop f a b : has f a b → take (length b) (drop a f) = b.
Proof.
  intros H. apply list_eq. intros i.
  destruct (decide (i < length b)%nat) as [Hi|Hi].
  - rewrite lookup_take_lt, lookup_drop by done.
    destruct (lookup_lt_is_Some_2 b i Hi) as [x Hx]. rewrite Hx. by apply H.
  - rewrite lookup_take_ge by lia. symmetry. apply lookup_ge_None_2. lia.
Qed.

Lemma has_self f a : has f a (drop a f).
Proof. intros i x H. by rewrite lookup_drop in H. Qed.

Lemma has_middle pre b post : has (pre ++ b ++ post) (length pre) b.
Proof.
  intros i x Hi. rewrite lookup_app_r by lia.
  replace (length pre + i - length pre)%nat with i by lia. by apply lookup_app_l_Some.
Qed.

Lemma read_at_has f a b : has f a b → read_at f a (length b) = Ok b.
Proof.
  intros H. unfold read_at. destruct (Nat.eqb_spec (length b) 0) as [E|E].
  - by apply nil_length_inv in E as ->.
  - pose proof (has_lt f a b H) as Hlt. destruct (Nat.leb_spec (a + length b) (length f)).
    + by rewrite has_take_drop.
    + destruct b; [done|]. specialize (Hlt ltac:(done)). lia.
Qed.

Lemma read_at_ok f a n b : read_at f a n = Ok b → has f a b ∧ length b = n.
Proof.
  unfold read_at. destruct (Nat.eqb_spec n 0) as [->|E].
  - intros [= <-]. split; [apply has_nil|done].
  - destruct (Nat.leb_spec (a + n) (length f)); [|done]. intros [= <-]. split.
    + intros i x Hi. assert (i < n)%nat by (apply lookup_lt_Some in Hi; rewrite length_take in Hi; lia).
      rewrite lookup_take_lt, lookup_drop in Hi by done. done.
    + rewrite length_take, length_drop. lia.
Qed.

Lemma has_write_same f off data : has (write_at f off data) off data.
Proof.
  destruct data as [|d ds]; [apply has_nil|]. intros i x Hi.
  apply lookup_lt_Some in Hi as Hlt. rewrite write_at_lookup by done.
  rewrite decide_True by lia. by replace (off + i - off)%nat with i by lia.
Qed.

Lemma has_write_other f off data a b :
  has f a b → (a + length b ≤ off ∨ off + length data ≤ a)%nat → has (write_at f off data) a b.
Proof.
  intros H Hdis. destruct data as [|d ds]; [done|]. intros i x Hi.
  apply lookup_lt_Some in Hi as Hlt. apply H in Hi as Hf. apply lookup_lt_Some in Hf as Hlf.
  rewrite write_at_lookup by done. rewrite decide_False by lia. by rewrite decide_False by lia.
Qed.

(** Writing at the end of the prefix [p] of the file. *)
Lemma write_at_app p q data :
  write_at (p ++ q) (length p) data = p ++ data ++ drop (length data) q.
Proof.
  unfold write_at. destruct data as [|d ds]; [done|].
  rewrite take_app_length, length_app.
  replace (length p - (length p + length q))%nat with 0%nat by lia.
  rewrite drop_app_ge by lia. by replace (length p + length (d :: ds) - length p)%nat
    with (length (d :: ds)) by lia.
Qed.

Lemma truncate_app p q : truncate (p ++ q) (length p) = p.
Proof.
  unfold truncate. rewrite take_app_length, length_app.
  replace (length p - (length p + length q))%nat with 0%nat by lia. by rewrite app_nil_r.
Qed.

Lemma f_view_write f off data : f_view (f_write f off data) = write_at (f_view f) off data.
Proof. unfold f_view, f_write. simpl. by rewrite foldl_app. Qed.
Lemma f_view_truncate f n : f_view (f_truncate f n) = truncate (f_view f) n.
Proof. unfold f_view, f_truncate. simpl. by rewrite foldl_app. Qed.
Lemma f_view_open c : f_view (f_open c) = c.
Proof. done. Qed.
Lemma f_view_sync f : f_view (f_sync f) = f_view f.
Proof. done. Qed.

#[export] Hint Resolve has_nil has_write_same : pallas.
