(* ===== verification/Entry.v ===== *)
(** * Write-ahead log records: db/kv_entry.go

    [Encode] and [Decode] of one record at byte level, over the [OffsetReader]
    of db/log.go, with the record round trip and the fact that a strict prefix
    of a record never decodes. *)

From Stdlib Require Import ZArith Lia.
From Stdlib.Strings Require Import Byte.
From stdpp Require Import base list numbers.
From S2P Require Import Prelude GoLib File.

Open Scope Z_scope.

Definition EntryAdd : byte := x00.
Definition EntryDel : byte := x01.
Definition EntryCommit : byte := x02.

(** 64 MiB. *)
Definition MaxEntrySize : Z := 64 * 2 ^ 20.
Definition entryHeaderSize : nat := 21.

Record Entry := MkEntry { en_key : bytes; en_val : bytes; en_seq : Z; en_op : byte }.

#[export] Instance Entry_eq_dec : EqDecision Entry.
Proof. solve_decision. Defined.

(** The bytes after the checksum. *)
Definition entry_body (e : Entry) : bytes :=
  le_bytes 8 (en_seq e) ++ le_bytes 4 (u32 (Z.of_nat (length (en_key e)))) ++
  le_bytes 4 (u32 (Z.of_nat (length (en_val e)))) ++ [en_op e] ++ en_key e ++ en_val e.

Definition entry_bytes (e : Entry) : bytes :=
  le_bytes 4 (ChecksumIEEE (entry_body e)) ++ entry_body e.

Definition Encode (e : Entry) : res bytes :=
  if MaxEntrySize <? Z.of_nat (length (en_key e) + length (en_val e)) then Err ErrEntryTooLarge
  else Ok (entry_bytes e).

(** [OffsetReader] with [io.ReadFull] on top of it.  A read of nothing does not
    touch the file. *)
Record OffsetReader := MkReader { rd_inner : bytes; rd_offset : nat }.

Definition ReadFull (r : OffsetReader) (n : nat) : OffsetReader * res bytes :=
  let got := take n (drop (rd_offset r) (rd_inner r)) in
  (MkReader (rd_inner r) (rd_offset r + length got),
   if (n =? 0)%nat then Ok []
   else if (length got =? 0)%nat then Err io_EOF
   else if (length got <? n)%nat then Err io_ErrUnexpectedEOF
   else Ok got).

Definition Decode (r : OffsetReader) : OffsetReader * res Entry :=
  match ReadFull r entryHeaderSize with
  | (r, Ok header) =>
      let seq := le_val (take 8 (drop 4 header)) in
      let klen := le_val (take 4 (drop 12 header)) in
      let vlen := le_val (take 4 (drop 16 header)) in
      if MaxEntrySize <? klen + vlen then (r, Err ErrEntryTooLarge) else
      match header !! 20%nat with
      | None => (r, Panic "index out of range")
      | Some op =>
          match ReadFull r (Z.to_nat (klen + vlen)) with
          | (r, Ok data) =>
              if negb (ChecksumIEEE (drop 4 header ++ data) =? le_val (take 4 header))
              then (r, Err ErrBadSum)
              else if negb (bool_decide (op = EntryAdd ∨ op = EntryDel ∨ op = EntryCommit))
              then (r, Err ErrBadEntryOp)
              else (r, Ok (MkEntry (take (Z.to_nat klen) data) (drop (Z.to_nat klen) data) seq op))
          | (r, Err e) => (r, Err e)
          | (r, Panic s) => (r, Panic s)
          | (r, OutOfFuel) => (r, OutOfFuel)
          end
      end
  | (r, Err e) => (r, Err e)
  | (r, Panic s) => (r, Panic s)
  | (r, OutOfFuel) => (r, OutOfFuel)
  end.

(** ** Well-formed records *)

Definition entry_ok (e : Entry) : Prop :=
  Z.of_nat (length (en_key e) + length (en_val e)) ≤ MaxEntrySize ∧
  0 ≤ en_seq e < 2 ^ 64 ∧
  (en_op e = EntryAdd ∨ en_op e = EntryDel ∨ en_op e = EntryCommit).

#[export] Instance entry_ok_dec e : Decision (entry_ok e).
Proof. unfold entry_ok. apply _. Defined.

Lemma Encode_ok e : entry_ok e → Encode e = Ok (entry_bytes e).
Proof.
  intros (Hs & _). unfold Encode.
  destruct (Z.ltb_spec MaxEntrySize (Z.of_nat (length (en_key e) + length (en_val e)))); [lia|done].
Qed.

Lemma entry_bytes_length e :
  length (entry_bytes e) = (21 + (length (en_key e) + length (en_val e)))%nat.
Proof. unfold entry_bytes, entry_body. rewrite !length_app, !le_bytes_length. simpl. lia. Qed.

(** The fixed part of a record and its variable part. *)
Definition entry_head (e : Entry) : bytes :=
  le_bytes 4 (ChecksumIEEE (entry_body e)) ++ le_bytes 8 (en_seq e) ++
  le_bytes 4 (u32 (Z.of_nat (length (en_key e)))) ++
  le_bytes 4 (u32 (Z.of_nat (length (en_val e)))) ++ [en_op e].

Lemma entry_split e : entry_bytes e = entry_head e ++ (en_key e ++ en_val e).
Proof. unfold entry_bytes, entry_head, entry_body. by rewrite <- !(assoc_L (++)). Qed.

Lemma entry_head_length e : length (entry_head e) = 21%nat.
Proof. unfold entry_head. by rewrite !length_app, !le_bytes_length. Qed.

Lemma le4_u32 n : 0 ≤ n < 2 ^ 32 → le_val (le_bytes 4 (u32 n)) = n.
Proof.
  intros H. rewrite le_val_bytes. change (256 ^ Z.of_nat 4) with (2 ^ 32). unfold u32.
  rewrite Z.mod_mod by lia. by apply Z.mod_small.
Qed.

Lemma entry_head_fields e :
  entry_ok e →
  take 4 (entry_head e) = le_bytes 4 (ChecksumIEEE (entry_body e)) ∧
  le_val (take 8 (drop 4 (entry_head e))) = en_seq e ∧
  le_val (take 4 (drop 12 (entry_head e))) = Z.of_nat (length (en_key e)) ∧
  le_val (take 4 (drop 16 (entry_head e))) = Z.of_nat (length (en_val e)) ∧
  entry_head e !! 20%nat = Some (en_op e) ∧
  drop 4 (entry_head e) ++ en_key e ++ en_val e = entry_body e.
Proof.
  intros (Hs & Hq & _). unfold MaxEntrySize in Hs. unfold entry_head.
  pose proof (le_bytes_length 4 (ChecksumIEEE (entry_body e))) as L1.
  pose proof (le_bytes_length 8 (en_seq e)) as L2.
  pose proof (le_bytes_length 4 (u32 (Z.of_nat (length (en_key e))))) as L3.
  pose proof (le_bytes_length 4 (u32 (Z.of_nat (length (en_val e))))) as L4.
  set (c := le_bytes 4 (ChecksumIEEE (entry_body e))) in *.
  set (q := le_bytes 8 (en_seq e)) in *.
  set (k := le_bytes 4 (u32 (Z.of_nat (length (en_key e))))) in *.
  set (v := le_bytes 4 (u32 (Z.of_nat (length (en_val e))))) in *.
  rewrite (drop_app_length' c) by done.
  rewrite (take_app_length' c) by done. rewrite (take_app_length' q) by done.
  rewrite (assoc_L (++) c q). rewrite (drop_app_length' (c ++ q)) by (rewrite length_app; lia).
  rewrite (take_app_length' k) by done.
  rewrite (assoc_L (++) (c ++ q) k). rewrite (drop_app_length' ((c ++ q) ++ k)) by (rewrite !length_app; lia).
  rewrite (take_app_length' v) by done.
  rewrite (assoc_L (++) ((c ++ q) ++ k) v), lookup_app_r by (rewrite !length_app; lia).
  split_and!.
  - done.
  - unfold q. rewrite le_val_bytes. change (256 ^ Z.of_nat 8) with (2 ^ 64). by apply Z.mod_small.
  - apply le4_u32. lia.
  - apply le4_u32. lia.
  - rewrite !length_app, L1, L2, L3, L4. done.
  - unfold entry_body. by rewrite <- !(assoc_L (++)).
Qed.

Lemma ReadFull_exact pre b post :
  b ≠ [] →
  ReadFull (MkReader (pre ++ b ++ post) (length pre)) (length b) =
    (MkReader (pre ++ b ++ post) (length pre + length b), Ok b).
Proof.
  intros Hne. unfold ReadFull. simpl rd_inner. simpl rd_offset.
  rewrite drop_app_length, take_app_length.
  destruct b as [|x b]; [done|]. simpl length. by rewrite Nat.ltb_irrefl.
Qed.

(** A record decodes to itself and the reader moves behind it. *)
Lemma Decode_Encode e pre post :
  entry_ok e →
  Decode (MkReader (pre ++ entry_bytes e ++ post) (length pre)) =
    (MkReader (pre ++ entry_bytes e ++ post) (length pre + length (entry_bytes e)), Ok e).
Proof.
  intros Hok. pose proof (entry_head_fields e Hok) as (Hc & Hq & Hk & Hv & Hop & Hbody).
  rewrite entry_bytes_length. unfold Decode. rewrite entry_split, <- (assoc_L (++)).
  pose proof (entry_head_length e) as Hl.
  replace entryHeaderSize with (length (entry_head e)) by done.
  rewrite ReadFull_exact by (intros H; by rewrite H in Hl).
  rewrite Hq, Hk, Hv, Hop, Hc. destruct Hok as (Hs & _ & Hopok). unfold MaxEntrySize in *.
  destruct (Z.ltb_spec (64 * 2 ^ 20) (Z.of_nat (length (en_key e)) + Z.of_nat (length (en_val e)))); [lia|].
  set (data := en_key e ++ en_val e) in *.
  replace (Z.to_nat (Z.of_nat (length (en_key e)) + Z.of_nat (length (en_val e)))) with (length data)
    by (unfold data; rewrite length_app; lia).
  assert (ReadFull (MkReader (pre ++ entry_head e ++ data ++ post) (length pre + length (entry_head e))) (length data)
    = (MkReader (pre ++ entry_head e ++ data ++ post) (length pre + 21 + length data), Ok data)) as ->.
  { destruct (decide (data = [])) as [->|Hne].
    - unfold ReadFull. cbn [rd_offset rd_inner length Nat.eqb]. by rewrite Hl, take_0.
    - rewrite (assoc_L (++) pre), <- length_app, ReadFull_exact by done.
      rewrite length_app, Hl. done. }
  rewrite Hbody, le_val_bytes, Z.mod_small, Z.eqb_refl by apply ChecksumIEEE_range. simpl negb.
  rewrite bool_decide_true by done. simpl negb. cbv iota.
  rewrite Nat2Z.id. unfold data. rewrite take_app_length, drop_app_length, length_app.
  f_equal; [f_equal; lia|]. by destruct e.
Qed.

(** Reading past the end. *)
Lemma ReadFull_short r n :
  (length (rd_inner r) - rd_offset r < n)%nat →
  ∃ r', ReadFull r n = (r', Err io_EOF) ∨ ReadFull r n = (r', Err io_ErrUnexpectedEOF).
Proof.
  intros Hlt. unfold ReadFull. eexists.
  destruct (Nat.eqb_spec n 0); [lia|].
  destruct (Nat.eqb_spec (length (take n (drop (rd_offset r) (rd_inner r)))) 0); [by left|].
  right. rewrite length_take, length_drop in *.
  destruct (Nat.ltb_spec (n `min` (length (rd_inner r) - rd_offset r)) n); [done|lia].
Qed.

(** The errors that end a replay. *)
Definition ends_log (err : error) : bool :=
  bool_decide (err = io_EOF ∨ err = io_ErrUnexpectedEOF ∨ err = ErrBadSum ∨
               err = ErrEntryTooLarge ∨ err = ErrBadEntryOp).

(** A record cut short ends the log: the decoder never accepts a strict prefix. *)
Lemma Decode_prefix e pre n :
  entry_ok e → (n < length (entry_bytes e))%nat →
  ∃ r err, Decode (MkReader (pre ++ take n (entry_bytes e)) (length pre)) = (r, Err err) ∧
    ends_log err = true.
Proof.
  intros Hok Hn. pose proof (entry_head_length e) as Hl. rewrite entry_bytes_length in Hn.
  destruct (decide (n < 21)%nat) as [Hs|Hs].
  - edestruct (ReadFull_short (MkReader (pre ++ take n (entry_bytes e)) (length pre)) entryHeaderSize)
      as (r & [H|H]).
    { simpl. rewrite length_app, length_take. unfold entryHeaderSize. lia. }
    all: unfold Decode; rewrite H; eexists _, _; split; [done|]; unfold ends_log; by apply bool_decide_eq_true; auto.
  - pose proof (entry_head_fields e Hok) as (Hc & Hq & Hk & Hv & Hop & Hbody).
    rewrite entry_split, take_app_ge by lia. rewrite Hl.
    assert (length (take (n - 21) (en_key e ++ en_val e)) < length (en_key e) + length (en_val e))%nat as Hp
      by (rewrite length_take, length_app; lia).
    revert Hp. generalize (take (n - 21) (en_key e ++ en_val e)) as part. intros part Hp.
    unfold Decode. replace entryHeaderSize with (length (entry_head e)) by done.
    rewrite ReadFull_exact by (intros H; by rewrite H in Hl).
    rewrite Hk, Hv, Hop. destruct Hok as (Hsz & _). unfold MaxEntrySize in *.
    destruct (Z.ltb_spec (64 * 2 ^ 20) (Z.of_nat (length (en_key e)) + Z.of_nat (length (en_val e)))); [lia|].
    edestruct (ReadFull_short (MkReader (pre ++ entry_head e ++ part) (length pre + length (entry_head e)))
      (Z.to_nat (Z.of_nat (length (en_key e)) + Z.of_nat (length (en_val e))))) as (r & [H'|H']).
    { cbn [rd_inner rd_offset]. rewrite !length_app. lia. }
    all: rewrite H'; eexists _, _; split; [done|]; unfold ends_log; by apply bool_decide_eq_true; auto.
Qed.

Global Opaque entry_bytes.
Global Arguments Decode : simpl never.
Global Arguments ReadFull : simpl never.
