(* ===== verification/SortedFile.v ===== *)
(** * SSTables: db/sorted_file.go

    The on-disk sorted table, at byte level: [writeSortedFile] lays out the key
    count, the offset array, the entries, the serialised bloom filter and the
    footer with [WriteAt]; [openExisting] reads it back; lookups binary search
    the file.  The bloom filter package is third-party code: a class of
    operations ([Bloom]) with the laws its documentation states. *)

From Stdlib Require Import ZArith Lia.
From Stdlib.Strings Require Import Byte.
From stdpp Require Import base list numbers.
From S2P Require Import Prelude GoLib SortedSeq SortedKV File Entry.

Open Scope Z_scope.

(** ** The bloom filter interface (github.com/bits-and-blooms/bloom) *)

Class Bloom := {
  bloom_t : Type;
  NewWithEstimates : Z → bloom_t;
  bloom_Add : bloom_t → bytes → bloom_t;
  bloom_Test : bloom_t → bytes → bool;
  bloom_MarshalBinary : bloom_t → res bytes;
  bloom_UnmarshalBinary : bytes → res bloom_t;
}.

(** No false negatives, and serialisation round-trips to a non-empty string. *)
Class BloomLaws `{Bloom} := {
  bloom_test_added f k : bloom_Test (bloom_Add f k) k = true;
  bloom_test_mono f k k' : bloom_Test f k = true → bloom_Test (bloom_Add f k') k = true;
  bloom_roundtrip f : ∃ data, bloom_MarshalBinary f = Ok data ∧ data ≠ [] ∧
    Z.of_nat (length data) < 2 ^ 62 ∧ bloom_UnmarshalBinary data = Ok f;
}.

(** ** Constants *)

Definition maxNKeys : Z := 2 ^ 26.
Definition sortedFileBloomFooterSize : Z := 16.
Definition sortedFileMaxOffsetIndexBytes : Z := 64 * 2 ^ 20.
Definition sortedFileBloomMagic : bytes := bs "PDBBLM1" ++ [x0a].

Section SortedFile.
Context `{Bloom}.

(** The open table.  [refs] and [unlink] are modelled with the transaction
    snapshots that use them. *)
Record SortedFile := MkSF {
  sf_fp : bytes;
  sf_nkeys : Z;
  sf_offsetIndex : bytes;
  sf_bloom : option bloom_t;
}.

Definition newSortedFileBloom (expectedKeys : Z) : bloom_t :=
  NewWithEstimates (if expectedKeys <? 1 then 1 else expectedKeys).

(** [fp.ReadAt] at an [int64] offset. *)
Definition ReadAt (f : bytes) (off n : Z) : res bytes :=
  if off <? 0 then Err (errorsNew "negative offset") else read_at f (Z.to_nat off) (Z.to_nat n).

(** ** Opening *)

Definition loadOffsetIndex (fp : bytes) (nkeys : Z) : res bytes :=
  let nbytes := nkeys * 8 in
  if nbytes =? 0 then Ok []
  else if (nbytes <? 0) || (sortedFileMaxOffsetIndexBytes <? nbytes) then Ok []
  else ReadAt fp 8 nbytes.

Definition loadBloomFilter (fp : bytes) : res (option bloom_t) :=
  let size := Z.of_nat (length fp) in
  if size <? sortedFileBloomFooterSize then Ok None else
  footer ← ReadAt fp (size - sortedFileBloomFooterSize) sortedFileBloomFooterSize;
  if negb (bytes_equal (drop 8 footer) sortedFileBloomMagic) then Ok None else
  let bloomLen := le_val (take 8 footer) in
  if (bloomLen =? 0) || (u64 (size - sortedFileBloomFooterSize) <? bloomLen)
  then Err (errorsNew "corrupted file: bloom filter out of range") else
  let dataStart := size - sortedFileBloomFooterSize - s64 bloomLen in
  data ← ReadAt fp dataStart bloomLen;
  filter ← bloom_UnmarshalBinary data;
  Ok (Some filter).

Definition openExisting (fp : bytes) : res SortedFile :=
  buf ← ReadAt fp 0 8;
  let nkeys := s64 (le_val buf) in
  if (nkeys <? 0) || (maxNKeys <? nkeys)
  then Err (errorsNew "corrupted file: nkeys out of range") else
  index ← loadOffsetIndex fp nkeys;
  bloom ← loadBloomFilter fp;
  Ok (MkSF fp nkeys index bloom).

(** ** Writing *)

(** The loop state of [writeSortedFile]. *)
Record wstate := MkW {
  w_fp : bytes;
  w_nkeys : nat;
  w_offset : nat;
  w_index : bytes;
  w_filter : bloom_t;
}.

(** One iteration of the loop. *)
Definition write_entry (st : wstate) (key val : bytes) (deleted : bool) : res wstate :=
  let buf := le_bytes 8 (Z.of_nat (w_offset st)) in
  let index := if (8 * (w_nkeys st + 1) <=? length (w_index st))%nat
               then write_at (w_index st) (8 * w_nkeys st) buf else w_index st in
  let fp := write_at (w_fp st) (8 + 8 * w_nkeys st) buf in
  let header := le_bytes 4 (u32 (Z.of_nat (length key))) ++ le_bytes 4 (u32 (Z.of_nat (length val)))
                ++ [if deleted then x01 else x00] in
  let fp := write_at fp (w_offset st) header in
  let offset := (w_offset st + 9)%nat in
  let fp := write_at fp offset key in
  let offset := (offset + length key)%nat in
  let fp := write_at fp offset val in
  let offset := (offset + length val)%nat in
  Ok (MkW fp (S (w_nkeys st)) offset index (bloom_Add (w_filter st) key)).

(** [writeSortedFile] on a file that holds [old] when it is opened; the source
    is iterated with [for_each]. *)
Definition writeSortedFile `{KVIter It} `{!SortedKV T It} (old : bytes) (kv : T) : res SortedFile :=
  let est := EstimatedSize kv in
  let indexBytes := 8 * Z.of_nat est in
  let index := if (0 <=? indexBytes) && (indexBytes <=? sortedFileMaxOffsetIndexBytes)
               then replicate (8 * est) x00 else [] in
  let st := MkW old 0 (8 + 8 * est) index (newSortedFileBloom (Z.of_nat est)) in
  iter ← Iter kv;
  st ← for_each write_entry iter st;
  _ ← check (w_nkeys st <=? est)%nat;
  let nkeys := w_nkeys st in
  let index := if (8 * nkeys <=? length (w_index st))%nat then take (8 * nkeys) (w_index st) else [] in
  let fp := write_at (w_fp st) 0 (le_bytes 8 (Z.of_nat nkeys)) in
  bloomData ← bloom_MarshalBinary (w_filter st);
  let fp := write_at fp (w_offset st) bloomData in
  let offset := (w_offset st + length bloomData)%nat in
  let footer := le_bytes 8 (Z.of_nat (length bloomData)) ++ sortedFileBloomMagic in
  let fp := write_at fp offset footer in
  Ok (MkSF fp (Z.of_nat nkeys) index (Some (w_filter st))).

(** [createFileSync] opens an existing file without truncating it. *)
Definition CreateFromSorted `{KVIter It} `{!SortedKV T It} (old : bytes) (kv : T) : res SortedFile :=
  writeSortedFile old kv.

(** ** Reading *)

Definition entryOffset (file : SortedFile) (pos : Z) : res Z :=
  _ ← check ((0 <=? pos) && (pos <? sf_nkeys file));
  buf ← (if (8 * (pos + 1) <=? Z.of_nat (length (sf_offsetIndex file)))
         then Ok (take 8 (drop (Z.to_nat (8 * pos)) (sf_offsetIndex file)))
         else ReadAt (sf_fp file) (8 + 8 * pos) 8);
  let offset := s64 (le_val buf) in
  if offset <? 8 + 8 * sf_nkeys file then Err (errorsNew "corrupted file") else Ok offset.

(** The nine bytes before an entry: key length, value length, tombstone. *)
Definition entry_header (file : SortedFile) (offset : Z) : res (Z * Z * bool) :=
  header ← ReadAt (sf_fp file) offset 9;
  let klen := le_val (take 4 header) in
  let vlen := le_val (take 4 (drop 4 header)) in
  if MaxEntrySize <? klen + vlen then Err (errorsNew "entry too large") else
  d ← go_index header 8;
  Ok (klen, vlen, negb (bool_decide (d = x00))).

Definition index (file : SortedFile) (pos : Z) : res (bytes * bytes * bool) :=
  offset ← entryOffset file pos;
  '(klen, vlen, deleted) ← entry_header file offset;
  data ← ReadAt (sf_fp file) (offset + 4 + 4 + 1) (klen + vlen);
  Ok (take (Z.to_nat klen) data, drop (Z.to_nat klen) data, deleted).

Definition valueAt (file : SortedFile) (pos : Z) : res (bytes * bool) :=
  offset ← entryOffset file pos;
  '(klen, vlen, deleted) ← entry_header file offset;
  val ← (if vlen =? 0 then Ok [] else ReadAt (sf_fp file) (offset + 4 + 4 + 1 + klen) vlen);
  Ok (val, deleted).

Definition compareKeyAt (file : SortedFile) (pos : Z) (target : bytes) : res comparison :=
  offset ← entryOffset file pos;
  '(klen, _, _) ← entry_header file offset;
  key ← ReadAt (sf_fp file) (offset + 4 + 4 + 1) klen;
  Ok (bytes_compare target key).

Definition mayContainKey (file : SortedFile) (key : bytes) : bool :=
  match sf_bloom file with
  | None => true
  | Some f => bloom_Test f key
  end.

(** The binary search shared by [findPos] (which ignores the flag) and
    [findPosExact]. *)
Fixpoint find_loop (fuel : nat) (file : SortedFile) (target : bytes) (lo hi : Z) : res (Z * bool) :=
  if lo <? hi then
    match fuel with
    | O => OutOfFuel
    | S fuel =>
        let mid := lo + (hi - lo) / 2 in
        r ← compareKeyAt file mid target;
        match r with
        | Gt => find_loop fuel file target (mid + 1) hi
        | Lt => find_loop fuel file target lo mid
        | Eq => Ok (mid, true)
        end
    end
  else Ok (lo, false).

Definition findPosExact (file : SortedFile) (target : bytes) : res (Z * bool) :=
  find_loop (Z.to_nat (sf_nkeys file)) file target 0 (sf_nkeys file).
Definition findPos (file : SortedFile) (target : bytes) : res Z :=
  '(pos, _) ← find_loop (Z.to_nat (sf_nkeys file)) file target 0 (sf_nkeys file);
  Ok pos.

Definition sf_getExact (file : SortedFile) (key : bytes) : res (bytes * bool * bool) :=
  if negb (mayContainKey file key) then Ok ([], false, false) else
  '(pos, found) ← findPosExact file key;
  if negb found then Ok ([], false, false) else
  '(val, deleted) ← valueAt file pos;
  Ok (val, true, deleted).

(** ** The iterator *)

Record SortedFileIter := MkSFIter {
  fi_file : SortedFile;
  fi_pos : Z;
  fi_key : bytes;
  fi_val : bytes;
  fi_deleted : bool;
}.

Definition fi_Valid (it : SortedFileIter) : bool :=
  (0 <=? fi_pos it) && (fi_pos it <? sf_nkeys (fi_file it)).

(** [loadCurrent] leaves the cached entry alone when the position is invalid. *)
Definition loadCurrent (it : SortedFileIter) : res SortedFileIter :=
  if fi_Valid it then
    '(k, v, d) ← index (fi_file it) (fi_pos it);
    Ok (MkSFIter (fi_file it) (fi_pos it) k v d)
  else Ok it.

Definition fi_set_pos (it : SortedFileIter) (pos : Z) : SortedFileIter :=
  MkSFIter (fi_file it) pos (fi_key it) (fi_val it) (fi_deleted it).

Definition fi_Next (it : SortedFileIter) : res SortedFileIter :=
  loadCurrent (if fi_pos it <? sf_nkeys (fi_file it) then fi_set_pos it (fi_pos it + 1) else it).
Definition fi_Prev (it : SortedFileIter) : res SortedFileIter :=
  loadCurrent (if 0 <=? fi_pos it then fi_set_pos it (fi_pos it - 1) else it).

#[export] Instance sf_KVIter : KVIter SortedFileIter := {
  Valid := fi_Valid;
  Key it := Ok (fi_key it); Val it := Ok (fi_val it); Deleted it := Ok (fi_deleted it);
  Next := fi_Next; Prev := fi_Prev;
  steps it := Z.to_nat (sf_nkeys (fi_file it));
}.

Definition sf_iter_at (file : SortedFile) (pos : Z) : res SortedFileIter :=
  loadCurrent (MkSFIter file pos [] [] false).

Definition sf_Iter (file : SortedFile) : res SortedFileIter := sf_iter_at file 0.
Definition sf_Seek (file : SortedFile) (key : bytes) : res SortedFileIter :=
  pos ← findPos file key; sf_iter_at file pos.
Definition sf_SeekToLast (file : SortedFile) : res SortedFileIter :=
  sf_iter_at file (sf_nkeys file - 1).

#[export] Instance sf_SortedKV : SortedKV SortedFile SortedFileIter := {
  EstimatedSize file := Z.to_nat (sf_nkeys file);
  Iter := sf_Iter; Seek := sf_Seek; SeekToLast := sf_SeekToLast;
  exact_getter := Some sf_getExact;
}.

End SortedFile.
