(* ===== verification/SortedFileProofs.v ===== *)
(** * SSTables: correctness of db/sorted_file.go

    What an open table holds ([sf_Holds]), the interface laws it satisfies, and
    that a table written by [writeSortedFile] and reopened by [openExisting]
    holds exactly the entries that were written. *)

From Stdlib Require Import ZArith Lia.
From Stdlib.Strings Require Import Byte.
From stdpp Require Import base list numbers.
From S2P Require Import Prelude GoLib SortedSeq SortedKV File Entry SortedFile.

Open Scope Z_scope.

(** The bytes of one entry. *)
Definition enc_ent (e : ent) : bytes :=
  le_bytes 4 (Z.of_nat (length (e_key e))) ++ le_bytes 4 (Z.of_nat (length (e_val e))) ++
  [if e_del e then x01 else x00] ++ e_key e ++ e_val e.

Global Arguments enc_ent : simpl never.

Definition small (e : ent) : Prop :=
  Z.of_nat (length (e_key e)) + Z.of_nat (length (e_val e)) ≤ MaxEntrySize.

#[export] Instance small_dec e : Decision (small e).
Proof. unfold small. apply _. Defined.

(** An iterator that visits exactly the entries [s]. *)
Definition enumerates `{KVIter It} (it : It) (s : list ent) : Prop :=
  ∀ (St : Type) (body : St → bytes → bytes → bool → res St) (st : St),
    for_each body it st = foldM (fun st e => body st (e_key e) (e_val e) (e_del e)) st s.

Lemma enc_ent_length e :
  length (enc_ent e) = (9 + length (e_key e) + length (e_val e))%nat.
Proof. unfold enc_ent. rewrite !length_app, !le_bytes_length. simpl. lia. Qed.

Lemma le_val_len4 n : 0 ≤ n < 2 ^ 32 → le_val (le_bytes 4 n) = n.
Proof. intros Hn. rewrite le_val_bytes. apply Z.mod_small. change (256 ^ Z.of_nat 4) with (2 ^ 32). lia. Qed.

Lemma le_val_len8 n : 0 ≤ n < 2 ^ 64 → le_val (le_bytes 8 n) = n.
Proof. intros Hn. rewrite le_val_bytes. apply Z.mod_small. change (256 ^ Z.of_nat 8) with (2 ^ 64). lia. Qed.

Section proofs.
Context `{BloomLaws}.

(** ** What an open table holds *)

Definition sf_Holds (file : SortedFile) (s : list ent) : Prop :=
  sorted s ∧ sf_nkeys file = Z.of_nat (length s) ∧
  (∀ i e, s !! i = Some e → ∃ off : nat,
     entryOffset file (Z.of_nat i) = Ok (Z.of_nat off) ∧ has (sf_fp file) off (enc_ent e) ∧ small e) ∧
  ∀ e, e ∈ s → mayContainKey file (e_key e) = true.

Lemma ReadAt_has f a b n :
  has f a b → n = Z.of_nat (length b) → ReadAt f (Z.of_nat a) n = Ok b.
Proof.
  intros Hb ->. unfold ReadAt. destruct (Z.ltb_spec (Z.of_nat a) 0); [lia|].
  rewrite !Nat2Z.id. by apply read_at_has.
Qed.

Lemma ReadAt_has0 f b n : has f 0 b → n = Z.of_nat (length b) → ReadAt f 0 n = Ok b.
Proof. apply (ReadAt_has f 0). Qed.

Lemma entry_header_has file off e :
  has (sf_fp file) off (enc_ent e) → small e →
  entry_header file (Z.of_nat off) =
    Ok (Z.of_nat (length (e_key e)), Z.of_nat (length (e_val e)), e_del e).
Proof.
  intros Hh Hsm. unfold small, MaxEntrySize in Hsm. unfold entry_header.
  assert (has (sf_fp file) off
    (le_bytes 4 (Z.of_nat (length (e_key e))) ++ le_bytes 4 (Z.of_nat (length (e_val e))) ++
     [if e_del e then x01 else x00])) as Hhd.
  { apply (has_app _ _ _ (e_key e ++ e_val e)). unfold enc_ent in Hh. by rewrite <- !app_assoc. }
  rewrite (ReadAt_has _ _ _ 9 Hhd) by (rewrite !length_app, !le_bytes_length; done). rs.
  rewrite take_app_length' by (by rewrite le_bytes_length).
  rewrite drop_app_length' by (by rewrite le_bytes_length).
  rewrite take_app_length' by (by rewrite le_bytes_length).
  rewrite !le_val_len4 by lia. unfold MaxEntrySize.
  destruct (Z.ltb_spec (64 * 2 ^ 20) (Z.of_nat (length (e_key e)) + Z.of_nat (length (e_val e)))); [lia|].
  unfold go_index.
  rewrite lookup_app_r, le_bytes_length by (rewrite le_bytes_length; lia).
  rewrite lookup_app_r, le_bytes_length by (rewrite le_bytes_length; lia).
  simpl. by destruct (e_del e).
Qed.

Lemma has_key file off e : has (sf_fp file) off (enc_ent e) → has (sf_fp file) (off + 9) (e_key e).
Proof.
  unfold enc_ent. intros [_ [_ [_ [Hk _]%has_app]%has_app]%has_app]%has_app.
  rewrite !le_bytes_length in Hk. simpl in Hk.
  by replace (off + 9)%nat with (off + 4 + 4 + 1)%nat by lia.
Qed.

Lemma has_keyval file off e :
  has (sf_fp file) off (enc_ent e) → has (sf_fp file) (off + 9) (e_key e ++ e_val e).
Proof.
  unfold enc_ent. intros [_ [_ [_ Hk]%has_app]%has_app]%has_app.
  rewrite !le_bytes_length in Hk. simpl in Hk.
  by replace (off + 9)%nat with (off + 4 + 4 + 1)%nat by lia.
Qed.

Section reads.
Context (file : SortedFile) (s : list ent).
Hypothesis Hfile : sf_Holds file s.

Lemma index_spec i e :
  s !! i = Some e → index file (Z.of_nat i) = Ok (e_key e, e_val e, e_del e).
Proof.
  intros Hi. destruct Hfile as (_ & _ & Hent & _).
  destruct (Hent i e Hi) as (off & Hoff & Hh & Hsm). unfold index. rewrite Hoff. simpl.
  rewrite (entry_header_has _ _ _ Hh Hsm). simpl.
  replace (Z.of_nat off + 4 + 4 + 1) with (Z.of_nat (off + 9)) by lia.
  rewrite (ReadAt_has _ _ _ _ (has_keyval _ _ _ Hh)) by (rewrite length_app; lia). simpl.
  rewrite Nat2Z.id. by rewrite take_app_length, drop_app_length.
Qed.

Lemma valueAt_spec i e :
  s !! i = Some e → valueAt file (Z.of_nat i) = Ok (e_val e, e_del e).
Proof.
  intros Hi. destruct Hfile as (_ & _ & Hent & _).
  destruct (Hent i e Hi) as (off & Hoff & Hh & Hsm). unfold valueAt. rewrite Hoff. simpl.
  rewrite (entry_header_has _ _ _ Hh Hsm). simpl.
  destruct (Z.eqb_spec (Z.of_nat (length (e_val e))) 0) as [E|E].
  - assert (e_val e = []) as -> by (apply nil_length_inv; lia). done.
  - apply has_keyval, has_app in Hh as [_ Hv].
    replace (Z.of_nat off + 4 + 4 + 1 + Z.of_nat (length (e_key e)))
      with (Z.of_nat (off + 9 + length (e_key e))) by lia.
    by rewrite (ReadAt_has _ _ _ _ Hv) by done.
Qed.

Lemma compareKeyAt_spec i e target :
  s !! i = Some e → compareKeyAt file (Z.of_nat i) target = Ok (bytes_compare target (e_key e)).
Proof.
  intros Hi. destruct Hfile as (_ & _ & Hent & _).
  destruct (Hent i e Hi) as (off & Hoff & Hh & Hsm). unfold compareKeyAt. rewrite Hoff. simpl.
  rewrite (entry_header_has _ _ _ Hh Hsm). simpl.
  replace (Z.of_nat off + 4 + 4 + 1) with (Z.of_nat (off + 9)) by lia.
  by rewrite (ReadAt_has _ _ _ _ (has_key _ _ _ Hh)) by done.
Qed.

(** The binary search terminates within [hi - lo] rounds and finds the cut. *)
Lemma find_loop_spec fuel target (lo hi : nat) :
  (hi ≤ length s)%nat → (lo ≤ cnt (below target) s ≤ hi)%nat → (hi - lo ≤ fuel)%nat →
  (∀ e, assoc s target = Some e → (cnt (below target) s < hi)%nat) →
  find_loop fuel file target (Z.of_nat lo) (Z.of_nat hi) =
    Ok (Z.of_nat (cnt (below target) s), match assoc s target with Some _ => true | None => false end).
Proof.
  destruct Hfile as (Hs & _). revert lo hi.
  induction fuel as [|fuel IH]; intros lo hi Hhi Hc Hf Hin; cbn [find_loop].
  - destruct (Z.ltb_spec (Z.of_nat lo) (Z.of_nat hi)); [lia|].
    destruct (assoc s target) as [e|]; [specialize (Hin e eq_refl); lia|]. do 2 f_equal. lia.
  - destruct (Z.ltb_spec (Z.of_nat lo) (Z.of_nat hi)).
    + assert (∃ mid : nat, Z.of_nat lo + (Z.of_nat hi - Z.of_nat lo) / 2 = Z.of_nat mid ∧ (lo ≤ mid < hi)%nat)
        as (mid & -> & Hmid).
      { pose proof (Z.div_pos (Z.of_nat hi - Z.of_nat lo) 2 ltac:(lia) ltac:(lia)).
        pose proof (Z.div_lt (Z.of_nat hi - Z.of_nat lo) 2 ltac:(lia) ltac:(lia)).
        exists (Z.to_nat (Z.of_nat lo + (Z.of_nat hi - Z.of_nat lo) / 2)). lia. }
      destruct (lookup_lt_is_Some_2 s mid) as [e He]; [lia|].
      rewrite (compareKeyAt_spec _ _ _ He). simpl.
      pose proof (cnt_lookup (below target) s mid e Hs (down_below target) He) as Hcut.
      rewrite below_true in Hcut.
      destruct (bytes_compare_spec target (e_key e)) as [E|E|E].
      * rewrite E. rewrite (cnt_below_lookup _ _ _ Hs He).
        by rewrite (assoc_lookup _ _ _ Hs He).
      * apply IH; [lia| |lia|].
        -- split; [lia|]. apply Nat.nlt_ge. rewrite <- Hcut. by apply bytes_lt_not.
        -- intros e' He'. pose proof (assoc_Some_key _ _ _ He') as Hk.
           apply assoc_at_cnt in He'; [|done].
           destruct (Nat.lt_trichotomy (cnt (below target) s) mid) as [L|[L|L]]; [done| |].
           ++ rewrite L, He in He'. simplify_eq. by apply bytes_lt_irrefl in E.
           ++ apply Hcut in L. by apply bytes_lt_not in L.
      * replace (Z.of_nat mid + 1) with (Z.of_nat (S mid)) by lia.
        apply IH; [lia| |lia|done]. apply Hcut in E. lia.
    + destruct (assoc s target) as [e|]; [specialize (Hin e eq_refl); lia|]. do 2 f_equal. lia.
Qed.

Lemma findPosExact_spec target :
  findPosExact file target =
    Ok (Z.of_nat (cnt (below target) s), match assoc s target with Some _ => true | None => false end).
Proof.
  destruct Hfile as (Hs & Hn & _). unfold findPosExact. rewrite Hn, Nat2Z.id.
  apply (find_loop_spec _ _ 0); [done|pose proof (cnt_le (below target) s); lia|lia|].
  intros e He. apply assoc_at_cnt, lookup_lt_Some in He; done.
Qed.

Lemma findPos_spec target : findPos file target = Ok (Z.of_nat (cnt (below target) s)).
Proof.
  unfold findPos. change (find_loop _ _ _ _ _) with (findPosExact file target).
  by rewrite findPosExact_spec.
Qed.

(** A point lookup is right although the bloom filter may cut it short. *)
Lemma sf_getExact_spec k :
  sf_getExact file k =
    Ok (match assoc s k with Some e => (e_val e, true, e_del e) | None => ([], false, false) end).
Proof.
  unfold sf_getExact. destruct (assoc s k) as [e|] eqn:E.
  - destruct Hfile as (Hs & _ & _ & Hbl). pose proof (assoc_Some_key _ _ _ E) as Hk.
    rewrite <- Hk at 1. rewrite (Hbl e) by (by eapply assoc_elem). simpl.
    rewrite findPosExact_spec, E. simpl.
    rewrite (valueAt_spec _ e); [done|]. by apply assoc_at_cnt.
  - destruct (mayContainKey file k); simpl; [|done]. by rewrite findPosExact_spec, E.
Qed.

End reads.

(** ** The interface laws *)

Definition sf_At (it : SortedFileIter) (s : list ent) (p : Z) : Prop :=
  sf_Holds (fi_file it) s ∧ fi_pos it = p ∧ -1 ≤ p ≤ Z.of_nat (length s) ∧
  ∀ e, 0 ≤ p → s !! Z.to_nat p = Some e →
    fi_key it = e_key e ∧ fi_val it = e_val e ∧ fi_deleted it = e_del e.

Lemma fi_valid_iff it s :
  sf_Holds (fi_file it) s → fi_Valid it = bool_decide (0 ≤ fi_pos it < Z.of_nat (length s)).
Proof.
  intros (_ & Hn & _). unfold fi_Valid. rewrite Hn. symmetry.
  destruct (Z.leb_spec 0 (fi_pos it)), (Z.ltb_spec (fi_pos it) (Z.of_nat (length s))); simpl;
    (apply bool_decide_eq_true || apply bool_decide_eq_false); lia.
Qed.

Lemma loadCurrent_spec it s :
  sf_Holds (fi_file it) s → -1 ≤ fi_pos it ≤ Z.of_nat (length s) →
  ∃ it', loadCurrent it = Ok it' ∧ sf_At it' s (fi_pos it).
Proof.
  intros Hf Hr. unfold loadCurrent. rewrite (fi_valid_iff _ _ Hf).
  case_bool_decide as Hv.
  - destruct (lookup_lt_is_Some_2 s (Z.to_nat (fi_pos it))) as [e He]; [lia|].
    pose proof (index_spec _ _ Hf _ _ He) as Hi. rewrite Z2Nat.id in Hi by lia. rewrite Hi. simpl.
    eexists. split; [done|]. split_and!; [done|done|lia|lia|]. intros e' _ He'. simplify_eq. done.
  - exists it. split; [done|]. split_and!; [done|done|lia|lia|].
    intros e Hp He. apply lookup_lt_Some in He. lia.
Qed.

#[export] Instance sf_IterLaws : IterLaws SortedFileIter.
Proof.
  refine {| At := sf_At |}.
  - by intros it s p ((? & _) & _).
  - by intros it s p (_ & _ & ? & _).
  - intros it s p (Hf & <- & _). by apply fi_valid_iff.
  - intros it s p e (_ & _ & _ & He) Hp Hl. destruct (He e Hp Hl) as (<- & <- & <-). done.
  - intros it s p (Hf & Hp & Hr & _). simpl. unfold fi_Next.
    pose proof Hf as (_ & Hn & _). rewrite Hn, Hp.
    destruct (Z.ltb_spec p (Z.of_nat (length s))).
    + destruct (loadCurrent_spec (fi_set_pos it (p + 1)) s) as (it' & -> & Hat); [done|simpl; lia|].
      exists it'. split; [done|]. simpl in Hat. by replace (Z.min (p + 1) (Z.of_nat (length s))) with (p + 1) by lia.
    + destruct (loadCurrent_spec it s) as (it' & -> & Hat); [done|lia|].
      exists it'. split; [done|]. rewrite Hp in Hat. by replace (Z.min (p + 1) (Z.of_nat (length s))) with p by lia.
  - intros it s p (Hf & Hp & Hr & _). simpl. unfold fi_Prev. rewrite Hp.
    destruct (Z.leb_spec 0 p).
    + destruct (loadCurrent_spec (fi_set_pos it (p - 1)) s) as (it' & -> & Hat); [done|simpl; lia|].
      exists it'. split; [done|]. simpl in Hat. by replace (Z.max (p - 1) (-1)) with (p - 1) by lia.
    + destruct (loadCurrent_spec it s) as (it' & -> & Hat); [done|lia|].
      exists it'. split; [done|]. rewrite Hp in Hat. by replace (Z.max (p - 1) (-1)) with p by lia.
  - intros it s p ((_ & Hn & _) & _). simpl. rewrite Hn. lia.
Defined.

Lemma sf_iter_at_spec file s p :
  sf_Holds file s → -1 ≤ p ≤ Z.of_nat (length s) →
  ∃ it, sf_iter_at file p = Ok it ∧ sf_At it s p.
Proof. intros Hf Hp. by apply (loadCurrent_spec (MkSFIter file p [] [] false)). Qed.

#[export] Instance sf_SortedKVLaws : SortedKVLaws SortedFile SortedFileIter.
Proof.
  refine {| Holds := sf_Holds |}.
  - by intros file s (? & _).
  - intros file s (_ & Hn & _). simpl. rewrite Hn. lia.
  - intros file s Hf. apply sf_iter_at_spec; [done|lia].
  - intros file s k Hf. simpl. unfold sf_Seek. rewrite (findPos_spec _ _ Hf). simpl.
    apply sf_iter_at_spec; [done|]. pose proof (cnt_le (below k) s). lia.
  - intros file s Hf. simpl. unfold sf_SeekToLast. pose proof Hf as (_ & -> & _).
    apply sf_iter_at_spec; [done|lia].
  - intros file s k getter Hf [= <-]. by apply sf_getExact_spec.
Defined.

(** ** Writing a table *)

(** Where entry [i] starts when the entries start at [base]. *)
Definition off_at (base : nat) (s : list ent) (i : nat) : nat :=
  (base + length (concat (enc_ent <$> take i s)))%nat.

Lemma off_at_app base s1 s2 i : (i ≤ length s1)%nat → off_at base (s1 ++ s2) i = off_at base s1 i.
Proof. intros Hi. unfold off_at. by rewrite take_app_le. Qed.

Lemma off_at_snoc base s e :
  off_at base (s ++ [e]) (S (length s)) = (off_at base s (length s) + length (enc_ent e))%nat.
Proof.
  unfold off_at. rewrite !take_ge by (rewrite ?length_app; simpl; lia).
  rewrite fmap_app, concat_app, length_app. simpl. rewrite app_nil_r. lia.
Qed.

Lemma off_at_mono base s i j : (i ≤ j)%nat → (off_at base s i ≤ off_at base s j)%nat.
Proof.
  intros Hij. unfold off_at. replace j with (i + (j - i))%nat by lia.
  rewrite <- take_take_drop, fmap_app, concat_app, length_app. lia.
Qed.

Lemma off_at_succ base s i e :
  s !! i = Some e → off_at base s (S i) = (off_at base s i + length (enc_ent e))%nat.
Proof.
  intros Hi. unfold off_at. rewrite (take_S_r _ _ _ Hi), fmap_app, concat_app, length_app.
  simpl. rewrite app_nil_r. lia.
Qed.

(** The entries start after the slots of the estimated number of keys. *)
Definition sf_base (est : nat) : nat := (8 + 8 * est)%nat.
Global Arguments sf_base : simpl never.

(** The loop invariant of [writeSortedFile] after the entries [s]. *)
Record wrote (est : nat) (indexed : bool) (s : list ent) (st : wstate) : Prop := {
  wr_nkeys : w_nkeys st = length s;
  wr_offset : w_offset st = off_at (sf_base est) s (length s);
  wr_length : (length (w_fp st) ≤ w_offset st)%nat;
  wr_slot i : (i < length s)%nat →
    has (w_fp st) (8 + 8 * i) (le_bytes 8 (Z.of_nat (off_at (sf_base est) s i)));
  wr_entry i e : s !! i = Some e → has (w_fp st) (off_at (sf_base est) s i) (enc_ent e);
  wr_index_len : length (w_index st) = if indexed then (8 * est)%nat else 0%nat;
  wr_index i : indexed = true → (i < length s)%nat →
    has (w_index st) (8 * i) (le_bytes 8 (Z.of_nat (off_at (sf_base est) s i)));
  wr_filter e : e ∈ s → bloom_Test (w_filter st) (e_key e) = true;
}.

Lemma write_at_concat3 fp off a b c :
  a ≠ [] →
  has (write_at (write_at (write_at fp off a) (off + length a) b) (off + length a + length b) c)
    off (a ++ b ++ c) ∧
  length (write_at (write_at (write_at fp off a) (off + length a) b) (off + length a + length b) c) =
    Nat.max (length fp) (off + length (a ++ b ++ c)).
Proof.
  intros Ha. split.
  - apply has_app. split; [|apply has_app; split].
    + apply has_write_other; [|lia]. apply has_write_other; [|lia]. apply has_write_same.
    + apply has_write_other; [|lia]. apply has_write_same.
    + apply has_write_same.
  - rewrite !length_app. destruct b as [|b0 b], c as [|c0 c].
    all: rewrite ?write_at_nil, !write_at_length by done; simpl; lia.
Qed.

Lemma write_entry_wrote est indexed s st e :
  wrote est indexed s st → (length s < est)%nat → small e →
  ∃ st', write_entry st (e_key e) (e_val e) (e_del e) = Ok st' ∧ wrote est indexed (s ++ [e]) st'.
Proof.
  intros [Hn Hoff Hlen Hslot Hent Hil Hidx Hfil] Hest Hsm.
  unfold small, MaxEntrySize in Hsm. unfold write_entry. eexists. split; [done|].
  set (buf := le_bytes 8 (Z.of_nat (w_offset st))).
  assert (length buf = 8%nat) as Hbuf by apply le_bytes_length.
  assert (buf ≠ []) as Hbne by (intros E; by rewrite E in Hbuf).
  set (fp1 := write_at (w_fp st) (8 + 8 * w_nkeys st) buf).
  set (header := le_bytes 4 _ ++ le_bytes 4 _ ++ _).
  assert (length header = 9%nat) as Hhl.
  { unfold header. by rewrite !length_app, !le_bytes_length. }
  assert (header ++ e_key e ++ e_val e = enc_ent e) as Henc.
  { unfold header, enc_ent, u32. rewrite !Z.mod_small by lia. by rewrite <- !app_assoc. }
  destruct (write_at_concat3 fp1 (w_offset st) header (e_key e) (e_val e)) as [Hnew Hnlen].
  { intros E. by rewrite E in Hhl. }
  rewrite Hhl, Henc in Hnew, Hnlen.
  set (fp2 := write_at (write_at (write_at fp1 _ header) _ (e_key e)) _ (e_val e)) in *.
  pose proof (enc_ent_length e) as Hel.
  assert (8 + 8 * est ≤ w_offset st)%nat as Hbase.
  { rewrite Hoff. unfold off_at, sf_base. lia. }
  assert (Hkeep1 : ∀ a b, has (w_fp st) a b →
            (a + length b ≤ 8 + 8 * length s ∨ 8 + 8 * length s + 8 ≤ a)%nat → has fp1 a b).
  { intros a b Hb Hd. apply has_write_other; [done|]. rewrite Hbuf, Hn. lia. }
  assert (Hkeep : ∀ a b, has fp1 a b → (a + length b ≤ w_offset st)%nat → has fp2 a b).
  { intros a b Hb Hd. unfold fp2. do 3 (apply has_write_other; [|rewrite ?Hhl; lia]). done. }
  assert (length fp1 = Nat.max (length (w_fp st)) (8 + 8 * length s + 8)) as Hl1.
  { unfold fp1. rewrite write_at_length, Hbuf, Hn by done. lia. }
  constructor; cbn [w_fp w_nkeys w_offset w_index w_filter].
  - rewrite length_app, Hn. simpl. lia.
  - rewrite length_app. simpl. rewrite Nat.add_1_r, off_at_snoc, <- Hoff. lia.
  - fold fp2. rewrite Hnlen, Hl1, Hel. lia.
  - intros i Hi. rewrite length_app in Hi. simpl in Hi. fold fp2.
    destruct (decide (i = length s)) as [->|].
    + rewrite off_at_app, <- Hoff by lia. rewrite <- Hn. apply Hkeep; [|rewrite le_bytes_length; lia].
      apply has_write_same.
    + rewrite off_at_app by lia. apply Hkeep; [|rewrite le_bytes_length; lia].
      apply Hkeep1; [apply Hslot; lia|rewrite le_bytes_length; lia].
  - intros i e' Hi. fold fp2. destruct (decide (i = length s)) as [->|].
    + rewrite lookup_app_r, Nat.sub_diag in Hi by lia. simpl in Hi. simplify_eq.
      rewrite off_at_app, <- Hoff by lia. done.
    + apply lookup_lt_Some in Hi as Hlt. rewrite length_app in Hlt. simpl in Hlt.
      rewrite lookup_app_l in Hi by lia. rewrite off_at_app by lia.
      pose proof (off_at_succ (sf_base est) s i e' Hi).
      pose proof (off_at_mono (sf_base est) s (S i) (length s) ltac:(lia)).
      apply Hkeep; [|lia]. apply Hkeep1; [by apply Hent|]. right. unfold off_at, sf_base. lia.
  - destruct (Nat.leb_spec (8 * (w_nkeys st + 1)) (length (w_index st))).
    + rewrite write_at_length, Hbuf by done. destruct indexed; lia.
    + destruct indexed; lia.
  - intros i Hind Hi. rewrite length_app in Hi. simpl in Hi. rewrite Hind in Hil.
    destruct (Nat.leb_spec (8 * (w_nkeys st + 1)) (length (w_index st))); [|lia].
    destruct (decide (i = length s)) as [->|].
    + rewrite off_at_app, <- Hoff, <- Hn by lia. apply has_write_same.
    + rewrite off_at_app by lia. apply has_write_other; [apply Hidx; [done|lia]|].
      rewrite le_bytes_length. lia.
  - intros e' [He'|He']%elem_of_app; [|apply list_elem_of_singleton in He' as ->].
    + apply bloom_test_mono. auto.
    + apply bloom_test_added.
Qed.

Lemma write_entries_wrote est indexed s1 s2 st :
  wrote est indexed s1 st → (length s1 + length s2 ≤ est)%nat → Forall small s2 →
  ∃ st', foldM (fun st e => write_entry st (e_key e) (e_val e) (e_del e)) st s2 = Ok st' ∧
    wrote est indexed (s1 ++ s2) st'.
Proof.
  revert s1 st. induction s2 as [|e s2 IH]; intros s1 st Hw Hle Hsm; cbn [foldM].
  - rewrite app_nil_r. eauto.
  - inversion Hsm; subst. simpl in Hle.
    destruct (write_entry_wrote est indexed s1 st e Hw) as (st' & -> & Hw'); [lia|done|]. rs.
    destruct (IH (s1 ++ [e]) st' Hw') as (st'' & -> & Hw''); [rewrite length_app; simpl; lia|done|].
    exists st''. split; [done|]. by rewrite <- app_assoc in Hw''.
Qed.

(** The finished file: key count, bloom filter and footer around the entries. *)
Definition finish_fp (st : wstate) (bloomData : bytes) : bytes :=
  write_at (write_at (write_at (w_fp st) 0 (le_bytes 8 (Z.of_nat (w_nkeys st))))
    (w_offset st) bloomData)
    (w_offset st + length bloomData) (le_bytes 8 (Z.of_nat (length bloomData)) ++ sortedFileBloomMagic).

Lemma footer_length n : length (le_bytes 8 n ++ sortedFileBloomMagic) = 16%nat.
Proof. by rewrite length_app, le_bytes_length. Qed.

Lemma finish_keep st bloomData a b :
  has (w_fp st) a b → (8 ≤ a)%nat → (a + length b ≤ w_offset st)%nat →
  has (finish_fp st bloomData) a b.
Proof.
  intros Hb Ha Hle. unfold finish_fp.
  apply has_write_other; [|lia]. apply has_write_other; [|lia].
  apply has_write_other; [done|]. rewrite le_bytes_length. lia.
Qed.

Lemma finish_shape est indexed s st bloomData :
  wrote est indexed s st → bloomData ≠ [] →
  has (finish_fp st bloomData) 0 (le_bytes 8 (Z.of_nat (length s))) ∧
  has (finish_fp st bloomData) (w_offset st) bloomData ∧
  has (finish_fp st bloomData) (w_offset st + length bloomData)
    (le_bytes 8 (Z.of_nat (length bloomData)) ++ sortedFileBloomMagic) ∧
  length (finish_fp st bloomData) = (w_offset st + length bloomData + 16)%nat.
Proof.
  intros Hw Hne. destruct Hw as [Hn Hoff Hlen _ _ _ _ _]. unfold finish_fp.
  assert (8 ≤ w_offset st)%nat as H8 by (rewrite Hoff; unfold off_at, sf_base; lia).
  assert (∀ z, le_bytes 8 z ≠ []) as Hb by (intros z E; by pose proof (le_bytes_length 8 z); rewrite E in *).
  split_and!.
  - apply has_write_other; [|rewrite le_bytes_length; lia].
    apply has_write_other; [|rewrite le_bytes_length; lia]. rewrite Hn. apply has_write_same.
  - apply has_write_other; [|lia]. apply has_write_same.
  - apply has_write_same.
  - rewrite write_at_length, footer_length.
    + rewrite !write_at_length, le_bytes_length by done. lia.
    + intros E. pose proof (footer_length (Z.of_nat (length bloomData))) as E'. by rewrite E in E'.
Qed.

Lemma off_at_bound base s i :
  Forall small s → (i ≤ length s)%nat →
  Z.of_nat (off_at base s i) ≤ Z.of_nat base + Z.of_nat i * (MaxEntrySize + 9).
Proof.
  intros Hs. induction i as [|i IH]; intros Hi; [unfold off_at; simpl; lia|].
  destruct (lookup_lt_is_Some_2 s i) as [e He]; [lia|].
  rewrite (off_at_succ _ _ _ _ He).
  specialize (IH ltac:(lia)). rewrite Forall_forall in Hs.
  assert (small e) as Hsm by (eapply Hs, list_elem_of_lookup_2; eauto).
  unfold small in Hsm. rewrite enc_ent_length. lia.
Qed.

(** The estimate bounds every offset far below [2^63]. *)
Definition sf_fits (est : nat) : Prop := Z.of_nat est ≤ 2 ^ 32.

#[export] Instance sf_fits_dec est : Decision (sf_fits est).
Proof. unfold sf_fits. apply _. Defined.

Lemma wrote_offset_bound est indexed s st i :
  wrote est indexed s st → (length s ≤ est)%nat → sf_fits est → Forall small s → (i ≤ length s)%nat →
  8 + 8 * Z.of_nat (length s) ≤ Z.of_nat (off_at (sf_base est) s i) < 2 ^ 62.
Proof.
  intros Hw Hle Hf Hsm Hi. pose proof (off_at_bound (sf_base est) s i Hsm Hi) as Hb.
  unfold sf_fits in Hf. unfold off_at, sf_base, MaxEntrySize in *. split; [lia|].
  assert (Z.of_nat i * (64 * 2 ^ 20 + 9) ≤ 2 ^ 32 * (64 * 2 ^ 20 + 9)) by nia. lia.
Qed.

Lemma entryOffset_buf file pos off :
  0 ≤ pos < sf_nkeys file → 8 + 8 * sf_nkeys file ≤ Z.of_nat off < 2 ^ 62 →
  (8 * (pos + 1) <= Z.of_nat (length (sf_offsetIndex file)) →
     has (sf_offsetIndex file) (Z.to_nat (8 * pos)) (le_bytes 8 (Z.of_nat off))) →
  (Z.of_nat (length (sf_offsetIndex file)) < 8 * (pos + 1) →
     has (sf_fp file) (Z.to_nat (8 + 8 * pos)) (le_bytes 8 (Z.of_nat off))) →
  entryOffset file pos = Ok (Z.of_nat off).
Proof.
  intros Hp Hoff Hin Hout. unfold entryOffset.
  destruct (Z.leb_spec 0 pos); [|lia]. destruct (Z.ltb_spec pos (sf_nkeys file)); [|lia].
  unfold check. simpl andb. rs.
  assert (∀ buf, buf = le_bytes 8 (Z.of_nat off) →
    (let offset := s64 (le_val buf) in
     if offset <? 8 + 8 * sf_nkeys file then Err (errorsNew "corrupted file") else Ok offset)
    = Ok (Z.of_nat off)) as Hfin.
  { intros buf ->. rewrite le_val_len8 by lia. rewrite s64_id by (unfold is_i64; lia). simpl.
    destruct (Z.ltb_spec (Z.of_nat off) (8 + 8 * sf_nkeys file)); [lia|done]. }
  destruct (Z.leb_spec (8 * (pos + 1)) (Z.of_nat (length (sf_offsetIndex file)))) as [Hi|Hi]; rs.
  - apply Hfin. specialize (Hin Hi). apply has_take_drop in Hin.
    by rewrite le_bytes_length in Hin.
  - specialize (Hout Hi). unfold ReadAt. destruct (Z.ltb_spec (8 + 8 * pos) 0); [lia|].
    apply read_at_has in Hout. rewrite le_bytes_length in Hout.
    change (Z.to_nat 8) with 8%nat. rewrite Hout. rs. by apply Hfin.
Qed.

(** A table record over the finished bytes holds the entries, whatever part of
    the offset array it caches. *)
Lemma finish_holds est indexed s st bloomData idx fl :
  wrote est indexed s st → (length s ≤ est)%nat → sf_fits est → Forall small s → sorted s →
  (∀ i, 8 * (Z.of_nat i + 1) <= Z.of_nat (length idx) → (i < length s)%nat →
     has idx (8 * i) (le_bytes 8 (Z.of_nat (off_at (sf_base est) s i)))) →
  (fl = None ∨ fl = Some (w_filter st)) →
  sf_Holds (MkSF (finish_fp st bloomData) (Z.of_nat (length s)) idx fl) s.
Proof.
  intros Hw Hle Hfit Hsm Hs Hidx Hfl. pose proof Hw as [Hn Hoff Hlen Hslot Hent _ _ Hfil].
  split_and!; [done|done| |].
  - intros i e He. exists (off_at (sf_base est) s i).
    apply lookup_lt_Some in He as Hlt.
    pose proof (wrote_offset_bound _ _ _ _ i Hw Hle Hfit Hsm ltac:(lia)) as Hb.
    assert (8 + 8 * length s ≤ w_offset st)%nat as Hw8
      by (rewrite Hoff; unfold off_at, sf_base; lia).
    split_and!.
    + apply entryOffset_buf; simpl; [lia|done| |].
      * intros Hi. replace (Z.to_nat (8 * Z.of_nat i)) with (8 * i)%nat by lia. by apply Hidx.
      * intros _. replace (Z.to_nat (8 + 8 * Z.of_nat i)) with (8 + 8 * i)%nat by lia.
        apply finish_keep; [by apply Hslot|lia|rewrite le_bytes_length; lia].
    + simpl. apply finish_keep; [by apply Hent|unfold off_at, sf_base; lia|].
      pose proof (off_at_succ (sf_base est) s i e He).
      pose proof (off_at_mono (sf_base est) s (S i) (length s) ltac:(lia)). lia.
    + rewrite Forall_forall in Hsm. eapply Hsm, list_elem_of_lookup_2; eauto.
  - intros e He. unfold mayContainKey. simpl. destruct Hfl as [-> | ->]; [done|]. by apply Hfil.
Qed.

Lemma finish_openIndex est indexed s st bloomData :
  wrote est indexed s st → (length s ≤ est)%nat →
  ∃ idx, loadOffsetIndex (finish_fp st bloomData) (Z.of_nat (length s)) = Ok idx ∧
    ∀ i, 8 * (Z.of_nat i + 1) <= Z.of_nat (length idx) → (i < length s)%nat →
      has idx (8 * i) (le_bytes 8 (Z.of_nat (off_at (sf_base est) s i))).
Proof.
  intros Hw Hle. pose proof Hw as [Hn Hoff Hlen Hslot Hent _ _ _]. unfold loadOffsetIndex.
  destruct (Z.eqb_spec (Z.of_nat (length s) * 8) 0); [exists []; split; [done|simpl; lia]|].
  destruct ((Z.of_nat (length s) * 8 <? 0) || _); [exists []; split; [done|simpl; lia]|].
  assert (8 + 8 * length s ≤ w_offset st)%nat as Hw8 by (rewrite Hoff; unfold off_at, sf_base; lia).
  set (f := finish_fp st bloomData).
  assert (8 + 8 * length s ≤ length f)%nat as Hlf.
  { assert (has f (8 + 8 * (length s - 1)) (le_bytes 8 (Z.of_nat (off_at (sf_base est) s (length s - 1))))) as Hh.
    { apply finish_keep; [apply Hslot; lia|lia|rewrite le_bytes_length; lia]. }
    apply has_lt in Hh; [rewrite le_bytes_length in Hh; lia|].
    intros E. pose proof (le_bytes_length 8 (Z.of_nat (off_at (sf_base est) s (length s - 1)))) as E'.
    by rewrite E in E'. }
  unfold ReadAt. simpl Z.ltb. cbv iota.
  change (Z.to_nat 8) with 8%nat. replace (Z.to_nat (Z.of_nat (length s) * 8)) with (8 * length s)%nat by lia.
  unfold read_at. destruct (Nat.eqb_spec (8 * length s) 0); [lia|].
  destruct (Nat.leb_spec (8 + 8 * length s) (length f)); [|lia].
  eexists. split; [done|]. intros i _ Hi j x Hj.
  assert (j < 8)%nat as Hj8 by (apply lookup_lt_Some in Hj; by rewrite le_bytes_length in Hj).
  rewrite lookup_take_lt, lookup_drop by lia.
  assert (has f (8 + 8 * i) (le_bytes 8 (Z.of_nat (off_at (sf_base est) s i)))) as Hh.
  { apply finish_keep; [by apply Hslot|lia|rewrite le_bytes_length; lia]. }
  apply Hh in Hj. by replace (8 + (8 * i + j))%nat with (8 + 8 * i + j)%nat by lia.
Qed.

Lemma finish_openBloom est indexed s st bloomData :
  wrote est indexed s st → bloom_MarshalBinary (w_filter st) = Ok bloomData →
  bloom_UnmarshalBinary bloomData = Ok (w_filter st) → bloomData ≠ [] →
  Z.of_nat (length bloomData) < 2 ^ 62 → Z.of_nat (w_offset st) < 2 ^ 62 →
  loadBloomFilter (finish_fp st bloomData) = Ok (Some (w_filter st)).
Proof.
  intros Hw Hm Hu Hne Hsz Hosz.
  destruct (finish_shape _ _ _ _ _ Hw Hne) as (_ & Hbloom & Hfoot & Hlen).
  unfold loadBloomFilter. rewrite Hlen. unfold sortedFileBloomFooterSize.
  destruct (Z.ltb_spec (Z.of_nat (w_offset st + length bloomData + 16)) 16); [lia|].
  replace (Z.of_nat (w_offset st + length bloomData + 16) - 16)
    with (Z.of_nat (w_offset st + length bloomData)) by lia.
  rewrite (ReadAt_has _ _ _ 16 Hfoot) by (by rewrite footer_length). rs.
  rewrite drop_app_length' by (by rewrite le_bytes_length).
  rewrite take_app_length' by (by rewrite le_bytes_length).
  rewrite bytes_equal_refl. simpl negb. cbv iota.
  rewrite le_val_len8 by lia.
  assert (0 < length bloomData)%nat by (destruct bloomData; [done|simpl; lia]).
  destruct (Z.eqb_spec (Z.of_nat (length bloomData)) 0); [lia|].
  unfold u64. rewrite Z.mod_small by lia.
  destruct (Z.ltb_spec (Z.of_nat (w_offset st + length bloomData)) (Z.of_nat (length bloomData))); [lia|].
  simpl orb. cbv iota. rewrite s64_id by (unfold is_i64; lia).
  replace (Z.of_nat (w_offset st + length bloomData) - Z.of_nat (length bloomData))
    with (Z.of_nat (w_offset st)) by lia.
  rewrite (ReadAt_has _ _ _ _ Hbloom) by done. rs. by rewrite Hu.
Qed.

Lemma wrote_init est (indexed : bool) :
  wrote est indexed []
    (MkW [] 0 (sf_base est) (if indexed then replicate (8 * est) x00 else []) (newSortedFileBloom (Z.of_nat est))).
Proof.
  constructor; cbn [w_fp w_nkeys w_offset w_index w_filter]; try done.
  - unfold off_at. simpl. lia.
  - intros i Hi. simpl in Hi. lia.
  - destruct indexed; [by rewrite length_replicate|done].
  - intros i _ Hi. simpl in Hi. lia.
  - intros e He. by apply elem_of_nil in He.
Qed.

(** The result of [writeSortedFile] in terms of the loop invariant. *)
Lemma writeSortedFile_result `{!KVIter It} `{!SortedKV T It} (kv : T) (it : It) s :
  Iter kv = Ok it → enumerates it s → Forall small s → (length s ≤ EstimatedSize kv)%nat →
  ∃ indexed st bloomData,
    wrote (EstimatedSize kv) indexed s st ∧ bloom_MarshalBinary (w_filter st) = Ok bloomData ∧
    bloom_UnmarshalBinary bloomData = Ok (w_filter st) ∧ bloomData ≠ [] ∧
    Z.of_nat (length bloomData) < 2 ^ 62 ∧
    writeSortedFile [] kv = Ok (MkSF (finish_fp st bloomData) (Z.of_nat (length s))
      (if (8 * length s <=? length (w_index st))%nat then take (8 * length s) (w_index st) else [])
      (Some (w_filter st))).
Proof.
  intros Hit Hen Hsm Hle. unfold writeSortedFile.
  set (indexed := (0 <=? 8 * Z.of_nat (EstimatedSize kv)) && _). rewrite Hit. rs. rewrite Hen.
  destruct (write_entries_wrote _ indexed [] s _ (wrote_init (EstimatedSize kv) indexed)) as (st & Hst & Hw);
    [simpl; lia|done|]. simpl app in Hw.
  destruct (bloom_roundtrip (w_filter st)) as (bloomData & Hm & Hne & Hsz & Hu).
  exists indexed, st, bloomData. split_and!; [done..|].
  unfold sf_base in Hst. rewrite Hst. rs. pose proof (wr_nkeys _ _ _ _ Hw) as Hn.
  unfold check. rewrite Hn. destruct (Nat.leb_spec (length s) (EstimatedSize kv)); [|lia]. rs.
  rewrite Hm. rs. unfold finish_fp. by rewrite Hn.
Qed.

(** Writing and reopening a table. *)
Lemma writeSortedFile_open `{!KVIter It} `{!SortedKV T It} (kv : T) (it : It) s :
  Iter kv = Ok it → enumerates it s → sorted s → Forall small s →
  (length s ≤ EstimatedSize kv)%nat → sf_fits (EstimatedSize kv) →
  ∃ file, writeSortedFile [] kv = Ok file ∧ sf_Holds file s ∧
    (Z.of_nat (length s) ≤ maxNKeys →
       ∃ file', openExisting (sf_fp file) = Ok file' ∧ sf_Holds file' s ∧ sf_fp file' = sf_fp file) ∧
    (maxNKeys < Z.of_nat (length s) →
       openExisting (sf_fp file) = Err (errorsNew "corrupted file: nkeys out of range")).
Proof.
  intros Hit Hen Hs Hsm Hle Hfit.
  destruct (writeSortedFile_result kv it s Hit Hen Hsm Hle)
    as (indexed & st & bloomData & Hw & Hm & Hu & Hne & Hsz & ->).
  pose proof Hw as [Hn Hoff _ _ _ Hil Hidx _].
  pose proof (wrote_offset_bound _ _ _ _ (length s) Hw Hle Hfit Hsm ltac:(lia)) as Hb.
  eexists. split; [done|]. split_and!.
  - eapply finish_holds; [done..| |by right].
    intros i Hi Hlt. destruct (Nat.leb_spec (8 * length s) (length (w_index st))) as [Hc|Hc].
    + destruct indexed; [|lia]. intros j x Hj.
      assert (j < 8)%nat by (apply lookup_lt_Some in Hj; by rewrite le_bytes_length in Hj).
      rewrite lookup_take_lt by lia. by apply (Hidx i eq_refl Hlt).
    + simpl in Hi. lia.
  - intros Hmax. simpl. unfold openExisting.
    destruct (finish_shape _ _ _ _ _ Hw Hne) as (Hcount & _).
    rewrite (ReadAt_has0 _ _ 8 Hcount) by (by rewrite le_bytes_length). rs.
    unfold maxNKeys in *. rewrite le_val_len8 by lia. rewrite s64_id by (unfold is_i64; lia).
    destruct (Z.ltb_spec (Z.of_nat (length s)) 0); [lia|].
    destruct (Z.ltb_spec (2 ^ 26) (Z.of_nat (length s))); [lia|]. simpl orb. cbv iota.
    destruct (finish_openIndex _ _ _ _ bloomData Hw Hle) as (idx & -> & Hio). rs.
    rewrite (finish_openBloom _ _ _ _ _ Hw Hm Hu Hne Hsz) by lia. rs.
    eexists. split; [done|]. split; [|done]. eapply finish_holds; eauto.
  - intros Hmax. simpl. unfold openExisting.
    destruct (finish_shape _ _ _ _ _ Hw Hne) as (Hcount & _).
    rewrite (ReadAt_has0 _ _ 8 Hcount) by (by rewrite le_bytes_length). rs.
    assert (Z.of_nat (length s) ≤ 2 ^ 32) by (unfold sf_fits in Hfit; lia).
    unfold maxNKeys in *. rewrite le_val_len8 by lia. rewrite s64_id by (unfold is_i64; lia).
    destruct (Z.ltb_spec (2 ^ 26) (Z.of_nat (length s))); [|lia]. by rewrite orb_true_r.
Qed.

End proofs.
