(* ===== verification/KVIterators.v ===== *)
(** * Iterators of the key-value layer: db/kv.go

    [filterDeleted], [NoDeletedIter] (hides tombstones), [RangedKVIter] (stops
    at a bound) and [NoDeletedSortedKV] (the source of a compaction that drops
    tombstones), over any iterator that satisfies the interface laws. *)

From Stdlib Require Import ZArith Lia.
From stdpp Require Import base list numbers.
From S2P Require Import Prelude GoLib SortedSeq SortedKV.

Open Scope Z_scope.

(** [type UpdateMode int] *)
Definition ModeUpsert : Z := 1.
Definition ModeInsert : Z := 2.
Definition ModeUpdate : Z := 3.

(** ** Operations *)

Record NoDeletedIter (It : Type) := ND { nd_inner : It }.
Arguments ND {It}.
Arguments nd_inner {It}.

Record RangedKVIter (It : Type) := MkRanged { rg_iter : It; rg_stop : bytes; rg_desc : bool }.
Arguments MkRanged {It}.
Arguments rg_iter {It}.
Arguments rg_stop {It}.
Arguments rg_desc {It}.

Record NoDeletedSortedKV (T : Type) := NDKV { ndkv_inner : T }.
Arguments NDKV {T}.
Arguments ndkv_inner {T}.

Section operations.
Context `{KVIter It}.

(** [for iter.Valid() && iter.Deleted() { move }] *)
Fixpoint skip_deleted (move : It → res It) (fuel : nat) (it : It) : res It :=
  if Valid it then
    d ← Deleted it;
    if (d : bool) then
      match fuel with
      | O => OutOfFuel
      | S fuel => it' ← move it; skip_deleted move fuel it'
      end
    else Ok it
  else Ok it.

Definition filterDeleted (it : It) : res (NoDeletedIter It) :=
  it' ← skip_deleted Next (steps it) it; Ok (ND it').
Definition filterDeletedBackward (it : It) : res (NoDeletedIter It) :=
  it' ← skip_deleted Prev (S (steps it)) it; Ok (ND it').

Definition nd_Next (it : NoDeletedIter It) : res (NoDeletedIter It) :=
  it1 ← Next (nd_inner it);
  it2 ← skip_deleted Next (steps it1) it1;
  Ok (ND it2).
Definition nd_Prev (it : NoDeletedIter It) : res (NoDeletedIter It) :=
  it1 ← Prev (nd_inner it);
  it2 ← skip_deleted Prev (S (steps it1)) it1;
  Ok (ND it2).

#[export] Instance nd_KVIter : KVIter (NoDeletedIter It) := {
  Valid it := Valid (nd_inner it);
  Key it := Key (nd_inner it);
  Val it := Val (nd_inner it);
  Deleted it := Deleted (nd_inner it);
  Next := nd_Next; Prev := nd_Prev;
  steps it := steps (nd_inner it);
}.

(** [RangedKVIter]: [desc] walks backward and stops below [stop]. *)
Definition rg_Valid (it : RangedKVIter It) : res bool :=
  if negb (Valid (rg_iter it)) then Ok false else
  k ← Key (rg_iter it);
  Ok (match bytes_compare k (rg_stop it) with
      | Lt => negb (rg_desc it)
      | Gt => rg_desc it
      | Eq => true
      end).

Definition rg_Key (it : RangedKVIter It) : res bytes :=
  v ← rg_Valid it; _ ← check v; Key (rg_iter it).
Definition rg_Val (it : RangedKVIter It) : res bytes :=
  v ← rg_Valid it; _ ← check v; Val (rg_iter it).

Definition rg_Next (it : RangedKVIter It) : res (RangedKVIter It) :=
  v ← rg_Valid it;
  if negb v then Ok it else
  inner ← (if rg_desc it then Prev (rg_iter it) else Next (rg_iter it));
  Ok (MkRanged inner (rg_stop it) (rg_desc it)).

(** The tail of [(tx *KVTX) Range] after the seek. *)
Definition rg_start (it : It) (start stop : bytes) (desc : bool) : res (RangedKVIter It) :=
  back ← (if desc then
            if negb (Valid it) then Ok true else
            k ← Key it;
            Ok (match bytes_compare k start with Gt => true | _ => false end)
          else Ok false);
  it' ← (if (back : bool) then Prev it else Ok it);
  Ok (MkRanged it' stop desc).

(** The caller's loop [for iter.Valid() { use Key, Val; iter.Next() }]. *)
Fixpoint rg_collect (fuel : nat) (it : RangedKVIter It) : res (list (bytes * bytes)) :=
  v ← rg_Valid it;
  if (v : bool) then
    match fuel with
    | O => OutOfFuel
    | S fuel =>
        k ← rg_Key it; x ← rg_Val it;
        it' ← rg_Next it;
        rest ← rg_collect fuel it';
        Ok ((k, x) :: rest)
    end
  else Ok [].

Context `{!SortedKV T It}.

(** [NoDeletedSortedKV] overrides [Iter] only; the other methods are promoted
    from the embedded interface. *)
Definition ndkv_Iter (kv : NoDeletedSortedKV T) : res (NoDeletedIter It) :=
  it ← Iter (ndkv_inner kv); Ok (ND it).

#[export] Instance ndkv_SortedKV : SortedKV (NoDeletedSortedKV T) (NoDeletedIter It) := {
  EstimatedSize kv := EstimatedSize (ndkv_inner kv);
  Iter := ndkv_Iter;
  Seek kv k := it ← Seek (ndkv_inner kv) k; Ok (ND it);
  SeekToLast kv := it ← SeekToLast (ndkv_inner kv); Ok (ND it);
  exact_getter := None;
}.

End operations.

(** ** Live entries *)

Definition lives (s : list ent) : list ent := filter (fun e => live e = true) s.

(** Number of live entries before position [n]. *)
Definition rank (s : list ent) (n : nat) : nat := length (lives (take n s)).

Lemma lives_app s1 s2 : lives (s1 ++ s2) = lives s1 ++ lives s2.
Proof. apply filter_app. Qed.

Lemma lives_cons e s : lives (e :: s) = if live e then e :: lives s else lives s.
Proof. unfold lives. rewrite filter_cons. by destruct (live e). Qed.

Lemma lives_sorted s : sorted s → sorted (lives s).
Proof. apply sorted_filter. Qed.

Lemma rank_S s n e : s !! n = Some e → rank s (S n) = (rank s n + if live e then 1 else 0)%nat.
Proof.
  intros He. unfold rank. rewrite (take_S_r _ _ _ He), lives_app, length_app. f_equal.
  unfold lives. rewrite filter_cons, filter_nil. by destruct (live e).
Qed.

Lemma rank_le s n : (rank s n ≤ length (lives s))%nat.
Proof.
  unfold rank. assert (lives s = lives (take n s) ++ lives (drop n s)) as ->
    by (by rewrite <- lives_app, take_drop).
  rewrite length_app. lia.
Qed.

Lemma rank_all s n : (length s ≤ n)%nat → rank s n = length (lives s).
Proof. intros H. unfold rank. by rewrite take_ge. Qed.

(** A live entry sits at its rank among the live entries. *)
Lemma lives_lookup_rank s n e : s !! n = Some e → live e = true → lives s !! rank s n = Some e.
Proof.
  intros He Hl. assert (lives s = lives (take n s) ++ lives (drop n s)) as ->
    by (by rewrite <- lives_app, take_drop).
  unfold rank. rewrite lookup_app_r, Nat.sub_diag by lia.
  rewrite (drop_S _ _ _ He). unfold lives. rewrite filter_cons. by rewrite Hl.
Qed.

(** Dead entries between two positions leave the rank unchanged. *)
Definition dead_between (s : list ent) (p q : nat) : Prop :=
  ∀ i e, (p ≤ i < q)%nat → s !! i = Some e → e_del e = true.

Lemma dead_between_eq s p q p' q' :
  p = p' → q = q' → dead_between s p q → dead_between s p' q'.
Proof. by intros -> ->. Qed.

Lemma rank_dead s p q :
  (p ≤ q ≤ length s)%nat → dead_between s p q → rank s q = rank s p.
Proof.
  intros Hpq Hd. induction q as [|q IH]; [f_equal; lia|].
  destruct (decide (p = S q)) as [->|]; [done|].
  destruct (lookup_lt_is_Some_2 s q) as [e He]; [lia|].
  rewrite (rank_S _ _ _ He). unfold live. rewrite (Hd q e) by (lia || done). simpl.
  rewrite IH; [lia|lia|]. intros i e' Hi. apply Hd. lia.
Qed.

Lemma lives_drop_dead s p q :
  (p ≤ q)%nat → dead_between s p q → lives (drop p s) = lives (drop q s).
Proof.
  intros Hpq Hd. remember (q - p)%nat as n eqn:Hn. revert p Hpq Hd Hn.
  induction n as [|n IH]; intros p Hpq Hd Hn; [by replace p with q by lia|].
  destruct (s !! p) as [e|] eqn:He.
  - rewrite (drop_S _ _ _ He), lives_cons. unfold live.
    rewrite (Hd p e) by (lia || done). simpl. apply IH; [lia| |lia].
    intros i e' Hi. apply Hd. lia.
  - apply lookup_ge_None in He. by rewrite !drop_ge by lia.
Qed.

Lemma cnt_below_upto k s : sorted s → (cnt (below k) s ≤ cnt (upto k) s)%nat.
Proof.
  intros _. induction s as [|e s IH]; [done|]. simpl. unfold below at 1, upto at 1, bytes_ltb, bytes_leb.
  destruct (bytes_compare (e_key e) k); lia.
Qed.

Lemma cnt_lives P s : sorted s → down P → cnt P (lives s) = rank s (cnt P s).
Proof.
  intros Hs HP. unfold rank. induction s as [|e s IH]; [done|].
  apply sorted_cons in Hs as [Hs Hf]. specialize (IH Hs). simpl.
  unfold lives in *. rewrite filter_cons. destruct (P (e_key e)) eqn:E.
  - simpl. rewrite filter_cons. destruct (decide (live e = true)); simpl; [rewrite E|]; simpl; lia.
  - assert (cnt P s = 0%nat) as Hz.
    { rewrite <- (cnt_false s). apply cnt_ext. intros x Hx.
      destruct (P (e_key x)) eqn:Ex; [|done]. rewrite Forall_forall in Hf.
      rewrite (HP _ _ (Hf x Hx) Ex) in E. done. }
    rewrite Hz in *. simpl in *.
    destruct (decide (live e = true)); simpl; [rewrite E|]; done.
Qed.

(** ** Laws of [NoDeletedIter] *)

Section laws.
Context `{IterLaws It}.

Lemma skip_forward fuel (it : It) s p :
  At it s p → 0 ≤ p → (length s - Z.to_nat p ≤ fuel)%nat →
  ∃ it' q, skip_deleted Next fuel it = Ok it' ∧ At it' s q ∧ p ≤ q ∧
    dead_between s (Z.to_nat p) (Z.to_nat q) ∧
    (q = Z.of_nat (length s) ∨ ∃ e, s !! Z.to_nat q = Some e ∧ live e = true).
Proof.
  revert it p. induction fuel as [|fuel IH]; intros it p Hat Hp Hf; cbn [skip_deleted].
  - destruct (Valid it) eqn:Hv.
    { destruct (At_valid_entry _ _ _ Hat Hv) as (e & He & _). apply lookup_lt_Some in He. lia. }
    exists it, p. split_and!; [done|done|lia|intros i e Hi; lia|].
    left. destruct (At_invalid _ _ _ Hat Hv); lia.
  - destruct (Valid it) eqn:Hv.
    + destruct (At_valid_entry _ _ _ Hat Hv) as (e & He & _ & _ & _ & ->). rs.
      destruct (e_del e) eqn:Ed.
      * destruct (At_next _ _ _ Hat) as (it1 & -> & Hat1). rs.
        apply lookup_lt_Some in He as Hlt.
        destruct (IH it1 _ Hat1) as (it' & q & -> & Hat' & Hq & Hd & Hend); [lia|lia|].
        exists it', q. split_and!; [done|done|lia| |done].
        intros i e' Hi He'. destruct (decide (i = Z.to_nat p)) as [->|]; [congruence|].
        eapply Hd; [|done]. lia.
      * exists it, p. split_and!; [done|done|lia|intros i e' Hi; lia|].
        right. exists e. unfold live. by rewrite Ed.
    + exists it, p. split_and!; [done|done|lia|intros i e Hi; lia|].
      left. destruct (At_invalid _ _ _ Hat Hv); lia.
Qed.

Lemma skip_backward fuel (it : It) s p :
  At it s p → p < Z.of_nat (length s) → (Z.to_nat (p + 1) ≤ fuel)%nat →
  ∃ it' q, skip_deleted Prev fuel it = Ok it' ∧ At it' s q ∧ q ≤ p ∧
    dead_between s (Z.to_nat (q + 1)) (Z.to_nat (p + 1)) ∧
    (q = -1 ∨ 0 ≤ q ∧ ∃ e, s !! Z.to_nat q = Some e ∧ live e = true).
Proof.
  revert it p. induction fuel as [|fuel IH]; intros it p Hat Hp Hf; cbn [skip_deleted];
    pose proof (At_range _ _ _ Hat) as Hr.
  - destruct (Valid it) eqn:Hv.
    { destruct (At_valid_entry _ _ _ Hat Hv) as (e & He & ? & _). lia. }
    exists it, p. split_and!; [done|done|lia|intros i e Hi; lia|].
    left. destruct (At_invalid _ _ _ Hat Hv); lia.
  - destruct (Valid it) eqn:Hv.
    + destruct (At_valid_entry _ _ _ Hat Hv) as (e & He & Hp0 & _ & _ & ->). rs.
      destruct (e_del e) eqn:Ed.
      * destruct (At_prev _ _ _ Hat) as (it1 & -> & Hat1). rs.
        destruct (IH it1 _ Hat1) as (it' & q & -> & Hat' & Hq & Hd & Hend); [lia|lia|].
        exists it', q. split_and!; [done|done|lia| |done].
        intros i e' Hi He'. destruct (decide (i = Z.to_nat p)) as [->|]; [congruence|].
        eapply Hd; [|done]. lia.
      * exists it, p. split_and!; [done|done|lia|intros i e' Hi; lia|].
        right. split; [done|]. exists e. unfold live. by rewrite Ed.
    + exists it, p. split_and!; [done|done|lia|intros i e Hi; lia|].
      left. destruct (At_invalid _ _ _ Hat Hv); lia.
Qed.

(** The filtering iterator stands on a live entry (or at an end), at its rank
    among the live entries. *)
Definition nd_At (it : NoDeletedIter It) (s' : list ent) (p' : Z) : Prop :=
  ∃ s p, At (nd_inner it) s p ∧ s' = lives s ∧
    (p = -1 ∧ p' = -1 ∨
     0 ≤ p ∧ p' = Z.of_nat (rank s (Z.to_nat p)) ∧
     (p = Z.of_nat (length s) ∨ ∃ e, s !! Z.to_nat p = Some e ∧ live e = true)).

Lemma nd_At_entry it s p e :
  At it s p → 0 ≤ p → s !! Z.to_nat p = Some e → live e = true →
  lives s !! rank s (Z.to_nat p) = Some e.
Proof. intros _ _ He Hl. by apply lives_lookup_rank. Qed.

Lemma nd_At_range it s' p' : nd_At it s' p' → -1 ≤ p' ≤ Z.of_nat (length s').
Proof.
  intros (s & p & Hat & -> & [[_ ->]|(_ & -> & _)]); [lia|].
  pose proof (rank_le s (Z.to_nat p)). lia.
Qed.

(** Landing on [q] after skipping dead entries from [p]. *)
Lemma nd_At_land it s p q :
  At it s q → 0 ≤ p ≤ q → dead_between s (Z.to_nat p) (Z.to_nat q) →
  (q = Z.of_nat (length s) ∨ ∃ e, s !! Z.to_nat q = Some e ∧ live e = true) →
  nd_At (ND it) (lives s) (Z.of_nat (rank s (Z.to_nat p))).
Proof.
  intros Hat Hp Hd Hend. pose proof (At_range _ _ _ Hat).
  exists s, q. split; [done|]. split; [done|]. right. split; [lia|].
  split; [|done]. by rewrite (rank_dead s (Z.to_nat p) (Z.to_nat q)) by (lia || done).
Qed.

Lemma nd_At_next it s' p' :
  nd_At it s' p' → ∃ it', nd_Next it = Ok it' ∧ nd_At it' s' (Z.min (p' + 1) (Z.of_nat (length s'))).
Proof.
  intros (s & p & Hat & -> & Hp). unfold nd_Next. pose proof (At_range _ _ _ Hat) as Hr.
  destruct (At_next _ _ _ Hat) as (it1 & -> & Hat1). rs.
  destruct (skip_forward (steps it1) it1 s _ Hat1) as (it2 & q & -> & Hat2 & Hq & Hd & Hend).
  { lia. } { pose proof (At_steps _ _ _ Hat1). lia. }
  rs. eexists. split; [done|].
  pose proof (nd_At_land _ _ _ _ Hat2 ltac:(split; [|exact Hq]; lia) Hd Hend) as Hn.
  eapply (eq_ind _ (nd_At (ND it2) (lives s)) Hn).
  destruct Hp as [[-> ->]|(Hp & -> & [->|(e & He & Hl)])].
  - replace (Z.to_nat (Z.min (-1 + 1) (Z.of_nat (length s)))) with 0%nat by lia.
    change (rank s 0) with 0%nat. lia.
  - rewrite !rank_all by lia. lia.
  - apply lookup_lt_Some in He as Hlt.
    replace (Z.to_nat (Z.min (p + 1) (Z.of_nat (length s)))) with (S (Z.to_nat p)) by lia.
    pose proof (lookup_lt_Some _ _ _ (lives_lookup_rank _ _ _ He Hl)).
    rewrite (rank_S _ _ _ He), Hl. lia.
Qed.

Lemma nd_At_prev it s' p' :
  nd_At it s' p' → ∃ it', nd_Prev it = Ok it' ∧ nd_At it' s' (Z.max (p' - 1) (-1)).
Proof.
  intros (s & p & Hat & -> & Hp). unfold nd_Prev. pose proof (At_range _ _ _ Hat) as Hr.
  destruct (At_prev _ _ _ Hat) as (it1 & -> & Hat1). rs.
  pose proof (At_steps _ _ _ Hat1) as Hsteps. set (p1 := Z.max (p - 1) (-1)) in *.
  destruct (decide (p1 < Z.of_nat (length s))) as [Hlt|Hge]; [|exfalso; lia].
  destruct (skip_backward (S (steps it1)) it1 s p1 Hat1) as (it2 & q & -> & Hat2 & Hq & Hd & Hend).
  { done. } { lia. }
  rs. eexists. split; [done|]. pose proof (At_range _ _ _ Hat2) as Hr2.
  assert (Hrank : rank s (Z.to_nat (p1 + 1)) = rank s (Z.to_nat (q + 1))).
  { apply rank_dead; [lia|done]. }
  assert (Hp' : p' = -1 ∧ p1 = -1 ∨ 0 ≤ p' ∧ p' = Z.of_nat (rank s (Z.to_nat (p1 + 1)))).
  { destruct Hp as [[-> ->]|(Hp & -> & _)]; [left; lia|]. right. split; [lia|].
    do 2 f_equal. lia. }
  exists s, q. split; [done|]. split; [done|].
  destruct Hend as [->|(Hq0 & e & He & Hl)].
  - left. split; [done|]. rewrite Hrank in Hp'. change (rank s (Z.to_nat (-1 + 1))) with 0%nat in Hp'. lia.
  - right. split; [done|]. split; [|eauto]. rewrite Hrank in Hp'.
    replace (Z.to_nat (q + 1)) with (S (Z.to_nat q)) in Hp' by lia.
    rewrite (rank_S _ _ _ He), Hl in Hp'. lia.
Qed.

#[export, refine] Instance nd_IterLaws : IterLaws (NoDeletedIter It) := {| At := nd_At |}.
Proof.
  - intros it s' p' (s & p & Hat & -> & _). eapply lives_sorted, At_sorted, Hat.
  - apply nd_At_range.
  - intros it s' p' (s & p & Hat & -> & Hp). simpl. rewrite (At_valid _ _ _ Hat).
    pose proof (At_range _ _ _ Hat).
    apply bool_decide_ext. destruct Hp as [[-> ->]|(Hp & -> & [->|(e & He & Hl)])]; [lia| |].
    + rewrite rank_all by lia. lia.
    + pose proof (lookup_lt_Some _ _ _ He).
      pose proof (lookup_lt_Some _ _ _ (lives_lookup_rank _ _ _ He Hl)). lia.
  - intros it s' p' e (s & p & Hat & -> & Hp) Hp0 He. simpl.
    destruct Hp as [[-> ->]|(Hp & -> & [->|(e' & He' & Hl)])]; [lia| |].
    + rewrite rank_all in He by lia. rewrite Nat2Z.id in He. apply lookup_lt_Some in He. lia.
    + rewrite Nat2Z.id, (lives_lookup_rank _ _ _ He' Hl) in He. injection He as <-.
      by eapply At_entry.
  - apply nd_At_next.
  - apply nd_At_prev.
  - intros it s' p' (s & p & Hat & -> & _). simpl. pose proof (At_steps _ _ _ Hat).
    pose proof (length_filter (fun e => live e = true) s). unfold lives. lia.
Defined.

(** [filterDeleted] after a forward seek. *)
Lemma filterDeleted_spec (it : It) s p :
  At it s p → 0 ≤ p →
  ∃ it', filterDeleted it = Ok it' ∧ At it' (lives s) (Z.of_nat (rank s (Z.to_nat p))).
Proof.
  intros Hat Hp. unfold filterDeleted.
  destruct (skip_forward (steps it) it s p Hat Hp) as (it2 & q & -> & Hat2 & Hq & Hd & Hend).
  { pose proof (At_steps _ _ _ Hat). lia. }
  rs. eexists. split; [done|]. eapply nd_At_land; eauto.
Qed.

(** A filtered seek stands at the first live key not below the bound. *)
Lemma filterDeleted_seek (it : It) s k :
  At it s (Z.of_nat (cnt (below k) s)) →
  ∃ it', filterDeleted it = Ok it' ∧ At it' (lives s) (Z.of_nat (cnt (below k) (lives s))).
Proof.
  intros Hat. destruct (filterDeleted_spec it s _ Hat) as (it' & Hf & Hat'); [lia|].
  exists it'. split; [done|]. rewrite Nat2Z.id in Hat'.
  rewrite cnt_lives; [done|exact (At_sorted _ _ _ Hat)|auto with pallas].
Qed.

Lemma filterDeletedBackward_spec (it : It) s :
  At it s (Z.of_nat (length s) - 1) →
  ∃ it', filterDeletedBackward it = Ok it' ∧ At it' (lives s) (Z.of_nat (length (lives s)) - 1).
Proof.
  intros Hat. unfold filterDeletedBackward. pose proof (At_steps _ _ _ Hat).
  destruct (skip_backward (S (steps it)) it s _ Hat) as (it2 & q & -> & Hat2 & Hq & Hd & Hend).
  { lia. } { lia. }
  rs. eexists. split; [done|]. pose proof (At_range _ _ _ Hat2) as Hr2.
  assert (Hrank : rank s (length s) = rank s (Z.to_nat (q + 1))).
  { apply rank_dead; [lia|]. eapply dead_between_eq; [..|exact Hd]; lia. }
  rewrite rank_all in Hrank by lia.
  exists s, q. split; [done|]. split; [done|].
  destruct Hend as [->|(Hq0 & e & He & Hl)].
  - left. split; [done|]. change (rank s (Z.to_nat (-1 + 1))) with 0%nat in Hrank. lia.
  - right. split; [done|]. split; [|eauto].
    replace (Z.to_nat (q + 1)) with (S (Z.to_nat q)) in Hrank by lia.
    rewrite (rank_S _ _ _ He), Hl in Hrank. lia.
Qed.

(** ** Range scans *)

Definition in_range (lo hi : bytes) (e : ent) : bool :=
  bytes_leb lo (e_key e) && bytes_leb (e_key e) hi.

(** The entries a closed range selects, in key order. *)
Definition between (lo hi : bytes) (s : list ent) : list ent :=
  filter (fun e => in_range lo hi e = true) s.

Definition kvs (s : list ent) : list (bytes * bytes) := (fun e => (e_key e, e_val e)) <$> s.

Lemma between_cons lo hi e s :
  between lo hi (e :: s) = if in_range lo hi e then e :: between lo hi s else between lo hi s.
Proof. unfold between. rewrite filter_cons. by destruct (in_range lo hi e). Qed.

Lemma leb_below lo k : bytes_leb lo k = negb (below lo k).
Proof.
  unfold below, bytes_leb, bytes_ltb. rewrite (bytes_compare_antisym k).
  by destruct (bytes_compare lo k).
Qed.

(** Past an entry outside a cut nothing is in the cut. *)
Lemma cnt_head_false P e s : sorted (e :: s) → down P → P (e_key e) = false → cnt P s = 0%nat.
Proof.
  intros Hs HP He. pose proof (cnt_lookup P (e :: s) 0 e Hs HP eq_refl) as Hc.
  simpl in Hc. rewrite He in Hc. destruct (cnt P s); [done|].
  destruct Hc as [_ Hc]. specialize (Hc ltac:(lia)). done.
Qed.

Lemma between_segment lo hi s :
  sorted s → between lo hi s = drop (cnt (below lo) s) (take (cnt (upto hi) s) s).
Proof.
  intros Hs. induction s as [|e s IH]; [done|].
  pose proof (cnt_head_false (below lo) e s Hs (down_below lo)) as Hlo.
  pose proof (cnt_head_false (upto hi) e s Hs (down_upto hi)) as Hhi.
  apply sorted_cons in Hs as [Hs Hf]. specialize (IH Hs).
  rewrite between_cons. unfold in_range. rewrite leb_below.
  change (bytes_leb (e_key e) hi) with (upto hi (e_key e)). simpl cnt.
  destruct (below lo (e_key e)), (upto hi (e_key e)); simpl in *.
  - exact IH.
  - rewrite (Hhi eq_refl) in *. rewrite IH. by rewrite !take_0, !drop_nil.
  - rewrite (Hlo eq_refl) in *. simpl. by rewrite IH.
  - rewrite (Hhi eq_refl) in *. rewrite IH. by rewrite !take_0, !drop_nil.
Qed.

Lemma rg_collect_asc fuel (it : It) s p stop :
  At it s p → 0 ≤ p → (length s - Z.to_nat p ≤ fuel)%nat →
  rg_collect fuel (MkRanged it stop false) =
    Ok (kvs (drop (Z.to_nat p) (take (cnt (upto stop) s) s))).
Proof.
  revert it p. induction fuel as [|fuel IH]; intros it p Hat Hp Hf;
    cbn [rg_collect]; unfold rg_Key, rg_Val, rg_Next, rg_Valid; simpl rg_iter; simpl rg_stop; simpl rg_desc;
    pose proof (At_sorted _ _ _ Hat) as Hs.
  - destruct (Valid it) eqn:Hv; simpl.
    { destruct (At_valid_entry _ _ _ Hat Hv) as (e & He & _). apply lookup_lt_Some in He. lia. }
    rewrite drop_ge; [done|]. rewrite length_take. lia.
  - destruct (Valid it) eqn:Hv; simpl.
    + destruct (At_valid_entry _ _ _ Hat Hv) as (e & He & _ & -> & -> & _). rs.
      pose proof (cnt_lookup (upto stop) s _ e Hs (down_upto stop) He) as Hc.
      apply lookup_lt_Some in He as Hlt. unfold upto in Hc at 1. unfold bytes_leb in Hc.
      destruct (bytes_compare (e_key e) stop) eqn:Ec; cbn [negb check]; rs.
      3: { rewrite drop_ge; [done|]. rewrite length_take.
           destruct (decide (Z.to_nat p < cnt (upto stop) s)%nat) as [Hd|]; [|lia].
           apply Hc in Hd. done. }
      all: destruct (At_next _ _ _ Hat) as (it1 & -> & Hat1); rs.
      all: rewrite (IH it1 _ Hat1) by lia; rs.
      all: pose proof (proj1 Hc eq_refl) as Hin.
      all: rewrite (drop_S (take (cnt (upto stop) s) s) e (Z.to_nat p)) by (by rewrite lookup_take_lt).
      all: replace (Z.to_nat (Z.min (p + 1) (Z.of_nat (length s)))) with (S (Z.to_nat p)) by lia.
      all: done.
    + destruct (At_invalid _ _ _ Hat Hv) as [->|Hend]; [lia|].
      rewrite drop_ge; [done|]. rewrite length_take. lia.
Qed.

Lemma rg_collect_desc fuel (it : It) s p stop :
  At it s p → p < Z.of_nat (length s) → (Z.to_nat (p + 1) ≤ fuel)%nat →
  rg_collect fuel (MkRanged it stop true) =
    Ok (kvs (reverse (drop (cnt (below stop) s) (take (Z.to_nat (p + 1)) s)))).
Proof.
  revert it p. induction fuel as [|fuel IH]; intros it p Hat Hp Hf;
    cbn [rg_collect]; unfold rg_Key, rg_Val, rg_Next, rg_Valid; simpl rg_iter; simpl rg_stop; simpl rg_desc;
    pose proof (At_sorted _ _ _ Hat) as Hs; pose proof (At_range _ _ _ Hat) as Hr.
  - destruct (Valid it) eqn:Hv; simpl.
    { destruct (At_valid_entry _ _ _ Hat Hv) as (e & He & ? & _). lia. }
    replace (Z.to_nat (p + 1)) with 0%nat by lia. by rewrite take_0, drop_nil.
  - destruct (Valid it) eqn:Hv; simpl.
    + destruct (At_valid_entry _ _ _ Hat Hv) as (e & He & Hp0 & -> & -> & _). rs.
      pose proof (cnt_lookup (below stop) s _ e Hs (down_below stop) He) as Hc.
      apply lookup_lt_Some in He as Hlt. unfold below in Hc at 1. unfold bytes_ltb in Hc.
      destruct (bytes_compare (e_key e) stop) eqn:Ec; cbn [negb check]; rs.
      2: { pose proof (proj1 Hc eq_refl). rewrite drop_ge; [done|]. rewrite length_take. lia. }
      all: assert (cnt (below stop) s ≤ Z.to_nat p)%nat as Hin
             by (apply Nat.nlt_ge; intros Hx; by apply Hc in Hx).
      all: destruct (At_prev _ _ _ Hat) as (it1 & -> & Hat1); rs.
      all: rewrite (IH it1 _ Hat1) by lia; rs.
      all: replace (Z.to_nat (p + 1)) with (S (Z.to_nat p)) by lia.
      all: replace (Z.to_nat (Z.max (p - 1) (-1) + 1)) with (Z.to_nat p) by lia.
      all: rewrite (take_S_r _ _ _ He), drop_app_le by (rewrite length_take; lia).
      all: by rewrite reverse_app.
    + destruct (At_invalid _ _ _ Hat Hv) as [->|Hend]; [|lia].
      change (Z.to_nat (-1 + 1)) with 0%nat. by rewrite take_0, drop_nil.
Qed.

(** The ascending scan started by a seek visits the closed range in order. *)
Lemma rg_start_asc (it : It) s start stop fuel :
  At it s (Z.of_nat (cnt (below start) s)) → (length s ≤ fuel)%nat →
  ∃ r, rg_start it start stop false = Ok r ∧ rg_collect fuel r = Ok (kvs (between start stop s)).
Proof.
  intros Hat Hf. unfold rg_start. rs. eexists. split; [done|].
  rewrite (rg_collect_asc _ _ _ _ _ Hat) by lia.
  by rewrite Nat2Z.id, between_segment by exact (At_sorted _ _ _ Hat).
Qed.

(** After a forward seek to [start], the step back of a descending scan lands on
    the last key not above [start]. *)
Lemma step_back (it : It) s start :
  At it s (Z.of_nat (cnt (below start) s)) →
  ∃ back it', (if negb (Valid it) then Ok true else
      k ← Key it; Ok (match bytes_compare k start with Gt => true | _ => false end)) = Ok back ∧
    (if (back : bool) then Prev it else Ok it) = Ok it' ∧ At it' s (Z.of_nat (cnt (upto start) s) - 1).
Proof.
  intros Hat. pose proof (At_sorted _ _ _ Hat) as Hs.
  pose proof (cnt_le (below start) s). pose proof (cnt_below_upto start s Hs) as Hbu.
  destruct (Valid it) eqn:Hv; cbn [negb]; rs.
  - destruct (At_valid_entry _ _ _ Hat Hv) as (e & He & _ & -> & _). rs. rewrite Nat2Z.id in He.
    destruct (bytes_compare_spec (e_key e) start) as [Heq|Hlt|Hgt]; rs.
    + subst start. rewrite (cnt_upto_lookup _ _ _ Hs He). exists false, it. split_and!; [done..|].
      by replace (Z.of_nat (S _) - 1) with (Z.of_nat (cnt (below (e_key e)) s)) by lia.
    + exfalso. apply bytes_ltb_lt in Hlt.
      apply (cnt_lookup (below start) s _ e Hs (down_below _) He) in Hlt. lia.
    + destruct (At_prev _ _ _ Hat) as (it1 & Hp & Hat1). exists true, it1. split_and!; [done..|].
      assert (cnt (upto start) s = cnt (below start) s) as ->.
      { destruct (decide (cnt (below start) s < cnt (upto start) s)%nat) as [Hd|]; [|lia].
        apply (cnt_lookup (upto start) s _ e Hs (down_upto _) He) in Hd.
        unfold upto in Hd. by rewrite bytes_leb_le in Hd. }
      by replace (Z.of_nat (cnt (below start) s) - 1)
        with (Z.max (Z.of_nat (cnt (below start) s) - 1) (-1)) by lia.
  - destruct (At_invalid _ _ _ Hat Hv) as [?|Hend]; [lia|].
    destruct (At_prev _ _ _ Hat) as (it1 & Hp & Hat1). exists true, it1. split_and!; [done..|].
    pose proof (cnt_le (upto start) s).
    by replace (Z.of_nat (cnt (upto start) s) - 1)
      with (Z.max (Z.of_nat (cnt (below start) s) - 1) (-1)) by lia.
Qed.

(** The descending scan visits the same kind of range in reverse order. *)
Lemma rg_start_desc (it : It) s start stop fuel :
  At it s (Z.of_nat (cnt (below start) s)) → (length s ≤ fuel)%nat →
  ∃ r, rg_start it start stop true = Ok r ∧
    rg_collect fuel r = Ok (kvs (reverse (between stop start s))).
Proof.
  intros Hat Hf. destruct (step_back _ _ _ Hat) as (back & it' & Hb & Hp & Hat').
  unfold rg_start. rewrite Hb. rs. rewrite Hp. rs. eexists. split; [done|].
  pose proof (cnt_le (upto start) s).
  rewrite (rg_collect_desc _ _ _ _ _ Hat') by lia.
  rewrite between_segment by exact (At_sorted _ _ _ Hat). do 5 f_equal. lia.
Qed.

(** ** Compaction source without tombstones *)

(** [NoDeletedSortedKV] enumerates the live entries; the entry the inner
    iterator starts on is not tested, so a leading tombstone stays. *)
Definition drop_dead (s : list ent) : list ent :=
  match s with
  | [] => []
  | e :: s => e :: lives s
  end.

Lemma nd_loop_from {St} (body : St → bytes → bytes → bool → res St) fuel (it : It) s p st :
  At it s p → 0 ≤ p → (length s - Z.to_nat p ≤ fuel)%nat →
  iter_loop body fuel (ND it) st =
    foldM (fun st e => body st (e_key e) (e_val e) (e_del e)) st (drop_dead (drop (Z.to_nat p) s)).
Proof.
  revert it p st. induction fuel as [|fuel IH]; intros it p st Hat Hp Hf; cbn [iter_loop Valid nd_KVIter nd_inner].
  - destruct (Valid it) eqn:Hv.
    { destruct (At_valid_entry _ _ _ Hat Hv) as (e & He & _). apply lookup_lt_Some in He. lia. }
    by rewrite drop_ge by lia.
  - destruct (Valid it) eqn:Hv.
    2: { destruct (At_invalid _ _ _ Hat Hv) as [->|Hend]; [lia|]. by rewrite drop_ge by lia. }
    destruct (At_valid_entry _ _ _ Hat Hv) as (e & He & _ & Hk & Hx & Hd).
    cbn [Key Val Deleted Next nd_KVIter nd_inner]. rewrite Hk, Hx, Hd. rs.
    rewrite (drop_S _ _ _ He). cbn [drop_dead foldM].
    destruct (body st (e_key e) (e_val e) (e_del e)) as [st'| | |]; [|done..]. rs.
    unfold nd_Next. cbn [nd_inner]. apply lookup_lt_Some in He as Hlt.
    destruct (At_next _ _ _ Hat) as (it1 & -> & Hat1). rs.
    destruct (skip_forward (steps it1) it1 s _ Hat1) as (it2 & q & -> & Hat2 & Hq & Hdd & Hend);
      [lia|pose proof (At_steps _ _ _ Hat1); lia|]. rs.
    rewrite (IH it2 q st' Hat2) by lia.
    replace (Z.to_nat (Z.min (p + 1) (Z.of_nat (length s)))) with (S (Z.to_nat p)) in Hdd by lia.
    f_equal. rewrite (lives_drop_dead s (S (Z.to_nat p)) (Z.to_nat q)) by (lia || done).
    destruct Hend as [->|(e' & He' & Hl)].
    + by rewrite drop_ge by lia.
    + rewrite (drop_S _ _ _ He'). cbn [drop_dead]. by rewrite lives_cons, Hl.
Qed.

(** The loop of a compaction that drops tombstones. *)
Lemma nd_for_each {St} (body : St → bytes → bytes → bool → res St) (it : It) s st :
  At it s 0 →
  for_each body (ND it) st = foldM (fun st e => body st (e_key e) (e_val e) (e_del e)) st (drop_dead s).
Proof.
  intros Hat. unfold for_each. cbn [steps nd_KVIter nd_inner].
  rewrite (nd_loop_from body _ it s 0); [done|done|lia|]. pose proof (At_steps _ _ _ Hat). lia.
Qed.

Lemma drop_dead_sorted s : sorted s → sorted (drop_dead s).
Proof.
  destruct s as [|e s]; [done|]. intros [Hs Hf]%sorted_cons. apply sorted_cons.
  split; [by apply lives_sorted|]. apply Forall_forall. intros x Hx.
  apply list_elem_of_filter in Hx as [_ Hx]. rewrite Forall_forall in Hf. by apply Hf.
Qed.

Lemma drop_dead_elem s e : e ∈ drop_dead s → e ∈ s.
Proof.
  destruct s as [|e0 s]; [done|]. intros [->|Hx]%elem_of_cons; [by left|].
  apply list_elem_of_filter in Hx as [_ Hx]. by right.
Qed.

Lemma drop_dead_length s : (length (drop_dead s) ≤ length s)%nat.
Proof.
  destruct s as [|e s]; [done|]. cbn. unfold lives.
  pose proof (length_filter (fun e => live e = true) s). lia.
Qed.

(** Dropping tombstones does not change what a reader of the sequence sees. *)
Lemma drop_dead_visible s k : sorted s → visible (assoc (drop_dead s) k) = visible (assoc s k).
Proof.
  destruct s as [|e s]; [done|]. intros [Hs _]%sorted_cons. cbn.
  destruct (bytes_equal (e_key e) k); [done|]. unfold lives. rewrite assoc_filter_live by done.
  destruct (assoc s k) as [x|]; [|done]. cbn. by destruct (e_del x) eqn:E; cbn; rewrite ?E.
Qed.

End laws.
