(* ===== verification/Log.v ===== *)
(** * The write-ahead log: db/log.go

    The log file with its header ([epoch], the durable floor on sequence
    numbers), the write cursors, commit, replay and in-place truncation, over
    the file model of [File] (durable contents plus pending operations), so
    that a crash at any point is a statement about [crash]. *)

From Stdlib Require Import ZArith Lia.
From Stdlib.Strings Require Import Byte.
From stdpp Require Import base list numbers.
From S2P Require Import Prelude GoLib File Entry.

Open Scope Z_scope.

Definition logHeaderSize : nat := 20.
Definition logMagic : bytes := bs "PDBWAL1" ++ [x0a].

(** [type Log struct]; a nil [fp] is [None]. *)
Record Log := MkLog {
  l_fp : option file;
  l_reader : nat;
  l_epoch : Z;
  l_seq : Z;
  l_offset : nat;
  l_committed : nat;
}.

Definition set_fp (log : Log) (fp : option file) : Log :=
  MkLog fp (l_reader log) (l_epoch log) (l_seq log) (l_offset log) (l_committed log).

Definition header_bytes (epoch : Z) : bytes :=
  let buf := logMagic ++ le_bytes 8 epoch in
  buf ++ le_bytes 4 (ChecksumIEEE buf).

(** Calls on a nil file panic. *)
Definition with_fp {A} (log : Log) (f : file → Log * res A) : Log * res A :=
  match l_fp log with
  | Some fp => f fp
  | None => (log, Panic "nil pointer dereference")
  end.

(** [writeHeader]: [WriteAt], [Sync], then the field. *)
Definition writeHeader (log : Log) (epoch : Z) : Log * res unit :=
  with_fp log (fun fp =>
    (MkLog (Some (f_sync (f_write fp 0 (header_bytes epoch))))
       (l_reader log) epoch (l_seq log) (l_offset log) (l_committed log), Ok tt)).

Definition openHeader (log : Log) : Log * res unit :=
  with_fp log (fun fp =>
    let buf := take logHeaderSize (f_view fp) in
    if (length buf <? logHeaderSize)%nat then writeHeader log 0
    else if negb (bytes_equal (take 8 buf) logMagic) then (log, Err ErrLogHeaderCorrupt)
    else if negb (le_val (drop 16 buf) =? ChecksumIEEE (take 16 buf))
    then (log, Err ErrLogHeaderCorrupt)
    else (MkLog (l_fp log) (l_reader log) (le_val (take 8 (drop 8 buf)))
            (l_seq log) (l_offset log) (l_committed log), Ok tt)).

(** [Open] on a file whose durable contents are [content]; the zero [Log]
    otherwise. *)
Definition log_Open (content : bytes) : Log * res unit :=
  let log := MkLog (Some (f_open content)) 0 0 0 0 0 in
  match openHeader log with
  | (log, Ok _) =>
      (MkLog (l_fp log) logHeaderSize (l_epoch log) (l_epoch log) logHeaderSize logHeaderSize, Ok tt)
  | (log, r) => (set_fp log None, r)
  end.

Definition log_Close (log : Log) : Log := set_fp log None.

(** [Write] assigns the next sequence number. *)
Definition log_Write (log : Log) (ent : Entry) : Log * res unit :=
  let ent := MkEntry (en_key ent) (en_val ent) (u64 (l_seq log + 1)) (en_op ent) in
  match Encode ent with
  | Ok data =>
      with_fp log (fun fp =>
        (MkLog (Some (f_write fp (l_offset log) data)) (l_reader log) (l_epoch log)
           (en_seq ent) (l_offset log + length data) (l_committed log), Ok tt))
  | Err e => (log, Err e)
  | Panic s => (log, Panic s)
  | OutOfFuel => (log, OutOfFuel)
  end.

Definition log_Commit (log : Log) : Log * res unit :=
  match log_Write log (MkEntry [] [] 0 EntryCommit) with
  | (log, Ok _) =>
      with_fp log (fun fp =>
        (MkLog (Some (f_sync fp)) (l_reader log) (l_epoch log) (l_seq log)
           (l_offset log) (l_offset log), Ok tt))
  | (log, r) => (log, r)
  end.

(** [ResetTX] rewinds the cursor and not the sequence number. *)
Definition ResetTX (log : Log) : Log :=
  MkLog (l_fp log) (l_reader log) (l_epoch log) (l_seq log) (l_committed log) (l_committed log).

Definition endReplay (log : Log) : Log * res unit :=
  with_fp log (fun fp =>
    if (length (f_view fp) =? l_committed log)%nat then (log, Ok tt)
    else (set_fp log (Some (f_sync (f_truncate fp (l_committed log)))), Ok tt)).

(** [Read]: [Ok None] is [eof]. *)
Definition log_Read (log : Log) : Log * res (option Entry) :=
  with_fp log (fun fp =>
    let '(rd, r) := Decode (MkReader (f_view fp) (l_reader log)) in
    let log := MkLog (l_fp log) (rd_offset rd) (l_epoch log) (l_seq log) (l_offset log) (l_committed log) in
    match r with
    | Err e =>
        if ends_log e then
          let '(log, r) := endReplay log in (log, _ ← r; Ok None)
        else (log, Err e)
    | Panic s => (log, Panic s)
    | OutOfFuel => (log, OutOfFuel)
    | Ok ent =>
        if en_seq ent <=? l_seq log then
          let '(log, r) := endReplay log in (log, _ ← r; Ok None)
        else
          let log := MkLog (l_fp log) (l_reader log) (l_epoch log) (en_seq ent) (l_offset log) (l_committed log) in
          let log := if bool_decide (en_op ent = EntryCommit)
            then MkLog (l_fp log) (l_reader log) (l_epoch log) (l_seq log) (l_reader log) (l_reader log)
            else log in
          (log, Ok (Some ent))
    end).

Definition log_Truncate (log : Log) : Log * res unit :=
  match writeHeader log (l_seq log) with
  | (log, Ok _) =>
      let log := MkLog (l_fp log) (l_reader log) (l_epoch log) (l_seq log) logHeaderSize logHeaderSize in
      with_fp log (fun fp => (set_fp log (Some (f_sync (f_truncate fp logHeaderSize))), Ok tt))
  | (log, r) => (log, r)
  end.

(** The replay loop of [(kv *KV) openLog] (db/kv.go): the entries read so far
    and how many of them are covered by a commit record. *)
Fixpoint replay_loop (fuel : nat) (log : Log) (entries : list Entry) (committed : nat)
    : Log * res (list Entry) :=
  match fuel with
  | O => (log, OutOfFuel)
  | S fuel =>
      match log_Read log with
      | (log, Ok None) => (log, Ok (take committed entries))
      | (log, Ok (Some ent)) =>
          if bool_decide (en_op ent = EntryAdd ∨ en_op ent = EntryDel)
          then replay_loop fuel log (entries ++ [ent]) committed
          else if bool_decide (en_op ent = EntryCommit)
          then replay_loop fuel log entries (length entries)
          else (log, Err (errorsNew "invalid log entry op"))
      | (log, Err e) => (log, Err e)
      | (log, Panic s) => (log, Panic s)
      | (log, OutOfFuel) => (log, OutOfFuel)
      end
  end.

(** Opening a log and replaying it: the committed entries, in order.  A record
    is at least 21 bytes long, so the file length is enough fuel. *)
Definition replay (content : bytes) : Log * res (list Entry) :=
  match log_Open content with
  | (log, Ok _) => replay_loop (S (length content)) log [] 0
  | (log, Err e) => (log, Err e)
  | (log, Panic s) => (log, Panic s)
  | (log, OutOfFuel) => (log, OutOfFuel)
  end.
