(* ===== verification/LogProofs.v ===== *)
(** * Recovery of the write-ahead log

    What a replay returns for every file the log's operations and a crash can
    leave behind: the committed entries and nothing else. *)

From Stdlib Require Import ZArith Lia.
From Stdlib.Strings Require Import Byte.
From stdpp Require Import base list numbers.
From S2P Require Import Prelude GoLib File Entry Log.

Open Scope Z_scope.

(** ** Record sequences *)

Definition records (es : list Entry) : bytes := mjoin (entry_bytes <$> es).

(** Sequence numbers rise strictly above [s]. *)
Fixpoint increasing (s : Z) (es : list Entry) : Prop :=
  match es with
  | [] => True
  | e :: es => s < en_seq e ∧ increasing (en_seq e) es
  end.

Definition last_seq (s : Z) (es : list Entry) : Z := foldl (fun _ e => en_seq e) s es.

Definition is_commit (e : Entry) : bool := bool_decide (en_op e = EntryCommit).

(** The updates among the records. *)
Definition updates_of (es : list Entry) : list Entry := filter (fun e => is_commit e = false) es.

(** Nothing after the last commit record. *)
Definition closed (es : list Entry) : Prop :=
  match last es with None => True | Some e => is_commit e = true end.

(** Bytes that a replay which accepted [s] last does not read as a record. *)
Definition dead (s : Z) (tail : bytes) : Prop :=
  match snd (Decode (MkReader tail 0)) with
  | Ok e => en_seq e ≤ s
  | Err e => ends_log e = true
  | _ => False
  end.

Lemma records_app es1 es2 : records (es1 ++ es2) = records es1 ++ records es2.
Proof. unfold records. by rewrite fmap_app, join_app. Qed.

Lemma records_cons e es : records (e :: es) = entry_bytes e ++ records es.
Proof. done. Qed.

Lemma records_one e : records [e] = entry_bytes e.
Proof. rewrite records_cons. apply app_nil_r. Qed.

Lemma increasing_app s es1 es2 :
  increasing s (es1 ++ es2) ↔ increasing s es1 ∧ increasing (last_seq s es1) es2.
Proof.
  revert s. induction es1 as [|e es1 IH]; intros s; simpl; [tauto|]. rewrite IH. tauto.
Qed.

Lemma last_seq_app s es1 es2 : last_seq s (es1 ++ es2) = last_seq (last_seq s es1) es2.
Proof. apply foldl_app. Qed.

Lemma last_seq_ge s es : increasing s es → s ≤ last_seq s es.
Proof.
  revert s. induction es as [|e es IH]; intros s; simpl; [lia|].
  intros [Hs Hi]. specialize (IH _ Hi). lia.
Qed.

Lemma updates_of_app es1 es2 : updates_of (es1 ++ es2) = updates_of es1 ++ updates_of es2.
Proof. apply filter_app. Qed.

Lemma updates_of_commit e : is_commit e = true → updates_of [e] = [].
Proof. intros He. unfold updates_of. rewrite filter_cons. by rewrite He. Qed.

Lemma entry_bytes_ne e : entry_bytes e ≠ [].
Proof. intros H. pose proof (entry_bytes_length e). rewrite H in *. simpl in *. lia. Qed.

Lemma records_length es : (length es ≤ length (records es))%nat.
Proof.
  induction es as [|e es IH]; [done|]. rewrite records_cons, length_app, entry_bytes_length.
  simpl. lia.
Qed.

(** The decoder reads at its offset and nowhere before. *)
Lemma ReadFull_shift pre x o n :
  snd (ReadFull (MkReader (pre ++ x) (length pre + o)) n) = snd (ReadFull (MkReader x o) n) ∧
  rd_offset (fst (ReadFull (MkReader (pre ++ x) (length pre + o)) n)) =
    (length pre + rd_offset (fst (ReadFull (MkReader x o) n)))%nat ∧
  rd_inner (fst (ReadFull (MkReader (pre ++ x) (length pre + o)) n)) = pre ++ x.
Proof.
  unfold ReadFull. simpl. rewrite drop_app_ge by lia.
  replace (length pre + o - length pre)%nat with o by lia. split_and!; [done|lia|done].
Qed.

Lemma Decode_shift pre x :
  snd (Decode (MkReader (pre ++ x) (length pre))) = snd (Decode (MkReader x 0)).
Proof.
  replace (length pre) with (length pre + 0)%nat by lia. unfold Decode.
  pose proof (ReadFull_shift pre x 0 entryHeaderSize) as (H1 & H2 & H3).
  destruct (ReadFull (MkReader (pre ++ x) _) entryHeaderSize) as [[inn off] r1].
  assert (rd_inner (fst (ReadFull (MkReader x 0) entryHeaderSize)) = x) as Hin by done.
  destruct (ReadFull (MkReader x 0) entryHeaderSize) as [[inn' off'] r2].
  cbn [fst snd rd_inner rd_offset] in *. subst. destruct r2 as [h| | |]; try done.
  destruct (MaxEntrySize <? _); [done|]. destruct (h !! 20%nat); [|done].
  match goal with |- context [ReadFull (MkReader x off') ?n] =>
    pose proof (ReadFull_shift pre x off' n) as (H4 & _);
    destruct (ReadFull (MkReader (pre ++ x) (length pre + off')) n) as [? r3];
    destruct (ReadFull (MkReader x off') n) as [? r4] end.
  cbn [fst snd] in H4. subst. destruct r4; try done. repeat case_if; done.
Qed.

Lemma dead_nil s : dead s [].
Proof. unfold dead. vm_compute. done. Qed.

Lemma dead_prefix s e n : entry_ok e → (n < length (entry_bytes e))%nat → dead s (take n (entry_bytes e)).
Proof.
  intros Hok Hn. unfold dead. destruct (Decode_prefix e [] n Hok Hn) as (r & err & Hd & He).
  cbn [app length] in Hd. by rewrite Hd.
Qed.

(** A record that is not newer than the floor is not read either. *)
Lemma dead_stale s e tail : entry_ok e → en_seq e ≤ s → dead s (entry_bytes e ++ tail).
Proof.
  intros Hok Hs. unfold dead. pose proof (Decode_Encode e [] tail Hok) as Hd.
  cbn [app length] in Hd. by rewrite Hd.
Qed.

(** ** The header *)

Lemma header_length ep : length (header_bytes ep) = 20%nat.
Proof. unfold header_bytes. by rewrite !length_app, !le_bytes_length. Qed.

Lemma header_fields ep :
  take 8 (header_bytes ep) = logMagic ∧
  take 16 (header_bytes ep) = logMagic ++ le_bytes 8 ep ∧
  take 8 (drop 8 (header_bytes ep)) = le_bytes 8 ep ∧
  drop 16 (header_bytes ep) = le_bytes 4 (ChecksumIEEE (logMagic ++ le_bytes 8 ep)).
Proof.
  unfold header_bytes. set (buf := logMagic ++ le_bytes 8 ep).
  pose proof (le_bytes_length 8 ep) as Hle.
  assert (length buf = 16%nat) as Hb by (unfold buf; by rewrite length_app, le_bytes_length).
  generalize (le_bytes 4 (ChecksumIEEE buf)) as k. intros k.
  split_and!.
  - rewrite take_app_le by lia. by apply take_app_length'.
  - apply take_app_length'. lia.
  - rewrite drop_app_le by lia. unfold buf. rewrite (drop_app_length' logMagic) by done.
    by apply take_app_length'.
  - apply drop_app_length'. lia.
Qed.

Lemma openHeader_header ep rest rd e0 s0 o c :
  0 ≤ ep < 2 ^ 64 →
  openHeader (MkLog (Some (f_open (header_bytes ep ++ rest))) rd e0 s0 o c) =
    (MkLog (Some (f_open (header_bytes ep ++ rest))) rd ep s0 o c, Ok tt).
Proof.
  intros Hep. unfold openHeader, with_fp. cbn [l_fp]. rewrite f_view_open.
  pose proof (header_length ep) as Hl.
  rewrite (take_app_length' (header_bytes ep)) by done. rewrite Hl. cbn [Nat.ltb Nat.leb logHeaderSize].
  cbn [l_fp l_reader l_epoch l_seq l_offset l_committed].
  destruct (header_fields ep) as (-> & -> & -> & ->). rewrite bytes_equal_refl. cbn [negb].
  rewrite le_val_bytes. change (256 ^ Z.of_nat 4) with (2 ^ 32).
  rewrite Z.mod_small, Z.eqb_refl by apply ChecksumIEEE_range. cbn [negb].
  rewrite le_val_bytes. change (256 ^ Z.of_nat 8) with (2 ^ 64). by rewrite Z.mod_small by done.
Qed.

(** An absent or interrupted header is replaced by a fresh one. *)
Lemma log_Open_short content :
  (length content < 20)%nat →
  log_Open content = (MkLog (Some (f_open (header_bytes 0))) 20 0 0 20 20, Ok tt).
Proof.
  intros Hl. unfold log_Open, openHeader, with_fp. cbn [l_fp]. rewrite f_view_open.
  rewrite length_take. destruct (Nat.ltb_spec (logHeaderSize `min` length content) logHeaderSize) as [_|H];
    [|unfold logHeaderSize in H; lia].
  unfold writeHeader, with_fp. cbn [l_fp].
  assert (f_sync (f_write (f_open content) 0 (header_bytes 0)) = f_open (header_bytes 0)) as ->; [|done].
  unfold f_sync. rewrite f_view_write, f_view_open. unfold f_open. f_equal.
  pose proof (write_at_app [] content (header_bytes 0)) as H. cbn [app length] in H. rewrite H.
  by rewrite drop_ge, app_nil_r by (rewrite header_length; lia).
Qed.

#[global] Opaque header_bytes.

(** ** The replay loop *)

(** The loop state a run over records reaches: reader position, committed
    offset, entries, how many of them are committed. *)
Record rstate := RState { rs_pos : nat; rs_com : nat; rs_ents : list Entry; rs_n : nat }.

Definition radv (st : rstate) (e : Entry) : rstate :=
  let pos := (rs_pos st + length (entry_bytes e))%nat in
  if is_commit e then RState pos pos (rs_ents st) (length (rs_ents st))
  else RState pos (rs_com st) (rs_ents st ++ [e]) (rs_n st).

Definition rlog (content : bytes) (ep s : Z) (st : rstate) : Log :=
  MkLog (Some (f_open content)) (rs_pos st) ep s (rs_com st) (rs_com st).

Lemma replay_loop_step fuel content ep s st e pre rest :
  content = pre ++ entry_bytes e ++ rest → rs_pos st = length pre →
  entry_ok e → s < en_seq e →
  replay_loop (S fuel) (rlog content ep s st) (rs_ents st) (rs_n st) =
    replay_loop fuel (rlog content ep (en_seq e) (radv st e)) (rs_ents (radv st e)) (rs_n (radv st e)).
Proof.
  intros -> Hpos Hok Hs. cbn [replay_loop]. unfold log_Read, with_fp, rlog.
  cbn [l_fp l_reader l_epoch l_seq l_offset l_committed]. rewrite f_view_open, Hpos; rewrite Decode_Encode by done.
  cbn [l_fp l_reader l_epoch l_seq l_offset l_committed rd_offset].
  destruct (Z.leb_spec (en_seq e) s); [lia|]. unfold radv, is_commit. rewrite Hpos.
  destruct Hok as (_ & _ & Hop).
  destruct (bool_decide_reflect (en_op e = EntryCommit)) as [Hc|Hc].
  - rewrite bool_decide_false by (rewrite Hc; by intros [|]). done.
  - rewrite bool_decide_true by tauto. done.
Qed.

Lemma replay_loop_run es : ∀ fuel content ep s st pre rest,
  content = pre ++ records es ++ rest → rs_pos st = length pre →
  Forall entry_ok es → increasing s es →
  replay_loop (length es + fuel) (rlog content ep s st) (rs_ents st) (rs_n st) =
    let st' := foldl radv st es in
    replay_loop fuel (rlog content ep (last_seq s es) st') (rs_ents st') (rs_n st').
Proof.
  induction es as [|e es IH]; intros fuel content ep s st pre rest Hc Hpos Hok Hi; [done|].
  inversion Hok; subst. destruct Hi as [Hs Hi]. cbn [length Nat.add foldl last_seq].
  rewrite records_cons, <- (assoc_L (++)).
  rewrite (replay_loop_step _ _ _ _ _ e pre (records es ++ rest)) by done.
  rewrite (IH fuel _ _ _ _ (pre ++ entry_bytes e) rest); [done| | |done|done].
  - by rewrite <- (assoc_L (++)).
  - unfold radv. rewrite length_app, <- Hpos. by destruct (is_commit e).
Qed.

Lemma replay_loop_end fuel content ep s st pre tail :
  content = pre ++ tail → rs_pos st = length pre → (rs_com st ≤ length content)%nat → dead s tail →
  ∃ rd, replay_loop (S fuel) (rlog content ep s st) (rs_ents st) (rs_n st) =
    (MkLog (Some (f_open (take (rs_com st) content))) rd ep s (rs_com st) (rs_com st),
     Ok (take (rs_n st) (rs_ents st))).
Proof.
  intros -> Hpos Hcom Hd. cbn [replay_loop]. unfold log_Read, with_fp, rlog.
  cbn [l_fp l_reader l_epoch l_seq l_offset l_committed]. rewrite f_view_open, Hpos.
  unfold dead in Hd. rewrite <- (Decode_shift pre) in Hd.
  destruct (Decode (MkReader (pre ++ tail) (length pre))) as [rd r]. cbn [snd] in Hd.
  assert (∀ rdo, endReplay (MkLog (Some (f_open (pre ++ tail))) rdo ep s (rs_com st) (rs_com st)) =
    (MkLog (Some (f_open (take (rs_com st) (pre ++ tail)))) rdo ep s (rs_com st) (rs_com st), Ok tt)) as He.
  { intros rdo. unfold endReplay, with_fp. cbn [l_fp l_committed]. rewrite f_view_open.
    destruct (Nat.eqb_spec (length (pre ++ tail)) (rs_com st)) as [Heq|Hne].
    - by rewrite take_ge by lia.
    - unfold set_fp, f_sync. rewrite f_view_truncate, f_view_open. unfold truncate.
      replace (rs_com st - length (pre ++ tail))%nat with 0%nat by lia. by rewrite app_nil_r. }
  exists (rd_offset rd). destruct r as [e|e| |]; try done.
  - destruct (Z.leb_spec (en_seq e) s); [|lia]. cbn [l_fp l_epoch l_seq l_offset l_committed].
    by rewrite He.
  - rewrite Hd. cbn [l_fp l_epoch l_seq l_offset l_committed]. by rewrite He.
Qed.

(** The state after committed records [ec] and uncommitted records [ep]. *)
Lemma radv_uncommitted st es :
  Forall (fun e => is_commit e = false) es →
  foldl radv st es =
    RState (rs_pos st + length (records es)) (rs_com st) (rs_ents st ++ es) (rs_n st).
Proof.
  revert st. induction es as [|e es IH]; intros st Hf.
  - destruct st. cbn. by rewrite Nat.add_0_r, app_nil_r.
  - inversion Hf as [|? ? He Hf']; subst. cbn [foldl]. rewrite IH by done. unfold radv. rewrite He.
    cbn [rs_pos rs_com rs_ents rs_n]. rewrite records_cons, length_app, <- (assoc_L (++)). f_equal. lia.
Qed.

Lemma radv_pos_ents st es :
  rs_pos (foldl radv st es) = (rs_pos st + length (records es))%nat ∧
  rs_ents (foldl radv st es) = rs_ents st ++ updates_of es.
Proof.
  revert st. induction es as [|e es IH]; intros st.
  - cbn. by rewrite Nat.add_0_r, app_nil_r.
  - cbn [foldl]. destruct (IH (radv st e)) as [-> ->]. rewrite records_cons, length_app.
    unfold radv, updates_of. rewrite filter_cons.
    destruct (is_commit e); cbn [rs_pos rs_ents]; [split; [lia|done]|].
    rewrite decide_True by done. by rewrite <- (assoc_L (++)); split; [lia|].
Qed.

Lemma radv_closed st es :
  closed es → es ≠ [] →
  foldl radv st es =
    let pos := (rs_pos st + length (records es))%nat in
    RState pos pos (rs_ents st ++ updates_of es) (length (rs_ents st ++ updates_of es)).
Proof.
  intros Hc Hne. destruct es as [|e es _] using rev_ind; [done|].
  unfold closed in Hc. rewrite last_snoc in Hc. rewrite foldl_app. cbn [foldl].
  destruct (radv_pos_ents st es) as [Hp He].
  revert Hp He. generalize (foldl radv st es) as st1. intros st1 Hp He. unfold radv. rewrite Hc, Hp, He.
  rewrite records_app, updates_of_app, (updates_of_commit e Hc), !app_nil_r.
  rewrite !length_app, records_one. f_equal; lia.
Qed.

Lemma radv_final ec eu :
  closed ec → Forall (fun e => is_commit e = false) eu →
  let st := foldl radv (RState 20 20 [] 0) (ec ++ eu) in
  rs_pos st = (20 + length (records (ec ++ eu)))%nat ∧ rs_com st = (20 + length (records ec))%nat ∧
  take (rs_n st) (rs_ents st) = updates_of ec.
Proof.
  intros Hc Hu st. split; [exact (proj1 (radv_pos_ents (RState 20 20 [] 0) (ec ++ eu)))|].
  unfold st. rewrite foldl_app, radv_uncommitted by exact Hu. cbn [rs_com rs_n rs_ents].
  destruct ec as [|e ec]; [split; reflexivity|].
  rewrite radv_closed; [|exact Hc|discriminate]. cbn [rs_com rs_n rs_ents rs_pos app]. split; [reflexivity|].
  apply take_app_length.
Qed.

(** ** What a replay returns *)

Definition log_content (ep : Z) (ec : list Entry) : bytes := header_bytes ep ++ records ec.

Lemma log_content_length ep ec : length (log_content ep ec) = (20 + length (records ec))%nat.
Proof. unfold log_content. by rewrite length_app, header_length. Qed.

Lemma log_content_app ep ec es : log_content ep (ec ++ es) = log_content ep ec ++ records es.
Proof. unfold log_content. by rewrite records_app, (assoc_L (++)). Qed.

(** A twenty byte header that [openHeader] accepts with floor [ep]. *)
Definition header_of (h : bytes) (ep : Z) : Prop :=
  length h = 20%nat ∧ ∀ rest rd e0 s0 o c,
    openHeader (MkLog (Some (f_open (h ++ rest))) rd e0 s0 o c) =
      (MkLog (Some (f_open (h ++ rest))) rd ep s0 o c, Ok tt).

Lemma header_bytes_of ep : 0 ≤ ep < 2 ^ 64 → header_of (header_bytes ep) ep.
Proof. intros Hep. split; [apply header_length|]. intros. by apply openHeader_header. Qed.

(** The committed records [ec], uncommitted records [eu] and bytes that are no
    record: the updates of [ec] come back, and the log is cut at the last
    commit. *)
Lemma replay_from h ep ec eu tail :
  header_of h ep → closed ec → Forall (fun e => is_commit e = false) eu →
  Forall entry_ok (ec ++ eu) → increasing ep (ec ++ eu) → dead (last_seq ep (ec ++ eu)) tail →
  ∃ rd, replay ((h ++ records ec) ++ records eu ++ tail) =
    (MkLog (Some (f_open ((h ++ records ec)))) rd ep (last_seq ep (ec ++ eu))
       (length ((h ++ records ec))) (length ((h ++ records ec))), Ok (updates_of ec)).
Proof.
  intros [Hhl Hh] Hcl Hu Hok Hi Hd. set (content := (h ++ records ec) ++ records eu ++ tail).
  unfold replay, log_Open.
  assert (content = h ++ records (ec ++ eu) ++ tail) as Hsplit.
  { unfold content. by rewrite records_app, <- !(assoc_L (++)). }
  assert (openHeader (MkLog (Some (f_open content)) 0 0 0 0 0) =
    (MkLog (Some (f_open content)) 0 ep 0 0 0, Ok tt)) as ->.
  { rewrite Hsplit. by apply Hh. }
  cbn [l_fp l_epoch]. set (st0 := RState 20 20 [] 0).
  assert (∀ n, replay_loop n (MkLog (Some (f_open content)) logHeaderSize ep ep logHeaderSize logHeaderSize) [] 0
    = replay_loop n (rlog content ep ep st0) (rs_ents st0) (rs_n st0)) as -> by done.
  assert (length (ec ++ eu) ≤ length content)%nat as Hlen.
  { rewrite Hsplit, !length_app. pose proof (records_length (ec ++ eu)). rewrite length_app in *. lia. }
  replace (S (length content)) with (length (ec ++ eu) + S (length content - length (ec ++ eu)))%nat by lia.
  rewrite (replay_loop_run (ec ++ eu) _ _ _ _ _ (h) tail)
    by done.
  cbn zeta. set (st := foldl radv st0 (ec ++ eu)).
  assert (rs_pos st = (20 + length (records (ec ++ eu)))%nat ∧
          rs_com st = length ((h ++ records ec)) ∧
          take (rs_n st) (rs_ents st) = updates_of ec) as (Hp & Hc & He).
  { rewrite length_app, Hhl. by apply radv_final. }
  rewrite <- Hc, <- He.
  destruct (replay_loop_end (length content - length (ec ++ eu)) content ep (last_seq ep (ec ++ eu)) st
    (h ++ records (ec ++ eu)) tail) as (rd & Hr).
  - by rewrite Hsplit, (assoc_L (++)).
  - by rewrite length_app, Hhl.
  - rewrite Hc. unfold content. rewrite (length_app (h ++ records ec)). lia.
  - done.
  - exists rd. rewrite Hr. do 4 f_equal. rewrite Hc. unfold content. by rewrite take_app_length.
Qed.

Lemma replay_spec ep ec eu tail :
  0 ≤ ep < 2 ^ 64 → closed ec → Forall (fun e => is_commit e = false) eu →
  Forall entry_ok (ec ++ eu) → increasing ep (ec ++ eu) → dead (last_seq ep (ec ++ eu)) tail →
  ∃ rd, replay (log_content ep ec ++ records eu ++ tail) =
    (MkLog (Some (f_open (log_content ep ec))) rd ep (last_seq ep (ec ++ eu))
       (length (log_content ep ec)) (length (log_content ep ec)), Ok (updates_of ec)).
Proof. intros Hep. apply replay_from. by apply header_bytes_of. Qed.

(** ** The log between operations *)

(** The pending writes of records [es] from offset [off] on. *)
Fixpoint rec_writes (off : nat) (es : list Entry) : list fop :=
  match es with
  | [] => []
  | e :: es => FWrite off (entry_bytes e) :: rec_writes (off + length (entry_bytes e)) es
  end.

(** Committed records [ec] are durable, uncommitted records [eu] are pending,
    and nothing else is in the file. *)
Record log_ok (log : Log) (ec eu : list Entry) : Prop := {
  lo_fp : l_fp log = Some (MkFile (log_content (l_epoch log) ec)
            (rec_writes (length (log_content (l_epoch log) ec)) eu));
  lo_committed : l_committed log = length (log_content (l_epoch log) ec);
  lo_offset : l_offset log = (length (log_content (l_epoch log) ec) + length (records eu))%nat;
  lo_epoch : 0 ≤ l_epoch log < 2 ^ 64;
  lo_closed : closed ec;
  lo_open : Forall (fun e => is_commit e = false) eu;
  lo_entries : Forall entry_ok (ec ++ eu);
  lo_increasing : increasing (l_epoch log) (ec ++ eu);
  lo_seq : last_seq (l_epoch log) (ec ++ eu) ≤ l_seq log < 2 ^ 64;
}.

Lemma rec_writes_app off es1 es2 :
  rec_writes off (es1 ++ es2) = rec_writes off es1 ++ rec_writes (off + length (records es1)) es2.
Proof.
  revert off. induction es1 as [|e es1 IH]; intros off; cbn [app rec_writes].
  - by rewrite Nat.add_0_r.
  - rewrite IH, records_cons, length_app. do 3 f_equal. lia.
Qed.

(** Applying the writes appends the records. *)
Lemma rec_writes_apply c es :
  foldl apply_op c (rec_writes (length c) es) = c ++ records es.
Proof.
  revert c. induction es as [|e es IH]; intros c; cbn [rec_writes foldl apply_op].
  - by rewrite app_nil_r.
  - pose proof (write_at_app c [] (entry_bytes e)) as Hw. rewrite app_nil_r, drop_nil, app_nil_r in Hw.
    rewrite Hw, <- length_app, IH, records_cons, (assoc_L (++)). done.
Qed.

Lemma rec_writes_split off es l1 l2 :
  rec_writes off es = l1 ++ l2 →
  ∃ es1 es2, es = es1 ++ es2 ∧ l1 = rec_writes off es1 ∧ l2 = rec_writes (off + length (records es1)) es2.
Proof.
  revert off l1. induction es as [|e es IH]; intros off l1 H; cbn [rec_writes] in H.
  - symmetry in H. apply app_eq_nil in H as [-> ->]. by exists [], [].
  - destruct l1 as [|o l1]; cbn [app] in H.
    + exists [], (e :: es). rewrite <- H, Nat.add_0_r. done.
    + injection H as <- H. apply IH in H as (es1 & es2 & -> & -> & ->).
      exists (e :: es1), es2. split_and!; [done|done|]. f_equal. rewrite records_cons, length_app. lia.
Qed.

(** A crash keeps a prefix of the pending records and perhaps a piece of the
    next one. *)
Lemma crash_records c es c' :
  crash (MkFile c (rec_writes (length c) es)) c' →
  ∃ es1 es2 part, es = es1 ++ es2 ∧ c' = c ++ records es1 ++ part ∧
    (part = [] ∨ ∃ e es3 n, es2 = e :: es3 ∧ part = take n (entry_bytes e) ∧ (n < length (entry_bytes e))%nat).
Proof.
  intros Hc. inversion Hc as [l1 l2 Hp|l1 o o' l2 Hp Ht]; subst; cbn [f_synced f_pending] in *.
  - apply rec_writes_split in Hp as (es1 & es2 & -> & -> & _).
    exists es1, es2, []. rewrite rec_writes_apply, app_nil_r. auto.
  - apply rec_writes_split in Hp as (es1 & es2 & -> & -> & H2).
    destruct es2 as [|e es3]; [done|]. cbn [rec_writes] in H2. injection H2 as -> ->.
    rewrite rec_writes_apply.
    assert (∀ d, write_at (c ++ records es1) (length c + length (records es1)) d = (c ++ records es1) ++ d) as Hw.
    { intros d. rewrite <- length_app. pose proof (write_at_app (c ++ records es1) [] d) as H.
      by rewrite app_nil_r, drop_nil, app_nil_r in H. }
    assert (∃ n, apply_op (c ++ records es1) o' = (c ++ records es1) ++ take n (entry_bytes e)) as [n ->].
    { inversion Ht; subst; cbn [apply_op]; rewrite Hw; [|by eauto].
      exists (length (entry_bytes e)). by rewrite take_ge. }
    destruct (decide (n < length (entry_bytes e))%nat).
    + exists es1, (e :: es3), (take n (entry_bytes e)). rewrite <- (assoc_L (++)).
      split_and!; [done|done|]. right. eauto 10.
    + exists (es1 ++ [e]), es3, []. rewrite <- (assoc_L (++)). split_and!; [done| |by left].
      rewrite take_ge, records_app, records_one, app_nil_r, (assoc_L (++)) by lia. done.
Qed.

Lemma part_dead s es2 part :
  Forall entry_ok es2 →
  (part = [] ∨ ∃ e es3 n, es2 = e :: es3 ∧ part = take n (entry_bytes e) ∧ (n < length (entry_bytes e))%nat) →
  dead s part.
Proof.
  intros Hok [->|(e & es3 & n & -> & -> & Hn)]; [apply dead_nil|].
  inversion Hok; subst. by apply dead_prefix.
Qed.

(** The entry as [Write] stamps it. *)
Definition stamp (log : Log) (e : Entry) : Entry :=
  MkEntry (en_key e) (en_val e) (l_seq log + 1) (en_op e).

Lemma log_Write_fits log e :
  Z.of_nat (length (en_key e) + length (en_val e)) ≤ MaxEntrySize → 0 ≤ l_seq log < 2 ^ 64 - 1 →
  Encode (MkEntry (en_key e) (en_val e) (u64 (l_seq log + 1)) (en_op e)) = Ok (entry_bytes (stamp log e)).
Proof.
  intros Hs Hq. unfold Encode, stamp. cbn [en_key en_val]. unfold u64. rewrite Z.mod_small by lia.
  destruct (Z.ltb_spec MaxEntrySize (Z.of_nat (length (en_key e) + length (en_val e)))); [lia|done].
Qed.

Section log_ok.
Context (log : Log) (ec eu : list Entry).
Hypothesis Hok : log_ok log ec eu.

Lemma lo_seq_nonneg : 0 ≤ l_seq log.
Proof.
  pose proof (lo_seq _ _ _ Hok). pose proof (lo_epoch _ _ _ Hok).
  pose proof (last_seq_ge _ _ (lo_increasing _ _ _ Hok)). lia.
Qed.

Lemma stamp_ok e :
  Z.of_nat (length (en_key e) + length (en_val e)) ≤ MaxEntrySize → l_seq log < 2 ^ 64 - 1 →
  (en_op e = EntryAdd ∨ en_op e = EntryDel ∨ en_op e = EntryCommit) → entry_ok (stamp log e).
Proof. intros Hs Hq Ho. pose proof lo_seq_nonneg. split_and!; [done|simpl; lia|simpl; lia|done]. Qed.

(** Writing a record: every fact of [log_ok] but the one on commit records. *)
Lemma log_Write_step e :
  Z.of_nat (length (en_key e) + length (en_val e)) ≤ MaxEntrySize → l_seq log < 2 ^ 64 - 1 →
  (en_op e = EntryAdd ∨ en_op e = EntryDel ∨ en_op e = EntryCommit) →
  log_Write log e =
    (MkLog (Some (MkFile (log_content (l_epoch log) ec)
         (rec_writes (length (log_content (l_epoch log) ec)) (eu ++ [stamp log e]))))
       (l_reader log) (l_epoch log) (l_seq log + 1)
       (length (log_content (l_epoch log) ec) + length (records (eu ++ [stamp log e])))%nat
       (l_committed log), Ok tt) ∧
  Forall entry_ok (ec ++ eu ++ [stamp log e]) ∧
  increasing (l_epoch log) (ec ++ eu ++ [stamp log e]) ∧
  last_seq (l_epoch log) (ec ++ eu ++ [stamp log e]) = l_seq log + 1.
Proof.
  intros Hs Hq Ho. pose proof lo_seq_nonneg as Hnn. destruct Hok as [Hfp Hcom Hoff _ _ _ Hent Hinc Hseq].
  split_and!.
  - unfold log_Write. rewrite log_Write_fits by lia. unfold with_fp. rewrite Hfp.
    unfold u64. rewrite Z.mod_small by lia. cbn [en_seq]. unfold f_write. cbn [f_synced f_pending].
    rewrite rec_writes_app, records_app, records_one, length_app, Hoff. cbn [rec_writes].
    by rewrite Nat.add_assoc.
  - rewrite (assoc_L (++)). apply Forall_app. split; [done|]. apply Forall_singleton. by apply stamp_ok.
  - rewrite (assoc_L (++)), increasing_app. split; [done|]. simpl. lia.
  - rewrite (assoc_L (++)), last_seq_app. done.
Qed.

Lemma log_Write_ok e :
  Z.of_nat (length (en_key e) + length (en_val e)) ≤ MaxEntrySize → l_seq log < 2 ^ 64 - 1 →
  en_op e = EntryAdd ∨ en_op e = EntryDel →
  ∃ log', log_Write log e = (log', Ok tt) ∧ log_ok log' ec (eu ++ [stamp log e]) ∧
    l_seq log' = l_seq log + 1 ∧ l_epoch log' = l_epoch log.
Proof.
  intros Hs Hq Ho. destruct (log_Write_step e Hs Hq ltac:(tauto)) as (Hw & He & Hi & Hl).
  eexists. split; [exact Hw|]. split; [|done].
  destruct Hok as [Hfp Hcom Hoff Hep Hcl Hop Hent Hinc Hseq]. pose proof lo_seq_nonneg.
  constructor; cbn [l_fp l_epoch l_committed l_offset l_seq]; try done.
  - apply Forall_app. split; [done|]. apply Forall_singleton. unfold is_commit.
    apply bool_decide_eq_false. cbn. destruct Ho as [->| ->]; done.
  - rewrite Hl. lia.
Qed.

(** A failed write (entry too large) leaves the log as it was. *)
Lemma log_Write_too_large e :
  MaxEntrySize < Z.of_nat (length (en_key e) + length (en_val e)) →
  log_Write log e = (log, Err ErrEntryTooLarge).
Proof.
  intros Hs. unfold log_Write, Encode. cbn [en_key en_val].
  by destruct (Z.ltb_spec MaxEntrySize (Z.of_nat (length (en_key e) + length (en_val e)))); [|lia].
Qed.

Definition commit_entry : Entry := MkEntry [] [] 0 EntryCommit.

Lemma log_Commit_ok :
  l_seq log < 2 ^ 64 - 1 →
  ∃ log', log_Commit log = (log', Ok tt) ∧ log_ok log' (ec ++ eu ++ [stamp log commit_entry]) [] ∧
    l_seq log' = l_seq log + 1 ∧ l_epoch log' = l_epoch log.
Proof.
  intros Hq. destruct (log_Write_step commit_entry) as (Hw & He & Hi & Hl);
    [vm_compute; done|done|by right; right|].
  unfold log_Commit. change (MkEntry [] [] 0 EntryCommit) with commit_entry. rewrite Hw.
  cbn [with_fp l_fp]. unfold with_fp. cbn [l_fp]. eexists. split; [reflexivity|]. split; [|done].
  destruct Hok as [Hfp Hcom Hoff Hep Hcl Hop Hent Hinc Hseq]. pose proof lo_seq_nonneg.
  constructor; cbn [l_fp l_epoch l_committed l_offset l_seq]; rewrite ?app_nil_r; try done.
  - unfold f_sync, f_view. cbn [f_synced f_pending]. rewrite rec_writes_apply.
    unfold log_content. by rewrite !records_app, <- !(assoc_L (++)).
  - rewrite <- length_app. f_equal. unfold log_content. by rewrite !records_app, <- !(assoc_L (++)).
  - rewrite <- length_app. cbn. rewrite Nat.add_0_r. f_equal. unfold log_content.
    by rewrite !records_app, <- !(assoc_L (++)).
  - unfold closed. by rewrite (assoc_L (++)), last_snoc.
  - rewrite Hl. lia.
Qed.

End log_ok.

(** ** Crashes *)

(** The log a replay of good contents leaves. *)
Lemma replay_log_ok ep ec eu tail :
  0 ≤ ep < 2 ^ 64 → closed ec → Forall (fun e => is_commit e = false) eu →
  Forall entry_ok (ec ++ eu) → increasing ep (ec ++ eu) → dead (last_seq ep (ec ++ eu)) tail →
  ∃ log, replay (log_content ep ec ++ records eu ++ tail) = (log, Ok (updates_of ec)) ∧
    log_ok log ec [] ∧ l_epoch log = ep ∧ l_seq log = last_seq ep (ec ++ eu).
Proof.
  intros Hep Hcl Hu Hok Hi Hd. destruct (replay_spec ep ec eu tail) as (rd & ->); [done..|].
  eexists. split; [done|]. split; [|done].
  pose proof (proj1 (proj1 (increasing_app _ _ _) Hi)) as Hi1.
  constructor; cbn [l_fp l_epoch l_committed l_offset l_seq]; rewrite ?app_nil_r; try done.
  - by apply Forall_app in Hok as [].
  - apply increasing_app in Hi as [H1 H2]. rewrite last_seq_app. split; [by apply last_seq_ge|].
    destruct eu as [|e eu _] using rev_ind.
    + destruct ec as [|e ec _] using rev_ind; [cbn; lia|].
      rewrite app_nil_r in Hok. cbn. rewrite last_seq_app. cbn. apply Forall_app in Hok as [_ Hok].
      apply Forall_singleton in Hok as (_ & ? & _). lia.
    + rewrite last_seq_app. cbn. rewrite (assoc_L (++)) in Hok. apply Forall_app in Hok as [_ Hok].
      apply Forall_singleton in Hok as (_ & ? & _). lia.
Qed.

(** A crash before the commit record: the transaction never happened. *)
Lemma crash_uncommitted log ec eu fp c :
  log_ok log ec eu → l_fp log = Some fp → crash fp c →
  ∃ log', replay c = (log', Ok (updates_of ec)) ∧ log_ok log' ec [] ∧ l_epoch log' = l_epoch log.
Proof.
  intros Hlo Hfp Hc. destruct Hlo as [Hfp' Hcom Hoff Hep Hcl Hop Hent Hinc Hseq].
  rewrite Hfp in Hfp'. injection Hfp' as ->.
  apply crash_records in Hc as (es1 & es2 & part & -> & -> & Hpart).
  apply Forall_app in Hop as [Hop1 Hop2]. rewrite (assoc_L (++)) in Hent, Hinc.
  apply Forall_app in Hent as [Hent1 Hent2]. apply increasing_app in Hinc as [Hi1 Hi2].
  destruct (replay_log_ok (l_epoch log) ec es1 part) as (log' & Hr & Hok' & He & _); [done..| |eauto].
  by eapply part_dead.
Qed.

(** A crash with the commit record pending: all or nothing. *)
Lemma crash_commit log ec eu e c :
  log_ok log ec eu → is_commit e = true → entry_ok e → last_seq (l_epoch log) (ec ++ eu) < en_seq e →
  crash (MkFile (log_content (l_epoch log) ec)
    (rec_writes (length (log_content (l_epoch log) ec)) (eu ++ [e]))) c →
  ∃ log' ec', (ec' = ec ∨ ec' = ec ++ eu ++ [e]) ∧
    replay c = (log', Ok (updates_of ec')) ∧ log_ok log' ec' [] ∧ l_epoch log' = l_epoch log.
Proof.
  intros Hlo He Heok Hes Hc. destruct Hlo as [Hfp' Hcom Hoff Hep Hcl Hop Hent Hinc Hseq].
  apply crash_records in Hc as (es1 & es2 & part & Heu & -> & Hpart).
  destruct es2 as [|e2 es2 _] using rev_ind.
  - rewrite app_nil_r in Heu. subst es1. destruct Hpart as [->|(? & ? & ? & ? & _)]; [|done].
    destruct (replay_log_ok (l_epoch log) (ec ++ eu ++ [e]) [] []) as (log' & Hr & Hok' & Hep' & _).
    + done.
    + unfold closed. by rewrite (assoc_L (++)), last_snoc.
    + done.
    + rewrite app_nil_r, (assoc_L (++)). apply Forall_app. split; [done|]. by apply Forall_singleton.
    + rewrite app_nil_r, (assoc_L (++)), increasing_app. split; [exact Hinc|]. split; [exact Hes|]. exact I.
    + apply dead_nil.
    + exists log', (ec ++ eu ++ [e]). split; [by right|]. split; [|split; assumption].
      rewrite log_content_app in Hr. change (records [] ++ []) with (@nil byte) in Hr.
      rewrite app_nil_r in *. exact Hr.
  - rewrite (assoc_L (++)) in Heu. apply app_inj_tail in Heu as [-> <-].
    apply Forall_app in Hop as [Hop1 Hop2]. rewrite (assoc_L (++)) in Hent, Hinc.
    apply Forall_app in Hent as [Hent1 Hent2]. apply increasing_app in Hinc as [Hi1 Hi2].
    destruct (replay_log_ok (l_epoch log) ec es1 part) as (log' & Hr & Hok' & Hep' & _); [assumption..| |].
    + eapply part_dead; [|exact Hpart]. apply Forall_app. split; [assumption|].
      apply Forall_singleton. exact Heok.
    + exists log', ec. split; [by left|]. split; [exact Hr|]. split; assumption.
Qed.

(** ** Truncation *)

(** Twenty bytes either are no header or are one with some floor. *)
Lemma header_cases h :
  length h = 20%nat →
  (∀ rest, ∃ log, log_Open (h ++ rest) = (log, Err ErrLogHeaderCorrupt)) ∨
  ∃ ep, 0 ≤ ep < 2 ^ 64 ∧ header_of h ep.
Proof.
  intros Hl.
  destruct (negb (bytes_equal (take 8 h) logMagic)) eqn:E1;
  [|destruct (negb (le_val (drop 16 h) =? ChecksumIEEE (take 16 h))) eqn:E2].
  1,2: left; intros rest; unfold log_Open, openHeader, with_fp; cbn [l_fp]; rewrite f_view_open,
    (take_app_length' h) by done; rewrite Hl; cbn [Nat.ltb Nat.leb logHeaderSize]; rewrite ?E1, ?E2; eauto.
  right. exists (le_val (take 8 (drop 8 h))). split.
  - pose proof (le_val_range (take 8 (drop 8 h))) as Hr.
    rewrite length_take, length_drop, Hl in Hr. exact Hr.
  - split; [done|]. intros. unfold openHeader, with_fp. cbn [l_fp]. rewrite f_view_open,
      (take_app_length' h) by done. rewrite Hl. cbn [Nat.ltb Nat.leb logHeaderSize]. by rewrite E1, E2.
Qed.

(** Whatever floor is in the header: all committed updates or none. *)
Lemma replay_any_header h ec :
  length h = 20%nat → closed ec → Forall entry_ok ec → (∃ ep, increasing ep ec) →
  ∃ log, replay (h ++ records ec) = (log, Err ErrLogHeaderCorrupt) ∨
    replay (h ++ records ec) = (log, Ok (updates_of ec)) ∨ replay (h ++ records ec) = (log, Ok []).
Proof.
  intros Hl Hc Hok (ep0 & Hi). destruct (header_cases h Hl) as [Hbad|(ep & Hep & Hh)].
  { destruct (Hbad (records ec)) as [log Ho]. exists log. left. unfold replay. by rewrite Ho. }
  assert ((ec = [] ∨ ∃ e es, ec = e :: es ∧ en_seq e ≤ ep) ∨ increasing ep ec) as [Hst|Hi'].
  { destruct ec as [|e es]; [auto|]. destruct (decide (en_seq e ≤ ep)); [eauto 10|].
    right. destruct Hi as [_ Hi]. split; [lia|done]. }
  - destruct (replay_from h ep [] [] (records ec)) as (rd & Hr); try done.
    { cbn. destruct Hst as [->|(e & es & -> & He)]; [apply dead_nil|].
      inversion Hok; subst. by apply dead_stale. }
    change (records [] ++ records ec) with (records ec) in Hr. change (records []) with (@nil byte) in Hr.
    rewrite app_nil_r in Hr. eexists. right; right. exact Hr.
  - destruct (replay_from h ep ec [] []) as (rd & Hr);
      [assumption|assumption|constructor|by rewrite app_nil_r|by rewrite app_nil_r|apply dead_nil|].
    rewrite app_nil_r in Hr. change (records [] ++ []) with (@nil byte) in Hr.
    rewrite app_nil_r in Hr. eexists. right; left. exact Hr.
Qed.

(** The file at each point of [Truncate]: before it, with the header pending,
    with the header durable, with the shrink pending, after it. *)
Definition truncate_points (fp : file) (seq : Z) : list file :=
  let f1 := f_write fp 0 (header_bytes seq) in
  let f2 := f_sync f1 in
  let f3 := f_truncate f2 logHeaderSize in
  [fp; f1; f2; f3; f_sync f3].

Lemma crash_synced f c : f_pending f = [] → crash f c → c = f_synced f.
Proof.
  intros Hp Hc. inversion Hc as [l1 l2 H|l1 o o' l2 H _]; subst; rewrite Hp in H.
  - symmetry in H. apply app_eq_nil in H as [-> ->]. done.
  - by destruct l1.
Qed.

Lemma crash_one f o c :
  f_pending f = [o] → crash f c → c = f_synced f ∨ ∃ o', torn o o' ∧ c = apply_op (f_synced f) o'.
Proof.
  intros Hp Hc. inversion Hc as [l1 l2 H|l1 o1 o' l2 H Ht]; subst; rewrite Hp in H.
  - destruct l1 as [|o1 l1]; [by left|]. right. exists o. split; [constructor|].
    injection H as <- H. symmetry in H. apply app_eq_nil in H as [-> _]. done.
  - right. destruct l1 as [|o2 l1]; [|by destruct l1]. injection H as <- _. eauto.
Qed.

(** Overwriting the start of the header leaves twenty bytes before the records. *)
Lemma overwrite_header h ec n new :
  length h = 20%nat → length new = 20%nat →
  ∃ h', length h' = 20%nat ∧ write_at (h ++ records ec) 0 (take n new) = h' ++ records ec.
Proof.
  intros Hl Hn. exists (take n new ++ drop (length (take n new)) h).
  assert (length (take n new) ≤ 20)%nat by (rewrite length_take; lia).
  split; [rewrite length_app, length_drop; lia|].
  pose proof (write_at_app [] (h ++ records ec) (take n new)) as Hw. cbn [app length] in Hw. rewrite Hw.
  rewrite drop_app_le by lia. by rewrite (assoc_L (++)).
Qed.

Lemma log_Truncate_ok log ec :
  log_ok log ec [] →
  ∃ log', log_Truncate log = (log', Ok tt) ∧ log_ok log' [] [] ∧
    l_epoch log' = l_seq log ∧ l_seq log' = l_seq log ∧
    ∃ fp, l_fp log = Some fp ∧ last (truncate_points fp (l_seq log)) = l_fp log'.
Proof.
  intros Hok. pose proof (lo_seq_nonneg _ _ _ Hok) as Hnn.
  destruct Hok as [Hfp Hcom Hoff Hep Hcl Hop Hent Hinc Hseq]. unfold log_Truncate, writeHeader, with_fp.
  rewrite Hfp. cbn [l_fp l_reader l_epoch l_seq l_offset l_committed]. eexists. split; [reflexivity|].
  split; [|by eauto 10].
  constructor; cbn [l_fp l_reader l_epoch l_seq l_offset l_committed set_fp]; try done; try lia.
  cbn. lia.
Qed.

(** A crash anywhere in [Truncate] leaves all committed updates, none of them,
    or a header that the next open refuses; never a part of them. *)
Lemma truncate_crash_outcomes log ec fp f c :
  log_ok log ec [] → l_fp log = Some fp → f ∈ truncate_points fp (l_seq log) → crash f c →
  ∃ log', replay c = (log', Err ErrLogHeaderCorrupt) ∨
    replay c = (log', Ok (updates_of ec)) ∨ replay c = (log', Ok []).
Proof.
  intros Hok Hfp Hf Hc. pose proof Hok as [Hfp' _ _ Hep Hcl _ Hent Hinc _].
  rewrite app_nil_r in Hent, Hinc. rewrite Hfp in Hfp'. injection Hfp' as ->. cbn [rec_writes] in *.
  assert (∃ ep, increasing ep ec) as Hex by eauto.
  assert (∀ h, length h = 20%nat → c = h ++ records ec →
    ∃ log', replay c = (log', Err ErrLogHeaderCorrupt) ∨
      replay c = (log', Ok (updates_of ec)) ∨ replay c = (log', Ok [])) as Hany.
  { intros h Hl ->. by apply replay_any_header. }
  assert (∀ h, length h = 20%nat → c = h →
    ∃ log', replay c = (log', Err ErrLogHeaderCorrupt) ∨
      replay c = (log', Ok (updates_of ec)) ∨ replay c = (log', Ok [])) as Hnone.
  { intros h Hl ->. destruct (replay_any_header h [] Hl) as (log' & H); [done|done|by exists 0|].
    change (records []) with (@nil byte) in H. rewrite app_nil_r in H. exists log'. destruct H as [?|[?|?]]; auto. }
  pose proof (header_length (l_epoch log)) as Hl0. pose proof (header_length (l_seq log)) as Hl1.
  assert (∀ n, ∃ h', length h' = 20%nat ∧
    write_at (log_content (l_epoch log) ec) 0 (take n (header_bytes (l_seq log))) = h' ++ records ec) as Hov.
  { intros n. apply overwrite_header; assumption. }
  assert (∃ h', length h' = 20%nat ∧
    write_at (log_content (l_epoch log) ec) 0 (header_bytes (l_seq log)) = h' ++ records ec) as (h1 & Hh1 & Hw1).
  { destruct (Hov 20%nat) as (h' & ? & Hw). rewrite take_ge in Hw by lia. eauto. }
  assert (f_view (f_write (MkFile (log_content (l_epoch log) ec) []) 0 (header_bytes (l_seq log)))
    = h1 ++ records ec) as Hview by (rewrite f_view_write; exact Hw1).
  assert (truncate (h1 ++ records ec) logHeaderSize = h1) as Htr.
  { pose proof (truncate_app h1 (records ec)) as Ht. rewrite Hh1 in Ht. exact Ht. }
  unfold truncate_points in Hf. rewrite !elem_of_cons, elem_of_nil in Hf.
  destruct Hf as [->|[->|[->|[->|[->|[]]]]]].
  - apply crash_synced in Hc; [|reflexivity]. exact (Hany _ Hl0 Hc).
  - apply crash_one with (o := FWrite 0 (header_bytes (l_seq log))) in Hc; [|reflexivity].
    destruct Hc as [Hc|(o' & Ht & Hc)]; [exact (Hany _ Hl0 Hc)|].
    inversion Ht; subst o'; cbn [apply_op f_synced f_write] in Hc.
    + rewrite Hw1 in Hc. exact (Hany _ Hh1 Hc).
    + destruct (Hov n) as (h' & Hl' & Hw). rewrite Hw in Hc. exact (Hany _ Hl' Hc).
  - apply crash_synced in Hc; [|reflexivity]. cbn [f_synced f_sync] in Hc.
    rewrite Hview in Hc. exact (Hany _ Hh1 Hc).
  - apply crash_one with (o := FTrunc logHeaderSize) in Hc; [|reflexivity].
    cbn [f_synced f_truncate f_sync] in Hc. rewrite Hview in Hc.
    destruct Hc as [Hc|(o' & Ht & Hc)]; [exact (Hany _ Hh1 Hc)|].
    inversion Ht; subst o'. cbn [apply_op] in Hc. rewrite Htr in Hc. exact (Hnone _ Hh1 Hc).
  - apply crash_synced in Hc; [|reflexivity]. cbn [f_synced f_sync] in Hc.
    rewrite f_view_truncate, f_view_sync, Hview, Htr in Hc. exact (Hnone _ Hh1 Hc).
Qed.
