(* ===== verification/Cell.v ===== *)
(** * Cells and their encodings: db/cell.go

    A typed value, its value encoding (little endian, length prefixed) and its
    key encoding (order preserving, strings escaped and NUL terminated). *)

From Stdlib Require Import ZArith Lia.
From Stdlib.Strings Require Import Byte.
From stdpp Require Import base list numbers.
From S2P Require Import Prelude GoLib.

Open Scope Z_scope.

(** [type CellType uint8] *)
Definition TypeI64 : byte := x01.
Definition TypeStr : byte := x02.

Record Cell := MkCell { c_type : byte; c_i64 : Z; c_str : bytes }.

#[export] Instance Cell_eq_dec : EqDecision Cell.
Proof. solve_decision. Defined.

(** [Cell{Type: t}] *)
Definition zero_cell (t : byte) : Cell := MkCell t 0 [].

(** ** Value encoding *)

Definition cell_EncodeVal (cell : Cell) (toAppend : bytes) : res bytes :=
  if decide (c_type cell = TypeI64) then Ok (toAppend ++ le_bytes 8 (u64 (c_i64 cell)))
  else if decide (c_type cell = TypeStr) then
    Ok ((toAppend ++ le_bytes 4 (u32 (Z.of_nat (length (c_str cell))))) ++ c_str cell)
  else Panic "unreachable".

(** The updated cell and the rest of the data. *)
Definition cell_DecodeVal (cell : Cell) (data : bytes) : res (Cell * bytes) :=
  if decide (c_type cell = TypeI64) then
    if (length data <? 8)%nat then Err (errorsNew "expect more data")
    else Ok (MkCell (c_type cell) (s64 (le_val (take 8 data))) (c_str cell), drop 8 data)
  else if decide (c_type cell = TypeStr) then
    if (length data <? 4)%nat then Err (errorsNew "expect more data")
    else
      let size := le_val (take 4 data) in
      if Z.of_nat (length data) <? 4 + size then Err (errorsNew "expect more data")
      else Ok (MkCell (c_type cell) (c_i64 cell) (take (Z.to_nat size) (drop 4 data)),
               drop (Z.to_nat (4 + size)) data)
  else Panic "unreachable".

(** ** Key encoding *)

Fixpoint encodeStrKey_loop (toAppend input : bytes) : bytes :=
  match input with
  | [] => toAppend
  | ch :: input =>
      if bool_decide (ch = x00 ∨ ch = x01)
      then encodeStrKey_loop (toAppend ++ [x01; z2b (b2z ch + 1)]) input
      else encodeStrKey_loop (toAppend ++ [ch]) input
  end.

Definition encodeStrKey (toAppend input : bytes) : bytes :=
  encodeStrKey_loop toAppend input ++ [x00].

Fixpoint decodeStrKey_loop (data out : bytes) (escape : bool) : res (bytes * bytes) :=
  match data with
  | [] => Err (errorsNew "string is not ended")
  | ch :: data =>
      if escape then
        if negb (bool_decide (ch = x01 ∨ ch = x02)) then Err (errorsNew "bad escape")
        else decodeStrKey_loop data (out ++ [z2b (b2z ch - 1)]) false
      else if bool_decide (ch = x00) then Ok (out, data)
      else if bool_decide (ch = x01) then decodeStrKey_loop data out true
      else decodeStrKey_loop data (out ++ [ch]) false
  end.

Definition decodeStrKey (data : bytes) : res (bytes * bytes) := decodeStrKey_loop data [] false.

Definition cell_EncodeKey (cell : Cell) (toAppend : bytes) : res bytes :=
  if decide (c_type cell = TypeI64) then
    Ok (toAppend ++ be_bytes 8 (Z.lxor (u64 (c_i64 cell)) (2 ^ 63)))
  else if decide (c_type cell = TypeStr) then Ok (encodeStrKey toAppend (c_str cell))
  else Panic "unreachable".

Definition cell_DecodeKey (cell : Cell) (data : bytes) : res (Cell * bytes) :=
  if decide (c_type cell = TypeI64) then
    if (length data <? 8)%nat then Err (errorsNew "expect more data")
    else Ok (MkCell (c_type cell) (s64 (Z.lxor (be_val (take 8 data)) (2 ^ 63))) (c_str cell), drop 8 data)
  else if decide (c_type cell = TypeStr) then
    '(out, rest) ← decodeStrKey data;
    Ok (MkCell (c_type cell) (c_i64 cell) out, rest)
  else Panic "unreachable".

(** ** Well-formed cells *)

(** A value of its type, the other field unset; strings fit in memory that a
    32-bit length can describe. *)
Definition cell_ok (c : Cell) : Prop :=
  (c_type c = TypeI64 ∧ is_i64 (c_i64 c) ∧ c_str c = []) ∨
  (c_type c = TypeStr ∧ c_i64 c = 0 ∧ Z.of_nat (length (c_str c)) < 2 ^ 32).

#[export] Instance cell_ok_dec c : Decision (cell_ok c).
Proof. unfold cell_ok. apply _. Defined.

(** The order of SQL values of one type. *)
Definition cell_compare (a b : Cell) : comparison :=
  if decide (c_type a = TypeI64) then c_i64 a ?= c_i64 b else bytes_compare (c_str a) (c_str b).

(** ** String keys *)

(** The escaped bytes of one character. *)
Definition esc (ch : byte) : bytes :=
  if bool_decide (ch = x00 ∨ ch = x01) then [x01; z2b (b2z ch + 1)] else [ch].

Lemma encodeStrKey_esc toAppend input :
  encodeStrKey toAppend input = toAppend ++ mjoin (esc <$> input) ++ [x00].
Proof.
  unfold encodeStrKey. rewrite (assoc_L (++)). f_equal.
  revert toAppend. induction input as [|ch input IH]; intros toAppend.
  - cbn. by rewrite app_nil_r.
  - cbn [encodeStrKey_loop fmap list_fmap mjoin]. unfold esc at 1.
    case_if; rewrite IH, <- (assoc_L (++)); done.
Qed.

Definition enc_str (s : bytes) : bytes := mjoin (esc <$> s) ++ [x00].

Lemma esc_cases ch :
  (ch = x00 ∧ esc ch = [x01; x01]) ∨ (ch = x01 ∧ esc ch = [x01; x02]) ∨
  (2 ≤ b2z ch ∧ esc ch = [ch]).
Proof.
  destruct (decide (ch = x00)) as [->|H0]; [left; by vm_compute|].
  destruct (decide (ch = x01)) as [->|H1]; [right; left; by vm_compute|].
  right; right. unfold esc. rewrite bool_decide_false by (intros [|]; done). split; [|done].
  pose proof (b2z_range ch). destruct (decide (b2z ch = 0)) as [E|].
  { destruct H0. by apply b2z_inj. }
  destruct (decide (b2z ch = 1)) as [E|]; [|lia]. destruct H1. by apply b2z_inj.
Qed.

Lemma enc_str_cons ch s : enc_str (ch :: s) = esc ch ++ enc_str s.
Proof. unfold enc_str. cbn [fmap list_fmap mjoin list_join]. by rewrite <- (assoc_L (++)). Qed.

(** The terminator sorts below everything a character can start with. *)
Lemma enc_str_head ch s : ∃ y r, enc_str (ch :: s) = y :: r ∧ 1 ≤ b2z y.
Proof.
  rewrite enc_str_cons. destruct (esc_cases ch) as [[_ ->]|[[_ ->]|[H ->]]]; eexists _, _; split; try done.
  lia.
Qed.

(** Escaped strings compare like the strings, whatever follows them. *)
Lemma enc_str_compare a b x y :
  bytes_compare (enc_str a ++ x) (enc_str b ++ y) =
    match bytes_compare a b with Eq => bytes_compare x y | c => c end.
Proof.
  revert b. induction a as [|ca a IH]; intros [|cb b].
  - cbn. done.
  - destruct (enc_str_head cb b) as (h & r & -> & Hh). change (enc_str [] ++ x) with (x00 :: x).
    by rewrite <- app_comm_cons, bytes_compare_cons_lt by (change (b2z x00) with 0; lia).
  - destruct (enc_str_head ca a) as (h & r & -> & Hh). change (enc_str [] ++ y) with (x00 :: y).
    rewrite <- app_comm_cons, bytes_compare_antisym,
      bytes_compare_cons_lt by (change (b2z x00) with 0; lia). done.
  - rewrite !enc_str_cons, <- !(assoc_L (++)). cbn [bytes_compare].
    destruct (esc_cases ca) as [[-> ->]|[[-> ->]|[Ha ->]]], (esc_cases cb) as [[-> ->]|[[-> ->]|[Hb ->]]];
      cbn [app bytes_compare]; rewrite ?Z.compare_refl, ?IH; try done.
    + change (b2z x01) with 1. change (b2z x00) with 0.
      by rewrite !(proj2 (Z.compare_lt_iff _ _)) by lia.
    + change (b2z x01) with 1. by rewrite !(proj2 (Z.compare_lt_iff _ _)) by lia.
    + change (b2z x01) with 1. change (b2z x00) with 0.
      by rewrite !(proj2 (Z.compare_gt_iff _ _)) by lia.
    + change (b2z x01) with 1. by rewrite !(proj2 (Z.compare_gt_iff _ _)) by lia.
    + by destruct (b2z ca ?= b2z cb).
Qed.

Lemma decodeStrKey_enc s : ∀ out rest,
  decodeStrKey_loop (enc_str s ++ rest) out false = Ok (out ++ s, rest).
Proof.
  induction s as [|ch s IH]; intros out rest.
  - cbn. by rewrite app_nil_r.
  - rewrite enc_str_cons, <- (assoc_L (++)).
    destruct (esc_cases ch) as [[-> ->]|[[-> ->]|[H ->]]]; cbn [app decodeStrKey_loop].
    + change (z2b (b2z x01 - 1)) with x00. rewrite IH, <- (assoc_L (++)). done.
    + change (z2b (b2z x02 - 1)) with x01. rewrite IH, <- (assoc_L (++)). done.
    + rewrite !bool_decide_false by (intros ->; vm_compute in H; done).
      rewrite IH, <- (assoc_L (++)). done.
Qed.

(** ** Cells *)

(** What [EncodeKey] appends. *)
Definition cell_key (c : Cell) : bytes :=
  if decide (c_type c = TypeI64) then be_bytes 8 (Z.lxor (u64 (c_i64 c)) (2 ^ 63)) else enc_str (c_str c).

Lemma cell_EncodeKey_app c acc : cell_ok c → cell_EncodeKey c acc = Ok (acc ++ cell_key c).
Proof.
  intros Hc. unfold cell_EncodeKey, cell_key.
  destruct Hc as [(-> & _)|(-> & _)]; [by rewrite decide_True|].
  rewrite decide_False by done. rewrite decide_True by done.
  by rewrite encodeStrKey_esc.
Qed.

(** Cell keys compare like the cells, whatever follows them. *)
Lemma cell_key_compare a b x y :
  cell_ok a → cell_ok b → c_type a = c_type b →
  bytes_compare (cell_key a ++ x) (cell_key b ++ y) =
    match cell_compare a b with Eq => bytes_compare x y | c => c end.
Proof.
  intros Ha Hb Ht. unfold cell_key, cell_compare. rewrite <- Ht.
  destruct (decide (c_type a = TypeI64)) as [Hi|Hi]; [|apply enc_str_compare].
  assert (is_i64 (c_i64 a)) as Hia by (destruct Ha as [(_ & ? & _)|(E & _)]; [done|by rewrite E in Hi]).
  assert (is_i64 (c_i64 b)) as Hib by (destruct Hb as [(_ & ? & _)|(E & _)]; [done|by rewrite <- Ht, Hi in E]).
  rewrite !u64_flip_sign by done. unfold is_i64 in *.
  rewrite bytes_compare_app_eqlen by (by rewrite !be_bytes_length).
  rewrite be_bytes_compare by (change (256 ^ Z.of_nat 8) with (2 ^ 64); lia).
  by rewrite !(Z.add_comm _ (2 ^ 63)), Z.add_compare_mono_l.
Qed.

Lemma cell_compare_eq a b : cell_ok a → cell_ok b → c_type a = c_type b → cell_compare a b = Eq ↔ a = b.
Proof.
  intros Ha Hb Ht. unfold cell_compare. destruct a as [ta ia sa], b as [tb ib sb]; simpl in *. subst tb.
  destruct (decide (ta = TypeI64)) as [->|Hi].
  - destruct Ha as [(_ & _ & ?)|(? & _)]; [|done]. destruct Hb as [(_ & _ & ?)|(? & _)]; [|done].
    simpl in *. subst. rewrite Z.compare_eq_iff. split; congruence.
  - destruct Ha as [(? & _ & ?)|(_ & ? & _)]; [done|]. destruct Hb as [(? & _ & ?)|(_ & ? & _)]; [done|].
    simpl in *. subst. rewrite bytes_compare_eq. split; congruence.
Qed.

Lemma cell_DecodeKey_key c rest :
  cell_ok c → cell_DecodeKey (zero_cell (c_type c)) (cell_key c ++ rest) = Ok (c, rest).
Proof.
  intros Hc. unfold cell_DecodeKey, cell_key. cbn [c_type zero_cell c_i64 c_str].
  unfold cell_ok in Hc. destruct c as [t i s]; cbn [c_type c_i64 c_str] in *.
  destruct Hc as [(-> & Hi & Hs)|(-> & Hi & Hs)].
  - rewrite decide_True by done. rewrite decide_True by done. subst s.
    rewrite length_app, be_bytes_length. cbn [Nat.ltb Nat.leb Nat.add].
    rewrite (take_app_length' (be_bytes 8 _)), (drop_app_length' (be_bytes 8 _)) by (by rewrite be_bytes_length).
    rewrite be_val_bytes, u64_flip_sign by done. unfold is_i64 in Hi.
    change (256 ^ Z.of_nat 8) with (2 ^ 64). rewrite Z.mod_small by lia.
    rewrite <- (u64_flip_sign i) by (unfold is_i64; lia).
    rewrite Z.lxor_assoc, Z.lxor_nilpotent, Z.lxor_0_r, s64_u64, s64_id by (unfold is_i64; lia). done.
  - rewrite decide_False by done. rewrite decide_True by done. rewrite decide_False by done.
    unfold decodeStrKey. rewrite decodeStrKey_enc. rs. by subst i.
Qed.

(** What [EncodeVal] appends. *)
Definition cell_val (c : Cell) : bytes :=
  if decide (c_type c = TypeI64) then le_bytes 8 (u64 (c_i64 c))
  else le_bytes 4 (u32 (Z.of_nat (length (c_str c)))) ++ c_str c.

Lemma cell_EncodeVal_app c acc : cell_ok c → cell_EncodeVal c acc = Ok (acc ++ cell_val c).
Proof.
  intros Hc. unfold cell_EncodeVal, cell_val.
  destruct Hc as [(-> & _)|(-> & _)]; [by rewrite decide_True|].
  rewrite decide_False by done. rewrite decide_True by done. by rewrite <- (assoc_L (++)).
Qed.

Lemma cell_DecodeVal_val c rest :
  cell_ok c → cell_DecodeVal (zero_cell (c_type c)) (cell_val c ++ rest) = Ok (c, rest).
Proof.
  intros Hc. unfold cell_DecodeVal, cell_val. cbn [c_type zero_cell c_i64 c_str].
  unfold cell_ok in Hc. destruct c as [t i s]; cbn [c_type c_i64 c_str] in *.
  destruct Hc as [(-> & Hi & Hs)|(-> & Hi & Hs)].
  - rewrite decide_True by done. rewrite decide_True by done. subst s.
    rewrite length_app, le_bytes_length. cbn [Nat.ltb Nat.leb Nat.add].
    rewrite (take_app_length' (le_bytes 8 _)), (drop_app_length' (le_bytes 8 _)) by (by rewrite le_bytes_length).
    rewrite le_val_bytes. change (256 ^ Z.of_nat 8) with (2 ^ 64).
    change (u64 i mod 2 ^ 64) with (u64 (u64 i)). by rewrite !s64_u64, s64_id by done.
  - rewrite decide_False by done. rewrite decide_True by done. rewrite decide_False by done. subst i.
    rewrite <- (assoc_L (++)), !length_app, le_bytes_length. cbn [Nat.ltb Nat.leb Nat.add].
    rewrite (take_app_length' (le_bytes 4 _)), (drop_app_length' (le_bytes 4 _)) by (by rewrite le_bytes_length).
    rewrite le_val_bytes. change (256 ^ Z.of_nat 4) with (2 ^ 32). unfold u32.
    rewrite Z.mod_mod, Z.mod_small by lia.
    match goal with |- context [?a <? ?b] => destruct (Z.ltb_spec a b); [lia|] end.
    rewrite Nat2Z.id, take_app_length. do 3 f_equal.
    rewrite (assoc_L (++)). apply drop_app_length'. rewrite length_app, le_bytes_length. lia.
Qed.
