(* ===== verification/Row.v ===== *)
(** * Rows and index keys: db/row.go

    A schema, its validation, and the encodings of a row: one key per index and
    one value with the columns that are not in the primary key. *)

From Stdlib Require Import ZArith Lia.
From Stdlib.Strings Require Import Byte.
From stdpp Require Import base list numbers.
From S2P Require Import Prelude GoLib Cell.

Open Scope Z_scope.

Definition SchemaVersion : Z := 1.

Record Column := MkColumn { col_Name : bytes; col_Type : byte }.

Record Schema := MkSchema {
  sc_Version : Z;
  sc_Table : bytes;
  sc_Cols : list Column;
  sc_Indices : list (list Z);
}.

#[export] Instance Column_eq_dec : EqDecision Column.
Proof. solve_decision. Defined.
#[export] Instance Schema_eq_dec : EqDecision Schema.
Proof. solve_decision. Defined.

Abbreviation Row := (list Cell) (only parsing).

Definition NewRow (schema : Schema) : Row := replicate (length (sc_Cols schema)) (zero_cell x00).

(** [xs[i]] for an [int] index. *)
Definition go_at {A} (l : list A) (i : Z) : res A :=
  if i <? 0 then Panic "index out of range" else go_index l (Z.to_nat i).

(** [for _, x := range xs { if bad(x) { return err } }] *)
Definition reject_if {A} (bad : A → bool) (l : list A) (err : error) : res unit :=
  if existsb bad l then Err err else Ok tt.

Definition corrupted : error := errorsNew "corrupted schema".

Definition Validate (schema : Schema) : res unit :=
  if negb (sc_Version schema =? SchemaVersion) then Err (errorsNew "unsupported schema version") else
  if bool_decide (sc_Table schema = []) || bool_decide (sc_Cols schema = []) then Err corrupted else
  _ ← reject_if (fun col => bool_decide (col_Name col = []) ||
        (negb (bool_decide (col_Type col = TypeI64)) && negb (bool_decide (col_Type col = TypeStr))))
      (sc_Cols schema) corrupted;
  if bool_decide (sc_Indices schema = []) || (256 <? Z.of_nat (length (sc_Indices schema)))
  then Err corrupted else
  reject_if (fun index => bool_decide (index = []) ||
      existsb (fun idx => (idx <? 0) || (Z.of_nat (length (sc_Cols schema)) <=? idx)) index)
    (sc_Indices schema) corrupted.

Definition EncodeKey (row : Row) (schema : Schema) (indexNo : Z) : res bytes :=
  _ ← check (length row =? length (sc_Cols schema))%nat;
  index ← go_at (sc_Indices schema) indexNo;
  key ← foldM (fun key idx =>
      cell ← go_at row idx;
      col ← go_at (sc_Cols schema) idx;
      _ ← check (bool_decide (c_type cell = col_Type col));
      cell_EncodeKey cell (key ++ [c_type cell]))
    (sc_Table schema ++ [x00; z2b indexNo]) index;
  Ok (key ++ [x00]).

(** The loop of [EncodeKeyPrefix] over [prefix] from position [i] on. *)
Fixpoint encode_prefix_loop (schema : Schema) (index : list Z) (i : nat) (prefix : list Cell) (key : bytes)
    : res bytes :=
  match prefix with
  | [] => Ok key
  | cell :: prefix =>
      idx ← go_index index i;
      col ← go_at (sc_Cols schema) idx;
      if negb (bool_decide (c_type cell = col_Type col))
      then Err (errorsNew "key prefix type mismatch") else
      key ← cell_EncodeKey cell (key ++ [c_type cell]);
      encode_prefix_loop schema index (S i) prefix key
  end.

Definition EncodeKeyPrefix (schema : Schema) (indexNo : Z) (prefix : list Cell) (positive : bool) : res bytes :=
  if (indexNo <? 0) || (Z.of_nat (length (sc_Indices schema)) <=? indexNo)
  then Err (errorsNew "unknown index") else
  index ← go_at (sc_Indices schema) indexNo;
  if (length index <? length prefix)%nat
  then Err (errorsNew "key prefix is longer than the index") else
  key ← encode_prefix_loop schema index 0 prefix (sc_Table schema ++ [x00; z2b indexNo]);
  Ok (if positive then key ++ [xff] else key).

(** The loop of [EncodeVal] over the row from column [idx] on. *)
Fixpoint encode_val_loop (schema : Schema) (pkey : list Z) (idx : nat) (row : Row) (val : bytes) : res bytes :=
  match row with
  | [] => Ok val
  | value :: row =>
      if bool_decide (Z.of_nat idx ∈ pkey) then encode_val_loop schema pkey (S idx) row val else
      col ← go_index (sc_Cols schema) idx;
      _ ← check (bool_decide (c_type value = col_Type col));
      val ← cell_EncodeVal value val;
      encode_val_loop schema pkey (S idx) row val
  end.

Definition EncodeVal (row : Row) (schema : Schema) : res bytes :=
  _ ← check (length row =? length (sc_Cols schema))%nat;
  pkey ← go_at (sc_Indices schema) 0;
  encode_val_loop schema pkey 0 row [].

(** [DecodeKey] and [DecodeVal] fill the cells of [row] in place. *)
Definition DecodeKey (row : Row) (schema : Schema) (indexNo : Z) (key : bytes) : res Row :=
  _ ← check (length row =? length (sc_Cols schema))%nat;
  let n := (length (sc_Table schema) + 2)%nat in
  if (length key <? n)%nat then Err ErrOutOfRange else
  if negb (bytes_equal (take n key) (sc_Table schema ++ [x00] ++ string_of_byte (z2b indexNo)))
  then Err ErrOutOfRange else
  index ← go_at (sc_Indices schema) indexNo;
  '(row, key) ← foldM (fun '(row, key) idx =>
      col ← go_at (sc_Cols schema) idx;
      _ ← go_at row idx;
      match key with
      | t :: key =>
          if negb (bool_decide (t = col_Type col)) then Err (errorsNew "bad key") else
          '(cell, key) ← cell_DecodeKey (zero_cell (col_Type col)) key;
          Ok (<[Z.to_nat idx := cell]> row, key)
      | [] => Err (errorsNew "bad key")
      end) (row, drop n key) index;
  if bool_decide (key = [x00]) then Ok row else Err (errorsNew "bad key").

Fixpoint decode_val_loop (pkey : list Z) (idx : nat) (cols : list Column) (row : Row) (val : bytes)
    : res (Row * bytes) :=
  match cols with
  | [] => Ok (row, val)
  | col :: cols =>
      if bool_decide (Z.of_nat idx ∈ pkey) then decode_val_loop pkey (S idx) cols row val else
      '(cell, val) ← cell_DecodeVal (zero_cell (col_Type col)) val;
      decode_val_loop pkey (S idx) cols (<[idx := cell]> row) val
  end.

Definition DecodeVal (row : Row) (schema : Schema) (val : bytes) : res Row :=
  _ ← check (length row =? length (sc_Cols schema))%nat;
  pkey ← go_at (sc_Indices schema) 0;
  '(row, val) ← decode_val_loop pkey 0 (sc_Cols schema) row val;
  if bool_decide (val = []) then Ok row else Err (errorsNew "trailing garbage").

(** ** Well-formed schemas and rows *)

Record schema_ok (schema : Schema) : Prop := {
  so_version : sc_Version schema = SchemaVersion;
  so_table : sc_Table schema ≠ [];
  so_cols : sc_Cols schema ≠ [];
  so_col col : col ∈ sc_Cols schema → col_Name col ≠ [] ∧ (col_Type col = TypeI64 ∨ col_Type col = TypeStr);
  so_indices : (0 < length (sc_Indices schema) ≤ 256)%nat;
  so_index index : index ∈ sc_Indices schema → index ≠ [] ∧
    ∀ idx, idx ∈ index → 0 ≤ idx < Z.of_nat (length (sc_Cols schema));
}.

(** A row holds one well-formed cell of the right type per column. *)
Definition row_ok (schema : Schema) (row : Row) : Prop :=
  Forall2 (fun cell col => cell_ok cell ∧ c_type cell = col_Type col) row (sc_Cols schema).

#[export] Instance row_ok_dec schema row : Decision (row_ok schema row).
Proof. unfold row_ok. apply _. Defined.

Lemma reject_if_ok {A} (bad : A → bool) l err :
  reject_if bad l err = Ok tt ↔ ∀ x, x ∈ l → bad x = false.
Proof.
  unfold reject_if. destruct (existsb bad l) eqn:E.
  - split; [done|]. intros H. apply existsb_exists in E as (x & Hx & Hb).
    apply list_elem_of_In in Hx. by rewrite H in Hb.
  - split; [|done]. intros _ x Hx. destruct (bad x) eqn:Hb; [|done].
    apply list_elem_of_In in Hx. rewrite (proj2 (existsb_exists bad l)) in E; [done|eauto].
Qed.

(** [Validate] accepts exactly the well-formed schemas. *)
Lemma Validate_iff schema : Validate schema = Ok tt ↔ schema_ok schema.
Proof.
  unfold Validate. destruct (Z.eqb_spec (sc_Version schema) SchemaVersion) as [Hv|Hv]; cbn [negb].
  2: { split; [done|]. intros []. done. }
  destruct (bool_decide_reflect (sc_Table schema = [])) as [Ht|Ht]; cbn [orb].
  { split; [done|]. intros []. done. }
  destruct (bool_decide_reflect (sc_Cols schema = [])) as [Hc|Hc].
  { split; [done|]. intros []. done. }
  set (badcol := fun col : Column => _). set (badidx := fun index : list Z => _).
  assert (∀ col, badcol col = false ↔
    col_Name col ≠ [] ∧ (col_Type col = TypeI64 ∨ col_Type col = TypeStr)) as Hbc.
  { intros col. unfold badcol. rewrite orb_false_iff, andb_false_iff, !negb_false_iff.
    by rewrite bool_decide_eq_false, !bool_decide_eq_true. }
  assert (∀ index, badidx index = false ↔ index ≠ [] ∧
    ∀ idx, idx ∈ index → 0 ≤ idx < Z.of_nat (length (sc_Cols schema))) as Hbi.
  { intros index. unfold badidx. rewrite orb_false_iff, bool_decide_eq_false.
    apply and_iff_compat_l. destruct (existsb _ index) eqn:E.
    - split; [done|]. intros H. apply existsb_exists in E as (x & Hx & Hb). apply list_elem_of_In, H in Hx.
      apply orb_true_iff in Hb as [Hb%Z.ltb_lt|Hb%Z.leb_le]; lia.
    - split; [|done]. intros _ idx Hi. apply list_elem_of_In in Hi.
      destruct (decide (0 ≤ idx < Z.of_nat (length (sc_Cols schema)))); [done|].
      assert (existsb (fun idx => (idx <? 0) || (Z.of_nat (length (sc_Cols schema)) <=? idx)) index = true); [|congruence].
      apply existsb_exists. exists idx. split; [done|]. apply orb_true_iff.
      rewrite Z.ltb_lt, Z.leb_le. lia. }
  destruct (reject_if badcol (sc_Cols schema) corrupted) as [[]| | |] eqn:Ec; rs.
  2-4: split; [done|]; intros [_ _ _ Hcol _ _];
    rewrite (proj2 (reject_if_ok _ _ _)) in Ec; [done|]; intros; apply Hbc; by apply Hcol.
  rewrite reject_if_ok in Ec.
  destruct (bool_decide_reflect (sc_Indices schema = [])) as [Hi|Hi]; cbn [orb].
  { split; [done|]. intros [_ _ _ _ Hn _]. rewrite Hi in Hn. simpl in Hn. lia. }
  destruct (Z.ltb_spec 256 (Z.of_nat (length (sc_Indices schema)))) as [Hn|Hn].
  { split; [done|]. intros [_ _ _ _ Hn' _]. lia. }
  rewrite reject_if_ok. split.
  - intros H. constructor; try done.
    + intros col Hcol. by apply Hbc, Ec.
    + destruct (sc_Indices schema); [done|]. simpl in *. lia.
    + intros index Hidx. by apply Hbi, H.
  - intros [_ _ _ _ _ Hix] index Hidx. by apply Hbi, Hix.
Qed.
