(* ===== verification/RowProofs.v ===== *)
(** * Index keys: order, bounds and round trips

    A key starts with the table name, a NUL and the index number; the cells of
    the index follow, each with its type byte, and a NUL ends it.  Keys of one
    index sort like the rows they encode, a prefix bound selects exactly the
    rows with that prefix, and a row comes back from its key and value. *)

From Stdlib Require Import ZArith Lia.
From Stdlib.Strings Require Import Byte.
From stdpp Require Import base list numbers.
From S2P Require Import Prelude GoLib Cell Row.

Open Scope Z_scope.

(** The cells of a row that an index covers. *)
Definition index_cells (row : Row) (index : list Z) : list Cell :=
  (fun i => default (zero_cell x00) (row !! Z.to_nat i)) <$> index.

Definition ekeys (cs : list Cell) : bytes := mjoin ((fun c => c_type c :: cell_key c) <$> cs).

Definition key_prefix (schema : Schema) (indexNo : Z) : bytes := sc_Table schema ++ [x00; z2b indexNo].

(** Lexicographic order of index cells. *)
Fixpoint cells_compare (xs ys : list Cell) : comparison :=
  match xs, ys with
  | [], [] => Eq
  | [], _ :: _ => Lt
  | _ :: _, [] => Gt
  | x :: xs, y :: ys => match cell_compare x y with Eq => cells_compare xs ys | c => c end
  end.

(** Cells of one shape: well formed and pairwise of one type. *)
Definition same_shape (xs ys : list Cell) : Prop :=
  Forall2 (fun x y => cell_ok x ∧ cell_ok y ∧ c_type x = c_type y) xs ys.

Lemma ekeys_cons c cs : ekeys (c :: cs) = (c_type c :: cell_key c) ++ ekeys cs.
Proof. done. Qed.

Lemma ekeys_app cs1 cs2 : ekeys (cs1 ++ cs2) = ekeys cs1 ++ ekeys cs2.
Proof. unfold ekeys. by rewrite fmap_app, join_app. Qed.

Lemma ekeys_compare xs ys a b :
  same_shape xs ys →
  bytes_compare (ekeys xs ++ a) (ekeys ys ++ b) =
    match cells_compare xs ys with Eq => bytes_compare a b | c => c end.
Proof.
  induction 1 as [|x y xs ys (Hx & Hy & Ht) _ IH]; [done|].
  rewrite !ekeys_cons, Ht. cbn [app bytes_compare cells_compare]. rewrite Z.compare_refl.
  rewrite <- !(assoc_L (++)), cell_key_compare, IH by done. by destruct (cell_compare x y).
Qed.

Lemma cells_compare_eq xs ys : same_shape xs ys → cells_compare xs ys = Eq ↔ xs = ys.
Proof.
  induction 1 as [|x y xs ys (Hx & Hy & Ht) _ IH]; [done|]. cbn [cells_compare].
  pose proof (cell_compare_eq x y Hx Hy Ht) as He.
  destruct (cell_compare x y) eqn:E.
  - rewrite IH. rewrite (proj1 He eq_refl). split; congruence.
  - split; [done|]. intros [= Hxy _]. by apply He in Hxy.
  - split; [done|]. intros [= Hxy _]. by apply He in Hxy.
Qed.

(** ** What the encoders produce *)

Lemma go_at_ok {A} (l : list A) i a : 0 ≤ i → l !! Z.to_nat i = Some a → go_at l i = Ok a.
Proof.
  intros Hi Ha. unfold go_at. destruct (Z.ltb_spec i 0); [lia|]. by apply go_index_ok.
Qed.

Lemma check_true b : b = true → check b = Ok tt.
Proof. by intros ->. Qed.

Section row.
Context (schema : Schema) (Hschema : schema_ok schema).

Lemma index_lookup indexNo index :
  go_at (sc_Indices schema) indexNo = Ok index →
  index ∈ sc_Indices schema ∧ 0 ≤ indexNo ∧ sc_Indices schema !! Z.to_nat indexNo = Some index.
Proof.
  unfold go_at. destruct (Z.ltb_spec indexNo 0); [done|]. intros Hg%go_index_ok.
  split; [by eapply list_elem_of_lookup_2|]. done.
Qed.

Lemma row_lookup row idx :
  row_ok schema row → 0 ≤ idx < Z.of_nat (length (sc_Cols schema)) →
  ∃ cell col, row !! Z.to_nat idx = Some cell ∧ sc_Cols schema !! Z.to_nat idx = Some col ∧
    cell_ok cell ∧ c_type cell = col_Type col.
Proof.
  intros Hr Hi. destruct (lookup_lt_is_Some_2 (sc_Cols schema) (Z.to_nat idx)) as [col Hcol]; [lia|].
  destruct (Forall2_lookup_r _ _ _ _ _ Hr Hcol) as (cell & Hcell & Hc & Ht). eauto 10.
Qed.

Lemma row_length row : row_ok schema row → length row = length (sc_Cols schema).
Proof. apply Forall2_length. Qed.

Lemma check_row_length row :
  row_ok schema row → check (length row =? length (sc_Cols schema))%nat = Ok tt.
Proof. intros Hr. apply check_true. rewrite (row_length _ Hr). apply Nat.eqb_refl. Qed.

(** The key loop over index columns. *)
Lemma encode_key_loop row index key :
  row_ok schema row → (∀ idx, idx ∈ index → 0 ≤ idx < Z.of_nat (length (sc_Cols schema))) →
  foldM (fun key idx =>
      cell ← go_at row idx;
      col ← go_at (sc_Cols schema) idx;
      _ ← check (bool_decide (c_type cell = col_Type col));
      cell_EncodeKey cell (key ++ [c_type cell])) key index
  = Ok (key ++ ekeys (index_cells row index)).
Proof.
  intros Hr. revert key. induction index as [|idx index IH]; intros key Hin.
  - cbn. by rewrite app_nil_r.
  - destruct (row_lookup row idx Hr) as (cell & col & Hcell & Hcol & Hok & Ht); [apply Hin; by left|].
    assert (0 ≤ idx) by (apply Hin; by left).
    cbn [foldM]. rewrite (go_at_ok _ _ _ ltac:(done) Hcell), (go_at_ok _ _ _ ltac:(done) Hcol). rs.
    rewrite check_true by (by apply bool_decide_eq_true). rs.
    rewrite cell_EncodeKey_app by done. rs. rewrite IH by (intros; apply Hin; by right).
    unfold index_cells. cbn [fmap list_fmap]. rewrite Hcell. cbn [default]. rewrite ekeys_cons.
    by rewrite <- !(assoc_L (++)).
Qed.

Lemma EncodeKey_bytes row indexNo index :
  row_ok schema row → go_at (sc_Indices schema) indexNo = Ok index →
  EncodeKey row schema indexNo =
    Ok (key_prefix schema indexNo ++ ekeys (index_cells row index) ++ [x00]).
Proof.
  intros Hr Hi. destruct (index_lookup _ _ Hi) as (Hin & _).
  unfold EncodeKey. rewrite check_row_length, Hi by done. rs.
  rewrite encode_key_loop; [|done|exact (proj2 (so_index _ Hschema _ Hin))]. rs. unfold key_prefix. by rewrite <- !(assoc_L (++)).
Qed.

(** The prefix has the types of the first columns of the index. *)
Definition prefix_ok (index : list Z) (prefix : list Cell) : Prop :=
  Forall2 (fun cell idx => cell_ok cell ∧
      ∃ col, sc_Cols schema !! Z.to_nat idx = Some col ∧ c_type cell = col_Type col)
    prefix (take (length prefix) index).

Lemma prefix_loop index prefix : ∀ i key,
  (∀ idx, idx ∈ index → 0 ≤ idx) →
  Forall2 (fun cell idx => cell_ok cell ∧
      ∃ col, sc_Cols schema !! Z.to_nat idx = Some col ∧ c_type cell = col_Type col)
    prefix (take (length prefix) (drop i index)) →
  encode_prefix_loop schema index i prefix key = Ok (key ++ ekeys prefix).
Proof.
  induction prefix as [|cell prefix IH]; intros i key Hpos H2.
  - cbn. by rewrite app_nil_r.
  - cbn [length take] in H2. destruct (drop i index) as [|idx rest] eqn:Hd; [inversion H2|].
    cbn [take] in H2.
    apply Forall2_cons in H2 as [(Hok & col & Hcol & Ht) H2].
    assert (index !! i = Some idx) as Hidx.
    { by rewrite <- (Nat.add_0_r i), <- lookup_drop, Hd. }
    assert (drop (S i) index = rest) as Hrest.
    { rewrite <- Nat.add_1_r, <- drop_drop, Hd. done. }
    assert (0 ≤ idx) by (apply Hpos; by eapply list_elem_of_lookup_2).
    cbn [encode_prefix_loop]. rewrite (proj2 (go_index_ok _ _ _) Hidx). rs.
    rewrite (go_at_ok _ _ _ ltac:(done) Hcol). rs. rewrite bool_decide_true by done. cbn [negb].
    rewrite cell_EncodeKey_app by done. rs. rewrite IH; [|done|by rewrite Hrest].
    rewrite ekeys_cons. by rewrite <- !(assoc_L (++)).
Qed.

Lemma EncodeKeyPrefix_bytes indexNo index prefix positive :
  go_at (sc_Indices schema) indexNo = Ok index → (length prefix ≤ length index)%nat →
  prefix_ok index prefix →
  EncodeKeyPrefix schema indexNo prefix positive =
    Ok (key_prefix schema indexNo ++ ekeys prefix ++ if positive then [xff] else []).
Proof.
  intros Hi Hl Hp. destruct (index_lookup _ _ Hi) as (Hin & Hpos & Hlk).
  unfold EncodeKeyPrefix. apply lookup_lt_Some in Hlk.
  destruct (Z.ltb_spec indexNo 0); [lia|].
  destruct (Z.leb_spec (Z.of_nat (length (sc_Indices schema))) indexNo); [lia|]. cbn [orb].
  rewrite Hi. rs. destruct (Nat.ltb_spec (length index) (length prefix)); [lia|].
  rewrite prefix_loop; [| |done].
  - rs. unfold key_prefix. destruct positive; by rewrite <- !(assoc_L (++)), ?app_nil_r.
  - intros idx Hidx. by apply (proj2 (so_index _ Hschema _ Hin)).
Qed.

(** ** Order *)

Lemma index_cells_shape r1 r2 index :
  row_ok schema r1 → row_ok schema r2 →
  (∀ idx, idx ∈ index → 0 ≤ idx < Z.of_nat (length (sc_Cols schema))) →
  same_shape (index_cells r1 index) (index_cells r2 index).
Proof.
  intros H1 H2 Hin. unfold index_cells, same_shape. apply Forall2_fmap, Forall_Forall2_diag.
  apply Forall_forall. intros idx Hidx.
  destruct (row_lookup r1 idx H1) as (c1 & col1 & -> & E1 & Hc1 & Ht1); [by apply Hin|].
  destruct (row_lookup r2 idx H2) as (c2 & col2 & -> & E2 & Hc2 & Ht2); [by apply Hin|].
  cbn. split_and!; [done..|]. congruence.
Qed.

(** Keys of one index sort like the index columns of their rows. *)
Lemma EncodeKey_compare r1 r2 indexNo index k1 k2 :
  row_ok schema r1 → row_ok schema r2 → go_at (sc_Indices schema) indexNo = Ok index →
  EncodeKey r1 schema indexNo = Ok k1 → EncodeKey r2 schema indexNo = Ok k2 →
  bytes_compare k1 k2 = cells_compare (index_cells r1 index) (index_cells r2 index).
Proof.
  intros H1 H2 Hi. rewrite !(EncodeKey_bytes _ _ index) by done. intros [= <-] [= <-].
  destruct (index_lookup _ _ Hi) as (Hin & _).
  rewrite bytes_compare_app_l, ekeys_compare
    by (apply index_cells_shape; [done..|exact (proj2 (so_index _ Hschema _ Hin))]).
  by destruct (cells_compare _ _).
Qed.

(** The leading index cells of a row have the shape of a prefix. *)
Lemma prefix_shape row index prefix :
  row_ok schema row → prefix_ok index prefix →
  same_shape (take (length prefix) (index_cells row index)) prefix.
Proof.
  intros Hr Hp. unfold same_shape, index_cells. rewrite <- fmap_take. apply Forall2_fmap_l.
  apply Forall2_flip. eapply Forall2_impl; [exact Hp|]. intros cell idx (Hc & col & Hcol & Ht).
  cbn. destruct (Forall2_lookup_r _ _ _ _ _ Hr Hcol) as (c' & -> & Hok' & Ht'). cbn.
  split_and!; [done..|]. congruence.
Qed.

(** A key compared with the bounds of a prefix: equal cells fall strictly
    between the two bounds. *)
Lemma EncodeKeyPrefix_compare row indexNo index prefix positive k p :
  row_ok schema row → go_at (sc_Indices schema) indexNo = Ok index →
  (length prefix ≤ length index)%nat → prefix_ok index prefix →
  EncodeKey row schema indexNo = Ok k →
  EncodeKeyPrefix schema indexNo prefix positive = Ok p →
  bytes_compare k p =
    match cells_compare (take (length prefix) (index_cells row index)) prefix with
    | Eq => if positive then Lt else Gt
    | c => c
    end.
Proof.
  intros Hr Hi Hl Hp. destruct (index_lookup _ _ Hi) as (Hin & _).
  destruct (so_index _ Hschema _ Hin) as [_ Hrange].
  rewrite (EncodeKey_bytes _ _ index), (EncodeKeyPrefix_bytes _ index) by done. intros [= <-] [= <-].
  rewrite bytes_compare_app_l.
  rewrite <- (take_drop (length prefix) (index_cells row index)) at 1.
  rewrite ekeys_app, <- (assoc_L (++)), ekeys_compare.
  - destruct (cells_compare _ prefix); [|done..].
    set (rest := drop (length prefix) (index_cells row index)).
    assert (∃ y tl, ekeys rest ++ [x00] = y :: tl ∧ b2z y < 255) as (y & tl & -> & Hy).
    { destruct rest as [|c rest'] eqn:Er; [by exists x00, []|]. rewrite ekeys_cons. cbn [app].
      eexists _, _. split; [done|].
      assert (c ∈ index_cells row index) as Hc.
      { eapply (subseteq_drop (length prefix)). fold rest. rewrite Er. by left. }
      unfold index_cells in Hc. apply list_elem_of_fmap in Hc as (idx & -> & Hidx).
      destruct (row_lookup row idx Hr) as (cell & col & -> & _ & Hok & _); [by apply Hrange|].
      cbn. destruct Hok as [(-> & _)|(-> & _)]; by vm_compute. }
    destruct positive; [|done]. by rewrite bytes_compare_cons_lt by done.
  - by apply prefix_shape.
Qed.

(** ** Round trips *)

(** The row after the index columns were decoded into it. *)
Definition set_cells (r0 row : Row) (index : list Z) : Row :=
  foldl (fun r idx => <[Z.to_nat idx := default (zero_cell x00) (row !! Z.to_nat idx)]> r) r0 index.

Lemma set_cells_length r0 row index : length (set_cells r0 row index) = length r0.
Proof.
  revert r0. induction index as [|idx index IH]; intros r0; [done|].
  etrans; [apply (IH (<[Z.to_nat idx := _]> r0))|]. apply length_insert.
Qed.

Lemma set_cells_lookup r0 row index i :
  length r0 = length row → (∀ idx, idx ∈ index → 0 ≤ idx < Z.of_nat (length row)) →
  set_cells r0 row index !! i = if decide (Z.of_nat i ∈ index) then row !! i else r0 !! i.
Proof.
  revert r0. induction index as [|idx index IH]; intros r0 Hl Hin.
  - rewrite decide_False by apply not_elem_of_nil. done.
  - change (set_cells r0 row (idx :: index)) with
      (set_cells (<[Z.to_nat idx := default (zero_cell x00) (row !! Z.to_nat idx)]> r0) row index).
    rewrite IH by (rewrite ?length_insert; auto; intros; apply Hin; by right).
    assert (0 ≤ idx < Z.of_nat (length row)) as Hidx by (apply Hin; by left).
    destruct (decide (Z.of_nat i ∈ index)) as [Hi|Hi].
    { by rewrite decide_True by (by right). }
    destruct (decide (idx = Z.of_nat i)) as [->|Hne].
    + rewrite decide_True by (by left). rewrite Nat2Z.id.
      rewrite list_lookup_insert_eq by lia. destruct (lookup_lt_is_Some_2 row i) as [x ->]; [lia|]. done.
    + rewrite decide_False by (rewrite elem_of_cons; intros [?|?]; congruence).
      apply list_lookup_insert_ne. lia.
Qed.

Lemma decode_key_loop row index : ∀ r0 rest,
  row_ok schema row → length r0 = length row →
  (∀ idx, idx ∈ index → 0 ≤ idx < Z.of_nat (length (sc_Cols schema))) →
  foldM (fun '(row, key) idx =>
      col ← go_at (sc_Cols schema) idx;
      _ ← go_at row idx;
      match key with
      | t :: key =>
          if negb (bool_decide (t = col_Type col)) then Err (errorsNew "bad key") else
          '(cell, key) ← cell_DecodeKey (zero_cell (col_Type col)) key;
          Ok (<[Z.to_nat idx := cell]> row, key)
      | [] => Err (errorsNew "bad key")
      end) (r0, ekeys (index_cells row index) ++ rest) index
  = Ok (set_cells r0 row index, rest).
Proof.
  induction index as [|idx index IH]; intros r0 rest Hr Hl Hin; [done|].
  destruct (row_lookup row idx Hr) as (cell & col & Hcell & Hcol & Hok & Ht); [apply Hin; by left|].
  assert (0 ≤ idx < Z.of_nat (length (sc_Cols schema))) as Hidx by (apply Hin; by left).
  pose proof (row_length _ Hr) as Hrl.
  destruct (lookup_lt_is_Some_2 r0 (Z.to_nat idx)) as [old Hold]; [lia|].
  cbn [foldM]. rewrite (go_at_ok _ idx _ ltac:(lia) Hcol). rs. rewrite (go_at_ok _ idx _ ltac:(lia) Hold). rs.
  unfold index_cells. cbn [fmap list_fmap]. rewrite Hcell. cbn [default]. rewrite ekeys_cons.
  cbn [app]. rewrite bool_decide_true by done. cbn [negb]. rewrite <- (assoc_L (++)), <- Ht.
  rewrite cell_DecodeKey_key by done. rs.
  change ((fun i => default (zero_cell x00) (row !! Z.to_nat i)) <$> index) with (index_cells row index).
  rewrite (IH (<[Z.to_nat idx := cell]> r0) rest Hr) by (rewrite ?length_insert; auto; intros; apply Hin; by right).
  unfold set_cells. cbn [foldl]. by rewrite Hcell.
Qed.

Lemma string_of_byte_short indexNo : 0 ≤ indexNo < 128 → string_of_byte (z2b indexNo) = [z2b indexNo].
Proof.
  intros H. unfold string_of_byte. rewrite b2z_z2b, Z.mod_small by lia.
  by destruct (Z.ltb_spec indexNo 128); [|lia].
Qed.

Lemma string_of_byte_long indexNo : 128 ≤ indexNo < 256 → length (string_of_byte (z2b indexNo)) = 2%nat.
Proof.
  intros H. unfold string_of_byte. rewrite b2z_z2b, Z.mod_small by lia.
  by destruct (Z.ltb_spec indexNo 128); [lia|].
Qed.

Lemma key_take_prefix indexNo rest :
  take (length (sc_Table schema) + 2) (key_prefix schema indexNo ++ rest) = key_prefix schema indexNo ∧
  drop (length (sc_Table schema) + 2) (key_prefix schema indexNo ++ rest) = rest ∧
  ((length (key_prefix schema indexNo ++ rest) <? length (sc_Table schema) + 2) = false)%nat.
Proof.
  assert (length (key_prefix schema indexNo) = length (sc_Table schema) + 2)%nat as Hl
    by (unfold key_prefix; by rewrite length_app).
  split_and!; [by apply take_app_length'|by apply drop_app_length'|].
  apply Nat.ltb_ge. rewrite length_app. lia.
Qed.

(** Decoding a key fills in the index columns. *)
Lemma DecodeKey_EncodeKey row r0 indexNo index k :
  row_ok schema row → length r0 = length row → indexNo < 128 →
  go_at (sc_Indices schema) indexNo = Ok index → EncodeKey row schema indexNo = Ok k →
  DecodeKey r0 schema indexNo k = Ok (set_cells r0 row index).
Proof.
  intros Hr Hl H128 Hi. rewrite (EncodeKey_bytes _ _ index) by done. intros [= <-].
  destruct (index_lookup _ _ Hi) as (Hin & Hpos & _).
  unfold DecodeKey. rewrite check_true by (rewrite Hl, (row_length _ Hr); apply Nat.eqb_refl). rs.
  destruct (key_take_prefix indexNo (ekeys (index_cells row index) ++ [x00])) as (-> & -> & ->).
  rewrite string_of_byte_short by lia.
  rewrite (proj2 (bytes_equal_eq _ _)) by done. cbn [negb]. rewrite Hi. rs.
  rewrite decode_key_loop; [|done|done|exact (proj2 (so_index _ Hschema _ Hin))]. rs. done.
Qed.

(** From index 128 on the decoder looks for the two byte UTF-8 form of the
    index number and rejects every key. *)
Lemma DecodeKey_high_index row r0 indexNo index k :
  row_ok schema row → length r0 = length row → 128 ≤ indexNo →
  go_at (sc_Indices schema) indexNo = Ok index → EncodeKey row schema indexNo = Ok k →
  DecodeKey r0 schema indexNo k = Err ErrOutOfRange.
Proof.
  intros Hr Hl H128 Hi. rewrite (EncodeKey_bytes _ _ index) by done. intros [= <-].
  destruct (index_lookup _ _ Hi) as (Hin & Hpos & Hlk). apply lookup_lt_Some in Hlk.
  pose proof (so_indices _ Hschema).
  unfold DecodeKey. rewrite check_true by (rewrite Hl, (row_length _ Hr); apply Nat.eqb_refl). rs.
  destruct (key_take_prefix indexNo (ekeys (index_cells row index) ++ [x00])) as (-> & _ & ->).
  rewrite bytes_equal_false; [done|]. intros Heq. apply (f_equal length) in Heq. unfold key_prefix in Heq.
  rewrite !length_app, string_of_byte_long in Heq by lia. simpl in Heq. lia.
Qed.

(** The value of the columns from [idx] on. *)
Fixpoint row_vals (pkey : list Z) (idx : nat) (row : Row) : bytes :=
  match row with
  | [] => []
  | c :: row =>
      if bool_decide (Z.of_nat idx ∈ pkey) then row_vals pkey (S idx) row
      else cell_val c ++ row_vals pkey (S idx) row
  end.

Lemma encode_val_loop_spec pkey row : ∀ idx val,
  Forall2 (fun cell col => cell_ok cell ∧ c_type cell = col_Type col) row (drop idx (sc_Cols schema)) →
  encode_val_loop schema pkey idx row val = Ok (val ++ row_vals pkey idx row).
Proof.
  induction row as [|c row IH]; intros idx val H2; cbn [encode_val_loop row_vals].
  - by rewrite app_nil_r.
  - destruct (drop idx (sc_Cols schema)) as [|col cols] eqn:Hd; [inversion H2|].
    apply Forall2_cons in H2 as [(Hok & Ht) H2].
    assert (drop (S idx) (sc_Cols schema) = cols) as Hd' by (by rewrite <- Nat.add_1_r, <- drop_drop, Hd).
    case_if; [apply IH; by rewrite Hd'|].
    assert (sc_Cols schema !! idx = Some col) as Hcol
      by (by rewrite <- (Nat.add_0_r idx), <- lookup_drop, Hd).
    rewrite (proj2 (go_index_ok _ _ _) Hcol). rs.
    rewrite check_true by (by apply bool_decide_eq_true). rs.
    rewrite cell_EncodeVal_app by done. rs. rewrite IH by (by rewrite Hd'). by rewrite <- (assoc_L (++)).
Qed.

Lemma EncodeVal_bytes row pkey :
  row_ok schema row → go_at (sc_Indices schema) 0 = Ok pkey →
  EncodeVal row schema = Ok (row_vals pkey 0 row).
Proof.
  intros Hr Hp. unfold EncodeVal. rewrite check_row_length, Hp by done. rs.
  by rewrite encode_val_loop_spec by done.
Qed.

Lemma decode_val_loop_spec pkey row : ∀ idx cols r0 rest,
  Forall2 (fun cell col => cell_ok cell ∧ c_type cell = col_Type col) row cols →
  (idx + length row ≤ length r0)%nat →
  ∃ r1, decode_val_loop pkey idx cols r0 (row_vals pkey idx row ++ rest) = Ok (r1, rest) ∧
    length r1 = length r0 ∧
    ∀ i, r1 !! i = if decide (idx ≤ i < idx + length row ∧ Z.of_nat i ∉ pkey)%nat
                   then row !! (i - idx)%nat else r0 !! i.
Proof.
  induction row as [|c row IH]; intros idx cols r0 rest H2 Hl; inversion H2 as [|? col ? cols' [Hok Ht] H2']; subst.
  - exists r0. split_and!; [done..|]. intros i. rewrite decide_False; [done|]. simpl. lia.
  - cbn [decode_val_loop row_vals]. simpl in Hl.
    destruct (bool_decide_reflect (Z.of_nat idx ∈ pkey)) as [Hin|Hin].
    + destruct (IH (S idx) cols' r0 rest H2') as (r1 & Hd & Hlen & Hlk); [lia|].
      exists r1. split_and!; [done..|]. intros i. rewrite Hlk. simpl length.
      destruct (decide (i = idx)) as [->|Hne].
      * rewrite !decide_False; [done|by intros [_ ?]|lia].
      * destruct (decide (S idx ≤ i < S idx + length row ∧ Z.of_nat i ∉ pkey)%nat) as [Hc|Hc].
        -- rewrite decide_True by (split; [lia|tauto]).
           by replace (i - idx)%nat with (S (i - S idx)) by lia.
        -- rewrite decide_False; [done|]. intros [? ?]. apply Hc. split; [lia|done].
    + rewrite <- (assoc_L (++)), <- Ht, cell_DecodeVal_val by done. rs.
      destruct (IH (S idx) cols' (<[idx := c]> r0) rest H2') as (r1 & Hd & Hlen & Hlk);
        [rewrite length_insert; lia|].
      exists r1. rewrite length_insert in Hlen. split_and!; [done..|]. intros i. rewrite Hlk. simpl length.
      destruct (decide (i = idx)) as [->|Hne].
      * rewrite decide_False by lia. rewrite decide_True by (split; [lia|done]).
        rewrite list_lookup_insert_eq by lia. by rewrite Nat.sub_diag.
      * rewrite list_lookup_insert_ne by done.
        destruct (decide (S idx ≤ i < S idx + length row ∧ Z.of_nat i ∉ pkey)%nat) as [Hc|Hc].
        -- rewrite decide_True by (split; [lia|tauto]).
           by replace (i - idx)%nat with (S (i - S idx)) by lia.
        -- rewrite decide_False; [done|]. intros [? ?]. apply Hc. split; [lia|done].
Qed.

(** Decoding the value into a row with the right primary key. *)
Lemma DecodeVal_agree row r0 pkey :
  row_ok schema row → length r0 = length row → go_at (sc_Indices schema) 0 = Ok pkey →
  (∀ i, Z.of_nat i ∈ pkey → r0 !! i = row !! i) → DecodeVal r0 schema (row_vals pkey 0 row) = Ok row.
Proof.
  intros Hr Hl Hpk Hag. unfold DecodeVal. pose proof (row_length _ Hr) as Hrl.
  rewrite check_true by (rewrite Hl, Hrl; apply Nat.eqb_refl). rs. rewrite Hpk. rs.
  destruct (decode_val_loop_spec pkey row 0 (sc_Cols schema) r0 [] Hr) as (r1 & Hd & Hlen & Hlk); [lia|].
  rewrite app_nil_r in Hd. rewrite Hd. rs. rewrite bool_decide_true by done. f_equal.
  apply list_eq. intros i. rewrite Hlk, Nat.sub_0_r.
  destruct (decide (Z.of_nat i ∈ pkey)) as [Hi|Hi].
  - rewrite decide_False by tauto. by apply Hag.
  - destruct (decide (i < length row)%nat).
    + by rewrite decide_True by (split; [lia|done]).
    + rewrite decide_False by lia. rewrite !lookup_ge_None_2 by lia. done.
Qed.

(** A row comes back from its primary key and its value. *)
Lemma decode_encode_row row r0 k v :
  row_ok schema row → length r0 = length row →
  EncodeKey row schema 0 = Ok k → EncodeVal row schema = Ok v →
  (r1 ← DecodeKey r0 schema 0 k; DecodeVal r1 schema v) = Ok row.
Proof.
  intros Hr Hl Hk Hv.
  destruct (lookup_lt_is_Some_2 (sc_Indices schema) 0) as [pkey Hp]; [apply (so_indices _ Hschema)|].
  assert (go_at (sc_Indices schema) 0 = Ok pkey) as Hpk by (by apply go_at_ok).
  destruct (index_lookup _ _ Hpk) as (Hin & _). destruct (so_index _ Hschema _ Hin) as [_ Hrange].
  rewrite (DecodeKey_EncodeKey row r0 0 pkey k) by done. rs.
  rewrite (EncodeVal_bytes _ _ Hr Hpk) in Hv. injection Hv as <-.
  apply DecodeVal_agree; [done|by rewrite set_cells_length|done|].
  intros i Hi. rewrite set_cells_lookup by (assumption || by rewrite (row_length _ Hr)). by rewrite decide_True.
Qed.

(** A key depends on the index columns only. *)
Lemma EncodeKey_agree row r0 indexNo index :
  length r0 = length row → go_at (sc_Indices schema) indexNo = Ok index →
  (∀ idx, idx ∈ index → r0 !! Z.to_nat idx = row !! Z.to_nat idx) →
  EncodeKey r0 schema indexNo = EncodeKey row schema indexNo.
Proof.
  intros Hl Hi Hag. unfold EncodeKey. rewrite Hl, Hi. destruct (check _); [|done..]. rs.
  match goal with |- (foldM ?f ?k _ ≫= ?g) = _ => assert (∀ key, foldM f key index = foldM (fun key idx =>
      cell ← go_at row idx; col ← go_at (sc_Cols schema) idx;
      _ ← check (bool_decide (c_type cell = col_Type col));
      cell_EncodeKey cell (key ++ [c_type cell])) key index) as Hf end.
  { clear Hi. induction index as [|idx index IH]; intros key; [done|]. cbn [foldM].
    assert (go_at r0 idx = go_at row idx) as ->.
    { unfold go_at, go_index. by rewrite (Hag idx) by (by left). }
    destruct (go_at row idx) as [cell| | |]; [|done..]. rs. destruct (go_at (sc_Cols schema) idx); [|done..]. rs.
    destruct (check _); [|done..]. rs. destruct (cell_EncodeKey _ _); [|done..]. rs. apply IH. intros; apply Hag; by right. }
  by rewrite Hf.
Qed.

End row.
