(* ===== verification/Metadata.v ===== *)
(** * The metadata store: db/metadata.go

    Two slot files, each holding a checksummed JSON snapshot of the SSTable
    list; [Set] overwrites the slot that is not current, so a crash damages at
    most the slot nobody reads.  The JSON codec is an interface ([MetaJson]). *)

From Stdlib Require Import ZArith Lia.
From Stdlib.Strings Require Import Byte.
From stdpp Require Import base list numbers.
From S2P Require Import Prelude GoLib File.

Open Scope Z_scope.

Record KVMetaData := MkMeta { md_Version : Z; md_SSTables : list bytes }.

#[export] Instance KVMetaData_eq_dec : EqDecision KVMetaData.
Proof. solve_decision. Defined.

Definition meta_zero : KVMetaData := MkMeta 0 [].

(** [json.Marshal] and [json.Unmarshal] at [KVMetaData]. *)
Class MetaJson := {
  json_Marshal : KVMetaData → bytes;
  json_Unmarshal : bytes → res KVMetaData;
}.

(** What encoding/json documents for a struct of an unsigned integer and a
    list of strings: decoding restores the value, the text is not empty. *)
Class MetaJsonLaws `{MetaJson} := {
  json_roundtrip d : 0 ≤ md_Version d < 2 ^ 64 → json_Unmarshal (json_Marshal d) = Ok d;
  json_nonempty d : json_Marshal d ≠ [];
}.

Section Metadata.
Context `{MetaJson}.

Definition readMetaFile (b : bytes) : res KVMetaData :=
  if (length b =? 0)%nat then Err errMetaAbsent else
  if (length b <=? 8)%nat then Err ErrMetaCorrupt else
  let sum := le_val (take 4 b) in
  let size := le_val (take 4 (drop 4 b)) in
  if Z.of_nat (length b) <? 8 + size then Err ErrMetaCorrupt else
  if negb (sum =? ChecksumIEEE (drop 4 (take (Z.to_nat (8 + size)) b))) then Err ErrMetaCorrupt else
  match json_Unmarshal (take (Z.to_nat size) (drop 8 b)) with
  | Ok data => Ok data
  | _ => Err ErrMetaCorrupt
  end.

(** The bytes [writeMetaFile] writes at offset 0. *)
Definition meta_bytes (data : KVMetaData) : bytes :=
  let b := json_Marshal data in
  let payload := le_bytes 4 (u32 (Z.of_nat (length b))) ++ b in
  le_bytes 4 (ChecksumIEEE payload) ++ payload.

Definition writeMetaFile (fp : file) (data : KVMetaData) : file :=
  f_sync (f_write fp 0 (meta_bytes data)).

Record KVMetaItem := MkItem { mi_fp : file; mi_data : KVMetaData }.
Record KVMetaStore := MkStore { slot0 : KVMetaItem; slot1 : KVMetaItem }.

(** A directory entry: its name and whether it is a directory. *)
Definition metaSSTablePrefix : bytes := bs "sstable_".

Definition countSSTables (entries : list (bytes * bool)) : nat :=
  length (filter (fun '(name, isdir) =>
    isdir = false ∧ (length metaSSTablePrefix < length name)%nat ∧
    take (length metaSSTablePrefix) name = metaSSTablePrefix) entries).

(** A slot as [Open] finds it: its data or the zero data, and whether it is usable. *)
Definition openSlot (content : bytes) : KVMetaItem * bool :=
  match readMetaFile content with
  | Ok data => (MkItem (f_open content) data, true)
  | _ => (MkItem (f_open content) meta_zero, false)
  end.

Definition meta_Open (c0 c1 : bytes) (entries : list (bytes * bool)) : res KVMetaStore :=
  let (s0, u0) := openSlot c0 in
  let (s1, u1) := openSlot c1 in
  if u0 || u1 then Ok (MkStore s0 s1)
  else if (countSSTables entries =? 0)%nat then Ok (MkStore s0 s1)
  else Err ErrMetaUnreadable.

(** [current() == 0] *)
Definition current0 (meta : KVMetaStore) : bool :=
  md_Version (mi_data (slot1 meta)) <? md_Version (mi_data (slot0 meta)).

Definition meta_Get (meta : KVMetaStore) : KVMetaData :=
  if current0 meta then mi_data (slot0 meta) else mi_data (slot1 meta).

(** [Set] writes the slot that is not current. *)
Definition meta_Set (meta : KVMetaStore) (data : KVMetaData) : KVMetaStore :=
  if current0 meta
  then MkStore (slot0 meta) (MkItem (writeMetaFile (mi_fp (slot1 meta)) data) data)
  else MkStore (MkItem (writeMetaFile (mi_fp (slot0 meta)) data) data) (slot1 meta).

(** ** Properties *)

Context `{!MetaJsonLaws}.

Lemma meta_bytes_length d : length (meta_bytes d) = (8 + length (json_Marshal d))%nat.
Proof. unfold meta_bytes. rewrite !length_app, !le_bytes_length. lia. Qed.

(** Data whose JSON text fits the 32-bit size field. *)
Definition meta_fits (d : KVMetaData) : Prop :=
  0 ≤ md_Version d < 2 ^ 64 ∧ Z.of_nat (length (json_Marshal d)) < 2 ^ 32.

(** A written snapshot reads back, whatever longer contents it overwrote. *)
Lemma readMetaFile_written d rest : meta_fits d → readMetaFile (meta_bytes d ++ rest) = Ok d.
Proof.
  intros [Hv Hsz]. pose proof (json_nonempty d) as Hne.
  assert (0 < length (json_Marshal d))%nat as Hpos by (destruct (json_Marshal d); [done|simpl; lia]).
  unfold readMetaFile. rewrite length_app, meta_bytes_length.
  destruct (Nat.eqb_spec (8 + length (json_Marshal d) + length rest) 0); [lia|].
  destruct (Nat.leb_spec (8 + length (json_Marshal d) + length rest) 8); [lia|].
  unfold meta_bytes. set (j := json_Marshal d) in *.
  set (sz := le_bytes 4 (u32 (Z.of_nat (length j)))). set (sum := le_bytes 4 (ChecksumIEEE (sz ++ j))).
  assert (length sum = 4%nat) as Ls by apply le_bytes_length.
  assert (length sz = 4%nat) as Lz by apply le_bytes_length.
  rewrite <- !(assoc_L (++)).
  rewrite (take_app_length' sum) by done.
  rewrite (drop_app_length' sum) by done.
  rewrite (take_app_length' sz) by done.
  assert (le_val sz = Z.of_nat (length j)) as ->.
  { unfold sz. rewrite le_val_bytes. change (256 ^ Z.of_nat 4) with (2 ^ 32). unfold u32.
    rewrite Z.mod_mod by lia. apply Z.mod_small. lia. }
  destruct (Z.ltb_spec (Z.of_nat (8 + length j + length rest)) (8 + Z.of_nat (length j))); [lia|].
  assert (take (Z.to_nat (8 + Z.of_nat (length j))) (sum ++ sz ++ j ++ rest) = sum ++ sz ++ j) as ->.
  { rewrite (assoc_L (++) sz), (assoc_L (++) sum). apply take_app_length'. rewrite !length_app. lia. }
  rewrite (drop_app_length' sum) by done.
  assert (le_val sum = ChecksumIEEE (sz ++ j)) as ->.
  { unfold sum. rewrite le_val_bytes. change (256 ^ Z.of_nat 4) with (2 ^ 32).
    apply Z.mod_small, ChecksumIEEE_range. }
  rewrite Z.eqb_refl. cbn [negb].
  rewrite (assoc_L (++) sum), (drop_app_length' (sum ++ sz)) by (rewrite length_app; lia).
  rewrite Nat2Z.id, take_app_length. unfold j. by rewrite json_roundtrip.
Qed.

(** The contents of the slot after a write of [data] over [old]. *)
Lemma written_view old d :
  meta_fits d → readMetaFile (write_at old 0 (meta_bytes d)) = Ok d.
Proof.
  intros Hf. pose proof (write_at_app [] old (meta_bytes d)) as Hw. cbn [app length] in Hw.
  rewrite Hw. by apply readMetaFile_written.
Qed.

(** The store as it is between operations: each slot's data is what its file
    says (or nothing), the files are synced. *)
Definition slot_ok (s : KVMetaItem) : Prop :=
  f_pending (mi_fp s) = [] ∧ mi_data s = mi_data (fst (openSlot (f_synced (mi_fp s)))).

Definition meta_ok (meta : KVMetaStore) : Prop := slot_ok (slot0 meta) ∧ slot_ok (slot1 meta).

Lemma openSlot_ok c : slot_ok (fst (openSlot c)).
Proof.
  unfold slot_ok, openSlot. destruct (readMetaFile c) eqn:E; cbn [fst mi_fp mi_data f_synced f_open f_pending];
    by rewrite E.
Qed.

Lemma openSlot_usable c : 0 < md_Version (mi_data (fst (openSlot c))) → snd (openSlot c) = true.
Proof. unfold openSlot. destruct (readMetaFile c); cbn; [done|lia..]. Qed.

(** What [Open] returns when a slot is usable. *)
Lemma meta_Open_usable c0 c1 entries :
  0 < md_Version (mi_data (fst (openSlot c0))) ∨ 0 < md_Version (mi_data (fst (openSlot c1))) →
  meta_Open c0 c1 entries = Ok (MkStore (fst (openSlot c0)) (fst (openSlot c1))).
Proof.
  intros Hu. unfold meta_Open. pose proof (openSlot_usable c0) as Hu0. pose proof (openSlot_usable c1) as Hu1.
  destruct (openSlot c0) as [s0 u0], (openSlot c1) as [s1 u1]. cbn [fst snd] in *.
  destruct Hu as [Hu|Hu]; [rewrite Hu0 by done|rewrite Hu1 by done]; [done|by rewrite orb_true_r].
Qed.

Lemma openSlot_data c d : readMetaFile c = Ok d → openSlot c = (MkItem (f_open c) d, true).
Proof. intros Hr. unfold openSlot. by rewrite Hr. Qed.

Lemma written_ok fp d :
  f_pending fp = [] → meta_fits d → slot_ok (MkItem (writeMetaFile fp d) d).
Proof.
  intros Hp Hf. split; [done|]. cbn [mi_fp mi_data writeMetaFile f_synced f_sync].
  rewrite f_view_write. unfold f_view. rewrite Hp. cbn [foldl].
  by rewrite (openSlot_data _ d) by (by apply written_view).
Qed.

Lemma meta_Set_ok meta d : meta_ok meta → meta_fits d → meta_ok (meta_Set meta d).
Proof.
  intros [Hs0 Hs1] Hf. unfold meta_Set. destruct (current0 meta); split; cbn; try done;
    apply written_ok; try done; [apply Hs1|apply Hs0].
Qed.

(** [Get] returns what a newer [Set] stored. *)
Lemma meta_Get_Set meta d :
  md_Version (meta_Get meta) < md_Version d → meta_Get (meta_Set meta d) = d.
Proof.
  unfold meta_Get, meta_Set. destruct (current0 meta) eqn:E; unfold current0 in E |- *; cbn [slot0 slot1 mi_data].
  - intros Hlt. destruct (Z.ltb_spec (md_Version d) (md_Version (mi_data (slot0 meta)))); [lia|done].
  - intros Hlt. destruct (Z.ltb_spec (md_Version (mi_data (slot1 meta))) (md_Version d)); [done|lia].
Qed.

(** The durable contents of both slots. *)
Definition contents (meta : KVMetaStore) : bytes * bytes :=
  (f_synced (mi_fp (slot0 meta)), f_synced (mi_fp (slot1 meta))).

(** Reopening a store finds the same data as long as a slot is usable. *)
Lemma meta_reopen meta entries :
  meta_ok meta → 0 < md_Version (meta_Get meta) →
  ∃ meta', meta_Open (fst (contents meta)) (snd (contents meta)) entries = Ok meta' ∧
    meta_Get meta' = meta_Get meta ∧ meta_ok meta'.
Proof.
  intros [[P0 D0] [P1 D1]] Hv. unfold contents. cbn [fst snd].
  assert (meta_Get (MkStore (fst (openSlot (f_synced (mi_fp (slot0 meta)))))
    (fst (openSlot (f_synced (mi_fp (slot1 meta)))))) = meta_Get meta) as Hg.
  { unfold meta_Get, current0. cbn [slot0 slot1]. by rewrite <- D0, <- D1. }
  eexists. split.
  - apply meta_Open_usable. rewrite <- D0, <- D1. unfold meta_Get in Hv. destruct (current0 meta); auto.
  - split; [exact Hg|]. split; apply openSlot_ok.
Qed.

(** The checksum notices a snapshot that was only partly written over [old]. *)
Definition tear_detected (old : bytes) (d : KVMetaData) : Prop :=
  ∀ n, (0 < n < length (meta_bytes d))%nat →
    readMetaFile (write_at old 0 (take n (meta_bytes d))) = Err ErrMetaCorrupt.

(** The file of the slot that [Set] writes, before the write is synced. *)
Definition set_target (meta : KVMetaStore) : file :=
  if current0 meta then mi_fp (slot1 meta) else mi_fp (slot0 meta).

Definition with_target (meta : KVMetaStore) (c : bytes) : bytes * bytes :=
  if current0 meta then (f_synced (mi_fp (slot0 meta)), c) else (c, f_synced (mi_fp (slot1 meta))).

Lemma crash_write_cases fp off data c :
  f_pending fp = [] → crash (f_write fp off data) c →
  c = f_synced fp ∨ ∃ n, c = write_at (f_synced fp) off (take n data).
Proof.
  intros Hp Hc. inversion Hc as [l1 l2 Hl|l1 o o' l2 Hl Ht]; subst; cbn [f_synced f_write f_pending] in *;
    rewrite Hp in Hl; cbn [app] in Hl.
  - destruct l1 as [|o l1]; [by left|]. right. exists (length data).
    injection Hl as <- Hl. symmetry in Hl. apply app_eq_nil in Hl as [-> _]. cbn. by rewrite take_ge.
  - right. destruct l1 as [|o2 l1]; [|by destruct l1]. injection Hl as <- _. cbn [foldl].
    inversion Ht; subst; cbn [apply_op]; [|by eauto]. exists (length data). by rewrite take_ge.
Qed.

(** The slots as [Open] reads them. *)
Definition as_read (c : bytes * bytes) : KVMetaStore := MkStore (fst (openSlot (fst c))) (fst (openSlot (snd c))).

Lemma as_read_contents meta : meta_ok meta → meta_Get (as_read (contents meta)) = meta_Get meta.
Proof. intros [[_ D0] [_ D1]]. unfold meta_Get, current0, as_read, contents. cbn [slot0 slot1 fst snd]. by rewrite <- D0, <- D1. Qed.

(** [Open] returns them, or neither is usable and there are SSTables. *)
Lemma meta_Open_cases c entries :
  meta_Open (fst c) (snd c) entries = Ok (as_read c) ∨
  (meta_Get (as_read c) = meta_zero ∧ countSSTables entries ≠ 0%nat ∧ meta_Open (fst c) (snd c) entries = Err ErrMetaUnreadable).
Proof.
  unfold meta_Open, as_read, openSlot. destruct (readMetaFile (fst c)), (readMetaFile (snd c)); cbn; auto;
    destruct (Nat.eqb_spec (countSSTables entries) 0); auto.
Qed.

(** A crash while [Set] is writing: the slots read as the old or the new data. *)
Lemma set_crash meta d c :
  meta_ok meta → meta_fits d → 0 ≤ md_Version (meta_Get meta) < md_Version d →
  (md_Version (meta_Get meta) = 0 → meta_Get meta = meta_zero) →
  tear_detected (f_synced (set_target meta)) d → crash (f_write (set_target meta) 0 (meta_bytes d)) c →
  meta_Get (as_read (with_target meta c)) = meta_Get meta ∨ meta_Get (as_read (with_target meta c)) = d.
Proof.
  intros [[P0 D0] [P1 D1]] Hf Hv Hz Ht Hc.
  assert (f_pending (set_target meta) = []) as Hp by (unfold set_target; by destruct (current0 meta)).
  assert (mi_data (fst (openSlot c)) = mi_data (fst (openSlot (f_synced (set_target meta)))) ∨
      mi_data (fst (openSlot c)) = d ∨ mi_data (fst (openSlot c)) = meta_zero) as Hcases.
  { destruct (crash_write_cases _ _ _ _ Hp Hc) as [->|[n ->]]; [by left|].
    destruct (decide (n = 0)%nat) as [->|]; [by left|]. right.
    destruct (decide (n < length (meta_bytes d))%nat).
    - right. unfold openSlot. by rewrite Ht by lia.
    - left. rewrite take_ge by lia. by rewrite (openSlot_data _ d) by (by apply written_view). }
  clear Hc Ht Hp. unfold as_read, set_target, with_target, meta_Get, current0 in *.
  destruct (Z.ltb_spec (md_Version (mi_data (slot1 meta))) (md_Version (mi_data (slot0 meta)))) as [Hlt|Hge];
    cbn [fst snd slot0 slot1]; rewrite <- D0, <- D1 in *; destruct Hcases as [->|[->| ->]]; cbn [md_Version meta_zero];
    match goal with |- context [?x <? ?y] => destruct (Z.ltb_spec x y) end; auto; try lia.
  left. symmetry. apply Hz. lia.
Qed.

(** Reopening after it, when there was usable data before. *)
Lemma meta_crash meta d c entries :
  meta_ok meta → meta_fits d → 0 < md_Version (meta_Get meta) < md_Version d →
  tear_detected (f_synced (set_target meta)) d →
  crash (f_write (set_target meta) 0 (meta_bytes d)) c →
  ∃ meta', meta_Open (fst (with_target meta c)) (snd (with_target meta c)) entries = Ok meta' ∧
    (meta_Get meta' = meta_Get meta ∨ meta_Get meta' = d).
Proof.
  intros Hok Hf Hv Ht Hc. pose proof (set_crash meta d c Hok Hf ltac:(lia) ltac:(lia) Ht Hc) as Hg.
  destruct (meta_Open_cases (with_target meta c) entries) as [Ho|(Hz & _)]; [eauto|].
  rewrite Hz in Hg. destruct Hg as [Hg|Hg]; rewrite <- Hg in Hv; cbn in Hv; lia.
Qed.

(** Both slots absent and an SSTable in the directory: [Open] refuses. *)
Lemma meta_Open_fresh_refused entries :
  meta_Open [] [] entries =
    if (countSSTables entries =? 0)%nat
    then Ok (MkStore (MkItem (f_open []) meta_zero) (MkItem (f_open []) meta_zero))
    else Err ErrMetaUnreadable.
Proof. done. Qed.

End Metadata.
