(* ===== verification/KV.v ===== *)
(** * The key-value store: db/kv.go

    The LSM tree in memory: the memtable, the frozen memtable of a flush in
    flight, the stack of reference-counted SSTables, the transactions with
    their snapshots, commit with conflict detection, flush and merge.  Pointers
    to SSTables and transactions are indices into the heaps [kv_tables] and
    [kv_txs]. *)

From Stdlib Require Import ZArith Lia.
From Stdlib Require Import SpecFloat.
From Stdlib.Strings Require Import Byte.
From stdpp Require Import base list numbers.
From S2P Require Import Prelude GoLib SortedSeq SortedKV SortedArray Merge File Entry SortedFile.
From S2P Require Import KVIterators Log Metadata.

Open Scope Z_scope.

(** ** Options *)

(** [float32] arithmetic: IEEE 754 binary32, round to nearest even. *)
Definition f32_of_Z (n : Z) : spec_float := binary_normalize 24 128 n 0 false.
Definition f32_mul : spec_float → spec_float → spec_float := SFmul 24 128.

Record KVOptions := MkOptions {
  o_LogShreshold : Z;
  o_LogThreshold : Z;
  o_GrowthFactor : spec_float;
}.

Definition defaultLogThreshold : Z := 1000.
Definition defaultGrowthFactor : spec_float := f32_of_Z 2.

Definition setDefaults (opts : KVOptions) : KVOptions :=
  let threshold := if o_LogThreshold opts <=? 0 then o_LogShreshold opts else o_LogThreshold opts in
  let threshold := if threshold <=? 0 then defaultLogThreshold else threshold in
  MkOptions threshold threshold
    (if SFltb (o_GrowthFactor opts) (f32_of_Z 2) then defaultGrowthFactor else o_GrowthFactor opts).

(** ** State *)

Section KV.
Context `{Bloom}.

(** An element of [tx.levels]: [*SortedArray] or [*SortedFile]. *)
Definition Level : Type := (SortedArray + SortedFile)%type.
Definition LevelIter : Type := (SortedArrayIter + SortedFileIter)%type.

#[export] Instance Level_KVIter : KVIter LevelIter := sum_KVIter.
#[export] Instance Level_SortedKV : SortedKV Level LevelIter := sum_SortedKV.

(** An open [*SortedFile] with its reference count; [tr_open] is [fp != nil]. *)
Record TableRef := MkTable {
  tr_FileName : bytes;
  tr_file : SortedFile;
  tr_open : bool;
  tr_refs : Z;
  tr_unlink : bool;
}.

Record UpdatedKey := MkUK { uk_snapshot : Z; uk_key : bytes }.

(** [type KVTX struct].  [levels] starts with [&tx.updates] in the source; the
    model keeps the rest and puts [tx_updates] in front when it reads. *)
Record KVTX := MkTX {
  tx_snapshot : Z;
  tx_updates : SortedArray;
  tx_levels : list Level;
  tx_mainSnap : list nat;
  tx_err : option error;
}.

Record KV := MkKV {
  kv_Options : KVOptions;
  kv_meta : KVMetaStore;
  kv_version : Z;
  kv_log : Log;
  kv_mem : SortedArray;
  kv_imm : option SortedArray;
  kv_main : list nat;
  kv_snapshot : Z;
  kv_history : list UpdatedKey;
  kv_ongoing : list nat;
  kv_closed : bool;
  kv_compactErr : option error;
  (* heaps and the directory *)
  kv_txs : list KVTX;
  kv_tables : list TableRef;
  kv_files : list (bytes * bytes);
}.

(** ** Field updates *)

Definition set_log (kv : KV) (x : Log) : KV :=
  MkKV (kv_Options kv) (kv_meta kv) (kv_version kv) x (kv_mem kv) (kv_imm kv) (kv_main kv) (kv_snapshot kv)
    (kv_history kv) (kv_ongoing kv) (kv_closed kv) (kv_compactErr kv) (kv_txs kv) (kv_tables kv) (kv_files kv).
Definition set_mem (kv : KV) (x : SortedArray) : KV :=
  MkKV (kv_Options kv) (kv_meta kv) (kv_version kv) (kv_log kv) x (kv_imm kv) (kv_main kv) (kv_snapshot kv)
    (kv_history kv) (kv_ongoing kv) (kv_closed kv) (kv_compactErr kv) (kv_txs kv) (kv_tables kv) (kv_files kv).
Definition set_imm (kv : KV) (x : option SortedArray) : KV :=
  MkKV (kv_Options kv) (kv_meta kv) (kv_version kv) (kv_log kv) (kv_mem kv) x (kv_main kv) (kv_snapshot kv)
    (kv_history kv) (kv_ongoing kv) (kv_closed kv) (kv_compactErr kv) (kv_txs kv) (kv_tables kv) (kv_files kv).
Definition set_main (kv : KV) (x : list nat) : KV :=
  MkKV (kv_Options kv) (kv_meta kv) (kv_version kv) (kv_log kv) (kv_mem kv) (kv_imm kv) x (kv_snapshot kv)
    (kv_history kv) (kv_ongoing kv) (kv_closed kv) (kv_compactErr kv) (kv_txs kv) (kv_tables kv) (kv_files kv).
Definition set_history (kv : KV) (snapshot : Z) (x : list UpdatedKey) : KV :=
  MkKV (kv_Options kv) (kv_meta kv) (kv_version kv) (kv_log kv) (kv_mem kv) (kv_imm kv) (kv_main kv) snapshot
    x (kv_ongoing kv) (kv_closed kv) (kv_compactErr kv) (kv_txs kv) (kv_tables kv) (kv_files kv).
Definition set_ongoing (kv : KV) (x : list nat) : KV :=
  MkKV (kv_Options kv) (kv_meta kv) (kv_version kv) (kv_log kv) (kv_mem kv) (kv_imm kv) (kv_main kv) (kv_snapshot kv)
    (kv_history kv) x (kv_closed kv) (kv_compactErr kv) (kv_txs kv) (kv_tables kv) (kv_files kv).
Definition set_txs (kv : KV) (x : list KVTX) : KV :=
  MkKV (kv_Options kv) (kv_meta kv) (kv_version kv) (kv_log kv) (kv_mem kv) (kv_imm kv) (kv_main kv) (kv_snapshot kv)
    (kv_history kv) (kv_ongoing kv) (kv_closed kv) (kv_compactErr kv) x (kv_tables kv) (kv_files kv).
Definition set_tables (kv : KV) (x : list TableRef) (files : list (bytes * bytes)) : KV :=
  MkKV (kv_Options kv) (kv_meta kv) (kv_version kv) (kv_log kv) (kv_mem kv) (kv_imm kv) (kv_main kv) (kv_snapshot kv)
    (kv_history kv) (kv_ongoing kv) (kv_closed kv) (kv_compactErr kv) (kv_txs kv) x files.
Definition set_meta (kv : KV) (x : KVMetaStore) : KV :=
  MkKV (kv_Options kv) x (kv_version kv) (kv_log kv) (kv_mem kv) (kv_imm kv) (kv_main kv) (kv_snapshot kv)
    (kv_history kv) (kv_ongoing kv) (kv_closed kv) (kv_compactErr kv) (kv_txs kv) (kv_tables kv) (kv_files kv).
Definition set_version (kv : KV) (x : Z) : KV :=
  MkKV (kv_Options kv) (kv_meta kv) x (kv_log kv) (kv_mem kv) (kv_imm kv) (kv_main kv) (kv_snapshot kv)
    (kv_history kv) (kv_ongoing kv) (kv_closed kv) (kv_compactErr kv) (kv_txs kv) (kv_tables kv) (kv_files kv).
Definition set_compactErr (kv : KV) (x : option error) : KV :=
  MkKV (kv_Options kv) (kv_meta kv) (kv_version kv) (kv_log kv) (kv_mem kv) (kv_imm kv) (kv_main kv) (kv_snapshot kv)
    (kv_history kv) (kv_ongoing kv) (kv_closed kv) x (kv_txs kv) (kv_tables kv) (kv_files kv).
Definition set_closed (kv : KV) (x : bool) : KV :=
  MkKV (kv_Options kv) (kv_meta kv) (kv_version kv) (kv_log kv) (kv_mem kv) (kv_imm kv) (kv_main kv) (kv_snapshot kv)
    (kv_history kv) (kv_ongoing kv) x (kv_compactErr kv) (kv_txs kv) (kv_tables kv) (kv_files kv).

(** ** Reference counts: [acquire], [release], [retire] (db/sorted_file.go) *)

Definition upd_table (kv : KV) (id : nat) (f : TableRef → TableRef) : KV :=
  set_tables kv (alter f id (kv_tables kv)) (kv_files kv).

Definition acquire (kv : KV) (id : nat) : KV :=
  upd_table kv id (fun t => MkTable (tr_FileName t) (tr_file t) (tr_open t) (tr_refs t + 1) (tr_unlink t)).

Definition retire (kv : KV) (id : nat) : KV :=
  upd_table kv id (fun t => MkTable (tr_FileName t) (tr_file t) (tr_open t) (tr_refs t) true).

(** [os.Remove] of a file of the directory. *)
Definition remove_file (files : list (bytes * bytes)) (name : bytes) : list (bytes * bytes) :=
  filter (fun '(n, _) => n ≠ name) files.

(** The last [release] closes the descriptor and unlinks a retired table. *)
Definition release (kv : KV) (id : nat) : res KV :=
  t ← go_index (kv_tables kv) id;
  let n := tr_refs t - 1 in
  _ ← check (0 <=? n);
  let t' := MkTable (tr_FileName t) (tr_file t) (if 0 <? n then tr_open t else false) n (tr_unlink t) in
  let files := if (0 <? n) || negb (tr_unlink t) then kv_files kv
               else remove_file (kv_files kv) (tr_FileName t) in
  Ok (set_tables kv (<[id := t']> (kv_tables kv)) files).

(** ** Transactions *)

Definition table_levels (kv : KV) (ids : list nat) : res (list Level) :=
  mapM_res (fun id => t ← go_index (kv_tables kv) id; Ok (inr (tr_file t))) ids.

(** The levels below the transaction's own updates, newest first. *)
Definition snap_levels (kv : KV) : res (list Level) :=
  files ← table_levels kv (kv_main kv);
  Ok (inl (kv_mem kv) :: match kv_imm kv with Some imm => [inl imm] | None => [] end ++ files).

(** [(kv *KV) NewTX]: the new transaction is the last of the heap. *)
Definition NewTX (kv : KV) : res (KV * nat) :=
  let id := length (kv_txs kv) in
  if kv_closed kv then
    Ok (set_txs kv (kv_txs kv ++ [MkTX 0 arr_empty [] [] (Some ErrKVClosed)]), id)
  else
    levels ← snap_levels kv;
    let tx := MkTX (kv_snapshot kv) arr_empty levels (kv_main kv) None in
    let kv := foldl acquire kv (kv_main kv) in
    let kv := set_txs kv (kv_txs kv ++ [tx]) in
    Ok (set_ongoing kv (kv_ongoing kv ++ [id]), id).

(** [slices.Index] *)
Fixpoint index_of (id : nat) (l : list nat) : option nat :=
  match l with
  | [] => None
  | x :: l => if (x =? id)%nat then Some 0%nat else S <$> index_of id l
  end.

(** Drop the history no open transaction can conflict with. *)
Definition trim_history (kv : KV) (ongoing : list nat) : res (list UpdatedKey) :=
  match ongoing with
  | [] => Ok []
  | id :: _ =>
      tx ← go_index (kv_txs kv) id;
      Ok (filter (fun h => (uk_snapshot h <? tx_snapshot tx) = false) (kv_history kv))
  end.

Definition untrackTXSync (kv : KV) (id : nat) : res KV :=
  match index_of id (kv_ongoing kv) with
  | None => Ok kv
  | Some idx =>
      let ongoing := take idx (kv_ongoing kv) ++ drop (S idx) (kv_ongoing kv) in
      history ← trim_history kv ongoing;
      tx ← go_index (kv_txs kv) id;
      let kv := set_history (set_ongoing kv ongoing) (kv_snapshot kv) history in
      let done := MkTX (tx_snapshot tx) (tx_updates tx) [] [] (Some ErrTXDone) in
      let kv := set_txs kv (<[id := done]> (kv_txs kv)) in
      foldM release kv (tx_mainSnap tx)
  end.

Definition abortTX (kv : KV) (id : nat) : res KV := untrackTXSync kv id.

(** ** Commit *)

Definition checkTXConflict (kv : KV) (tx : KVTX) : res bool :=
  if (length (kv_history kv) =? 0)%nat then Ok false else
  iter ← arr_Iter (tx_updates tx);
  for_each (fun found key _ _ =>
      Ok (found || existsb (fun other => (tx_snapshot tx <? uk_snapshot other) &&
                                         bytes_equal (uk_key other) key) (kv_history kv)))
    iter false.

(** The loop that writes the entries of a memtable or of a transaction to the
    log ([updateLog], [rewriteLog]). *)
Fixpoint write_entries (fuel : nat) (it : SortedArrayIter) (log : Log) : Log * res unit :=
  if Valid it then
    match fuel with
    | O => (log, OutOfFuel)
    | S fuel =>
        let! (log, e) := (log, k ← Key it; v ← Val it; d ← Deleted it;
                               Ok (MkEntry k v 0 (if (d : bool) then EntryDel else EntryAdd))) in
        let! (log, _u) := log_Write log e in
        let! (log, it') := (log, Next it) in
        write_entries fuel it' log
    end
  else (log, Ok tt).

(** [defer kv.log.ResetTX()] *)
Definition defer_ResetTX {A} (r : Log * res A) : Log * res A := (ResetTX (fst r), snd r).

Definition updateLog (log : Log) (updates : SortedArray) : Log * res unit :=
  defer_ResetTX
    (let! (log, iter) := (log, arr_Iter updates) in
     let! (log, _u) := write_entries (steps iter) iter log in
     log_Commit log).

Definition appendSortedArray (dst src : SortedArray) : res (option SortedArray) :=
  if (Size src =? 0)%nat then Ok (Some dst) else
  above ← (if (Size dst =? 0)%nat then Ok true else
           last ← go_index (arr_keys dst) (length (arr_keys dst) - 1);
           first ← go_index (arr_keys src) 0;
           Ok (bytes_ltb last first));
  if (above : bool) then
    Ok (Some (MkArr (arr_keys dst ++ arr_keys src) (arr_vals dst ++ arr_vals src)
                (arr_deleted dst ++ arr_deleted src)))
  else Ok None.

(** A fresh array with the merge of two memtables, the first one newer. *)
Definition merge_arrays (upper lower : SortedArray) : res SortedArray :=
  iter ← (Iter (MkMerged [upper; lower]) : res (MergedSortedKVIter SortedArrayIter));
  for_each (fun merged k v d => Ok (arr_Push merged k v d)) iter arr_empty.

Definition updateMem (mem updates : SortedArray) : res SortedArray :=
  appended ← appendSortedArray mem updates;
  match appended with
  | Some mem' => Ok mem'
  | None => merge_arrays updates mem
  end.

Definition updateHistory (kv : KV) (tx : KVTX) : res KV :=
  let snapshot := u64 (kv_snapshot kv + 1) in
  if (1 <? length (kv_ongoing kv))%nat then
    iter ← arr_Iter (tx_updates tx);
    history ← for_each (fun h key _ _ => Ok (h ++ [MkUK snapshot key])) iter (kv_history kv);
    Ok (set_history kv snapshot history)
  else Ok (set_history kv snapshot (kv_history kv)).

(** [applyTXSync] up to the deferred [untrackTXSync]. *)
Definition apply_updates (kv : KV) (tx : KVTX) : KV * res unit :=
  if (Size (tx_updates tx) =? 0)%nat then (kv, Ok tt) else
  let! (kv, conflict) := (kv, checkTXConflict kv tx) in
  if (conflict : bool) then (kv, Err ErrTXConflict) else
  let (log, r) := updateLog (kv_log kv) (tx_updates tx) in
  let kv := set_log kv log in
  let! (kv, _u) := (kv, r) in
  let! (kv, mem) := (kv, updateMem (kv_mem kv) (tx_updates tx)) in
  let kv := set_mem kv mem in
  let! (kv, kv') := (kv, updateHistory kv tx) in
  (kv', Ok tt).

(** [Commit] of a top-level transaction. *)
Definition applyTXSync (kv : KV) (id : nat) : KV * res unit :=
  let! (kv, tx) := (kv, go_index (kv_txs kv) id) in
  match tx_err tx with
  | Some e => (kv, Err e)
  | None =>
      let (kv, r) := apply_updates kv tx in
      let! (kv, kv') := (kv, untrackTXSync kv id) in
      (kv', r)
  end.

(** ** Reads and writes of a transaction *)

Definition tx_stack (tx : KVTX) : MergedSortedKV Level :=
  MkMerged (inl (tx_updates tx) :: tx_levels tx).

Definition tx_Get (tx : KVTX) (key : bytes) : res (option bytes) :=
  match tx_err tx with
  | Some e => Err e
  | None =>
      '(val, found, deleted) ← m_getExact (tx_stack tx) key;
      Ok (if negb found || deleted then None else Some val)
  end.

Definition set_updates (tx : KVTX) (updates : SortedArray) : KVTX :=
  MkTX (tx_snapshot tx) updates (tx_levels tx) (tx_mainSnap tx) (tx_err tx).

Definition tx_SetEx (tx : KVTX) (key val : bytes) (mode : Z) : KVTX * res bool :=
  let! (tx, old) := (tx, tx_Get tx key) in
  let exist := match old with Some _ => true | None => false end in
  let same := match old with Some v => bytes_equal v val | None => false end in
  let! (tx, updated) := (tx,
    if mode =? ModeUpsert then Ok (negb exist || negb same)
    else if mode =? ModeInsert then Ok (negb exist)
    else if mode =? ModeUpdate then Ok (exist && negb same)
    else Err (errorsNew "invalid update mode")) in
  if (updated : bool) then
    let! (tx, r) := (tx, arr_Set (tx_updates tx) key val) in
    (set_updates tx (fst r), Ok true)
  else (tx, Ok false).

Definition tx_Set (tx : KVTX) (key val : bytes) : KVTX * res bool := tx_SetEx tx key val ModeUpsert.

Definition tx_Del (tx : KVTX) (key : bytes) : KVTX * res bool :=
  let! (tx, old) := (tx, tx_Get tx key) in
  match old with
  | None => (tx, Ok false)
  | Some _ =>
      let! (tx, r) := (tx, arr_Del (tx_updates tx) key) in
      (set_updates tx (fst r), Ok true)
  end.

Definition TXIter : Type := NoDeletedIter (MergedSortedKVIter LevelIter).

Definition tx_Seek (tx : KVTX) (key : bytes) : res TXIter :=
  match tx_err tx with
  | Some e => Err e
  | None => iter ← (Seek (tx_stack tx) key : res (MergedSortedKVIter LevelIter)); filterDeleted iter
  end.

Definition tx_SeekToLast (tx : KVTX) : res TXIter :=
  match tx_err tx with
  | Some e => Err e
  | None => iter ← (SeekToLast (tx_stack tx) : res (MergedSortedKVIter LevelIter)); filterDeletedBackward iter
  end.

Definition tx_Range (tx : KVTX) (start stop : bytes) (desc : bool) : res (RangedKVIter TXIter) :=
  iter ← tx_Seek tx start; rg_start iter start stop desc.

(** [IterAll] of the store, before the cleanup function is called. *)
Definition tx_IterAll (tx : KVTX) : res TXIter :=
  match tx_err tx with
  | Some e => Err e
  | None => iter ← (Iter (tx_stack tx) : res (MergedSortedKVIter LevelIter)); filterDeleted iter
  end.

(** *** Nested transactions *)

(** [(tx *KVTX) NewTX]: the inner transaction reads through the outer one.  The
    code keeps a pointer to the updates of the outer transaction, here they are
    copied: the two agree as long as the outer transaction is not written while
    the inner one is open. *)
Definition nested_NewTX (tx : KVTX) : KVTX :=
  MkTX 0 arr_empty (inl (tx_updates tx) :: tx_levels tx) [] (tx_err tx).

(** [(tx *KVTX) applyTX]: replay the inner updates on the outer ones. *)
Definition nested_applyTX (tx inner : KVTX) : KVTX * res unit :=
  match tx_err inner with
  | Some e => (tx, Err e)
  | None =>
      let! (tx, updates) := (tx,
        iter ← arr_Iter (tx_updates inner);
        for_each (fun updates k v (d : bool) =>
            if d then '(u, _) ← arr_Del updates k; Ok u
            else '(u, _) ← arr_Set updates k v; Ok u)
          iter (tx_updates tx)) in
      (set_updates tx updates, Ok tt)
  end.

(** *** Single operations of the store *)

Definition abortOrCommit (kv : KV) (id : nat) (r : res bool) : KV * res bool :=
  match r with
  | Ok updated => let! (kv, _u) := applyTXSync kv id in (kv, Ok updated)
  | Err e => let! (kv, kv') := (kv, abortTX kv id) in (kv', Err e)
  | Panic s => (kv, Panic s)
  | OutOfFuel => (kv, OutOfFuel)
  end.

(** Run an operation on the transaction [id] of the heap. *)
Definition with_tx {A} (kv : KV) (id : nat) (f : KVTX → KVTX * res A) : KV * res A :=
  match kv_txs kv !! id with
  | None => (kv, Panic "index out of range")
  | Some tx => let (tx', r) := f tx in (set_txs kv (<[id := tx']> (kv_txs kv)), r)
  end.

Definition kv_SetEx (kv : KV) (key val : bytes) (mode : Z) : KV * res bool :=
  let! (kv, p) := (kv, NewTX kv) in
  let (kv, id) := (p : KV * nat) in
  let (kv, r) := with_tx kv id (fun tx => tx_SetEx tx key val mode) in
  abortOrCommit kv id r.

Definition kv_Set (kv : KV) (key val : bytes) : KV * res bool := kv_SetEx kv key val ModeUpsert.

Definition kv_Del (kv : KV) (key : bytes) : KV * res bool :=
  let! (kv, p) := (kv, NewTX kv) in
  let (kv, id) := (p : KV * nat) in
  let (kv, r) := with_tx kv id (fun tx => tx_Del tx key) in
  abortOrCommit kv id r.

(** [(kv *KV) Get] of a store without a cache. *)
Definition kv_Get (kv : KV) (key : bytes) : KV * res (option bytes) :=
  let! (kv, p) := (kv, NewTX kv) in
  let (kv, id) := (p : KV * nat) in
  let (kv, r) := with_tx kv id (fun tx => (tx, tx_Get tx key)) in
  let! (kv, kv') := (kv, abortTX kv id) in
  (kv', r).

End KV.
