(* ===== verification/KVCompact.v ===== *)
(** * Flush, merge, recovery and shutdown of the store: db/kv.go

    [compactLog] freezes the memtable, writes it as an SSTable, publishes it in
    the metadata and rewrites the log around the live memtable;
    [compactSSTable] merges two adjacent SSTables; [Open] recovers the memtable
    from the log and the SSTables from the metadata. *)

From Stdlib Require Import ZArith Lia.
From Stdlib Require Import SpecFloat.
From Stdlib.Strings Require Import Byte.
From stdpp Require Import base list numbers.
From S2P Require Import Prelude GoLib SortedSeq SortedKV SortedArray Merge File Entry SortedFile.
From S2P Require Import KVIterators Log Metadata KV.

Open Scope Z_scope.

(** ** File names *)

Definition sstablePrefix : bytes := bs "sstable_".
Definition sstableName (version : Z) : bytes := sstablePrefix ++ FormatUint version.

Section Compact.
Context `{Bloom} `{MetaJson}.

Definition file_content (files : list (bytes * bytes)) (name : bytes) : bytes :=
  match filter (fun '(n, _) => n = name) files with
  | (_, c) :: _ => c
  | [] => []
  end.

Definition put_file (files : list (bytes * bytes)) (name content : bytes) : list (bytes * bytes) :=
  (name, content) :: remove_file files name.

(** [file.CreateFromSorted(src)] with or without the tombstone filter; the new
    handle is the last of the heap. *)
Definition create_table `{KVIter It} `{!SortedKV T It} (kv : KV) (name : bytes) (dropTombstones : bool) (src : T)
    : KV * res nat :=
  let old := file_content (kv_files kv) name in
  let! (kv, file) := (kv, if dropTombstones then CreateFromSorted old (NDKV src) else CreateFromSorted old src) in
  (set_tables kv (kv_tables kv ++ [MkTable name file true 0 false])
     (put_file (kv_files kv) name (sf_fp file)), Ok (length (kv_tables kv))).

(** ** Flushing the memtable *)

(** The first critical section of [compactLog]: freeze the memtable. *)
Definition flush_freeze (kv : KV) : KV * res (option (Z * SortedArray * bool)) :=
  match kv_imm kv with
  | Some _ => (kv, Panic "assertion failure")
  | None =>
      if (Size (kv_mem kv) =? 0)%nat then (kv, Ok None) else
      let version := u64 (kv_version kv + 1) in
      let frozen := kv_mem kv in
      let kv := set_imm (set_mem (set_version kv version) arr_empty) (Some frozen) in
      (kv, Ok (Some (version, frozen, match kv_main kv with [] => true | _ => false end)))
  end.

Definition unfreeze (kv : KV) : res KV :=
  match kv_imm kv with
  | None => Ok kv
  | Some imm =>
      merged ← merge_arrays (kv_mem kv) imm;
      Ok (set_imm (set_mem kv merged) None)
  end.

(** Write the frozen memtable; a failure rolls the freeze back. *)
Definition flush_write (kv : KV) (version : Z) (frozen : SortedArray) (dropTombstones : bool) : KV * res nat :=
  let name := sstableName version in
  match create_table kv name dropTombstones frozen with
  | (kv, Ok id) => (kv, Ok id)
  | (kv, r) =>
      let! (kv, kv') := (kv, unfreeze kv) in
      (set_tables kv' (kv_tables kv') (remove_file (kv_files kv') name), r)
  end.

(** Publish the table in the metadata. *)
Definition flush_meta (kv : KV) (version : Z) : KV :=
  let meta := meta_Get (kv_meta kv) in
  set_meta kv (meta_Set (kv_meta kv) (MkMeta version (sstableName version :: md_SSTables meta))).

(** The last critical section: the table replaces the frozen memtable. *)
Definition flush_install (kv : KV) (id : nat) : KV :=
  set_imm (set_main (acquire kv id) (id :: kv_main kv)) None.

Definition rewriteLog (log : Log) (live : SortedArray) : Log * res unit :=
  let! (log, _u) := log_Truncate log in
  if (Size live =? 0)%nat then (log, Ok tt) else
  defer_ResetTX
    (let! (log, iter) := (log, arr_Iter live) in
     let! (log, _u) := write_entries (steps iter) iter log in
     log_Commit log).

Definition compactLog (kv : KV) : KV * res unit :=
  let! (kv, plan) := flush_freeze kv in
  match plan with
  | None => (kv, Ok tt)
  | Some (version, frozen, dropTombstones) =>
      let! (kv, id) := flush_write kv version frozen dropTombstones in
      let kv := flush_install (flush_meta kv version) id in
      let (log, r) := rewriteLog (kv_log kv) (kv_mem kv) in
      (set_log kv log, r)
  end.

(** ** Merging SSTables *)

(** The last critical section: the new table takes the place of the two old
    ones, which live on until the last snapshot releases them. *)
Definition merge_install (kv : KV) (level old1 old2 id : nat) : KV * res unit :=
  let! (kv, _u) := (kv, check (bool_decide (kv_main kv !! level = Some old1 ∧
                                           kv_main kv !! (level + 1)%nat = Some old2))) in
  let kv := set_main (acquire kv id) (take level (kv_main kv) ++ id :: drop (level + 2) (kv_main kv)) in
  let kv := retire (retire kv old1) old2 in
  let! (kv, kv1) := (kv, release kv old1) in
  let! (kv1, kv2) := (kv1, release kv1 old2) in
  (kv2, Ok tt).

Definition merge_meta (kv : KV) (level : nat) (version : Z) : KV :=
  let ssts := md_SSTables (meta_Get (kv_meta kv)) in
  set_meta kv (meta_Set (kv_meta kv)
    (MkMeta version (take level ssts ++ sstableName version :: drop (level + 2) ssts))).

(** The first critical section: pick the two tables and a version. *)
Definition merge_plan (kv : KV) (level : nat) : KV * res (option (Z * nat * nat * bool)) :=
  if (length (kv_main kv) <=? level + 1)%nat then (kv, Ok None) else
  let version := u64 (kv_version kv + 1) in
  let kv := set_version kv version in
  let! (kv, old1) := (kv, go_index (kv_main kv) level) in
  let! (kv, old2) := (kv, go_index (kv_main kv) (level + 1)) in
  (kv, Ok (Some (version, old1, old2, (length (kv_main kv) =? level + 2)%nat))).

(** Write the merged table with no lock held; a failure removes the file. *)
Definition merge_write (kv : KV) (version : Z) (old1 old2 : nat) (dropTombstones : bool) : KV * res nat :=
  let name := sstableName version in
  let! (kv, t1) := (kv, go_index (kv_tables kv) old1) in
  let! (kv, t2) := (kv, go_index (kv_tables kv) old2) in
  match create_table (It := MergedSortedKVIter SortedFileIter) kv name dropTombstones
          (MkMerged [tr_file t1; tr_file t2]) with
  | (kv, Ok id) => (kv, Ok id)
  | (kv, r) => (set_tables kv (kv_tables kv) (remove_file (kv_files kv) name), r)
  end.

Definition compactSSTable (kv : KV) (level : nat) : KV * res unit :=
  let! (kv, plan) := merge_plan kv level in
  match plan with
  | None => (kv, Ok tt)
  | Some (version, old1, old2, dropTombstones) =>
      let! (kv, id) := merge_write kv version old1 old2 dropTombstones in
      merge_install (merge_meta kv level version) level old1 old2 id
  end.

Definition shouldMerge (kv : KV) (cur next : nat) : bool :=
  SFleb (f32_of_Z (Z.of_nat next)) (f32_mul (f32_of_Z (Z.of_nat cur)) (o_GrowthFactor (kv_Options kv))).

(** The first level out of the growth-factor ratio. *)
Fixpoint pick_level (kv : KV) (i : nat) (main : list nat) : res (option nat) :=
  match main with
  | id1 :: ((id2 :: _) as rest) =>
      t1 ← go_index (kv_tables kv) id1;
      t2 ← go_index (kv_tables kv) id2;
      if shouldMerge kv (EstimatedSize (tr_file t1)) (EstimatedSize (tr_file t2))
      then Ok (Some i) else pick_level kv (S i) rest
  | _ => Ok None
  end.

Definition compactOnce (kv : KV) : KV * res unit :=
  if kv_closed kv then (kv, Err ErrKVClosed) else
  let! (kv, _u) := (if o_LogThreshold (kv_Options kv) <=? Z.of_nat (Size (kv_mem kv))
                    then compactLog kv else (kv, Ok tt)) in
  let! (kv, level) := (kv, pick_level kv 0 (kv_main kv)) in
  match level with
  | None => (kv, Ok tt)
  | Some level => compactSSTable kv level
  end.

Definition Compact (kv : KV) : KV * res unit :=
  match compactOnce kv with
  | (kv, Err e) => (if decide (e = ErrKVClosed) then kv else set_compactErr kv (Some e), Err e)
  | r => r
  end.

(** ** Opening *)

(** [slices.SortStableFunc] by key: insert behind every smaller or equal key. *)
Fixpoint insert_stable (e : Entry) (l : list Entry) : list Entry :=
  match l with
  | [] => [e]
  | e' :: l' =>
      match bytes_compare (en_key e) (en_key e') with
      | Lt => e :: l
      | _ => e' :: insert_stable e l'
      end
  end.
Definition sort_stable (l : list Entry) : list Entry := foldl (fun acc e => insert_stable e acc) [] l.

(** The memtable of the replayed entries: the last one of a key wins. *)
Definition mem_of_entries (entries : list Entry) : res SortedArray :=
  foldM (fun mem ent =>
      let n := Size mem in
      mem ← (if (0 <? n)%nat then
               k ← arr_Key mem (n - 1);
               if bytes_equal k (en_key ent) then arr_Pop mem else Ok mem
             else Ok mem);
      Ok (arr_Push mem (en_key ent) (en_val ent) (bool_decide (en_op ent = EntryDel))))
    arr_empty (sort_stable entries).

Definition openLog (content : bytes) : Log * res SortedArray :=
  let! (log, entries) := replay content in
  (log, mem_of_entries entries).

Definition open_tables (files : list (bytes * bytes)) (names : list bytes) : res (list TableRef) :=
  mapM_res (fun name => file ← openExisting (file_content files name);
                        Ok (MkTable name file true 1 false)) names.

(** [sweepOrphanSSTables]: files with the prefix that the metadata does not name. *)
Definition sweepOrphanSSTables (files : list (bytes * bytes)) (referenced : list bytes) : list (bytes * bytes) :=
  filter (fun '(name, _) => take (length sstablePrefix) name ≠ sstablePrefix ∨ name ∈ referenced) files.

(** The durable state of a store. *)
Record disk := MkDisk { d_meta0 : bytes; d_meta1 : bytes; d_log : bytes; d_files : list (bytes * bytes) }.

Definition kv_Open (opts : KVOptions) (d : disk) : res KV :=
  let opts := setDefaults opts in
  meta ← meta_Open (d_meta0 d) (d_meta1 d) ((fun '(n, _) => (n, false)) <$> d_files d);
  let (log, r) := openLog (d_log d) in
  mem ← r;
  let md := meta_Get meta in
  tables ← open_tables (d_files d) (md_SSTables md);
  Ok (MkKV opts meta (md_Version md) log mem None (seq 0 (length tables)) 0 [] [] false None [] tables
        (sweepOrphanSSTables (d_files d) (md_SSTables md))).

(** ** Closing *)

(** [Close] after the open transactions have finished. *)
Definition kv_Close (kv : KV) : res KV :=
  if kv_closed kv then Ok kv else
  let kv := set_closed kv true in
  let main := kv_main kv in
  let kv := set_imm (set_main kv []) None in
  kv ← foldM release kv main;
  Ok (set_log kv (log_Close (kv_log kv))).

End Compact.
