(* ===== verification/KVProofs.v ===== *)
(** * Transactions: snapshot isolation and first committer wins

    The store refines a sequence of committed states.  [inv] relates a store
    with the commits that were made: every open transaction reads the state of
    its snapshot, the history holds what the conflict check needs, and every
    table that can still be read is open. *)

From Stdlib Require Import ZArith Lia.
From Stdlib.Strings Require Import Byte.
From stdpp Require Import base list numbers.
From S2P Require Import Prelude GoLib SortedSeq SortedKV SortedArray Merge File Entry SortedFile.
From S2P Require Import SortedFileProofs KVIterators Log Metadata KV KVCompact.

Open Scope Z_scope.

(** ** Memtable operations *)

Lemma foldM_push s acc :
  foldM (fun merged e => Ok (arr_Push merged (e_key e) (e_val e) (e_del e))) (arr_of acc) s
  = Ok (arr_of (acc ++ s)).
Proof.
  revert acc. induction s as [|[k v d] s IH]; intros acc; cbn [foldM].
  - by rewrite app_nil_r.
  - rs. cbn [e_key e_val e_del]. rewrite arr_Push_of, IH. by rewrite <- (assoc_L (++)).
Qed.

Lemma merge_arrays_spec a b :
  sorted a → sorted b → merge_arrays (arr_of a) (arr_of b) = Ok (arr_of (merge_levels [a; b])).
Proof.
  intros Ha Hb. unfold merge_arrays.
  assert (Holds (It := MergedSortedKVIter SortedArrayIter) (MkMerged [arr_of a; arr_of b])
    (merge_levels [a; b])) as Hh.
  { exists [a; b]. split; [|done]. repeat constructor; done. }
  destruct (Holds_iter _ _ Hh) as (it & Hit & Hat). rewrite Hit. rs.
  rewrite (for_each_spec _ it _ _ Hat). apply (foldM_push _ []).
Qed.

Lemma merge_levels_two a b : merge_levels [a; b] = overlay a (overlay b []).
Proof. done. Qed.

Lemma merge_levels_overlay a b : sorted a → sorted b → merge_levels [a; b] = overlay a b.
Proof.
  intros Ha Hb. apply sorted_ext; [apply merge_levels_sorted|by apply overlay_sorted|].
  intros k. rewrite assoc_merge_levels, assoc_overlay by done. cbn.
  by destruct (assoc a k), (assoc b k).
Qed.

Lemma overlay_append a b :
  sorted a → sorted b → (∀ x y, x ∈ a → y ∈ b → ent_lt x y) → overlay b a = a ++ b.
Proof.
  intros Ha Hb Hlt. apply sorted_ext; [by apply overlay_sorted|by apply sorted_app|].
  intros k. rewrite assoc_overlay, assoc_app by done.
  destruct (assoc b k) as [eb|] eqn:Eb, (assoc a k) as [ea|] eqn:Ea; try done.
  exfalso. pose proof (assoc_Some_key _ _ _ Eb) as K1. pose proof (assoc_Some_key _ _ _ Ea) as K2.
  apply assoc_elem in Ea, Eb. specialize (Hlt _ _ Ea Eb). unfold ent_lt in Hlt.
  rewrite K1, K2 in Hlt. by apply bytes_lt_irrefl in Hlt.
Qed.

Lemma appendSortedArray_spec m u :
  sorted m → sorted u →
  appendSortedArray (arr_of m) (arr_of u) = Ok None ∨
  appendSortedArray (arr_of m) (arr_of u) = Ok (Some (arr_of (overlay u m))).
Proof.
  intros Hm Hu. unfold appendSortedArray. rewrite !arr_size_of.
  destruct u as [|e u]; cbn [length Nat.eqb]; [by right|].
  assert ((∀ a b, a ∈ m → b ∈ e :: u → ent_lt a b) →
    MkArr (arr_keys (arr_of m) ++ arr_keys (arr_of (e :: u))) (arr_vals (arr_of m) ++ arr_vals (arr_of (e :: u)))
      (arr_deleted (arr_of m) ++ arr_deleted (arr_of (e :: u))) = arr_of (overlay (e :: u) m)) as Hfin.
  { intros Hx. rewrite overlay_append by auto. unfold arr_of. cbn [arr_keys arr_vals arr_deleted].
    by rewrite !fmap_app. }
  destruct (Nat.eqb_spec (length m) 0) as [Hz|Hz].
  - rs. right. rewrite Hfin; [done|]. intros a b Ha. apply nil_length_inv in Hz as ->. by apply elem_of_nil in Ha.
  - change (arr_keys (arr_of m)) with (e_key <$> m). rewrite (length_fmap e_key m).
    destruct (lookup_lt_is_Some_2 m (length m - 1)) as [l Hl]; [lia|].
    rewrite (proj2 (go_index_ok (e_key <$> m) (length m - 1) (e_key l))) by (by rewrite list_lookup_fmap, Hl).
    rs. change (go_index (arr_keys (arr_of (e :: u))) 0) with (Ok (A := bytes) (e_key e)). rs.
    destruct (bytes_ltb (e_key l) (e_key e)) eqn:Hlt; [right|by left]. apply bytes_ltb_lt in Hlt.
    do 2 f_equal. apply Hfin. intros a b Ha Hb.
    assert (ent_lt a l ∨ a = l) as Hal.
    { apply list_elem_of_lookup_1 in Ha as [i Hi]. apply lookup_lt_Some in Hi as Hil.
      destruct (decide (i = length m - 1)%nat) as [->|]; [right; congruence|].
      left. eapply (sorted_lookup_lt m i (length m - 1)); [done..|lia]. }
    assert (ent_lt e b ∨ e = b) as Heb.
    { apply sorted_cons in Hu as [_ Hf]. apply elem_of_cons in Hb as [->|Hb]; [by right|].
      left. rewrite Forall_forall in Hf. by apply Hf. }
    unfold ent_lt in *.
    assert (bytes_lt (e_key a) (e_key e)) as Hae
      by (destruct Hal as [Hal| ->]; [exact (bytes_lt_trans _ _ _ Hal Hlt)|exact Hlt]).
    destruct Heb as [Heb|<-]; [exact (bytes_lt_trans _ _ _ Hae Heb)|exact Hae].
Qed.

(** Folding a transaction into the memtable, on both paths. *)
Lemma updateMem_spec m u :
  sorted m → sorted u → updateMem (arr_of m) (arr_of u) = Ok (arr_of (overlay u m)).
Proof.
  intros Hm Hu. unfold updateMem.
  destruct (appendSortedArray_spec m u Hm Hu) as [-> | ->]; rs; [|done].
  rewrite merge_arrays_spec by done. by rewrite merge_levels_overlay.
Qed.

(** ** The conflict check and the history *)

Section conflict.
Context `{Bloom}.

Definition conflicts (history : list UpdatedKey) (snapshot : Z) (u : list ent) : bool :=
  existsb (fun e => existsb (fun other => (snapshot <? uk_snapshot other) &&
                                          bytes_equal (uk_key other) (e_key e)) history) u.

Lemma conflicts_true history snapshot u :
  conflicts history snapshot u = true ↔
  ∃ n e, MkUK n (e_key e) ∈ history ∧ e ∈ u ∧ snapshot < n.
Proof.
  unfold conflicts. rewrite existsb_exists. split.
  - intros (e & He & Hx). apply existsb_exists in Hx as ([n k] & Hh & Hc).
    apply andb_true_iff in Hc as [Hn%Z.ltb_lt Hk%bytes_equal_eq]. cbn in *. subst k.
    exists n, e. rewrite !list_elem_of_In. auto.
  - intros (n & e & Hh & He & Hn). exists e. rewrite <- list_elem_of_In. split; [done|].
    apply existsb_exists. exists (MkUK n (e_key e)). rewrite <- list_elem_of_In. split; [done|].
    apply andb_true_iff. cbn. split; [by apply Z.ltb_lt|apply bytes_equal_refl].
Qed.

Lemma arr_for_each {St} (body : St → bytes → bytes → bool → res St) s st it :
  sorted s → arr_Iter (arr_of s) = Ok it →
  for_each body it st = foldM (fun st e => body st (e_key e) (e_val e) (e_del e)) st s.
Proof.
  intros Hs [= <-]. apply for_each_spec. split; [done|]. split; [done|]. lia.
Qed.

Lemma foldM_or (f : ent → bool) s acc :
  foldM (fun found e => Ok (found || f e)) acc s = Ok (acc || existsb f s).
Proof.
  revert acc. induction s as [|e s IH]; intros acc; cbn [foldM existsb]; rs; [by rewrite orb_false_r|].
  rewrite IH. by rewrite orb_assoc.
Qed.

Lemma checkTXConflict_spec kv tx u :
  sorted u → tx_updates tx = arr_of u →
  checkTXConflict kv tx = Ok (conflicts (kv_history kv) (tx_snapshot tx) u).
Proof.
  intros Hu Htx. unfold checkTXConflict. destruct (kv_history kv) as [|h hs] eqn:Eh.
  - cbn [length Nat.eqb]. f_equal. unfold conflicts. symmetry.
    apply not_true_is_false. intros (e & _ & Hx)%existsb_exists. done.
  - cbn [length Nat.eqb]. rewrite Htx. change (arr_Iter (arr_of u)) with (Ok (arr_iter_at (arr_of u) 0)). rs.
    rewrite (arr_for_each _ u) by done.
    rewrite (foldM_or (fun e => existsb (fun other => (tx_snapshot tx <? uk_snapshot other) &&
      bytes_equal (uk_key other) (e_key e)) (h :: hs))). done.
Qed.

Lemma updateHistory_spec kv tx u :
  sorted u → tx_updates tx = arr_of u →
  updateHistory kv tx =
    Ok (set_history kv (u64 (kv_snapshot kv + 1))
      (kv_history kv ++ if (1 <? length (kv_ongoing kv))%nat
                        then (fun e => MkUK (u64 (kv_snapshot kv + 1)) (e_key e)) <$> u else [])).
Proof.
  intros Hu Htx. unfold updateHistory. destruct (1 <? length (kv_ongoing kv))%nat.
  - rewrite Htx. change (arr_Iter (arr_of u)) with (Ok (arr_iter_at (arr_of u) 0)). rs.
    rewrite (arr_for_each _ u) by done.
    assert (∀ acc, foldM (fun h e => Ok (h ++ [MkUK (u64 (kv_snapshot kv + 1)) (e_key e)])) acc u =
      Ok (acc ++ ((fun e => MkUK (u64 (kv_snapshot kv + 1)) (e_key e)) <$> u))) as ->; [|done].
    clear. induction u as [|e u IH]; intros acc; cbn [foldM fmap list_fmap]; [by rewrite app_nil_r|].
    rs. rewrite IH. by rewrite <- (assoc_L (++)).
  - by rewrite app_nil_r.
Qed.

End conflict.

(** ** Ordered lists *)

Lemma StronglySorted_snoc {A} (R : A → A → Prop) l x :
  StronglySorted R l → (∀ y, y ∈ l → R y x) → StronglySorted R (l ++ [x]).
Proof.
  induction 1 as [|y l Hs IH Hf]; intros Hx; cbn; [repeat constructor|].
  constructor; [apply IH; intros; apply Hx; by right|].
  apply Forall_app. split; [done|]. apply Forall_singleton, Hx. by left.
Qed.

Lemma StronglySorted_weaken {A} (R R' : A → A → Prop) l :
  StronglySorted R l → (∀ a b, a ∈ l → b ∈ l → R a b → R' a b) → StronglySorted R' l.
Proof.
  induction 1 as [|y l Hs IH Hf]; intros Hx; constructor.
  - apply IH. intros a b Ha Hb. apply Hx; by right.
  - rewrite Forall_forall in *. intros z Hz. apply Hx; [by left|by right|by apply Hf].
Qed.

Lemma StronglySorted_remove {A} (R : A → A → Prop) l1 x l2 :
  StronglySorted R (l1 ++ x :: l2) → StronglySorted R (l1 ++ l2).
Proof.
  induction l1 as [|y l1 IH]; cbn; inversion 1; subst; [done|].
  constructor; [by apply IH|]. apply Forall_app in H3 as [H3 H4]. apply Forall_app.
  split; [done|]. by inversion H4.
Qed.

(** ** Views *)

(** Two entry sequences that every reader sees alike. *)
Definition same_view (s t : list ent) : Prop := ∀ k, visible (assoc s k) = visible (assoc t k).

#[export] Instance same_view_equiv : Equivalence same_view.
Proof.
  split.
  - intros s k. done.
  - intros s t Hst k. by rewrite Hst.
  - intros s t u H1 H2 k. by rewrite H1, H2.
Qed.

Lemma visible_overlay u s k :
  sorted s → visible (assoc (overlay u s) k) =
    match assoc u k with Some e => visible (Some e) | None => visible (assoc s k) end.
Proof. intros Hs. rewrite assoc_overlay by done. by destruct (assoc u k). Qed.

Lemma overlay_same_view u s t : sorted s → sorted t → same_view s t → same_view (overlay u s) (overlay u t).
Proof. intros Hs Ht Hst k. rewrite !visible_overlay by done. by rewrite Hst. Qed.

(** The state after the first [n] commits. *)
Definition state_at (init : list ent) (commits : list (list ent)) (n : nat) : list ent :=
  foldl (fun s u => overlay u s) init (take n commits).

Lemma state_at_sorted init commits n : sorted init → sorted (state_at init commits n).
Proof.
  unfold state_at. revert init. induction (take n commits) as [|u us IH]; intros init Hs; [done|].
  cbn. apply IH. by apply overlay_sorted.
Qed.

Lemma state_at_app init commits u n :
  (n ≤ length commits)%nat → state_at init (commits ++ [u]) n = state_at init commits n.
Proof. intros Hn. unfold state_at. by rewrite take_app_le by lia. Qed.

Lemma state_at_snoc init commits u :
  state_at init (commits ++ [u]) (S (length commits)) = overlay u (state_at init commits (length commits)).
Proof.
  unfold state_at. rewrite take_ge by (rewrite length_app; simpl; lia).
  rewrite foldl_app. cbn. by rewrite take_ge by lia.
Qed.

(** A key the commits after [n] do not touch has its value of [n]. *)
Lemma state_at_untouched init commits n m k :
  sorted init → (n ≤ m ≤ length commits)%nat →
  (∀ i u, (n ≤ i < m)%nat → commits !! i = Some u → assoc u k = None) →
  assoc (state_at init commits m) k = assoc (state_at init commits n) k.
Proof.
  intros Hs Hnm Hun. induction m as [|m IH]; [f_equal; f_equal; lia|].
  destruct (decide (n = S m)) as [->|]; [done|].
  rewrite <- IH; [|lia|intros i u Hi; apply Hun; lia].
  destruct (lookup_lt_is_Some_2 commits m) as [u Hu]; [lia|].
  unfold state_at at 1. rewrite (take_S_r _ _ _ Hu), foldl_app. cbn.
  rewrite assoc_overlay by (by apply (state_at_sorted init commits m)).
  by rewrite (Hun m u) by (lia || done).
Qed.

Section si.
Context `{BL : BloomLaws}.

#[export] Instance Level_IterLaws : IterLaws LevelIter := sum_IterLaws.
#[export] Instance Level_SortedKVLaws : SortedKVLaws Level LevelIter := sum_SortedKVLaws.

Definition lv_holds (l : Level) (s : list ent) : Prop :=
  match l with
  | inl a => a = arr_of s ∧ sorted s
  | inr f => sf_Holds f s
  end.

Definition levels_hold (levels : list Level) (ls : list (list ent)) : Prop := Forall2 lv_holds levels ls.

(** The entries of the tables [ids]. *)
Definition tables_hold (kv : KV) (ids : list nat) (ls : list (list ent)) : Prop :=
  Forall2 (fun id s => ∃ t, kv_tables kv !! id = Some t ∧ sf_Holds (tr_file t) s) ids ls.

(** A transaction that reads the state of commit [n]. *)
Definition tx_reads (init : list ent) (commits : list (list ent)) (tx : KVTX) (n : nat) : Prop :=
  tx_err tx = None ∧ tx_snapshot tx = Z.of_nat n ∧ (n ≤ length commits)%nat ∧
  (∃ ls, levels_hold (tx_levels tx) ls ∧ same_view (merge_levels ls) (state_at init commits n)) ∧
  ∃ u, tx_updates tx = arr_of u ∧ sorted u.

(** [a] was started before [b] committed anything new. *)
Definition tx_older (txs : list KVTX) (a b : nat) : Prop :=
  ∀ txa txb, txs !! a = Some txa → txs !! b = Some txb → tx_snapshot txa ≤ tx_snapshot txb.

(** The transactions in [skip] are about to finish: the conflict check will not
    run for them again. *)
Record inv_but (skip : nat → Prop) (kv : KV) (init : list ent) (commits : list (list ent)) : Prop := {
  i_init : sorted init;
  i_commits : Forall sorted commits;
  i_snapshot : kv_snapshot kv = Z.of_nat (length commits);
  i_now : ∃ m ims fs, kv_mem kv = arr_of m ∧ sorted m ∧
    (match kv_imm kv with
     | Some imm => ∃ s, ims = [s] ∧ imm = arr_of s ∧ sorted s
     | None => ims = []
     end) ∧
    tables_hold kv (kv_main kv) fs ∧
    same_view (merge_levels (m :: ims ++ fs)) (state_at init commits (length commits));
  i_txs id : id ∈ kv_ongoing kv → ∃ tx n, kv_txs kv !! id = Some tx ∧ tx_reads init commits tx n;
  i_nodup : NoDup (kv_ongoing kv);
  i_ordered : StronglySorted (tx_older (kv_txs kv)) (kv_ongoing kv);
  i_sound h : h ∈ kv_history kv → ∃ i u e, commits !! i = Some u ∧ e ∈ u ∧
    uk_snapshot h = Z.of_nat (S i) ∧ uk_key h = e_key e;
  i_complete id tx i u e : ¬ skip id → id ∈ kv_ongoing kv → kv_txs kv !! id = Some tx →
    commits !! i = Some u → tx_snapshot tx ≤ Z.of_nat i → e ∈ u →
    MkUK (Z.of_nat (S i)) (e_key e) ∈ kv_history kv;
}.

#[local] Arguments i_init {skip kv init commits}.
#[local] Arguments i_commits {skip kv init commits}.
#[local] Arguments i_snapshot {skip kv init commits}.
#[local] Arguments i_txs {skip kv init commits}.
#[local] Arguments i_nodup {skip kv init commits}.
#[local] Arguments i_ordered {skip kv init commits}.
#[local] Arguments i_complete {skip kv init commits}.

Definition inv : KV → list ent → list (list ent) → Prop := inv_but (fun _ => False).

Lemma inv_but_weaken (skip skip' : nat → Prop) kv init commits :
  (∀ id, skip id → skip' id) → inv_but skip kv init commits → inv_but skip' kv init commits.
Proof. intros Hsub [I1 I2 I3 I4 I5 I6 I7 I8 I9]. constructor; try done. intros id tx i u e Hs. apply I9. auto. Qed.

(** *** Reading levels *)

Lemma table_levels_hold kv ids ls :
  tables_hold kv ids ls → ∃ fs, table_levels kv ids = Ok fs ∧ levels_hold fs ls.
Proof.
  induction 1 as [|id s ids ls (t & Ht & Hh) _ IH]; [by exists []; split; [|constructor]|].
  destruct IH as (fs & Hfs & Hl). exists (inr (tr_file t) :: fs). unfold table_levels in *. cbn [mapM_res].
  rewrite (proj2 (go_index_ok _ _ _) Ht). rs. rewrite Hfs. rs. split; [done|]. by constructor.
Qed.

Lemma snap_levels_hold kv init commits :
  inv kv init commits →
  ∃ levels ls, snap_levels kv = Ok levels ∧ levels_hold levels ls ∧
    same_view (merge_levels ls) (state_at init commits (length commits)).
Proof.
  intros [_ _ _ (m & ims & fs & Hm & Hsm & Himm & Ht & Hv) _ _ _ _ _].
  destruct (table_levels_hold _ _ _ Ht) as (files & Hfiles & Hl).
  unfold snap_levels. rewrite Hfiles. rs. eexists _, _. split; [done|]. split; [|exact Hv].
  constructor; [done|]. apply Forall2_app; [|done].
  destruct (kv_imm kv) as [imm|]; [|by subst ims; constructor].
  destruct Himm as (s & -> & -> & Hs). by repeat constructor.
Qed.

Lemma tx_stack_hold tx init commits n :
  sorted init → tx_reads init commits tx n →
  ∃ u ls, tx_updates tx = arr_of u ∧ sorted u ∧ levels_hold (merged_subs (tx_stack tx)) (u :: ls) ∧
    Holds (It := MergedSortedKVIter LevelIter) (tx_stack tx) (merge_levels (u :: ls)) ∧
    same_view (merge_levels (u :: ls)) (overlay u (state_at init commits n)).
Proof.
  intros Hi (He & Hn & Hle & (ls & Hl & Hv) & u & Hu & Hsu). exists u, ls.
  assert (levels_hold (merged_subs (tx_stack tx)) (u :: ls)) as Hall by (by constructor).
  split; [done|]. split; [done|]. split; [done|]. split.
  - exists (u :: ls). split; [|done]. eapply Forall2_impl; [exact Hall|]. intros [a|f] s; done.
  - apply (overlay_same_view u (merge_levels ls)); [apply merge_levels_sorted|by apply state_at_sorted|done].
Qed.

(** A transaction reads its own writes over the state of its snapshot. *)
Lemma tx_Get_spec tx init commits n k :
  sorted init → tx_reads init commits tx n →
  tx_Get tx k = Ok (visible (assoc (overlay (arr_ents (tx_updates tx)) (state_at init commits n)) k)).
Proof.
  intros Hi Hr. destruct (tx_stack_hold tx init commits n Hi Hr) as (u & ls & Hu & Hsu & Hall & Hh & Hv).
  unfold tx_Get. rewrite (proj1 Hr). unfold m_getExact.
  rewrite (m_getExact_spec (merged_subs (tx_stack tx)) (u :: ls)).
  - rs. rewrite Hu, arr_ents_of, <- Hv, assoc_merge_levels.
    destruct (assoc_levels (u :: ls) k) as [[k' v d]|]; cbn; [|done]. by destruct d.
  - eapply Forall2_impl; [exact Hall|]. intros [a|f] s; done.
Qed.

(** What an update mode lets through: the current value, the new one. *)
Definition mode_updates (mode : Z) (cur : option bytes) (v : bytes) : bool :=
  if mode =? ModeInsert then bool_decide (cur = None)
  else if mode =? ModeUpdate then bool_decide (cur ≠ None ∧ cur ≠ Some v)
  else bool_decide (cur ≠ Some v).

Definition mode_valid (mode : Z) : Prop := mode = ModeUpsert ∨ mode = ModeInsert ∨ mode = ModeUpdate.

Lemma tx_reads_updates init commits tx n u :
  tx_reads init commits tx n → sorted u → tx_reads init commits (set_updates tx (arr_of u)) n.
Proof. intros (He & Hn & Hle & Hl & _) Hu. split_and!; try done. by exists u. Qed.

Lemma arr_Set_absent u k v :
  sorted u → visible (assoc u k) ≠ Some v →
  arr_Set (arr_of u) k v = Ok (arr_of (upsert (Ent k v false) u), true).
Proof. intros Hs Hne. rewrite arr_Set_of by done. by rewrite bool_decide_eq_false_2. Qed.

(** An entry of the updates decides what the transaction sees. *)
Lemma own_update_visible u s k e :
  sorted s → assoc u k = Some e → visible (assoc (overlay u s) k) = visible (Some e).
Proof. intros Hs He. rewrite visible_overlay by done. by rewrite He. Qed.

Lemma tx_SetEx_spec tx init commits n u k v mode :
  sorted init → tx_reads init commits tx n → tx_updates tx = arr_of u → sorted u → mode_valid mode →
  let cur := visible (assoc (overlay u (state_at init commits n)) k) in
  tx_SetEx tx k v mode =
    (if mode_updates mode cur v then set_updates tx (arr_of (upsert (Ent k v false) u)) else tx,
     Ok (mode_updates mode cur v)).
Proof.
  intros Hi Hr Hu Hs Hm cur. unfold tx_SetEx. rewrite (tx_Get_spec tx init commits n k Hi Hr).
  rewrite Hu, arr_ents_of. fold cur. cbn [bindS].
  assert (∀ w, visible (assoc u k) = Some w → cur = Some w) as Hown.
  { intros w Hw. unfold cur. rewrite visible_overlay by (by apply state_at_sorted).
    destruct (assoc u k); [done|]. done. }
  assert (∀ x, x = mode_updates mode cur v →
    (if mode =? ModeUpsert then Ok (negb match cur with Some _ => true | None => false end ||
            negb match cur with Some w => bytes_equal w v | None => false end)
     else if mode =? ModeInsert then Ok (negb match cur with Some _ => true | None => false end)
     else if mode =? ModeUpdate then Ok (match cur with Some _ => true | None => false end &&
            negb match cur with Some w => bytes_equal w v | None => false end)
     else Err (errorsNew "invalid update mode")) = Ok x) as Hmode.
  { intros x ->. unfold mode_updates, bytes_equal.
    destruct Hm as [->|[->| ->]]; cbn; destruct cur as [w|]; cbn; f_equal;
      repeat case_bool_decide; simplify_eq; try done; naive_solver. }
  rewrite (Hmode _ eq_refl). cbn [bindS].
  destruct (mode_updates mode cur v) eqn:Eu; [|done].
  rewrite Hu, arr_Set_absent; [done|done|].
  intros Hw%Hown. rewrite Hw in Eu. unfold mode_updates in Eu.
  destruct Hm as [->|[->| ->]]; cbn in Eu; try done; apply bool_decide_eq_true in Eu; tauto.
Qed.

Lemma tx_SetEx_bad_mode tx init commits n k v mode :
  sorted init → tx_reads init commits tx n → ¬ mode_valid mode →
  tx_SetEx tx k v mode = (tx, Err (errorsNew "invalid update mode")).
Proof.
  intros Hi Hr Hm. unfold tx_SetEx. rewrite (tx_Get_spec tx init commits n k Hi Hr). cbn [bindS].
  destruct (Z.eqb_spec mode ModeUpsert); [destruct Hm; by left|].
  destruct (Z.eqb_spec mode ModeInsert); [destruct Hm; by right; left|].
  destruct (Z.eqb_spec mode ModeUpdate); [destruct Hm; by right; right|]. done.
Qed.

Lemma tx_Del_spec tx init commits n u k :
  sorted init → tx_reads init commits tx n → tx_updates tx = arr_of u → sorted u →
  let cur := visible (assoc (overlay u (state_at init commits n)) k) in
  tx_Del tx k =
    (if bool_decide (cur = None) then tx else set_updates tx (arr_of (upsert (Ent k [] true) u)),
     Ok (bool_decide (cur ≠ None))).
Proof.
  intros Hi Hr Hu Hs cur. unfold tx_Del. rewrite (tx_Get_spec tx init commits n k Hi Hr).
  rewrite Hu, arr_ents_of. fold cur. cbn [bindS]. destruct cur as [w|] eqn:Ec.
  - rewrite bool_decide_false by done. rewrite bool_decide_true by done.
    rewrite Hu, arr_Del_of; [done|done|]. intros e He. unfold cur in Ec.
    rewrite (own_update_visible u _ k e) in Ec by (done || by apply state_at_sorted).
    cbn in Ec. by destruct (e_del e).
  - rewrite bool_decide_true by done. by rewrite bool_decide_false by tauto.
Qed.

(** *** Starting a transaction *)

Definition same_files (kv kv' : KV) : Prop :=
  ∀ id, tr_file <$> kv_tables kv' !! id = tr_file <$> kv_tables kv !! id.

Lemma same_files_hold kv kv' ids ls :
  same_files kv kv' → tables_hold kv ids ls → tables_hold kv' ids ls.
Proof.
  intros Hsf Ht. eapply Forall2_impl; [exact Ht|]. intros id s (t & Hl & Hh).
  specialize (Hsf id). rewrite Hl in Hsf. cbn in Hsf.
  destruct (kv_tables kv' !! id) as [t'|]; [|done]. injection Hsf as Hf. exists t'. by rewrite Hf.
Qed.

Lemma upd_table_files kv id f : (∀ t, tr_file (f t) = tr_file t) → same_files kv (upd_table kv id f).
Proof.
  intros Hf i. cbn. destruct (decide (i = id)) as [->|Hne].
  - rewrite list_lookup_alter_eq. destruct (kv_tables kv !! id); cbn; [f_equal; apply Hf|done].
  - by rewrite list_lookup_alter_ne.
Qed.

(** The fields that [acquire], [release] and [retire] leave alone. *)
Record same_core (kv kv' : KV) : Prop := {
  sc_mem : kv_mem kv' = kv_mem kv;
  sc_imm : kv_imm kv' = kv_imm kv;
  sc_main : kv_main kv' = kv_main kv;
  sc_snapshot : kv_snapshot kv' = kv_snapshot kv;
  sc_history : kv_history kv' = kv_history kv;
  sc_ongoing : kv_ongoing kv' = kv_ongoing kv;
  sc_txs : kv_txs kv' = kv_txs kv;
  sc_files : same_files kv kv';
  sc_closed : kv_closed kv' = kv_closed kv;
}.

Lemma same_core_refl kv : same_core kv kv.
Proof. by constructor. Qed.

Lemma same_core_trans kv1 kv2 kv3 : same_core kv1 kv2 → same_core kv2 kv3 → same_core kv1 kv3.
Proof.
  intros [] []. constructor; first [congruence|intros id; etrans; eauto].
Qed.

Lemma same_core_inv skip kv kv' init commits :
  same_core kv kv' → inv_but skip kv init commits → inv_but skip kv' init commits.
Proof.
  intros [] [I1 I2 I3 (m & ims & fs & Hm & Hs & Himm & Ht & Hv) I5 I6 I7 I8 I9].
  constructor; rewrite ?sc_mem0, ?sc_imm0, ?sc_main0, ?sc_snapshot0, ?sc_history0, ?sc_ongoing0, ?sc_txs0; try done.
  exists m, ims, fs. split_and!; try done. by eapply same_files_hold.
Qed.

Lemma acquire_core kv id : same_core kv (acquire kv id).
Proof. constructor; try done. by apply upd_table_files. Qed.

Lemma retire_core kv id : same_core kv (retire kv id).
Proof. constructor; try done. by apply upd_table_files. Qed.

Lemma acquires_core ids kv : same_core kv (foldl acquire kv ids).
Proof.
  revert kv. induction ids as [|id ids IH]; intros kv; [apply same_core_refl|]. cbn.
  eapply same_core_trans; [apply acquire_core|apply IH].
Qed.

Lemma release_core kv id kv' : release kv id = Ok kv' → same_core kv kv'.
Proof.
  unfold release. destruct (go_index (kv_tables kv) id) as [t| | |] eqn:Et; try done.
  apply go_index_ok in Et. rs. destruct (0 <=? tr_refs t - 1); cbn [check]; [|done]. rs. intros [= <-].
  constructor; try done. intros i. cbn. destruct (decide (i = id)) as [->|Hne].
  - rewrite list_lookup_insert_eq by (by eapply lookup_lt_Some). by rewrite Et.
  - by rewrite list_lookup_insert_ne.
Qed.

Lemma releases_core ids kv kv' : foldM release kv ids = Ok kv' → same_core kv kv'.
Proof.
  revert kv. induction ids as [|id ids IH]; intros kv; cbn [foldM].
  - intros [= <-]. apply same_core_refl.
  - intros (kv1 & H1 & H2)%bind_ok. eapply same_core_trans; [by eapply release_core|by apply IH].
Qed.

(** [NewTX] on an open store: the transaction reads the current state. *)
Lemma NewTX_inv kv init commits :
  inv kv init commits → kv_closed kv = false →
  ∃ kv' tx, NewTX kv = Ok (kv', length (kv_txs kv)) ∧ inv kv' init commits ∧
    kv_txs kv' = kv_txs kv ++ [tx] ∧ kv_ongoing kv' = kv_ongoing kv ++ [length (kv_txs kv)] ∧
    tx_reads init commits tx (length commits) ∧ tx_updates tx = arr_empty ∧ kv_closed kv' = false ∧
    tx_mainSnap tx = kv_main kv.
Proof.
  intros Hinv Hcl. destruct (snap_levels_hold _ _ _ Hinv) as (levels & ls & Hlv & Hl & Hv).
  unfold NewTX. rewrite Hcl, Hlv. rs.
  set (tx := MkTX (kv_snapshot kv) arr_empty levels (kv_main kv) None).
  pose proof (acquires_core (kv_main kv) kv) as Hsc.
  pose proof (same_core_inv _ _ _ _ _ Hsc Hinv) as Hinv1.
  set (kv1 := foldl acquire kv (kv_main kv)) in *. cbn [kv_ongoing set_txs].
  rewrite (sc_txs _ _ Hsc), (sc_ongoing _ _ Hsc).
  assert (tx_reads init commits tx (length commits)) as Hr.
  { split_and!; try done; [apply (i_snapshot Hinv)|by eauto|]. exists []. split; [done|constructor]. }
  eexists _, tx. split; [reflexivity|]. split; [|cbn; by rewrite (sc_closed _ _ Hsc)].
  destruct Hinv1 as [I1 I2 I3 I4 I5 I6 I7 I8 I9]. rewrite ?(sc_ongoing _ _ Hsc), ?(sc_txs _ _ Hsc) in *.
  assert (∀ id, id ∈ kv_ongoing kv → (id < length (kv_txs kv))%nat) as Hlt.
  { intros id Hid. destruct (I5 id Hid) as (t & n & Ht & _). by eapply lookup_lt_Some. }
  assert (∀ id t, id ∈ kv_ongoing kv → (kv_txs kv ++ [tx]) !! id = Some t → kv_txs kv !! id = Some t) as Hold.
  { intros id t Hid Ht. rewrite lookup_app_l in Ht; [done|]. by apply Hlt. }
  assert ((kv_txs kv ++ [tx]) !! length (kv_txs kv) = Some tx) as Hnew by (by apply list_lookup_middle).
  constructor; cbn; rewrite ?(sc_ongoing _ _ Hsc); try done.
  - intros id [Hid|Hid]%elem_of_app.
    + destruct (I5 id Hid) as (t & n & Ht & Hrt). exists t, n. split; [|done].
      by apply lookup_app_l_Some.
    + apply list_elem_of_singleton in Hid as ->. eauto.
  - apply NoDup_app. split; [done|]. split; [|apply NoDup_singleton].
    intros id Hid Hin%list_elem_of_singleton. apply Hlt in Hid. lia.
  - apply StronglySorted_snoc.
    + eapply StronglySorted_weaken; [exact I7|]. intros a b Ha Hb Hab txa txb Hta Htb.
      apply Hab; by apply Hold.
    + intros a Ha txa txb Hta Htb. rewrite Hnew in Htb. injection Htb as <-.
      apply Hold in Hta; [|done]. destruct (I5 a Ha) as (t & n & Ht & (_ & Hn & Hle & _)).
      rewrite Ht in Hta. injection Hta as <-. cbn. rewrite Hn, (i_snapshot Hinv). lia.
  - intros id t i u e Hsk [Hid|Hid]%elem_of_app Ht Hu Hle He.
    + eapply I9; eauto.
    + apply list_elem_of_singleton in Hid as ->. rewrite Hnew in Ht. injection Ht as <-. cbn in Hle.
      rewrite (i_snapshot Hinv) in Hle. apply lookup_lt_Some in Hu. lia.
Qed.

(** ** Reference counts *)

(** The references [R] are the ones counted, and a counted table is open. *)
Record refs_for (kv : KV) (R : list nat) : Prop := {
  rf_count tid t : kv_tables kv !! tid = Some t → tr_refs t = Z.of_nat (count_occ Nat.eq_dec R tid);
  rf_open tid t : kv_tables kv !! tid = Some t → tid ∈ R → tr_open t = true;
  rf_range tid : tid ∈ R → (tid < length (kv_tables kv))%nat;
}.

Lemma refs_for_perm kv R1 R2 : Permutation R1 R2 → refs_for kv R1 → refs_for kv R2.
Proof.
  intros Hp [Hc Ho Hr]. split.
  - intros tid t Ht. rewrite (Hc tid t Ht). f_equal. by apply Permutation_count_occ.
  - intros tid t Ht Hin. apply (Ho tid t Ht). by rewrite Hp.
  - intros tid Hin. apply Hr. by rewrite Hp.
Qed.

Lemma refs_for_tables kv kv' R : kv_tables kv' = kv_tables kv → refs_for kv R → refs_for kv' R.
Proof. intros Heq [Hc Ho Hr]. split; rewrite Heq; done. Qed.

Lemma acquire_refs kv R tid t :
  refs_for kv R → kv_tables kv !! tid = Some t → tr_open t = true → refs_for (acquire kv tid) (tid :: R).
Proof.
  intros [Hc Ho Hr] Ht Hopen. split.
  - intros i t' Hi. cbn in Hi |- *. destruct (Nat.eq_dec tid i) as [<-|Hne].
    + rewrite list_lookup_alter_eq, Ht in Hi. injection Hi as <-. cbn. rewrite (Hc _ _ Ht). lia.
    + rewrite list_lookup_alter_ne in Hi by done. by apply Hc.
  - intros i t' Hi Hin. cbn in Hi. destruct (decide (tid = i)) as [<-|Hne].
    + rewrite list_lookup_alter_eq, Ht in Hi. injection Hi as <-. done.
    + rewrite list_lookup_alter_ne in Hi by done. apply elem_of_cons in Hin as [->|Hin]; [done|]. by eapply Ho.
  - intros i [->|Hin]%elem_of_cons; cbn; rewrite length_alter; [by eapply lookup_lt_Some|by apply Hr].
Qed.

Lemma acquires_refs ids kv R :
  refs_for kv R → (∀ id, id ∈ ids → id ∈ R) → refs_for (foldl acquire kv ids) (ids ++ R).
Proof.
  revert kv R. induction ids as [|id ids IH]; intros kv R Hr Hin; [done|]. cbn [foldl].
  assert (id ∈ R) as Hid by (apply Hin; by left).
  destruct (lookup_lt_is_Some_2 _ _ (rf_range _ _ Hr id Hid)) as [t Ht].
  eapply refs_for_perm; [|apply IH].
  - rewrite (comm (++) ids (id :: R)). cbn. constructor. apply (comm (++)).
  - eapply acquire_refs; [done..|]. by eapply rf_open.
  - intros i Hi. right. apply Hin. by right.
Qed.

Lemma release_refs kv R tid :
  refs_for kv (tid :: R) → ∃ kv', release kv tid = Ok kv' ∧ refs_for kv' R.
Proof.
  intros Hr. assert (tid ∈ tid :: R) as Hin by (by left).
  destruct (lookup_lt_is_Some_2 _ _ (rf_range _ _ Hr tid Hin)) as [t Ht].
  pose proof (rf_count _ _ Hr tid t Ht) as Hcnt. rewrite count_occ_cons_eq in Hcnt by done.
  pose proof (rf_open _ _ Hr tid t Ht Hin) as Hopen.
  unfold release. rewrite (proj2 (go_index_ok _ _ _) Ht). rs.
  destruct (Z.leb_spec 0 (tr_refs t - 1)); [|lia]. cbn [check]. rs. eexists. split; [done|].
  assert (tid < length (kv_tables kv))%nat as Hlen by (by eapply lookup_lt_Some). split.
  - intros i t' Hi. cbn in Hi. destruct (Nat.eq_dec tid i) as [<-|Hne].
    + rewrite list_lookup_insert_eq in Hi by done. injection Hi as <-. cbn. lia.
    + rewrite list_lookup_insert_ne in Hi by done. rewrite (rf_count _ _ Hr i t' Hi).
      by rewrite count_occ_cons_neq by done.
  - intros i t' Hi HiH. cbn in Hi. destruct (decide (tid = i)) as [<-|Hne].
    + rewrite list_lookup_insert_eq in Hi by done. injection Hi as <-. cbn.
      assert (0 < count_occ Nat.eq_dec R tid)%nat by (apply count_occ_In; by apply list_elem_of_In).
      destruct (Z.ltb_spec 0 (tr_refs t - 1)); [done|lia].
    + rewrite list_lookup_insert_ne in Hi by done. eapply rf_open; [exact Hr|done|]. by right.
  - intros i Hi. cbn. rewrite length_insert. apply (rf_range _ _ Hr). by right.
Qed.

Lemma releases_refs ids kv R :
  refs_for kv (ids ++ R) → ∃ kv', foldM release kv ids = Ok kv' ∧ refs_for kv' R.
Proof.
  revert kv. induction ids as [|id ids IH]; intros kv Hr; [by exists kv|]. cbn [foldM].
  destruct (release_refs _ _ _ Hr) as (kv1 & -> & Hr1). rs. by apply IH.
Qed.

(** The references a store counts: one per table of [kv.main] and one per table
    of each open snapshot. *)
Definition snaps (txs : list KVTX) (ids : list nat) : list nat :=
  mjoin ((fun id => match txs !! id with Some tx => tx_mainSnap tx | None => [] end) <$> ids).

Definition held (kv : KV) : list nat := kv_main kv ++ snaps (kv_txs kv) (kv_ongoing kv).

Definition refs_ok (kv : KV) : Prop := refs_for kv (held kv).

Lemma snaps_app txs a b : snaps txs (a ++ b) = snaps txs a ++ snaps txs b.
Proof. unfold snaps. by rewrite fmap_app, join_app. Qed.

Lemma snaps_ext txs txs' ids :
  (∀ id, id ∈ ids → (tx_mainSnap <$> txs' !! id) = (tx_mainSnap <$> txs !! id)) → snaps txs' ids = snaps txs ids.
Proof.
  induction ids as [|id ids IH]; intros Hext; [done|].
  assert (∀ t, snaps t (id :: ids) = match t !! id with Some tx => tx_mainSnap tx | None => [] end ++ snaps t ids)
    as Hcons by done.
  rewrite !Hcons, IH by (intros; apply Hext; by right). f_equal.
  specialize (Hext id ltac:(by left)). destruct (txs !! id), (txs' !! id); naive_solver.
Qed.

Lemma index_of_split id l n : index_of id l = Some n → l = take n l ++ id :: drop (S n) l.
Proof.
  revert n. induction l as [|x l IH]; intros n; cbn; [done|].
  destruct (Nat.eqb_spec x id) as [->|Hne]; [by intros [= <-]|].
  destruct (index_of id l) as [m|]; cbn; [|done]. intros [= <-]. cbn. f_equal. by apply IH.
Qed.

Lemma index_of_elem id l : id ∈ l → is_Some (index_of id l).
Proof.
  induction l as [|x l IH]; intros Hin; [by apply elem_of_nil in Hin|]. cbn.
  destruct (Nat.eqb_spec x id); [eauto|]. apply elem_of_cons in Hin as [->|Hin]; [done|].
  destruct (IH Hin) as [m ->]. cbn. eauto.
Qed.

(** *** Finishing a transaction *)

Lemma trim_history_spec skip kv init commits ongoing :
  inv_but skip kv init commits → StronglySorted (tx_older (kv_txs kv)) ongoing →
  (∀ id, id ∈ ongoing → id ∈ kv_ongoing kv) →
  ∃ h', trim_history kv ongoing = Ok h' ∧ (∀ h, h ∈ h' → h ∈ kv_history kv) ∧
    ∀ id tx h, id ∈ ongoing → kv_txs kv !! id = Some tx → h ∈ kv_history kv →
      tx_snapshot tx < uk_snapshot h → h ∈ h'.
Proof.
  intros Hinv Hs Hsub. unfold trim_history. destruct ongoing as [|id0 rest].
  { exists []. split_and!; [done|intros h Hh; by apply elem_of_nil in Hh|].
    intros id tx h Hid. by apply elem_of_nil in Hid. }
  destruct (i_txs Hinv id0) as (tx0 & n0 & Ht0 & _); [apply Hsub; by left|].
  rewrite (proj2 (go_index_ok _ _ _) Ht0). rs. eexists. split; [done|]. split.
  - intros h Hh. by apply list_elem_of_filter in Hh as [_ Hh].
  - intros id tx h Hid Htx Hh Hlt. apply list_elem_of_filter. split; [|done].
    assert (tx_snapshot tx0 ≤ tx_snapshot tx) as Hle.
    { apply elem_of_cons in Hid as [->|Hid]; [rewrite Ht0 in Htx; injection Htx as <-; lia|].
      inversion Hs as [|? ? _ Hf]; subst. rewrite Forall_forall in Hf. by apply (Hf id Hid). }
    apply Z.ltb_ge. lia.
Qed.

Lemma untrack_inv kv init commits id :
  inv_but (eq id) kv init commits → refs_ok kv → id ∈ kv_ongoing kv →
  ∃ kv', untrackTXSync kv id = Ok kv' ∧ inv kv' init commits ∧ refs_ok kv' ∧
    kv_closed kv' = kv_closed kv ∧ kv_main kv' = kv_main kv ∧
    (∀ id', id' ∈ kv_ongoing kv' ↔ id' ∈ kv_ongoing kv ∧ id' ≠ id) ∧
    (∀ id', id' ≠ id → kv_txs kv' !! id' = kv_txs kv !! id').
Proof.
  intros Hinv Hrefs Hid. unfold untrackTXSync.
  destruct (index_of_elem _ _ Hid) as [idx Hidx]. rewrite Hidx.
  pose proof (index_of_split _ _ _ Hidx) as Hsplit.
  set (l1 := take idx (kv_ongoing kv)) in *. set (l2 := drop (S idx) (kv_ongoing kv)) in *.
  assert (∀ id', id' ∈ l1 ++ l2 ↔ id' ∈ kv_ongoing kv ∧ id' ≠ id) as Hmem.
  { pose proof (i_nodup Hinv) as Hnd. rewrite Hsplit in Hnd. intros id'. rewrite Hsplit at 1.
    apply NoDup_app in Hnd as (_ & Hd1 & Hnd). apply NoDup_cons in Hnd as [Hd2 _].
    rewrite !elem_of_app, elem_of_cons. split; [|tauto].
    intros [Hi1|Hi1]; (split; [tauto|intros ->]); [|done]. apply (Hd1 id Hi1). by left. }
  assert (StronglySorted (tx_older (kv_txs kv)) (l1 ++ l2)) as Hord.
  { apply (StronglySorted_remove _ _ id). rewrite <- Hsplit. apply (i_ordered Hinv). }
  destruct (trim_history_spec _ kv init commits (l1 ++ l2) Hinv Hord) as (h' & -> & Hsub & Hkeep);
    [intros id' Hi'; by apply Hmem in Hi' as [? _]|]. rs.
  destruct (i_txs Hinv id Hid) as (tx & n & Htx & Hreads).
  rewrite (proj2 (go_index_ok _ _ _) Htx). rs.
  set (done' := MkTX (tx_snapshot tx) (tx_updates tx) [] [] (Some ErrTXDone)).
  set (kv1 := set_txs _ _).
  assert (∀ id', id' ≠ id → <[id := done']> (kv_txs kv) !! id' = kv_txs kv !! id') as Hother
    by (intros; by apply list_lookup_insert_ne).
  assert (refs_for kv1 (tx_mainSnap tx ++ held kv1)) as Hr1.
  { apply (refs_for_tables kv); [done|]. eapply refs_for_perm; [|exact Hrefs].
    unfold held. cbn [kv_main kv_txs kv_ongoing kv1 set_txs set_history set_ongoing].
    rewrite Hsplit at 1. fold l1 l2. rewrite snaps_app.
    assert (∀ t, snaps t (id :: l2) = match t !! id with Some tx => tx_mainSnap tx | None => [] end ++ snaps t l2)
      as -> by done. rewrite Htx.
    rewrite (snaps_ext (kv_txs kv) (<[id := done']> (kv_txs kv)) (l1 ++ l2))
      by (intros id' Hi'; apply Hmem in Hi' as [_ Hne]; by rewrite Hother).
    rewrite snaps_app. solve_Permutation. }
  destruct (releases_refs _ _ _ Hr1) as (kv' & Hrel & Hr'). rewrite Hrel.
  pose proof (releases_core _ _ _ Hrel) as Hsc. exists kv'. split; [done|].
  assert (inv kv1 init commits) as Hinv1.
  { destruct Hinv as [I1 I2 I3 (m & ims & fs & Hm & Hsm & Himm & Ht & Hv) I5 I6 I7 I8 I9]. constructor; cbn; try done.
    - exists m, ims, fs. done.
    - intros id' Hi'. apply Hmem in Hi' as [Hi' Hne]. rewrite Hother by done. by apply I5.
    - rewrite Hsplit in I6. apply NoDup_app in I6 as (Hn1 & Hd & Hn2). apply NoDup_cons in Hn2 as [_ Hn2].
      apply NoDup_app. split; [done|]. split; [|done]. intros x Hx Hx2. apply (Hd x Hx). by right.
    - eapply StronglySorted_weaken; [exact Hord|]. intros a b Ha Hb Hab ta tb Hta Htb.
      apply Hmem in Ha as [_ Ha], Hb as [_ Hb]. rewrite Hother in Hta, Htb by done. by apply Hab.
    - intros h Hh. by apply I8, Hsub.
    - intros id' tx' i u e _ Hi' Htx' Hu Hle He. pose proof Hi' as Hi2. apply Hmem in Hi2 as [Hi2 Hne].
      rewrite Hother in Htx' by done.
      eapply (Hkeep id' tx'); [done|done|by eapply (I9 id'); [intros <-|..]|]. cbn. lia. }
  split_and!.
  - by eapply same_core_inv.
  - unfold refs_ok, held. rewrite (sc_main _ _ Hsc), (sc_txs _ _ Hsc), (sc_ongoing _ _ Hsc). exact Hr'.
  - by rewrite (sc_closed _ _ Hsc).
  - by rewrite (sc_main _ _ Hsc).
  - intros id'. rewrite (sc_ongoing _ _ Hsc). apply Hmem.
  - intros id' Hne. rewrite (sc_txs _ _ Hsc). by apply Hother.
Qed.

(** *** Commit *)

(** A commit after the snapshot [n] wrote a key of [u]. *)
Definition later_conflict (commits : list (list ent)) (n : nat) (u : list ent) : Prop :=
  ∃ i c e e', (n ≤ i)%nat ∧ commits !! i = Some c ∧ e ∈ c ∧ e' ∈ u ∧ e_key e = e_key e'.

Lemma conflicts_iff kv init commits id tx n u :
  inv kv init commits → id ∈ kv_ongoing kv → kv_txs kv !! id = Some tx → tx_snapshot tx = Z.of_nat n →
  conflicts (kv_history kv) (tx_snapshot tx) u = true ↔ later_conflict commits n u.
Proof.
  intros Hinv Hid Htx Hn. rewrite conflicts_true. split.
  - intros (m & e & Hh & He & Hlt). destruct (i_sound _ _ _ _ Hinv _ Hh) as (i & c & e' & Hc & He' & Hs & Hk).
    cbn in *. exists i, c, e', e. split_and!; [lia|done..].
  - intros (i & c & e & e' & Hi & Hc & He & He' & Hk). exists (Z.of_nat (S i)), e'. split_and!; [|done|lia].
    rewrite <- Hk. apply (i_complete Hinv id tx i c e); [tauto|done|done|done|lia|done].
Qed.

(** Without a later conflict the written keys are as the transaction saw them. *)
Lemma no_lost_update init commits n u k :
  sorted init → (n ≤ length commits)%nat → ¬ later_conflict commits n u → is_Some (assoc u k) →
  assoc (state_at init commits (length commits)) k = assoc (state_at init commits n) k.
Proof.
  intros Hi Hn Hnc [e' He']. apply state_at_untouched; [done|lia|].
  intros i c Hic Hc. destruct (assoc c k) as [e|] eqn:E; [|done]. exfalso. apply Hnc.
  exists i, c, e, e'. pose proof (assoc_Some_key _ _ _ E). pose proof (assoc_Some_key _ _ _ He').
  split_and!; [lia|done|by eapply assoc_elem|by eapply assoc_elem|congruence].
Qed.

(** The commits grow by [u]. *)
Lemma inv_commit kv kv' init commits id u m :
  inv kv init commits → id ∈ kv_ongoing kv → sorted u → sorted m → kv_mem kv = arr_of m →
  kv_mem kv' = arr_of (overlay u m) → kv_imm kv' = kv_imm kv → kv_main kv' = kv_main kv →
  kv_tables kv' = kv_tables kv → kv_txs kv' = kv_txs kv → kv_ongoing kv' = kv_ongoing kv →
  kv_snapshot kv' = Z.of_nat (S (length commits)) →
  kv_history kv' = kv_history kv ++ (if (1 <? length (kv_ongoing kv))%nat
    then (fun e => MkUK (Z.of_nat (S (length commits))) (e_key e)) <$> u else []) →
  inv_but (eq id) kv' init (commits ++ [u]).
Proof.
  intros [I1 I2 I3 (m0 & ims & fs & Hm & Hsm & Himm & Ht & Hv) I5 I6 I7 I8 I9] Hid Hu Hsm' Hmem
    E1 E2 E3 E4 E5 E6 E7 E8.
  rewrite Hmem in Hm.
  assert (m0 = m) as ->.
  { apply (f_equal arr_ents) in Hm. by rewrite !arr_ents_of in Hm. }
  constructor; rewrite ?E1, ?E2, ?E3, ?E5, ?E6; try done.
  - apply Forall_app. split; [done|]. by apply Forall_singleton.
  - rewrite E7, length_app. simpl. lia.
  - exists (overlay u m), ims, fs. split_and!; [done|by apply overlay_sorted|done| |].
    + eapply Forall2_impl; [exact Ht|]. rewrite E4. done.
    + rewrite length_app, Nat.add_1_r, state_at_snoc.
      etrans; [|apply overlay_same_view; [apply merge_levels_sorted|by apply state_at_sorted|exact Hv]].
      intros k. rewrite assoc_merge_levels, assoc_overlay, assoc_merge_levels by apply merge_levels_sorted.
      cbn. rewrite assoc_overlay by done. by destruct (assoc u k).
  - intros id' Hi'. destruct (I5 id' Hi') as (tx & n & Htx & (H1 & H2 & H3 & (ls & H4 & H5) & H6)).
    exists tx, n. split; [done|]. split_and!; try done.
    + rewrite length_app. lia.
    + exists ls. split; [done|]. by rewrite state_at_app.
  - intros h. rewrite E8. intros [Hh|Hh]%elem_of_app.
    + destruct (I8 h Hh) as (i & c & e & Hc & He & ? & ?). exists i, c, e.
      split_and!; try done. by apply lookup_app_l_Some.
    + destruct (1 <? length (kv_ongoing kv))%nat; [|by apply elem_of_nil in Hh]. apply list_elem_of_fmap in Hh as (e & -> & He).
      exists (length commits), u, e. split_and!; try done. by apply list_lookup_middle.
  - intros id' tx i c e Hne Hi' Htx Hc Hle He. rewrite E8. apply elem_of_app.
    apply lookup_app_Some in Hc as [Hc|[Hge Hc]]; [left; apply (I9 id' tx i c e); tauto|].
    apply list_lookup_singleton_Some in Hc as [Hz <-]. replace i with (length commits) by lia.
    right. destruct (Nat.ltb_spec 1 (length (kv_ongoing kv))) as [_|Hlen].
    + apply list_elem_of_fmap. eauto.
    + exfalso. apply list_elem_of_lookup_1 in Hid as [a Ha], Hi' as [b Hb].
      pose proof (lookup_lt_Some _ _ _ Ha). pose proof (lookup_lt_Some _ _ _ Hb).
      assert (a = b) as -> by lia. congruence.
Qed.

Definition committed (r : res unit) (u : list ent) (commits : list (list ent)) : list (list ent) :=
  match r, u with
  | Ok _, _ :: _ => commits ++ [u]
  | _, _ => commits
  end.

Lemma set_log_inv skip kv init commits log :
  inv_but skip kv init commits → inv_but skip (set_log kv log) init commits.
Proof. intros [I1 I2 I3 I4 I5 I6 I7 I8 I9]. by constructor. Qed.

Lemma apply_updates_spec kv init commits id tx n u :
  inv kv init commits → id ∈ kv_ongoing kv → kv_txs kv !! id = Some tx → tx_snapshot tx = Z.of_nat n →
  tx_updates tx = arr_of u → sorted u → Z.of_nat (length commits) < 2 ^ 64 - 1 →
  ∃ kv' r, apply_updates kv tx = (kv', r) ∧ inv_but (eq id) kv' init (committed r u commits) ∧
    kv_tables kv' = kv_tables kv ∧ kv_main kv' = kv_main kv ∧ kv_txs kv' = kv_txs kv ∧
    kv_ongoing kv' = kv_ongoing kv ∧ kv_closed kv' = kv_closed kv ∧ kv_imm kv' = kv_imm kv ∧
    (kv_mem kv' = kv_mem kv ∨
     snd (updateLog (kv_log kv) (arr_of u)) = Ok tt ∧
     ∃ m, kv_mem kv = arr_of m ∧ kv_mem kv' = arr_of (overlay u m)) ∧
    (u = [] → r = Ok tt) ∧
    (u ≠ [] → later_conflict commits n u → r = Err ErrTXConflict ∧ kv_log kv' = kv_log kv) ∧
    (u ≠ [] → ¬ later_conflict commits n u →
       r = snd (updateLog (kv_log kv) (arr_of u)) ∧ kv_log kv' = fst (updateLog (kv_log kv) (arr_of u))).
Proof.
  intros Hinv Hid Htx Hn Hu Hsu Hlen.
  assert (inv_but (eq id) kv init commits) as Hinv' by (eapply inv_but_weaken; [|exact Hinv]; done).
  unfold apply_updates. rewrite Hu, arr_size_of.
  destruct (decide (u = [])) as [->|Hne]; [eexists _, _; split_and!; try done; by left|].
  assert ((length u =? 0)%nat = false) as -> by (destruct u; done).
  rewrite (checkTXConflict_spec kv tx u) by done. cbn [bindS].
  pose proof (conflicts_iff kv init commits id tx n u Hinv Hid Htx Hn) as Hcf.
  destruct (conflicts (kv_history kv) (tx_snapshot tx) u).
  { eexists _, _. split; [done|]. split_and!; try done; [by left|]. intros _ []. by apply Hcf. }
  destruct (updateLog (kv_log kv) (arr_of u)) as [log r] eqn:El.
  assert (¬ later_conflict commits n u) as Hnc by (intros Hc%Hcf; done).
  destruct r as [[]|e|s|]; cbn [bindS].
  2-4: eexists _, _; split; [done|]; split_and!; try done; [by apply set_log_inv|by left].
  destruct (i_now _ _ _ _ Hinv) as (m & ims & fs & Hm & Hsm & _).
  cbn [kv_mem set_log]. rewrite Hm, updateMem_spec by done. cbn [bindS].
  rewrite (updateHistory_spec _ tx u) by done. cbn [bindS].
  eexists _, _. split; [done|]. split_and!; try done; [|by right; eauto].
  cbn. destruct u as [|e0 u0] eqn:Eu; [done|]. rewrite <- Eu in *.
  eapply (inv_commit kv _ init commits id u m); try done; cbn.
  - rewrite (i_snapshot Hinv). unfold u64. rewrite Z.mod_small; lia.
  - rewrite (i_snapshot Hinv). unfold u64. rewrite Z.mod_small by lia.
    by replace (Z.of_nat (length commits) + 1) with (Z.of_nat (S (length commits))) by lia.
Qed.

(** The whole commit: the transaction finishes in every case. *)
Lemma applyTXSync_inv kv init commits id tx n u :
  inv kv init commits → refs_ok kv → id ∈ kv_ongoing kv → kv_txs kv !! id = Some tx →
  tx_reads init commits tx n → tx_updates tx = arr_of u → sorted u → Z.of_nat (length commits) < 2 ^ 64 - 1 →
  ∃ kv' r, applyTXSync kv id = (kv', r) ∧ inv kv' init (committed r u commits) ∧ refs_ok kv' ∧
    (id ∉ kv_ongoing kv') ∧ kv_closed kv' = kv_closed kv ∧
    (u = [] → r = Ok tt) ∧
    (u ≠ [] → later_conflict commits n u → r = Err ErrTXConflict) ∧
    (u ≠ [] → ¬ later_conflict commits n u → r = snd (updateLog (kv_log kv) (arr_of u))).
Proof.
  intros Hinv Hrefs Hid Htx Hr Hu Hsu Hlen. pose proof Hr as (Herr & Hn & _).
  destruct (apply_updates_spec kv init commits id tx n u Hinv Hid Htx Hn Hu Hsu Hlen)
    as (kv1 & r & Ha & Hinv1 & Et & Em & Ex & Eo & Ec & _ & _ & C1 & C2 & C3).
  unfold applyTXSync. rewrite (proj2 (go_index_ok _ _ _) Htx). cbn [bindS]. rewrite Herr, Ha.
  assert (refs_ok kv1) as Hrefs1.
  { unfold refs_ok, held. rewrite Em, Ex, Eo. by eapply refs_for_tables. }
  destruct (untrack_inv kv1 init (committed r u commits) id Hinv1 Hrefs1) as (kv2 & Hun & Hinv2 & Hrefs2 & Ecl & _ & Hon & _);
    [by rewrite Eo|].
  rewrite Hun. cbn [bindS]. exists kv2, r. split_and!; try done.
  - intros Hin%Hon. by destruct Hin.
  - congruence.
  - intros H1 H2. by apply C2.
  - intros H1 H2. by apply C3.
Qed.

End si.

(** ** Iterating a transaction: [Seek], [SeekToLast], [Range] and [IterAll]

    Every iterator of a transaction walks the live keys of its view: its own
    writes over the state of its snapshot. *)

Section scan.
Context `{BL : BloomLaws}.

(** The live entries depend on the view only. *)
Lemma lives_same_view s t : sorted s → sorted t → same_view s t → lives s = lives t.
Proof.
  intros Hs Ht Hv. apply sorted_ext; [by apply lives_sorted..|]. intros k. unfold lives.
  rewrite !assoc_filter_live by done. specialize (Hv k).
  destruct (assoc s k) as [[k1 v1 d1]|] eqn:E1, (assoc t k) as [[k2 v2 d2]|] eqn:E2; cbn in *; try done.
  - apply assoc_Some_key in E1 as <-. apply assoc_Some_key in E2. cbn in *. subst k2.
    destruct d1, d2; congruence.
  - destruct d1; congruence.
  - destruct d2; congruence.
Qed.

(** What a transaction that reads commit [n] sees. *)
Definition tx_view (init : list ent) (commits : list (list ent)) (tx : KVTX) (n : nat) : list ent :=
  overlay (arr_ents (tx_updates tx)) (state_at init commits n).

Section tx.
Context (init : list ent) (commits : list (list ent)) (tx : KVTX) (n : nat).
Context (Hinit : sorted init) (Hreads : tx_reads init commits tx n).

Lemma tx_stack_lives :
  ∃ s, Holds (It := MergedSortedKVIter LevelIter) (tx_stack tx) s ∧ lives s = lives (tx_view init commits tx n).
Proof.
  destruct (tx_stack_hold tx init commits n Hinit Hreads) as (u & ls & Hu & Hsu & _ & Hh & Hv).
  eexists. split; [exact Hh|]. apply lives_same_view; [apply merge_levels_sorted| |].
  - apply overlay_sorted, state_at_sorted, Hinit.
  - unfold tx_view. by rewrite Hu, arr_ents_of.
Qed.

Lemma tx_Seek_spec k :
  ∃ it : TXIter, tx_Seek tx k = Ok it ∧
    At it (lives (tx_view init commits tx n)) (Z.of_nat (cnt (below k) (lives (tx_view init commits tx n)))).
Proof.
  destruct tx_stack_lives as (s & Hh & <-). unfold tx_Seek. rewrite (proj1 Hreads).
  destruct (Holds_seek _ _ k Hh) as (it & -> & Hat). rs. by apply filterDeleted_seek.
Qed.

Lemma tx_SeekToLast_spec :
  ∃ it : TXIter, tx_SeekToLast tx = Ok it ∧
    At it (lives (tx_view init commits tx n)) (Z.of_nat (length (lives (tx_view init commits tx n))) - 1).
Proof.
  destruct tx_stack_lives as (s & Hh & <-). unfold tx_SeekToLast. rewrite (proj1 Hreads).
  destruct (Holds_last _ _ Hh) as (it & -> & Hat). rs. by apply filterDeletedBackward_spec.
Qed.

Lemma tx_IterAll_spec :
  ∃ it : TXIter, tx_IterAll tx = Ok it ∧ At it (lives (tx_view init commits tx n)) 0.
Proof.
  destruct tx_stack_lives as (s & Hh & <-). unfold tx_IterAll. rewrite (proj1 Hreads).
  destruct (Holds_iter _ _ Hh) as (it & -> & Hat). rs.
  destruct (filterDeleted_spec it s 0 Hat) as (it' & Hf & Hat'); [lia|]. exists it'. split; [done|].
  exact Hat'.
Qed.

(** The range from [start] to [stop], both included, in scan order. *)
Definition range_of (start stop : bytes) (desc : bool) (s : list ent) : list (bytes * bytes) :=
  kvs (if desc then reverse (between stop start s) else between start stop s).

Lemma tx_Range_spec start stop desc fuel :
  (length (lives (tx_view init commits tx n)) ≤ fuel)%nat →
  ∃ it : RangedKVIter TXIter, tx_Range tx start stop desc = Ok it ∧
    rg_collect fuel it = Ok (range_of start stop desc (lives (tx_view init commits tx n))).
Proof.
  intros Hf. unfold tx_Range. destruct (tx_Seek_spec start) as (it & -> & Hat). rs.
  destruct desc; [by apply rg_start_desc|by apply rg_start_asc].
Qed.

End tx.
End scan.
