(* ===== verification/KVCompactProofs.v ===== *)
(** * Compaction does not change what readers see

    Each critical section of a flush and of a merge preserves the invariant of
    [KVProofs]: the committed state, the snapshots of open transactions, and
    the reference counts. *)

From Stdlib Require Import ZArith Lia.
From Stdlib.Strings Require Import Byte.
From stdpp Require Import base list numbers.
From S2P Require Import Prelude GoLib SortedSeq SortedKV SortedArray Merge File Entry SortedFile.
From S2P Require Import SortedFileProofs KVIterators Log Metadata KV KVCompact KVProofs.

Open Scope Z_scope.

Section compact.
Context `{BL : BloomLaws} `{MetaJson}.

(** ** New tables *)

Definition kept (dropTombstones : bool) (s : list ent) : list ent :=
  if dropTombstones then drop_dead s else s.

Lemma kept_sorted d s : sorted s → sorted (kept d s).
Proof. destruct d; [apply drop_dead_sorted|done]. Qed.

Lemma kept_small d s : Forall small s → Forall small (kept d s).
Proof.
  intros Hf. destruct d; [|done]. rewrite Forall_forall in *. intros e He.
  by apply Hf, drop_dead_elem.
Qed.

Lemma kept_length d s : (length (kept d s) ≤ length s)%nat.
Proof. destruct d; [apply drop_dead_length|done]. Qed.

Lemma kept_same_view d s : sorted s → same_view (kept d s) s.
Proof. intros Hs k. destruct d; [by apply drop_dead_visible|done]. Qed.

Lemma create_table_spec `{!KVIter It} `{!IterLaws It} `{!SortedKV T It} `{!SortedKVLaws T It}
    kv name d (src : T) s :
  Holds (It := It) src s → file_content (kv_files kv) name = [] → Forall small s →
  sf_fits (EstimatedSize src) →
  ∃ file, sf_Holds file (kept d s) ∧
    (Z.of_nat (length (kept d s)) ≤ maxNKeys →
       ∃ file', openExisting (sf_fp file) = Ok file' ∧ sf_Holds file' (kept d s)) ∧
    create_table kv name d src =
      (set_tables kv (kv_tables kv ++ [MkTable name file true 0 false])
         (put_file (kv_files kv) name (sf_fp file)), Ok (length (kv_tables kv))).
Proof.
  intros Hh Hfile Hsm Hfit. unfold create_table, CreateFromSorted. rewrite Hfile.
  pose proof (Holds_sorted _ _ Hh) as Hs. pose proof (Holds_size _ _ Hh) as Hsize.
  destruct (Holds_iter _ _ Hh) as (it & Hit & Hat).
  destruct d; cbn [kept].
  - destruct (writeSortedFile_open (NDKV src) (ND it) (drop_dead s)) as (file & Hw & Hf & Hro & _).
    + cbn. unfold ndkv_Iter. cbn [ndkv_inner]. by rewrite Hit.
    + intros St body st. by apply nd_for_each.
    + by apply drop_dead_sorted.
    + by apply (kept_small true).
    + cbn. pose proof (drop_dead_length s). lia.
    + done.
    + exists file. split; [done|]. split; [intros (file' & ? & ? & _)%Hro; eauto|]. rewrite Hw. done.
  - destruct (writeSortedFile_open src it s) as (file & Hw & Hf & Hro & _); try done.
    + intros St body st. by apply for_each_spec.
    + exists file. split; [done|]. split; [intros (file' & ? & ? & _)%Hro; eauto|]. rewrite Hw. done.
Qed.

(** Appending a table nobody references yet. *)
Lemma tables_hold_append kv ids ls t files :
  tables_hold kv ids ls → tables_hold (set_tables kv (kv_tables kv ++ [t]) files) ids ls.
Proof.
  intros Ht. eapply Forall2_impl; [exact Ht|]. intros id s (t' & Hl & Hh). exists t'.
  split; [|done]. cbn. by apply lookup_app_l_Some.
Qed.

Lemma inv_append skip kv init commits t files :
  inv_but skip kv init commits → inv_but skip (set_tables kv (kv_tables kv ++ [t]) files) init commits.
Proof.
  intros [I1 I2 I3 (m & ims & fs & Hm & Hs & Himm & Ht & Hv) I5 I6 I7 I8 I9].
  constructor; try done. exists m, ims, fs. split_and!; try done. by apply tables_hold_append.
Qed.

Lemma refs_append kv R name file files :
  refs_for kv R → refs_for (set_tables kv (kv_tables kv ++ [MkTable name file true 0 false]) files) R.
Proof.
  intros [Hc Ho Hr]. split; cbn.
  - intros tid t [Ht|[Hge Ht]]%lookup_app_Some; [by apply Hc|].
    apply list_lookup_singleton_Some in Ht as [Hz <-]. cbn.
    assert (tid ∉ R) as Hn by (intros Hin%Hr; lia).
    rewrite (proj1 (count_occ_not_In Nat.eq_dec R tid)); [done|]. by rewrite <- list_elem_of_In.
  - intros tid t [Ht|[Hge Ht]]%lookup_app_Some Hin; [by eapply Ho|].
    apply Hr in Hin. lia.
  - intros tid Hin%Hr. rewrite length_app. lia.
Qed.

Lemma refs_ok_same kv kv' :
  kv_tables kv' = kv_tables kv → kv_main kv' = kv_main kv → kv_txs kv' = kv_txs kv →
  kv_ongoing kv' = kv_ongoing kv → refs_ok kv → refs_ok kv'.
Proof. intros E1 E2 E3 E4 Hr. unfold refs_ok, held. rewrite E2, E3, E4. by eapply refs_for_tables. Qed.

(** ** Flush *)

(** The phases of the compaction that holds [kv.compact]. *)
Inductive phase :=
  | Idle
  | Frozen (version : Z) (frozen : list ent) (dropTombstones : bool)
  | Written (version : Z) (frozen : list ent) (dropTombstones : bool) (id : nat)
  | Merging (level : nat) (version : Z) (old1 old2 : nat) (dropTombstones : bool)
  | Merged (level : nat) (version : Z) (old1 old2 : nat) (dropTombstones : bool) (id : nat).

(** The name of a new table is not taken: its file does not exist. *)
Definition fresh_name (kv : KV) (version : Z) : Prop := file_content (kv_files kv) (sstableName version) = [].

(** A new table that nobody references yet. *)
Definition unreferenced (kv : KV) (id : nat) (s : list ent) : Prop :=
  ∃ t, kv_tables kv !! id = Some t ∧ tr_open t = true ∧ tr_refs t = 0 ∧ sf_Holds (tr_file t) s.

(** The two tables a merge reads. *)
Definition merge_sources (kv : KV) (level old1 old2 : nat) (d : bool) : Prop :=
  kv_main kv !! level = Some old1 ∧ kv_main kv !! (level + 1)%nat = Some old2 ∧
  (d = true → drop (level + 2) (kv_main kv) = []).

(** What a phase says about the store. *)
Definition phase_ok (kv : KV) (p : phase) : Prop :=
  match p with
  | Idle => kv_imm kv = None
  | Frozen version s d =>
      kv_imm kv = Some (arr_of s) ∧ sorted s ∧ (d = true → kv_main kv = []) ∧ fresh_name kv version
  | Written _ s d id =>
      kv_imm kv = Some (arr_of s) ∧ sorted s ∧ (d = true → kv_main kv = []) ∧ unreferenced kv id (kept d s)
  | Merging level version old1 old2 d =>
      kv_imm kv = None ∧ merge_sources kv level old1 old2 d ∧ fresh_name kv version
  | Merged level _ old1 old2 d id =>
      kv_imm kv = None ∧ merge_sources kv level old1 old2 d ∧
      ∃ a b, tables_hold kv [old1; old2] [a; b] ∧ unreferenced kv id (kept d (merge_levels [a; b]))
  end.

Lemma merge_levels_nil_head ls : merge_levels ([] :: ls) = merge_levels ls.
Proof. done. Qed.

Lemma flush_freeze_inv skip kv init commits :
  inv_but skip kv init commits → kv_imm kv = None → refs_ok kv → fresh_name kv (u64 (kv_version kv + 1)) →
  (Size (kv_mem kv) = 0%nat ∧ flush_freeze kv = (kv, Ok None)) ∨
  ∃ kv' s d, flush_freeze kv = (kv', Ok (Some (u64 (kv_version kv + 1), arr_of s, d))) ∧
    kv_mem kv = arr_of s ∧ inv_but skip kv' init commits ∧ refs_ok kv' ∧
    phase_ok kv' (Frozen (u64 (kv_version kv + 1)) s d).
Proof.
  intros Hinv Himm Hrefs Hfresh. unfold flush_freeze. rewrite Himm.
  destruct (Nat.eqb_spec (Size (kv_mem kv)) 0) as [Hz|Hz]; [by left|]. right.
  destruct Hinv as [I1 I2 I3 (m & ims & fs & Hm & Hs & Hi & Ht & Hv) I5 I6 I7 I8 I9].
  rewrite Himm in Hi. subst ims. rewrite Hm. eexists _, m, _. split; [reflexivity|]. split; [done|].
  split; [|split; [by apply (refs_ok_same kv)|]].
  - constructor; try done. exists [], [m], fs. cbn. split_and!; try done; [constructor|by exists m].
  - cbn. split_and!; try done. by destruct (kv_main kv).
Qed.

(** Replacing the frozen memtable by its table. *)
Lemma flush_install_inv skip kv init commits version s d id :
  inv_but skip kv init commits → refs_ok kv → phase_ok kv (Written version s d id) →
  inv_but skip (flush_install kv id) init commits ∧ refs_ok (flush_install kv id) ∧
  phase_ok (flush_install kv id) Idle.
Proof.
  intros Hinv Hrefs (Himm & Hs & Hd & t & Ht & Hopen & _ & Hh).
  pose proof (acquire_core kv id) as Hsc. pose proof (same_core_inv _ _ _ _ _ Hsc Hinv) as Hinv1.
  split; [|split; [|done]].
  - destruct Hinv1 as [I1 I2 I3 (m & ims & fs & Hm & Hsm & Hi & Htb & Hv) I5 I6 I7 I8 I9].
    constructor; try done. exists m, [], (kept d s :: fs). cbn [flush_install kv_mem kv_imm kv_main set_imm set_main].
    rewrite (sc_imm _ _ Hsc), Himm in Hi. destruct Hi as (s' & -> & Heq & _).
    assert (s' = s) as ->.
    { apply (f_equal arr_ents) in Heq. by rewrite !arr_ents_of in Heq. }
    split_and!; try done.
    + constructor; [|done]. pose proof (sc_files _ _ Hsc id) as Hf. rewrite Ht in Hf. cbn in Hf.
      cbn. destruct (alter _ id (kv_tables kv) !! id) as [t'|] eqn:Ea; [|done].
      exists t'. split; [done|]. cbn in Hf. injection Hf as ->. done.
    + etrans; [|exact Hv]. destruct d; [|done].
      assert (fs = []) as ->.
      { rewrite (sc_main _ _ Hsc), (Hd eq_refl) in Htb. by inversion Htb. }
      intros k. rewrite !assoc_merge_levels. cbn. destruct (assoc m k); [done|].
      pose proof (drop_dead_visible s k Hs) as Hvis.
      destruct (assoc (drop_dead s) k), (assoc s k); cbn in *; congruence.
  - unfold refs_ok, held. cbn [flush_install kv_main kv_txs kv_ongoing set_imm set_main].
    rewrite (sc_txs _ _ Hsc), (sc_ongoing _ _ Hsc). apply (refs_for_tables (acquire kv id)); [done|].
    cbn [app]. eapply acquire_refs; [|exact Ht|done]. exact Hrefs.
Qed.

(** Rolling a freeze back. *)
Lemma unfreeze_inv skip kv init commits :
  inv_but skip kv init commits → refs_ok kv →
  ∃ kv', unfreeze kv = Ok kv' ∧ inv_but skip kv' init commits ∧ refs_ok kv' ∧ kv_imm kv' = None ∧
    (kv_mem kv' = kv_mem kv ∨ ∃ m s, kv_mem kv = arr_of m ∧ kv_imm kv = Some (arr_of s) ∧
       kv_mem kv' = arr_of (merge_levels [m; s])).
Proof.
  intros Hinv Hrefs. unfold unfreeze. destruct (kv_imm kv) as [imm|] eqn:Himm; [|eauto 10].
  destruct Hinv as [I1 I2 I3 (m & ims & fs & Hm & Hs & Hi & Ht & Hv) I5 I6 I7 I8 I9].
  rewrite Himm in Hi. destruct Hi as (s & -> & -> & Hss). rewrite Hm, merge_arrays_spec by done. rs.
  eexists. split; [done|]. split; [|split; [by apply (refs_ok_same kv)|split; [done|eauto 10]]]. constructor; try done.
  exists (merge_levels [m; s]), [], fs. cbn [kv_mem kv_imm kv_main set_imm set_mem].
  split_and!; try done; [apply merge_levels_sorted|]. etrans; [|exact Hv].
  intros k. rewrite !assoc_merge_levels. cbn [assoc_levels app]. rewrite assoc_merge_levels. cbn [assoc_levels].
  by destruct (assoc m k), (assoc s k).
Qed.

Lemma flush_write_inv skip kv init commits version s d :
  inv_but skip kv init commits → refs_ok kv → phase_ok kv (Frozen version s d) →
  Forall small s → sf_fits (length s) →
  ∃ kv' id, flush_write kv version (arr_of s) d = (kv', Ok id) ∧ inv_but skip kv' init commits ∧
    refs_ok kv' ∧ phase_ok kv' (Written version s d id) ∧ kv_mem kv' = kv_mem kv ∧ kv_imm kv' = kv_imm kv.
Proof.
  intros Hinv Hrefs (Himm & Hs & Hd & Hfresh) Hsm Hfit. unfold flush_write.
  destruct (create_table_spec (It := SortedArrayIter) kv (sstableName version) d (arr_of s) s) as (file & Hf & _ & ->).
  { by split. } { done. } { done. } { change (sf_fits (Size (arr_of s))). by rewrite arr_size_of. }
  eexists _, _. split; [done|]. split; [by apply inv_append|]. split; [by apply refs_append|]. split; [|done].
  cbn. split_and!; try done. eexists. split; [by apply list_lookup_middle|]. done.
Qed.

(** ** Merging two tables *)

Lemma retire_refs kv R id : refs_for kv R → refs_for (retire kv id) R.
Proof.
  intros [Hc Ho Hr].
  assert (∀ tid t, kv_tables (retire kv id) !! tid = Some t → ∃ t0, kv_tables kv !! tid = Some t0 ∧
    tr_refs t = tr_refs t0 ∧ tr_open t = tr_open t0) as Hback.
  { intros tid t Ht. cbn in Ht. destruct (decide (tid = id)) as [->|Hne].
    - rewrite list_lookup_alter_eq in Ht. destruct (kv_tables kv !! id) as [t0|]; [|done].
      injection Ht as <-. eauto.
    - rewrite list_lookup_alter_ne in Ht by done. eauto. }
  split.
  - intros tid t Ht. destruct (Hback _ _ Ht) as (t0 & Ht0 & -> & _). by apply Hc.
  - intros tid t Ht Hin. destruct (Hback _ _ Ht) as (t0 & Ht0 & _ & ->). by eapply Ho.
  - intros tid Hin%Hr. cbn. by rewrite length_alter.
Qed.

(** Two adjacent levels in one: the newer entries win, and at the bottom of the
    stack tombstones may go. *)
Lemma merge_adjacent ls1 a b ls2 d :
  sorted a → sorted b → (d = true → ls2 = []) →
  same_view (merge_levels (ls1 ++ kept d (merge_levels [a; b]) :: ls2)) (merge_levels (ls1 ++ a :: b :: ls2)).
Proof.
  intros Ha Hb Hd k. rewrite !assoc_merge_levels, !assoc_levels_app.
  destruct (assoc_levels ls1 k); [done|]. cbn [assoc_levels].
  pose proof (kept_same_view d (merge_levels [a; b]) (merge_levels_sorted _) k) as Hk.
  assert (assoc (merge_levels [a; b]) k = match assoc a k with Some e => Some e | None => assoc b k end) as Hab.
  { rewrite assoc_merge_levels. cbn. by destruct (assoc a k), (assoc b k). }
  destruct d; cbn [kept] in *.
  - rewrite (Hd eq_refl). cbn [assoc_levels]. rewrite Hab in Hk.
    transitivity (visible (assoc (drop_dead (merge_levels [a; b])) k)).
    + by destruct (assoc (drop_dead (merge_levels [a; b])) k).
    + rewrite Hk. by destruct (assoc a k), (assoc b k).
  - rewrite Hab. by destruct (assoc a k), (assoc b k).
Qed.

Lemma tables_hold_split kv ids1 ids2 ls :
  tables_hold kv (ids1 ++ ids2) ls → ∃ ls1 ls2, ls = ls1 ++ ls2 ∧ tables_hold kv ids1 ls1 ∧ tables_hold kv ids2 ls2.
Proof. intros Ht. apply Forall2_app_inv_l in Ht as (ls1 & ls2 & ? & ? & ->). eauto 10. Qed.

Lemma sf_Holds_size (file : SortedFile) s : sf_Holds file s → EstimatedSize file = length s.
Proof. intros (_ & Hn & _). cbn. rewrite Hn. lia. Qed.

Lemma sf_Holds_small (file : SortedFile) s : sf_Holds file s → Forall small s.
Proof.
  intros (_ & _ & Hlk & _). apply Forall_forall. intros e He. apply list_elem_of_lookup_1 in He as [i Hi].
  by destruct (Hlk _ _ Hi) as (? & _ & _ & ?).
Qed.

Lemma merge_levels_small a b : Forall small a → Forall small b → Forall small (merge_levels [a; b]).
Proof.
  intros Ha Hb. rewrite Forall_forall in *. intros e He.
  apply merge_levels_elem in He as (j & l & Hl & He).
  destruct j as [|[|j]]; cbn in Hl; [injection Hl as <-|injection Hl as <-|]; auto.
  by destruct j.
Qed.

(** A table determines its entries. *)
Lemma sf_Holds_unique (file : SortedFile) s s' : sf_Holds file s → sf_Holds file s' → s = s'.
Proof.
  intros H1 H2. assert (length s = length s') as Hlen.
  { destruct H1 as (_ & N1 & _), H2 as (_ & N2 & _). lia. }
  apply list_eq_same_length with (length s); [done|done|]. intros i x y _ Hx Hy.
  pose proof (index_spec file s H1 i x Hx) as E1. pose proof (index_spec file s' H2 i y Hy) as E2.
  rewrite E1 in E2. destruct x, y. cbn in E2. congruence.
Qed.

Lemma tables_hold_unique kv ids ls ls' : tables_hold kv ids ls → tables_hold kv ids ls' → ls = ls'.
Proof.
  intros Hl. revert ls'. induction Hl as [|id s ids ls (t & Ht & Hh) _ IH]; intros ls' Hl'; [by inversion Hl'|].
  inversion Hl' as [|? s' ? ls'' (t' & Ht' & Hh') Hl'']; subst. rewrite Ht in Ht'. injection Ht' as <-.
  f_equal; [by eapply sf_Holds_unique|by apply IH].
Qed.

Lemma split_level (main : list nat) level o1 o2 :
  main !! level = Some o1 → main !! (level + 1)%nat = Some o2 →
  main = take level main ++ o1 :: o2 :: drop (level + 2) main.
Proof.
  intros H1 H2. rewrite <- (take_drop level main) at 1. f_equal.
  rewrite (drop_S _ _ _ H1). f_equal. rewrite Nat.add_1_r in H2. rewrite (drop_S _ _ _ H2).
  do 2 f_equal. lia.
Qed.

(** Reading through tables whose files did not change. *)
Lemma merge_install_inv skip kv init commits level o1 o2 id t a b d :
  inv_but skip kv init commits → refs_ok kv →
  kv_main kv !! level = Some o1 → kv_main kv !! (level + 1)%nat = Some o2 →
  kv_tables kv !! id = Some t → tr_open t = true → sf_Holds (tr_file t) (kept d (merge_levels [a; b])) →
  tables_hold kv [o1; o2] [a; b] → (d = true → drop (level + 2) (kv_main kv) = []) →
  ∃ kv', merge_install kv level o1 o2 id = (kv', Ok tt) ∧ inv_but skip kv' init commits ∧ refs_ok kv' ∧
    kv_imm kv' = kv_imm kv ∧ kv_mem kv' = kv_mem kv ∧
    kv_main kv' = take level (kv_main kv) ++ id :: drop (level + 2) (kv_main kv).
Proof.
  intros Hinv Hrefs Ho1 Ho2 Ht Hopen Hh Hab Hd. unfold merge_install.
  rewrite bool_decide_true by done. cbn [check bindS].
  pose proof (split_level _ _ _ _ Ho1 Ho2) as Hmain.
  set (l1 := take level (kv_main kv)) in *. set (l2 := drop (level + 2) (kv_main kv)) in *.
  set (main' := l1 ++ id :: l2). set (kv1 := set_main (acquire kv id) main').
  set (kv2 := retire (retire kv1 o1) o2). set (R := snaps (kv_txs kv) (kv_ongoing kv)).
  assert (refs_for kv2 (o1 :: o2 :: main' ++ R)) as Hr2.
  { do 2 apply retire_refs. apply (refs_for_tables (acquire kv id)); [done|].
    eapply refs_for_perm; [|eapply acquire_refs; [exact Hrefs|exact Ht|done]].
    unfold held, main', R. rewrite Hmain at 1. solve_Permutation. }
  destruct (release_refs _ _ _ Hr2) as (kv3 & Hrel1 & Hr3). rewrite Hrel1. cbn [bindS].
  destruct (release_refs _ _ _ Hr3) as (kv4 & Hrel2 & Hr4). rewrite Hrel2. cbn [bindS].
  exists kv4. split; [done|].
  assert (same_core kv1 kv4) as Hsc.
  { eapply same_core_trans; [|by eapply release_core]. eapply same_core_trans; [|by eapply release_core].
    eapply same_core_trans; apply retire_core. }
  assert (inv_but skip kv1 init commits) as Hinv1.
  { pose proof (acquire_core kv id) as Hac.
    destruct Hinv as [I1 I2 I3 (m & ims & fs & Hm & Hs & Hi & Htb & Hv) I5 I6 I7 I8 I9].
    constructor; try done. rewrite Hmain in Htb. apply tables_hold_split in Htb as (f1 & fr & -> & Hf1 & Hfr).
    inversion Hfr as [|? x ? fr' Hx Hfr']; subst. inversion Hfr' as [|? y ? f2 Hy Hf2]; subst.
    assert ([x; y] = [a; b]) as [= -> ->] by (eapply tables_hold_unique; [by repeat constructor|exact Hab]).
    exists m, ims, (f1 ++ kept d (merge_levels [a; b]) :: f2). split_and!; try done.
    - apply (same_files_hold (set_main kv main')); [apply (sc_files _ _ Hac)|].
      apply Forall2_app; [done|]. constructor; [|done]. exists t. done.
    - etrans; [|exact Hv].
      assert (∀ z, m :: ims ++ f1 ++ z = (m :: ims ++ f1) ++ z) as Hre
        by (intros; cbn; by rewrite <- (assoc_L (++))).
      rewrite !Hre.
      apply merge_adjacent.
      + inversion Hab as [|? ? ? ? (? & _ & Hx1) _]; subst. by destruct Hx1.
      + inversion Hab as [|? ? ? ? _ Hab2]; subst. inversion Hab2 as [|? ? ? ? (? & _ & Hx1) _]; subst.
        by destruct Hx1.
      + intros Hdt. rewrite (Hd Hdt) in Hf2. by inversion Hf2. }
  split_and!.
  - by eapply same_core_inv.
  - unfold refs_ok, held. rewrite (sc_main _ _ Hsc), (sc_txs _ _ Hsc), (sc_ongoing _ _ Hsc). exact Hr4.
  - by rewrite (sc_imm _ _ Hsc).
  - by rewrite (sc_mem _ _ Hsc).
  - by rewrite (sc_main _ _ Hsc).
Qed.

(** The two tables a merge of [level] reads fit one table. *)
Definition merge_fits (kv : KV) (level : nat) : Prop :=
  ∀ o1 o2 t1 t2, kv_main kv !! level = Some o1 → kv_main kv !! (level + 1)%nat = Some o2 →
    kv_tables kv !! o1 = Some t1 → kv_tables kv !! o2 = Some t2 →
    sf_fits (EstimatedSize (tr_file t1) + EstimatedSize (tr_file t2)).

Lemma set_version_inv skip kv init commits v :
  inv_but skip kv init commits → inv_but skip (set_version kv v) init commits.
Proof. intros [I1 I2 I3 I4 I5 I6 I7 I8 I9]. by constructor. Qed.

Lemma set_meta_inv skip kv init commits v :
  inv_but skip kv init commits → inv_but skip (set_meta kv v) init commits.
Proof. intros [I1 I2 I3 I4 I5 I6 I7 I8 I9]. by constructor. Qed.

Lemma merge_sources_hold skip kv init commits level o1 o2 d :
  inv_but skip kv init commits → merge_sources kv level o1 o2 d →
  ∃ a b t1 t2, tables_hold kv [o1; o2] [a; b] ∧ kv_tables kv !! o1 = Some t1 ∧
    kv_tables kv !! o2 = Some t2 ∧ sf_Holds (tr_file t1) a ∧ sf_Holds (tr_file t2) b.
Proof.
  intros Hinv (Ho1 & Ho2 & _). destruct (i_now _ _ _ _ Hinv) as (m & ims & fs & _ & _ & _ & Ht & _).
  destruct (Forall2_lookup_l _ _ _ _ _ Ht Ho1) as (a & _ & t1 & Ht1 & Hh1).
  destruct (Forall2_lookup_l _ _ _ _ _ Ht Ho2) as (b & _ & t2 & Ht2 & Hh2).
  exists a, b, t1, t2. split_and!; try done. repeat constructor; eauto.
Qed.

Lemma merge_plan_inv skip kv init commits level :
  inv_but skip kv init commits → refs_ok kv → kv_imm kv = None → fresh_name kv (u64 (kv_version kv + 1)) →
  ((length (kv_main kv) ≤ level + 1)%nat ∧ merge_plan kv level = (kv, Ok None)) ∨
  ∃ o1 o2 d, let kv' := set_version kv (u64 (kv_version kv + 1)) in
    merge_plan kv level = (kv', Ok (Some (u64 (kv_version kv + 1), o1, o2, d))) ∧
    inv_but skip kv' init commits ∧ refs_ok kv' ∧
    phase_ok kv' (Merging level (u64 (kv_version kv + 1)) o1 o2 d).
Proof.
  intros Hinv Hrefs Himm Hfresh. unfold merge_plan.
  destruct (Nat.leb_spec (length (kv_main kv)) (level + 1)) as [Hle|Hlt]; [by left|right].
  destruct (lookup_lt_is_Some_2 (kv_main kv) level) as [o1 Ho1]; [lia|].
  destruct (lookup_lt_is_Some_2 (kv_main kv) (level + 1)) as [o2 Ho2]; [lia|].
  exists o1, o2, (length (kv_main kv) =? level + 2)%nat. cbn [kv_main set_version].
  rewrite (proj2 (go_index_ok _ _ _) Ho1). cbn [bindS kv_main set_version].
  rewrite (proj2 (go_index_ok _ _ _) Ho2). cbn [bindS kv_main set_version].
  split; [done|]. split; [by apply set_version_inv|]. split; [by apply (refs_ok_same kv)|].
  split; [done|]. split; [|done]. split; [done|]. split; [done|].
  intros Hd%Nat.eqb_eq. apply drop_ge. cbn. lia.
Qed.

Lemma merge_write_inv skip kv init commits level version o1 o2 d :
  inv_but skip kv init commits → refs_ok kv → phase_ok kv (Merging level version o1 o2 d) →
  merge_fits kv level →
  ∃ kv' id, merge_write kv version o1 o2 d = (kv', Ok id) ∧ inv_but skip kv' init commits ∧ refs_ok kv' ∧
    phase_ok kv' (Merged level version o1 o2 d id) ∧ kv_mem kv' = kv_mem kv.
Proof.
  intros Hinv Hrefs (Himm & Hsrc & Hfresh) Hfits.
  destruct (merge_sources_hold _ _ _ _ _ _ _ _ Hinv Hsrc) as (a & b & t1 & t2 & Hab & Ht1 & Ht2 & Hh1 & Hh2).
  unfold merge_write. rewrite (proj2 (go_index_ok _ _ _) Ht1). cbn [bindS].
  rewrite (proj2 (go_index_ok _ _ _) Ht2). cbn [bindS].
  destruct (create_table_spec (It := MergedSortedKVIter SortedFileIter) kv (sstableName version) d
    (MkMerged [tr_file t1; tr_file t2]) (merge_levels [a; b])) as (file & Hf & _ & ->).
  { exists [a; b]. split; [|done]. constructor; [exact Hh1|constructor; [exact Hh2|constructor]]. }
  { done. }
  { apply merge_levels_small; by eapply sf_Holds_small. }
  { cbn. destruct Hsrc as (? & ? & _). by eapply Hfits. }
  eexists _, _. split; [done|]. split; [by apply inv_append|]. split; [by apply refs_append|]. split; [|done].
  split; [done|]. split; [done|]. exists a, b. split; [by apply tables_hold_append|].
  eexists. split; [by apply list_lookup_middle|]. done.
Qed.

Lemma merge_finish_inv skip kv init commits level version o1 o2 d id :
  inv_but skip kv init commits → refs_ok kv → phase_ok kv (Merged level version o1 o2 d id) →
  ∃ kv', merge_install (merge_meta kv level version) level o1 o2 id = (kv', Ok tt) ∧
    inv_but skip kv' init commits ∧ refs_ok kv' ∧ phase_ok kv' Idle ∧ kv_mem kv' = kv_mem kv.
Proof.
  intros Hinv Hrefs (Himm & (Ho1 & Ho2 & Hd) & a & b & Hab & t & Ht & Hopen & _ & Hh).
  destruct (merge_install_inv skip (merge_meta kv level version) init commits level o1 o2 id t a b d)
    as (kv' & Hmi & Hinv' & Hrefs' & Himm' & Hmem' & _); try done.
  { by apply set_meta_inv. }
  { by apply (refs_ok_same kv). }
  exists kv'. split_and!; try done. cbn. by rewrite Himm'.
Qed.

End compact.
