(* ===== verification/KVSystem.v ===== *)
(** * The store as a transition system

    Transactions start, read, write, abort and commit while a compaction goes
    through its phases.  [step] is one critical section of db/kv.go; [sys_inv]
    holds in every reachable state.  Compactions are serialised by [kv.compact]
    and commits by [kv.commit], as in the source. *)

From Stdlib Require Import ZArith Lia.
From Stdlib.Strings Require Import Byte.
From stdpp Require Import base list numbers.
From S2P Require Import Prelude GoLib SortedSeq SortedKV SortedArray Merge File Entry SortedFile.
From S2P Require Import SortedFileProofs KVIterators Log Metadata KV KVCompact KVProofs.
From S2P Require Import KVCompactProofs.

Open Scope Z_scope.

Section system.
Context `{BL : BloomLaws} `{MetaJson}.

Record sys := MkSys { sy_kv : KV; sy_phase : phase; sy_commits : list (list ent) }.

(** A write a caller makes inside a transaction. *)
Inductive tx_write : (KVTX → KVTX * res bool) → Prop :=
  | w_SetEx k v mode : tx_write (fun tx => tx_SetEx tx k v mode)
  | w_Del k : tx_write (fun tx => tx_Del tx k).

(** [os.Remove] in the directory of the store. *)
Definition unlink (kv : KV) (name : bytes) : KV := set_tables kv (kv_tables kv) (remove_file (kv_files kv) name).

Inductive step : sys → sys → Prop :=
  | s_new kv p c kv' id :
      kv_closed kv = false → NewTX kv = Ok (kv', id) → step (MkSys kv p c) (MkSys kv' p c)
  | s_write kv p c id f kv' r :
      id ∈ kv_ongoing kv → tx_write f → with_tx kv id f = (kv', r) →
      step (MkSys kv p c) (MkSys kv' p c)
  | s_abort kv p c id kv' :
      id ∈ kv_ongoing kv → abortTX kv id = Ok kv' → step (MkSys kv p c) (MkSys kv' p c)
  | s_commit kv p c id tx kv' r :
      id ∈ kv_ongoing kv → kv_txs kv !! id = Some tx → Z.of_nat (length c) < 2 ^ 64 - 1 →
      applyTXSync kv id = (kv', r) →
      step (MkSys kv p c) (MkSys kv' p (committed r (arr_ents (tx_updates tx)) c))
  | s_freeze kv c kv' version frozen d :
      kv_version kv + 1 < 2 ^ 64 →
      flush_freeze kv = (kv', Ok (Some (version, frozen, d))) →
      step (MkSys kv Idle c) (MkSys kv' (Frozen version (arr_ents frozen) d) c)
  | s_flush_write kv c version s d kv' id :
      sf_fits (length s) → flush_write kv version (arr_of s) d = (kv', Ok id) →
      step (MkSys kv (Frozen version s d) c) (MkSys kv' (Written version s d id) c)
  | s_flush_fail kv c version s d kv' :
      unfreeze kv = Ok kv' →
      step (MkSys kv (Frozen version s d) c) (MkSys (unlink kv' (sstableName version)) Idle c)
  | s_flush_install kv c version s d id log r :
      rewriteLog (kv_log kv) (kv_mem kv) = (log, r) →
      step (MkSys kv (Written version s d id) c)
        (MkSys (set_log (flush_install (flush_meta kv version) id) log) Idle c)
  | s_merge_plan kv c level kv' version o1 o2 d :
      kv_version kv + 1 < 2 ^ 64 →
      merge_plan kv level = (kv', Ok (Some (version, o1, o2, d))) →
      step (MkSys kv Idle c) (MkSys kv' (Merging level version o1 o2 d) c)
  | s_merge_write kv c level version o1 o2 d kv' id :
      merge_fits kv level → merge_write kv version o1 o2 d = (kv', Ok id) →
      step (MkSys kv (Merging level version o1 o2 d) c) (MkSys kv' (Merged level version o1 o2 d id) c)
  | s_merge_fail kv c level version o1 o2 d :
      step (MkSys kv (Merging level version o1 o2 d) c) (MkSys (unlink kv (sstableName version)) Idle c)
  | s_merge_install kv c level version o1 o2 d id kv' r :
      merge_install (merge_meta kv level version) level o1 o2 id = (kv', r) →
      step (MkSys kv (Merged level version o1 o2 d id) c) (MkSys kv' Idle c).

Inductive reachable (s0 : sys) : sys → Prop :=
  | r_init : reachable s0 s0
  | r_step s s' : reachable s0 s → step s s' → reachable s0 s'.

(** ** The invariant *)

(** Everything in the memtables went through the log, which refuses records
    over [MaxEntrySize]. *)
Definition mem_small (kv : KV) : Prop :=
  Forall small (arr_ents (kv_mem kv)) ∧
  match kv_imm kv with Some imm => Forall small (arr_ents imm) | None => True end.

(** No file has the name of a table still to be written. *)
Definition names_ok (kv : KV) : Prop :=
  0 ≤ kv_version kv < 2 ^ 64 ∧ ∀ v, kv_version kv < v < 2 ^ 64 → fresh_name kv v.

(** The table being written has the latest version. *)
Definition phase_version (kv : KV) (p : phase) : Prop :=
  match p with
  | Frozen version _ _ | Merging _ version _ _ _ => version = kv_version kv
  | _ => True
  end.

Record sys_inv (init : list ent) (s : sys) : Prop := {
  si_inv : inv (sy_kv s) init (sy_commits s);
  si_refs : refs_ok (sy_kv s);
  si_phase : phase_ok (sy_kv s) (sy_phase s);
  si_small : mem_small (sy_kv s);
  si_names : names_ok (sy_kv s);
  si_version : phase_version (sy_kv s) (sy_phase s);
}.

(** *** Names of tables *)

Lemma sstableName_inj a b :
  0 ≤ a < 2 ^ 64 → 0 ≤ b < 2 ^ 64 → sstableName a = sstableName b → a = b.
Proof.
  intros Ha Hb Heq%(app_inv_head sstablePrefix). by apply FormatUint_inj.
Qed.

Lemma remove_absent files n name : file_content files n = [] → file_content (remove_file files name) n = [].
Proof.
  unfold file_content, remove_file. intros Hf. destruct (decide (n = name)) as [->|Hne].
  - rewrite list_filter_filter. rewrite (list_filter_iff _ (fun _ => False)); [clear; induction files as [|? ? IH]; [done|]; rewrite filter_cons_False by tauto; exact IH|].
    intros [x c]. tauto.
  - rewrite list_filter_filter. rewrite (list_filter_iff _ (fun '(x, _) => x = n)); [done|].
    intros [x c]. split; [tauto|]. intros ->. done.
Qed.

Lemma put_absent files n name c :
  n ≠ name → file_content files n = [] → file_content (put_file files name c) n = [].
Proof.
  intros Hne Hf. apply (remove_absent _ _ name) in Hf. unfold file_content, put_file in *.
  rewrite filter_cons_False; [exact Hf|]. congruence.
Qed.

(** *** A logged memtable is small *)

Lemma log_Write_small log e log' :
  log_Write log e = (log', Ok tt) → Z.of_nat (length (en_key e) + length (en_val e)) ≤ MaxEntrySize.
Proof.
  unfold log_Write, Encode. cbn [en_key en_val].
  destruct (Z.ltb_spec MaxEntrySize (Z.of_nat (length (en_key e) + length (en_val e)))); [done|]. intros _. lia.
Qed.

Lemma write_entries_small fuel s (p : nat) log log' :
  sorted s → write_entries fuel (arr_iter_at (arr_of s) (Z.of_nat p)) log = (log', Ok tt) →
  Forall small (drop p s).
Proof.
  intros Hs. revert p log. induction fuel as [|fuel IH]; intros p log.
  all: assert (At (arr_iter_at (arr_of s) (Z.of_nat p)) s (Z.of_nat p) ∨ (length s < p)%nat) as [Hat|Hbig]
    by (destruct (decide (p ≤ length s)%nat); [left; split; [done|]; split; [done|lia]|right; lia]).
  all: cbn [write_entries].
  1,3: destruct (Valid (arr_iter_at (arr_of s) (Z.of_nat p))) eqn:Hv.
  - done.
  - intros _. destruct (At_invalid _ _ _ Hat Hv) as [?|Hend]; [lia|]. rewrite drop_ge by lia. constructor.
  - destruct (At_valid_entry _ _ _ Hat Hv) as (e & He & _ & Hk & Hx & Hd). rewrite Nat2Z.id in He.
    rewrite Hk, Hx, Hd. rs. cbn [bindS].
    destruct (log_Write log _) as [log1 [[]| | |]] eqn:Ew; cbn [bindS]; try done.
    apply log_Write_small in Ew. cbn in Ew.
    destruct (At_next _ _ _ Hat) as (it' & Hn & (-> & _ & _)). rewrite Hn. cbn [bindS].
    apply lookup_lt_Some in He as Hlt.
    replace (Z.min (Z.of_nat p + 1) (Z.of_nat (length s))) with (Z.of_nat (S p)) by lia.
    intros Hw. apply IH in Hw. rewrite (drop_S _ _ _ He). constructor; [unfold small; lia|done].
  - intros _. destruct (At_invalid _ _ _ Hat Hv) as [?|Hend]; [lia|]. rewrite drop_ge by lia. constructor.
  - intros _. rewrite drop_ge by lia. constructor.
  - intros _. rewrite drop_ge by lia. constructor.
Qed.

Lemma updateLog_small log u : sorted u → snd (updateLog log (arr_of u)) = Ok tt → Forall small u.
Proof.
  intros Hs. unfold updateLog, defer_ResetTX. change (arr_Iter (arr_of u)) with (Ok (arr_iter_at (arr_of u) 0)).
  cbn [bindS snd]. destruct (write_entries _ _ _) as [log1 [[]| | |]] eqn:Ew; cbn [bindS snd]; try done.
  intros _. by apply (write_entries_small _ _ 0) in Ew.
Qed.

Lemma overlay_small u m : Forall small u → Forall small m → Forall small (overlay u m).
Proof.
  intros Hu Hm. induction u as [|e u IH]; [done|]. inversion Hu; subst. cbn.
  apply Forall_forall. intros x [->|Hx]%upsert_elem; [done|].
  specialize (IH ltac:(done)). rewrite Forall_forall in IH. by apply IH.
Qed.

(** *** Frames: what an operation leaves alone *)

(** Same memtables and tables; only tables among [ids] may have changed. *)
Record frame (ids : list nat) (kv kv' : KV) : Prop := {
  fr_mem : kv_mem kv' = kv_mem kv;
  fr_imm : kv_imm kv' = kv_imm kv;
  fr_main : kv_main kv' = kv_main kv;
  fr_version : kv_version kv' = kv_version kv;
  fr_files : same_files kv kv';
  fr_absent name : file_content (kv_files kv) name = [] → file_content (kv_files kv') name = [];
  fr_tables tid : tid ∉ ids → kv_tables kv' !! tid = kv_tables kv !! tid;
}.

Lemma frame_refl ids kv : frame ids kv kv.
Proof. by constructor. Qed.

Lemma frame_trans ids kv1 kv2 kv3 : frame ids kv1 kv2 → frame ids kv2 kv3 → frame ids kv1 kv3.
Proof.
  intros [A1 A2 A3 A4 A5 A6 A7] [B1 B2 B3 B4 B5 B6 B7]. constructor; [congruence..| | |].
  - intros id. by rewrite B5.
  - auto.
  - intros tid Hn. by rewrite B7, A7.
Qed.

Lemma frame_weaken ids ids' kv kv' : (∀ i, i ∈ ids → i ∈ ids') → frame ids kv kv' → frame ids' kv kv'.
Proof. intros Hs []. constructor; try done. intros tid Hn. auto. Qed.

Lemma acquires_frame ids kv : frame ids kv (foldl acquire kv ids).
Proof.
  revert kv. induction ids as [|id ids IH]; intros kv; [apply frame_refl|]. cbn [foldl].
  eapply frame_trans; [|eapply frame_weaken; [|apply IH]; intros; by right].
  constructor; try done; [by apply upd_table_files|].
  intros tid Hn. cbn. apply list_lookup_alter_ne. intros ->. apply Hn. by left.
Qed.

Lemma releases_frame ids kv kv' : foldM release kv ids = Ok kv' → frame ids kv kv'.
Proof.
  revert kv. induction ids as [|id ids IH]; intros kv; cbn [foldM]; [intros [= <-]; apply frame_refl|].
  intros (kv1 & Hr & Hrs)%bind_ok. eapply frame_trans; [|eapply frame_weaken; [|by apply IH]; intros; by right].
  pose proof (sc_files _ _ (release_core _ _ _ Hr)) as Hsf.
  unfold release in Hr. apply bind_ok in Hr as (t & Ht & Hr). rs.
  destruct (0 <=? tr_refs t - 1); cbn [check] in Hr; [|done]. rs. injection Hr as <-.
  constructor; try done.
  - intros name Hn. cbn. destruct (_ || _); [done|]. by apply remove_absent.
  - intros tid Hn. cbn. apply list_lookup_insert_ne. intros ->. apply Hn. by left.
Qed.

Lemma NewTX_frame kv kv' id : kv_closed kv = false → NewTX kv = Ok (kv', id) → frame (kv_main kv) kv kv'.
Proof.
  intros Hc. unfold NewTX. rewrite Hc. intros (levels & _ & Hn)%bind_ok. injection Hn as <- _.
  destruct (acquires_frame (kv_main kv) kv). by constructor.
Qed.

Lemma untrack_frame kv kv' id tx :
  kv_txs kv !! id = Some tx → untrackTXSync kv id = Ok kv' → frame (tx_mainSnap tx) kv kv'.
Proof.
  intros Htx. unfold untrackTXSync. destruct (index_of id (kv_ongoing kv)); [|intros [= <-]; apply frame_refl].
  intros (h & _ & Hu)%bind_ok. rewrite (proj2 (go_index_ok _ _ _) Htx) in Hu. rs.
  apply releases_frame in Hu as []. by constructor.
Qed.

(** Tables held by a snapshot are counted. *)
Lemma mainSnap_held kv id tx tid :
  id ∈ kv_ongoing kv → kv_txs kv !! id = Some tx → tid ∈ tx_mainSnap tx → tid ∈ held kv.
Proof.
  intros Hid Htx Hin. unfold held. apply elem_of_app. right. unfold snaps.
  apply list_elem_of_join. exists (tx_mainSnap tx). split; [done|].
  apply list_elem_of_fmap. exists id. by rewrite Htx.
Qed.

Lemma zero_refs_not_held kv tid t :
  refs_ok kv → kv_tables kv !! tid = Some t → tr_refs t = 0 → tid ∉ held kv.
Proof.
  intros Hr Ht Hz Hin. pose proof (rf_count _ _ Hr tid t Ht) as Hc.
  assert (0 < count_occ Nat.eq_dec (held kv) tid)%nat by (apply count_occ_In; by apply list_elem_of_In). lia.
Qed.

Lemma unreferenced_frame kv kv' ids id s :
  frame ids kv kv' → refs_ok kv → (∀ i, i ∈ ids → i ∈ held kv) → unreferenced kv id s → unreferenced kv' id s.
Proof.
  intros Hf Hr Hs (t & Ht & P4 & P5 & P6). exists t. split_and!; try done.
  rewrite (fr_tables _ _ _ Hf); [done|]. intros Hin%Hs. by eapply zero_refs_not_held.
Qed.

Lemma phase_frame kv kv' ids p :
  frame ids kv kv' → refs_ok kv → (∀ i, i ∈ ids → i ∈ held kv) → phase_ok kv p → phase_ok kv' p.
Proof.
  intros Hf Hr Hs. pose proof Hf as [A1 A2 A3 A4 A5 A6 A7].
  assert (∀ l o1 o2 d, merge_sources kv l o1 o2 d → merge_sources kv' l o1 o2 d) as Hms
    by (intros l o1 o2 d; unfold merge_sources; by rewrite A3).
  destruct p as [|v s d|v s d id|l v o1 o2 d|l v o1 o2 d id]; cbn; rewrite ?A2, ?A3; try done.
  - intros (P1 & P2 & P3 & P4). split_and!; try done. by apply A6.
  - intros (P1 & P2 & P3 & P4). split_and!; try done. by eapply unreferenced_frame.
  - intros (P1 & P2 & P3). split_and!; auto. by apply A6.
  - intros (P1 & P2 & a & b & P3 & P4). split_and!; auto. exists a, b.
    split; [by eapply same_files_hold|by eapply unreferenced_frame].
Qed.

Lemma small_frame kv kv' ids : frame ids kv kv' → mem_small kv → mem_small kv'.
Proof. intros []. unfold mem_small. by rewrite fr_mem0, fr_imm0. Qed.

Lemma names_frame kv kv' ids : frame ids kv kv' → names_ok kv → names_ok kv'.
Proof.
  intros [] [Hv Hf]. unfold names_ok. rewrite fr_version0. split; [done|]. intros v Hlt.
  by apply fr_absent0, Hf.
Qed.

Lemma version_frame kv kv' ids p : frame ids kv kv' → phase_version kv p → phase_version kv' p.
Proof. intros []. destruct p; cbn; by rewrite ?fr_version0. Qed.

(** A step of a transaction keeps the invariant of the compaction in flight. *)
Lemma frame_sys_inv init kv kv' ids p c :
  sys_inv init (MkSys kv p c) → frame ids kv kv' → (∀ i, i ∈ ids → i ∈ held kv) →
  inv kv' init c → refs_ok kv' → sys_inv init (MkSys kv' p c).
Proof.
  intros [Hinv Hrefs Hp Hsm Hn Hv] Hf Hs Hinv' Hrefs'. cbn [sy_kv sy_phase sy_commits] in *.
  constructor; cbn [sy_kv sy_phase sy_commits];
    [done|done|by eapply phase_frame|by eapply small_frame|by eapply names_frame|by eapply version_frame].
Qed.

(** Retiring and releasing the merged tables creates no file. *)
Lemma merge_install_frame kv level o1 o2 id kv' r :
  merge_install kv level o1 o2 id = (kv', r) →
  kv_version kv' = kv_version kv ∧
  ∀ name, file_content (kv_files kv) name = [] → file_content (kv_files kv') name = [].
Proof.
  unfold merge_install. destruct (check _); cbn [bindS]; [|by intros [= <- _]..].
  destruct (release _ o1) as [kv1| | |] eqn:E1; cbn [bindS]; [|by intros [= <- _]..].
  pose proof (releases_frame [o1] _ kv1 ltac:(cbn [foldM]; by rewrite E1)) as F1.
  destruct (release kv1 o2) as [kv2| | |] eqn:E2; cbn [bindS]; [|intros [= <- _]; split; [apply F1|apply (fr_absent _ _ _ F1)]..].
  pose proof (releases_frame [o2] _ kv2 ltac:(cbn [foldM]; by rewrite E2)) as F2.
  intros [= <- _]. split; [rewrite (fr_version _ _ _ F2); apply F1|].
  intros name Hn. by apply F2, F1.
Qed.

(** *** Writes inside a transaction *)

Lemma tx_write_effect init commits tx n f :
  sorted init → tx_reads init commits tx n → tx_write f →
  ∃ u' r, sorted u' ∧ f tx = (set_updates tx (arr_of u'), r).
Proof.
  intros Hi Hr Hf. pose proof Hr as (_ & _ & _ & _ & u & Hu & Hsu).
  assert (tx = set_updates tx (arr_of u)) as Hself by (rewrite <- Hu; by destruct tx).
  destruct Hf as [k v mode|k].
  - destruct (decide (mode = ModeUpsert ∨ mode = ModeInsert ∨ mode = ModeUpdate)) as [Hm|Hm].
    + rewrite (tx_SetEx_spec tx init commits n u) by done. case_if; [|exists u; eexists; split; [done|by rewrite <- Hself]].
      eexists _, _. split; [|reflexivity]. by apply upsert_sorted.
    + rewrite (tx_SetEx_bad_mode tx init commits n) by done.
      exists u. eexists. split; [done|by rewrite <- Hself].
  - rewrite (tx_Del_spec tx init commits n u) by done. case_bool_decide; [exists u; eexists; split; [done|by rewrite <- Hself]|].
    eexists _, _. split; [|reflexivity]. by apply upsert_sorted.
Qed.

Lemma set_tx_inv kv init commits id tx n u' :
  inv kv init commits → kv_txs kv !! id = Some tx → tx_reads init commits tx n → sorted u' →
  inv (set_txs kv (<[id := set_updates tx (arr_of u')]> (kv_txs kv))) init commits.
Proof.
  intros [I1 I2 I3 (m & ims & fs & Hm & Hs & Himm & Ht & Hv) I5 I6 I7 I8 I9] Htx Hr Hu'.
  assert (id < length (kv_txs kv))%nat as Hlt by (by eapply lookup_lt_Some).
  assert (∀ id' t', <[id := set_updates tx (arr_of u')]> (kv_txs kv) !! id' = Some t' →
    ∃ t, kv_txs kv !! id' = Some t ∧ tx_snapshot t' = tx_snapshot t) as Hback.
  { intros id' t'. destruct (decide (id = id')) as [<-|Hne].
    - rewrite list_lookup_insert_eq by done. intros [= <-]. eauto.
    - rewrite list_lookup_insert_ne by done. eauto. }
  constructor; cbn; try done.
  - exists m, ims, fs. done.
  - intros id' Hid'. destruct (decide (id = id')) as [<-|Hne].
    + exists (set_updates tx (arr_of u')), n. rewrite list_lookup_insert_eq by done.
      split; [done|]. by apply tx_reads_updates.
    + rewrite list_lookup_insert_ne by done. by apply I5.
  - eapply StronglySorted_weaken; [exact I7|]. intros a b _ _ Hab ta tb Hta Htb.
    destruct (Hback _ _ Hta) as (t1 & E1 & ->). destruct (Hback _ _ Htb) as (t2 & E2 & ->). by apply Hab.
  - intros id' t' i u e Hns Hid' Ht' Hu Hle He. destruct (Hback _ _ Ht') as (t & E & Es).
    apply (I9 id' t i u e); try done. by rewrite <- Es.
Qed.

Lemma write_step_inv kv init commits id f kv' r :
  inv kv init commits → refs_ok kv → id ∈ kv_ongoing kv → tx_write f → with_tx kv id f = (kv', r) →
  inv kv' init commits ∧ refs_ok kv' ∧ frame [] kv kv'.
Proof.
  intros Hinv Hrefs Hid Hf Hw. destruct (i_txs _ _ _ _ Hinv id Hid) as (tx & n & Htx & Hr).
  destruct (tx_write_effect init commits tx n f) as (u' & r' & Hu' & Hfx);
    [apply (i_init _ _ _ _ Hinv)|done|done|].
  unfold with_tx in Hw. rewrite Htx, Hfx in Hw. injection Hw as <- <-.
  split; [by eapply set_tx_inv|]. split; [|by constructor].
  unfold refs_ok, held. cbn [kv_main kv_txs kv_ongoing set_txs]. apply (refs_for_tables kv); [done|].
  rewrite (snaps_ext (kv_txs kv)); [exact Hrefs|]. intros id' _. destruct (decide (id = id')) as [<-|Hne].
  - rewrite list_lookup_insert_eq by (by eapply lookup_lt_Some). by rewrite Htx.
  - by rewrite list_lookup_insert_ne.
Qed.

(** *** Commit *)

Lemma apply_updates_files kv tx kv' r :
  apply_updates kv tx = (kv', r) → kv_version kv' = kv_version kv ∧ kv_files kv' = kv_files kv.
Proof.
  unfold apply_updates. destruct (Size _ =? 0)%nat; [by intros [= <- _]|].
  destruct (checkTXConflict kv tx) as [[]| | |]; cbn [bindS]; try by intros [= <- _].
  destruct (updateLog _ _) as [log [[]| | |]]; cbn [bindS]; try by intros [= <- _].
  destruct (updateMem _ _) as [mem| | |]; cbn [bindS]; try by intros [= <- _].
  unfold updateHistory. destruct (1 <? _)%nat; cbn [bindS]; [|by intros [= <- _]].
  destruct (arr_Iter _) as [it| | |]; rs; cbn [bindS]; try by intros [= <- _].
  destruct (for_each _ it _) as [h| | |]; rs; cbn [bindS]; by intros [= <- _].
Qed.

Lemma phase_same kv kv' p :
  kv_imm kv' = kv_imm kv → kv_main kv' = kv_main kv → kv_tables kv' = kv_tables kv →
  kv_files kv' = kv_files kv → phase_ok kv p → phase_ok kv' p.
Proof.
  intros E1 E2 E3 E4. destruct p; cbn;
    unfold unreferenced, merge_sources, tables_hold, fresh_name; by rewrite ?E1, ?E2, ?E3, ?E4.
Qed.

Lemma commit_step_inv kv init commits id tx kv' r p :
  sys_inv init (MkSys kv p commits) → id ∈ kv_ongoing kv → kv_txs kv !! id = Some tx →
  Z.of_nat (length commits) < 2 ^ 64 - 1 → applyTXSync kv id = (kv', r) →
  sys_inv init (MkSys kv' p (committed r (arr_ents (tx_updates tx)) commits)).
Proof.
  intros [Hinv Hrefs Hp Hsm Hn Hv] Hid Htx Hlen Ha. cbn [sy_kv sy_phase sy_commits] in *.
  destruct (i_txs _ _ _ _ Hinv id Hid) as (tx' & n & Htx' & Hr). rewrite Htx in Htx'. injection Htx' as <-.
  pose proof Hr as (Herr & Hsn & _ & _ & u & Hu & Hsu).
  destruct (apply_updates_spec kv init commits id tx n u Hinv Hid Htx Hsn Hu Hsu Hlen)
    as (kv1 & r1 & Hap & Hinv1 & Et & Em & Ex & Eo & Ec & Ei & Emem & _).
  destruct (apply_updates_files _ _ _ _ Hap) as [Ev Ef].
  unfold applyTXSync in Ha. rewrite (proj2 (go_index_ok _ _ _) Htx) in Ha. cbn [bindS] in Ha.
  rewrite Herr, Hap in Ha.
  assert (refs_ok kv1) as Hrefs1 by (by apply (refs_ok_same kv)).
  destruct (untrack_inv kv1 init (committed r1 u commits) id Hinv1 Hrefs1) as (kv2 & Hun & Hinv2 & Hrefs2 & _);
    [by rewrite Eo|].
  rewrite Hun in Ha. cbn [bindS] in Ha. injection Ha as <- <-.
  assert (kv_txs kv1 !! id = Some tx) as Htx1 by (by rewrite Ex).
  pose proof (untrack_frame _ _ _ _ Htx1 Hun) as Hfr.
  rewrite Hu, arr_ents_of. constructor; cbn [sy_kv sy_phase sy_commits]; try done.
  - eapply phase_frame; [exact Hfr|done| |by apply (phase_same kv)].
    intros i Hi. eapply mainSnap_held; [|exact Htx1|done]. by rewrite Eo.
  - eapply small_frame; [exact Hfr|]. unfold mem_small in *. rewrite Ei. destruct Hsm as [Hm Him].
    split; [|done]. destruct Emem as [->|(Hlog & m & Hmm & ->)]; [done|].
    rewrite arr_ents_of. rewrite Hmm, arr_ents_of in Hm. apply overlay_small; [|done].
    by eapply updateLog_small.
  - eapply names_frame; [exact Hfr|]. unfold names_ok, fresh_name. by rewrite Ev, Ef.
  - eapply version_frame; [exact Hfr|]. destruct p; cbn; by rewrite ?Ev.
Qed.

(** *** Starting a transaction *)

Lemma NewTX_refs kv init commits kv' id :
  inv kv init commits → refs_ok kv → kv_closed kv = false → NewTX kv = Ok (kv', id) → refs_ok kv'.
Proof.
  intros Hinv Hrefs Hcl Hn. destruct (NewTX_inv _ _ _ Hinv Hcl) as (kv1 & tx & Hn1 & _ & Htxs & Hon & _ & _ & _ & Hsnap).
  rewrite Hn in Hn1. injection Hn1 as <- ->.
  pose proof (NewTX_frame _ _ _ Hcl Hn) as Hfr.
  assert (kv_tables kv' = kv_tables (foldl acquire kv (kv_main kv))) as Htab.
  { unfold NewTX in Hn. rewrite Hcl in Hn. apply bind_ok in Hn as (levels & _ & Hn). by injection Hn as <-. }
  unfold refs_ok, held. rewrite (fr_main _ _ _ Hfr), Htxs, Hon.
  apply (refs_for_tables (foldl acquire kv (kv_main kv))); [done|].
  eapply refs_for_perm; [|apply (acquires_refs (kv_main kv)); [exact Hrefs|]].
  - rewrite snaps_app. rewrite (snaps_ext (kv_txs kv) (kv_txs kv ++ [tx]) (kv_ongoing kv)).
    + assert (snaps (kv_txs kv ++ [tx]) [length (kv_txs kv)] = kv_main kv) as ->.
      { unfold snaps. cbn. rewrite list_lookup_middle by done. by rewrite Hsnap, app_nil_r. }
      unfold held. solve_Permutation.
    + intros i Hi. destruct (i_txs _ _ _ _ Hinv i Hi) as (t & n & Ht & _).
      by rewrite lookup_app_l by (by eapply lookup_lt_Some).
  - intros i Hi. unfold held. apply elem_of_app. by left.
Qed.

(** *** Every step *)

Lemma new_step_inv init kv p c kv' id :
  sys_inv init (MkSys kv p c) → kv_closed kv = false → NewTX kv = Ok (kv', id) → sys_inv init (MkSys kv' p c).
Proof.
  intros Hsi Hcl Hn. pose proof Hsi as [Hinv Hrefs _ _ _ _]. cbn [sy_kv sy_phase sy_commits] in *.
  pose proof (NewTX_refs _ _ _ _ _ Hinv Hrefs Hcl Hn) as Hrefs'.
  pose proof (NewTX_frame _ _ _ Hcl Hn) as Hfr.
  destruct (NewTX_inv _ _ _ Hinv Hcl) as (kv1 & tx & Hn1 & Hinv1 & _). rewrite Hn in Hn1. injection Hn1 as <- _.
  eapply frame_sys_inv; [exact Hsi|exact Hfr| |done|done].
  intros i Hi. unfold held. apply elem_of_app. by left.
Qed.

Lemma abort_step_inv init kv p c id kv' :
  sys_inv init (MkSys kv p c) → id ∈ kv_ongoing kv → abortTX kv id = Ok kv' → sys_inv init (MkSys kv' p c).
Proof.
  intros Hsi Hid Ha. pose proof Hsi as [Hinv Hrefs _ _ _ _]. cbn [sy_kv sy_phase sy_commits] in *.
  destruct (i_txs _ _ _ _ Hinv id Hid) as (tx & n & Htx & _).
  pose proof (untrack_frame _ _ _ _ Htx Ha) as Hfr.
  destruct (untrack_inv kv init c id) as (kv1 & Hu & Hinv1 & Hrefs1 & _); [|done|done|].
  { eapply inv_but_weaken; [|exact Hinv]. done. }
  unfold abortTX in Ha. rewrite Hu in Ha. injection Ha as <-.
  eapply frame_sys_inv; [exact Hsi|exact Hfr| |done|done]. intros i Hi. by eapply mainSnap_held.
Qed.

Lemma freeze_step_inv init kv c kv' version frozen d :
  sys_inv init (MkSys kv Idle c) → kv_version kv + 1 < 2 ^ 64 →
  flush_freeze kv = (kv', Ok (Some (version, frozen, d))) →
  sys_inv init (MkSys kv' (Frozen version (arr_ents frozen) d) c).
Proof.
  intros [Hinv Hrefs Hp Hsm Hn _] Hb Hf. cbn [sy_kv sy_phase sy_commits] in *. cbn in Hp.
  destruct Hn as [Hv Hn].
  assert (u64 (kv_version kv + 1) = kv_version kv + 1) as Hu by (apply Z.mod_small; lia).
  destruct (flush_freeze_inv _ _ _ _ Hinv Hp Hrefs) as [[_ Hz]|(kv1 & s & d1 & Hf1 & Hmem & Hinv1 & Hrefs1 & Hp1)];
    [rewrite Hu; apply Hn; lia|congruence|].
  rewrite Hu in *. rewrite Hf in Hf1. injection Hf1 as <- -> -> ->. rewrite arr_ents_of.
  assert (kv' = set_imm (set_mem (set_version kv (kv_version kv + 1)) arr_empty) (Some (kv_mem kv))) as ->.
  { unfold flush_freeze in Hf. rewrite Hp, Hu in Hf. destruct (Size (kv_mem kv) =? 0)%nat; [done|].
    by injection Hf as <- _ _. }
  constructor; cbn [sy_kv sy_phase sy_commits]; try done.
  - split; [constructor|]. cbn. apply Hsm.
  - split; [cbn; lia|]. cbn. intros v Hlt. apply Hn. lia.
Qed.

Lemma names_put kv name file version :
  names_ok kv → version = kv_version kv →
  names_ok (set_tables kv (kv_tables kv ++ [MkTable name file true 0 false])
    (put_file (kv_files kv) (sstableName version) (sf_fp file))).
Proof.
  intros [Hv Hn] ->. split; [done|]. intros v Hlt. cbn in *. unfold fresh_name. cbn.
  apply put_absent; [|by apply Hn]. intros Heq%sstableName_inj; lia.
Qed.

Lemma flush_write_step_inv init kv c version s d kv' id :
  sys_inv init (MkSys kv (Frozen version s d) c) → sf_fits (length s) →
  flush_write kv version (arr_of s) d = (kv', Ok id) →
  sys_inv init (MkSys kv' (Written version s d id) c).
Proof.
  intros [Hinv Hrefs Hp Hsm Hn Hv] Hfit Hw. cbn [sy_kv sy_phase sy_commits] in *.
  assert (Forall small s) as Hss.
  { destruct Hsm as [_ Him]. destruct Hp as (Hi & _). rewrite Hi, arr_ents_of in Him. done. }
  destruct (flush_write_inv _ _ _ _ _ _ _ Hinv Hrefs Hp Hss Hfit)
    as (kv1 & id1 & Hf & Hinv1 & Hrefs1 & Hp1 & Hm1 & Hi1).
  rewrite Hf in Hw. injection Hw as <- <-.
  constructor; cbn [sy_kv sy_phase sy_commits]; try done.
  - unfold mem_small. by rewrite Hm1, Hi1.
  - unfold flush_write, create_table in Hf.
    destruct (if d then _ else _) as [file| | |]; cbn [bindS] in Hf; cbv zeta in Hf.
    1: by injection Hf as <- <-; apply names_put.
    all: destruct (unfreeze _); cbn [bindS] in Hf; done.
Qed.

Lemma unlink_names kv name : names_ok kv → names_ok (unlink kv name).
Proof. intros [Hv Hn]. split; [done|]. intros v Hlt. by apply remove_absent, Hn. Qed.

Lemma unlink_inv kv name init c : inv kv init c → inv (unlink kv name) init c.
Proof. intros [I1 I2 I3 I4 I5 I6 I7 I8 I9]. by constructor. Qed.

Lemma flush_fail_step_inv init kv c version s d kv' :
  sys_inv init (MkSys kv (Frozen version s d) c) → unfreeze kv = Ok kv' →
  sys_inv init (MkSys (unlink kv' (sstableName version)) Idle c).
Proof.
  intros [Hinv Hrefs Hp Hsm Hn _] Hu. cbn [sy_kv sy_phase sy_commits] in *.
  destruct (unfreeze_inv _ _ _ _ Hinv Hrefs) as (kv1 & Hu1 & Hinv1 & Hrefs1 & Himm1 & Hm1).
  rewrite Hu in Hu1. injection Hu1 as <-. constructor; cbn [sy_kv sy_phase sy_commits]; try done.
  - by apply unlink_inv.
  - by apply (refs_ok_same kv').
  - unfold mem_small in *. cbn. rewrite Himm1. split; [|done].
    destruct Hm1 as [->|(m & s' & Hm & Hi & ->)]; [apply Hsm|].
    rewrite Hm, Hi, !arr_ents_of in Hsm. rewrite arr_ents_of. destruct Hsm. by apply merge_levels_small.
  - apply unlink_names. unfold unfreeze in Hu. destruct (kv_imm kv); [|by injection Hu as <-].
    destruct (merge_arrays _ _); try done. by injection Hu as <-.
Qed.

Lemma flush_step_inv init kv c version s d id log r :
  sys_inv init (MkSys kv (Written version s d id) c) → rewriteLog (kv_log kv) (kv_mem kv) = (log, r) →
  sys_inv init (MkSys (set_log (flush_install (flush_meta kv version) id) log) Idle c).
Proof.
  intros [Hinv Hrefs Hp Hsm Hn _] _. cbn [sy_kv sy_phase sy_commits] in *.
  assert (refs_ok (flush_meta kv version)) as Hrefs0 by (by apply (refs_ok_same kv)).
  destruct (flush_install_inv _ (flush_meta kv version) init c version s d id
    (set_meta_inv _ _ _ _ _ Hinv) Hrefs0 Hp) as (Hinv1 & Hrefs1 & Hp1).
  constructor; cbn [sy_kv sy_phase sy_commits]; try done.
  - by apply set_log_inv.
  - by apply (refs_ok_same (flush_install (flush_meta kv version) id)).
  - destruct Hsm as [Hm _]. by split.
Qed.

Lemma merge_plan_step_inv init kv c level kv' version o1 o2 d :
  sys_inv init (MkSys kv Idle c) → kv_version kv + 1 < 2 ^ 64 →
  merge_plan kv level = (kv', Ok (Some (version, o1, o2, d))) →
  sys_inv init (MkSys kv' (Merging level version o1 o2 d) c).
Proof.
  intros [Hinv Hrefs Hp Hsm Hn _] Hb Hm. cbn [sy_kv sy_phase sy_commits] in *. destruct Hn as [Hv Hn].
  assert (u64 (kv_version kv + 1) = kv_version kv + 1) as Hu by (apply Z.mod_small; lia).
  destruct (merge_plan_inv _ _ _ _ level Hinv Hrefs Hp) as [[_ Hz]|(p1 & p2 & d1 & Hm1 & Hinv1 & Hrefs1 & Hp1)];
    [rewrite Hu; apply Hn; lia|congruence|].
  rewrite Hu in *. rewrite Hm in Hm1. injection Hm1 as -> -> -> -> ->.
  constructor; cbn [sy_kv sy_phase sy_commits]; try done.
  split; [cbn; lia|]. cbn. intros v Hlt. apply Hn. lia.
Qed.

Lemma merge_write_step_inv init kv c level version o1 o2 d kv' id :
  sys_inv init (MkSys kv (Merging level version o1 o2 d) c) → merge_fits kv level →
  merge_write kv version o1 o2 d = (kv', Ok id) →
  sys_inv init (MkSys kv' (Merged level version o1 o2 d id) c).
Proof.
  intros [Hinv Hrefs Hp Hsm Hn Hv] Hfit Hw. cbn [sy_kv sy_phase sy_commits] in *.
  destruct (merge_write_inv _ _ _ _ _ _ _ _ _ Hinv Hrefs Hp Hfit) as (kv1 & id1 & Hf & Hinv1 & Hrefs1 & Hp1 & Hm1).
  rewrite Hf in Hw. injection Hw as <- <-.
  constructor; cbn [sy_kv sy_phase sy_commits]; try done.
  - unfold mem_small. destruct Hp1 as (-> & _). rewrite Hm1. split; [apply Hsm|done].
  - unfold merge_write in Hf.
    destruct (go_index _ o1); cbn [bindS] in Hf; try done.
    destruct (go_index _ o2); cbn [bindS] in Hf; try done. unfold create_table in Hf.
    destruct (if d then _ else _) as [file| | |]; cbn [bindS] in Hf; try done.
    injection Hf as <- <-. by apply names_put.
Qed.

Lemma merge_install_step_inv init kv c level version o1 o2 d id kv' r :
  sys_inv init (MkSys kv (Merged level version o1 o2 d id) c) →
  merge_install (merge_meta kv level version) level o1 o2 id = (kv', r) →
  sys_inv init (MkSys kv' Idle c).
Proof.
  intros [Hinv Hrefs Hp Hsm Hn _] Hm. cbn [sy_kv sy_phase sy_commits] in *.
  destruct (merge_finish_inv _ _ _ _ _ _ _ _ _ _ Hinv Hrefs Hp) as (kv1 & Hm1 & Hinv1 & Hrefs1 & Hp1 & Hmem1).
  pose proof (merge_install_frame _ _ _ _ _ _ _ Hm) as [Hv Hab].
  rewrite Hm in Hm1. injection Hm1 as <- ->.
  constructor; cbn [sy_kv sy_phase sy_commits]; try done.
  - unfold mem_small. rewrite Hp1, Hmem1. split; [apply Hsm|done].
  - destruct Hn as [Hv0 Hn]. split; [by rewrite Hv|]. intros v Hlt. rewrite Hv in Hlt. by apply Hab, Hn.
Qed.

Lemma step_inv init s s' : sys_inv init s → step s s' → sys_inv init s'.
Proof.
  intros Hsi Hst. destruct Hst.
  - by eapply new_step_inv.
  - pose proof Hsi as [Hinv Hrefs _ _ _ _]. cbn [sy_kv sy_phase sy_commits] in *.
    destruct (write_step_inv kv init c id f kv' r) as (Hinv' & Hrefs' & Hfr); [done..|].
    eapply frame_sys_inv; [exact Hsi|exact Hfr| |done|done]. intros i Hi. by apply elem_of_nil in Hi.
  - by eapply abort_step_inv.
  - by eapply commit_step_inv.
  - by eapply freeze_step_inv.
  - by eapply flush_write_step_inv.
  - by eapply flush_fail_step_inv.
  - by eapply flush_step_inv.
  - by eapply merge_plan_step_inv.
  - by eapply merge_write_step_inv.
  - destruct Hsi as [Hinv Hrefs Hp Hsm Hn _]. cbn [sy_kv sy_phase sy_commits] in *. destruct Hp as (Himm & _).
    constructor; cbn [sy_kv sy_phase sy_commits]; try done;
      [by apply unlink_inv|by apply (refs_ok_same kv)|by apply unlink_names].
  - by eapply merge_install_step_inv.
Qed.

Lemma reachable_inv init s0 s : sys_inv init s0 → reachable s0 s → sys_inv init s.
Proof. intros H0' Hr. induction Hr as [|s s' _ IH Hst]; [done|]. by eapply step_inv. Qed.

End system.
