(* ===== verification/KVOps.v ===== *)
(** * The single operations of the store: [Get], [SetEx], [Set] and [Del] of [KV] *)

From Stdlib Require Import ZArith Lia.
From Stdlib.Strings Require Import Byte.
From stdpp Require Import base list numbers.
From S2P Require Import Prelude GoLib SortedSeq SortedKV SortedArray Merge File Entry SortedFile.
From S2P Require Import SortedFileProofs KVIterators Log Metadata KV KVCompact KVProofs.
From S2P Require Import KVCompactProofs KVSystem.

Open Scope Z_scope.

Section ops.
Context `{BL : BloomLaws} `{MetaJson}.

(** The committed value of a key. *)
Definition current (init : list ent) (commits : list (list ent)) (k : bytes) : option bytes :=
  visible (assoc (state_at init commits (length commits)) k).

Lemma current_commit init commits u k :
  sorted init → current init (commits ++ [u]) k =
    match assoc u k with Some e => visible (Some e) | None => current init commits k end.
Proof.
  intros Hi. unfold current. rewrite length_app. cbn [length].
  replace (length commits + 1)%nat with (S (length commits)) by lia. rewrite state_at_snoc.
  by apply visible_overlay, state_at_sorted.
Qed.

(** What the log answers to the writes [u] of a transaction; without writes it is
    not asked. *)
Definition log_result (kv : KV) (u : list ent) : res unit :=
  if decide (u = []) then Ok tt else snd (updateLog (kv_log kv) (arr_of u)).

Section op.
Context (kv : KV) (init : list ent) (commits : list (list ent)).
Context (Hinv : inv kv init commits) (Hrefs : refs_ok kv) (Hopen : kv_closed kv = false).

(** A transaction started from this state is at work in [kv']: it was [tx] when
    it started and has staged the writes [u]. *)
Record at_work (kv' : KV) (id : nat) (tx : KVTX) (u : list ent) : Prop := {
  aw_inv : inv kv' init commits;
  aw_refs : refs_ok kv';
  aw_open : kv_closed kv' = false;
  aw_ongoing : id ∈ kv_ongoing kv';
  aw_tx : kv_txs kv' !! id = Some (set_updates tx (arr_of u));
  aw_sorted : sorted u;
  aw_reads : tx_reads init commits tx (length commits);
  aw_log : kv_log kv' = kv_log kv;
}.

Lemma set_no_updates tx : tx_updates tx = arr_empty → set_updates tx (arr_of []) = tx.
Proof. intros Hu. destruct tx. cbn in *. by subst. Qed.

Lemma NewTX_log kv1 id : NewTX kv = Ok (kv1, id) → kv_log kv1 = kv_log kv.
Proof.
  intros Hn. unfold NewTX in Hn. rewrite Hopen in Hn. apply bind_ok in Hn as (levels & _ & Hn). injection Hn as <-.
  cbn. clear. generalize (kv_main kv). intros l. revert kv. induction l as [|x l IH]; intros kv; [done|].
  cbn [foldl]. by rewrite IH.
Qed.

Lemma at_work_new : ∃ kv1 id tx, NewTX kv = Ok (kv1, id) ∧ at_work kv1 id tx [] ∧ tx_updates tx = arr_empty.
Proof.
  destruct (NewTX_inv _ _ _ Hinv Hopen) as (kv1 & tx & Hn & Hinv1 & Htxs & Hon & Hr & Hu & Hcl1 & _).
  exists kv1, (length (kv_txs kv)), tx. split; [done|]. split; [|done]. split; try done.
  - exact (NewTX_refs _ _ _ _ _ Hinv Hrefs Hopen Hn).
  - rewrite Hon. apply elem_of_app. right. by left.
  - rewrite Htxs, list_lookup_middle, set_no_updates by done. done.
  - constructor.
  - by eapply NewTX_log.
Qed.

Lemma at_work_write kv1 id tx u u' : at_work kv1 id tx u → sorted u' →
  at_work (set_txs kv1 (<[id := set_updates tx (arr_of u')]> (kv_txs kv1))) id tx u'.
Proof.
  intros [A1 A2 A3 A4 A5 A6 A7 A8] Hu'. split; try done.
  - apply (set_tx_inv kv1 init commits id (set_updates tx (arr_of u)) (length commits) u'); try done. by apply tx_reads_updates.
  - unfold refs_ok, held. apply (refs_for_tables kv1); [done|]. cbn [kv_main kv_txs kv_ongoing set_txs].
    rewrite (snaps_ext (kv_txs kv1)); [exact A2|]. intros id' _. destruct (decide (id = id')) as [<-|Hne].
    + rewrite list_lookup_insert_eq by (by eapply lookup_lt_Some). by rewrite A5.
    + by rewrite list_lookup_insert_ne.
  - cbn. apply list_lookup_insert_eq. by eapply lookup_lt_Some.
Qed.

Lemma at_work_commit kv1 id tx u : at_work kv1 id tx u → Z.of_nat (length commits) < 2 ^ 64 - 1 →
  ∃ kv2 r, applyTXSync kv1 id = (kv2, r) ∧ inv kv2 init (committed r u commits) ∧ refs_ok kv2 ∧ kv_closed kv2 = false ∧
    r = log_result kv u.
Proof.
  intros [A1 A2 A3 A4 A5 A6 A7 A8] Hlen.
  assert (tx_reads init commits (set_updates tx (arr_of u)) (length commits)) as Hr by (by apply tx_reads_updates).
  destruct (applyTXSync_inv kv1 init commits id _ (length commits) u A1 A2 A4 A5 Hr)
    as (kv2 & r & Ha & Hinv2 & Hrefs2 & _ & Hcl2 & C1 & _ & C3); [done|done|done|].
  exists kv2, r. split; [done|]. split; [done|]. split; [done|]. split; [congruence|]. unfold log_result.
  destruct (decide (u = [])) as [->|Hne]; [by apply C1|]. rewrite <- A8. apply C3; [done|].
  intros (i & c & e & e' & Hge & Hc & _). apply lookup_lt_Some in Hc. lia.
Qed.

Lemma at_work_abort kv1 id tx u : at_work kv1 id tx u →
  ∃ kv2, abortTX kv1 id = Ok kv2 ∧ inv kv2 init commits ∧ refs_ok kv2 ∧ kv_closed kv2 = false.
Proof.
  intros [A1 A2 A3 A4 A5 A6 A7 A8].
  destruct (untrack_inv kv1 init commits id) as (kv2 & Hun & Hinv2 & Hrefs2 & Hcl & _); [|done|done|].
  { eapply inv_but_weaken; [|exact A1]. done. }
  exists kv2. split_and!; try done. congruence.
Qed.

Lemma kv_Get_spec k :
  ∃ kv', kv_Get kv k = (kv', Ok (current init commits k)) ∧ inv kv' init commits ∧ refs_ok kv' ∧ kv_closed kv' = false.
Proof.
  destruct at_work_new as (kv1 & id & tx & Hn & Hw & Hu). unfold kv_Get. rewrite Hn. cbn [bindS].
  unfold with_tx. rewrite (aw_tx _ _ _ _ Hw), set_no_updates by done.
  destruct (at_work_abort _ _ _ _ (at_work_write _ _ _ _ [] Hw (SSorted_nil _))) as (kv2 & Hun & Hinv2 & Hrefs2 & Hcl2).
  rewrite set_no_updates in Hun by done. rewrite Hun. cbn [bindS]. exists kv2. split_and!; try done. f_equal.
  rewrite (tx_Get_spec tx init commits (length commits)); [|apply (i_init _ _ _ _ Hinv)|apply Hw].
  unfold current. by rewrite Hu.
Qed.

(** A write that stages [u] for a transaction with an empty write set. *)
Lemma write_op_spec f u b :
  sorted u → Z.of_nat (length commits) < 2 ^ 64 - 1 → (u = [] → b = false) →
  (∀ tx, tx_reads init commits tx (length commits) → tx_updates tx = arr_empty →
     f tx = (set_updates tx (arr_of u), Ok b)) →
  ∃ kv' r commits',
    (let! (kv, p) := (kv, NewTX kv) in
     let (kv, id) := (p : KV * nat) in
     let (kv, r) := with_tx kv id f in abortOrCommit kv id r) = (kv', r) ∧
    inv kv' init commits' ∧ refs_ok kv' ∧ kv_closed kv' = false ∧
    ((r = Ok b ∧ commits' = (if decide (u = []) then commits else commits ++ [u]) ∧ log_result kv u = Ok tt) ∨
     (commits' = commits ∧ u ≠ [] ∧ r = (_ ← snd (updateLog (kv_log kv) (arr_of u)); Ok b) ∧
        snd (updateLog (kv_log kv) (arr_of u)) ≠ Ok tt)).
Proof.
  intros Hsu Hlen Hub Hf. destruct at_work_new as (kv1 & id & tx & Hn & Hw & Hu). rewrite Hn. cbn [bindS].
  unfold with_tx. rewrite (aw_tx _ _ _ _ Hw), set_no_updates, (Hf tx) by (done || apply Hw).
  destruct (at_work_commit _ _ _ _ (at_work_write _ _ _ _ u Hw Hsu) Hlen) as (kv3 & r & Ha & Hinv3 & Hrefs3 & Hcl3 & Hr).
  unfold abortOrCommit. rewrite Ha. cbn [bindS].
  exists kv3, (_ ← r; Ok b), (committed r u commits). split; [by destruct r|].
  split; [done|]. split; [done|]. split; [done|].
  unfold log_result in *. destruct (decide (u = [])) as [->|Hne]; [left; by rewrite Hr|].
  rewrite Hr. destruct (snd (updateLog (kv_log kv) (arr_of u))) as [[]| | |] eqn:El; rs.
  1: left; split; [done|]; split; [by destruct u|done].
  all: right; split_and!; done.
Qed.

(** A write the log refuses. *)
Lemma SetEx_refused k v e :
  mode_updates ModeUpsert (current init commits k) v = true → Z.of_nat (length commits) < 2 ^ 64 - 1 →
  snd (updateLog (kv_log kv) (arr_of [Ent k v false])) = Err e →
  ∃ kv', kv_SetEx kv k v ModeUpsert = (kv', Err e) ∧ refs_ok kv'.
Proof.
  intros Hup Hlen El. destruct at_work_new as (kv1 & id & tx & Hn & Hw & Hu). unfold kv_SetEx. rewrite Hn. cbn [bindS].
  unfold with_tx. rewrite (aw_tx _ _ _ _ Hw), set_no_updates by done.
  rewrite (tx_SetEx_spec tx init commits (length commits) []); [|apply (i_init _ _ _ _ Hinv)|apply Hw|done|constructor|by left].
  change (visible (assoc (overlay [] (state_at init commits (length commits))) k)) with (current init commits k). rewrite Hup.
  destruct (at_work_commit _ _ _ _ (at_work_write _ _ _ _ [Ent k v false] Hw ltac:(repeat constructor)) Hlen)
    as (kv3 & r & Ha & _ & Hrefs3 & _ & Hr).
  unfold log_result in Hr. rewrite decide_False, El in Hr by done. subst r. unfold abortOrCommit. cbn [upsert]. rewrite Ha. cbn [bindS]. eauto.
Qed.

(** [SetEx] stages one entry, or nothing when the mode asks for nothing. *)
Lemma kv_SetEx_spec k v mode :
  mode_valid mode → Z.of_nat (length commits) < 2 ^ 64 - 1 →
  let updated := mode_updates mode (current init commits k) v in
  let u := if updated then [Ent k v false] else [] in
  ∃ kv' r commits', kv_SetEx kv k v mode = (kv', r) ∧ inv kv' init commits' ∧ refs_ok kv' ∧
    kv_closed kv' = false ∧
    ((r = Ok updated ∧ commits' = (if decide (u = []) then commits else commits ++ [u]) ∧ log_result kv u = Ok tt) ∨
     (commits' = commits ∧ u ≠ [] ∧ r = (_ ← snd (updateLog (kv_log kv) (arr_of u)); Ok updated) ∧
        snd (updateLog (kv_log kv) (arr_of u)) ≠ Ok tt)).
Proof.
  intros Hm Hlen updated u. apply (write_op_spec (fun tx => tx_SetEx tx k v mode) u updated); [|done| |].
  - unfold u. destruct updated; repeat constructor.
  - unfold u. by destruct updated.
  - intros tx Hr Hu. rewrite (tx_SetEx_spec tx init commits (length commits) []);
      [|apply (i_init _ _ _ _ Hinv)|done|done|constructor|done].
    change (overlay [] (state_at init commits (length commits))) with (state_at init commits (length commits)).
    fold (current init commits k). fold updated. unfold u. destruct updated; [done|].
    f_equal. change (arr_of []) with arr_empty. rewrite <- Hu. by destruct tx.
Qed.

Lemma kv_Del_spec k :
  Z.of_nat (length commits) < 2 ^ 64 - 1 →
  let found := bool_decide (current init commits k ≠ None) in
  let u := if found then [Ent k [] true] else [] in
  ∃ kv' r commits', kv_Del kv k = (kv', r) ∧ inv kv' init commits' ∧ refs_ok kv' ∧ kv_closed kv' = false ∧
    ((r = Ok found ∧ commits' = (if decide (u = []) then commits else commits ++ [u]) ∧ log_result kv u = Ok tt) ∨
     (commits' = commits ∧ u ≠ [] ∧ r = (_ ← snd (updateLog (kv_log kv) (arr_of u)); Ok found) ∧
        snd (updateLog (kv_log kv) (arr_of u)) ≠ Ok tt)).
Proof.
  intros Hlen found u. apply (write_op_spec (fun tx => tx_Del tx k) u found); [|done| |].
  - unfold u. destruct found; repeat constructor.
  - unfold u. by destruct found.
  - intros tx Hr Hu. rewrite (tx_Del_spec tx init commits (length commits) []);
      [|apply (i_init _ _ _ _ Hinv)|done|done|constructor].
    change (overlay [] (state_at init commits (length commits))) with (state_at init commits (length commits)).
    fold (current init commits k). unfold u, found. case_bool_decide as Hc; [|by rewrite bool_decide_true].
    rewrite bool_decide_false by (by rewrite Hc; intros []). f_equal.
    change (arr_of []) with arr_empty. rewrite <- Hu. by destruct tx.
Qed.

End op.
End ops.
