(* ===== verification/KVSpec.v ===== *)
(** * Snapshot isolation as an abstract machine, and the store as an implementation of it

    The abstract state is the list of committed write sets and, per open
    transaction, the commit it reads from and its own write set.  [simulation]
    shows that every step of [KVSystem] is a step of this machine or invisible
    to it: freezing, flushing and merging are invisible. *)

From Stdlib Require Import ZArith Lia.
From Stdlib.Strings Require Import Byte.
From stdpp Require Import base list numbers.
From S2P Require Import Prelude GoLib SortedSeq SortedKV SortedArray Merge File Entry SortedFile.
From S2P Require Import SortedFileProofs KVIterators Log Metadata KV KVCompact KVProofs.
From S2P Require Import KVCompactProofs KVSystem.

Open Scope Z_scope.

(** ** The abstract machine *)

Record si_tx := MkSITX { si_snapshot : nat; si_writes : list ent }.
Record si_state := MkSI { si_commits : list (list ent); si_open : list (nat * si_tx) }.

(** What a transaction reads. *)
Definition si_read (init : list ent) (s : si_state) (tx : si_tx) (k : bytes) : option bytes :=
  visible (assoc (overlay (si_writes tx) (state_at init (si_commits s) (si_snapshot tx))) k).

(** Writes are decided by what the transaction reads. *)
Inductive si_write (init : list ent) (s : si_state) (tx : si_tx) : list ent → Prop :=
  | si_set k v mode : mode_valid mode → mode_updates mode (si_read init s tx k) v = true →
      si_write init s tx (upsert (Ent k v false) (si_writes tx))
  | si_del k : si_read init s tx k ≠ None → si_write init s tx (upsert (Ent k [] true) (si_writes tx)).

Definition si_close (id : nat) (open : list (nat * si_tx)) : list (nat * si_tx) :=
  filter (fun p => p.1 ≠ id) open.

Definition si_set_tx (id : nat) (tx : si_tx) (open : list (nat * si_tx)) : list (nat * si_tx) :=
  (fun p => if decide (p.1 = id) then (id, tx) else p) <$> open.

Inductive si_step (init : list ent) : si_state → si_state → Prop :=
  | si_begin s id : id ∉ (si_open s).*1 →
      si_step init s (MkSI (si_commits s) (si_open s ++ [(id, MkSITX (length (si_commits s)) [])]))
  | si_update s id tx u : (id, tx) ∈ si_open s → si_write init s tx u →
      si_step init s (MkSI (si_commits s) (si_set_tx id (MkSITX (si_snapshot tx) u) (si_open s)))
  | si_end s id : si_step init s (MkSI (si_commits s) (si_close id (si_open s)))
  | si_commit s id tx : (id, tx) ∈ si_open s → ¬ later_conflict (si_commits s) (si_snapshot tx) (si_writes tx) →
      si_step init s (MkSI (si_commits s ++ [si_writes tx]) (si_close id (si_open s))).

(** ** The abstraction *)

Section refinement.
Context `{BL : BloomLaws} `{MetaJson}.

Definition abs_tx (txs : list KVTX) (id : nat) : nat * si_tx :=
  (id, match txs !! id with
       | Some tx => MkSITX (Z.to_nat (tx_snapshot tx)) (arr_ents (tx_updates tx))
       | None => MkSITX 0 []
       end).

Definition abs (s : sys) : si_state :=
  MkSI (sy_commits s) (abs_tx (kv_txs (sy_kv s)) <$> kv_ongoing (sy_kv s)).

Lemma abs_ids txs (ids : list nat) : (abs_tx txs <$> ids).*1 = ids.
Proof. induction ids as [|id ids IH]; [done|]. cbn. by f_equal. Qed.

Lemma abs_ext txs txs' (ids : list nat) :
  (∀ id, id ∈ ids → txs' !! id = txs !! id) → abs_tx txs' <$> ids = abs_tx txs <$> ids.
Proof.
  intros Hext. apply list_fmap_ext. intros i id Hid. unfold abs_tx.
  by rewrite Hext by (by eapply list_elem_of_lookup_2).
Qed.

Lemma abs_open kv p c init id tx :
  inv kv init c → id ∈ kv_ongoing kv → kv_txs kv !! id = Some tx →
  ∃ n, tx_snapshot tx = Z.of_nat n ∧ tx_reads init c tx n ∧
    (id, MkSITX n (arr_ents (tx_updates tx))) ∈ si_open (abs (MkSys kv p c)).
Proof.
  intros Hinv Hid Htx. destruct (i_txs _ _ _ _ Hinv id Hid) as (tx' & n & Htx' & Hr).
  rewrite Htx in Htx'. injection Htx' as <-. exists n. pose proof Hr as (_ & Hs & _). split_and!; try done.
  apply list_elem_of_fmap. exists id. split; [|done]. cbn. unfold abs_tx. by rewrite Htx, Hs, Nat2Z.id.
Qed.

(** Finishing a transaction drops it from the open ones. *)
Lemma untrack_open kv kv' id :
  untrackTXSync kv id = Ok kv' → id ∈ kv_ongoing kv → NoDup (kv_ongoing kv) →
  abs_tx (kv_txs kv') <$> kv_ongoing kv' = si_close id (abs_tx (kv_txs kv) <$> kv_ongoing kv).
Proof.
  unfold untrackTXSync. intros Hu Hid Hnd. destruct (index_of_elem _ _ Hid) as [i Hi]. rewrite Hi in Hu.
  apply bind_ok in Hu as (h & _ & Hu). apply bind_ok in Hu as (tx & Htx & Hu).
  pose proof (releases_core _ _ _ Hu) as Hsc. rewrite (sc_txs _ _ Hsc), (sc_ongoing _ _ Hsc).
  cbn [kv_txs kv_ongoing set_txs set_history set_ongoing].
  apply index_of_split in Hi as Hsplit. set (l1 := take i (kv_ongoing kv)) in *.
  set (l2 := drop (S i) (kv_ongoing kv)) in *. rewrite Hsplit in Hnd.
  apply NoDup_app in Hnd as (_ & Hd1 & Hnd). apply NoDup_cons in Hnd as [Hd2 _].
  assert (∀ l, id ∉ l → si_close id (abs_tx (kv_txs kv) <$> l) = abs_tx (kv_txs kv) <$> l) as Hkeep.
  { intros l. induction l as [|x l IH]; intros Hn; [done|]. rewrite fmap_cons. unfold si_close in *.
    rewrite filter_cons_True; [|cbn; intros ->; apply Hn; by left]. f_equal. apply IH.
    intros Hin. apply Hn. by right. }
  rewrite (abs_ext (kv_txs kv)).
  - rewrite fmap_app, Hsplit, fmap_app, fmap_cons. unfold si_close. rewrite filter_app.
    rewrite filter_cons_False by (cbn; tauto). fold (si_close id (abs_tx (kv_txs kv) <$> l1)).
    fold (si_close id (abs_tx (kv_txs kv) <$> l2)). rewrite !Hkeep; [done|done|].
    intros Hin. apply (Hd1 id Hin). by left.
  - intros id' [Hin|Hin]%elem_of_app; apply list_lookup_insert_ne; intros <-; [|done].
    apply (Hd1 id Hin). by left.
Qed.

Lemma begin_sim init kv p c kv' id :
  inv kv init c → kv_closed kv = false → NewTX kv = Ok (kv', id) →
  si_step init (abs (MkSys kv p c)) (abs (MkSys kv' p c)).
Proof.
  intros Hinv Hcl Hn. destruct (NewTX_inv _ _ _ Hinv Hcl) as (kv1 & tx & Hn1 & _ & Htxs & Hon & Hr & Hu & _).
  rewrite Hn in Hn1. injection Hn1 as <- ->. unfold abs. cbn [sy_kv sy_commits].
  rewrite Htxs, Hon, fmap_app. cbn [fmap list_fmap].
  assert (∀ i, i ∈ kv_ongoing kv → (i < length (kv_txs kv))%nat) as Hlt.
  { intros i Hi. destruct (i_txs _ _ _ _ Hinv i Hi) as (t & n & Ht & _). by eapply lookup_lt_Some. }
  rewrite (abs_ext (kv_txs kv) (kv_txs kv ++ [tx]) (kv_ongoing kv)) by (intros i Hi; apply lookup_app_l; auto).
  assert (abs_tx (kv_txs kv ++ [tx]) (length (kv_txs kv)) = (length (kv_txs kv), MkSITX (length c) [])) as ->.
  { unfold abs_tx. rewrite list_lookup_middle by done. destruct Hr as (_ & -> & _). by rewrite Nat2Z.id, Hu. }
  refine (si_begin init (MkSI c (abs_tx (kv_txs kv) <$> kv_ongoing kv)) (length (kv_txs kv)) _).
  cbn [si_open]. rewrite abs_ids.
  intros Hin%Hlt. lia.
Qed.

Lemma write_sim init kv p c id f kv' r :
  inv kv init c → id ∈ kv_ongoing kv → tx_write f → with_tx kv id f = (kv', r) →
  si_step init (abs (MkSys kv p c)) (abs (MkSys kv' p c)) ∨ abs (MkSys kv' p c) = abs (MkSys kv p c).
Proof.
  intros Hinv Hid Hf Hw. destruct (i_txs _ _ _ _ Hinv id Hid) as (tx & n & Htx & Hr).
  pose proof (i_init _ _ _ _ Hinv) as Hi. pose proof Hr as (_ & Hs & _ & _ & u & Hu & Hsu).
  destruct (abs_open kv p c init id tx Hinv Hid Htx) as (n' & Hs' & _ & Hin).
  assert (n' = n) as -> by lia. rewrite Hu, arr_ents_of in Hin.
  assert (f tx = (tx, snd (f tx)) ∨ ∃ u', f tx = (set_updates tx (arr_of u'), snd (f tx)) ∧
    si_write init (abs (MkSys kv p c)) (MkSITX n u) u') as Heff.
  { destruct Hf as [k v mode|k].
    - destruct (decide (mode_valid mode)) as [Hm|Hm]; [|left; by rewrite (tx_SetEx_bad_mode tx init c n)].
      rewrite (tx_SetEx_spec tx init c n u) by done. case_if; [right|by left].
      eexists. split; [done|]. by apply (si_set init (abs (MkSys kv p c)) (MkSITX n u) k v mode).
    - rewrite (tx_Del_spec tx init c n u) by done. case_bool_decide as Hc; [by left|right].
      eexists. split; [done|]. by apply (si_del init (abs (MkSys kv p c)) (MkSITX n u) k). }
  unfold with_tx in Hw. rewrite Htx in Hw.
  destruct Heff as [Heq|(u' & Heq & Hwr)]; rewrite Heq in Hw; injection Hw as <- _.
  - right. unfold abs. cbn. by rewrite list_insert_id.
  - left. assert (abs (MkSys (set_txs kv (<[id := set_updates tx (arr_of u')]> (kv_txs kv))) p c) =
      MkSI c (si_set_tx id (MkSITX n u') (si_open (abs (MkSys kv p c))))) as ->.
    { unfold abs. cbn. f_equal. unfold si_set_tx. rewrite <- list_fmap_compose. apply list_fmap_ext.
      intros i id' _. cbn. destruct (decide (id' = id)) as [->|Hne]; unfold abs_tx.
      - rewrite list_lookup_insert_eq by (by eapply lookup_lt_Some).
        change (tx_updates (set_updates tx (arr_of u'))) with (arr_of u').
        change (tx_snapshot (set_updates tx (arr_of u'))) with (tx_snapshot tx).
        by rewrite arr_ents_of, Hs, Nat2Z.id.
      - by rewrite list_lookup_insert_ne. }
    by apply (si_update init (abs (MkSys kv p c)) id (MkSITX n u) u').
Qed.

Lemma abort_sim init kv p c id kv' :
  inv kv init c → id ∈ kv_ongoing kv → abortTX kv id = Ok kv' →
  si_step init (abs (MkSys kv p c)) (abs (MkSys kv' p c)).
Proof.
  intros Hinv Hid Ha. unfold abs. cbn [sy_kv sy_commits].
  rewrite (untrack_open _ _ _ Ha Hid (i_nodup _ _ _ _ Hinv)). apply (si_end init (MkSI c _) id).
Qed.

Lemma commit_sim init kv p c id tx kv' r :
  inv kv init c → refs_ok kv → id ∈ kv_ongoing kv → kv_txs kv !! id = Some tx →
  Z.of_nat (length c) < 2 ^ 64 - 1 → applyTXSync kv id = (kv', r) →
  si_step init (abs (MkSys kv p c)) (abs (MkSys kv' p (committed r (arr_ents (tx_updates tx)) c))).
Proof.
  intros Hinv Hrefs Hid Htx Hlen Ha.
  destruct (abs_open kv p c init id tx Hinv Hid Htx) as (n & Hs & Hr & Hin).
  pose proof Hr as (Herr & _ & _ & _ & u & Hu & Hsu). rewrite Hu, arr_ents_of in *.
  destruct (apply_updates_spec kv init c id tx n u Hinv Hid Htx Hs Hu Hsu Hlen)
    as (kv1 & r1 & Hap & Hinv1 & Et & Em & Ex & Eo & _ & _ & _ & _ & C2 & _).
  unfold applyTXSync in Ha. rewrite (proj2 (go_index_ok _ _ _) Htx) in Ha. cbn [bindS] in Ha.
  rewrite Herr, Hap in Ha.
  destruct (untrack_inv kv1 init (committed r1 u c) id Hinv1) as (kv2 & Hun & _);
    [by apply (refs_ok_same kv)|by rewrite Eo|].
  rewrite Hun in Ha. cbn [bindS] in Ha. injection Ha as <- <-.
  apply untrack_open in Hun; [|by rewrite Eo|rewrite Eo; apply (i_nodup _ _ _ _ Hinv)].
  unfold abs. cbn [sy_kv sy_commits]. rewrite Hun, Ex, Eo.
  destruct u as [|e u0] eqn:Eu; [destruct r1; apply (si_end init (MkSI c _) id)|]. rewrite <- Eu in *.
  destruct (decide (r1 = Ok tt)) as [->|Hne].
  - assert (committed (Ok tt) u c = c ++ [u]) as -> by (by rewrite Eu).
    apply (si_commit init (abs (MkSys kv p c)) id (MkSITX n u)); [done|].
    cbn [si_snapshot si_writes abs si_commits sy_commits].
    intros Hc. destruct (C2 ltac:(by rewrite Eu) Hc) as [? _]. done.
  - assert (committed r1 u c = c) as -> by (destruct r1 as [[]| | |]; done).
    apply (si_end init (MkSI c _) id).
Qed.

(** *** Compaction is invisible *)

Lemma create_table_txs `{!KVIter It} `{!SortedKV T It} kv name d (src : T) kv' r :
  create_table (It := It) kv name d src = (kv', r) → kv_txs kv' = kv_txs kv ∧ kv_ongoing kv' = kv_ongoing kv.
Proof. unfold create_table. destruct (if d then _ else _); cbn [bindS]; by intros [= <- _]. Qed.

Lemma unfreeze_txs kv kv' : unfreeze kv = Ok kv' → kv_txs kv' = kv_txs kv ∧ kv_ongoing kv' = kv_ongoing kv.
Proof.
  unfold unfreeze. destruct (kv_imm kv); [|by intros [= <-]].
  destruct (merge_arrays _ _); [|done..]. by intros [= <-].
Qed.

Lemma merge_install_txs kv level o1 o2 id kv' r :
  merge_install kv level o1 o2 id = (kv', r) → kv_txs kv' = kv_txs kv ∧ kv_ongoing kv' = kv_ongoing kv.
Proof.
  unfold merge_install. destruct (check _); cbn [bindS]; [|by intros [= <- _]..].
  destruct (release _ o1) as [kv1| | |] eqn:E1; cbn [bindS]; [|by intros [= <- _]..].
  apply release_core in E1 as S1.
  destruct (release kv1 o2) as [kv2| | |] eqn:E2; cbn [bindS];
    [|by intros [= <- _]; rewrite (sc_txs _ _ S1), (sc_ongoing _ _ S1)..].
  apply release_core in E2 as S2. intros [= <- _].
  by rewrite (sc_txs _ _ S2), (sc_ongoing _ _ S2), (sc_txs _ _ S1), (sc_ongoing _ _ S1).
Qed.

Lemma abs_same kv p c kv' p' :
  kv_txs kv' = kv_txs kv ∧ kv_ongoing kv' = kv_ongoing kv → abs (MkSys kv' p' c) = abs (MkSys kv p c).
Proof. intros [E1 E2]. unfold abs. cbn. by rewrite E1, E2. Qed.

Lemma step_sim init s s' :
  sys_inv init s → step s s' → si_step init (abs s) (abs s') ∨ abs s' = abs s.
Proof.
  intros [Hinv Hrefs _ _ _ _] Hst. destruct Hst; cbn [sy_kv sy_commits sy_phase] in *.
  - left. by eapply begin_sim.
  - by eapply write_sim.
  - left. by eapply abort_sim.
  - left. by eapply commit_sim.
  - right. apply abs_same. unfold flush_freeze in *. destruct (kv_imm kv); [done|].
    destruct (_ =? _)%nat; [done|].
    match goal with Hf : (_, _) = (kv', _) |- _ => by injection Hf as <- _ end.
  - right. apply abs_same. unfold flush_write in *. destruct (create_table _ _ _ _) as [kv1 [?| | |]] eqn:Ec.
    1: match goal with Hf : (_, _) = (kv', _) |- _ => injection Hf as <- _; by apply create_table_txs in Ec end.
    all: by destruct (unfreeze kv1).
  - right. apply abs_same. by apply (unfreeze_txs kv kv').
  - by right.
  - right. apply abs_same. unfold merge_plan in *. destruct (_ <=? _)%nat; [done|].
    destruct (go_index _ level); cbn [bindS] in *; [|done..].
    destruct (go_index _ (level + 1)); cbn [bindS] in *; [|done..].
    match goal with Hf : (_, _) = (kv', _) |- _ => by injection Hf as <- _ end.
  - right. apply abs_same. unfold merge_write in *.
    destruct (go_index _ o1); cbn [bindS] in *; [|done..]. destruct (go_index _ o2); cbn [bindS] in *; [|done..].
    destruct (create_table _ _ _ _) as [kv1 [?| | |]] eqn:Ec; [|done..].
    match goal with Hf : (_, _) = (kv', _) |- _ => injection Hf as <- _; by apply create_table_txs in Ec end.
  - by right.
  - right. apply abs_same.
    match goal with Hf : merge_install _ _ _ _ _ = _ |- _ => by apply merge_install_txs in Hf end.
Qed.

End refinement.
