(* ===== verification/LogHistory.v ===== *)
(** * The life of a log

    [updateLog] (db/kv.go) on the log of db/log.go: the records of a
    transaction are written one by one, then a commit record is written and the
    file is synced.  [log_history] relates a log with the updates committed to
    it through commits, crashes and truncations; [update_point] lists the
    states of the file in the middle of a transaction. *)

From Stdlib Require Import ZArith Lia.
From Stdlib.Strings Require Import Byte.
From stdpp Require Import base list numbers.
From S2P Require Import Prelude GoLib SortedSeq SortedKV SortedArray Merge File Entry SortedFile.
From S2P Require Import SortedFileProofs KVIterators Log LogProofs Metadata KV KVCompact KVProofs.
From S2P Require Import KVCompactProofs KVSystem.

Open Scope Z_scope.

(** A record of the log as an update, and back. *)
Definition ent_of (e : Entry) : ent := Ent (en_key e) (en_val e) (bool_decide (en_op e = EntryDel)).

Definition record_of (e : ent) : Entry :=
  MkEntry (e_key e) (e_val e) 0 (if e_del e then EntryDel else EntryAdd).

Lemma ent_of_stamp log e : ent_of (stamp log (record_of e)) = e.
Proof. by destruct e as [k v []]. Qed.

(** The log after the records of [us] are written. *)
Definition write_all (log : Log) (us : list ent) : Log :=
  foldl (fun log e => fst (log_Write log (record_of e))) log us.

Lemma record_write log ec eu e :
  log_ok log ec eu → small e → l_seq log < 2 ^ 64 - 1 →
  ∃ log', log_Write log (record_of e) = (log', Ok tt) ∧ log_ok log' ec (eu ++ [stamp log (record_of e)]) ∧
    l_seq log' = l_seq log + 1 ∧ l_epoch log' = l_epoch log.
Proof.
  intros Hok Hsm Hq. apply log_Write_ok; [done| |done|].
  - unfold small in Hsm. cbn. lia.
  - unfold record_of. cbn. destruct (e_del e); auto.
Qed.

Lemma write_all_ok us : ∀ log ec eu,
  log_ok log ec eu → Forall small us → l_seq log + Z.of_nat (length us) < 2 ^ 64 →
  ∃ es, log_ok (write_all log us) ec (eu ++ es) ∧ ent_of <$> es = us ∧
    l_seq (write_all log us) = l_seq log + Z.of_nat (length us) ∧ l_epoch (write_all log us) = l_epoch log.
Proof.
  induction us as [|e us IH]; intros log ec eu Hok Hsm Hq.
  - exists []. rewrite app_nil_r. cbn. split_and!; [done..|lia|done].
  - inversion Hsm as [|? ? He Hsm']; subst. cbn [length] in Hq.
    destruct (record_write log ec eu e Hok He ltac:(lia)) as (log1 & Hw & Hok1 & Hs1 & He1).
    unfold write_all. cbn [foldl]. rewrite Hw. cbn [fst].
    destruct (IH log1 ec _ Hok1 Hsm' ltac:(lia)) as (es & Hok2 & Hm & Hs2 & He2).
    exists (stamp log (record_of e) :: es). rewrite fmap_cons, ent_of_stamp, Hm.
    rewrite <- (assoc_L (++)) in Hok2. fold (write_all log1 us). split_and!; [done..| |congruence].
    rewrite Hs2, Hs1. cbn [length]. lia.
Qed.

(** The loop of [updateLog] writes them all. *)
Lemma write_entries_all fuel s : ∀ (p : nat) log ec eu,
  sorted s → (p ≤ length s)%nat → (length s - p ≤ fuel)%nat → log_ok log ec eu → Forall small (drop p s) →
  l_seq log + Z.of_nat (length (drop p s)) < 2 ^ 64 →
  write_entries fuel (arr_iter_at (arr_of s) (Z.of_nat p)) log = (write_all log (drop p s), Ok tt).
Proof.
  induction fuel as [|fuel IH]; intros p log ec eu Hs Hp Hf Hok Hsm Hq.
  all: assert (At (arr_iter_at (arr_of s) (Z.of_nat p)) s (Z.of_nat p)) as Hat
    by (split; [done|]; split; [done|lia]).
  all: cbn [write_entries]; destruct (Valid (arr_iter_at (arr_of s) (Z.of_nat p))) eqn:Hv.
  - destruct (At_valid_entry _ _ _ Hat Hv) as (e & He & _). apply lookup_lt_Some in He. lia.
  - rewrite drop_ge by lia. done.
  - destruct (At_valid_entry _ _ _ Hat Hv) as (e & He & _ & Hk & Hx & Hd). rewrite Nat2Z.id in He.
    rewrite Hk, Hx, Hd. rs. cbn [bindS]. rewrite (drop_S _ _ _ He) in Hsm, Hq |- *.
    inversion Hsm as [|? ? Hse Hsm']; subst. cbn [length] in Hq.
    destruct (record_write log ec eu e Hok Hse ltac:(lia)) as (log1 & Hw & Hok1 & Hs1 & He1).
    unfold write_all. cbn [foldl]. unfold record_of in *. rewrite Hw. cbn [bindS fst].
    destruct (At_next _ _ _ Hat) as (it' & Hn & (-> & _ & _)). rewrite Hn. cbn [bindS].
    apply lookup_lt_Some in He as Hlt.
    replace (Z.min (Z.of_nat p + 1) (Z.of_nat (length s))) with (Z.of_nat (S p)) by lia.
    eapply IH; [done|lia|lia|exact Hok1|done|lia].
  - destruct (At_invalid _ _ _ Hat Hv) as [?|Hend]; [lia|]. rewrite drop_ge by lia. done.
Qed.

Lemma log_ok_reset log ec : log_ok log ec [] → log_ok (ResetTX log) ec [].
Proof.
  intros [Hfp Hcom Hoff Hep Hcl Hop Hent Hinc Hseq]. constructor; try done.
  cbn. rewrite Hcom. lia.
Qed.

(** [updateLog] of a transaction that fits: its records and a commit record
    become durable. *)
Lemma updateLog_ok log ec u :
  log_ok log ec [] → sorted u → Forall small u → l_seq log + Z.of_nat (length u) < 2 ^ 64 - 1 →
  ∃ log' es com, updateLog log (arr_of u) = (log', Ok tt) ∧ ent_of <$> es = u ∧
    log_ok (write_all log u) ec es ∧ is_commit com = true ∧ log_ok log' (ec ++ es ++ [com]) [] ∧
    l_seq log' = l_seq log + Z.of_nat (length u) + 1.
Proof.
  intros Hok Hs Hsm Hq. destruct (write_all_ok u log ec [] Hok Hsm ltac:(lia)) as (es & Hok1 & Hm & Hs1 & He1).
  cbn [app] in Hok1. destruct (log_Commit_ok (write_all log u) ec es Hok1 ltac:(lia)) as (log2 & Hc & Hok2 & Hs2 & _).
  eexists _, es, (stamp (write_all log u) commit_entry). split; [|split_and!; [done..| |]].
  - unfold updateLog, defer_ResetTX. change (arr_Iter (arr_of u)) with (Ok (arr_iter_at (arr_of u) 0)).
    cbn [bindS]. rewrite (write_entries_all _ u 0 log ec []); [|done|lia| |done|done|rewrite drop_0; lia].
    + rewrite drop_0. cbn [bindS]. rewrite Hc. done.
    + cbn. rewrite length_fmap. lia.
  - by apply log_ok_reset.
  - cbn. lia.
Qed.

(** A log and the updates committed to it since it was last empty: it is opened
    on an empty file, receives transactions, survives crashes and is truncated.
    Sequence numbers stay below 2^64. *)
Inductive log_history : Log → list ent → Prop :=
  | lh_new log es : replay [] = (log, Ok es) → log_history log []
  | lh_commit log log' done u :
      log_history log done → sorted u → l_seq log + Z.of_nat (length u) < 2 ^ 64 - 1 →
      updateLog log (arr_of u) = (log', Ok tt) → log_history log' (done ++ u)
  | lh_crash log log' done fp c es :
      log_history log done → l_fp log = Some fp → crash fp c → replay c = (log', Ok es) →
      log_history log' done
  | lh_truncate log log' done :
      log_history log done → log_Truncate log = (log', Ok tt) → log_history log' [].

(** What is durable is what was committed. *)
Definition committed (log : Log) (done : list ent) : Prop :=
  ∃ ec, log_ok log ec [] ∧ ent_of <$> updates_of ec = done.

Lemma updates_of_all es : Forall (fun e => is_commit e = false) es → updates_of es = es.
Proof.
  induction 1 as [|e es He _ IH]; [done|]. unfold updates_of in *. rewrite filter_cons_True by done. by rewrite IH.
Qed.

Lemma committed_commit log ec es com log' :
  log_ok log ec es → is_commit com = true → log_ok log' (ec ++ es ++ [com]) [] →
  committed log' ((ent_of <$> updates_of ec) ++ (ent_of <$> es)).
Proof.
  intros Hok Hc Hok'. exists (ec ++ es ++ [com]). split; [done|].
  rewrite !updates_of_app, (updates_of_commit com Hc), (updates_of_all es) by apply (lo_open _ _ _ Hok).
  by rewrite app_nil_r, fmap_app.
Qed.

Definition new_log : Log := MkLog (Some (f_open (header_bytes 0))) 20 0 0 20 20.

Lemma replay_empty : replay [] = (new_log, Ok []).
Proof. vm_compute. reflexivity. Qed.

Lemma new_log_ok : log_ok new_log [] [].
Proof. by constructor. Qed.

Lemma history_committed log done : log_history log done → committed log done.
Proof.
  induction 1 as [log es Hr|log log' done u Hh (ec & Hok & Hd) Hs Hq Hu
    |log log' done fp c es Hh (ec & Hok & Hd) Hfp Hc Hr|log log' done Hh (ec & Hok & Hd) Ht].
  - exists []. split; [|done].
    rewrite replay_empty in Hr. injection Hr as <- _. apply new_log_ok.
  - assert (Forall small u) as Hsm by (apply (updateLog_small log u Hs); by rewrite Hu).
    destruct (updateLog_ok log ec u Hok Hs Hsm Hq) as (log2 & es & com & Hu2 & Hm & Hok1 & Hcom & Hok2 & _).
    rewrite Hu in Hu2. injection Hu2 as <-. rewrite <- Hd, <- Hm. by eapply committed_commit.
  - destruct (crash_uncommitted log ec [] fp c Hok Hfp Hc) as (log2 & Hr2 & Hok2 & _).
    rewrite Hr in Hr2. injection Hr2 as <- _. by exists ec.
  - destruct (log_Truncate_ok log ec Hok) as (log2 & Ht2 & Hok2 & _). rewrite Ht in Ht2. injection Ht2 as <-.
    by exists [].
Qed.

(** ** The middle of a transaction *)

(** The file at each point of [updateLog]: after some of the records, with the
    commit record written and not synced, at the end. *)
Inductive update_point (log : Log) (u : list ent) (fp : file) : Prop :=
  | up_writing i : l_fp (write_all log (take i u)) = Some fp → update_point log u fp
  | up_committing : l_fp (fst (log_Write (write_all log u) commit_entry)) = Some fp → update_point log u fp
  | up_done : l_fp (fst (updateLog log (arr_of u))) = Some fp → update_point log u fp.

Lemma update_crash_ok log ec u fp c :
  log_ok log ec [] → sorted u → Forall small u → l_seq log + Z.of_nat (length u) < 2 ^ 64 - 1 →
  update_point log u fp → crash fp c →
  ∃ log' ec', replay c = (log', Ok (updates_of ec')) ∧ log_ok log' ec' [] ∧
    (ec' = ec ∨ ent_of <$> updates_of ec' = (ent_of <$> updates_of ec) ++ u).
Proof.
  intros Hok Hs Hsm Hq Hp Hc.
  destruct (updateLog_ok log ec u Hok Hs Hsm Hq) as (log2 & es & com & Hu & Hm & Hok1 & Hcom & Hok2 & _).
  destruct (write_all_ok u log ec [] Hok Hsm ltac:(lia)) as (_ & _ & _ & Hseq & Hepo).
  assert (∀ e, is_commit e = true → ent_of <$> updates_of (ec ++ es ++ [e]) = (ent_of <$> updates_of ec) ++ u) as Hall.
  { intros e He. by rewrite !updates_of_app, (updates_of_commit e He), (updates_of_all es), app_nil_r, fmap_app, Hm by apply (lo_open _ _ _ Hok1). }
  destruct Hp as [i Hfp|Hfp|Hfp].
  - destruct (write_all_ok (take i u) log ec []) as (es' & Hok' & _);
      [done|by apply Forall_take|rewrite length_take; lia|].
    destruct (crash_uncommitted _ _ _ _ _ Hok' Hfp Hc) as (log' & Hr & Hl & _). eauto 10.
  - destruct (log_Write_step _ _ _ Hok1 commit_entry) as (Hw & He & Hi & Hl);
      [vm_compute; done|lia|by right; right|].
    rewrite Hw in Hfp. cbn [fst l_fp] in Hfp. injection Hfp as <-.
    destruct (crash_commit _ ec es (stamp (write_all log u) commit_entry) c Hok1) as (log' & ec' & Hec & Hr & Hlo & _);
      [done| | |exact Hc|].
    + by apply (stamp_ok _ _ _ Hok1); [vm_compute; done|lia|right; right].
    + pose proof (lo_seq _ _ _ Hok1). cbn. lia.
    + exists log', ec'. split; [done|]. split; [done|]. destruct Hec as [ -> | -> ]; [by left|right; by apply Hall].
  - rewrite Hu in Hfp. destruct (crash_uncommitted _ _ _ _ _ Hok2 Hfp Hc) as (log' & Hr & Hlo & _).
    exists log', (ec ++ es ++ [com]). split; [done|]. split; [done|]. right. by apply Hall.
Qed.

Lemma update_crash log done u fp c :
  committed log done → sorted u → Forall small u → l_seq log + Z.of_nat (length u) < 2 ^ 64 - 1 →
  update_point log u fp → crash fp c →
  ∃ log' es, replay c = (log', Ok es) ∧ (ent_of <$> es = done ∨ ent_of <$> es = done ++ u).
Proof.
  intros (ec & Hok & <-) Hs Hsm Hq Hp Hc. destruct (update_crash_ok log ec u fp c Hok Hs Hsm Hq Hp Hc) as (log' & ec' & Hr & _ & Hec).
  exists log', (updates_of ec'). split; [done|]. destruct Hec as [ -> | -> ]; auto.
Qed.
