(* ===== verification/Samples.v ===== *)
(** * Concrete parameters for the witnesses

    A Bloom filter that never rules a key out and a binary codec for the
    metadata: instances of the interfaces [Bloom] and [MetaJson] on which the
    theorems about the storage engine are evaluated. *)

From Stdlib Require Import ZArith Lia.
From Stdlib.Strings Require Import Byte.
From stdpp Require Import base list numbers.
From S2P Require Import Prelude GoLib SortedFile Cell Metadata.

Open Scope Z_scope.

#[export] Instance sample_bloom : Bloom := {
  bloom_t := unit;
  NewWithEstimates _ := tt;
  bloom_Add _ _ := tt;
  bloom_Test _ _ := true;
  bloom_MarshalBinary _ := Ok [x00];
  bloom_UnmarshalBinary _ := Ok tt;
}.

#[export] Instance sample_bloom_laws : BloomLaws.
Proof.
  split; [done|done|]. intros []. exists [x00]. split_and!; [done|done|cbn; lia|done].
Qed.

(** The version and the names, each one preceded by a marker. *)
Fixpoint sample_names (names : list bytes) : bytes :=
  match names with
  | [] => [x00]
  | name :: names => x01 :: encodeStrKey [] name ++ sample_names names
  end.

Fixpoint sample_parse (fuel : nat) (data : bytes) : res (list bytes) :=
  match fuel, data with
  | S fuel, x01 :: data => '(name, rest) ← decodeStrKey data; names ← sample_parse fuel rest; Ok (name :: names)
  | _, [x00] => Ok []
  | _, _ => Err (errorsNew "bad metadata")
  end.

#[export] Instance sample_json : MetaJson := {
  json_Marshal d := le_bytes 8 (md_Version d) ++ sample_names (md_SSTables d);
  json_Unmarshal data :=
    names ← sample_parse (length data) (drop 8 data);
    Ok (MkMeta (le_val (take 8 data)) names);
}.

Lemma sample_names_length names : (length names < length (sample_names names))%nat.
Proof. induction names as [|n names IH]; cbn; [lia|]. rewrite length_app. lia. Qed.

Lemma sample_parse_names fuel names :
  (length names < fuel)%nat → sample_parse fuel (sample_names names) = Ok names.
Proof.
  revert fuel. induction names as [|n names IH]; intros [|fuel] Hf; cbn in Hf; try lia; [done|].
  cbn [sample_names sample_parse]. rewrite encodeStrKey_esc. unfold decodeStrKey. cbn [app]. fold (enc_str n). rewrite decodeStrKey_enc. rs. rewrite IH by lia. done.
Qed.

#[export] Instance sample_json_laws : MetaJsonLaws.
Proof.
  split.
  - intros [v names] Hv. cbn in *.
    rewrite (drop_app_length' (le_bytes 8 v)), (take_app_length' (le_bytes 8 v)) by (by rewrite le_bytes_length).
    rewrite sample_parse_names by (pose proof (sample_names_length names); rewrite length_app; lia). rs.
    rewrite le_val_bytes, Z.mod_small by (cbn; lia). done.
  - intros d Hd. apply (f_equal length) in Hd. cbn [json_Marshal sample_json] in Hd.
    rewrite length_app, le_bytes_length in Hd. cbn in Hd. lia.
Qed.
