(* ===== verification/StorageTheorems.v ===== *)
(** * What the storage layer guarantees

    The sorted array, the merge of levels, the SSTable, the records of the log,
    the log under crashes and the metadata slots. *)

From Stdlib Require Import ZArith Lia.
From Stdlib.Strings Require Import Byte.
From stdpp Require Import base list numbers.
From S2P Require Import Prelude GoLib SortedSeq SortedKV SortedArray Merge File Entry SortedFile.
From S2P Require Import SortedFileProofs KVIterators Log LogProofs Metadata KV KVProofs LogHistory.
From S2P Require Import Samples.

Open Scope Z_scope.

(** ** The sorted array (db/sorted_array.go) *)

(** [SortedArray.Set] keeps the array sorted and parallel, reports whether
    the visible value changed, and changes the value of that key only. *)
Theorem array_set arr k v :
  arr_wf arr →
  ∃ arr', arr_Set arr k v = Ok (arr', bool_decide (visible (assoc (arr_ents arr) k) ≠ Some v)) ∧ arr_wf arr' ∧
    ∀ k', visible (assoc (arr_ents arr') k') =
      if decide (k' = k) then Some v else visible (assoc (arr_ents arr) k').
Proof.
  intros [Heq Hs]%arr_wf_of. set (s := arr_ents arr) in *. clearbody s. subst arr.
  rewrite arr_Set_of by done.
  destruct (bool_decide_reflect (visible (assoc s k) = Some v)) as [Hv|Hv].
  - rewrite bool_decide_false by tauto. eexists. split; [done|]. split; [by apply arr_of_wf|].
    intros k'. rewrite arr_ents_of. by destruct (decide (k' = k)) as [->|].
  - rewrite bool_decide_true by done. eexists. split; [done|].
    split; [by apply arr_of_wf, upsert_sorted|]. intros k'. rewrite arr_ents_of, assoc_upsert by done.
    cbn [e_key]. destruct (decide (k' = k)) as [->|Hne]; [by rewrite bytes_equal_refl|].
    by rewrite bytes_equal_false by congruence.
Qed.

Lemma array_del_tombstone k :
  arr_Del (arr_of [Ent k [] true]) k = Ok (arr_of [Ent k [] true; Ent k [] true], false).
Proof.
  unfold arr_Del. cbn [arr_keys arr_of fmap list_fmap e_key].
  change [k] with (e_key <$> [Ent k [] true]). rewrite BinarySearch_spec by (repeat constructor).
  cbn [assoc e_key]. rewrite bytes_equal_refl. cbn [cnt]. unfold below. cbn [e_key].
  unfold bytes_ltb. rewrite bytes_compare_refl. done.
Qed.

(** Levels that are memtables. *)
Definition mem_levels `{Bloom} (ls : list (list ent)) : list Level := map (fun s => inl (arr_of s)) ls.

Lemma tx_Get_arrays `{Bloom} snapshot u levels snap k :
  sorted u → Forall sorted levels →
  tx_Get (MkTX snapshot (arr_of u) (mem_levels levels) snap None) k
    = Ok (visible (assoc_levels (u :: levels) k)).
Proof.
  intros Hu Hl. unfold tx_Get, m_getExact, tx_stack. cbn [tx_err tx_updates tx_levels].
  assert (∀ ls, Forall sorted ls → m_getExact_loop (T := Level) (mem_levels ls) k =
    Ok (match assoc_levels ls k with Some e => (e_val e, true, e_del e) | None => ([], false, false) end)) as Hget.
  { induction 1 as [|s ls Hs _ IH]; [done|]. cbn [mem_levels map m_getExact_loop].
    change (getExactFromSortedKV _ k) with (arr_getExact (arr_of s) k). rewrite arr_getExact_of by done. rs.
    cbn [assoc_levels]. destruct (assoc s k); [done|]. exact IH. }
  change (inl (arr_of u) :: mem_levels levels) with (mem_levels (u :: levels)).
  cbn [merged_subs]. rewrite Hget by (by constructor). rs. destruct (assoc_levels _ k) as [e|]; [|done]. cbn.
  by destruct (e_del e).
Qed.

(** Deleting a key twice through a nested transaction breaks the write set:
    when the parent has deleted [k] and a child sets it, deletes it again and
    commits, [SortedArray.Del] on the tombstone of the parent inserts the key a
    second time and the array is no longer strictly sorted. *)
Theorem nested_delete_duplicates `{Bloom} k v snapshot :
  let outer := MkTX snapshot (arr_of [Ent k [] true]) [] [] None in
  let inner := fst (tx_Del (fst (tx_Set (nested_NewTX outer) k v)) k) in
  let outer' := fst (nested_applyTX outer inner) in
  snd (nested_applyTX outer inner) = Ok tt ∧
  arr_ents (tx_updates outer') = [Ent k [] true; Ent k [] true] ∧ ¬ arr_wf (tx_updates outer').
Proof.
  intros outer inner.
  assert (∀ e, sorted [e]) as H1 by (intros e; repeat constructor).
  assert (fst (tx_Set (nested_NewTX outer) k v) =
    MkTX 0 (arr_of [Ent k v false]) (mem_levels [[Ent k [] true]]) [] None) as Hset.
  { unfold tx_Set, tx_SetEx. change (nested_NewTX outer) with
      (MkTX 0 (arr_of []) (mem_levels [[Ent k [] true]]) [] None).
    rewrite tx_Get_arrays by (repeat constructor). cbn [assoc_levels assoc]. cbn [e_key].
    rewrite bytes_equal_refl. cbn [visible e_del bindS negb orb]. cbn [tx_updates].
    change (ModeUpsert =? ModeUpsert) with true. cbn [bindS]. rewrite arr_Set_of by constructor. done. }
  assert (inner = MkTX 0 (arr_of [Ent k [] true]) (mem_levels [[Ent k [] true]]) [] None) as ->.
  { unfold inner. rewrite Hset. unfold tx_Del. rewrite tx_Get_arrays by (repeat constructor).
    cbn [assoc_levels assoc e_key]. rewrite bytes_equal_refl. cbn [visible e_del bindS tx_updates].
    rewrite arr_Del_of; [|done|]; cbn [assoc e_key]; rewrite bytes_equal_refl; [|by intros e [= <-]].
    cbn [upsert e_key]. rewrite bytes_compare_refl. done. }
  unfold nested_applyTX. cbn [tx_err tx_updates].
  unfold arr_Iter. rs. rewrite (arr_for_each _ [Ent k [] true]) by done. cbn [foldM e_del e_key tx_updates outer].
  rewrite array_del_tombstone. rs. cbn [bindS snd fst set_updates tx_updates].
  split; [done|]. rewrite arr_ents_of. split; [done|]. intros (_ & _ & Hs). rewrite arr_ents_of in Hs.
  inversion Hs as [|? ? _ Hlt]; subst. inversion Hlt as [|? ? Hlt' _]; subst. by apply bytes_lt_irrefl in Hlt'.
Qed.

Definition w_arr : SortedArray := arr_of [Ent (bs "a") (bs "1") false; Ent (bs "c") [] true].

Lemma w_arr_wf : arr_wf w_arr.
Proof. apply (bool_decide_unpack _). vm_compute. exact I. Qed.

Lemma array_set_witness :
  ∃ arr', arr_Set w_arr (bs "c") (bs "3") = Ok (arr', true) ∧ visible (assoc (arr_ents arr') (bs "c")) = Some (bs "3").
Proof.
  destruct (array_set w_arr (bs "c") (bs "3") w_arr_wf) as (arr' & Hs & _ & Hv).
  exists arr'. split; [rewrite Hs; vm_compute; reflexivity|]. rewrite Hv. vm_compute. reflexivity.
Defined.

(** ** The merge of levels (db/merge.go) *)

(** A walk with [Next] and [Prev], and the cursor it moves. *)
Inductive move := MNext | MPrev.

Definition do_move `{KVIter It} (it : It) (m : move) : res It :=
  match m with MNext => Next it | MPrev => Prev it end.

Definition move_cursor (n p : Z) (m : move) : Z :=
  match m with MNext => Z.min (p + 1) n | MPrev => Z.max (p - 1) (-1) end.

Lemma walk_spec `{IterLaws It} ms : ∀ (it : It) s p,
  At it s p → ∃ it', foldM do_move it ms = Ok it' ∧ At it' s (foldl (move_cursor (Z.of_nat (length s))) p ms).
Proof.
  induction ms as [|m ms IH]; intros it s p Hat; [by eauto|]. cbn [foldM foldl].
  destruct m; cbn [do_move move_cursor];
    [destruct (At_next _ _ _ Hat) as (it' & -> & Hat')|destruct (At_prev _ _ _ Hat) as (it' & -> & Hat')];
    rs; by apply IH.
Qed.

(** A merged iterator behaves as a cursor over the merge of its levels, in
    both directions: after [Seek] and any sequence of [Next] and [Prev], turning
    round included, it is valid exactly inside the merged sequence and shows the
    entry of the cursor's position. *)
Theorem merge_walk `{SortedKVLaws T It} (subs : list T) ls k ms :
  Forall2 Holds subs ls →
  let s := merge_levels ls in
  let p := foldl (move_cursor (Z.of_nat (length s))) (Z.of_nat (cnt (below k) s)) ms in
  ∃ it0 it : MergedSortedKVIter It, m_Seek (MkMerged subs) k = Ok it0 ∧ foldM do_move it0 ms = Ok it ∧
    mi_Valid it = bool_decide (0 ≤ p < Z.of_nat (length s)) ∧
    ∀ e, 0 ≤ p → s !! Z.to_nat p = Some e →
      mi_Key it = Ok (e_key e) ∧ mi_Val it = Ok (e_val e) ∧ mi_Deleted it = Ok (e_del e).
Proof.
  intros HQ s p.
  assert (Holds (It := MergedSortedKVIter It) (MkMerged subs) s) as Hh by (exists ls; done).
  destruct (Holds_seek _ _ k Hh) as (it0 & Hs & Hat).
  destruct (walk_spec ms _ _ _ Hat) as (it & Hw & Hat'). exists it0, it.
  split; [exact Hs|]. split; [exact Hw|]. split; [exact (At_valid _ _ _ Hat')|].
  intros e Hp He. exact (At_entry _ _ _ _ Hat' Hp He).
Qed.

Definition w_top : list ent := [Ent (bs "a") (bs "1") false; Ent (bs "c") [] true].
Definition w_bottom : list ent := [Ent (bs "b") (bs "2") false; Ent (bs "c") (bs "0") false].

Lemma w_levels : Forall2 (Holds (It := SortedArrayIter)) [arr_of w_top; arr_of w_bottom] [w_top; w_bottom].
Proof.
  repeat constructor; apply (bool_decide_unpack _); vm_compute; exact I.
Qed.

Lemma merge_walk_witness :
  ∃ it0 it : MergedSortedKVIter SortedArrayIter,
    m_Seek (MkMerged [arr_of w_top; arr_of w_bottom]) (bs "b") = Ok it0 ∧
    foldM do_move it0 [MNext; MPrev; MPrev] = Ok it ∧ mi_Key it = Ok (bs "a").
Proof.
  destruct (merge_walk [arr_of w_top; arr_of w_bottom] [w_top; w_bottom] (bs "b") [MNext; MPrev; MPrev] w_levels)
    as (it0 & it & H1 & H2 & _ & H3).
  exists it0, it. split; [exact H1|]. split; [exact H2|].
  apply (H3 (Ent (bs "a") (bs "1") false)); vm_compute; [discriminate|reflexivity].
Defined.

(** The point lookup of the merge agrees with its scan: scanning from the
    start visits the merge of the levels, in order and without repetition, and
    [getExact] returns the entry the scan shows for that key, which is the one of
    the topmost level that has the key. *)
Theorem merge_scan_get `{SortedKVLaws T It} (subs : list T) ls :
  Forall2 Holds subs ls →
  ∃ (it : MergedSortedKVIter It) s, m_Iter (MkMerged subs) = Ok it ∧ collect it = Ok s ∧ sorted s ∧
    ∀ k, assoc s k = assoc_levels ls k ∧
      m_getExact (MkMerged subs) k =
        Ok (match assoc s k with Some e => (e_val e, true, e_del e) | None => ([], false, false) end).
Proof.
  intros HQ.
  assert (Holds (It := MergedSortedKVIter It) (MkMerged subs) (merge_levels ls)) as Hh by (exists ls; done).
  destruct (Holds_iter _ _ Hh) as (it & Hi & _). exists it, (merge_levels ls).
  split; [exact Hi|]. split; [exact (collect_iter _ _ _ Hh Hi)|]. split; [apply merge_levels_sorted|].
  intros k. split; [by rewrite assoc_merge_levels|]. unfold m_getExact. cbn [merged_subs].
  by rewrite (m_getExact_spec _ _ _ HQ), assoc_merge_levels.
Qed.

Lemma merge_scan_get_witness :
  ∃ (it : MergedSortedKVIter SortedArrayIter) s,
    m_Iter (MkMerged [arr_of w_top; arr_of w_bottom]) = Ok it ∧ collect it = Ok s ∧
    m_getExact (MkMerged [arr_of w_top; arr_of w_bottom]) (bs "c") = Ok ([], true, true).
Proof.
  destruct (merge_scan_get [arr_of w_top; arr_of w_bottom] [w_top; w_bottom] w_levels)
    as (it & s & H1 & H2 & _ & H3).
  exists it, s. split; [exact H1|]. split; [exact H2|]. destruct (H3 (bs "c")) as [Ha Hg].
  rewrite Hg, Ha. vm_compute. reflexivity.
Defined.

(** ** SSTables (db/sorted_file.go) *)

(** C34: An SSTable holds what was written to it.  A sorted sequence of at most
    2^26 entries, each of at most 64 MiB, is written, and the
    file, reopened from its bytes alone, answers every lookup with the entry of
    the sequence and scans to exactly the sequence. *)
Theorem sstable_roundtrip `{BloomLaws} s :
  sorted s → Forall small s → Z.of_nat (length s) ≤ maxNKeys →
  ∃ file file' it, CreateFromSorted [] (arr_of s) = Ok file ∧ openExisting (sf_fp file) = Ok file' ∧
    sf_Iter file' = Ok it ∧ collect it = Ok s ∧
    ∀ k, sf_getExact file' k =
      Ok (match assoc s k with Some e => (e_val e, true, e_del e) | None => ([], false, false) end).
Proof.
  intros Hs Hsm Hn.
  assert (Holds (It := SortedArrayIter) (arr_of s) s) as Ha by done.
  destruct (Holds_iter _ _ Ha) as (ia & Hia & Hat).
  destruct (writeSortedFile_open (arr_of s) ia s Hia) as (file & Hw & _ & Hopen & _); try done.
  { intros St body st. by apply for_each_spec. }
  { by apply (Holds_size (It := SortedArrayIter)). }
  { change (sf_fits (Size (arr_of s))). rewrite arr_size_of. unfold sf_fits, maxNKeys in *. lia. }
  destruct (Hopen Hn) as (file' & Ho & Hh & _).
  change (Holds (It := SortedFileIter) file' s) in Hh.
  destruct (Holds_iter (It := SortedFileIter) _ _ Hh) as (it & Hit & _).
  exists file, file', it. split; [exact Hw|]. split; [exact Ho|]. split; [exact Hit|].
  split; [exact (collect_iter _ _ _ Hh Hit)|]. intros k. exact (Holds_exact _ _ k _ Hh eq_refl).
Qed.

Lemma sstable_roundtrip_witness :
  ∃ file file' it, CreateFromSorted [] (arr_of w_top) = Ok file ∧ openExisting (sf_fp file) = Ok file' ∧
    sf_Iter file' = Ok it ∧ collect it = Ok w_top.
Proof.
  destruct (sstable_roundtrip w_top) as (file & file' & it & H1 & H2 & H3 & H4 & _).
  - apply (bool_decide_unpack _). vm_compute. exact I.
  - apply (bool_decide_unpack _). vm_compute. exact I.
  - vm_compute. discriminate.
  - exists file, file', it. auto.
Defined.

(** ** Records of the log (db/kv_entry.go) *)

(** A record decodes to itself wherever it stands in the log, and a strict
    prefix of it, which is what a crash can leave, never decodes: the reader
    reports one of the errors that end a replay. *)
Theorem entry_roundtrip e pre post n :
  entry_ok e → (n < length (entry_bytes e))%nat →
  Encode e = Ok (entry_bytes e) ∧
  snd (Decode (MkReader (pre ++ entry_bytes e ++ post) (length pre))) = Ok e ∧
  ∃ err, snd (Decode (MkReader (pre ++ take n (entry_bytes e)) (length pre))) = Err err ∧ ends_log err = true.
Proof.
  intros Hok Hn. split; [by apply Encode_ok|]. split; [by rewrite Decode_Encode|].
  destruct (Decode_prefix e pre n Hok Hn) as (r & err & Hd & He). exists err. by rewrite Hd.
Qed.

Definition w_entry : Entry := MkEntry (bs "key") (bs "value") 7 EntryAdd.

Lemma entry_roundtrip_witness :
  snd (Decode (MkReader (bs "xx" ++ entry_bytes w_entry ++ bs "yy") 2)) = Ok w_entry.
Proof.
  refine (proj1 (proj2 (entry_roundtrip w_entry (bs "xx") (bs "yy") 5 _ _))).
  - apply (bool_decide_unpack _). vm_compute. exact I.
  - vm_compute. lia.
Defined.

(** ** The log under crashes (db/log.go) *)

(** C32: Durability: whatever completed commits and truncations, with crashes in
    between, a log has been through, a crash now loses nothing: reopening and replaying the file returns
    exactly the updates of the transactions committed since the last
    truncation, in order. *)
Theorem log_durable log done fp c :
  log_history log done → l_fp log = Some fp → crash fp c →
  ∃ log' es, replay c = (log', Ok es) ∧ ent_of <$> es = done.
Proof.
  intros (ec & Hok & Hd)%history_committed Hfp Hc.
  destruct (crash_uncommitted log ec [] fp c Hok Hfp Hc) as (log' & Hr & _). eauto.
Qed.

Definition w_log : Log := fst (updateLog new_log (arr_of w_top)).
Definition w_fp : file := default (f_open []) (l_fp w_log).

Lemma w_top_sorted : sorted w_top.
Proof. apply (bool_decide_unpack _). vm_compute. exact I. Qed.

Lemma w_log_history : log_history w_log w_top.
Proof.
  apply (lh_commit new_log w_log [] w_top); [exact (lh_new _ _ replay_empty)|exact w_top_sorted| |].
  - vm_compute. reflexivity.
  - vm_compute. reflexivity.
Qed.

Lemma log_durable_witness : ∃ log' es, replay (f_synced w_fp) = (log', Ok es) ∧ ent_of <$> es = w_top.
Proof.
  apply (log_durable w_log w_top w_fp (f_synced w_fp) w_log_history); [vm_compute; reflexivity|].
  refine (crash_prefix w_fp [] [] _). vm_compute. reflexivity.
Defined.

(** Atomicity: a crash at any point of [updateLog] leaves either the updates
    committed before or those and all the updates of this transaction, never a
    part of them, and the log opens again. *)
Theorem log_commit_atomic log done u fp c :
  log_history log done → sorted u → Forall small u → l_seq log + Z.of_nat (length u) < 2 ^ 64 - 1 →
  update_point log u fp → crash fp c →
  ∃ log' es, replay c = (log', Ok es) ∧ (ent_of <$> es = done ∨ ent_of <$> es = done ++ u).
Proof. intros Hh. apply update_crash, history_committed, Hh. Qed.

Definition w_partial : Log := write_all w_log (take 1 w_bottom).
Definition w_pfp : file := default (f_open []) (l_fp w_partial).

Lemma log_commit_atomic_witness :
  ∃ log' es, replay (f_view w_pfp) = (log', Ok es) ∧ (ent_of <$> es = w_top ∨ ent_of <$> es = w_top ++ w_bottom).
Proof.
  apply (log_commit_atomic w_log w_top w_bottom w_pfp (f_view w_pfp) w_log_history).
  - apply (bool_decide_unpack _). vm_compute. exact I.
  - apply (bool_decide_unpack _). vm_compute. exact I.
  - vm_compute. reflexivity.
  - apply (up_writing w_log w_bottom w_pfp 1). vm_compute. reflexivity.
  - refine (crash_prefix w_pfp (f_pending w_pfp) [] _). vm_compute. reflexivity.
Defined.

(** A crash anywhere in [Truncate] leaves all committed updates, none of
    them, or a header that the next open reports as corrupt; never a part of
    the updates. *)
Theorem log_truncate_atomic log done fp f c :
  log_history log done → l_fp log = Some fp → f ∈ truncate_points fp (l_seq log) → crash f c →
  ∃ log' r, replay c = (log', r) ∧
    (r = Err ErrLogHeaderCorrupt ∨ r = Ok [] ∨ ∃ es, r = Ok es ∧ ent_of <$> es = done).
Proof.
  intros (ec & Hok & Hd)%history_committed Hfp Hf Hc.
  destruct (truncate_crash_outcomes log ec fp f c Hok Hfp Hf Hc) as (log' & [Hr|[Hr|Hr]]); eauto 10.
Qed.

Definition w_tfp : file := f_sync (f_write w_fp 0 (header_bytes (l_seq w_log))).

Lemma log_truncate_atomic_witness :
  ∃ log' r, replay (f_synced w_tfp) = (log', r) ∧
    (r = Err ErrLogHeaderCorrupt ∨ r = Ok [] ∨ ∃ es, r = Ok es ∧ ent_of <$> es = w_top).
Proof.
  apply (log_truncate_atomic w_log w_top w_fp w_tfp (f_synced w_tfp) w_log_history).
  - vm_compute. reflexivity.
  - unfold truncate_points, w_tfp. rewrite !elem_of_cons. right; right; left. reflexivity.
  - refine (crash_prefix w_tfp [] [] _). vm_compute. reflexivity.
Defined.

(** ** The metadata slots (db/metadata.go) *)

Section metadata.
Context `{MetaJsonLaws}.

(** A store that was created empty, written with growing versions and
    reopened, and the snapshot last written to it. *)
Inductive meta_history : KVMetaStore → KVMetaData → Prop :=
  | mh_new entries meta : meta_Open [] [] entries = Ok meta → meta_history meta meta_zero
  | mh_set meta d d' :
      meta_history meta d → meta_fits d' → md_Version d < md_Version d' →
      meta_history (meta_Set meta d') d'
  | mh_reopen meta meta' d entries :
      meta_history meta d → 0 < md_Version d →
      meta_Open (fst (contents meta)) (snd (contents meta)) entries = Ok meta' →
      meta_history meta' d.

Lemma meta_history_ok meta d : meta_history meta d → meta_ok meta ∧ meta_Get meta = d.
Proof.
  induction 1 as [entries meta Ho|meta d d' _ [Hok Hg] Hf Hlt|meta meta' d entries _ [Hok Hg] Hv Ho].
  - rewrite meta_Open_fresh_refused in Ho. destruct (countSSTables entries =? 0)%nat; [|done].
    injection Ho as <-. done.
  - split; [by apply meta_Set_ok|]. apply meta_Get_Set. by rewrite Hg.
  - destruct (meta_reopen meta entries Hok) as (m & Ho' & Hg' & Hok'); [by rewrite Hg|].
    rewrite Ho in Ho'. injection Ho' as <-. split; [done|]. by rewrite Hg'.
Qed.

(** The metadata store returns what was last written, and reopening the two
    slot files finds it again. *)
Theorem metadata_durable meta d entries :
  meta_history meta d →
  meta_Get meta = d ∧
  (0 < md_Version d → ∃ meta', meta_Open (fst (contents meta)) (snd (contents meta)) entries = Ok meta' ∧
     meta_Get meta' = d).
Proof.
  intros [Hok Hg]%meta_history_ok. split; [done|]. intros Hv.
  destruct (meta_reopen meta entries Hok) as (m & Ho & Hg' & _); [by rewrite Hg|]. exists m. by rewrite Hg', Hg.
Qed.

(** A crash while [Set] overwrites a slot leaves the old or the new
    snapshot, provided the checksum notices the slot that was only partly
    written: the slot that is current is never the one being written. *)
Theorem metadata_crash meta d d' c entries :
  meta_history meta d → meta_fits d' → 0 < md_Version d < md_Version d' →
  tear_detected (f_synced (set_target meta)) d' →
  crash (f_write (set_target meta) 0 (meta_bytes d')) c →
  ∃ meta', meta_Open (fst (with_target meta c)) (snd (with_target meta c)) entries = Ok meta' ∧
    (meta_Get meta' = d ∨ meta_Get meta' = d').
Proof.
  intros [Hok Hg]%meta_history_ok Hf Hv Ht Hc.
  destruct (meta_crash meta d' c entries Hok Hf) as (m & Ho & Hm); [by rewrite Hg|done..|].
  rewrite Hg in Hm. eauto.
Qed.

End metadata.

Definition w_md1 : KVMetaData := MkMeta 1 [bs "sstable_1"].
Definition w_md2 : KVMetaData := MkMeta 2 [bs "sstable_2"; bs "sstable_1"].
Definition w_meta0 : KVMetaStore := MkStore (MkItem (f_open []) meta_zero) (MkItem (f_open []) meta_zero).
Definition w_meta1 : KVMetaStore := meta_Set w_meta0 w_md1.

Lemma w_meta1_history : meta_history w_meta1 w_md1.
Proof.
  apply (mh_set w_meta0 meta_zero w_md1); [exact (mh_new [] w_meta0 eq_refl)| |reflexivity].
  split; vm_compute; [split; [discriminate|reflexivity]|reflexivity].
Qed.

Lemma metadata_durable_witness :
  ∃ meta', meta_Open (fst (contents w_meta1)) (snd (contents w_meta1)) [] = Ok meta' ∧ meta_Get meta' = w_md1.
Proof. apply (metadata_durable w_meta1 w_md1 [] w_meta1_history). reflexivity. Defined.

Definition w_torn : bytes := write_at [] 0 (take 7 (meta_bytes w_md2)).

(** Every strict prefix of the snapshot is noticed, by evaluation. *)
Lemma w_tear : tear_detected (f_synced (set_target w_meta1)) w_md2.
Proof.
  intros n Hn.
  assert (∀ l, forallb (fun n => bool_decide (readMetaFile (write_at (f_synced (set_target w_meta1)) 0
    (take n (meta_bytes w_md2))) = Err ErrMetaCorrupt)) l = true → n ∈ l →
    readMetaFile (write_at (f_synced (set_target w_meta1)) 0 (take n (meta_bytes w_md2))) = Err ErrMetaCorrupt) as Hl.
  { intros l Hl Hin. apply forallb_forall with (x := n) in Hl; [|by apply list_elem_of_In].
    by apply bool_decide_eq_true in Hl. }
  apply (Hl (seq 1 (length (meta_bytes w_md2) - 1))); [vm_compute; reflexivity|].
  apply elem_of_seq. lia.
Qed.

Lemma metadata_crash_witness :
  ∃ meta', meta_Open (fst (with_target w_meta1 w_torn)) (snd (with_target w_meta1 w_torn)) [] = Ok meta' ∧
    (meta_Get meta' = w_md1 ∨ meta_Get meta' = w_md2).
Proof.
  apply (metadata_crash w_meta1 w_md1 w_md2 w_torn [] w_meta1_history).
  - split; vm_compute; [split; [discriminate|reflexivity]|reflexivity].
  - vm_compute. split; reflexivity.
  - exact w_tear.
  - refine (crash_torn (f_write (set_target w_meta1) 0 (meta_bytes w_md2)) [] (FWrite 0 (meta_bytes w_md2))
      (FWrite 0 (take 7 (meta_bytes w_md2))) [] _ _); [vm_compute; reflexivity|constructor].
Defined.
