(* ===== verification/KVTheorems.v ===== *)
(** * What the key-value store guarantees

    The theorems about every state a store can reach after it is created in an
    empty directory: snapshot isolation, first committer wins, table lifetime,
    invisible compaction, scans, and the single operations of [KV]. *)

From Stdlib Require Import ZArith Lia.
From Stdlib Require Import SpecFloat.
From Stdlib.Strings Require Import Byte.
From stdpp Require Import base list numbers.
From S2P Require Import Prelude GoLib SortedSeq SortedKV SortedArray Merge File Entry SortedFile.
From S2P Require Import SortedFileProofs KVIterators Log Metadata KV KVCompact KVProofs.
From S2P Require Import KVCompactProofs KVSystem KVOps KVSpec Samples.

Open Scope Z_scope.

(** ** A new store *)

Definition fresh_disk : disk := MkDisk [] [] [] [].

Section theorems.
Context `{BL : BloomLaws} `{MetaJson}.

Lemma openLog_fresh : ∃ log, openLog [] = (log, Ok arr_empty).
Proof. eexists. vm_compute. reflexivity. Qed.

Lemma fresh_inv opts kv0 : kv_Open opts fresh_disk = Ok kv0 → sys_inv [] (MkSys kv0 Idle []).
Proof.
  unfold kv_Open, fresh_disk. cbn [d_meta0 d_meta1 d_log d_files fmap list_fmap].
  destruct openLog_fresh as [log ->]. intros [= <-].
  constructor; cbn [sy_kv sy_phase sy_commits]; try done.
  - constructor; cbn; try done; try by constructor.
    + exists [], [], []. split_and!; try done; by constructor.
    + intros id Hid. by apply elem_of_nil in Hid.
    + intros h Hh. by apply elem_of_nil in Hh.
  - split; cbn; try done. intros tid Hin. by apply elem_of_nil in Hin.
Qed.

(** The states of a store created with options [opts]. *)
Definition store_state (opts : KVOptions) (s : sys) : Prop :=
  ∃ kv0, kv_Open opts fresh_disk = Ok kv0 ∧ reachable (MkSys kv0 Idle []) s.

Lemma store_inv opts s : store_state opts s → sys_inv [] s.
Proof. intros (kv0 & Ho & Hr). eapply reachable_inv; [by eapply fresh_inv|done]. Qed.

(** ** Isolation *)

(** C1: Snapshot isolation: in every reachable state of a store, whatever other
    transactions, flushes and merges have happened, an open transaction reads
    its own writes over the state that was committed when it started. *)
Theorem snapshot_isolation opts s id tx k :
  store_state opts s → id ∈ kv_ongoing (sy_kv s) → kv_txs (sy_kv s) !! id = Some tx →
  tx_Get tx k = Ok (visible (assoc (overlay (arr_ents (tx_updates tx))
    (state_at [] (sy_commits s) (Z.to_nat (tx_snapshot tx)))) k)).
Proof.
  intros Hst Hid Htx. destruct (store_inv _ _ Hst) as [Hinv _ _ _ _ _].
  destruct (i_txs _ _ _ _ Hinv id Hid) as (tx' & n & Htx' & Hr). rewrite Htx in Htx'. injection Htx' as <-.
  pose proof Hr as (_ & Hn & _). rewrite Hn, Nat2Z.id.
  apply tx_Get_spec; [constructor|done].
Qed.

(** C6: First committer wins: a commit fails with ErrTXConflict exactly when a
    transaction that committed after its snapshot wrote one of its keys; a
    read-only transaction always commits; otherwise the result is that of
    writing the log, and the transaction is finished in every case. *)
Theorem first_committer_wins opts s id tx :
  store_state opts s → id ∈ kv_ongoing (sy_kv s) → kv_txs (sy_kv s) !! id = Some tx →
  Z.of_nat (length (sy_commits s)) < 2 ^ 64 - 1 →
  let u := arr_ents (tx_updates tx) in
  let conflict := later_conflict (sy_commits s) (Z.to_nat (tx_snapshot tx)) u in
  ∃ kv' r, applyTXSync (sy_kv s) id = (kv', r) ∧ (id ∉ kv_ongoing kv') ∧
    (u = [] → r = Ok tt) ∧
    (u ≠ [] → conflict → r = Err ErrTXConflict) ∧
    (u ≠ [] → ¬ conflict → r = snd (updateLog (kv_log (sy_kv s)) (tx_updates tx))).
Proof.
  intros Hst Hid Htx Hlen u conflict. destruct (store_inv _ _ Hst) as [Hinv Hrefs _ _ _ _].
  destruct (i_txs _ _ _ _ Hinv id Hid) as (tx' & n & Htx' & Hr). rewrite Htx in Htx'. injection Htx' as <-.
  pose proof Hr as (_ & Hn & _ & _ & w & Hw & Hsw). unfold conflict, u. rewrite Hn, Nat2Z.id, Hw, arr_ents_of.
  destruct (applyTXSync_inv _ _ _ _ _ _ _ Hinv Hrefs Hid Htx Hr Hw Hsw Hlen)
    as (kv' & r & Ha & _ & _ & Hnot & _ & H1 & H2 & H3). eauto 10.
Qed.

(** No lost update: when a transaction commits, the current value of every
    key it wrote is still the value its snapshot had for that key. *)
Theorem commit_sees_current opts s id tx kv' k :
  store_state opts s → id ∈ kv_ongoing (sy_kv s) → kv_txs (sy_kv s) !! id = Some tx →
  Z.of_nat (length (sy_commits s)) < 2 ^ 64 - 1 →
  applyTXSync (sy_kv s) id = (kv', Ok tt) → is_Some (assoc (arr_ents (tx_updates tx)) k) →
  assoc (state_at [] (sy_commits s) (length (sy_commits s))) k =
    assoc (state_at [] (sy_commits s) (Z.to_nat (tx_snapshot tx))) k.
Proof.
  intros Hst Hid Htx Hlen Ha Hk. destruct (store_inv _ _ Hst) as [Hinv Hrefs _ _ _ _].
  destruct (i_txs _ _ _ _ Hinv id Hid) as (tx' & n & Htx' & Hr). rewrite Htx in Htx'. injection Htx' as <-.
  pose proof Hr as (_ & Hn & Hle & _ & w & Hw & Hsw). rewrite Hn, Nat2Z.id. rewrite Hw, arr_ents_of in Hk.
  destruct (applyTXSync_inv _ _ _ _ _ _ _ Hinv Hrefs Hid Htx Hr Hw Hsw Hlen)
    as (kv1 & r & Ha1 & _ & _ & _ & _ & _ & H2 & _). rewrite Ha in Ha1. injection Ha1 as <- <-.
  apply (no_lost_update [] _ n w); [constructor|done| |done].
  intros Hc. assert (w ≠ []) as Hne by (intros ->; by destruct Hk). by specialize (H2 Hne Hc).
Qed.

(** C2: The store refines snapshot isolation: every step of a transaction or of
    a compaction is a step of the abstract machine [si_step] or does not change
    its state. *)
Theorem store_refines_si opts s s' :
  store_state opts s → step s s' → si_step [] (abs s) (abs s') ∨ abs s' = abs s.
Proof. intros Hst Hs. apply step_sim; [by eapply store_inv|done]. Qed.

(** ** Tables *)

(** C7: Table lifetime: the reference count of every table is the number of
    times the table list and the snapshots of open transactions name it, and a
    table they name is open, so a reader never finds its file closed. *)
Theorem table_lifetime opts s tid t :
  store_state opts s → kv_tables (sy_kv s) !! tid = Some t →
  tr_refs t = Z.of_nat (count_occ Nat.eq_dec (held (sy_kv s)) tid) ∧
  (tid ∈ held (sy_kv s) → tr_open t = true).
Proof.
  intros Hst Ht. destruct (store_inv _ _ Hst) as [_ [Hc Ho _] _ _ _ _].
  split; [by apply Hc|by apply Ho].
Qed.

(** Compaction is invisible: a step that commits nothing does not change
    what a transaction started afterwards reads. *)
Theorem compaction_invisible opts s s' kv1 id1 tx1 kv2 id2 tx2 k :
  store_state opts s → step s s' → sy_commits s' = sy_commits s →
  kv_closed (sy_kv s) = false → kv_closed (sy_kv s') = false →
  NewTX (sy_kv s) = Ok (kv1, id1) → kv_txs kv1 !! id1 = Some tx1 →
  NewTX (sy_kv s') = Ok (kv2, id2) → kv_txs kv2 !! id2 = Some tx2 →
  tx_Get tx2 k = tx_Get tx1 k.
Proof.
  intros Hst Hs Hc Hc1 Hc2 Hn1 Ht1 Hn2 Ht2.
  pose proof (store_inv _ _ Hst) as Hsi. pose proof (step_inv _ _ _ Hsi Hs) as [Hinv' _ _ _ _ _].
  destruct Hsi as [Hinv _ _ _ _ _]. rewrite Hc in Hinv'.
  assert (∀ kv kv1 id tx, inv kv [] (sy_commits s) → kv_closed kv = false → NewTX kv = Ok (kv1, id) →
    kv_txs kv1 !! id = Some tx →
    tx_Get tx k = Ok (visible (assoc (state_at [] (sy_commits s) (length (sy_commits s))) k))) as Hread.
  { clear. intros kv kv1 id tx Hinv Hcl Hn Ht.
    destruct (NewTX_inv _ _ _ Hinv Hcl) as (kv' & tx' & Hn' & _ & Htxs & _ & Hr & Hu & _).
    rewrite Hn in Hn'. injection Hn' as <- ->. rewrite Htxs, list_lookup_middle in Ht by done.
    injection Ht as <-. rewrite (tx_Get_spec tx' [] (sy_commits s) (length (sy_commits s))); [|constructor|done].
    by rewrite Hu. }
  by rewrite (Hread _ _ _ _ Hinv' Hc2 Hn2 Ht2), (Hread _ _ _ _ Hinv Hc1 Hn1 Ht1).
Qed.

(** ** Scans *)

(** C30: Range scans: iterating Range from [start] to [stop] yields exactly the
    live keys of the closed interval that the transaction sees, in ascending
    order, or in descending order for a descending scan, and terminates. *)
Theorem range_scan opts s id tx start stop desc fuel :
  store_state opts s → id ∈ kv_ongoing (sy_kv s) → kv_txs (sy_kv s) !! id = Some tx →
  let view := lives (tx_view [] (sy_commits s) tx (Z.to_nat (tx_snapshot tx))) in
  (length view ≤ fuel)%nat →
  ∃ it : RangedKVIter TXIter, tx_Range tx start stop desc = Ok it ∧
    rg_collect fuel it = Ok (range_of start stop desc view).
Proof.
  intros Hst Hid Htx view Hf. destruct (store_inv _ _ Hst) as [Hinv _ _ _ _ _].
  destruct (i_txs _ _ _ _ Hinv id Hid) as (tx' & n & Htx' & Hr). rewrite Htx in Htx'. injection Htx' as <-.
  pose proof Hr as (_ & Hn & _). unfold view in *. rewrite Hn, Nat2Z.id in *.
  by apply tx_Range_spec; [constructor|..].
Qed.

(** ** Single operations *)

(** Set then Get: after a successful Set the store returns the value just
    stored, and every other key keeps the value it had. *)
Theorem set_then_get opts s k v kv' b k' :
  store_state opts s → kv_closed (sy_kv s) = false → Z.of_nat (length (sy_commits s)) < 2 ^ 64 - 1 →
  kv_Set (sy_kv s) k v = (kv', Ok b) →
  ∃ kv1 kv2 before, kv_Get (sy_kv s) k' = (kv1, Ok before) ∧
    kv_Get kv' k' = (kv2, Ok (if decide (k' = k) then Some v else before)).
Proof.
  intros Hst Hcl Hlen Hset. destruct (store_inv _ _ Hst) as [Hinv Hrefs _ _ _ _].
  destruct (kv_Get_spec _ _ _ Hinv Hrefs Hcl k') as (kv1 & Hg1 & _).
  destruct (kv_SetEx_spec _ _ _ Hinv Hrefs Hcl k v ModeUpsert) as (kv2 & r & c' & Hs & Hinv' & Hrefs' & Hcl' & Hr);
    [by left|done|]. unfold kv_Set in Hset. rewrite Hset in Hs. injection Hs as <- <-.
  destruct (kv_Get_spec _ _ _ Hinv' Hrefs' Hcl' k') as (kv3 & Hg2 & _).
  eexists _, _, _. split; [exact Hg1|]. rewrite Hg2. do 2 f_equal.
  destruct Hr as [(_ & -> & _)|(_ & _ & Hr & Hne)].
  - unfold mode_updates. cbn [Z.eqb ModeUpsert ModeInsert ModeUpdate Pos.eqb].
    destruct (bool_decide_reflect (current [] (sy_commits s) k ≠ Some v)) as [Hc|Hc].
    + rewrite decide_False by done. rewrite current_commit by constructor. cbn [assoc e_key visible e_del e_val].
      destruct (decide (k' = k)) as [->|Hk]; [by rewrite bytes_equal_refl|]. by rewrite bytes_equal_false by congruence.
    + rewrite decide_True by done. apply dec_stable in Hc. by destruct (decide (k' = k)) as [->|].
  - exfalso. destruct (snd (updateLog _ _)) as [[]| | |]; by simplify_eq/=.
Qed.

(** Del then Get: after a successful Del the key is gone, the result says
    whether it was there, and every other key keeps its value. *)
Theorem del_then_get opts s k kv' b k' :
  store_state opts s → kv_closed (sy_kv s) = false → Z.of_nat (length (sy_commits s)) < 2 ^ 64 - 1 →
  kv_Del (sy_kv s) k = (kv', Ok b) →
  ∃ kv0 kv1 kv2 old before, kv_Get (sy_kv s) k = (kv0, Ok old) ∧ b = bool_decide (old ≠ None) ∧
    kv_Get (sy_kv s) k' = (kv1, Ok before) ∧
    kv_Get kv' k' = (kv2, Ok (if decide (k' = k) then None else before)).
Proof.
  intros Hst Hcl Hlen Hdel. destruct (store_inv _ _ Hst) as [Hinv Hrefs _ _ _ _].
  destruct (kv_Get_spec _ _ _ Hinv Hrefs Hcl k) as (kv0 & Hg0 & _).
  destruct (kv_Get_spec _ _ _ Hinv Hrefs Hcl k') as (kv1 & Hg1 & _).
  destruct (kv_Del_spec _ _ _ Hinv Hrefs Hcl k Hlen) as (kv2 & r & c' & Hs & Hinv' & Hrefs' & Hcl' & Hr).
  rewrite Hdel in Hs. injection Hs as <- <-.
  destruct (kv_Get_spec _ _ _ Hinv' Hrefs' Hcl' k') as (kv3 & Hg2 & _).
  destruct Hr as [(Hb & -> & _)|(_ & _ & Hr & Hne)];
    [|exfalso; destruct (snd (updateLog _ _)) as [[]| | |]; by simplify_eq/=].
  injection Hb as ->. eexists _, _, _, _, _. split; [exact Hg0|]. split; [done|]. split; [exact Hg1|].
  rewrite Hg2. do 2 f_equal. destruct (bool_decide_reflect (current [] (sy_commits s) k ≠ None)) as [Hc|Hc].
  - rewrite decide_False by done. rewrite current_commit by constructor. cbn [assoc e_key visible e_del e_val].
    destruct (decide (k' = k)) as [->|Hk]; [by rewrite bytes_equal_refl|]. by rewrite bytes_equal_false by congruence.
  - rewrite decide_True by done. apply dec_stable in Hc. by destruct (decide (k' = k)) as [->|].
Qed.

End theorems.

(** ** A run of the store

    Create, commit one write, start a reader, flush. *)

Definition w_opts : KVOptions := MkOptions 0 1 (f32_of_Z 0).
Definition w_none : KV := MkKV w_opts (MkStore (MkItem (f_open []) meta_zero) (MkItem (f_open []) meta_zero))
  0 (MkLog None 0 0 0 0 0) arr_empty None [] 0 [] [] false None [] [] [].
Definition w_kv0 : KV := match kv_Open w_opts fresh_disk with Ok kv => kv | _ => w_none end.
Definition w_begin (kv : KV) : KV := match NewTX kv with Ok (kv, _) => kv | _ => w_none end.
Definition w_kv1 : KV := w_begin w_kv0.
Definition w_kv2 : KV := fst (with_tx w_kv1 0 (fun tx => tx_SetEx tx (bs "k") (bs "v") ModeUpsert)).
Definition w_kv3 : KV := fst (applyTXSync w_kv2 0).
Definition w_kv4 : KV := w_begin w_kv3.
Definition w_kv5 : KV := fst (flush_freeze w_kv4).

Definition w_tx2 : KVTX := default (MkTX 0 arr_empty [] [] None) (kv_txs w_kv2 !! 0%nat).
Definition w_tx4 : KVTX := default (MkTX 0 arr_empty [] [] None) (kv_txs w_kv4 !! 1%nat).
Definition w_commits : list (list ent) := [[Ent (bs "k") (bs "v") false]].
Definition w_s2 : sys := MkSys w_kv2 Idle [].
Definition w_s3 : sys := MkSys w_kv3 Idle w_commits.
Definition w_s4 : sys := MkSys w_kv4 Idle w_commits.

Lemma w_step2 : store_state w_opts w_s2.
Proof.
  exists w_kv0. split; [vm_compute; reflexivity|].
  eapply r_step; [eapply r_step; [apply r_init|]|].
  - eapply (s_new w_kv0 Idle [] w_kv1 0); vm_compute; reflexivity.
  - eapply (s_write w_kv1 Idle [] 0 _ w_kv2); [|apply (w_SetEx (bs "k") (bs "v") ModeUpsert)|vm_compute; reflexivity].
    apply (bool_decide_unpack _). vm_compute. exact I.
Qed.

Lemma w_step3 : store_state w_opts w_s3.
Proof.
  destruct w_step2 as (kv0 & Ho & Hr). exists kv0. split; [done|]. eapply r_step; [exact Hr|].
  eapply (s_commit w_kv2 Idle [] 0 w_tx2 w_kv3 (Ok tt)); try (vm_compute; reflexivity).
  apply (bool_decide_unpack _). vm_compute. exact I.
Qed.

Lemma w_step4 : store_state w_opts w_s4.
Proof.
  destruct w_step3 as (kv0 & Ho & Hr). exists kv0. split; [done|]. eapply r_step; [exact Hr|].
  eapply (s_new w_kv3 Idle w_commits w_kv4 1); vm_compute; reflexivity.
Qed.

Lemma snapshot_isolation_witness :
  kv_txs w_kv4 !! 1%nat = Some w_tx4 ∧ tx_Get w_tx4 (bs "k") = Ok (Some (bs "v")).
Proof.
  split; [vm_compute; reflexivity|].
  refine (eq_trans (snapshot_isolation w_opts w_s4 1 w_tx4 (bs "k") w_step4 _ _) _).
  - apply (bool_decide_unpack _). vm_compute. exact I.
  - vm_compute. reflexivity.
  - vm_compute. reflexivity.
Defined.

Lemma first_committer_wins_witness :
  ∃ kv' r, applyTXSync w_kv2 0 = (kv', r) ∧ r = Ok tt.
Proof.
  destruct (first_committer_wins w_opts w_s2 0 w_tx2 w_step2) as (kv' & r & Ha & _ & _ & _ & Hr).
  - apply (bool_decide_unpack _). vm_compute. exact I.
  - vm_compute. reflexivity.
  - vm_compute. reflexivity.
  - exists kv', r. split; [exact Ha|]. rewrite Hr; [vm_compute; reflexivity|discriminate|].
    intros (i & c & e & e' & _ & Hc & _). discriminate Hc.
Defined.

Lemma commit_sees_current_witness :
  assoc (state_at [] [] 0) (bs "k") = assoc (state_at [] [] 0) (bs "k").
Proof.
  refine (commit_sees_current w_opts w_s2 0 w_tx2 w_kv3 (bs "k") w_step2 _ _ _ _ _).
  - apply (bool_decide_unpack _). vm_compute. exact I.
  - vm_compute. reflexivity.
  - vm_compute. reflexivity.
  - vm_compute. reflexivity.
  - vm_compute. eauto.
Defined.

(** Freezing the memtable, the first step of a flush. *)
Definition w_s5 : sys := MkSys w_kv5 (Frozen 1 [Ent (bs "k") (bs "v") false] true) w_commits.

Lemma w_freeze : step w_s4 w_s5.
Proof.
  eapply (s_freeze w_kv4 w_commits w_kv5 1 (arr_of [Ent (bs "k") (bs "v") false]) true); vm_compute; reflexivity.
Qed.

Lemma store_refines_si_witness : si_step [] (abs w_s4) (abs w_s5) ∨ abs w_s5 = abs w_s4.
Proof. exact (store_refines_si w_opts w_s4 w_s5 w_step4 w_freeze). Defined.

(** The state after the flush has written and installed its table. *)
Definition w_kv6 : KV := fst (flush_write w_kv5 1 (arr_of [Ent (bs "k") (bs "v") false]) true).
Definition w_log7 : Log := fst (rewriteLog (kv_log w_kv6) (kv_mem w_kv6)).
Definition w_kv7 : KV := set_log (flush_install (flush_meta w_kv6 1) 0) w_log7.
Definition w_s7 : sys := MkSys w_kv7 Idle w_commits.

Definition w_s6 : sys := MkSys w_kv6 (Written 1 [Ent (bs "k") (bs "v") false] true 0) w_commits.

Lemma w_write : step w_s5 w_s6.
Proof.
  apply (s_flush_write w_kv5 w_commits 1 [Ent (bs "k") (bs "v") false] true w_kv6 0).
  - apply (bool_decide_unpack _). vm_compute. exact I.
  - vm_compute. reflexivity.
Qed.

Lemma w_install : step w_s6 w_s7.
Proof.
  unfold w_s6, w_s7, w_kv7.
  apply (s_flush_install w_kv6 w_commits 1 [Ent (bs "k") (bs "v") false] true 0 w_log7 (Ok tt)).
  vm_compute. reflexivity.
Qed.

Lemma w_step7 : store_state w_opts w_s7.
Proof.
  destruct w_step4 as (kv0 & Ho & Hr). exists kv0. split; [done|].
  exact (r_step _ _ _ (r_step _ _ _ (r_step _ _ _ Hr w_freeze) w_write) w_install).
Qed.

Definition w_table : TableRef := default (MkTable [] (MkSF [] 0 [] None) false 0 false) (kv_tables w_kv7 !! 0%nat).

Lemma table_lifetime_witness : tr_refs w_table = 1 ∧ tr_open w_table = true.
Proof.
  destruct (table_lifetime w_opts w_s7 0 w_table w_step7) as [Hr Ho]; [vm_compute; reflexivity|].
  split; [refine (eq_trans Hr _); vm_compute; reflexivity|].
  apply Ho. apply (bool_decide_unpack _). vm_compute. exact I.
Defined.

Definition w_tx8 : KVTX := default (MkTX 0 arr_empty [] [] None) (kv_txs (w_begin w_kv5) !! 2%nat).
Definition w_tx9 : KVTX := default (MkTX 0 arr_empty [] [] None) (kv_txs (w_begin w_kv4) !! 2%nat).

Lemma compaction_invisible_witness : tx_Get w_tx8 (bs "k") = tx_Get w_tx9 (bs "k").
Proof.
  apply (compaction_invisible w_opts w_s4 w_s5 (w_begin w_kv4) 2 w_tx9 (w_begin w_kv5) 2 w_tx8 (bs "k")
    w_step4 w_freeze); vm_compute; reflexivity.
Defined.

Lemma range_scan_witness :
  ∃ it : RangedKVIter TXIter, tx_Range w_tx4 (bs "a") (bs "z") false = Ok it ∧
    rg_collect 1 it = Ok [(bs "k", bs "v")].
Proof.
  apply (range_scan w_opts w_s4 1 w_tx4 (bs "a") (bs "z") false 1 w_step4).
  - apply (bool_decide_unpack _). vm_compute. exact I.
  - vm_compute. reflexivity.
  - vm_compute. lia.
Defined.

Definition w_set : KV := fst (kv_Set w_kv3 (bs "k") (bs "w")).
Definition w_del : KV := fst (kv_Del w_kv3 (bs "k")).

Lemma set_then_get_witness :
  ∃ kv1 kv2 before, kv_Get (sy_kv w_s3) (bs "k") = (kv1, Ok before) ∧
    kv_Get w_set (bs "k") = (kv2, Ok (if decide (bs "k" = bs "k") then Some (bs "w") else before)).
Proof.
  refine (set_then_get w_opts w_s3 (bs "k") (bs "w") w_set true (bs "k") w_step3 _ _ _); vm_compute; reflexivity.
Defined.

Lemma del_then_get_witness :
  ∃ kv0 kv1 kv2 old before, kv_Get (sy_kv w_s3) (bs "k") = (kv0, Ok old) ∧ true = bool_decide (old ≠ None) ∧
    kv_Get (sy_kv w_s3) (bs "k") = (kv1, Ok before) ∧
    kv_Get w_del (bs "k") = (kv2, Ok (if decide (bs "k" = bs "k") then None else before)).
Proof.
  refine (del_then_get w_opts w_s3 (bs "k") w_del true (bs "k") w_step3 _ _ _); vm_compute; reflexivity.
Defined.
