(* ===== verification/Sql.v ===== *)
(** * SQL syntax trees: the types of db/sql_parser.go

    Expressions are [any] in the source: a column name, a literal cell, a unary
    or binary operator, a tuple or the star of a select list. *)

From Stdlib Require Import ZArith Lia.
From Stdlib.Strings Require Import Byte.
From stdpp Require Import base list numbers.
From S2P Require Import Prelude GoLib Cell Row.
From S2P Require Import Entry.

Open Scope Z_scope.

Definition maxExprDepth : nat := 1000.

(** [type ExprOp uint8] *)
Definition OP_ADD : Z := 1.
Definition OP_SUB : Z := 2.
Definition OP_MUL : Z := 3.
Definition OP_DIV : Z := 4.
Definition OP_EQ : Z := 10.
Definition OP_NE : Z := 11.
Definition OP_LE : Z := 12.
Definition OP_GE : Z := 13.
Definition OP_LT : Z := 14.
Definition OP_GT : Z := 15.
Definition OP_AND : Z := 20.
Definition OP_OR : Z := 21.
Definition OP_NOT : Z := 30.
Definition OP_NEG : Z := 31.

Inductive expr :=
  | EName (name : bytes)
  | ECell (cell : Cell)
  | EUnOp (op : Z) (kid : expr)
  | EBinOp (op : Z) (l r : expr)
  | ETuple (kids : list expr)
  | EStar.

(** Induction through the kids of a tuple. *)
Definition expr_ind' (P : expr → Prop)
    (Hname : ∀ name, P (EName name)) (Hcell : ∀ cell, P (ECell cell))
    (Hun : ∀ op kid, P kid → P (EUnOp op kid))
    (Hbin : ∀ op left right, P left → P right → P (EBinOp op left right))
    (Htuple : ∀ kids, Forall P kids → P (ETuple kids)) (Hstar : P EStar) : ∀ e, P e :=
  fix go e := match e with
  | EName name => Hname name
  | ECell cell => Hcell cell
  | EUnOp op kid => Hun op kid (go kid)
  | EBinOp op l r => Hbin op l r (go l) (go r)
  | ETuple kids => Htuple kids (list_ind (Forall P) (Forall_nil_2 P) (fun x l => Forall_cons_2 P x l (go x)) kids)
  | EStar => Hstar
  end.

(** ** Statements *)

(** A missing WHERE is [None]; a negative limit means no LIMIT. *)
Record StmtSelect := MkSelect {
  sel_table : bytes;
  sel_cols : list expr;
  sel_cond : option expr;
  sel_limit : Z;
  sel_offset : Z;
}.

Record ExprAssign := MkAssign { as_column : bytes; as_expr : expr }.

Record StmtCreatTable := MkCreate {
  ct_table : bytes;
  ct_cols : list Column;
  ct_pkey : list bytes;
  ct_indices : list (list bytes);
}.

Record StmtInsert := MkInsert { ins_table : bytes; ins_value : list Cell }.
Record StmtUpdate := MkUpdate { upd_tbl : bytes; upd_cond : option expr; upd_value : list ExprAssign }.
Record StmtDelete := MkDelete { del_table : bytes; del_cond : option expr }.
Record StmtDropTable := MkDrop { drop_table : bytes }.

Inductive stmt :=
  | SSelect (s : StmtSelect)
  | SCreateTable (s : StmtCreatTable)
  | SInsert (s : StmtInsert)
  | SUpdate (s : StmtUpdate)
  | SDelete (s : StmtDelete)
  | SDropTable (s : StmtDropTable).

(** * Expression evaluation and display: db/eval.go *)

(** ** Operators *)

Definition isCmpOp (op : Z) : bool :=
  existsb (Z.eqb op) [OP_EQ; OP_NE; OP_LE; OP_GE; OP_LT; OP_GT].

(** The [int] of [cmp.Compare] and [bytes.Compare]. *)
Definition cmp_int (c : comparison) : Z := match c with Lt => -1 | Eq => 0 | Gt => 1 end.

Definition cmpResult (op r : Z) : bool :=
  if op =? OP_EQ then r =? 0
  else if op =? OP_NE then negb (r =? 0)
  else if op =? OP_LE then r <=? 0
  else if op =? OP_GE then 0 <=? r
  else if op =? OP_LT then r <? 0
  else if op =? OP_GT then 0 <? r
  else false.

Definition boolCell (b : bool) : Cell := MkCell TypeI64 (if b then 1 else 0) [].

(** The comparison of two cells of one type. *)
Definition compareCells (left right : Cell) : res Z :=
  if decide (c_type left = TypeI64) then Ok (cmp_int (c_i64 left ?= c_i64 right))
  else if decide (c_type left = TypeStr) then Ok (cmp_int (bytes_compare (c_str left) (c_str right)))
  else Err (errorsNew "bad cell type").

(** The loop of [evalTupleCmp]: the first difference decides.  The kids come
    evaluated; those behind the first difference or error are not looked at. *)
Fixpoint tuple_cmp_loop (r : Z) (ls rs : list (res Cell)) : res Z :=
  match ls, rs with
  | l :: ls, x :: rs =>
      lc ← l;
      rc ← x;
      if negb (bool_decide (c_type lc = c_type rc)) then Err (errorsNew "binary op type mismatch") else
      r ← compareCells lc rc;
      if negb (r =? 0) then Ok r else tuple_cmp_loop r ls rs
  | _, _ => Ok r
  end.

Definition evalTupleCmp (op : Z) (left right : list (res Cell)) : res Cell :=
  if negb (length left =? length right)%nat then Err (errorsNew "tuple comparison arity mismatch") else
  r ← tuple_cmp_loop 0 left right;
  Ok (boolCell (cmpResult op r)).

Definition evalUnOp (op : Z) (kid : Cell) : res Cell :=
  if (op =? OP_NEG) && bool_decide (c_type kid = TypeI64) then Ok (MkCell TypeI64 (s64 (- c_i64 kid)) [])
  else if (op =? OP_NOT) && bool_decide (c_type kid = TypeI64) then Ok (boolCell (c_i64 kid =? 0))
  else Err (errorsNew "bad unary op").

Definition evalBinOp (op : Z) (left right : Cell) : res Cell :=
  if negb (bool_decide (c_type left = c_type right)) then Err (errorsNew "binary op type mismatch") else
  if isCmpOp op then r ← compareCells left right; Ok (boolCell (cmpResult op r)) else
  let str := bool_decide (c_type left = TypeStr) in
  let i64 := bool_decide (c_type left = TypeI64) in
  let int n := Ok (MkCell TypeI64 n []) in
  if (op =? OP_ADD) && str then
    if MaxEntrySize <? Z.of_nat (length (c_str left) + length (c_str right))
    then Err (errorsNew "string too large")
    else Ok (MkCell TypeStr 0 (c_str left ++ c_str right))
  else if (op =? OP_ADD) && i64 then int (s64 (c_i64 left + c_i64 right))
  else if (op =? OP_SUB) && i64 then int (s64 (c_i64 left - c_i64 right))
  else if (op =? OP_MUL) && i64 then int (s64 (c_i64 left * c_i64 right))
  else if (op =? OP_DIV) && i64 then
    if c_i64 right =? 0 then Err (errorsNew "division by 0")
    else int (s64 (Z.quot (c_i64 left) (c_i64 right)))
  else if (op =? OP_AND) && i64 then
    Ok (boolCell (negb (c_i64 left =? 0) && negb (c_i64 right =? 0)))
  else if (op =? OP_OR) && i64 then
    Ok (boolCell (negb (c_i64 left =? 0) || negb (c_i64 right =? 0)))
  else Err (errorsNew "bad binary op").

(** [slices.IndexFunc] for a column name. *)
Fixpoint index_col (cols : list Column) (name : bytes) : option nat :=
  match cols with
  | [] => None
  | col :: cols => if bytes_equal (col_Name col) name then Some 0%nat else S <$> index_col cols name
  end.

(** ** Evaluation *)

Section eval.
Context (schema : Schema) (row : Row).

Fixpoint evalExprAt (e : expr) (depth : nat) : res Cell :=
  if (maxExprDepth <? depth)%nat then Err errTooDeep else
  match e with
  | EName name =>
      match index_col (sc_Cols schema) name with
      | None => Err (errorsNew "unknown column")
      | Some idx => go_index row idx
      end
  | ECell cell => Ok cell
  | EUnOp op kid => c ← evalExprAt kid (S depth); evalUnOp op c
  | EBinOp op el er =>
      let scalar _ :=
        l ← evalExprAt el (S depth);
        r ← evalExprAt er (S depth);
        evalBinOp op l r in
      if isCmpOp op then
        match el, er with
        | ETuple lt, ETuple rt =>
            evalTupleCmp op (map (fun k => evalExprAt k (S depth)) lt)
              (map (fun k => evalExprAt k (S depth)) rt)
        | ETuple _, _ | _, ETuple _ => Err (errorsNew "cannot compare a tuple with a scalar")
        | _, _ => scalar tt
        end
      else scalar tt
  | ETuple _ => Err (errorsNew "a tuple is not a value")
  | EStar => Err (errorsNew "unsupported expression")
  end.

Definition evalExpr (e : expr) : res Cell := evalExprAt e 0.

End eval.

(** ** Display *)

Definition cell2str (cell : Cell) : bytes :=
  if decide (c_type cell = TypeI64) then FormatInt (c_i64 cell)
  else if decide (c_type cell = TypeStr) then c_str cell
  else [].

Definition exprop2str (op : Z) : bytes :=
  if op =? OP_ADD then bs "+" else if op =? OP_SUB then bs "-" else
  if op =? OP_MUL then bs "*" else if op =? OP_DIV then bs "/" else
  if op =? OP_EQ then bs "=" else if op =? OP_NE then bs "!=" else
  if op =? OP_LE then bs "<=" else if op =? OP_GE then bs ">=" else
  if op =? OP_LT then bs "<" else if op =? OP_GT then bs ">" else
  if op =? OP_AND then bs "AND" else if op =? OP_OR then bs "OR" else
  if op =? OP_NOT then bs "NOT" else if op =? OP_NEG then bs "-" else bs "?".

(** [strings.Join(parts, ", ")] *)
Fixpoint join_comma (parts : list bytes) : bytes :=
  match parts with
  | [] => []
  | [p] => p
  | p :: ps => p ++ bs ", " ++ join_comma ps
  end.

Fixpoint expr2strAt (e : expr) (depth : nat) : bytes :=
  if (maxExprDepth <? depth)%nat then bs "..." else
  match e with
  | EName name => name
  | ECell cell => cell2str cell
  | EStar => bs "*"
  | EUnOp op kid =>
      if op =? OP_NEG then bs "-" ++ expr2strAt kid (S depth)
      else if op =? OP_NOT then bs "NOT " ++ expr2strAt kid (S depth)
      else bs "?"
  | EBinOp op el er =>
      bs "(" ++ expr2strAt el (S depth) ++ bs " " ++ exprop2str op ++ bs " " ++
        expr2strAt er (S depth) ++ bs ")"
  | ETuple kids => bs "(" ++ join_comma (map (fun k => expr2strAt k (S depth)) kids) ++ bs ")"
  end.

Definition expr2str (e : expr) : bytes := expr2strAt e 0.
Definition exprs2header (cols : list expr) : list bytes := map expr2str cols.
