(* ===== verification/EvalProofs.v ===== *)
(** * Evaluation is total and type sound

    [evalExpr] returns on every expression; on an expression that has a static
    type it yields a cell of that type or one of the run-time errors; tuples
    compare lexicographically. *)

From Stdlib Require Import ZArith Lia.
From Stdlib.Strings Require Import Byte.
From stdpp Require Import base list numbers.
From S2P Require Import Prelude GoLib Cell Row RowProofs Entry Sql.

Open Scope Z_scope.

(** ** Columns *)

Lemma index_col_Some cols name idx :
  index_col cols name = Some idx → ∃ col, cols !! idx = Some col ∧ col_Name col = name.
Proof.
  revert idx. induction cols as [|col cols IH]; intros idx; cbn; [done|].
  destruct (bytes_equal (col_Name col) name) eqn:E.
  - intros [= <-]. exists col. by apply bytes_equal_eq in E.
  - destruct (index_col cols name) as [i|] eqn:Ei; [|done]. intros [= <-]. by apply IH.
Qed.

(** ** Operators *)

Lemma compareCells_spec a b :
  (c_type a = TypeI64 ∨ c_type a = TypeStr) → compareCells a b = Ok (cmp_int (cell_compare a b)).
Proof.
  intros Ht. unfold compareCells, cell_compare. destruct (decide (c_type a = TypeI64)); [done|].
  destruct (decide (c_type a = TypeStr)); [done|]. by destruct Ht.
Qed.

Lemma cell_ok_type c : cell_ok c → c_type c = TypeI64 ∨ c_type c = TypeStr.
Proof. intros [(? & _)|(? & _)]; auto. Qed.

Lemma boolCell_ok b : cell_ok (boolCell b).
Proof. left. split_and!; [done| |done]. unfold is_i64. cbn. destruct b; lia. Qed.

Lemma int_ok n : cell_ok (MkCell TypeI64 (s64 n) []).
Proof. left. split_and!; [done|apply s64_range|done]. Qed.

Lemma compareCells_returns a b : returns (compareCells a b).
Proof. unfold compareCells. repeat case_decide; done. Qed.

Lemma evalUnOp_returns op c : returns (evalUnOp op c).
Proof. unfold evalUnOp. auto using returns_if with pallas. repeat case_if; done. Qed.

Lemma evalBinOp_returns op a b : returns (evalBinOp op a b).
Proof.
  unfold evalBinOp. cbv zeta. repeat apply returns_if; try done.
  apply returns_bind; [apply compareCells_returns|done].
Qed.

Lemma tuple_cmp_returns r ls rs :
  Forall returns ls → Forall returns rs → returns (tuple_cmp_loop r ls rs).
Proof.
  intros Hl. revert r rs. induction Hl as [|l ls Hl _ IH]; intros r rs Hr; [done|].
  inversion Hr as [|x rs' Hx Hr']; subst; [done|]. cbn [tuple_cmp_loop].
  apply returns_bind; [done|]. intros lc _. apply returns_bind; [done|]. intros rc _.
  apply returns_if; [done|]. apply returns_bind; [apply compareCells_returns|]. intros r' _.
  apply returns_if; [done|]. by apply IH.
Qed.

(** ** Totality *)

Section total.
Context (schema : Schema) (row : Row) (Hlen : length row = length (sc_Cols schema)).

(** What the induction carries: the kids of a tuple are evaluated one by one. *)
Definition ok_at (e : expr) : Prop :=
  (∀ depth, returns (evalExprAt schema row e depth)) ∧
  match e with
  | ETuple ks => Forall (fun k => ∀ depth, returns (evalExprAt schema row k depth)) ks
  | _ => True
  end.

Lemma eval_map_returns ks depth :
  Forall (fun k => ∀ depth, returns (evalExprAt schema row k depth)) ks →
  Forall returns (map (fun k => evalExprAt schema row k depth) ks).
Proof. intros Hk. apply List.Forall_map. eapply Forall_impl; [exact Hk|]. auto. Qed.

Lemma eval_ok_at e : ok_at e.
Proof.
  induction e as [n|c|op k [IH _]|op l r [IHl Kl] [IHr Kr]|ks IH|] using expr_ind'.
  1-4,6: split; [|done]; intros depth; cbn [evalExprAt]; case_if; try done.
  - destruct (index_col _ n) as [i|] eqn:Ei; [|done]. apply index_col_Some in Ei as (col & Hc & _).
    apply lookup_lt_Some in Hc. rewrite <- Hlen in Hc. apply lookup_lt_is_Some_2 in Hc as [c Hc].
    by rewrite (proj2 (go_index_ok _ _ _) Hc).
  - apply returns_bind; [done|]. intros c _. apply evalUnOp_returns.
  - assert (returns (c1 ← evalExprAt schema row l (S depth); c2 ← evalExprAt schema row r (S depth);
      evalBinOp op c1 c2)) as Hs.
    { apply returns_bind; [done|]. intros c1 _. apply returns_bind; [done|]. intros c2 _.
      apply evalBinOp_returns. }
    destruct (isCmpOp op); [|exact Hs]. destruct l, r; try exact Hs; try done.
    unfold evalTupleCmp. apply returns_if; [done|]. apply returns_bind; [|done].
    apply tuple_cmp_returns; by apply eval_map_returns.
  - split; [intros depth; cbn [evalExprAt]; by case_if|].
    eapply Forall_impl; [exact IH|]. by intros k [Hk _].
Qed.

(** No row and no expression makes the evaluator panic. *)
Lemma evalExpr_returns e : returns (evalExpr schema row e).
Proof. apply (proj1 (eval_ok_at e)). Qed.

End total.

(** ** Static types *)

Section typing.
Context (schema : Schema).

Definition arith_op (op : Z) : bool := existsb (Z.eqb op) [OP_SUB; OP_MUL; OP_DIV; OP_AND; OP_OR].

(** The type of [op] applied to two operands of types [a] and [b]. *)
Definition binop_type (op : Z) (a b : option byte) : option byte :=
  match a, b with
  | Some a, Some b =>
      if negb (bool_decide (a = b)) then None
      else if isCmpOp op then Some TypeI64
      else if op =? OP_ADD then Some a
      else if arith_op op && bool_decide (a = TypeI64) then Some TypeI64
      else None
  | _, _ => None
  end.

Definition is_typed (t : option byte) : bool := match t with Some _ => true | None => false end.

Fixpoint typeof (e : expr) : option byte :=
  match e with
  | EName name => i ← index_col (sc_Cols schema) name; col ← sc_Cols schema !! i; Some (col_Type col)
  | ECell cell => Some (c_type cell)
  | EUnOp op kid =>
      if (op =? OP_NEG) || (op =? OP_NOT)
      then t ← typeof kid; if bool_decide (t = TypeI64) then Some TypeI64 else None
      else None
  | EBinOp op l r =>
      if isCmpOp op then
        match l, r with
        | ETuple ls, ETuple rs =>
            if bool_decide (map typeof ls = map typeof rs) && forallb is_typed (map typeof ls)
            then Some TypeI64 else None
        | ETuple _, _ | _, ETuple _ => None
        | _, _ => binop_type op (typeof l) (typeof r)
        end
      else binop_type op (typeof l) (typeof r)
  | ETuple _ | EStar => None
  end.

(** How deep the evaluator descends: a tuple is looked into at the depth of its
    comparison. *)
Fixpoint height (e : expr) : nat :=
  match e with
  | EUnOp _ kid => S (height kid)
  | EBinOp _ l r => S (Nat.max (height l) (height r))
  | ETuple kids => list_max (map height kids)
  | _ => 0
  end.

(** Every literal is a well-formed cell. *)
Fixpoint lits_ok (e : expr) : Prop :=
  match e with
  | ECell cell => cell_ok cell
  | EUnOp _ kid => lits_ok kid
  | EBinOp _ l r => lits_ok l ∧ lits_ok r
  | ETuple kids => foldr and True (map lits_ok kids)
  | _ => True
  end.

(** A value of type [t], or an error that only the values decide. *)
Definition eval_result (t : byte) (r : res Cell) : Prop :=
  (∃ c, r = Ok c ∧ c_type c = t ∧ cell_ok c) ∨
  r = Err (errorsNew "division by 0") ∨ r = Err (errorsNew "string too large").

Lemma eval_result_bind t t' m f :
  eval_result t m → (∀ c, c_type c = t → cell_ok c → eval_result t' (f c)) → eval_result t' (m ≫= f).
Proof.
  intros [(c & -> & Ht & Hc)|[->| ->]] Hf; [by apply Hf|by right; left|by right; right].
Qed.

Lemma eval_result_int n : eval_result TypeI64 (Ok (MkCell TypeI64 (s64 n) [])).
Proof. left. eexists. split; [done|]. split; [done|apply int_ok]. Qed.

Lemma eval_result_bool b : eval_result TypeI64 (Ok (boolCell b)).
Proof. left. eexists. split; [done|]. split; [done|apply boolCell_ok]. Qed.

Lemma isCmpOp_not_arith op : isCmpOp op = false → (op =? OP_ADD) = true ∨ arith_op op = true →
  op = OP_ADD ∨ op = OP_SUB ∨ op = OP_MUL ∨ op = OP_DIV ∨ op = OP_AND ∨ op = OP_OR.
Proof.
  intros _ [H%Z.eqb_eq|H]; [by left|]. unfold arith_op in H. cbn in H.
  repeat (apply orb_true_iff in H as [H%Z.eqb_eq|H]; [by subst; tauto|]). done.
Qed.

Lemma evalBinOp_sound op a b t :
  cell_ok a → cell_ok b → binop_type op (Some (c_type a)) (Some (c_type b)) = Some t →
  eval_result t (evalBinOp op a b).
Proof.
  intros Ha Hb. unfold binop_type, evalBinOp. cbv zeta.
  destruct (bool_decide_reflect (c_type a = c_type b)) as [Hab|]; cbn [negb]; [|done].
  destruct (isCmpOp op) eqn:Ec.
  { intros [= <-]. rewrite compareCells_spec by (by apply cell_ok_type). apply eval_result_bool. }
  destruct (cell_ok_type _ Ha) as [Ht|Ht].
  - assert ((op =? OP_ADD) = true ∨ arith_op op = true → eval_result TypeI64 (evalBinOp op a b)) as Hs.
    { intros Hop. unfold evalBinOp. rewrite Ec. cbv zeta.
      rewrite (bool_decide_true (c_type a = c_type b)) by done. rewrite Ht. cbn [negb].
      rewrite (bool_decide_false (TypeI64 = TypeStr)), (bool_decide_true (TypeI64 = TypeI64)) by done.
      destruct (isCmpOp_not_arith op Ec Hop) as [->|[->|[->|[->|[->| ->]]]]]; cbn -[s64 boolCell Z.quot];
        try apply eval_result_int; try apply eval_result_bool.
      destruct (c_i64 b =? 0); [by right; left|apply eval_result_int]. }
    unfold evalBinOp in Hs. rewrite bool_decide_true, Ec in Hs by done. cbv zeta in Hs. cbn [negb] in Hs.
    rewrite Ht in Hs |- *. destruct (op =? OP_ADD) eqn:Ea.
    + intros [= <-]. apply Hs. by left.
    + rewrite bool_decide_true, andb_true_r by done. destruct (arith_op op); [|done].
      intros [= <-]. apply Hs. by right.
  - rewrite Ht. destruct (op =? OP_ADD) eqn:Ea; [|by rewrite andb_false_r].
    intros [= <-]. rewrite (bool_decide_true (TypeStr = TypeStr)) by done. cbn [andb].
    destruct (Z.ltb_spec MaxEntrySize (Z.of_nat (length (c_str a) + length (c_str b)))) as [Hl|Hl];
      [by right; right|]. left. eexists. split; [done|]. split; [done|]. right. split_and!; [done|done|].
    cbn [c_str]. rewrite length_app. unfold MaxEntrySize in Hl. lia.
Qed.

Lemma typeof_cmp_scalar op l r :
  isCmpOp op = true → (∀ ks, l ≠ ETuple ks) → (∀ ks, r ≠ ETuple ks) →
  typeof (EBinOp op l r) = binop_type op (typeof l) (typeof r).
Proof.
  intros Ho Hl Hr. cbn [typeof]. rewrite Ho.
  destruct l; try (exfalso; by eapply Hl); destruct r; try (exfalso; by eapply Hr); done.
Qed.

(** The comparison of two typed tuples. *)
Lemma tuple_cmp_sound ts ls rs r :
  Forall2 eval_result ts ls → Forall2 eval_result ts rs →
  (∃ r', tuple_cmp_loop r ls rs = Ok r') ∨
  tuple_cmp_loop r ls rs = Err (errorsNew "division by 0") ∨
  tuple_cmp_loop r ls rs = Err (errorsNew "string too large").
Proof.
  intros Hl. revert r rs. induction Hl as [|t l ts ls Hl _ IH]; intros r rs Hr; inversion Hr; subst; [eauto|].
  cbn [tuple_cmp_loop]. destruct Hl as [(lc & -> & Hlt & Hlc)|[->| ->]]; rs; [|by auto..].
  match goal with H : eval_result _ _ |- _ => destruct H as [(rc & -> & Hrt & Hrc)|[->| ->]] end; rs; [|by auto..].
  rewrite bool_decide_true by congruence. cbn [negb].
  rewrite compareCells_spec by (by apply cell_ok_type). rs.
  destruct (_ =? 0); cbn [negb]; [|by eauto]. by apply IH.
Qed.

Section sound.
Context (row : Row) (Hrow : row_ok schema row).

Definition sound_at (e : expr) : Prop :=
  ∀ depth, (depth + height e ≤ maxExprDepth)%nat → lits_ok e →
    (∀ t, typeof e = Some t → eval_result t (evalExprAt schema row e depth)) ∧
    match e with
    | ETuple ks => Forall (fun k => ∀ t, typeof k = Some t → eval_result t (evalExprAt schema row k depth)) ks
    | _ => True
    end.

Lemma eval_tuple_kids ks ts depth :
  Forall (fun k => ∀ t, typeof k = Some t → eval_result t (evalExprAt schema row k depth)) ks →
  map typeof ks = map Some ts → Forall2 eval_result ts (map (fun k => evalExprAt schema row k depth) ks).
Proof.
  intros Hk. revert ts. induction Hk as [|k ks Hk _ IH]; intros [|t ts]; cbn; try done.
  intros [= Ht Hts]. constructor; auto.
Qed.

Lemma typed_all ts : forallb is_typed ts = true → ∃ us, ts = map Some us.
Proof.
  induction ts as [|[t|] ts IH]; cbn; [by exists []| |done].
  intros H. destruct (IH H) as [us ->]. by exists (t :: us).
Qed.

Lemma eval_sound_at e : sound_at e.
Proof.
  induction e as [n|c|op k IH|op l r IHl IHr|ks IH|] using expr_ind'; intros depth Hd Hlit.
  1-4,6: split; [|done]; intros t Ht; cbn [evalExprAt];
    replace (maxExprDepth <? depth)%nat with false by (symmetry; apply Nat.ltb_ge; lia).
  - cbn [typeof] in Ht. destruct (index_col _ n) as [i|] eqn:Ei; [|done]. cbn in Ht.
    destruct (sc_Cols schema !! i) as [col|] eqn:Ec; [|done]. injection Ht as <-.
    destruct (Forall2_lookup_r _ _ _ _ _ Hrow Ec) as (c & Hc & Hok & Htc).
    left. exists c. by rewrite (proj2 (go_index_ok _ _ _) Hc).
  - left. exists c. by injection Ht as <-.
  - cbn [height lits_ok typeof] in *. destruct ((op =? OP_NEG) || (op =? OP_NOT)) eqn:Eop; [|done].
    destruct (typeof k) as [tk|] eqn:Ek; [|done]. cbn in Ht.
    destruct (bool_decide_reflect (tk = TypeI64)) as [->|]; [|done]. injection Ht as <-.
    apply (eval_result_bind TypeI64); [apply IH; [lia|done|done]|]. intros c Hct Hc.
    unfold evalUnOp. rewrite bool_decide_true, !andb_true_r by done.
    apply orb_true_iff in Eop as [Hop|Hop]; rewrite Hop; [apply eval_result_int|].
    destruct (op =? OP_NEG); [apply eval_result_int|apply eval_result_bool].
  - cbn [height lits_ok] in *. destruct Hlit as [Hll Hlr].
    destruct (IHl (S depth)) as [Sl Kl]; [lia|done|]. destruct (IHr (S depth)) as [Sr Kr]; [lia|done|].
    assert (binop_type op (typeof l) (typeof r) = Some t →
      eval_result t (c1 ← evalExprAt schema row l (S depth); c2 ← evalExprAt schema row r (S depth);
        evalBinOp op c1 c2)) as Hs.
    { intros Hb. destruct (typeof l) as [tl|] eqn:El, (typeof r) as [tr|] eqn:Er; try done.
      apply (eval_result_bind tl); [by apply Sl|]. intros c1 Ht1 Hc1.
      apply (eval_result_bind tr); [by apply Sr|]. intros c2 Ht2 Hc2.
      apply evalBinOp_sound; try done. by rewrite Ht1, Ht2. }
    destruct (isCmpOp op) eqn:Ec; [|apply Hs; cbn [typeof] in Ht; by rewrite Ec in Ht].
    cbn [typeof] in Ht. rewrite Ec in Ht.
    destruct l as [| | | |ls|], r as [| | | |rs|]; try (by apply Hs); try done.
    destruct (bool_decide_reflect (map typeof ls = map typeof rs)) as [Heq|]; [|done].
    destruct (forallb _ _) eqn:Eall; [|done]. injection Ht as <-.
    apply typed_all in Eall as [ts Ets].
    assert (map typeof rs = map Some ts) as Ers by congruence.
    unfold evalTupleCmp. rewrite !length_map.
    apply (f_equal length) in Heq. rewrite !length_map in Heq. rewrite Heq, Nat.eqb_refl. cbn [negb].
    destruct (tuple_cmp_sound ts _ _ 0 (eval_tuple_kids _ _ _ Kl Ets) (eval_tuple_kids _ _ _ Kr Ers))
      as [[r' ->]|[->| ->]]; rs; [apply eval_result_bool|by right; left|by right; right].
  - done.
  - split; [done|]. cbn [height lits_ok] in *. clear -IH Hd Hlit. induction IH as [|k ks IHk _ IHks]; constructor.
    all: change (list_max (map height (k :: ks))) with (Nat.max (height k) (list_max (map height ks))) in Hd.
    all: destruct Hlit as [Hlk Hlks].
    + apply IHk; [lia|done].
    + apply IHks; [lia|done].
Qed.

(** An expression with a static type evaluates to a cell of that type, or
    fails with a division by zero or an oversized concatenation. *)
Lemma eval_sound e t :
  (height e ≤ maxExprDepth)%nat → lits_ok e → typeof e = Some t → eval_result t (evalExpr schema row e).
Proof. intros Hh Hl Ht. by apply (eval_sound_at e 0%nat). Qed.

End sound.

(** ** Tuples compare lexicographically *)

Lemma tuple_cmp_lex xs ys r :
  same_shape xs ys →
  tuple_cmp_loop r (map Ok xs) (map Ok ys) = Ok (if decide (xs = []) then r else cmp_int (cells_compare xs ys)).
Proof.
  intros Hs. revert r. induction Hs as [|x y xs ys (Hx & Hy & Ht) Hs IH]; intros r; [done|].
  cbn [map tuple_cmp_loop]. rs. rewrite bool_decide_true by done. cbn [negb].
  rewrite compareCells_spec by (by apply cell_ok_type). rs. cbn [cells_compare].
  rewrite decide_False by done. destruct (cell_compare x y); cbn [cmp_int Z.eqb negb]; [|done|done].
  rewrite IH. case_decide as Hn; [|done]. subst xs. by inversion Hs.
Qed.

End typing.
