(* ===== verification/Parser.v ===== *)
(** * The SQL parser: db/sql_parser.go

    A recursive-descent parser over the bytes of the statement.  Its state is
    the position and the nesting depth; a method returns the state it leaves
    behind, also when it fails.  Recursion into a sub-expression passes through
    [enter], which bounds it by [maxExprDepth]: that bound is the fuel of the
    recursive functions.  Every round of a loop consumes input, so the length
    of the input, plus one for the round that fails, is the fuel of the loops. *)

From Stdlib Require Import ZArith Lia.
From Stdlib.Strings Require Import Byte.
From stdpp Require Import base list numbers.
From S2P Require Import Prelude GoLib Cell Row Sql.

Open Scope Z_scope.

Record Parser := MkParser { p_buf : bytes; p_pos : nat; p_depth : nat }.

Definition NewParser (s : bytes) : Parser := MkParser s 0 0.

Definition set_pos (p : Parser) (pos : nat) : Parser := MkParser (p_buf p) pos (p_depth p).
Definition set_depth (p : Parser) (depth : nat) : Parser := MkParser (p_buf p) (p_pos p) depth.

(** The input that is left, [p.buf[p.pos:]]. *)
Definition p_rest (p : Parser) : bytes := drop (p_pos p) (p_buf p).

(** ** Characters *)

Definition isSpace (ch : byte) : bool := existsb (fun c => bool_decide (ch = c)) [x09; x0a; x0b; x0c; x0d; x20].

Definition in_span (lo hi : Z) (n : Z) : bool := (lo <=? n) && (n <=? hi).

(** [ch|32] folds the upper-case letters. *)
Definition isAlpha (ch : byte) : bool := in_span 97 122 (Z.lor (b2z ch) 32).
Definition isDigit (ch : byte) : bool := in_span 48 57 (b2z ch).
Definition isNameStart (ch : byte) : bool := isAlpha ch || bool_decide (ch = x5f).
Definition isNameContinue (ch : byte) : bool := isAlpha ch || isDigit ch || bool_decide (ch = x5f).
Definition isSeparator (ch : byte) : bool := (b2z ch <? 128) && negb (isNameContinue ch).

(** ** Tokens *)

(** [for cur < len(buf) && f(buf[cur]) { cur++ }], counted from the position. *)
Fixpoint span (f : byte → bool) (s : bytes) : nat :=
  match s with
  | ch :: s => if f ch then S (span f s) else 0
  | [] => 0
  end.

Definition skipSpaces (p : Parser) : Parser := set_pos p (p_pos p + span isSpace (p_rest p)).

(** [strings.EqualFold] against an ASCII word of the same number of bytes: no
    longer UTF-8 sequence can fold to it, so the folding is that of ASCII. *)
Definition lower (ch : byte) : byte := if in_span 65 90 (b2z ch) then z2b (b2z ch + 32) else ch.
Definition EqualFold (s t : bytes) : bool := bytes_equal (map lower s) (map lower t).

Fixpoint keyword_loop (save : nat) (p : Parser) (kws : list bytes) : Parser * bool :=
  match kws with
  | [] => (p, true)
  | kw :: kws =>
      let p := skipSpaces p in
      if (length (p_buf p) <? p_pos p + length kw)%nat || negb (EqualFold (take (length kw) (p_rest p)) kw)
      then (set_pos p save, false)
      else match p_buf p !! (p_pos p + length kw)%nat with
           | Some ch => if negb (isSeparator ch) then (set_pos p save, false)
                        else keyword_loop save (set_pos p (p_pos p + length kw)) kws
           | None => keyword_loop save (set_pos p (p_pos p + length kw)) kws
           end
  end.

Definition tryKeyword (p : Parser) (kws : list bytes) : Parser * bool := keyword_loop (p_pos p) p kws.

(** A failed [tryPunctuation] has skipped the spaces all the same. *)
Definition tryPunctuation (p : Parser) (tok : bytes) : Parser * bool :=
  let p := skipSpaces p in
  if (length (p_buf p) <? p_pos p + length tok)%nat || negb (bytes_equal (take (length tok) (p_rest p)) tok)
  then (p, false)
  else (set_pos p (p_pos p + length tok), true).

Definition tryName (p : Parser) : Parser * option bytes :=
  let p := skipSpaces p in
  match p_rest p with
  | ch :: s =>
      if negb (isNameStart ch) then (p, None) else
      let n := S (span isNameContinue s) in
      (set_pos p (p_pos p + n), Some (take n (p_rest p)))
  | [] => (p, None)
  end.

(** ** Literals *)

(** The loop of [parseString] behind the opening quote: the characters of the
    string and the bytes consumed, the closing quote included. *)
Fixpoint string_loop (quote : byte) (s : bytes) : res (bytes * nat) :=
  match s with
  | [] => Err (errorsNew "string is not terminated")
  | ch :: s =>
      if bool_decide (ch = x5c) then
        match s with
        | c :: s =>
            if bool_decide (c = x22) || bool_decide (c = x27) then
              '(str, n) ← string_loop quote s; Ok (c :: str, S (S n))
            else Err (errorsNew "bad escape")
        | [] => Err (errorsNew "bad escape")
        end
      else if bool_decide (ch = quote) then Ok ([], 1%nat)
      else '(str, n) ← string_loop quote s; Ok (ch :: str, S n)
  end.

Definition parseString (p : Parser) : Parser * res Cell :=
  match p_rest p with
  | [] => (p, Panic "index out of range")
  | quote :: s =>
      match string_loop quote s with
      | Ok (str, n) => (set_pos p (p_pos p + S n), Ok (MkCell TypeStr 0 str))
      | Err e => (p, Err e)
      | Panic m => (p, Panic m)
      | OutOfFuel => (p, OutOfFuel)
      end
  end.

Definition is_sign (ch : byte) : bool := bool_decide (ch = x2d) || bool_decide (ch = x2b).

Definition parseInt (p : Parser) : Parser * res Cell :=
  match p_rest p with
  | [] => (p, Panic "index out of range")
  | ch :: s =>
      let n := if is_sign ch then S (span isDigit s) else span isDigit (ch :: s) in
      match ParseInt (take n (p_rest p)) with
      | Ok v => (set_pos p (p_pos p + n), Ok (MkCell TypeI64 v []))
      | Err e => (p, Err e)
      | Panic m => (p, Panic m)
      | OutOfFuel => (p, OutOfFuel)
      end
  end.

Definition parseValue (p : Parser) : Parser * res Cell :=
  let p := skipSpaces p in
  match p_rest p with
  | [] => (p, Err (errorsNew "expect value"))
  | ch :: _ =>
      if bool_decide (ch = x22) || bool_decide (ch = x27) then parseString p
      else if isDigit ch || is_sign ch then parseInt p
      else (p, Err (errorsNew "expect value"))
  end.

(** ** Lists *)

(** [if !cond { return errors.New(msg) }] after a call that tries a token. *)
Definition expect (r : Parser * bool) (msg : string) : Parser * res unit :=
  match r with
  | (p, true) => (p, Ok tt)
  | (p, false) => (p, Err (errorsNew msg))
  end.

Definition expect_name (r : Parser * option bytes) (msg : string) : Parser * res bytes :=
  match r with
  | (p, Some name) => (p, Ok name)
  | (p, None) => (p, Err (errorsNew msg))
  end.

(** The loop of [parseCommaList]; [item] extends the accumulator. *)
Fixpoint comma_loop {A} (item : Parser → A → Parser * res A) (fuel : nat) (comma : bool) (p : Parser) (acc : A)
    : Parser * res A :=
  match tryPunctuation p (bs ")") with
  | (p, true) => (p, Ok acc)
  | (p, false) =>
      match fuel with
      | O => (p, OutOfFuel)
      | S fuel =>
          let! (p, _u) := (if comma then expect (tryPunctuation p (bs ",")) "expect ," else (p, Ok tt)) in
          let! (p, acc) := item p acc in
          comma_loop item fuel true p acc
      end
  end.

Definition parseCommaList {A} (item : Parser → A → Parser * res A) (p : Parser) (acc : A) : Parser * res A :=
  let! (p, _u) := expect (tryPunctuation p (bs "(")) "expect (" in
  comma_loop item (S (length (p_buf p))) false p acc.

(** ** Expressions *)

(** [enter] and the deferred [leave] around a call. *)
Definition nested {A} (f : Parser → Parser * res A) (p : Parser) : Parser * res A :=
  let p := set_depth p (S (p_depth p)) in
  if (maxExprDepth <? p_depth p)%nat then (set_depth p (p_depth p - 1), Err errTooDeep) else
  let (p, r) := f p in (set_depth p (p_depth p - 1), r).

Section levels.
(** [parseExpr] for the expressions inside parentheses. *)
Context (parseExpr : Parser → Parser * res expr).

Definition parseTuple (p : Parser) : Parser * res expr :=
  let! (p, kids) := parseCommaList (fun p kids =>
      let! (p, e) := parseExpr p in (p, Ok (kids ++ [e]))) p [] in
  (p, match kids with
      | [] => Err (errorsNew "empty tuple")
      | [e] => Ok e
      | _ => Ok (ETuple kids)
      end).

Definition parseAtom (p : Parser) : Parser * res expr :=
  match tryPunctuation p (bs "(") with
  | (p, true) => nested parseTuple (set_pos p (p_pos p - 1))
  | (p, false) =>
      match tryName p with
      | (p, Some name) => (p, Ok (EName name))
      | (p, None) => let! (p, cell) := parseValue p in (p, Ok (ECell cell))
      end
  end.

(** The first token of the list that is there, as punctuation or as a word. *)
Fixpoint try_ops (p : Parser) (toks : list (bytes * Z)) : Parser * option Z :=
  match toks with
  | [] => (p, None)
  | (tok, op) :: toks =>
      match tryPunctuation p tok with
      | (p, true) => (p, Some op)
      | (p, false) =>
          match tryKeyword p [tok] with
          | (p, true) => (p, Some op)
          | (p, false) => try_ops p toks
          end
      end
  end.

Fixpoint binop_loop (toks : list (bytes * Z)) (inner : Parser → Parser * res expr) (fuel : nat)
    (p : Parser) (el : expr) : Parser * res expr :=
  match try_ops p toks with
  | (p, None) => (p, Ok el)
  | (p, Some op) =>
      match fuel with
      | O => (p, OutOfFuel)
      | S fuel =>
          let! (p, er) := inner p in
          binop_loop toks inner fuel p (EBinOp op el er)
      end
  end.

Definition parseBinop (toks : list (bytes * Z)) (inner : Parser → Parser * res expr) (p : Parser)
    : Parser * res expr :=
  let! (p, el) := inner p in
  binop_loop toks inner (length (p_buf p)) p el.

Fixpoint parseNeg_at (fuel : nat) (p : Parser) : Parser * res expr :=
  match tryPunctuation p (bs "-") with
  | (p, true) =>
      match fuel with
      | O => (p, OutOfFuel)
      | S fuel => let! (p, kid) := nested (parseNeg_at fuel) p in (p, Ok (EUnOp OP_NEG kid))
      end
  | (p, false) => parseAtom p
  end.

Definition parseNeg : Parser → Parser * res expr := parseNeg_at (S maxExprDepth).

Definition mul_ops : list (bytes * Z) := [(bs "*", OP_MUL); (bs "/", OP_DIV)].
Definition add_ops : list (bytes * Z) := [(bs "+", OP_ADD); (bs "-", OP_SUB)].
Definition cmp_ops : list (bytes * Z) :=
  [(bs "=", OP_EQ); (bs "!=", OP_NE); (bs "<>", OP_NE); (bs "<=", OP_LE); (bs ">=", OP_GE);
   (bs "<", OP_LT); (bs ">", OP_GT)].
Definition and_ops : list (bytes * Z) := [(bs "AND", OP_AND)].
Definition or_ops : list (bytes * Z) := [(bs "OR", OP_OR)].

Definition parseMul : Parser → Parser * res expr := parseBinop mul_ops parseNeg.
Definition parseAdd : Parser → Parser * res expr := parseBinop add_ops parseMul.
Definition parseCmp : Parser → Parser * res expr := parseBinop cmp_ops parseAdd.

Fixpoint parseNot_at (fuel : nat) (p : Parser) : Parser * res expr :=
  match tryKeyword p [bs "NOT"] with
  | (p, true) =>
      match fuel with
      | O => (p, OutOfFuel)
      | S fuel => let! (p, kid) := nested (parseNot_at fuel) p in (p, Ok (EUnOp OP_NOT kid))
      end
  | (p, false) => parseCmp p
  end.

Definition parseNot : Parser → Parser * res expr := parseNot_at (S maxExprDepth).
Definition parseAnd : Parser → Parser * res expr := parseBinop and_ops parseNot.
Definition parseOr : Parser → Parser * res expr := parseBinop or_ops parseAnd.

End levels.

Fixpoint parseExpr_at (fuel : nat) (p : Parser) : Parser * res expr :=
  match fuel with
  | O => (p, OutOfFuel)
  | S fuel => parseOr (parseExpr_at fuel) p
  end.

Definition parseExpr : Parser → Parser * res expr := parseExpr_at (S maxExprDepth).

(** ** Statements *)

Definition parseEnd (p : Parser) : Parser * res unit := expect (tryPunctuation p (bs ";")) "expect ;".

Definition parseWhere (p : Parser) : Parser * res (option expr) :=
  match tryKeyword p [bs "WHERE"] with
  | (p, true) => let! (p, e) := parseExpr p in (p, Ok (Some e))
  | (p, false) => (p, Ok None)
  end.

Definition parseCount (p : Parser) : Parser * res Z :=
  let! (p, cell) := parseValue p in
  (p, if negb (bool_decide (c_type cell = TypeI64)) || (c_i64 cell <? 0)
      then Err (errorsNew "expect a non-negative integer") else Ok (c_i64 cell)).

(** The limit and the offset. *)
Definition parseLimit (p : Parser) : Parser * res (Z * Z) :=
  match tryKeyword p [bs "LIMIT"] with
  | (p, false) => (p, Ok (-1, 0))
  | (p, true) =>
      let! (p, limit) := parseCount p in
      match tryKeyword p [bs "OFFSET"] with
      | (p, false) => (p, Ok (limit, 0))
      | (p, true) => let! (p, offset) := parseCount p in (p, Ok (limit, offset))
      end
  end.

Definition tryStar (p : Parser) : Parser * bool :=
  let save := p_pos p in
  match tryPunctuation p (bs "*") with
  | (p, false) => (p, false)
  | (p, true) =>
      let star := p_pos p in
      match tryPunctuation p (bs ",") with
      | (p, true) => (set_pos p star, true)
      | (p, false) =>
          match tryKeyword p [bs "FROM"] with
          | (p, true) => (set_pos p star, true)
          | (p, false) => (set_pos p save, false)
          end
      end
  end.

Fixpoint select_cols (fuel : nat) (p : Parser) (cols : list expr) : Parser * res (list expr) :=
  match tryKeyword p [bs "FROM"] with
  | (p, true) => (p, Ok cols)
  | (p, false) =>
      match fuel with
      | O => (p, OutOfFuel)
      | S fuel =>
          let! (p, _u) := (if (0 <? length cols)%nat then expect (tryPunctuation p (bs ",")) "expect comma"
                           else (p, Ok tt)) in
          match tryStar p with
          | (p, true) => select_cols fuel p (cols ++ [EStar])
          | (p, false) =>
              let! (p, e) := parseExpr p in
              select_cols fuel p (cols ++ [e])
          end
      end
  end.

Definition parseSelect (p : Parser) : Parser * res StmtSelect :=
  let! (p, cols) := select_cols (S (length (p_buf p))) p [] in
  let! (p, _u) := (p, if (length cols =? 0)%nat then Err (errorsNew "expect column list") else Ok tt) in
  let! (p, table) := expect_name (tryName p) "expect table name" in
  let! (p, cond) := parseWhere p in
  let! (p, lim) := parseLimit p in
  let! (p, _u) := parseEnd p in
  (p, Ok (MkSelect table cols cond (fst lim) (snd lim))).

Definition parseNameItem (p : Parser) (out : list bytes) : Parser * res (list bytes) :=
  let! (p, name) := expect_name (tryName p) "expect name" in
  (p, Ok (out ++ [name])).

Definition column_type (kind : bytes) : res byte :=
  if bytes_equal kind (bs "int64") then Ok TypeI64
  else if bytes_equal kind (bs "string") then Ok TypeStr
  else Err (errorsNew "unknown column type").

Definition parseCreateTableItem (p : Parser) (out : StmtCreatTable) : Parser * res StmtCreatTable :=
  match tryKeyword p [bs "PRIMARY"; bs "KEY"] with
  | (p, true) =>
      let! (p, pkey) := parseCommaList parseNameItem p (ct_pkey out) in
      (p, Ok (MkCreate (ct_table out) (ct_cols out) pkey (ct_indices out)))
  | (p, false) =>
      match tryKeyword p [bs "INDEX"] with
      | (p, true) =>
          let! (p, index) := parseCommaList parseNameItem p [] in
          (p, Ok (MkCreate (ct_table out) (ct_cols out) (ct_pkey out) (ct_indices out ++ [index])))
      | (p, false) =>
          let! (p, name) := expect_name (tryName p) "expect name" in
          let! (p, kind) := expect_name (tryName p) "expect name" in
          let! (p, type) := (p, column_type kind) in
          (p, Ok (MkCreate (ct_table out) (ct_cols out ++ [MkColumn name type]) (ct_pkey out) (ct_indices out)))
      end
  end.

Definition parseCreateTable (p : Parser) : Parser * res StmtCreatTable :=
  let! (p, table) := expect_name (tryName p) "expect table name" in
  let! (p, out) := parseCommaList parseCreateTableItem p (MkCreate table [] [] []) in
  let! (p, _u) := parseEnd p in
  (p, Ok out).

Definition parseValueItem (p : Parser) (out : list Cell) : Parser * res (list Cell) :=
  let! (p, cell) := parseValue p in (p, Ok (out ++ [cell])).

Definition parseInsert (p : Parser) : Parser * res StmtInsert :=
  let! (p, table) := expect_name (tryName p) "expect table name" in
  let! (p, _u) := expect (tryKeyword p [bs "VALUES"]) "expect VALUES" in
  let! (p, value) := parseCommaList parseValueItem p [] in
  let! (p, _u) := parseEnd p in
  (p, Ok (MkInsert table value)).

Definition parseAssign (p : Parser) : Parser * res ExprAssign :=
  let! (p, column) := expect_name (tryName p) "expect column" in
  let! (p, _u) := expect (tryPunctuation p (bs "=")) "expect =" in
  let! (p, e) := parseExpr p in
  (p, Ok (MkAssign column e)).

Fixpoint assign_loop (fuel : nat) (p : Parser) (value : list ExprAssign) : Parser * res (list ExprAssign) :=
  match fuel with
  | O => (p, OutOfFuel)
  | S fuel =>
      let! (p, a) := parseAssign p in
      match tryPunctuation p (bs ",") with
      | (p, true) => assign_loop fuel p (value ++ [a])
      | (p, false) => (p, Ok (value ++ [a]))
      end
  end.

Definition parseUpdate (p : Parser) : Parser * res StmtUpdate :=
  let! (p, table) := expect_name (tryName p) "expect table name" in
  let! (p, _u) := expect (tryKeyword p [bs "SET"]) "expect SET" in
  let! (p, value) := assign_loop (S (length (p_buf p))) p [] in
  let! (p, cond) := parseWhere p in
  let! (p, _u) := parseEnd p in
  (p, Ok (MkUpdate table cond value)).

Definition parseDelete (p : Parser) : Parser * res StmtDelete :=
  let! (p, table) := expect_name (tryName p) "expect table name" in
  let! (p, cond) := parseWhere p in
  let! (p, _u) := parseEnd p in
  (p, Ok (MkDelete table cond)).

Definition parseDropTable (p : Parser) : Parser * res StmtDropTable :=
  let! (p, table) := expect_name (tryName p) "expect table name" in
  let! (p, _u) := parseEnd p in
  (p, Ok (MkDrop table)).

Definition parseStmt (p : Parser) : Parser * res stmt :=
  match tryKeyword p [bs "SELECT"] with
  | (p, true) => let! (p, s) := parseSelect p in (p, Ok (SSelect s))
  | (p, false) =>
  match tryKeyword p [bs "CREATE"; bs "TABLE"] with
  | (p, true) => let! (p, s) := parseCreateTable p in (p, Ok (SCreateTable s))
  | (p, false) =>
  match tryKeyword p [bs "INSERT"; bs "INTO"] with
  | (p, true) => let! (p, s) := parseInsert p in (p, Ok (SInsert s))
  | (p, false) =>
  match tryKeyword p [bs "UPDATE"] with
  | (p, true) => let! (p, s) := parseUpdate p in (p, Ok (SUpdate s))
  | (p, false) =>
  match tryKeyword p [bs "DELETE"; bs "FROM"] with
  | (p, true) => let! (p, s) := parseDelete p in (p, Ok (SDelete s))
  | (p, false) =>
  match tryKeyword p [bs "DROP"; bs "TABLE"] with
  | (p, true) => let! (p, s) := parseDropTable p in (p, Ok (SDropTable s))
  | (p, false) => (p, Err (errorsNew "unknown statement"))
  end end end end end end.

Definition isEnd (p : Parser) : bool :=
  let p := skipSpaces p in (length (p_buf p) <=? p_pos p)%nat.

Definition ParseStmt (s : bytes) : res stmt :=
  let (p, r) := parseStmt (NewParser s) in
  out ← r;
  if negb (isEnd p) then Err (errorsNew "trailing garbage after the statement") else Ok out.
