(* ===== verification/ParserProofs.v ===== *)
(** * The parser is total

    Every method keeps the input, restores the depth, moves the position
    forward and, when it succeeds, consumes what it stands for; hence no index
    is out of range and the fuel of every loop and of every recursion is
    enough. *)

From Stdlib Require Import ZArith Lia.
From Stdlib.Strings Require Import Byte.
From stdpp Require Import base list numbers.
From S2P Require Import Prelude GoLib Cell Row Sql Parser.

Open Scope nat_scope.

(** [p'] is [p] moved forward by at least [n] bytes. *)
Record adv (n : nat) (p p' : Parser) : Prop := {
  adv_buf : p_buf p' = p_buf p;
  adv_depth : p_depth p' = p_depth p;
  adv_pos : p_pos p + n ≤ p_pos p' ≤ length (p_buf p);
}.

(** The position is inside the input and the depth within bounds. *)
Definition p_ok (p : Parser) : Prop := p_pos p ≤ length (p_buf p) ∧ p_depth p ≤ maxExprDepth.

Lemma adv_refl p : p_ok p → adv 0 p p.
Proof. intros [? _]. constructor; [done..|lia]. Qed.

Lemma adv_trans n m p p1 p2 : adv n p p1 → adv m p1 p2 → adv (n + m) p p2.
Proof. intros [E1 D1 P1] [E2 D2 P2]. rewrite E1 in *. constructor; [done|congruence|lia]. Qed.

Lemma adv_weaken n m p p' : m ≤ n → adv n p p' → adv m p p'.
Proof. intros Hm [E D P]. constructor; [done..|lia]. Qed.

Lemma adv_ok n p p' : p_ok p → adv n p p' → p_ok p'.
Proof. intros [H1 H2] [E D P]. unfold p_ok. rewrite E, D. lia. Qed.

Lemma adv_set_pos n p pos : p_pos p + n ≤ pos ≤ length (p_buf p) → adv n p (set_pos p pos).
Proof. intros H. by constructor. Qed.

(** A token that is tried: the position never moves back, and moves over at
    least [n] bytes when the token is there. *)
Definition tries {A} (n : nat) (p : Parser) (m : Parser * A) (hit : A → bool) : Prop :=
  adv (if hit (snd m) then n else 0) p (fst m).

(** A call that returns, and whose success consumes at least [n] bytes. *)
Definition runs {A} (n : nat) (p : Parser) (m : Parser * res A) : Prop :=
  returns (snd m) ∧ ∀ p' a, m = (p', Ok a) → adv n p p'.

Lemma runs_err {A} n p p' e : runs n p (p', @Err A e).
Proof. by split. Qed.

Lemma runs_ok {A} n p p' (a : A) : adv n p p' → runs n p (p', Ok a).
Proof. intros H. split; [done|]. by intros ? ? [= <- _]. Qed.

Lemma runs_weaken {A} n m p (r : Parser * res A) : m ≤ n → runs n p r → runs m p r.
Proof. intros Hm [H1 H2]. split; [done|]. intros p' a E. eapply adv_weaken; eauto. Qed.

Lemma runs_bind {A B} n m p (r : Parser * res A) (f : Parser → A → Parser * res B) :
  p_ok p → runs n p r → (∀ p' a, p_ok p' → p_depth p' = p_depth p → adv n p p' → runs m p' (f p' a)) →
  runs (n + m) p (bindS r f).
Proof.
  intros Hp [H1 H2] Hf. destruct r as [p1 [a|e|s|]]; cbn in *; try done.
  - pose proof (H2 p1 a eq_refl) as Ha. destruct (Hf p1 a) as [F1 F2]; [by eapply adv_ok|apply Ha|done|].
    split; [done|]. intros p' b E. eapply adv_trans; [done|]. by eapply F2.
Qed.

Lemma runs_from {A} n m p p1 (r : Parser * res A) : adv n p p1 → runs m p1 r → runs (n + m) p r.
Proof. intros Ha [H1 H2]. split; [done|]. intros p' a E. eapply adv_trans; eauto. Qed.

(** ** Characters and tokens *)

Lemma span_le f s : span f s ≤ length s.
Proof. induction s as [|ch s IH]; cbn; [lia|]. destruct (f ch); lia. Qed.

Lemma p_rest_length p : length (p_rest p) = length (p_buf p) - p_pos p.
Proof. apply length_drop. Qed.

Lemma skipSpaces_adv p : p_ok p → adv 0 p (skipSpaces p).
Proof.
  intros [Hp _]. apply adv_set_pos. pose proof (span_le isSpace (p_rest p)). rewrite p_rest_length in *. lia.
Qed.

Lemma keyword_loop_tries save kws : ∀ p n p0,
  p_ok p → p_pos p0 = save → adv n p0 p → Forall (fun kw => kw ≠ []) kws →
  tries (n + length kws) p0 (keyword_loop save p kws) id.
Proof.
  induction kws as [|kw kws IH]; intros p n p0 Hp Hs Ha Hkw; cbn [keyword_loop].
  - unfold tries. cbn. by rewrite Nat.add_0_r.
  - inversion Hkw as [|? ? Hne Hkw']; subst. pose proof (skipSpaces_adv p Hp) as Hsp.
    pose proof (adv_trans _ _ _ _ _ Ha Hsp) as Ha2. pose proof (adv_ok _ _ _ Hp Hsp) as Hp2.
    set (q := skipSpaces p) in *.
    assert (tries (n + length (kw :: kws)) p0 (set_pos q (p_pos p0), false) id) as Hfail.
    { unfold tries. cbn. destruct Ha2 as [E D P]. constructor; cbn; [done..|lia]. }
    destruct ((length (p_buf q) <? p_pos q + length kw) || negb (EqualFold (take (length kw) (p_rest q)) kw))
      eqn:E; [done|].
    apply orb_false_iff in E as [E%Nat.ltb_ge _].
    assert (tries (n + length (kw :: kws)) p0 (keyword_loop (p_pos p0) (set_pos q (p_pos q + length kw)) kws) id) as Hgo.
    { replace (n + length (kw :: kws)) with (n + 0 + 1 + length kws) by (cbn; lia).
      assert (adv 1 q (set_pos q (p_pos q + length kw))) as Hq.
      { apply adv_set_pos. destruct kw; [done|cbn in *; lia]. }
      apply IH; [by eapply adv_ok|done|by eapply adv_trans|done]. }
    destruct (p_buf q !! (p_pos q + length kw)) as [ch|]; [|done]. by destruct (isSeparator ch).
Qed.

Lemma tryKeyword_tries p kws :
  p_ok p → Forall (fun kw => kw ≠ []) kws → tries (length kws) p (tryKeyword p kws) id.
Proof. intros Hp Hk. apply (keyword_loop_tries _ _ p 0 p); [done|done|by apply adv_refl|done]. Qed.

Lemma tryPunctuation_tries p tok : p_ok p → tries (length tok) p (tryPunctuation p tok) id.
Proof.
  intros Hp. unfold tryPunctuation. pose proof (skipSpaces_adv p Hp) as Hsp. set (q := skipSpaces p) in *.
  destruct ((length (p_buf q) <? p_pos q + length tok) || negb (bytes_equal (take (length tok) (p_rest q)) tok))
    eqn:E; [done|].
  apply orb_false_iff in E as [E%Nat.ltb_ge _]. unfold tries. cbn [id fst snd].
  apply (adv_trans 0 (length tok) _ q); [done|]. apply adv_set_pos. lia.
Qed.

Lemma tryName_tries p : p_ok p → tries 1 p (tryName p) (fun o => match o with Some _ => true | None => false end).
Proof.
  intros Hp. unfold tryName. pose proof (skipSpaces_adv p Hp) as Hsp. set (q := skipSpaces p) in *.
  pose proof (p_rest_length q) as Hl. destruct (p_rest q) as [|ch s] eqn:E; [done|].
  destruct (isNameStart ch); cbn [negb]; [|done]. unfold tries. cbn [fst snd].
  apply (adv_trans 0 1 _ q); [done|]. apply adv_set_pos. pose proof (span_le isNameContinue s). cbn [length] in Hl. lia.
Qed.

(** ** Literals *)

Lemma string_loop_spec quote s :
  returns (string_loop quote s) ∧ ∀ str n, string_loop quote s = Ok (str, n) → n ≤ length s.
Proof.
  assert (∃ k, length s ≤ k) as [k Hle] by eauto. revert s Hle. induction k as [|k IH]; intros s Hle; (destruct s as [|ch s]; [done|]); cbn [length] in *; [lia|].
  cbn [string_loop]. destruct (bool_decide (ch = x5c)).
  - destruct s as [|c s]; [done|]. cbn [length] in *. destruct (_ || _); [|done].
    destruct (IH s) as [H1 H2]; [lia|]. destruct (string_loop quote s) as [[str n]|e|m|]; try done.
    split; [done|]. intros str' n' [= <- <-]. specialize (H2 _ _ eq_refl). lia.
  - destruct (bool_decide (ch = quote)); [split; [done|]; intros ? ? [= <- <-]; lia|].
    destruct (IH s) as [H1 H2]; [lia|]. destruct (string_loop quote s) as [[str n]|e|m|]; try done.
    split; [done|]. intros str' n' [= <- <-]. specialize (H2 _ _ eq_refl). lia.
Qed.

Lemma ParseInt_returns s : returns (ParseInt s).
Proof. unfold ParseInt. destruct (split_sign s) as [neg ds]. repeat case_if; done. Qed.

Lemma parseValue_runs p : p_ok p → runs 1 p (parseValue p).
Proof.
  intros Hp. unfold parseValue. pose proof (skipSpaces_adv p Hp) as Hsp. set (q := skipSpaces p) in *.
  pose proof (p_rest_length q) as Hl. destruct (p_rest q) as [|ch s] eqn:E; [apply runs_err|].
  cbn [length] in Hl. apply (runs_from 0 1 _ q); [done|]. destruct (_ || _).
  - unfold parseString. rewrite E. destruct (string_loop_spec ch s) as [H1 H2].
    destruct (string_loop ch s) as [[str n]|e|m|]; try done.
    apply runs_ok, adv_set_pos. specialize (H2 _ _ eq_refl). lia.
  - destruct (isDigit ch || is_sign ch) eqn:Ed; [|apply runs_err].
    unfold parseInt. rewrite E. pose proof (ParseInt_returns) as Hr.
    set (n := if is_sign ch then _ else _). specialize (Hr (take n (ch :: s))).
    assert (1 ≤ n ≤ length (ch :: s)) as Hn.
    { unfold n. destruct (is_sign ch); [pose proof (span_le isDigit s); cbn; lia|].
      rewrite orb_false_r in Ed. pose proof (span_le isDigit (ch :: s)). cbn [span] in *. rewrite Ed in *. cbn in *. lia. }
    destruct (ParseInt (take n (ch :: s))); try done.
    apply runs_ok, adv_set_pos. cbn [length] in Hn. lia.
Qed.

(** ** Lists *)

Lemma expect_runs n p m msg : tries n p m id → runs n p (expect m msg).
Proof. destruct m as [p' []]; intros H; cbn; [by apply runs_ok|apply runs_err]. Qed.

Lemma expect_name_runs p msg : p_ok p → runs 1 p (expect_name (tryName p) msg).
Proof.
  intros Hp. pose proof (tryName_tries p Hp) as H. destruct (tryName p) as [p' [name|]]; cbn;
    [by apply runs_ok|apply runs_err].
Qed.

Lemma punct_runs p tok msg : p_ok p → runs (length tok) p (expect (tryPunctuation p tok) msg).
Proof. intros Hp. by apply expect_runs, tryPunctuation_tries. Qed.

(** Split on the outcome of a token that is tried. *)
Ltac try_token H :=
  match goal with
  | Hp : p_ok ?p |- context [tryPunctuation ?p ?tok] =>
      pose proof (tryPunctuation_tries p tok Hp) as H; unfold tries in H;
      destruct (tryPunctuation p tok) as [? []]; cbn [fst snd id length bs] in H
  | Hp : p_ok ?p |- context [tryKeyword ?p ?kws] =>
      pose proof (tryKeyword_tries p kws Hp ltac:(repeat constructor; discriminate)) as H; unfold tries in H;
      destruct (tryKeyword p kws) as [? []]; cbn [fst snd id length] in H
  end.

Section lists.
Context {A : Type} (item : Parser → A → Parser * res A) (d : nat).
Hypothesis item_runs : ∀ p acc, p_ok p → p_depth p = d → runs 1 p (item p acc).

Lemma comma_loop_runs fuel : ∀ comma p acc,
  p_ok p → p_depth p = d → length (p_buf p) - p_pos p < fuel → runs 1 p (comma_loop item fuel comma p acc).
Proof.
  induction fuel as [|fuel IH]; intros comma p acc Hp Hd Hf; [lia|]. cbn [comma_loop]; try_token Ht.
  - by apply runs_ok.
  - apply (runs_from 0 1 _ p0); [done|]. pose proof (adv_ok _ _ _ Hp Ht) as Hp0.
    apply (runs_bind 0 1); [done| |].
    + destruct comma; [|apply runs_ok; by apply adv_refl].
      apply (runs_weaken 1); [lia|]. by apply (punct_runs p0 (bs ",")).
    + intros p1 _ Hp1 Hd1 Ha1. apply (runs_weaken (1 + 1)); [lia|]. apply runs_bind; [done| |].
      * apply item_runs; [done|]. destruct Ht. congruence.
      * intros p2 acc2 Hp2 Hd2 Ha2. destruct Ht, Ha1, Ha2. apply IH; [done|congruence|].
        rewrite adv_buf2, adv_buf1, adv_buf0 in *. lia.
Qed.

Lemma parseCommaList_runs p acc : p_ok p → p_depth p = d → runs 2 p (parseCommaList item p acc).
Proof.
  intros Hp Hd. apply (runs_bind 1 1); [done|by apply (punct_runs p (bs "("))|].
  intros p1 _ Hp1 Hd1 Ha. apply comma_loop_runs; [done|congruence|]. destruct Hp1. lia.
Qed.

End lists.

(** ** Expressions *)

(** [f] succeeds or fails at every depth from [d] on, consuming input. *)
Definition parses (d : nat) (f : Parser → Parser * res expr) : Prop :=
  ∀ p, p_ok p → d ≤ p_depth p → runs 1 p (f p).

Lemma nested_runs d f p : p_ok p → d ≤ p_depth p → parses (S d) f → runs 1 p (nested f p).
Proof.
  intros Hp Hd Hf. unfold nested. cbn [p_depth set_depth].
  destruct (Nat.ltb_spec maxExprDepth (S (p_depth p))) as [|Hle]; [apply runs_err|].
  destruct (Hf (set_depth p (S (p_depth p)))) as [H1 H2]; [split; [apply Hp|done]|cbn; lia|].
  destruct (f (set_depth p (S (p_depth p)))) as [p1 r]. split; [done|].
  intros p' a [= <- ->]. destruct (H2 p1 a eq_refl) as [E D P]. cbn in *.
  constructor; cbn; [done| |lia]. rewrite D. lia.
Qed.

Section levels.
Context (self : Parser → Parser * res expr) (d : nat).
Hypothesis self_parses : parses (S d) self.

Lemma parseTuple_parses : parses (S d) (parseTuple self).
Proof.
  intros p Hp Hd. unfold parseTuple. apply (runs_weaken (2 + 0)); [lia|]. apply runs_bind; [done| |].
  - apply (parseCommaList_runs _ (p_depth p)); [|done..]. intros p1 acc Hp1 Hd1.
    apply (runs_bind 1 0); [done|apply self_parses; [done|lia]|]. intros p2 e Hp2 _ _.
    apply runs_ok. by apply adv_refl.
  - intros p1 kids Hp1 _ _. destruct kids as [|e [|e' kids]]; [apply runs_err|apply runs_ok..]; by apply adv_refl.
Qed.

Lemma parseAtom_parses : parses d (parseAtom self).
Proof.
  intros p Hp Hd. unfold parseAtom. try_token Ht.
  - change (length (bs "(")) with 1 in Ht. destruct Ht as [E D P].
    assert (adv 0 p (set_pos p0 (p_pos p0 - 1))) as Ha by (constructor; cbn; [done..|lia]).
    apply (runs_from 0 1 _ (set_pos p0 (p_pos p0 - 1))); [done|].
    apply (nested_runs d); [by eapply adv_ok|cbn; lia|apply parseTuple_parses].
  - pose proof (adv_ok _ _ _ Hp Ht) as Hp0. apply (runs_from 0 1 _ p0); [done|].
    pose proof (tryName_tries p0 Hp0) as Hn. unfold tries in Hn.
    destruct (tryName p0) as [p1 [name|]]; cbn [fst snd] in Hn; [by apply runs_ok|].
    pose proof (adv_ok _ _ _ Hp0 Hn) as Hp1. apply (runs_from 0 1 _ p1); [done|].
    apply (runs_bind 1 0); [done|by apply parseValue_runs|]. intros p2 c Hp2 _ _. apply runs_ok. by apply adv_refl.
Qed.

Lemma try_ops_tries p toks :
  p_ok p → Forall (fun t => fst t ≠ []) toks →
  tries 1 p (try_ops p toks) (fun o => match o with Some _ => true | None => false end).
Proof.
  intros Hp Ht. revert p Hp. induction Ht as [|[tok op] toks Hne _ IH]; intros p Hp; cbn [try_ops].
  { unfold tries. cbn. by apply adv_refl. }
  cbn in Hne. pose proof (tryPunctuation_tries p tok Hp) as H1. unfold tries in H1.
  destruct (tryPunctuation p tok) as [p1 []]; cbn [fst snd id] in H1.
  { unfold tries. cbn. eapply adv_weaken; [|done]. destruct tok; [done|cbn; lia]. }
  pose proof (adv_ok _ _ _ Hp H1) as Hp1.
  pose proof (tryKeyword_tries p1 [tok] Hp1 ltac:(by repeat constructor)) as H2. unfold tries in H2.
  destruct (tryKeyword p1 [tok]) as [p2 []]; cbn [fst snd id] in H2.
  { unfold tries. cbn. apply (adv_trans 0 1 _ p1); done. }
  pose proof (adv_ok _ _ _ Hp1 H2) as Hp2. pose proof (IH p2 Hp2) as H3. unfold tries in *.
  destruct (try_ops p2 toks) as [p3 o]. cbn [fst snd] in *.
  apply (adv_trans 0 _ _ p1); [done|]. by apply (adv_trans 0 _ _ p2).
Qed.

Section binop.
Context (toks : list (bytes * Z)) (inner : Parser → Parser * res expr).
Hypothesis toks_ok : Forall (fun t => fst t ≠ []) toks.
Hypothesis inner_parses : parses d inner.

Lemma binop_loop_runs fuel : ∀ p el,
  p_ok p → d ≤ p_depth p → length (p_buf p) - p_pos p ≤ fuel → runs 0 p (binop_loop toks inner fuel p el).
Proof.
  induction fuel as [|fuel IH]; intros p el Hp Hd Hf; cbn [binop_loop];
    pose proof (try_ops_tries p toks Hp toks_ok) as Ht; unfold tries in Ht;
    destruct (try_ops p toks) as [p1 [op|]]; cbn [fst snd] in Ht.
  2,4: by apply runs_ok.
  - destruct Ht, Hp. lia.
  - pose proof (adv_ok _ _ _ Hp Ht) as Hp1. apply (runs_weaken (1 + (1 + 0))); [lia|].
    apply (runs_from _ _ _ p1); [done|]. apply runs_bind; [done|apply inner_parses; [done|destruct Ht; lia]|].
    intros p2 er Hp2 Hd2 Ha. destruct Ht, Ha. apply IH; [done|lia|]. rewrite adv_buf1, adv_buf0 in *. lia.
Qed.

Lemma parseBinop_parses : parses d (parseBinop toks inner).
Proof.
  intros p Hp Hd. apply (runs_bind 1 0); [done|by apply inner_parses|]. intros p1 el Hp1 Hd1 _.
  apply binop_loop_runs; [done|lia|lia].
Qed.

End binop.

Lemma parseNeg_at_parses fuel : ∀ d', d ≤ d' → maxExprDepth < fuel + d' → parses d' (parseNeg_at self fuel).
Proof.
  induction fuel as [|fuel IH]; intros d' Hd' Hf p Hp Hd; cbn [parseNeg_at]; [destruct Hp; lia|].
  try_token Ht.
  - pose proof (adv_ok _ _ _ Hp Ht) as Hp0. apply (runs_weaken (0 + (1 + 0))); [lia|].
    apply (runs_from _ _ _ p0); [eapply adv_weaken; [|done]; lia|].
    apply runs_bind; [done| |].
    + apply (nested_runs d'); [done|destruct Ht; lia|]. apply IH; lia.
    + intros p2 kid Hp2 _ _. apply runs_ok. by apply adv_refl.
  - pose proof (adv_ok _ _ _ Hp Ht) as Hp0. apply (runs_from 0 1 _ p0); [done|].
    apply parseAtom_parses; [done|destruct Ht; lia].
Qed.

Lemma parseCmp_parses : parses d (parseCmp self).
Proof.
  repeat (apply parseBinop_parses; [repeat constructor; discriminate|]).
  apply parseNeg_at_parses; lia.
Qed.

Lemma parseNot_at_parses fuel : ∀ d', d ≤ d' → maxExprDepth < fuel + d' → parses d' (parseNot_at self fuel).
Proof.
  induction fuel as [|fuel IH]; intros d' Hd' Hf p Hp Hd; cbn [parseNot_at]; [destruct Hp; lia|].
  try_token Ht.
  - pose proof (adv_ok _ _ _ Hp Ht) as Hp0. apply (runs_weaken (0 + (1 + 0))); [lia|].
    apply (runs_from _ _ _ p0); [eapply adv_weaken; [|done]; lia|].
    apply runs_bind; [done| |].
    + apply (nested_runs d'); [done|destruct Ht; lia|]. apply IH; lia.
    + intros p2 kid Hp2 _ _. apply runs_ok. by apply adv_refl.
  - pose proof (adv_ok _ _ _ Hp Ht) as Hp0. apply (runs_from 0 1 _ p0); [done|].
    apply parseCmp_parses; [done|destruct Ht; lia].
Qed.

Lemma parseOr_parses : parses d (parseOr self).
Proof.
  repeat (apply parseBinop_parses; [repeat constructor; discriminate|]).
  apply parseNot_at_parses; lia.
Qed.

End levels.

Lemma parseExpr_at_parses fuel : ∀ d, maxExprDepth < fuel + d → parses d (parseExpr_at fuel).
Proof.
  induction fuel as [|fuel IH]; intros d Hf p Hp Hd; cbn [parseExpr_at]; [destruct Hp; lia|].
  apply (parseOr_parses _ d); [|done..]. apply IH. lia.
Qed.

Lemma parseExpr_runs p : p_ok p → runs 1 p (parseExpr p).
Proof. intros Hp. apply (parseExpr_at_parses _ 0); [|done|]; lia. Qed.

(** ** Statements *)

(** Close [runs] of a call that only fails or ends. *)
Ltac finish := (apply runs_err) || (apply runs_ok; by apply adv_refl).

(** A sequence of calls, none of which has to consume. *)
Ltac seq_runs L :=
  apply (runs_bind 0 0); [done|eapply runs_weaken; [|by L]; lia|]; intros ? ? ? ? ?.

Lemma parseEnd_runs p : p_ok p → runs 0 p (parseEnd p).
Proof. intros Hp. apply (runs_weaken 1); [lia|]. by apply (punct_runs p (bs ";")). Qed.

Lemma parseWhere_runs p : p_ok p → runs 0 p (parseWhere p).
Proof.
  intros Hp. unfold parseWhere. try_token Ht; [|by apply runs_ok].
  pose proof (adv_ok _ _ _ Hp Ht) as Hp0. apply (runs_weaken (1 + 0)); [lia|]. apply (runs_from _ _ _ p0); [done|].
  seq_runs ltac:(apply parseExpr_runs). finish.
Qed.

Lemma parseCount_runs p : p_ok p → runs 0 p (parseCount p).
Proof.
  intros Hp. seq_runs ltac:(apply parseValue_runs). destruct (_ || _); finish.
Qed.

Lemma parseLimit_runs p : p_ok p → runs 0 p (parseLimit p).
Proof.
  intros Hp. unfold parseLimit. try_token Ht; [|by apply runs_ok].
  pose proof (adv_ok _ _ _ Hp Ht) as Hp0. apply (runs_weaken (1 + 0)); [lia|]. apply (runs_from _ _ _ p0); [done|].
  seq_runs ltac:(apply parseCount_runs). try_token Ho; [|by apply runs_ok].
  pose proof (adv_ok _ _ _ H Ho) as Hp1. apply (runs_weaken (1 + 0)); [lia|]. apply (runs_from _ _ _ p1); [done|].
  seq_runs ltac:(apply parseCount_runs). finish.
Qed.

Lemma tryStar_tries p : p_ok p → tries 1 p (tryStar p) id.
Proof.
  intros Hp. unfold tryStar. try_token Ht; [|done]. change (length (bs "*")) with 1 in Ht.
  pose proof (adv_ok _ _ _ Hp Ht) as Hp0. unfold tries.
  assert (∀ n q, adv n p0 q → adv 1 p (set_pos q (p_pos p0)) ∧ adv 0 p (set_pos q (p_pos p))) as Hback.
  { intros n q [E D P]. destruct Ht as [E' D' P']. rewrite E' in *.
    split; constructor; cbn; [done|congruence|lia|done|congruence|destruct Hp; lia]. }
  try_token Hc; [cbn; eapply Hback; done|].
  pose proof (adv_ok _ _ _ Hp0 Hc) as Hp1. try_token Hk; cbn; eapply (Hback _ _ (adv_trans _ _ _ _ _ Hc Hk)).
Qed.

Lemma select_cols_runs fuel : ∀ p cols,
  p_ok p → length (p_buf p) - p_pos p < fuel → runs 0 p (select_cols fuel p cols).
Proof.
  induction fuel as [|fuel IH]; intros p cols Hp Hf; [lia|]. cbn [select_cols]. try_token Ht.
  { apply (runs_weaken 1); [lia|]. by apply runs_ok. }
  pose proof (adv_ok _ _ _ Hp Ht) as Hp0. apply (runs_from 0 0 _ p0); [done|].
  apply (runs_bind 0 0); [done| |].
  { case_if; [apply (runs_weaken 1); [lia|]; by apply (punct_runs p0 (bs ","))|finish]. }
  intros p1 _ Hp1 Hd1 Ha1. pose proof (tryStar_tries p1 Hp1) as Hs. unfold tries in Hs.
  destruct (tryStar p1) as [p2 []]; cbn [fst snd id] in Hs; pose proof (adv_ok _ _ _ Hp1 Hs) as Hp2.
  - apply (runs_weaken (1 + 0)); [lia|]. apply (runs_from _ _ _ p2); [done|]. destruct Ht, Ha1, Hs.
    apply IH; [done|]. rewrite adv_buf2, adv_buf1, adv_buf0 in *. lia.
  - apply (runs_from 0 0 _ p2); [done|]. apply (runs_weaken (1 + 0)); [lia|].
    apply runs_bind; [done|by apply parseExpr_runs|]. intros p3 e Hp3 Hd3 Ha3. destruct Ht, Ha1, Hs, Ha3.
    apply IH; [done|]. rewrite adv_buf3, adv_buf2, adv_buf1, adv_buf0 in *. lia.
Qed.

Lemma parseSelect_runs p : p_ok p → runs 0 p (parseSelect p).
Proof.
  intros Hp. seq_runs ltac:(apply select_cols_runs; [done|destruct Hp; lia]).
  apply (runs_bind 0 0); [done|case_if; finish|]. intros ? ? ? ? ?.
  seq_runs ltac:(apply expect_name_runs). seq_runs ltac:(apply parseWhere_runs).
  seq_runs ltac:(apply parseLimit_runs). seq_runs ltac:(apply parseEnd_runs). finish.
Qed.

Lemma parseNameItem_runs p out : p_ok p → runs 1 p (parseNameItem p out).
Proof.
  intros Hp. apply (runs_bind 1 0); [done|by apply expect_name_runs|]. intros; finish.
Qed.

Lemma names_runs p out : p_ok p → runs 1 p (parseCommaList parseNameItem p out).
Proof.
  intros Hp. apply (runs_weaken 2); [lia|]. apply (parseCommaList_runs _ (p_depth p)); [|done..].
  intros. by apply parseNameItem_runs.
Qed.

Lemma parseCreateTableItem_runs p out : p_ok p → runs 1 p (parseCreateTableItem p out).
Proof.
  intros Hp. unfold parseCreateTableItem. try_token Ht.
  { pose proof (adv_ok _ _ _ Hp Ht) as Hp0. apply (runs_weaken (2 + 0)); [lia|]. apply (runs_from _ _ _ p0); [done|].
    seq_runs ltac:(apply names_runs). finish. }
  pose proof (adv_ok _ _ _ Hp Ht) as Hp0. apply (runs_from 0 1 _ p0); [done|]. try_token Hi.
  { pose proof (adv_ok _ _ _ Hp0 Hi) as Hp1. apply (runs_weaken (1 + 0)); [lia|]. apply (runs_from _ _ _ p1); [done|].
    seq_runs ltac:(apply names_runs). finish. }
  pose proof (adv_ok _ _ _ Hp0 Hi) as Hp1. apply (runs_from 0 1 _ p1); [done|].
  apply (runs_bind 1 0); [done|by apply expect_name_runs|]. intros ? ? ? ? ?.
  seq_runs ltac:(apply expect_name_runs). apply (runs_bind 0 0); [done|unfold column_type; repeat case_if; finish|].
  intros. finish.
Qed.

Lemma parseCreateTable_runs p : p_ok p → runs 0 p (parseCreateTable p).
Proof.
  intros Hp. seq_runs ltac:(apply expect_name_runs).
  seq_runs ltac:(apply (parseCommaList_runs _ (p_depth p')); [intros; by apply parseCreateTableItem_runs|done..]).
  seq_runs ltac:(apply parseEnd_runs). finish.
Qed.

Lemma parseValueItem_runs p out : p_ok p → runs 1 p (parseValueItem p out).
Proof. intros Hp. apply (runs_bind 1 0); [done|by apply parseValue_runs|]. intros; finish. Qed.

Lemma keyword_runs p kw msg : p_ok p → kw ≠ [] → runs 1 p (expect (tryKeyword p [kw]) msg).
Proof. intros Hp Hk. apply expect_runs, tryKeyword_tries; [done|by repeat constructor]. Qed.

Lemma parseInsert_runs p : p_ok p → runs 0 p (parseInsert p).
Proof.
  intros Hp. seq_runs ltac:(apply expect_name_runs). seq_runs ltac:(apply keyword_runs).
  seq_runs ltac:(eapply (parseCommaList_runs _ (p_depth _)); [intros; by apply parseValueItem_runs|done..]).
  seq_runs ltac:(apply parseEnd_runs). finish.
Qed.

Lemma parseAssign_runs p : p_ok p → runs 1 p (parseAssign p).
Proof.
  intros Hp. apply (runs_bind 1 0); [done|by apply expect_name_runs|]. intros ? ? ? ? ?.
  seq_runs ltac:(apply punct_runs). seq_runs ltac:(apply parseExpr_runs). finish.
Qed.

Lemma assign_loop_runs fuel : ∀ p value,
  p_ok p → length (p_buf p) - p_pos p < fuel → runs 0 p (assign_loop fuel p value).
Proof.
  induction fuel as [|fuel IH]; intros p value Hp Hf; [lia|]. cbn [assign_loop].
  apply (runs_weaken (1 + 0)); [lia|]. apply runs_bind; [done|by apply parseAssign_runs|].
  intros p1 a Hp1 Hd1 Ha. try_token Ht; [|by apply runs_ok].
  pose proof (adv_ok _ _ _ Hp1 Ht) as Hp0. apply (runs_from 0 0 _ p0); [eapply adv_weaken; [|done]; lia|].
  destruct Ha, Ht. apply IH; [done|]. rewrite adv_buf1, adv_buf0 in *. lia.
Qed.

Lemma parseUpdate_runs p : p_ok p → runs 0 p (parseUpdate p).
Proof.
  intros Hp. seq_runs ltac:(apply expect_name_runs). seq_runs ltac:(apply keyword_runs).
  apply (runs_bind 0 0); [done|apply assign_loop_runs; [done|lia]|]. intros ? ? ? ? ?.
  seq_runs ltac:(apply parseWhere_runs). seq_runs ltac:(apply parseEnd_runs). finish.
Qed.

Lemma parseDelete_runs p : p_ok p → runs 0 p (parseDelete p).
Proof.
  intros Hp. seq_runs ltac:(apply expect_name_runs). seq_runs ltac:(apply parseWhere_runs).
  seq_runs ltac:(apply parseEnd_runs). finish.
Qed.

Lemma parseDropTable_runs p : p_ok p → runs 0 p (parseDropTable p).
Proof.
  intros Hp. seq_runs ltac:(apply expect_name_runs). seq_runs ltac:(apply parseEnd_runs). finish.
Qed.

(** One alternative of [parseStmt]: the keyword is there and the rest of the
    statement is parsed, or the next alternative is tried. *)
Ltac alternative L :=
  let Ht := fresh "Ht" in try_token Ht; match goal with
  | Hp : p_ok ?p, Ha : adv _ ?p ?q |- runs _ _ _ =>
      pose proof (adv_ok _ _ _ Hp Ha); apply (runs_from 0 0 _ q); [eapply adv_weaken; [|done]; lia|]; clear Ha
  end; [seq_runs L; finish|].

Lemma parseStmt_runs p : p_ok p → runs 0 p (parseStmt p).
Proof.
  intros Hp. unfold parseStmt.
  alternative ltac:(apply parseSelect_runs). alternative ltac:(apply parseCreateTable_runs).
  alternative ltac:(apply parseInsert_runs). alternative ltac:(apply parseUpdate_runs).
  alternative ltac:(apply parseDelete_runs). alternative ltac:(apply parseDropTable_runs). finish.
Qed.

(** Every input is parsed or rejected. *)
Lemma ParseStmt_returns s : returns (ParseStmt s).
Proof.
  destruct (parseStmt_runs (NewParser s)) as [Hr _]; [split; cbn; lia|].
  unfold ParseStmt. destruct (parseStmt (NewParser s)) as [p r]. cbn in Hr.
  apply returns_bind; [done|]. intros out _. by apply returns_if.
Qed.

(** A string literal holds no backslash. *)
Lemma string_loop_no_backslash quote s : ∀ str n, string_loop quote s = Ok (str, n) → x5c ∉ str.
Proof.
  remember (length s) as len eqn:Hlen. revert s Hlen.
  induction (lt_wf len) as [len _ IH]. intros [|ch s] Hlen str n; cbn [string_loop]; [done|].
  case_bool_decide as Hch.
  - destruct s as [|c s]; [done|]. destruct (bool_decide (c = x22) || bool_decide (c = x27)) eqn:Hc; [|done].
    intros E. apply bind_ok in E as ([str' n'] & E & [= <- <-]). apply not_elem_of_cons.
    split; [intros <-; discriminate Hc|]. eapply IH; [|reflexivity|exact E]. cbn in Hlen. lia.
  - case_bool_decide; [intros [= <- <-]; apply not_elem_of_nil|].
    intros E. apply bind_ok in E as ([str' n'] & E & [= <- <-]). apply not_elem_of_cons.
    split; [done|]. eapply IH; [|reflexivity|exact E]. cbn in Hlen. lia.
Qed.
