(* ===== verification/ParserPrint.v ===== *)
(** * The parser reads back what is printed

    [show] writes an expression with every operator in parentheses; the parser
    returns that expression.  The argument works on the input that is left, up
    to leading spaces ([view]), and composes along the precedence levels
    ([reads]). *)

From Stdlib Require Import ZArith Lia.
From Stdlib.Strings Require Import Byte.
From stdpp Require Import base list numbers.
From S2P Require Import Prelude GoLib Cell Row Sql Entry Parser ParserProofs.

Open Scope nat_scope.

(** ** Printing *)

(** A quote is escaped; a backslash cannot be written in a literal. *)
Definition show_char (ch : byte) : bytes := if bool_decide (ch = x27) then [x5c; ch] else [ch].
Fixpoint show_chars (s : bytes) : bytes :=
  match s with
  | [] => []
  | ch :: s => show_char ch ++ show_chars s
  end.
Definition show_string (s : bytes) : bytes := [x27] ++ show_chars s ++ [x27].

Definition show_cell (c : Cell) : bytes :=
  if bool_decide (c_type c = TypeI64) then FormatUint (c_i64 c) else show_string (c_str c).

Fixpoint show_list (kids : list bytes) : bytes :=
  match kids with
  | [] => []
  | [k] => k
  | k :: kids => k ++ bs "," ++ show_list kids
  end.

Fixpoint show (e : expr) : bytes :=
  match e with
  | EName name => name
  | ECell cell => show_cell cell
  | EUnOp op kid => bs "(" ++ (if (op =? OP_NEG)%Z then bs "-" else bs "NOT ") ++ show kid ++ bs ")"
  | EBinOp op el er => bs "(" ++ show el ++ bs " " ++ exprop2str op ++ bs " " ++ show er ++ bs ")"
  | ETuple kids => bs "(" ++ show_list (map show kids) ++ bs ")"
  | EStar => bs "*"
  end.

(** A name the parser takes for a column. *)
Definition name_ok (name : bytes) : bool :=
  match name with
  | ch :: s => isNameStart ch && forallb isNameContinue s && negb (EqualFold name (bs "NOT"))
  | [] => false
  end.

Definition cell_printable (c : Cell) : bool :=
  if bool_decide (c_type c = TypeI64) then bool_decide (c_str c = []) && (0 <=? c_i64 c)%Z && (c_i64 c <? 2 ^ 63)%Z
  else bool_decide (c_type c = TypeStr) && (c_i64 c =? 0)%Z && forallb (fun ch => negb (bool_decide (ch = x5c))) (c_str c).

Definition binary_ops : list Z :=
  [OP_ADD; OP_SUB; OP_MUL; OP_DIV; OP_EQ; OP_NE; OP_LE; OP_GE; OP_LT; OP_GT; OP_AND; OP_OR].

Fixpoint printable (e : expr) : bool :=
  match e with
  | EName name => name_ok name
  | ECell cell => cell_printable cell
  | EUnOp op kid => ((op =? OP_NEG) || (op =? OP_NOT))%Z && printable kid
  | EBinOp op el er => existsb (Z.eqb op) binary_ops && printable el && printable er
  | ETuple kids => (2 <=? length kids) && forallb (fun b => b) (map printable kids)
  | EStar => false
  end.

(** How deep the parser nests on the printed form. *)
Fixpoint pdepth (e : expr) : nat :=
  match e with
  | EUnOp _ kid => 2 + pdepth kid
  | EBinOp _ el er => 1 + Nat.max (pdepth el) (pdepth er)
  | ETuple kids => 1 + list_max (map pdepth kids)
  | _ => 0
  end.

(** ** The input that is left *)

Definition trim (s : bytes) : bytes := drop (span isSpace s) s.

Definition view (p : Parser) (d : nat) (s : bytes) : Prop :=
  p_ok p ∧ p_depth p = d ∧ trim (p_rest p) = trim s.

(** [f] reads the expression [e] off [s] and leaves [s']. *)
Definition reads {A} (f : Parser → Parser * res A) (d : nat) (s : bytes) (a : A) (s' : bytes) : Prop :=
  ∀ p, view p d s → ∃ p', f p = (p', Ok a) ∧ view p' d s'.

(** [tok] stands at the start of [s], up to [f]. *)
Fixpoint starts (f : byte → byte) (tok s : bytes) : bool :=
  match tok, s with
  | [], _ => true
  | t :: tok, c :: s => if bool_decide (f t = f c) then starts f tok s else false
  | _ :: _, [] => false
  end.

Definition word_at (kw s : bytes) : bool :=
  starts lower kw s && match s !! length kw with Some ch => isSeparator ch | None => true end.

Lemma trim_cases s : trim s = [] ∨ ∃ c s', trim s = c :: s' ∧ isSpace c = false.
Proof.
  unfold trim. induction s as [|c s IH]; [by left|]. cbn [span].
  destruct (isSpace c) eqn:E; [by apply IH|]. right. by exists c, s.
Qed.

Lemma trim_trim s : trim (trim s) = trim s.
Proof.
  destruct (trim_cases s) as [->|(c & s' & -> & Hc)]; [done|]. unfold trim. cbn [span]. by rewrite Hc.
Qed.

Lemma trim_head c s : isSpace c = false → trim (c :: s) = c :: s.
Proof. intros Hc. unfold trim. cbn [span]. by rewrite Hc. Qed.

Lemma trim_space s : trim (bs " " ++ s) = trim s.
Proof. done. Qed.

Lemma trim_length s : length (trim s) ≤ length s.
Proof. unfold trim. rewrite length_drop. lia. Qed.

Lemma view_trim p d s : view p d (trim s) ↔ view p d s.
Proof. unfold view. by rewrite trim_trim. Qed.

Lemma skipSpaces_rest p : p_rest (skipSpaces p) = trim (p_rest p).
Proof. unfold p_rest, skipSpaces, trim. cbn. by rewrite drop_drop. Qed.

Lemma view_skip p d s : view p d s → view (skipSpaces p) d s ∧ p_rest (skipSpaces p) = trim s.
Proof.
  intros (Hp & Hd & Hs). pose proof (skipSpaces_adv p Hp) as Ha. rewrite skipSpaces_rest, Hs.
  split; [|done]. split; [by eapply adv_ok|]. split; [done|]. by rewrite skipSpaces_rest, Hs, trim_trim.
Qed.

Lemma set_pos_rest p n : p_rest (set_pos p (p_pos p + n)) = drop n (p_rest p).
Proof. unfold p_rest. cbn. by rewrite drop_drop. Qed.

Lemma starts_take tok s : starts id tok s = bytes_equal (take (length tok) s) tok.
Proof.
  revert s. induction tok as [|t tok IH]; intros s; [done|]. destruct s as [|c s]; [done|]. cbn [starts length take id].
  rewrite IH. destruct (bool_decide_reflect (t = c)) as [->|Hne].
  - unfold bytes_equal. apply bool_decide_ext. split; congruence.
  - symmetry. apply bytes_equal_false. congruence.
Qed.

Lemma starts_fold tok s : starts lower tok s = EqualFold (take (length tok) s) tok.
Proof.
  unfold EqualFold. revert s. induction tok as [|t tok IH]; intros s; [done|]. destruct s as [|c s]; [done|].
  cbn [starts length take map]. rewrite IH. destruct (bool_decide_reflect (lower t = lower c)) as [E|Hne].
  - rewrite E. unfold bytes_equal. apply bool_decide_ext. split; congruence.
  - symmetry. apply bytes_equal_false. congruence.
Qed.

Lemma starts_length f tok s : starts f tok s = true → length tok ≤ length s.
Proof.
  revert s. induction tok as [|t tok IH]; intros s; cbn; [lia|]. destruct s as [|c s]; [done|].
  case_if; [|done]. intros H%IH. cbn. lia.
Qed.

(** The result of trying a token, in terms of the input that is left. *)
Lemma punct_view p d s tok :
  view p d s →
  ∃ p', tryPunctuation p tok = (p', starts id tok (trim s)) ∧
    view p' d (if starts id tok (trim s) then drop (length tok) (trim s) else s).
Proof.
  intros Hv. destruct (view_skip _ _ _ Hv) as [Hv' Hr]. unfold tryPunctuation. set (q := skipSpaces p) in *.
  destruct Hv' as (Hq & Hqd & Hqs). pose proof (p_rest_length q) as Hl. rewrite Hr, <- starts_take.
  destruct (starts id tok (trim s)) eqn:E; cbn [negb].
  - apply starts_length in E as Hlen. rewrite Hr in Hl.
    destruct (Nat.ltb_spec (length (p_buf q)) (p_pos q + length tok)) as [Hlt|Hge]; cbn [orb].
    { exfalso. destruct Hq. lia. }
    eexists. split; [done|]. split; [|split; [done|]].
    + split; [done|apply Hq].
    + by rewrite (set_pos_rest q), Hr.
  - rewrite orb_true_r. eexists. split; [done|]. done.
Qed.

Lemma word_view p d s kw :
  view p d s → kw ≠ [] →
  ∃ p', tryKeyword p [kw] = (p', word_at kw (trim s)) ∧
    view p' d (if word_at kw (trim s) then drop (length kw) (trim s) else s).
Proof.
  intros Hv Hkw. destruct (view_skip _ _ _ Hv) as [Hv' Hr]. unfold tryKeyword. cbn [keyword_loop].
  set (q := skipSpaces p) in *. destruct Hv' as (Hq & Hqd & Hqs). pose proof (p_rest_length q) as Hl.
  assert (view (set_pos q (p_pos p)) d s) as Hback.
  { destruct Hv as (Hp & Hd & Hs). split; [|by split]. split; [apply Hp|apply Hq]. }
  rewrite Hr, <- starts_fold. unfold word_at. destruct (starts lower kw (trim s)) eqn:E; cbn [negb andb].
  2: { rewrite orb_true_r. eauto. }
  apply starts_length in E as Hlen. rewrite Hr in Hl.
  destruct (Nat.ltb_spec (length (p_buf q)) (p_pos q + length kw)) as [Hlt|Hge]; cbn [orb].
  { exfalso. destruct Hq. lia. }
  assert (p_buf q !! (p_pos q + length kw) = trim s !! length kw) as ->.
  { rewrite <- Hr. unfold p_rest. by rewrite lookup_drop. }
  assert (view (set_pos q (p_pos q + length kw)) d (drop (length kw) (trim s))) as Hgo.
  { split; [|split; [done|]].
    - split; [done|apply Hq].
    - by rewrite (set_pos_rest q), Hr. }
  destruct (trim s !! length kw) as [ch|]; [destruct (isSeparator ch)|]; cbn [negb]; eauto.
Qed.

(** ** Levels *)

Fixpoint ops_at (s : bytes) (toks : list (bytes * Z)) : option (Z * bytes) :=
  match toks with
  | [] => None
  | (tok, op) :: toks =>
      if starts id tok s || word_at tok s then Some (op, drop (length tok) s) else ops_at s toks
  end.

Lemma try_ops_view p d s toks :
  view p d s → Forall (fun t => fst t ≠ []) toks →
  ∃ p', try_ops p toks = (p', fst <$> ops_at (trim s) toks) ∧
    view p' d (match ops_at (trim s) toks with Some (_, s') => s' | None => s end).
Proof.
  intros Hv Ht. revert p Hv. induction Ht as [|[tok op] toks Hne _ IH]; intros p Hv; cbn [try_ops ops_at].
  { eauto. }
  destruct (punct_view p d s tok Hv) as (p1 & -> & Hv1). destruct (starts id tok (trim s)); cbn [orb]; [eauto|].
  destruct (word_view p1 d s tok Hv1 Hne) as (p2 & -> & Hv2). destruct (word_at tok (trim s)); [eauto|].
  by apply IH.
Qed.

Lemma ops_at_nil toks : Forall (fun t => fst t ≠ []) toks → ops_at [] toks = None.
Proof. induction 1 as [|[tok o] toks Hne _ IH]; [done|]. by destruct tok. Qed.

Section levels.
Context (self : Parser → Parser * res expr).

Section binop.
Context (toks : list (bytes * Z)) (inner : Parser → Parser * res expr).
Hypothesis toks_ok : Forall (fun t => fst t ≠ []) toks.

Lemma reads_binop0 d s e s' :
  reads inner d s e s' → ops_at (trim s') toks = None → reads (parseBinop toks inner) d s e s'.
Proof.
  intros Hi Hn p Hv. destruct (Hi p Hv) as (p1 & Hp1 & Hv1). unfold parseBinop. rewrite Hp1. cbn [bindS].
  destruct (try_ops_view p1 d s' toks Hv1 toks_ok) as (p2 & Ht & Hv2). rewrite Hn in *.
  destruct (length (p_buf p1)); cbn [binop_loop]; rewrite Ht; eauto.
Qed.

Lemma reads_binop1 d s el s1 op s2 er s3 :
  reads inner d s el s1 → ops_at (trim s1) toks = Some (op, s2) → reads inner d s2 er s3 →
  ops_at (trim s3) toks = None → reads (parseBinop toks inner) d s (EBinOp op el er) s3.
Proof.
  intros Hl Ho Hr Hn p Hv. destruct (Hl p Hv) as (p1 & Hp1 & Hv1). unfold parseBinop. rewrite Hp1. cbn [bindS].
  destruct (try_ops_view p1 d s1 toks Hv1 toks_ok) as (p2 & Ht & Hv2). rewrite Ho in *.
  assert (0 < length (p_buf p1)) as Hpos.
  { destruct Hv1 as (Hok & _ & Hs). pose proof (p_rest_length p1). pose proof (trim_length (p_rest p1)).
    rewrite Hs in *. assert (0 < length (trim s1)); [|lia].
    destruct (trim s1); [|cbn; lia]. by rewrite ops_at_nil in Ho. }
  destruct (length (p_buf p1)) as [|fuel]; [lia|]. cbn [binop_loop fmap option_fmap option_map fst] in *. rewrite Ht.
  destruct (Hr p2 Hv2) as (p3 & -> & Hv3). cbn [bindS].
  destruct (try_ops_view p3 d s3 toks Hv3 toks_ok) as (p4 & Ht4 & Hv4). rewrite Hn in *.
  destruct fuel; cbn [binop_loop]; rewrite Ht4; eauto.
Qed.

End binop.

Lemma reads_nested {A} (f : Parser → Parser * res A) d s a s' :
  reads f (S d) s a s' → S d ≤ maxExprDepth → reads (nested f) d s a s'.
Proof.
  intros Hf Hd p (Hp & Hdp & Hs). unfold nested. cbn [p_depth set_depth].
  destruct (Nat.ltb_spec maxExprDepth (S (p_depth p))); [lia|].
  destruct (Hf (set_depth p (S (p_depth p)))) as (p1 & -> & (Hp1 & Hd1 & Hs1)).
  { split; [|split; [cbn; lia|done]]. split; [apply Hp|done]. }
  eexists. split; [done|]. split; [|split; [cbn; lia|done]]. split; [apply Hp1|cbn; lia].
Qed.

Lemma reads_neg0 fuel d s e s' :
  reads (parseAtom self) d s e s' → starts id (bs "-") (trim s) = false → reads (parseNeg_at self fuel) d s e s'.
Proof.
  intros Ha Hn p Hv. destruct (punct_view p d s (bs "-") Hv) as (p1 & Hp1 & Hv1). rewrite Hn in *.
  destruct fuel; cbn [parseNeg_at]; rewrite Hp1; by apply Ha.
Qed.

Lemma reads_neg1 fuel d s s1 e s' :
  trim s = bs "-" ++ s1 → reads (parseNeg_at self fuel) (S d) s1 e s' → S d ≤ maxExprDepth →
  reads (parseNeg_at self (S fuel)) d s (EUnOp OP_NEG e) s'.
Proof.
  intros Hs Ha Hd p Hv. destruct (punct_view p d s (bs "-") Hv) as (p1 & Hp1 & Hv1). rewrite Hs in *.
  cbn [parseNeg_at]. rewrite Hp1. destruct (reads_nested _ _ _ _ _ Ha Hd p1 Hv1) as (p2 & Hp2 & Hv2).
  change (starts id (bs "-") (bs "-" ++ s1)) with true. cbv iota. rewrite Hp2. cbn [bindS]. eauto.
Qed.

Lemma reads_not0 fuel d s e s' :
  reads (parseCmp self) d s e s' → word_at (bs "NOT") (trim s) = false → reads (parseNot_at self fuel) d s e s'.
Proof.
  intros Ha Hn p Hv. destruct (word_view p d s (bs "NOT") Hv) as (p1 & Hp1 & Hv1); [done|]. rewrite Hn in *.
  destruct fuel; cbn [parseNot_at]; rewrite Hp1; by apply Ha.
Qed.

Lemma reads_not1 fuel d s s1 e s' :
  trim s = bs "NOT " ++ s1 → reads (parseNot_at self fuel) (S d) s1 e s' → S d ≤ maxExprDepth →
  reads (parseNot_at self (S fuel)) d s (EUnOp OP_NOT e) s'.
Proof.
  intros Hs Ha Hd p Hv. destruct (word_view p d s (bs "NOT") Hv) as (p1 & Hp1 & Hv1); [done|]. rewrite Hs in *.
  cbn [parseNot_at]. rewrite Hp1. change (word_at (bs "NOT") (bs "NOT " ++ s1)) with true in *. cbv iota in *.
  change (drop (length (bs "NOT")) (bs "NOT " ++ s1)) with (bs " " ++ s1) in Hv1.
  destruct (reads_nested _ _ _ _ _ Ha Hd p1) as (p2 & Hp2 & Hv2); [exact Hv1|]. rewrite Hp2. cbn [bindS]. eauto.
Qed.

End levels.

(** ** Atoms *)

(** What follows a name or a number does not continue it. *)
Definition stop (r : bytes) : bool := match r with [] => true | c :: _ => negb (isNameContinue c) end.

(** No operator follows. *)
Definition quiet (r : bytes) : Prop :=
  stop r = true ∧ ops_at (trim r) mul_ops = None ∧ ops_at (trim r) add_ops = None ∧
  ops_at (trim r) cmp_ops = None ∧ ops_at (trim r) and_ops = None ∧ ops_at (trim r) or_ops = None.

(** Neither a minus nor the word NOT leads. *)
Definition lead (s : bytes) : Prop :=
  starts id (bs "-") (trim s) = false ∧ word_at (bs "NOT") (trim s) = false.

(** A first byte that starts a name, a number, a string or a parenthesis. *)
Definition atom_start (c : byte) : bool :=
  isNameStart c || isDigit c || bool_decide (c = x27) || bool_decide (c = x28).

Lemma atom_start_facts c : atom_start c = true → isSpace c = false ∧ c ≠ x2d ∧ (isNameStart c = false → lower c ≠ x6e).
Proof. destruct c; vm_compute; try discriminate; intros _; repeat split; discriminate. Qed.

Lemma name_start_facts c : isNameStart c = true → isNameContinue c = true ∧ c ≠ x28.
Proof. destruct c; vm_compute; try discriminate; by split. Qed.

Lemma digit_facts c : isDigit c = true → isNameContinue c = true ∧ isNameStart c = false ∧ c ≠ x28 ∧
  c ≠ x22 ∧ c ≠ x27 ∧ c ≠ x2d ∧ c ≠ x2b.
Proof. destruct c; vm_compute; try discriminate; intros _; repeat split; discriminate. Qed.

Lemma continue_not_separator c : isNameContinue c = true → isSeparator c = false.
Proof. intros H. unfold isSeparator. rewrite H. by rewrite andb_false_r. Qed.

Lemma continue_lower c : isNameContinue (lower c) = isNameContinue c.
Proof. by destruct c; vm_compute. Qed.

Lemma span_app f s r :
  forallb f s = true → match r with [] => True | c :: _ => f c = false end → span f (s ++ r) = length s.
Proof.
  induction s as [|c s IH]; cbn [app span forallb length].
  - intros _ Hr. destruct r as [|c r]; [done|]. cbn. by rewrite Hr.
  - intros [Hc Hs]%andb_true_iff Hr. by rewrite Hc, IH.
Qed.

Lemma starts_miss f t tok c s : f c ≠ f t → starts f (t :: tok) (c :: s) = false.
Proof. intros Hne. cbn [starts]. by rewrite bool_decide_false by congruence. Qed.

(** A word ends where the name it stands in ends. *)
Lemma word_at_span kw s :
  forallb isNameContinue kw = true → word_at kw s = true → span isNameContinue s = length kw.
Proof.
  unfold word_at. revert s. induction kw as [|t kw IH]; intros s Hk; cbn [starts length].
  - destruct s as [|c s]; [done|]. cbn. unfold isSeparator. destruct (isNameContinue c); [|done].
    by rewrite andb_false_r.
  - apply andb_true_iff in Hk as [Ht Hk]. destruct s as [|c s]; [done|].
    destruct (bool_decide_reflect (lower t = lower c)) as [E|]; [|done]. cbn [span lookup list_lookup].
    rewrite <- (continue_lower c), <- E, continue_lower, Ht. intros H. f_equal. by apply IH.
Qed.

Lemma name_chars name : name_ok name = true → forallb isNameContinue name = true ∧ ∃ c s, name = c :: s ∧
  isNameStart c = true ∧ forallb isNameContinue s = true ∧ EqualFold name (bs "NOT") = false.
Proof.
  unfold name_ok. destruct name as [|c s]; [done|]. intros [[Hc Hs]%andb_true_iff Hn%negb_true_iff]%andb_true_iff.
  destruct (name_start_facts c Hc) as [Hcc _]. split; [cbn; by rewrite Hcc, Hs|]. eauto 10.
Qed.

Lemma stop_span r : stop r = true → match r with [] => True | c :: _ => isNameContinue c = false end.
Proof. destruct r as [|c r]; [done|]. by intros ?%negb_true_iff. Qed.

(** The names that are not NOT do not read as NOT. *)
Lemma name_lead name r : name_ok name = true → stop r = true → lead (name ++ r).
Proof.
  intros Hn Hr. destruct (name_chars name Hn) as (Hall & c & s & -> & Hc & Hs & Hnot).
  assert (atom_start c = true) as Hat by (unfold atom_start; by rewrite Hc).
  destruct (atom_start_facts c Hat) as (Hsp & Hm & _). unfold lead. rewrite <- app_comm_cons, trim_head by done. split.
  { by apply (starts_miss id x2d []). }
  destruct (word_at (bs "NOT") (c :: s ++ r)) eqn:E; [exfalso|done].
  pose proof (word_at_span (bs "NOT") _ eq_refl E) as Hsp3. rewrite app_comm_cons in *.
  rewrite span_app in Hsp3; [|done|by apply stop_span].
  unfold word_at in E. apply andb_true_iff in E as [E _]. rewrite starts_fold in E.
  rewrite take_app_le, take_ge in E by lia. congruence.
Qed.

Lemma other_lead c s : atom_start c = true → isNameStart c = false → lead (c :: s).
Proof.
  intros Hat Hns. destruct (atom_start_facts c Hat) as (Hsp & Hm & Hn). unfold lead. rewrite trim_head by done. split.
  - by apply (starts_miss id x2d []).
  - unfold word_at. rewrite (starts_miss lower x4e (bs "OT")); [done|]. specialize (Hn Hns). intros E. by apply Hn.
Qed.

Section atoms.
Context (self : Parser → Parser * res expr) (d : nat).

(** The first byte is no parenthesis, so a name or a literal is read. *)
Lemma atom_no_paren p c s :
  view p d (c :: s) → isSpace c = false → c ≠ x28 →
  ∃ p', tryPunctuation p (bs "(") = (p', false) ∧ view p' d (c :: s).
Proof.
  intros Hv Hc Hne. destruct (punct_view p d (c :: s) (bs "(") Hv) as (p1 & Hp1 & Hv1).
  rewrite trim_head in * by done. rewrite (starts_miss id x28 []) in * by done. eauto.
Qed.

(** Moving over the first bytes of what is left. *)
Lemma view_advance p s r :
  view p d (s ++ r) → p_rest p = s ++ r → view (set_pos p (p_pos p + length s)) d r.
Proof.
  intros (Hp & Hd & _) Hs. pose proof (p_rest_length p) as Hl. rewrite Hs, length_app in Hl.
  split; [|split; [done|]].
  - split; cbn; [destruct Hp; lia|apply Hp].
  - by rewrite set_pos_rest, Hs, drop_app_length.
Qed.

Lemma tryName_view p name r :
  view p d (name ++ r) → forallb isNameContinue name = true → stop r = true →
  (∃ c s, name = c :: s ∧ isNameStart c = true) →
  ∃ p', tryName p = (p', Some name) ∧ view p' d r.
Proof.
  intros Hv Hall Hr (c & s & -> & Hc). destruct (view_skip _ _ _ Hv) as [Hv1 Hs1].
  assert (atom_start c = true) as Hat by (unfold atom_start; by rewrite Hc).
  destruct (atom_start_facts c Hat) as (Hsp & _).
  rewrite <- app_comm_cons in *. rewrite trim_head in Hs1 by done.
  unfold tryName. set (q := skipSpaces p) in *. rewrite Hs1, Hc. cbn [negb].
  cbn [forallb] in Hall. apply andb_true_iff in Hall as [_ Hall]. rewrite span_app by (done || by apply stop_span).
  eexists. split.
  - do 3 f_equal. rewrite app_comm_cons. by apply take_app_length'.
  - by apply (view_advance q (c :: s) r).
Qed.

Lemma reads_name name r : name_ok name = true → stop r = true → reads (parseAtom self) d (name ++ r) (EName name) r.
Proof.
  intros Hn Hr p Hv. destruct (name_chars name Hn) as (Hall & c & s & -> & Hc & Hs & _).
  assert (atom_start c = true) as Hat by (unfold atom_start; by rewrite Hc).
  destruct (atom_start_facts c Hat) as (Hsp & _). destruct (name_start_facts c Hc) as [_ Hne].
  destruct (atom_no_paren p c (s ++ r) Hv Hsp Hne) as (p1 & Hp1 & Hv1). unfold parseAtom. rewrite Hp1.
  destruct (tryName_view p1 (c :: s) r Hv1 Hall Hr) as (p2 & -> & Hv2); eauto.
Qed.

(** *** Literals *)

Lemma FormatUint_digits n :
  (0 ≤ n)%Z → forallb isDigit (FormatUint n) = true ∧ ∃ c s, FormatUint n = c :: s ∧ isDigit c = true.
Proof.
  intros Hn. pose proof (format_digits_digits 20 n Hn) as Hd. fold (FormatUint n) in Hd.
  assert (forallb isDigit (FormatUint n) = true) as Hall.
  { apply forallb_forall. intros x Hx. rewrite Forall_forall in Hd. apply (Hd x), list_elem_of_In, Hx. }
  split; [done|]. destruct (FormatUint n) as [|c s] eqn:E; [by apply FormatUint_ne in E|].
  exists c, s. split; [done|]. by apply andb_true_iff in Hall as [].
Qed.

Lemma ParseInt_Format n : (0 ≤ n < 2 ^ 63)%Z → ParseInt (FormatUint n) = Ok n.
Proof.
  intros Hn. destruct (FormatUint_digits n) as (Hall & c & s & E & Hc); [lia|].
  destruct (digit_facts c Hc) as (_ & _ & _ & _ & _ & Hm & Hp).
  assert (digits_value (FormatUint n) = n) as Hval by (apply format_digits_value; cbn; lia).
  unfold ParseInt. rewrite E in *.
  rewrite split_sign_none by done.
  rewrite bool_decide_false by done. cbn [orb]. change is_digit with isDigit. rewrite Hall, Hval. cbn [negb].
  rewrite bool_decide_true; [done|]. unfold is_i64. lia.
Qed.

Lemma string_loop_show s r :
  forallb (fun ch => negb (bool_decide (ch = x5c))) s = true →
  string_loop x27 (show_chars s ++ [x27] ++ r) = Ok (s, length (show_chars s) + 1).
Proof.
  induction s as [|ch s IH]; intros Hs; [done|]. cbn [forallb] in Hs. apply andb_true_iff in Hs as [Hc Hs].
  apply negb_true_iff, bool_decide_eq_false in Hc. specialize (IH Hs).
  cbn [show_chars]. rewrite <- (assoc_L (++)). unfold show_char.
  destruct (bool_decide_reflect (ch = x27)) as [->|Hq]; cbn [app string_loop].
  - change (bool_decide (x5c = x5c)) with true. cbv iota. cbn [app] in IH. rewrite IH. done.
  - rewrite (bool_decide_false (ch = x5c)), (bool_decide_false (ch = x27)) by done. cbn [app] in IH. rewrite IH. done.
Qed.

Lemma parseValue_cell p c r :
  view p d (show_cell c ++ r) → cell_printable c = true → stop r = true →
  ∃ p', parseValue p = (p', Ok c) ∧ view p' d r.
Proof.
  intros Hv Hc Hr. destruct (view_skip _ _ _ Hv) as [Hv1 Hs1]. unfold parseValue. set (q := skipSpaces p) in *.
  unfold show_cell, cell_printable in *. destruct (bool_decide_reflect (c_type c = TypeI64)) as [Ht|Ht].
  - apply andb_true_iff in Hc as [[Hs%bool_decide_eq_true H0%Z.leb_le]%andb_true_iff H1%Z.ltb_lt].
    destruct (FormatUint_digits (c_i64 c) H0) as (Hall & ch & s & E & Hch). rewrite E in *.
    destruct (digit_facts ch Hch) as (Hcont & Hns & Hp & Hq1 & Hq2 & Hm & Hpl).
    assert (isSpace ch = false) as Hsp.
    { apply atom_start_facts. unfold atom_start. by rewrite Hch, orb_true_r. }
    rewrite <- app_comm_cons, trim_head in Hs1 by done. rewrite Hs1.
    rewrite (bool_decide_false (ch = x22)), (bool_decide_false (ch = x27)) by done. cbn [orb]. rewrite Hch. cbn [orb].
    unfold parseInt. rewrite Hs1. unfold is_sign.
    rewrite (bool_decide_false (ch = x2d)), (bool_decide_false (ch = x2b)) by done. cbn [orb].
    rewrite app_comm_cons, span_app; [|done|].
    2: { apply stop_span in Hr. destruct r as [|x r]; [done|]. unfold isNameContinue in Hr.
         apply orb_false_iff in Hr as [[_ Hr]%orb_false_iff _]. done. }
    pose proof (ParseInt_Format (c_i64 c)) as Hpi. rewrite E in Hpi. rewrite take_app_length', Hpi by (done || lia).
    eexists. split; [|by apply (view_advance q (ch :: s) r)]. destruct c. cbn in *. by subst.
  - apply andb_true_iff in Hc as [[Hs%bool_decide_eq_true H0%Z.eqb_eq]%andb_true_iff Hall].
    unfold show_string in *. cbn [app] in *. rewrite trim_head in Hs1 by done. rewrite Hs1.
    change (bool_decide (x27 = x22) || bool_decide (x27 = x27)) with true. cbv iota.
    unfold parseString. rewrite Hs1, <- (assoc_L (++)), string_loop_show by done.
    assert (MkCell TypeStr 0 (c_str c) = c) as -> by (destruct c; cbn in *; by subst).
    eexists. split; [done|].
    replace (S (length (show_chars (c_str c)) + 1)) with (length (x27 :: show_chars (c_str c) ++ [x27]))
      by (cbn; rewrite length_app; cbn; lia).
    by apply (view_advance q (x27 :: show_chars (c_str c) ++ [x27]) r).
Qed.

Lemma cell_start c : cell_printable c = true → ∃ ch s, show_cell c = ch :: s ∧ atom_start ch = true ∧
  isNameStart ch = false ∧ ch ≠ x28.
Proof.
  unfold show_cell, cell_printable. destruct (bool_decide (c_type c = TypeI64)).
  - intros [[_ H0%Z.leb_le]%andb_true_iff _]%andb_true_iff.
    destruct (FormatUint_digits (c_i64 c) H0) as (_ & ch & s & -> & Hch). exists ch, s. split; [done|].
    destruct (digit_facts ch Hch) as (_ & ? & ? & _). unfold atom_start. by rewrite Hch, orb_true_r.
  - intros _. by eexists _, _.
Qed.

Lemma reads_cell c r : cell_printable c = true → stop r = true → reads (parseAtom self) d (show_cell c ++ r) (ECell c) r.
Proof.
  intros Hc Hr p Hv. destruct (cell_start c Hc) as (ch & s & E & Hat & Hns & Hne).
  destruct (atom_start_facts ch Hat) as (Hsp & _). rewrite E in Hv.
  destruct (atom_no_paren p ch (s ++ r) Hv Hsp Hne) as (p1 & Hp1 & Hv1). unfold parseAtom. rewrite Hp1.
  destruct (view_skip _ _ _ Hv1) as [Hv2 Hs2]. unfold tryName. rewrite trim_head in Hs2 by done. rewrite Hs2, Hns.
  cbn [negb]. destruct (parseValue_cell (skipSpaces p1) c r) as (p3 & -> & Hv3); [by rewrite E|done|done|].
  cbn [bindS]. eauto.
Qed.

End atoms.

(** ** Expressions *)

Lemma stop_cons c r : isNameContinue c = false → stop (c :: r) = true.
Proof. intros Hc. cbn. by rewrite Hc. Qed.

(** Climb from an atom to the loosest level when no operator follows. *)
Lemma reads_level self d s e r : reads (parseAtom self) d s e r → lead s → quiet r → reads (parseOr self) d s e r.
Proof.
  intros Ha [Hm Hn] (_ & Q1 & Q2 & Q3 & Q4 & Q5). unfold parseOr, parseAnd.
  repeat (apply reads_binop0; [repeat constructor; discriminate| |done]). apply reads_not0; [|done].
  repeat (apply reads_binop0; [repeat constructor; discriminate| |done]). by apply reads_neg0.
Qed.

(** A level whose operators do not follow. *)
Ltac level0 :=
  match goal with
  | |- reads (parseBinop _ _) _ _ _ _ =>
      apply reads_binop0; [repeat constructor; discriminate| |first [assumption|reflexivity]]
  | |- reads (parseNot_at _ _) _ _ _ _ => apply reads_not0; [|assumption]
  | |- _ => progress unfold parseNot, parseCmp, parseAdd, parseMul, parseNeg
  end.

(** Climb down to the level of the operator that does. *)
Ltac climb_to x :=
  match goal with
  | |- reads (parseBinop _ _) ?d ?s (EBinOp ?op ?el ?er) ?r =>
      first [ apply reads_binop1 with (s1 := bs " " ++ exprop2str op ++ bs " " ++ x) (s2 := bs " " ++ x);
                [repeat constructor; discriminate| |reflexivity| |assumption]
            | level0; climb_to x ]
  | _ => level0; climb_to x
  end.

(** One operator between two atoms. *)
Lemma reads_op self d s el op x er r :
  op ∈ binary_ops → reads (parseAtom self) d s el (bs " " ++ exprop2str op ++ bs " " ++ x) → lead s →
  reads (parseAtom self) d (bs " " ++ x) er r → lead (bs " " ++ x) → quiet r →
  reads (parseOr self) d s (EBinOp op el er) r.
Proof.
  intros Hop Hl [Hm1 Hn1] Hr [Hm2 Hn2] (_ & Q1 & Q2 & Q3 & Q4 & Q5). unfold parseOr, parseAnd.
  unfold binary_ops in Hop. rewrite !elem_of_cons, elem_of_nil in Hop.
  repeat destruct Hop as [->|Hop].
  13: done.
  all: climb_to x; repeat level0; try (apply reads_neg0; assumption).
Qed.

(** An opening parenthesis hands over to [parseTuple]. *)
Lemma reads_paren self d s e r :
  reads (parseTuple self) (S d) (bs "(" ++ s) e r → S d ≤ maxExprDepth →
  reads (parseAtom self) d (bs "(" ++ s) e r.
Proof.
  intros Ht Hd p Hv. unfold parseAtom, tryPunctuation. destruct (view_skip _ _ _ Hv) as [Hv1 Hs1].
  set (q := skipSpaces p) in *. rewrite Hs1. change (trim (bs "(" ++ s)) with (bs "(" ++ s) in *.
  rewrite (take_app_length' (bs "(")), bytes_equal_refl by done. cbn [negb]. rewrite orb_false_r.
  pose proof (p_rest_length q) as Hl. rewrite Hs1 in Hl. cbn in Hl.
  destruct (Nat.ltb_spec (length (p_buf q)) (p_pos q + length (bs "("))) as [Hlt|Hge]; [cbn in Hlt; lia|].
  apply (reads_nested (parseTuple self) d _ _ _ Ht Hd).
  assert (set_pos (set_pos q (p_pos q + length (bs "("))) (p_pos (set_pos q (p_pos q + length (bs "("))) - 1) = q) as ->.
  { destruct q. unfold set_pos. cbn. f_equal. lia. }
  done.
Qed.

(** *** Comma-separated lists *)

Section lists.
Context {A B : Type} (sh : B → bytes) (item : Parser → A → Parser * res A) (add : A → B → A) (d : nat).

(** What stands behind an item of the list. *)
Fixpoint tail_str (bs' : list B) : bytes :=
  match bs' with
  | [] => bs ")"
  | b :: bs' => bs "," ++ sh b ++ tail_str bs'
  end.

Definition list_str (l : list B) : bytes :=
  match l with
  | [] => bs ")"
  | b :: l => sh b ++ tail_str l
  end.

(** The first item does not look like the closing parenthesis. *)
Definition head_ok (l : list B) : Prop :=
  match l with [] => True | b :: _ => ∀ r, starts id (bs ")") (trim (sh b ++ r)) = false end.

Lemma tail_length l : length l < length (tail_str l).
Proof. induction l as [|b l IH]; cbn [tail_str]; [cbn; lia|]. rewrite !length_app. cbn. lia. Qed.

Lemma trim_tail a l r : length (tail_str l ++ r) ≤ length (trim (a ++ tail_str l ++ r)).
Proof.
  induction a as [|c a IH]; [destruct l; apply Nat.le_refl|]. cbn [app]. unfold trim. cbn [span].
  destruct (isSpace c); [exact IH|]. cbn [drop length]. rewrite (length_app a). lia.
Qed.

Lemma tail_fuel p a l r : view p d (a ++ tail_str l ++ r) → length l < length (p_buf p).
Proof.
  intros (Hp & _ & Hs). pose proof (p_rest_length p) as Hl. pose proof (trim_length (p_rest p)) as Ht. rewrite Hs in Ht.
  pose proof (trim_tail a l r) as Hlt. pose proof (tail_length l). rewrite length_app in Hlt. lia.
Qed.

(** The item is read wherever the list puts it. *)
Definition item_ok (b : B) : Prop := ∀ acc r',
  reads (fun p => item p acc) d (sh b ++ bs "," ++ r') (add acc b) (bs "," ++ r') ∧
  reads (fun p => item p acc) d (sh b ++ bs ")" ++ r') (add acc b) (bs ")" ++ r').

Lemma item_before_tail b l acc r : item_ok b →
  reads (fun p => item p acc) d (sh b ++ tail_str l ++ r) (add acc b) (tail_str l ++ r).
Proof. intros Hb. destruct l as [|b' l]; cbn [tail_str]; rewrite <- ?(assoc_L (++)); apply Hb. Qed.

Lemma comma_tail l : ∀ fuel acc r p,
  Forall item_ok l → length l < fuel → view p d (tail_str l ++ r) →
  ∃ p', comma_loop item fuel true p acc = (p', Ok (foldl add acc l)) ∧ view p' d r.
Proof.
  induction l as [|b l IH]; intros fuel acc r p Hi Hf Hv; (destruct fuel as [|fuel]; [lia|]); cbn [comma_loop tail_str foldl] in *.
  - destruct (punct_view _ _ _ (bs ")") Hv) as (p1 & -> & Hv1). change (starts id (bs ")") (trim (bs ")" ++ r))) with true in *.
    eauto.
  - inversion Hi as [|? ? Hb Hi']; subst. rewrite <- !(assoc_L (++)) in Hv.
    destruct (punct_view _ _ _ (bs ")") Hv) as (p1 & -> & Hv1).
    change (starts id (bs ")") (trim (bs "," ++ sh b ++ tail_str l ++ r))) with false in *. cbv iota in *.
    destruct (punct_view _ _ _ (bs ",") Hv1) as (p2 & -> & Hv2).
    change (starts id (bs ",") (trim (bs "," ++ sh b ++ tail_str l ++ r))) with true in *. cbn [expect bindS].
    change (drop (length (bs ",")) (trim (bs "," ++ sh b ++ tail_str l ++ r))) with (sh b ++ tail_str l ++ r) in Hv2.
    destruct (item_before_tail b l acc r Hb p2 Hv2) as (p3 & -> & Hv3).
    cbn [bindS]. apply IH; [done|cbn in Hf; lia|done].
Qed.

Lemma reads_list acc l r :
  head_ok l → Forall item_ok l →
  reads (fun p => parseCommaList item p acc) d (bs "(" ++ list_str l ++ r) (foldl add acc l) r.
Proof.
  intros Hh Hi p Hv. unfold parseCommaList. destruct (punct_view _ _ _ (bs "(") Hv) as (p1 & -> & Hv1).
  change (starts id (bs "(") (trim (bs "(" ++ list_str l ++ r))) with true in *. cbn [expect bindS].
  change (drop (length (bs "(")) (trim (bs "(" ++ list_str l ++ r))) with (list_str l ++ r) in Hv1.
  destruct l as [|b l]; cbn [list_str comma_loop foldl] in *.
  - destruct (punct_view _ _ _ (bs ")") Hv1) as (p2 & -> & Hv2). change (starts id (bs ")") (trim (bs ")" ++ r))) with true in *.
    eauto.
  - inversion Hi as [|? ? Hb Hi']; subst. rewrite <- (assoc_L (++)) in Hv1.
    destruct (punct_view _ _ _ (bs ")") Hv1) as (p2 & Ht & Hv2). rewrite Hh in Ht, Hv2. rewrite Ht. cbn [bindS].
    destruct (item_before_tail b l acc r Hb p2 Hv2) as (p3 & -> & Hv3).
    cbn [bindS]. apply comma_tail; [done| |done]. by eapply (tail_fuel p1 (sh b)).
Qed.

End lists.

Lemma foldl_snoc {B} (acc l : list B) : foldl (fun acc b => acc ++ [b]) acc l = acc ++ l.
Proof.
  revert acc. induction l as [|b l IH]; intros acc; cbn [foldl]; [by rewrite app_nil_r|].
  by rewrite IH, <- (assoc_L (++)).
Qed.

(** *** Tuples and parentheses *)

Lemma quiet_paren r : quiet (bs ")" ++ r).
Proof. by repeat split. Qed.
Lemma quiet_comma r : quiet (bs "," ++ r).
Proof. by repeat split. Qed.
Lemma quiet_semicolon r : quiet (bs ";" ++ r).
Proof. by repeat split. Qed.

Lemma show_list_str kids : show_list (map show kids) ++ bs ")" = list_str show kids.
Proof.
  destruct kids as [|k kids]; [done|]. cbn [list_str map]. revert k.
  induction kids as [|k' kids IH]; intros k; [done|]. cbn [map show_list tail_str] in *.
  rewrite <- !(assoc_L (++)). do 2 f_equal. apply IH.
Qed.

Section tuples.
Context (self : Parser → Parser * res expr) (d : nat).

Definition tuple_item (p : Parser) (kids : list expr) : Parser * res (list expr) :=
  let! (p, e) := self p in (p, Ok (kids ++ [e])).

Lemma reads_item acc s e r : reads self d s e r → reads (fun p => tuple_item p acc) d s (acc ++ [e]) r.
Proof. intros Hs p Hv. destruct (Hs p Hv) as (p' & E & Hv'). unfold tuple_item. rewrite E. cbn [bindS]. eauto. Qed.

Lemma reads_items sh (es : list expr) r :
  head_ok sh es → Forall (fun e => ∀ r, quiet r → reads self d (sh e ++ r) e r) es →
  reads (fun p => parseCommaList tuple_item p []) d (bs "(" ++ list_str sh es ++ r) es r.
Proof.
  intros Hsh He. pose proof (foldl_snoc [] es) as Hf. cbn [app] in Hf. rewrite <- Hf at 2.
  apply reads_list; [done|]. eapply Forall_impl; [exact He|]. intros e Hr acc r'.
  split; apply reads_item, Hr; [apply quiet_comma|apply quiet_paren].
Qed.

(** Parentheses around one expression. *)
Lemma reads_tuple1 body e r :
  (∀ r, quiet r → reads self d (body ++ r) e r) → (∀ r, starts id (bs ")") (trim (body ++ r)) = false) →
  reads (parseTuple self) d (bs "(" ++ body ++ bs ")" ++ r) e r.
Proof.
  intros Hb Hs p Hv. destruct (reads_items (fun _ => body) [e] r) with (p := p) as (p' & E & Hv').
  - exact Hs.
  - by constructor.
  - cbn [list_str tail_str]. by rewrite <- (assoc_L (++)).
  - unfold parseTuple. unfold tuple_item in E. rewrite E. cbn [bindS]. eauto.
Qed.

Lemma reads_tuple es r :
  head_ok show es → 2 ≤ length es →
  Forall (fun e => ∀ r, quiet r → reads self d (show e ++ r) e r) es →
  reads (parseTuple self) d (show (ETuple es) ++ r) (ETuple es) r.
Proof.
  intros Hs Hl He p Hv. cbn [show] in Hv. rewrite show_list_str, <- (assoc_L (++)) in Hv.
  destruct (reads_items show es r Hs He p Hv) as (p' & E & Hv'). unfold parseTuple. unfold tuple_item in E.
  rewrite E. cbn [bindS]. destruct es as [|e1 [|e2 es]]; cbn in Hl; try lia. eauto.
Qed.

End tuples.

(** ** Printed expressions *)

Lemma show_start e : printable e = true → ∃ c s, show e = c :: s ∧ atom_start c = true.
Proof.
  destruct e as [name|cell|op kid|op el er|kids|]; cbn [printable show]; intros Hp; try done; try (by eexists _, _).
  - destruct (name_chars name Hp) as (_ & c & s & -> & Hc & _). exists c, s. split; [done|]. unfold atom_start. by rewrite Hc.
  - destruct (cell_start cell Hp) as (c & s & -> & Hc & _). eauto.
Qed.

Lemma show_lead e r : printable e = true → stop r = true → lead (show e ++ r).
Proof.
  intros Hp Hr. destruct e as [name|cell|op kid|op el er|kids|]; cbn [printable show] in *; try done; try (by apply other_lead).
  - by apply name_lead.
  - destruct (cell_start cell Hp) as (c & s & -> & Hc & Hn & _). by apply other_lead.
Qed.

Lemma atom_no_close c : atom_start c = true → c ≠ x29.
Proof. by destruct c. Qed.

Lemma show_no_close e r : printable e = true → starts id (bs ")") (trim (show e ++ r)) = false.
Proof.
  intros Hp. destruct (show_start e Hp) as (c & s & -> & Hc). destruct (atom_start_facts c Hc) as (Hs & _).
  rewrite <- app_comm_cons, trim_head by done. apply (starts_miss id x29 []). by apply atom_no_close.
Qed.

Lemma forallb_ids {A} (f : A → bool) l : forallb (fun b => b) (map f l) = true ↔ Forall (fun x => f x = true) l.
Proof.
  induction l as [|x l IH]; [by split|]. cbn. rewrite andb_true_iff, IH. split; [intros []; by constructor|].
  by inversion 1.
Qed.

Lemma list_max_in (f : expr → nat) e kids : e ∈ kids → f e ≤ list_max (map f kids).
Proof.
  induction kids as [|k kids IH]; [by intros ?%elem_of_nil|].
  change (list_max (map f (k :: kids))) with (Nat.max (f k) (list_max (map f kids))).
  intros [->|H]%elem_of_cons; [lia|]. apply IH in H. lia.
Qed.

(** What the induction shows of an expression. *)
Definition shown_ok (e : expr) : Prop :=
  printable e = true → ∀ fuel d r, pdepth e + d ≤ maxExprDepth → maxExprDepth ≤ fuel + d → stop r = true →
  reads (parseAtom (parseExpr_at fuel)) d (show e ++ r) e r.

(** An expression in the place of a whole sub-expression. *)
Lemma reads_whole fuel d e r :
  shown_ok e → printable e = true → pdepth e + d ≤ maxExprDepth → maxExprDepth < fuel + d → quiet r →
  reads (parseExpr_at fuel) d (show e ++ r) e r.
Proof.
  intros He Hp Hd Hf Hq. destruct fuel as [|fuel]; [lia|]. pose proof Hq as (Hr & _).
  apply reads_level; [|by apply show_lead|done]. apply He; [done|lia|lia|done].
Qed.

Lemma reads_neg_body fuel d kid r :
  shown_ok kid → printable kid = true → S (pdepth kid + d) ≤ maxExprDepth → maxExprDepth < fuel + d → quiet r →
  reads (parseExpr_at fuel) d ((bs "-" ++ show kid) ++ r) (EUnOp OP_NEG kid) r.
Proof.
  intros He Hp Hd Hf Hq. destruct fuel as [|fuel]; [lia|]. pose proof Hq as (Hr & Q1 & Q2 & Q3 & Q4 & Q5).
  rewrite <- (assoc_L (++)). change (parseExpr_at (S fuel)) with (parseOr (parseExpr_at fuel)).
  unfold parseOr, parseAnd.
  repeat (apply reads_binop0; [repeat constructor; discriminate| |done]). apply reads_not0; [|done].
  repeat (apply reads_binop0; [repeat constructor; discriminate| |done]).
  eapply reads_neg1; [done| |lia]. apply reads_neg0; [|by apply show_lead]. apply He; [done|lia|lia|done].
Qed.

Lemma reads_not_body fuel d kid r :
  shown_ok kid → printable kid = true → S (pdepth kid + d) ≤ maxExprDepth → maxExprDepth < fuel + d → quiet r →
  reads (parseExpr_at fuel) d ((bs "NOT " ++ show kid) ++ r) (EUnOp OP_NOT kid) r.
Proof.
  intros He Hp Hd Hf Hq. destruct fuel as [|fuel]; [lia|]. pose proof Hq as (Hr & Q1 & Q2 & Q3 & Q4 & Q5).
  rewrite <- (assoc_L (++)). change (parseExpr_at (S fuel)) with (parseOr (parseExpr_at fuel)).
  unfold parseOr, parseAnd, parseNot.
  repeat (apply reads_binop0; [repeat constructor; discriminate| |done]).
  eapply reads_not1; [done| |lia]. apply reads_not0; [|by apply show_lead].
  repeat (apply reads_binop0; [repeat constructor; discriminate| |done]).
  apply reads_neg0; [|by apply show_lead]. apply He; [done|lia|lia|done].
Qed.

Lemma lead_space s : lead s → lead (bs " " ++ s).
Proof. done. Qed.

Lemma reads_space {A} (f : Parser → Parser * res A) d s a r : reads f d s a r → reads f d (bs " " ++ s) a r.
Proof. done. Qed.

Lemma reads_binop_body fuel d op el er r :
  op ∈ binary_ops → shown_ok el → shown_ok er → printable el = true → printable er = true →
  Nat.max (pdepth el) (pdepth er) + d ≤ maxExprDepth → maxExprDepth < fuel + d → quiet r →
  reads (parseExpr_at fuel) d ((show el ++ bs " " ++ exprop2str op ++ bs " " ++ show er) ++ r) (EBinOp op el er) r.
Proof.
  intros Hop Hl He Hpl Hpr Hd Hf Hq. destruct fuel as [|fuel]; [lia|]. pose proof Hq as (Hr & _).
  rewrite <- !(assoc_L (++)). eapply reads_op; [done| | | | |done].
  - apply Hl; [done|lia|lia|done].
  - by apply show_lead.
  - apply reads_space, He; [done|lia|lia|done].
  - by apply lead_space, show_lead.
Qed.

Lemma shown e : shown_ok e.
Proof.
  induction e as [name|cell|op kid IH|op el er IHl IHr|kids IH|] using expr_ind'; intros Hp fuel d r Hd Hf Hr;
    cbn [printable pdepth] in *.
  - by apply reads_name.
  - by apply reads_cell.
  - apply andb_true_iff in Hp as [Hop Hp]. cbn [show].
    destruct (Z.eqb_spec op OP_NEG) as [->|Hne].
    + rewrite <- !(assoc_L (++)), (assoc_L (++) (bs "-")).
      apply reads_paren; [|lia]. apply reads_tuple1; [|done]. intros r' Hq. apply reads_neg_body; try done; lia.
    + apply Z.eqb_eq in Hop as ->. rewrite <- !(assoc_L (++)), (assoc_L (++) (bs "NOT ")).
      apply reads_paren; [|lia]. apply reads_tuple1; [|done]. intros r' Hq. apply reads_not_body; try done; lia.
  - apply andb_true_iff in Hp as [[Hop Hpl]%andb_true_iff Hpr].
    assert (op ∈ binary_ops) as Hin.
    { apply existsb_exists in Hop as (x & Hx & ->%Z.eqb_eq). by apply list_elem_of_In. }
    replace (show (EBinOp op el er) ++ r) with
      (bs "(" ++ (show el ++ bs " " ++ exprop2str op ++ bs " " ++ show er) ++ bs ")" ++ r)
      by (cbn [show]; by rewrite <- !(assoc_L (++))).
    apply reads_paren; [|lia]. apply reads_tuple1.
    + intros r' Hq. apply reads_binop_body; try done; lia.
    + intros r'. rewrite <- (assoc_L (++)). by apply show_no_close.
  - apply andb_true_iff in Hp as [Hlen%Nat.leb_le Hall%forallb_ids].
    assert (reads (parseTuple (parseExpr_at fuel)) (S d) (show (ETuple kids) ++ r) (ETuple kids) r) as Ht.
    { apply reads_tuple; [|done|].
      - destruct kids as [|k kids]; [done|]. inversion Hall; subst. intros r'. by apply show_no_close.
      - apply Forall_forall. intros k Hk r' Hq. rewrite Forall_forall in IH, Hall.
        pose proof (list_max_in pdepth k kids Hk). apply reads_whole; [by apply IH|by apply Hall|lia|lia|done]. }
    change (show (ETuple kids)) with (bs "(" ++ show_list (map show kids) ++ bs ")") in *.
    rewrite <- (assoc_L (++)) in *. apply reads_paren; [done|lia].
  - done.
Qed.

(** The parser reads a printed expression. *)
Lemma parseExpr_show e r :
  printable e = true → pdepth e ≤ maxExprDepth → quiet r → reads parseExpr 0 (show e ++ r) e r.
Proof. intros Hp Hd Hq. apply reads_whole; [apply shown|done|lia|lia|done]. Qed.
