(* ===== verification/ParserStmt.v ===== *)
(** * The parser reads back printed statements *)

From Stdlib Require Import ZArith Lia.
From Stdlib.Strings Require Import Byte.
From stdpp Require Import base list numbers.
From S2P Require Import Prelude GoLib Cell Row Sql Entry Parser ParserProofs ParserPrint.

Open Scope nat_scope.

(** ** Printing *)

(** A table or column name, the word NOT included. *)
Definition ident_ok (name : bytes) : bool :=
  match name with
  | ch :: s => isNameStart ch && forallb isNameContinue s
  | [] => false
  end.

(** [show] of each item with commas between them. *)
Fixpoint commas {A} (sh : A → bytes) (l : list A) : bytes :=
  match l with
  | [] => []
  | a :: l => bs "," ++ sh a ++ commas sh l
  end.

Definition show_where (cond : option expr) : bytes :=
  match cond with None => [] | Some e => bs " WHERE " ++ show e end.

Definition show_limit (limit offset : Z) : bytes :=
  if (limit <? 0)%Z then [] else bs " LIMIT " ++ FormatUint limit ++ bs " OFFSET " ++ FormatUint offset.

Definition show_value (c : Cell) : bytes :=
  if bool_decide (c_type c = TypeI64) then FormatInt (c_i64 c) else show_string (c_str c).

Definition show_type (t : byte) : bytes := if bool_decide (t = TypeI64) then bs "int64" else bs "string".

Inductive create_item := ICol (c : Column) | IPKey (names : list bytes) | IIndex (names : list bytes).

Definition show_names (names : list bytes) : bytes := bs "(" ++ list_str (fun n => n) names.

Definition show_item (i : create_item) : bytes :=
  match i with
  | ICol c => col_Name c ++ bs " " ++ show_type (col_Type c)
  | IPKey names => bs "PRIMARY KEY " ++ show_names names
  | IIndex names => bs "INDEX " ++ show_names names
  end.

Definition create_items (s : StmtCreatTable) : list create_item :=
  map ICol (ct_cols s) ++ [IPKey (ct_pkey s)] ++ map IIndex (ct_indices s).

Definition show_assign (a : ExprAssign) : bytes := as_column a ++ bs " = " ++ show (as_expr a).

Definition show_stmt (s : stmt) : bytes :=
  match s with
  | SSelect s =>
      bs "SELECT " ++ match sel_cols s with [] => [] | c :: cols => show c ++ commas show cols end ++
      bs " FROM " ++ sel_table s ++ show_where (sel_cond s) ++ show_limit (sel_limit s) (sel_offset s) ++ bs ";"
  | SCreateTable s => bs "CREATE TABLE " ++ ct_table s ++ bs " (" ++ list_str show_item (create_items s) ++ bs ";"
  | SInsert s => bs "INSERT INTO " ++ ins_table s ++ bs " VALUES (" ++ list_str show_value (ins_value s) ++ bs ";"
  | SUpdate s =>
      bs "UPDATE " ++ upd_tbl s ++ bs " SET " ++
      match upd_value s with [] => [] | a :: l => show_assign a ++ commas show_assign l end ++
      show_where (upd_cond s) ++ bs ";"
  | SDelete s => bs "DELETE FROM " ++ del_table s ++ show_where (del_cond s) ++ bs ";"
  | SDropTable s => bs "DROP TABLE " ++ drop_table s ++ bs ";"
  end.

(** ** What can be printed *)

Definition expr_ok (e : expr) : bool := printable e && (pdepth e <=? maxExprDepth).
Definition cond_ok (cond : option expr) : bool := match cond with None => true | Some e => expr_ok e end.

(** A column of a select list: not one named FROM, which ends the list. *)
Definition col_ok (e : expr) : bool :=
  match e with
  | EStar => true
  | EName name => expr_ok e && negb (EqualFold name (bs "FROM"))
  | _ => expr_ok e
  end.

Definition value_ok (c : Cell) : bool :=
  if bool_decide (c_type c = TypeI64) then bool_decide (c_str c = []) && bool_decide (is_i64 (c_i64 c))
  else cell_printable c.

Definition column_ok (c : Column) : bool :=
  ident_ok (col_Name c) && negb (EqualFold (col_Name c) (bs "INDEX")) &&
  (bool_decide (col_Type c = TypeI64) || bool_decide (col_Type c = TypeStr)).

Definition is_i63 (n : Z) : bool := ((0 <=? n) && (n <? 2 ^ 63))%Z.

Definition stmt_ok (s : stmt) : bool :=
  match s with
  | SSelect s => ident_ok (sel_table s) && negb (bool_decide (sel_cols s = [])) && forallb col_ok (sel_cols s) &&
      cond_ok (sel_cond s) &&
      (((sel_limit s =? -1) && (sel_offset s =? 0))%Z || (is_i63 (sel_limit s) && is_i63 (sel_offset s)))
  | SCreateTable s => ident_ok (ct_table s) && forallb column_ok (ct_cols s) && forallb ident_ok (ct_pkey s) &&
      forallb (forallb ident_ok) (ct_indices s)
  | SInsert s => ident_ok (ins_table s) && forallb value_ok (ins_value s)
  | SUpdate s => ident_ok (upd_tbl s) && negb (bool_decide (upd_value s = [])) &&
      forallb (fun a => ident_ok (as_column a) && expr_ok (as_expr a)) (upd_value s) && cond_ok (upd_cond s)
  | SDelete s => ident_ok (del_table s) && cond_ok (del_cond s)
  | SDropTable s => ident_ok (drop_table s)
  end.

(** ** Composition *)

Lemma reads_bind {A B} (f : Parser → Parser * res A) (g : Parser → A → Parser * res B) d s a s' b s'' :
  reads f d s a s' → reads (fun p => g p a) d s' b s'' → reads (fun p => bindS (f p) g) d s b s''.
Proof.
  intros Hf Hg p Hv. destruct (Hf p Hv) as (p1 & E & Hv1). rewrite E. cbn [bindS]. by apply Hg.
Qed.

Lemma reads_ret {A} d s (a : A) : reads (fun p => (p, Ok a)) d s a s.
Proof. intros p Hv. eauto. Qed.

Fixpoint words_at (kws : list bytes) (s : bytes) : option bytes :=
  match kws with
  | [] => Some s
  | kw :: kws => if word_at kw (trim s) then words_at kws (drop (length kw) (trim s)) else None
  end.

Definition hit {A} (o : option A) : bool := match o with Some _ => true | None => false end.

Lemma words_loop kws d s0 save : ∀ p s,
  view p d s → Forall (fun kw => kw ≠ []) kws →
  (∀ q, p_ok q → p_buf q = p_buf p → p_depth q = d → view (set_pos q save) d s0) →
  ∃ p', keyword_loop save p kws = (p', hit (words_at kws s)) ∧ view p' d (default s0 (words_at kws s)).
Proof.
  induction kws as [|kw kws IH]; intros p s Hv Hk Hsave; cbn [keyword_loop words_at].
  { by eexists. }
  inversion Hk as [|? ? Hne Hk']; subst. destruct (view_skip _ _ _ Hv) as [Hv' Hr].
  set (q := skipSpaces p) in *. pose proof Hv' as (Hq & Hqd & Hqs). pose proof (p_rest_length q) as Hl.
  assert (∃ p', (set_pos q save, false) = (p', @hit bytes None) ∧ view p' d (default s0 None)) as Hback.
  { eexists. split; [done|]. by apply Hsave. }
  rewrite Hr, <- starts_fold. unfold word_at. destruct (starts lower kw (trim s)) eqn:E; cbn [negb andb].
  2: { by rewrite orb_true_r. }
  apply starts_length in E as Hlen. rewrite Hr in Hl.
  destruct (Nat.ltb_spec (length (p_buf q)) (p_pos q + length kw)) as [Hlt|Hge]; cbn [orb].
  { exfalso. destruct Hq. lia. }
  assert (p_buf q !! (p_pos q + length kw) = trim s !! length kw) as ->.
  { rewrite <- Hr. unfold p_rest. by rewrite lookup_drop. }
  assert (view (set_pos q (p_pos q + length kw)) d (drop (length kw) (trim s))) as Hgo.
  { split; [|split; [done|]].
    - split; [done|apply Hq].
    - by rewrite (set_pos_rest q), Hr. }
  destruct (trim s !! length kw) as [ch|]; [destruct (isSeparator ch)|]; cbn [negb]; try done; by apply IH.
Qed.

Lemma words_view p d s kws :
  view p d s → Forall (fun kw => kw ≠ []) kws →
  ∃ p', tryKeyword p kws = (p', hit (words_at kws s)) ∧ view p' d (default s (words_at kws s)).
Proof.
  intros Hv Hk. apply words_loop; [done|done|]. intros q Hq Hb Hd. destruct Hv as (Hp & Hdp & Hs).
  split; [|split; [done|]].
  - split; [cbn; rewrite Hb; apply Hp|apply Hq].
  - rewrite <- Hs. unfold p_rest. cbn. by rewrite Hb.
Qed.

Lemma reads_word d s kw msg s' :
  words_at [kw] s = Some s' → kw ≠ [] → reads (fun p => expect (tryKeyword p [kw]) msg) d s tt s'.
Proof.
  intros Hw Hk p Hv. destruct (words_view p d s [kw] Hv) as (p' & -> & Hv'); [by constructor|].
  rewrite Hw in *. cbn [hit expect]. eauto.
Qed.

Lemma reads_punct d tok msg s' :
  trim (tok ++ s') = tok ++ s' → reads (fun p => expect (tryPunctuation p tok) msg) d (tok ++ s') tt s'.
Proof.
  intros Ht p Hv. destruct (punct_view p d _ tok Hv) as (p' & -> & Hv'). rewrite Ht in *.
  rewrite starts_take, take_app_length, bytes_equal_refl in *. rewrite drop_app_length in Hv'. cbn [expect]. eauto.
Qed.

Lemma ident_chars name : ident_ok name = true →
  forallb isNameContinue name = true ∧ ∃ c s, name = c :: s ∧ isNameStart c = true.
Proof.
  unfold ident_ok. destruct name as [|c s]; [done|]. intros [Hc Hs]%andb_true_iff.
  destruct (name_start_facts c Hc) as [Hcc _]. split; [cbn; by rewrite Hcc, Hs|eauto].
Qed.

Lemma reads_ident d name r msg :
  ident_ok name = true → stop r = true → reads (fun p => expect_name (tryName p) msg) d (name ++ r) name r.
Proof.
  intros Hn Hr p Hv. destruct (ident_chars name Hn) as (Hall & Hc).
  destruct (tryName_view d p name r Hv Hall Hr Hc) as (p' & -> & Hv'). cbn. eauto.
Qed.

(** ** Clauses *)

Lemma reads_end d : reads parseEnd d (bs ";") tt [].
Proof. by apply (reads_punct d (bs ";") _ []). Qed.

(** What may follow a condition: nothing that an expression could continue with. *)
Lemma reads_where cond r :
  cond_ok cond = true → quiet r → words_at [bs "WHERE"] r = None → reads parseWhere 0 (show_where cond ++ r) cond r.
Proof.
  intros Hc Hq Hw p Hv. unfold parseWhere. destruct (words_view p 0 _ [bs "WHERE"] Hv) as (p' & -> & Hv'); [by constructor|].
  destruct cond as [e|]; cbn [show_where] in *.
  - rewrite <- (assoc_L (++)) in *. change (words_at [bs "WHERE"] (bs " WHERE " ++ show e ++ r)) with (Some (bs " " ++ show e ++ r)) in *.
    cbn [hit default] in *. apply andb_true_iff in Hc as [Hp Hd%Nat.leb_le].
    destruct (parseExpr_show e r Hp Hd Hq p') as (p2 & -> & Hv2); [exact Hv'|]. cbn [bindS]. eauto.
  - rewrite app_nil_l in *. rewrite Hw in *. cbn [hit]. eauto.
Qed.

Lemma show_uint n : is_i63 n = true → show_cell (MkCell TypeI64 n []) = FormatUint n ∧ cell_printable (MkCell TypeI64 n []) = true.
Proof. intros Hn. split; [done|]. unfold cell_printable. cbn. unfold is_i63 in Hn. exact Hn. Qed.

Lemma reads_count d n r : is_i63 n = true → stop r = true → reads parseCount d (FormatUint n ++ r) n r.
Proof.
  intros Hn Hr p Hv. destruct (show_uint n Hn) as [Hs Hp].
  destruct (parseValue_cell d p (MkCell TypeI64 n []) r) as (p' & E & Hv'); [by rewrite Hs|done|done|].
  unfold parseCount. rewrite E. cbn [bindS c_type c_i64]. rewrite bool_decide_true by done.
  apply andb_true_iff in Hn as [H0%Z.leb_le _]. destruct (Z.ltb_spec n 0); [lia|]. cbn. eauto.
Qed.

Lemma reads_limit d limit offset r :
  ((limit =? -1) && (offset =? 0))%Z || (is_i63 limit && is_i63 offset) = true →
  stop r = true → words_at [bs "LIMIT"] r = None →
  reads parseLimit d (show_limit limit offset ++ r) (limit, offset) r.
Proof.
  intros Hl Hr Hw p Hv. unfold parseLimit, show_limit in *.
  destruct (words_view p d _ [bs "LIMIT"] Hv) as (p' & -> & Hv'); [by constructor|].
  apply orb_true_iff in Hl as [[->%Z.eqb_eq ->%Z.eqb_eq]%andb_true_iff|[Hl Ho]%andb_true_iff].
  - cbn [Z.ltb Z.compare] in *. rewrite app_nil_l in *. rewrite Hw in *. cbn [hit]. eauto.
  - pose proof Hl as [H0%Z.leb_le _]%andb_true_iff. destruct (Z.ltb_spec limit 0); [lia|].
    rewrite <- !(assoc_L (++)) in *.
    change (words_at [bs "LIMIT"] (bs " LIMIT " ++ FormatUint limit ++ bs " OFFSET " ++ FormatUint offset ++ r))
      with (Some (bs " " ++ FormatUint limit ++ bs " OFFSET " ++ FormatUint offset ++ r)) in *. cbn [hit default] in *.
    destruct (reads_count d limit (bs " OFFSET " ++ FormatUint offset ++ r) Hl eq_refl p') as (p2 & -> & Hv2); [exact Hv'|].
    cbn [bindS]. destruct (words_view p2 d _ [bs "OFFSET"] Hv2) as (p3 & -> & Hv3); [by constructor|].
    change (words_at [bs "OFFSET"] (bs " OFFSET " ++ FormatUint offset ++ r)) with (Some (bs " " ++ FormatUint offset ++ r)) in *.
    cbn [hit default] in *. destruct (reads_count d offset r Ho Hr p3) as (p4 & -> & Hv4); [exact Hv3|]. cbn [bindS]. eauto.
Qed.

(** ** Keywords of a statement *)

Lemma kw_miss p d s kws :
  view p d s → Forall (fun kw => kw ≠ []) kws → words_at kws s = None →
  ∃ p', tryKeyword p kws = (p', false) ∧ view p' d s.
Proof. intros Hv Hk Hw. destruct (words_view p d s kws Hv Hk) as (p' & H1 & H2). rewrite Hw in *. eauto. Qed.

Lemma kw_hit p d s kws s' :
  view p d s → Forall (fun kw => kw ≠ []) kws → words_at kws s = Some s' →
  ∃ p', tryKeyword p kws = (p', true) ∧ view p' d s'.
Proof. intros Hv Hk Hw. destruct (words_view p d s kws Hv Hk) as (p' & H1 & H2). rewrite Hw in *. eauto. Qed.

(** Pass over the statements that [Hv] is not. *)
Ltac skip_kw Hv :=
  match goal with
  | |- context [tryKeyword ?p ?kws] =>
      destruct (kw_miss p _ _ kws Hv) as (? & -> & Hv'); [repeat constructor; discriminate|reflexivity|];
      clear Hv; rename Hv' into Hv
  end.

(** Enter the statement that it is. *)
Ltac take_kw Hv s' :=
  match goal with
  | |- context [tryKeyword ?p ?kws] =>
      destruct (kw_hit p _ _ kws s' Hv) as (? & -> & Hv'); [repeat constructor; discriminate|reflexivity|];
      clear Hv; rename Hv' into Hv
  end.

(** The statement itself, behind its keywords. *)
Ltac enter Hv f con s s' :=
  apply (reads_bind f (fun p x => (p, Ok (con x))) 0 s' s [] (con s) []); [|apply reads_ret|exact Hv]; clear Hv.

Lemma reads_drop s : ident_ok (drop_table s) = true → reads parseStmt 0 (show_stmt (SDropTable s)) (SDropTable s) [].
Proof.
  intros Ht p Hv. cbn [show_stmt] in Hv. unfold parseStmt. do 5 skip_kw Hv.
  take_kw Hv (bs " " ++ drop_table s ++ bs ";"). enter Hv parseDropTable SDropTable s (bs " " ++ drop_table s ++ bs ";").
  apply reads_space. eapply reads_bind; [by apply reads_ident|]. eapply reads_bind; [apply reads_end|].
  destruct s. apply reads_ret.
Qed.

Lemma reads_delete s :
  ident_ok (del_table s) && cond_ok (del_cond s) = true → reads parseStmt 0 (show_stmt (SDelete s)) (SDelete s) [].
Proof.
  intros [Ht Hc]%andb_true_iff p Hv. cbn [show_stmt] in Hv. unfold parseStmt. do 4 skip_kw Hv.
  set (s' := bs " " ++ del_table s ++ show_where (del_cond s) ++ bs ";"). take_kw Hv s'. enter Hv parseDelete SDelete s s'.
  apply reads_space. eapply reads_bind; [apply reads_ident; [done|by destruct (del_cond s)]|].
  eapply reads_bind; [apply reads_where; [done|apply (quiet_semicolon [])|done]|].
  eapply reads_bind; [apply reads_end|]. destruct s. apply reads_ret.
Qed.

(** *** INSERT *)

Lemma parseValue_value d p c r :
  view p d (show_value c ++ r) → value_ok c = true → stop r = true →
  ∃ p', parseValue p = (p', Ok c) ∧ view p' d r.
Proof.
  intros Hv Hc Hr. unfold show_value, value_ok in *.
  destruct (bool_decide_reflect (c_type c = TypeI64)) as [Ht|Ht].
  2: { apply parseValue_cell; [|done|done]. unfold show_cell. by rewrite bool_decide_false. }
  apply andb_true_iff in Hc as [Hs%bool_decide_eq_true Hi%bool_decide_eq_true].
  unfold FormatInt in *. destruct (Z.ltb_spec (c_i64 c) 0) as [Hneg|Hpos].
  2: { apply parseValue_cell; [|unfold cell_printable|done].
       - unfold show_cell. by rewrite bool_decide_true.
       - rewrite !bool_decide_true by done. unfold is_i64 in Hi. cbn. apply andb_true_iff. lia. }
  destruct (view_skip _ _ _ Hv) as [Hv1 Hs1]. unfold parseValue. set (q := skipSpaces p) in *.
  rewrite <- (assoc_L (++)) in *.
  change (trim (bs "-" ++ FormatUint (- c_i64 c) ++ r)) with (x2d :: FormatUint (- c_i64 c) ++ r) in Hs1.
  rewrite Hs1. change (bool_decide (x2d = x22) || bool_decide (x2d = x27)) with false. cbv iota.
  change (isDigit x2d || is_sign x2d) with true. cbv iota. unfold parseInt. rewrite Hs1.
  change (is_sign x2d) with true. cbv iota.
  destruct (FormatUint_digits (- c_i64 c)) as (Hall & ch & s & E & Hch); [lia|].
  rewrite span_app; [|done|].
  2: { apply stop_span in Hr. destruct r as [|x r]; [done|]. unfold isNameContinue in Hr.
       apply orb_false_iff in Hr as [[_ Hr]%orb_false_iff _]. done. }
  assert (take (S (length (FormatUint (- c_i64 c)))) (x2d :: FormatUint (- c_i64 c) ++ r) = x2d :: FormatUint (- c_i64 c)) as ->.
  { cbn [take]. by rewrite take_app_length. }
  assert (ParseInt (x2d :: FormatUint (- c_i64 c)) = Ok (c_i64 c)) as ->.
  { unfold ParseInt. cbn [split_sign]. rewrite bool_decide_false by (rewrite E; done).
    change is_digit with isDigit. rewrite Hall. cbn [negb orb].
    assert (digits_value (FormatUint (- c_i64 c)) = - c_i64 c)%Z as -> by (apply format_digits_value; unfold is_i64 in Hi; cbn; lia).
    rewrite Z.opp_involutive. by rewrite bool_decide_true. }
  assert (MkCell TypeI64 (c_i64 c) [] = c) as -> by (destruct c; cbn in *; by subst).
  eexists. split; [done|].
  apply (view_advance d q (x2d :: FormatUint (- c_i64 c)) r); [|exact Hs1]. exact Hv1.
Qed.

Lemma value_no_close c r : value_ok c = true → starts id (bs ")") (trim (show_value c ++ r)) = false.
Proof.
  unfold show_value, value_ok. destruct (bool_decide_reflect (c_type c = TypeI64)) as [Ht|Ht]; [|done].
  intros _. unfold FormatInt. destruct (Z.ltb_spec (c_i64 c) 0) as [Hneg|Hpos]; [done|].
  destruct (FormatUint_digits (c_i64 c) Hpos) as (_ & ch & s & -> & Hch).
  assert (atom_start ch = true) as Hat by (unfold atom_start; by rewrite Hch, orb_true_r).
  destruct (atom_start_facts ch Hat) as (Hsp & _). rewrite <- app_comm_cons, trim_head by done.
  apply (starts_miss id x29 []). by apply atom_no_close.
Qed.

Lemma reads_insert s :
  ident_ok (ins_table s) && forallb value_ok (ins_value s) = true →
  reads parseStmt 0 (show_stmt (SInsert s)) (SInsert s) [].
Proof.
  intros [Ht Hall]%andb_true_iff p Hv. cbn [show_stmt] in Hv. unfold parseStmt. do 2 skip_kw Hv.
  set (s' := bs " " ++ ins_table s ++ bs " VALUES (" ++ list_str show_value (ins_value s) ++ bs ";").
  take_kw Hv s'. enter Hv parseInsert SInsert s s'. apply reads_space.
  eapply reads_bind; [by apply reads_ident|].
  eapply reads_bind; [apply (reads_word 0 _ (bs "VALUES") _ (bs " (" ++ list_str show_value (ins_value s) ++ bs ";")); done|].
  apply (reads_space _ _ (bs "(" ++ list_str show_value (ins_value s) ++ bs ";")).
  eapply reads_bind; [apply (reads_list _ _ (fun acc b => acc ++ [b]))|].
  - destruct (ins_value s) as [|c l]; [done|]. cbn in Hall. apply andb_true_iff in Hall as [Hc _]. intros r. by apply value_no_close.
  - apply Forall_forall. intros c Hc. apply list_elem_of_In in Hc. rewrite forallb_forall in Hall. specialize (Hall c Hc).
    intros acc r'. split; intros q Hq; unfold parseValueItem;
      (edestruct (parseValue_value 0 q c) as (q' & -> & Hq'); [exact Hq|done|done|]); cbn [bindS]; eauto.
  - rewrite foldl_snoc. eapply reads_bind; [apply reads_end|]. destruct s. apply reads_ret.
Qed.

(** *** UPDATE *)

Lemma reads_assign a r :
  ident_ok (as_column a) && expr_ok (as_expr a) = true → quiet r →
  reads parseAssign 0 (show_assign a ++ r) a r.
Proof.
  intros [Hc [Hp Hd%Nat.leb_le]%andb_true_iff]%andb_true_iff Hq. unfold show_assign. rewrite <- !(assoc_L (++)).
  eapply reads_bind; [by apply reads_ident|].
  eapply reads_bind; [apply (reads_space _ _ (bs "= " ++ show (as_expr a) ++ r)), (reads_punct 0 (bs "=")); done|].
  cbn [app]. change (" "%byte :: show (as_expr a) ++ r) with (bs " " ++ show (as_expr a) ++ r).
  eapply reads_bind; [apply reads_space; by apply parseExpr_show|]. destruct a. apply reads_ret.
Qed.

Lemma reads_assigns l : ∀ a fuel acc r p,
  forallb (fun a => ident_ok (as_column a) && expr_ok (as_expr a)) (a :: l) = true →
  quiet r → starts id (bs ",") (trim r) = false → length l < fuel →
  view p 0 (show_assign a ++ commas show_assign l ++ r) →
  ∃ p', assign_loop fuel p acc = (p', Ok (acc ++ a :: l)) ∧ view p' 0 r.
Proof.
  induction l as [|b l IH]; intros a fuel acc r p Hall Hq Hc Hf Hv; (destruct fuel as [|fuel]; [lia|]);
    cbn [forallb] in Hall; apply andb_true_iff in Hall as [Ha Hall]; cbn [assign_loop commas] in *.
  - destruct (reads_assign a r Ha Hq p Hv) as (p1 & -> & Hv1). cbn [bindS].
    destruct (punct_view p1 0 r (bs ",") Hv1) as (p2 & -> & Hv2). rewrite Hc in *. eauto.
  - rewrite <- !(assoc_L (++)) in Hv.
    destruct (reads_assign a _ Ha (quiet_comma _) p Hv) as (p1 & -> & Hv1). cbn [bindS].
    destruct (punct_view p1 0 _ (bs ",") Hv1) as (p2 & -> & Hv2).
    change (starts id (bs ",") (trim (bs "," ++ show_assign b ++ commas show_assign l ++ r))) with true in *. cbv iota in *.
    destruct (IH b fuel (acc ++ [a]) r p2 Hall Hq Hc ltac:(cbn in Hf; lia) Hv2) as (p3 & -> & Hv3).
    rewrite <- (assoc_L (++)). eauto.
Qed.

Lemma trim_app_length a r : length (trim r) ≤ length (trim (a ++ r)).
Proof.
  induction a as [|c a IH]; [done|]. cbn [app]. unfold trim. cbn [span]. destruct (isSpace c); [exact IH|].
  cbn [drop length]. rewrite length_drop, length_app. lia.
Qed.

Lemma commas_fuel {A} (sh : A → bytes) p d a l r :
  view p d (a ++ commas sh l ++ r) → length l + length (trim r) ≤ length (p_buf p).
Proof.
  intros (Hp & _ & Hs). pose proof (p_rest_length p) as Hl. pose proof (trim_length (p_rest p)) as Ht. rewrite Hs in Ht.
  pose proof (trim_app_length a (commas sh l ++ r)) as Ha.
  assert (length l ≤ length (commas sh l)) as Hlen.
  { clear. induction l as [|x l IH]; cbn [commas length]; [lia|]. rewrite !length_app. cbn. lia. }
  destruct l as [|x l]; [cbn [commas app length] in *; lia|]. pose proof (trim_length r) as Hr.
  change (trim (commas sh (x :: l) ++ r)) with (commas sh (x :: l) ++ r) in Ha. rewrite length_app in Ha. lia.
Qed.

Lemma quiet_where cond r : quiet r → quiet (show_where cond ++ r).
Proof. intros Hq. destruct cond; [|done]. by repeat split. Qed.

Lemma reads_update s : stmt_ok (SUpdate s) = true → reads parseStmt 0 (show_stmt (SUpdate s)) (SUpdate s) [].
Proof.
  cbn [stmt_ok]. intros [[[Ht Hne]%andb_true_iff Hall]%andb_true_iff Hc]%andb_true_iff p Hv.
  cbn [show_stmt] in Hv. unfold parseStmt. do 3 skip_kw Hv.
  set (body := match upd_value s with [] => [] | a :: l => show_assign a ++ commas show_assign l end) in *.
  set (s' := bs " " ++ upd_tbl s ++ bs " SET " ++ body ++ show_where (upd_cond s) ++ bs ";").
  take_kw Hv s'. enter Hv parseUpdate SUpdate s s'. apply reads_space.
  eapply reads_bind; [by apply reads_ident|].
  eapply reads_bind; [apply (reads_word 0 _ (bs "SET") _ (bs " " ++ body ++ show_where (upd_cond s) ++ bs ";")); done|].
  apply (reads_bind _ _ 0 _ (upd_value s) (show_where (upd_cond s) ++ bs ";")).
  - intros q Hq. unfold body in Hq. destruct (upd_value s) as [|a l]; [done|]. rewrite <- (assoc_L (++)) in Hq.
    apply (reads_assigns l a (S (length (p_buf q))) []); [done| | | |done].
    + apply quiet_where, (quiet_semicolon []).
    + by destruct (upd_cond s).
    + pose proof (commas_fuel _ _ _ (bs " " ++ show_assign a) _ _ Hq). lia.
  - eapply reads_bind; [apply reads_where; [done|apply (quiet_semicolon [])|done]|].
    eapply reads_bind; [apply reads_end|]. destruct s. apply reads_ret.
Qed.

(** *** CREATE TABLE *)

Lemma reads_names acc names r :
  forallb ident_ok names = true →
  reads (fun p => parseCommaList parseNameItem p acc) 0 (show_names names ++ r) (acc ++ names) r.
Proof.
  intros Hall. unfold show_names. rewrite <- (assoc_L (++)), <- (foldl_snoc acc names). apply reads_list.
  - destruct names as [|n names]; [done|]. cbn in Hall. apply andb_true_iff in Hall as [Hn _]. intros r'.
    destruct (ident_chars n Hn) as (_ & c & s & -> & Hc).
    assert (atom_start c = true) as Hat by (unfold atom_start; by rewrite Hc).
    destruct (atom_start_facts c Hat) as (Hsp & _). rewrite <- app_comm_cons, trim_head by done.
    apply (starts_miss id x29 []). by apply atom_no_close.
  - apply Forall_forall. intros n Hn. apply list_elem_of_In in Hn. rewrite forallb_forall in Hall. specialize (Hall n Hn).
    intros acc' r'. split; (eapply reads_bind; [by apply reads_ident|apply reads_ret]).
Qed.

Definition add_item (out : StmtCreatTable) (i : create_item) : StmtCreatTable :=
  match i with
  | ICol c => MkCreate (ct_table out) (ct_cols out ++ [c]) (ct_pkey out) (ct_indices out)
  | IPKey names => MkCreate (ct_table out) (ct_cols out) (ct_pkey out ++ names) (ct_indices out)
  | IIndex names => MkCreate (ct_table out) (ct_cols out) (ct_pkey out) (ct_indices out ++ [names])
  end.

Definition create_item_ok (i : create_item) : bool :=
  match i with
  | ICol c => column_ok c
  | IPKey names | IIndex names => forallb ident_ok names
  end.

(** A name is a keyword only when it is that word. *)
Lemma word_at_ident kw name r :
  forallb isNameContinue kw = true → forallb isNameContinue name = true → stop r = true →
  word_at kw (name ++ r) = true → EqualFold name kw = true.
Proof.
  intros Hk Hn Hr Hw. pose proof (word_at_span kw _ Hk Hw) as Hs. rewrite span_app in Hs; [|done|by apply stop_span].
  unfold word_at in Hw. apply andb_true_iff in Hw as [Hw _]. rewrite starts_fold in Hw.
  by rewrite take_app_le, take_ge in Hw by lia.
Qed.

Lemma trim_ident name r : ident_ok name = true → trim (name ++ r) = name ++ r.
Proof.
  intros Hn. destruct (ident_chars name Hn) as (_ & c & s & -> & Hc).
  assert (atom_start c = true) as Hat by (unfold atom_start; by rewrite Hc).
  destruct (atom_start_facts c Hat) as (Hsp & _). by rewrite <- app_comm_cons, trim_head.
Qed.

(** PRIMARY followed by a type is a column of that name. *)
Lemma primary_key_type name t r :
  ident_ok name = true → words_at [bs "PRIMARY"; bs "KEY"] (name ++ bs " " ++ show_type t ++ r) = None.
Proof.
  intros Hn. cbn [words_at]. rewrite trim_ident by done.
  destruct (word_at (bs "PRIMARY") (name ++ bs " " ++ show_type t ++ r)) eqn:E; [|done].
  destruct (ident_chars name Hn) as (Hall & _).
  pose proof (word_at_span (bs "PRIMARY") _ eq_refl E) as Hs. rewrite span_app in Hs; [|done|done].
  rewrite drop_app_length' by done. unfold show_type. by destruct (bool_decide (t = TypeI64)).
Qed.

Lemma reads_create_item out i r :
  create_item_ok i = true → stop r = true →
  reads (fun p => parseCreateTableItem p out) 0 (show_item i ++ r) (add_item out i) r.
Proof.
  intros Hi Hr p Hv. unfold parseCreateTableItem. destruct i as [c|names|names]; cbn [show_item create_item_ok] in *.
  - apply andb_true_iff in Hi as [[Hn Hx%negb_true_iff]%andb_true_iff Ht]. rewrite <- !(assoc_L (++)) in Hv.
    destruct (kw_miss p 0 _ [bs "PRIMARY"; bs "KEY"] Hv) as (p1 & -> & Hv1);
      [repeat constructor; discriminate|by apply primary_key_type|].
    destruct (kw_miss p1 0 _ [bs "INDEX"] Hv1) as (p2 & -> & Hv2); [repeat constructor; discriminate| |].
    { cbn [words_at]. rewrite trim_ident by done. destruct (word_at (bs "INDEX") _) eqn:E; [|done].
      apply word_at_ident in E; [congruence|done|by apply ident_chars|done]. }
    revert p2 Hv2. change (reads (fun p2 =>
      let! (p, name) := expect_name (tryName p2) "expect name" in
      let! (p, kind) := expect_name (tryName p) "expect name" in
      let! (p, type) := (p, column_type kind) in
      (p, Ok (MkCreate (ct_table out) (ct_cols out ++ [MkColumn name type]) (ct_pkey out) (ct_indices out))))
      0 (col_Name c ++ bs " " ++ show_type (col_Type c) ++ r) (add_item out (ICol c)) r).
    eapply reads_bind; [by apply reads_ident|].
    eapply reads_bind; [apply reads_space, reads_ident; [|done]; unfold show_type; by case_if|].
    intros p3 Hv3. assert (column_type (show_type (col_Type c)) = Ok (col_Type c)) as ->.
    { unfold show_type. apply orb_true_iff in Ht as [Ht|Ht].
      - rewrite Ht. apply bool_decide_eq_true in Ht as ->. done.
      - apply bool_decide_eq_true in Ht as ->. done. }
    cbn [bindS]. destruct c. eauto.
  - rewrite <- (assoc_L (++)) in Hv.
    destruct (kw_hit p 0 _ [bs "PRIMARY"; bs "KEY"] (bs " " ++ show_names names ++ r) Hv) as (p1 & -> & Hv1);
      [repeat constructor; discriminate|done|].
    destruct (reads_names (ct_pkey out) names r Hi p1) as (p2 & -> & Hv2); [exact Hv1|]. cbn [bindS]. eauto.
  - rewrite <- (assoc_L (++)) in Hv.
    destruct (kw_miss p 0 _ [bs "PRIMARY"; bs "KEY"] Hv) as (p1 & -> & Hv1); [repeat constructor; discriminate|done|].
    destruct (kw_hit p1 0 _ [bs "INDEX"] (bs " " ++ show_names names ++ r) Hv1) as (p2 & -> & Hv2);
      [repeat constructor; discriminate|done|].
    destruct (reads_names [] names r Hi p2) as (p3 & -> & Hv3); [exact Hv2|]. cbn [bindS]. eauto.
Qed.

Lemma items_fold s :
  foldl add_item (MkCreate (ct_table s) [] [] []) (create_items s) = s.
Proof.
  destruct s as [t cols pkey indices]. unfold create_items. cbn [ct_table ct_cols ct_pkey ct_indices].
  rewrite !foldl_app.
  assert (∀ cols c0 k ix, foldl add_item (MkCreate t c0 k ix) (map ICol cols) = MkCreate t (c0 ++ cols) k ix) as ->.
  { intros cs. induction cs as [|c cs IH]; intros; cbn [map foldl]; [by rewrite app_nil_r|].
    cbn [add_item ct_table ct_cols ct_pkey ct_indices]. by rewrite IH, <- (assoc_L (++)). }
  cbn [foldl add_item ct_table ct_cols ct_pkey ct_indices app].
  assert (∀ ixs c0 k ix, foldl add_item (MkCreate t c0 k ix) (map IIndex ixs) = MkCreate t c0 k (ix ++ ixs)) as ->; [|done].
  intros ixs. induction ixs as [|c cs IH]; intros; cbn [map foldl]; [by rewrite app_nil_r|].
  cbn [add_item ct_table ct_cols ct_pkey ct_indices]. by rewrite IH, <- (assoc_L (++)).
Qed.

Lemma item_no_close i r : create_item_ok i = true → starts id (bs ")") (trim (show_item i ++ r)) = false.
Proof.
  destruct i as [c|names|names]; cbn [create_item_ok show_item]; try done.
  intros [[Hn _]%andb_true_iff _]%andb_true_iff. rewrite <- (assoc_L (++)), trim_ident by done.
  destruct (ident_chars _ Hn) as (_ & ch & s & -> & Hc). apply (starts_miss id x29 []). apply (atom_no_close ch).
  unfold atom_start. by rewrite Hc.
Qed.

Lemma reads_create s : stmt_ok (SCreateTable s) = true → reads parseStmt 0 (show_stmt (SCreateTable s)) (SCreateTable s) [].
Proof.
  cbn [stmt_ok]. intros [[[Ht Hc]%andb_true_iff Hk]%andb_true_iff Hx]%andb_true_iff p Hv.
  cbn [show_stmt] in Hv. unfold parseStmt. skip_kw Hv.
  set (s' := bs " " ++ ct_table s ++ bs " (" ++ list_str show_item (create_items s) ++ bs ";").
  take_kw Hv s'. enter Hv parseCreateTable SCreateTable s s'. apply reads_space.
  assert (Forall (fun i => create_item_ok i = true) (create_items s)) as Hall.
  { unfold create_items. rewrite !Forall_app, !Forall_map, Forall_singleton. rewrite !forallb_forall in *.
    split_and!; [apply Forall_forall; intros y Hin; by apply Hc, list_elem_of_In|
      cbn; by apply forallb_forall|apply Forall_forall; intros y Hin; by apply Hx, list_elem_of_In]. }
  eapply reads_bind; [by apply reads_ident|].
  apply (reads_space _ _ (bs "(" ++ list_str show_item (create_items s) ++ bs ";")).
  eapply reads_bind; [apply (reads_list _ _ add_item)|].
  - destruct (create_items s) as [|i l]; [done|]. inversion Hall; subst. intros r. by apply item_no_close.
  - eapply Forall_impl; [exact Hall|]. intros i Hi acc r. split; by apply reads_create_item.
  - rewrite items_fold. eapply reads_bind; [apply reads_end|]. apply reads_ret.
Qed.

(** *** SELECT *)

(** A star is a whole item of the list, before a comma or FROM. *)
Lemma star_view p s :
  view p 0 (bs "*" ++ s) → starts id (bs ",") (trim s) || hit (words_at [bs "FROM"] s) = true →
  ∃ p', tryStar p = (p', true) ∧ view p' 0 s.
Proof.
  intros Hv Hs. unfold tryStar. destruct (punct_view _ _ _ (bs "*") Hv) as (p1 & -> & Hv1).
  change (starts id (bs "*") (trim (bs "*" ++ s))) with true in *. cbv iota in *.
  change (drop (length (bs "*")) (trim (bs "*" ++ s))) with s in Hv1.
  assert (∀ q, p_ok q → p_buf q = p_buf p1 → p_depth q = 0 → view (set_pos q (p_pos p1)) 0 s) as Hback.
  { intros q Hq Hb Hd. destruct Hv1 as (Hp1 & Hd1 & Hs1). split; [|split; [done|]].
    - split; cbn; [rewrite Hb; apply Hp1|apply Hq].
    - rewrite <- Hs1. unfold p_rest. cbn. by rewrite Hb. }
  assert (∀ A (m : Parser * A) n h, tries n p1 m h → p_ok (fst m) ∧ p_buf (fst m) = p_buf p1 ∧ p_depth (fst m) = 0) as Htr.
  { intros A m n h Ht. destruct Hv1 as (Hp1 & Hd1 & _). split; [by eapply adv_ok|]. destruct Ht. by rewrite adv_depth. }
  pose proof (tryPunctuation_tries p1 (bs ",") (proj1 Hv1)) as Ht1. apply Htr in Ht1 as (Hok2 & Hb2 & Hd2).
  destruct (punct_view _ _ _ (bs ",") Hv1) as (p2 & E2 & Hv2). rewrite E2 in *. cbn [fst] in *.
  destruct (starts id (bs ",") (trim s)); [eauto|]. cbn [orb] in Hs.
  pose proof (tryKeyword_tries p2 [bs "FROM"] Hok2 ltac:(repeat constructor; discriminate)) as Ht3.
  destruct (words_view _ _ _ [bs "FROM"] Hv2) as (p3 & E3 & Hv3); [repeat constructor; discriminate|].
  rewrite E3 in *. destruct (words_at [bs "FROM"] s); [|done]. cbn [hit] in *. eexists. split; [done|].
  destruct Ht3. cbn [fst] in *. apply Hback; [by destruct Hv3|congruence|by destruct Hv3 as (_ & ? & _)].
Qed.

Lemma no_star p s : view p 0 s → starts id (bs "*") (trim s) = false → ∃ p', tryStar p = (p', false) ∧ view p' 0 s.
Proof.
  intros Hv Hs. unfold tryStar. destruct (punct_view _ _ _ (bs "*") Hv) as (p1 & -> & Hv1). rewrite Hs in *. eauto.
Qed.

(** What follows an item of the select list. *)
Definition list_end (s : bytes) : Prop :=
  quiet s ∧ starts id (bs ",") (trim s) || hit (words_at [bs "FROM"] s) = true.

Lemma atom_no_star c : atom_start c = true → c ≠ x2a.
Proof. by destruct c. Qed.

Lemma col_ok_expr e : col_ok e = true → e = EStar ∨ (expr_ok e = true ∧ e ≠ EStar).
Proof. destruct e; cbn; try (by right); [|by left]. intros [H _]%andb_true_iff. by right. Qed.

Lemma reads_col p e s :
  col_ok e = true → list_end s → view p 0 (show e ++ s) →
  (∃ p', tryStar p = (p', true) ∧ e = EStar ∧ view p' 0 s) ∨
  (∃ p1 p2, tryStar p = (p1, false) ∧ parseExpr p1 = (p2, Ok e) ∧ view p2 0 s).
Proof.
  intros He [Hq Hs] Hv. destruct (col_ok_expr e He) as [->|[[Hp Hd%Nat.leb_le]%andb_true_iff _]].
  - left. destruct (star_view p s Hv Hs) as (p' & -> & Hv'). eauto.
  - right. destruct (show_start e Hp) as (c & t & E & Hc). destruct (atom_start_facts c Hc) as (Hsp & _).
    destruct (no_star p _ Hv) as (p1 & -> & Hv1).
    { rewrite E, <- app_comm_cons, trim_head by done. apply (starts_miss id x2a []). by apply (atom_no_star c). }
    destruct (parseExpr_show e s Hp Hd Hq p1 Hv1) as (p2 & E2 & Hv2). eauto 10.
Qed.

Lemma reads_cols cols : ∀ fuel acc s s' p,
  forallb col_ok cols = true → acc ≠ [] → words_at [bs "FROM"] s = Some s' → list_end s → length cols < fuel →
  view p 0 (commas show cols ++ s) →
  ∃ p', select_cols fuel p acc = (p', Ok (acc ++ cols)) ∧ view p' 0 s'.
Proof.
  induction cols as [|e cols IH]; intros fuel acc s s' p Hall Hne Hw Hend Hf Hv; (destruct fuel as [|fuel]; [lia|]);
    cbn [select_cols commas forallb] in *.
  - destruct (kw_hit p 0 _ [bs "FROM"] s' Hv) as (p1 & -> & Hv1); [repeat constructor; discriminate|done|].
    rewrite app_nil_r. eauto.
  - apply andb_true_iff in Hall as [He Hall]. rewrite <- !(assoc_L (++)) in Hv.
    destruct (kw_miss p 0 _ [bs "FROM"] Hv) as (p1 & -> & Hv1); [repeat constructor; discriminate|done|].
    destruct (Nat.ltb_spec 0 (length acc)) as [_|]; [|destruct acc; cbn in *; [done|lia]].
    destruct (punct_view _ _ _ (bs ",") Hv1) as (p2 & -> & Hv2).
    change (starts id (bs ",") (trim (bs "," ++ show e ++ commas show cols ++ s))) with true in *. cbn [expect bindS].
    change (drop (length (bs ",")) (trim (bs "," ++ show e ++ commas show cols ++ s)))
      with (show e ++ commas show cols ++ s) in Hv2.
    assert (list_end (commas show cols ++ s)) as Hend'.
    { destruct cols; [done|]. cbn [commas]. rewrite <- !(assoc_L (++)). split; [apply quiet_comma|done]. }
    destruct (reads_col p2 e _ He Hend' Hv2) as [(p3 & -> & -> & Hv3)|(p3 & p4 & -> & E4 & Hv4)].
    + destruct (IH fuel (acc ++ [EStar]) s s' p3) as (p5 & -> & Hv5); try done; [by destruct acc|cbn in Hf; lia|].
      rewrite <- (assoc_L (++)). eauto.
    + rewrite E4. cbn [bindS].
      destruct (IH fuel (acc ++ [e]) s s' p4) as (p5 & -> & Hv5); try done; [by destruct acc|cbn in Hf; lia|].
      rewrite <- (assoc_L (++)). eauto.
Qed.

Lemma col_not_from e s : col_ok e = true → stop s = true → words_at [bs "FROM"] (show e ++ s) = None.
Proof.
  intros He Hs. cbn [words_at]. destruct (word_at (bs "FROM") (trim (show e ++ s))) eqn:E; [exfalso|done].
  destruct e as [name|cell|op kid|op el er|kids|]; cbn [col_ok show] in *; try (by discriminate E).
  - apply andb_true_iff in He as [[Hp _]%andb_true_iff Hf%negb_true_iff]. cbn [printable] in Hp.
    destruct (name_chars name Hp) as (Hall & c & t & -> & Hc & Ht & _).
    rewrite trim_ident in E by (cbn; by rewrite Hc, Ht). apply word_at_ident in E; [congruence|done..].
  - apply andb_true_iff in He as [Hp _]. cbn [printable] in Hp. destruct (cell_start cell Hp) as (c & t & Ec & Hc & Hn & _).
    destruct (atom_start_facts c Hc) as (Hsp & _). rewrite Ec, <- app_comm_cons, trim_head in E by done.
    unfold word_at in E. apply andb_true_iff in E as [E _]. cbn in E. clear -E Hc Hn. destruct c; discriminate.
Qed.

Lemma quiet_limit limit offset r : quiet r → quiet (show_limit limit offset ++ r).
Proof. intros Hq. unfold show_limit. destruct (limit <? 0)%Z; [done|]. by repeat split. Qed.

Lemma where_limit limit offset : words_at [bs "WHERE"] (show_limit limit offset ++ bs ";") = None.
Proof. unfold show_limit. by destruct (limit <? 0)%Z. Qed.

Lemma tail_stop cond limit offset : stop (show_where cond ++ show_limit limit offset ++ bs ";") = true.
Proof. destruct cond; [done|]. unfold show_limit. by destruct (limit <? 0)%Z. Qed.

Lemma reads_select s : stmt_ok (SSelect s) = true → reads parseStmt 0 (show_stmt (SSelect s)) (SSelect s) [].
Proof.
  cbn [stmt_ok]. intros [[[[Ht Hne]%andb_true_iff Hcols]%andb_true_iff Hc]%andb_true_iff Hl]%andb_true_iff p Hv.
  cbn [show_stmt] in Hv. unfold parseStmt.
  set (rest := bs " " ++ sel_table s ++ show_where (sel_cond s) ++ show_limit (sel_limit s) (sel_offset s) ++ bs ";").
  set (body := match sel_cols s with [] => [] | c :: cols => show c ++ commas show cols end) in *.
  set (s' := bs " " ++ body ++ bs " FROM" ++ rest).
  take_kw Hv s'. enter Hv parseSelect SSelect s s'.
  assert (list_end (bs " FROM" ++ rest)) as Hend by (split; [by repeat split|done]).
  apply (reads_bind _ _ 0 _ (sel_cols s) rest).
  - intros q Hq. unfold s', body in Hq. destruct (sel_cols s) as [|e cols]; [done|]. clear Hne.
    cbn [forallb] in Hcols. apply andb_true_iff in Hcols as [He Hcols]. rewrite <- (assoc_L (++)) in Hq.
    assert (list_end (commas show cols ++ bs " FROM" ++ rest)) as Hend'.
    { destruct cols; [done|]. cbn [commas]. rewrite <- !(assoc_L (++)). split; [apply quiet_comma|done]. }
    pose proof (commas_fuel _ _ _ (bs " " ++ show e) _ _ Hq) as Hfuel.
    change (trim (bs " FROM" ++ rest)) with (bs "FROM" ++ rest) in Hfuel. cbn [select_cols].
    change (length (bs "FROM" ++ rest)) with (4 + length rest) in Hfuel.
    destruct (kw_miss q 0 _ [bs "FROM"] Hq) as (q1 & -> & Hq1); [repeat constructor; discriminate| |].
    { destruct Hend' as [[Hst _] _]. by apply (col_not_from e _ He). }
    cbn [length Nat.ltb Nat.leb bindS].
    destruct (reads_col q1 e _ He Hend' Hq1) as [(q2 & -> & -> & Hq2)|(q2 & q3 & -> & E3 & Hq3)].
    + apply (reads_cols cols _ [EStar] (bs " FROM" ++ rest) rest); try done; lia.
    + rewrite E3. cbn [bindS]. apply (reads_cols cols _ [e] (bs " FROM" ++ rest) rest); try done; lia.
  - assert ((length (sel_cols s) =? 0) = false) as -> by (by destruct (sel_cols s)).
    apply (reads_bind _ _ 0 _ tt rest); [apply reads_ret|]. apply reads_space.
    eapply reads_bind; [apply reads_ident; [done|apply tail_stop]|].
    eapply reads_bind; [apply reads_where; [done|apply quiet_limit, (quiet_semicolon [])|apply where_limit]|].
    eapply reads_bind; [by apply reads_limit|]. cbn [fst snd].
    eapply reads_bind; [apply reads_end|]. destruct s. apply reads_ret.
Qed.

(** ** All statements *)

Lemma ParseStmt_reads s st : reads parseStmt 0 s st [] → ParseStmt s = Ok st.
Proof.
  intros Hr. destruct (Hr (NewParser s)) as (p & E & Hv).
  { split; [split; cbn; lia|]. split; [done|]. unfold p_rest. cbn. by rewrite drop_0. }
  unfold ParseStmt. rewrite E. rs. destruct (view_skip _ _ _ Hv) as [_ Hs]. unfold isEnd.
  pose proof (p_rest_length (skipSpaces p)) as Hl. rewrite Hs in Hl.
  destruct (Nat.leb_spec (length (p_buf (skipSpaces p))) (p_pos (skipSpaces p))) as [|Hlt]; [done|]. change (length (trim [])) with 0 in Hl. lia.
Qed.

Lemma ParseStmt_show s : stmt_ok s = true → ParseStmt (show_stmt s) = Ok s.
Proof.
  intros Hs. apply ParseStmt_reads. destruct s.
  - by apply reads_select.
  - by apply reads_create.
  - by apply reads_insert.
  - by apply reads_update.
  - by apply reads_delete.
  - by apply reads_drop.
Qed.
