(* ===== verification/SqlTheorems.v ===== *)
(** * What the row encoding, the evaluator and the parser guarantee

    Keys of index entries sort like the rows they come from, rows survive their
    encoding, schemas are validated, and expressions evaluate without panics to
    values of their static type.  Every text is parsed or rejected and every
    printable statement is read back, within two limits of the grammar: a string
    literal cannot hold a backslash, and AND and OR need no separator behind
    them. *)

From Stdlib Require Import ZArith Lia.
From Stdlib.Strings Require Import Byte.
From stdpp Require Import base list numbers.
From S2P Require Import Prelude GoLib Cell Row RowProofs Entry Sql EvalProofs Parser ParserProofs ParserPrint ParserStmt.

Open Scope Z_scope.

(** ** A table for the witnesses *)

Definition w_schema : Schema :=
  MkSchema 1 (bs "t") [MkColumn (bs "id") TypeI64; MkColumn (bs "name") TypeStr; MkColumn (bs "n") TypeI64]
    [[0]; [1; 2; 0]].

Lemma w_schema_ok : schema_ok w_schema.
Proof. apply Validate_iff. vm_compute. reflexivity. Qed.

Definition w_row (id : Z) (name : bytes) (n : Z) : Row :=
  [MkCell TypeI64 id []; MkCell TypeStr 0 name; MkCell TypeI64 n []].

Definition w_row1 : Row := w_row (-5) (bs "ab") 7.
Definition w_row2 : Row := w_row 3 (bs "abc") (-1).

Lemma w_row1_ok : row_ok w_schema w_row1.
Proof. apply (bool_decide_unpack _). vm_compute. exact I. Qed.
Lemma w_row2_ok : row_ok w_schema w_row2.
Proof. apply (bool_decide_unpack _). vm_compute. exact I. Qed.

(** ** Schemas and rows (db/row.go, db/cell.go) *)

(** [Schema.Validate] accepts exactly the well-formed schemas: version 1, a
    named table, named columns of a known type, between 1 and 256 indices, each
    of them over existing columns. *)
Theorem validate_exact schema : Validate schema = Ok tt ↔ schema_ok schema.
Proof. apply Validate_iff. Qed.

(** Index keys sort like the cells they encode: the keys of two rows in one
    index compare bytewise as the indexed columns compare from left to right,
    integers by value and strings bytewise, whatever bytes the strings hold. *)
Theorem key_order schema r1 r2 indexNo index k1 k2 :
  schema_ok schema → row_ok schema r1 → row_ok schema r2 → go_at (sc_Indices schema) indexNo = Ok index →
  EncodeKey r1 schema indexNo = Ok k1 → EncodeKey r2 schema indexNo = Ok k2 →
  bytes_compare k1 k2 = cells_compare (index_cells r1 index) (index_cells r2 index).
Proof. intros Hs. by apply EncodeKey_compare. Qed.

Lemma key_order_witness :
  ∃ k1 k2, EncodeKey w_row1 w_schema 1 = Ok k1 ∧ EncodeKey w_row2 w_schema 1 = Ok k2 ∧ bytes_compare k1 k2 = Lt.
Proof.
  eexists _, _. split; [vm_compute; reflexivity|]. split; [vm_compute; reflexivity|].
  refine (eq_trans (key_order w_schema w_row1 w_row2 1 [1; 2; 0] _ _ w_schema_ok w_row1_ok w_row2_ok _ _ _) _);
    vm_compute; reflexivity.
Defined.

(** C35: A prefix of index cells bounds a range of keys: against the key of a
    row, an encoded prefix compares like the row's leading index cells; when
    those are equal, the key lies above a lower bound (no suffix) and below an
    upper bound (suffix 0xff). *)
Theorem key_prefix_order schema row indexNo index prefix positive k p :
  schema_ok schema → row_ok schema row → go_at (sc_Indices schema) indexNo = Ok index →
  (length prefix ≤ length index)%nat → prefix_ok schema index prefix →
  EncodeKey row schema indexNo = Ok k → EncodeKeyPrefix schema indexNo prefix positive = Ok p →
  bytes_compare k p =
    match cells_compare (take (length prefix) (index_cells row index)) prefix with
    | Eq => if (positive : bool) then Lt else Gt
    | c => c
    end.
Proof. intros Hs. by apply EncodeKeyPrefix_compare. Qed.

Lemma key_prefix_order_witness :
  ∃ k p, EncodeKey w_row1 w_schema 1 = Ok k ∧ EncodeKeyPrefix w_schema 1 [MkCell TypeStr 0 (bs "ab")] true = Ok p ∧
    bytes_compare k p = Lt.
Proof.
  eexists _, _. split; [vm_compute; reflexivity|]. split; [vm_compute; reflexivity|].
  refine (eq_trans (key_prefix_order w_schema w_row1 1 [1; 2; 0] [MkCell TypeStr 0 (bs "ab")] true _ _
    w_schema_ok w_row1_ok _ _ _ _ _) _).
  - vm_compute. reflexivity.
  - vm_compute. lia.
  - constructor; [|constructor]. split; [apply (bool_decide_unpack _); vm_compute; exact I|].
    eexists. split; vm_compute; reflexivity.
  - vm_compute. reflexivity.
  - vm_compute. reflexivity.
  - vm_compute. reflexivity.
Defined.

(** C38: A row survives its encoding: decoding its primary key and its value
    into any row of the right length restores every cell. *)
Theorem row_roundtrip schema row r0 k v :
  schema_ok schema → row_ok schema row → length r0 = length row →
  EncodeKey row schema 0 = Ok k → EncodeVal row schema = Ok v →
  (r1 ← DecodeKey r0 schema 0 k; DecodeVal r1 schema v) = Ok row.
Proof. intros Hs. by apply decode_encode_row. Qed.

Lemma row_roundtrip_witness :
  ∃ k v, EncodeKey w_row1 w_schema 0 = Ok k ∧ EncodeVal w_row1 w_schema = Ok v ∧
    (r1 ← DecodeKey (NewRow w_schema) w_schema 0 k; DecodeVal r1 w_schema v) = Ok w_row1.
Proof.
  eexists _, _. split; [vm_compute; reflexivity|]. split; [vm_compute; reflexivity|].
  refine (row_roundtrip w_schema w_row1 (NewRow w_schema) _ _ w_schema_ok w_row1_ok _ _ _); vm_compute; reflexivity.
Defined.

(** An index key restores its columns and leaves the others, for the first
    128 indices; for the indices from 128 on, which [Validate] also admits,
    [DecodeKey] rejects the key [EncodeKey] produced. *)
Theorem index_key_decodes schema row r0 indexNo index k :
  schema_ok schema → row_ok schema row → length r0 = length row →
  go_at (sc_Indices schema) indexNo = Ok index → EncodeKey row schema indexNo = Ok k →
  DecodeKey r0 schema indexNo k =
    if indexNo <? 128 then Ok (set_cells r0 row index) else Err ErrOutOfRange.
Proof.
  intros Hs Hr Hl Hi Hk. destruct (Z.ltb_spec indexNo 128).
  - by apply DecodeKey_EncodeKey.
  - by eapply DecodeKey_high_index.
Qed.

Lemma index_key_decodes_witness :
  ∃ k, EncodeKey w_row1 w_schema 1 = Ok k ∧ DecodeKey w_row2 w_schema 1 k = Ok w_row1.
Proof.
  eexists. split; [vm_compute; reflexivity|].
  refine (eq_trans (index_key_decodes w_schema w_row1 w_row2 1 [1; 2; 0] _ w_schema_ok w_row1_ok _ _ _) _);
    vm_compute; reflexivity.
Defined.

(** ** Expressions (db/eval.go) *)

(** Evaluation is total: on a row with one cell per column, every
    expression, however deep and however ill-typed, evaluates to a value or to
    an error; it never panics. *)
Theorem eval_total schema row e :
  length row = length (sc_Cols schema) → returns (evalExpr schema row e).
Proof. intros Hl. by apply evalExpr_returns. Qed.

(** [n / (id + 5)]: a division by zero on the first row. *)
Definition w_div : expr :=
  EBinOp OP_DIV (EName (bs "n")) (EBinOp OP_ADD (EName (bs "id")) (ECell (MkCell TypeI64 5 []))).

Lemma eval_total_witness : returns (evalExpr w_schema w_row1 w_div).
Proof. apply (eval_total w_schema w_row1 w_div). reflexivity. Defined.

(** C36: Evaluation respects static types: an expression of a static type that
    is not nested deeper than maxExprDepth evaluates, on a well-formed row, to a
    well-formed cell of that type, or fails with a division by zero or an
    oversized string; never with a type error. *)
Theorem eval_types schema row e t :
  schema_ok schema → row_ok schema row → lits_ok e → (height e ≤ maxExprDepth)%nat → typeof schema e = Some t →
  eval_result t (evalExpr schema row e).
Proof. intros Hs Hr Hl Hh. by apply eval_sound. Qed.

Lemma eval_types_witness : eval_result TypeI64 (evalExpr w_schema w_row1 w_div).
Proof.
  apply (eval_types w_schema w_row1 w_div TypeI64 w_schema_ok w_row1_ok).
  - cbn [lits_ok w_div]. split; [exact I|]. split; [exact I|]. apply (bool_decide_unpack _). vm_compute. exact I.
  - vm_compute. lia.
  - vm_compute. reflexivity.
Defined.

Lemma eval_kids schema row es cs depth :
  Forall2 (fun e c => evalExprAt schema row e depth = Ok c) es cs →
  map (fun k => evalExprAt schema row k depth) es = map Ok cs.
Proof. induction 1 as [|e c es cs He _ IH]; [done|]. cbn [map]. by rewrite He, IH. Qed.

(** SQL tuples compare in the order of index keys: comparing two tuples
    whose components evaluate to cells of equal types gives the truth value of
    the operator on the left-to-right comparison of the cells, the order in
    which index keys sort. *)
Theorem tuple_order schema row op es1 es2 xs ys :
  isCmpOp op = true →
  Forall2 (fun e c => evalExprAt schema row e 1 = Ok c) es1 xs →
  Forall2 (fun e c => evalExprAt schema row e 1 = Ok c) es2 ys → same_shape xs ys →
  evalExpr schema row (EBinOp op (ETuple es1) (ETuple es2))
    = Ok (boolCell (cmpResult op (cmp_int (cells_compare xs ys)))).
Proof.
  intros Hop H1 H2 Hs. unfold evalExpr. cbn [evalExprAt maxExprDepth Nat.ltb Nat.leb]. rewrite Hop.
  rewrite (eval_kids _ _ _ _ _ H1), (eval_kids _ _ _ _ _ H2). unfold evalTupleCmp. rewrite !length_map.
  rewrite (Forall2_length _ _ _ Hs), Nat.eqb_refl. cbn [negb]. rewrite tuple_cmp_lex by done. rs.
  case_decide as Hn; [|done]. subst xs. by inversion Hs.
Qed.

Lemma tuple_order_witness :
  evalExpr w_schema w_row1 (EBinOp OP_LT (ETuple [EName (bs "name"); EName (bs "n")])
    (ETuple [ECell (MkCell TypeStr 0 (bs "ab")); ECell (MkCell TypeI64 8 [])])) = Ok (boolCell true).
Proof.
  refine (tuple_order w_schema w_row1 OP_LT [EName (bs "name"); EName (bs "n")]
    [ECell (MkCell TypeStr 0 (bs "ab")); ECell (MkCell TypeI64 8 [])]
    [MkCell TypeStr 0 (bs "ab"); MkCell TypeI64 7 []] [MkCell TypeStr 0 (bs "ab"); MkCell TypeI64 8 []] _ _ _ _).
  - reflexivity.
  - repeat constructor.
  - repeat constructor.
  - unfold same_shape. apply (bool_decide_unpack _). vm_compute. exact I.
Defined.

(** ** The parser *)

(** C37: [ParseStmt] returns a statement or an error on every input: no index is
    out of range, every loop ends within as many rounds as the input has bytes,
    and the recursion is cut at [maxExprDepth]. *)
Theorem parser_total s : returns (ParseStmt s).
Proof. apply ParseStmt_returns. Qed.

(** C40: A statement that can be written is read back: [show_stmt] prints any
    statement whose names are identifiers, whose literals can be written and
    whose expressions nest at most [maxExprDepth] deep, every operator in
    parentheses, and [ParseStmt] returns exactly that statement, all six kinds
    of statements and all operators included. *)
Theorem parse_print s : stmt_ok s = true → ParseStmt (show_stmt s) = Ok s.
Proof. apply ParseStmt_show. Qed.

Definition w_stmt : stmt :=
  SSelect (MkSelect (bs "t")
    [EStar; EBinOp OP_ADD (EName (bs "n")) (ECell (MkCell TypeI64 1 []))]
    (Some (EBinOp OP_AND
      (EBinOp OP_LE (ETuple [EName (bs "id"); EName (bs "name")]) (ETuple [ECell (MkCell TypeI64 7 []); ECell (MkCell TypeStr 0 (bs "it's"))]))
      (EUnOp OP_NOT (EBinOp OP_EQ (EName (bs "n")) (EUnOp OP_NEG (ECell (MkCell TypeI64 3 [])))))))
    10 2).

Lemma parse_print_witness :
  ParseStmt (bs "SELECT *,(n + 1) FROM t WHERE (((id,name) <= (7,'it\'s')) AND (NOT (n = (-3)))) LIMIT 10 OFFSET 2;") = Ok w_stmt.
Proof.
  assert (show_stmt w_stmt
    = bs "SELECT *,(n + 1) FROM t WHERE (((id,name) <= (7,'it\'s')) AND (NOT (n = (-3)))) LIMIT 10 OFFSET 2;") as E
    by (vm_compute; reflexivity).
  rewrite <- E. apply parse_print. vm_compute. reflexivity.
Defined.

(** A string literal never denotes a string with a backslash: whatever the
    input, the cell [parseString] returns holds none, because the only escapes
    are those of the two quotes. *)
Theorem no_backslash_literal p p' c : parseString p = (p', Ok c) → x5c ∉ c_str c.
Proof.
  unfold parseString. destruct (p_rest p) as [|quote s]; [done|].
  destruct (string_loop quote s) as [[str n]| | |] eqn:E; intros [= <- <-]. by apply (string_loop_no_backslash quote s str n).
Qed.

Lemma no_backslash_literal_witness : x5c ∉ bs "it's".
Proof.
  refine (no_backslash_literal (NewParser (bs "'it\'s'")) _ (MkCell TypeStr 0 (bs "it's")) _).
  vm_compute. reflexivity.
Defined.

(** AND and OR are found without a separator behind them: [a ORb] is the
    condition [a OR b] and [a ANDnot_b] tests the column [not_b], whereas the
    other keywords ask for a separator. *)
Theorem glued_operators :
  ParseStmt (bs "DELETE FROM t WHERE a ORb;") = ParseStmt (bs "DELETE FROM t WHERE a OR b;") ∧
  ParseStmt (bs "DELETE FROM t WHERE a ANDnot_b;")
    = Ok (SDelete (MkDelete (bs "t") (Some (EBinOp OP_AND (EName (bs "a")) (EName (bs "not_b")))))) ∧
  ParseStmt (bs "DELETE FROM t WHEREa;") = Err (errorsNew "expect ;").
Proof. vm_compute. repeat split. Qed.
