(* ===== verification/Planner.v ===== *)
(** * Query planning: the scan planner of db/table.go

    A WHERE clause is split into its AND operands; the longest equality prefix
    of an index, or else a pair of bounds or a single bound on an index prefix,
    becomes a key range and the other operands stay as a residual filter. *)

From Stdlib Require Import ZArith Lia.
From Stdlib.Strings Require Import Byte.
From stdpp Require Import base list numbers.
From S2P Require Import Prelude GoLib Cell Row Sql.

Open Scope Z_scope.

Record RangeReq := MkReq {
  rq_StartCmp : Z;
  rq_StopCmp : Z;
  rq_Start : list Cell;
  rq_Stop : list Cell;
  rq_IndexNo : Z;
}.

(** The second result is false for an operator that cannot bound a range. *)
Definition suffixPositive (op : Z) : bool * bool :=
  if (op =? OP_LE) || (op =? OP_GT) then (true, true)
  else if (op =? OP_GE) || (op =? OP_LT) then (false, true)
  else (false, false).

Definition isDescending (op : Z) : bool * bool :=
  if (op =? OP_LE) || (op =? OP_LT) then (true, true)
  else if (op =? OP_GE) || (op =? OP_GT) then (false, true)
  else (false, false).

(** The first part of [(tx *DBTX) Range]: the direction and the two bounds. *)
Definition range_bounds (schema : Schema) (req : RangeReq) : res (bytes * bytes * bool) :=
  let (startPos, ok1) := suffixPositive (rq_StartCmp req) in
  let (stopPos, ok2) := suffixPositive (rq_StopCmp req) in
  let (desc, _) := isDescending (rq_StartCmp req) in
  let (stopDesc, _) := isDescending (rq_StopCmp req) in
  if negb ok1 || negb ok2 || Bool.eqb desc stopDesc then Err (errorsNew "invalid range request") else
  start ← EncodeKeyPrefix schema (rq_IndexNo req) (rq_Start req) startPos;
  stop ← EncodeKeyPrefix schema (rq_IndexNo req) (rq_Stop req) stopPos;
  Ok (start, stop, desc).

(** ** Conjunctions *)

Definition maxPlanConjuncts : nat := 32.

Fixpoint expr_size (e : expr) : nat :=
  match e with
  | EUnOp _ k => S (expr_size k)
  | EBinOp _ l r => S (expr_size l + expr_size r)
  | _ => 1
  end.

(** The loop of [flattenAnd]; the top of the stack is the head. *)
Fixpoint flatten_loop (fuel : nat) (stack out : list expr) : res (list expr) :=
  match stack with
  | [] => Ok out
  | node :: stack =>
      match fuel with
      | O => OutOfFuel
      | S fuel =>
          match node with
          | EBinOp op l r =>
              if (op =? OP_AND) && (length out + length stack + 2 <=? maxPlanConjuncts)%nat
              then flatten_loop fuel (l :: r :: stack) out
              else flatten_loop fuel stack (out ++ [node])
          | _ => flatten_loop fuel stack (out ++ [node])
          end
      end
  end.

Definition flattenAnd (cond : expr) : res (list expr) := flatten_loop (expr_size cond) [cond] [].

(** The loop of [andExcept] from operand [i] on. *)
Fixpoint andExcept_loop (i : nat) (conjs : list expr) (used : list nat) (out : option expr) : option expr :=
  match conjs with
  | [] => out
  | node :: conjs =>
      andExcept_loop (S i) conjs used
        (if bool_decide (i ∈ used) then out
         else Some (match out with None => node | Some out => EBinOp OP_AND out node end))
  end.

Definition andExcept (conjs : list expr) (used : list nat) : option expr := andExcept_loop 0 conjs used None.

(** ** Matching operands *)

Definition matchEq (cond : expr) : option (bytes * Cell) :=
  match cond with
  | EBinOp op l r =>
      if negb (op =? OP_EQ) then None else
      match l, r with
      | EName name, ECell cell => Some (name, cell)
      | EName _, _ => None
      | ECell cell, EName name => Some (name, cell)
      | _, _ => None
      end
  | _ => None
  end.

Definition as_name (e : expr) : option bytes := match e with EName s => Some s | _ => None end.
Definition as_cell (e : expr) : option Cell := match e with ECell c => Some c | _ => None end.

Definition asNameList (e : expr) : option (list bytes) :=
  match e with
  | EName s => Some [s]
  | ETuple kids => mapM as_name kids
  | _ => None
  end.

Definition asCellList (e : expr) : option (list Cell) :=
  match e with
  | ECell c => Some [c]
  | ETuple kids => mapM as_cell kids
  | _ => None
  end.

(** The operator seen from the other side. *)
Definition flip_op (op : Z) : Z :=
  if op =? OP_LE then OP_GE else if op =? OP_GE then OP_LE
  else if op =? OP_LT then OP_GT else if op =? OP_GT then OP_LT else op.

Definition isRangeOp (op : Z) : bool := existsb (Z.eqb op) [OP_LE; OP_GE; OP_LT; OP_GT].

Definition matchCmp (cond : expr) : option (Z * list bytes * list Cell) :=
  match cond with
  | EBinOp op l r =>
      if negb (isRangeOp op) then None else
      match asNameList l with
      | Some names => cells ← asCellList r; Some (op, names, cells)
      | None => names ← asNameList r; cells ← asCellList l; Some (flip_op op, names, cells)
      end
  | _ => None
  end.

(** The loop of [isPKeyPrefix] from position [i] of the index on. *)
Fixpoint prefix_matches (schema : Schema) (index : list Z) (cols : list bytes) (cells : list Cell) : res bool :=
  match cols, cells with
  | name :: cols, cell :: cells =>
      match index with
      | [] => Panic "index out of range"
      | idx :: index =>
          col ← go_at (sc_Cols schema) idx;
          if negb (bytes_equal (col_Name col) name) || negb (bool_decide (col_Type col = c_type cell))
          then Ok false else prefix_matches schema index cols cells
      end
  | _, _ => Ok true
  end.

Definition isPKeyPrefix (schema : Schema) (indexNo : nat) (cols : list bytes) (cells : list Cell) : res bool :=
  match sc_Indices schema !! indexNo with
  | None => Ok false
  | Some index =>
      if negb (length cols =? length cells)%nat || (length cols =? 0)%nat || (length index <? length cols)%nat
      then Ok false else prefix_matches schema index cols cells
  end.

(** A bound on a prefix of the index. *)
Definition index_bound (schema : Schema) (indexNo : nat) (cond : expr) : res (option (Z * list Cell)) :=
  match matchCmp cond with
  | None => Ok None
  | Some (op, cols, cells) =>
      ok ← isPKeyPrefix schema indexNo cols cells;
      Ok (if (ok : bool) then Some (op, cells) else None)
  end.

Definition matchRangeByIndex (schema : Schema) (indexNo : nat) (cond : expr) : res (option RangeReq) :=
  match cond with
  | EBinOp op l r =>
      if op =? OP_AND then
        b1 ← index_bound schema indexNo l;
        match b1 with
        | None => Ok None
        | Some (op1, cells1) =>
            b2 ← index_bound schema indexNo r;
            match b2 with
            | None => Ok None
            | Some (op2, cells2) =>
                let desc1 := fst (isDescending op1) in
                let desc2 := fst (isDescending op2) in
                if Bool.eqb desc1 desc2 then Ok None
                else Ok (Some (if desc1 then MkReq op2 op1 cells2 cells1 (Z.of_nat indexNo)
                               else MkReq op1 op2 cells1 cells2 (Z.of_nat indexNo)))
            end
        end
      else
        b1 ← index_bound schema indexNo cond;
        match b1 with
        | None => Ok None
        | Some (op1, cells1) =>
            let op2 := if fst (isDescending op1) then OP_GE else OP_LE in
            Ok (Some (MkReq op1 op2 cells1 [] (Z.of_nat indexNo)))
        end
  | _ => Ok None
  end.

(** ** The plan *)

Record scanPlan := MkPlan { pl_req : RangeReq; pl_residual : option expr; pl_indexed : bool }.

Definition fullScanReq : RangeReq := MkReq OP_GE OP_LE [] [] 0.

(** The first operand from position [i] on that pins the column. *)
Fixpoint find_eq (col : Column) (used : list nat) (i : nat) (conjs : list expr) : option (nat * Cell) :=
  match conjs with
  | [] => None
  | node :: conjs =>
      if bool_decide (i ∈ used) then find_eq col used (S i) conjs else
      match matchEq node with
      | Some (column, value) =>
          if bytes_equal column (col_Name col) && bool_decide (c_type value = col_Type col)
          then Some (i, value) else find_eq col used (S i) conjs
      | None => find_eq col used (S i) conjs
      end
  end.

Fixpoint pick_loop (schema : Schema) (conjs : list expr) (index : list Z) (cells : list Cell) (used : list nat)
    : res (list Cell * list nat) :=
  match index with
  | [] => Ok (cells, used)
  | idx :: index =>
      col ← go_at (sc_Cols schema) idx;
      match find_eq col used 0 conjs with
      | None => Ok (cells, used)
      | Some (i, value) => pick_loop schema conjs index (cells ++ [value]) (used ++ [i])
      end
  end.

Definition pickEqPrefix (schema : Schema) (indexNo : nat) (conjs : list expr) : res (list Cell * list nat) :=
  index ← go_index (sc_Indices schema) indexNo;
  pick_loop schema conjs index [] [].

(** The first element for which the body returns something. *)
Fixpoint find_first {A B} (f : A → res (option B)) (l : list A) : res (option B) :=
  match l with
  | [] => Ok None
  | a :: l =>
      r ← f a;
      match r with
      | Some b => Ok (Some b)
      | None => find_first f l
      end
  end.

(** The longest equality prefix over all indices, the first one of its length. *)
Definition best_eq (schema : Schema) (conjs : list expr) : res (option (nat * list Cell * list nat)) :=
  foldM (fun best indexNo =>
      '(cells, used) ← pickEqPrefix schema indexNo conjs;
      let n := match best with Some (_, bestCells, _) => length bestCells | None => 0%nat end in
      Ok (if (n <? length cells)%nat then Some (indexNo, cells, used) else best))
    None (seq 0 (length (sc_Indices schema))).

(** The plan that a range over the operands [used] leaves. *)
Definition plan_of (conjs : list expr) (used : list nat) (req : option RangeReq) : option scanPlan :=
  match req with
  | Some req => Some (MkPlan req (andExcept conjs used) true)
  | None => None
  end.

Definition pair_plan (schema : Schema) (conjs : list expr) (indexNo i j : nat) : res (option scanPlan) :=
  if (i =? j)%nat then Ok None else
  ci ← go_index conjs i;
  cj ← go_index conjs j;
  req ← matchRangeByIndex schema indexNo (EBinOp OP_AND ci cj);
  Ok (plan_of conjs [i; j] req).

Definition single_plan (schema : Schema) (conjs : list expr) (indexNo i : nat) : res (option scanPlan) :=
  ci ← go_index conjs i;
  req ← matchRangeByIndex schema indexNo ci;
  Ok (plan_of conjs [i] req).

(** A pair of operands, then a single one, that bounds the index. *)
Definition index_range (schema : Schema) (conjs : list expr) (indexNo : nat) : res (option scanPlan) :=
  let all := seq 0 (length conjs) in
  pair ← find_first (fun i => find_first (pair_plan schema conjs indexNo i) all) all;
  match pair with
  | Some p => Ok (Some p)
  | None => find_first (single_plan schema conjs indexNo) all
  end.

Definition planScan (schema : Schema) (cond : option expr) : res scanPlan :=
  match cond with
  | None => Ok (MkPlan fullScanReq None false)
  | Some cond =>
      conjs ← flattenAnd cond;
      best ← best_eq schema conjs;
      match best with
      | Some (indexNo, cells, used) =>
          Ok (MkPlan (MkReq OP_GE OP_LE cells cells (Z.of_nat indexNo)) (andExcept conjs used) true)
      | None =>
          r ← find_first (index_range schema conjs) (seq 0 (length (sc_Indices schema)));
          Ok (match r with
              | Some plan => plan
              | None => MkPlan fullScanReq (Some cond) false
              end)
      end
  end.

Definition matchRow (schema : Schema) (row : Row) (residual : option expr) : res bool :=
  match residual with
  | None => Ok true
  | Some e =>
      cell ← evalExpr schema row e;
      if negb (bool_decide (c_type cell = TypeI64)) then Err (errorsNew "WHERE clause is not a boolean")
      else Ok (negb (c_i64 cell =? 0))
  end.

(** ** Projections *)

Record ColumnDesc := MkDesc { cd_Name : bytes; cd_Type : byte }.

(** The loop of [exprType]: [maxExprDepth] steps down the left operands. *)
Fixpoint exprType_loop (fuel : nat) (schema : Schema) (e : expr) : res byte :=
  match fuel with
  | O => Ok TypeI64
  | S fuel =>
      match e with
      | EName name =>
          match index_col (sc_Cols schema) name with
          | None => Ok TypeI64
          | Some idx => col ← go_index (sc_Cols schema) idx; Ok (col_Type col)
          end
      | ECell cell => Ok (c_type cell)
      | EBinOp op l _ =>
          if existsb (Z.eqb op) [OP_ADD; OP_SUB; OP_MUL; OP_DIV] then exprType_loop fuel schema l
          else Ok TypeI64
      | _ => Ok TypeI64
      end
  end.

Definition exprType (schema : Schema) (e : expr) : res byte := exprType_loop maxExprDepth schema e.

Definition expandProjection (schema : Schema) (cols : list expr) : res (list expr * list ColumnDesc) :=
  '(proj, desc) ← foldM (fun '(proj, desc) e =>
      match e with
      | EStar =>
          Ok (proj ++ map (fun col => EName (col_Name col)) (sc_Cols schema),
              desc ++ map (fun col => MkDesc (col_Name col) (col_Type col)) (sc_Cols schema))
      | _ => t ← exprType schema e; Ok (proj ++ [e], desc ++ [MkDesc (expr2str e) t])
      end) ([], []) cols;
  if (length (proj : list expr) =? 0)%nat then Err (errorsNew "expect column list") else Ok (proj, desc).
