(* ===== verification/PlannerProofs.v ===== *)
(** * The planner keeps the meaning of a condition

    On a row on which the condition evaluates, the condition holds exactly when
    the key of the row in the chosen index lies in the planned range and the
    residual condition holds. *)

From Stdlib Require Import ZArith Lia.
From Stdlib.Strings Require Import Byte.
From stdpp Require Import base list numbers.
From S2P Require Import Prelude GoLib Cell Row RowProofs Entry Sql EvalProofs Planner.

Open Scope Z_scope.

(** ** Flattening *)

(** A property of a conjunction that its operands share holds of the operands found. *)
Lemma flatten_loop_Forall (P : expr → Prop) fuel :
  (∀ l r, P (EBinOp OP_AND l r) → P l ∧ P r) → ∀ stack out conjs,
  Forall P (out ++ stack) → flatten_loop fuel stack out = Ok conjs → Forall P conjs.
Proof.
  intros HP. induction fuel as [|fuel IH]; intros [|node stack] out conjs Hall; cbn [flatten_loop]; try done.
  1,2: rewrite app_nil_r in Hall; by intros [= <-].
  assert (flatten_loop fuel stack (out ++ [node]) = Ok conjs → Forall P conjs) as Hkeep.
  { apply IH. by rewrite <- (assoc_L (++)). }
  destruct node as [| | |op l r| |]; try done. destruct (op =? OP_AND) eqn:Eop; [|done].
  apply Z.eqb_eq in Eop as ->. cbn [andb]. case_if; [|done]. apply IH.
  apply Forall_app in Hall as [Ho [[Hl Hr]%HP Hs]%Forall_cons]. apply Forall_app. by repeat constructor.
Qed.

Lemma flatten_loop_count fuel : ∀ stack out conjs,
  (length out + length stack ≤ maxPlanConjuncts)%nat → flatten_loop fuel stack out = Ok conjs →
  (length conjs ≤ maxPlanConjuncts)%nat.
Proof.
  induction fuel as [|fuel IH]; intros [|node stack] out conjs Hl; cbn [flatten_loop]; try done.
  1,2: intros [= <-]; cbn in Hl; lia.
  cbn [length] in Hl. assert (flatten_loop fuel stack (out ++ [node]) = Ok conjs → (length conjs ≤ maxPlanConjuncts)%nat)
    as Hkeep by (apply IH; rewrite length_app; cbn; lia).
  destruct node as [| | |op l r| |]; try done. destruct (op =? OP_AND); [|done]. cbn [andb].
  destruct (Nat.leb_spec (length out + length stack + 2) maxPlanConjuncts) as [Hle|]; [|done].
  apply IH. cbn [length]. lia.
Qed.

(** ** The depth counter does not matter below the bound *)

Section depth.
Context (schema : Schema) (row : Row).

Definition free_at (e : expr) : Prop :=
  ∀ d d', (d + height e ≤ maxExprDepth)%nat → (d' + height e ≤ maxExprDepth)%nat →
    evalExprAt schema row e d = evalExprAt schema row e d' ∧
    match e with
    | ETuple ks => map (fun k => evalExprAt schema row k d) ks = map (fun k => evalExprAt schema row k d') ks
    | _ => True
    end.

Lemma eval_free_at e : free_at e.
Proof.
  induction e as [n|c|op k IH|op l r IHl IHr|ks IH|] using expr_ind'; intros d d' Hd Hd'; cbn [evalExprAt];
    rewrite !(proj2 (Nat.ltb_ge _ _)) by (cbn [height] in *; lia).
  1,2,6: done.
  - cbn [height] in *. split; [|done]. by rewrite (proj1 (IH (S d) (S d') ltac:(lia) ltac:(lia))).
  - cbn [height] in *. split; [|done].
    destruct (IHl (S d) (S d') ltac:(lia) ltac:(lia)) as [El Kl].
    destruct (IHr (S d) (S d') ltac:(lia) ltac:(lia)) as [Er Kr].
    destruct (isCmpOp op); [|by rewrite El, Er].
    destruct l; destruct r; try (by rewrite ?El, ?Er); try done. by rewrite Kl, Kr.
  - split; [done|]. cbn [height] in *. clear -IH Hd Hd'. induction IH as [|k ks IHk _ IHks]; [done|].
    change (list_max (map height (k :: ks))) with (Nat.max (height k) (list_max (map height ks))) in *.
    cbn [map]. f_equal; [apply IHk; lia|apply IHks; lia].
Qed.

Lemma eval_depth e d :
  (d + height e ≤ maxExprDepth)%nat → evalExprAt schema row e d = evalExpr schema row e.
Proof. intros Hd. apply (eval_free_at e d 0%nat); lia. Qed.

(** ** Conditions and their conjunctions *)

(** [e] evaluates on the row to the truth value [b]. *)
Definition truth (e : expr) (b : bool) : Prop :=
  ∃ c, evalExpr schema row e = Ok c ∧ c_type c = TypeI64 ∧ b = negb (c_i64 c =? 0).

Lemma matchRow_truth e b : matchRow schema row (Some e) = Ok b ↔ truth e b.
Proof.
  unfold matchRow, truth. split.
  - intros H. apply bind_ok in H as (c & -> & H). destruct (bool_decide_reflect (c_type c = TypeI64)); [|done].
    injection H as <-. eauto.
  - intros (c & -> & Ht & ->). rs. by rewrite bool_decide_true.
Qed.

Lemma boolCell_truth b : negb (c_i64 (boolCell b) =? 0) = b.
Proof. by destruct b. Qed.

Lemma evalBinOp_and a b c :
  evalBinOp OP_AND a b = Ok c → c_type a = TypeI64 ∧ c_type b = TypeI64 ∧
    c = boolCell (negb (c_i64 a =? 0) && negb (c_i64 b =? 0)).
Proof.
  unfold evalBinOp. destruct (bool_decide_reflect (c_type a = c_type b)) as [E|]; cbn [negb]; [|done].
  change (isCmpOp OP_AND) with false. cbv zeta iota. cbn [Z.eqb Pos.eqb OP_AND OP_ADD OP_SUB OP_MUL OP_DIV andb].
  destruct (bool_decide_reflect (c_type a = TypeI64)) as [Ha|]; cbn; [|done]. intros [= <-].
  split; [done|]. split; [congruence|done].
Qed.

Lemma truth_and l r b :
  (S (Nat.max (height l) (height r)) ≤ maxExprDepth)%nat →
  truth (EBinOp OP_AND l r) b ↔ ∃ bl br, truth l bl ∧ truth r br ∧ b = bl && br.
Proof.
  intros Hh.
  assert (evalExpr schema row (EBinOp OP_AND l r) =
    (c1 ← evalExpr schema row l; c2 ← evalExpr schema row r; evalBinOp OP_AND c1 c2)) as E.
  { unfold evalExpr at 1. cbn [evalExprAt]. change (maxExprDepth <? 0)%nat with false.
    change (isCmpOp OP_AND) with false. cbv iota. by rewrite !eval_depth by lia. }
  unfold truth. rewrite E. split.
  - intros (c & H & Ht & ->). apply bind_ok in H as (c1 & H1 & H). apply bind_ok in H as (c2 & H2 & H).
    apply evalBinOp_and in H as (Ht1 & Ht2 & ->). rewrite boolCell_truth. eauto 12.
  - intros (bl & br & (c1 & -> & Ht1 & ->) & (c2 & -> & Ht2 & ->) & ->). rs.
    eexists (boolCell _). split; [|split; [done|by rewrite boolCell_truth]].
    unfold evalBinOp. rewrite (bool_decide_true (c_type c1 = c_type c2)) by congruence. cbn [negb].
    change (isCmpOp OP_AND) with false. cbv zeta iota. rewrite (bool_decide_true (c_type c1 = TypeI64)) by done.
    by destruct (bool_decide _).
Qed.

Definition truths (es : list expr) (bs : list bool) : Prop := Forall2 truth es bs.

Definition low (n : nat) (e : expr) : Prop := (height e ≤ n)%nat.

(** Flattening splits a condition into operands whose conjunction it is. *)
Lemma flatten_loop_truth n fuel : ∀ stack out conjs bs,
  (n ≤ maxExprDepth)%nat → flatten_loop fuel stack out = Ok conjs → Forall (low n) stack → truths (out ++ stack) bs →
  ∃ bs', truths conjs bs' ∧ forallb id bs' = forallb id bs.
Proof.
  intros stack out conjs bs Hn. revert stack out bs.
  induction fuel as [|fuel IH]; intros [|node stack] out bs; cbn [flatten_loop]; try done.
  1,2: rewrite app_nil_r; intros [= <-]; eauto.
  intros E [Hnode Hs]%Forall_cons Ht.
  assert (flatten_loop fuel stack (out ++ [node]) = Ok conjs →
    ∃ bs', truths conjs bs' ∧ forallb id bs' = forallb id bs) as Hkeep.
  { intros E'. apply (IH stack (out ++ [node])); [done..|by rewrite <- (assoc_L (++))]. }
  destruct node as [| | |op l r| |]; try (by apply Hkeep).
  destruct (op =? OP_AND) eqn:Eop; [|by apply Hkeep]. cbn [andb] in E.
  destruct (Nat.leb_spec (length out + length stack + 2) maxPlanConjuncts) as [Hle|]; [|by apply Hkeep].
  apply Z.eqb_eq in Eop as ->. unfold low in Hnode. cbn [height] in Hnode.
  apply Forall2_app_inv_l in Ht as (bo & bs2 & Hto & Ht2 & ->).
  apply Forall2_cons_inv_l in Ht2 as (b & bst & Hb & Hts & ->).
  apply truth_and in Hb as (bl & br & Hl & Hr & ->); [|lia].
  destruct (IH (l :: r :: stack) out (bo ++ bl :: br :: bst) E) as (bs' & H3 & H4).
  - constructor; [unfold low; lia|]. constructor; [unfold low; lia|done].
  - apply Forall2_app; [done|]. by repeat constructor.
  - exists bs'. split; [done|]. rewrite H4, !forallb_app. cbn [forallb]. unfold id. by rewrite !andb_assoc.
Qed.

(** The loop is a total function: its fuel is the size of the condition. *)
Lemma flatten_loop_returns fuel : ∀ stack out,
  (list_sum (map expr_size stack) ≤ fuel)%nat → ∃ conjs, flatten_loop fuel stack out = Ok conjs.
Proof.
  assert (∀ e, 0 < expr_size e)%nat as Hpos by (intros []; cbn; lia).
  induction fuel as [|fuel IH]; intros [|node stack] out Hf; cbn [flatten_loop]; eauto;
    change (list_sum (map expr_size (node :: stack))) with (expr_size node + list_sum (map expr_size stack))%nat in Hf;
    pose proof (Hpos node); [lia|].
  assert (∃ conjs, flatten_loop fuel stack (out ++ [node]) = Ok conjs) as Hkeep by (apply IH; lia).
  destruct node as [| | |op l r| |]; try done. case_if; [|done]. apply IH. cbn [expr_size] in Hf.
  change (list_sum (map expr_size (l :: r :: stack)))
    with (expr_size l + (expr_size r + list_sum (map expr_size stack)))%nat. lia.
Qed.

Lemma flattenAnd_returns cond : ∃ conjs, flattenAnd cond = Ok conjs.
Proof. apply flatten_loop_returns. cbn. lia. Qed.

Lemma flattenAnd_truth cond conjs b :
  (height cond ≤ maxExprDepth)%nat → flattenAnd cond = Ok conjs → truth cond b →
  ∃ bs, truths conjs bs ∧ b = forallb id bs.
Proof.
  intros Hh E Ht. destruct (flatten_loop_truth (height cond) _ [cond] [] conjs [b] Hh E) as (bs & H3 & H4).
  - constructor; [unfold low; lia|constructor].
  - by constructor.
  - exists bs. split; [done|]. rewrite H4. cbn. by rewrite andb_true_r.
Qed.

(** *** The residual condition *)

Definition otruth (o : option expr) (b : bool) : Prop :=
  match o with None => b = true | Some e => truth e b end.

Lemma matchRow_otruth o b : matchRow schema row o = Ok b ↔ otruth o b.
Proof. destruct o as [e|]; [apply matchRow_truth|]. cbn. split; congruence. Qed.

(** The operands from position [i] on that are not used. *)
Fixpoint unused (i : nat) (used : list nat) (bs : list bool) : bool :=
  match bs with
  | [] => true
  | b :: bs => (bool_decide (i ∈ used) || b) && unused (S i) used bs
  end.

Definition used_all (used : list nat) (bs : list bool) : bool := forallb (fun i => default true (bs !! i)) used.

Lemma unused_spec used bs : ∀ i,
  unused i used bs = true ↔ ∀ j b, bs !! j = Some b → (i + j)%nat ∉ used → b = true.
Proof.
  induction bs as [|b bs IH]; intros i; cbn [unused]; [done|].
  rewrite andb_true_iff, orb_true_iff, bool_decide_eq_true, IH. split.
  - intros [Hb Hbs] [|j] b' Hj Hu; cbn in Hj.
    + injection Hj as <-. destruct Hb; [|done]. by rewrite Nat.add_0_r in Hu.
    + apply (Hbs j b'); [done|]. by rewrite Nat.add_succ_l, <- Nat.add_succ_r.
  - intros H. split.
    + destruct (decide (i ∈ used)); [by left|right]. apply (H 0%nat b); [done|]. by rewrite Nat.add_0_r.
    + intros j b' Hj Hu. apply (H (S j) b'); [done|]. by rewrite Nat.add_succ_r.
Qed.

Lemma split_used used bs : forallb id bs = used_all used bs && unused 0 used bs.
Proof.
  apply eq_true_iff_eq. rewrite andb_true_iff, unused_spec. unfold used_all. rewrite !forallb_forall. split.
  - intros H. split.
    + intros i _. destruct (bs !! i) as [b|] eqn:E; [|done]. apply (H b), list_elem_of_In. by eapply list_elem_of_lookup_2.
    + intros j b Hj _. apply (H b), list_elem_of_In. by eapply list_elem_of_lookup_2.
  - intros [Hu Hn] b Hb. apply list_elem_of_In, list_elem_of_lookup in Hb as [j Hj].
    destruct (decide (j ∈ used)) as [Hin|Hin]; [|by apply (Hn j b)].
    specialize (Hu j (proj1 (list_elem_of_In _ _) Hin)). by rewrite Hj in Hu.
Qed.

Lemma andExcept_loop_spec n used conjs bs :
  truths conjs bs → Forall (low n) conjs → ∀ i out bo,
  (n + i + length conjs ≤ maxExprDepth)%nat → (∀ e, out = Some e → low (n + i) e) → otruth out bo →
  otruth (andExcept_loop i conjs used out) (bo && unused i used bs).
Proof.
  induction 1 as [|node b conjs bs Hb _ IH]; intros Hlow i out bo Hi Hout Hbo; cbn [andExcept_loop unused].
  { by rewrite andb_true_r. }
  apply Forall_cons in Hlow as [Hn Hlow]. unfold low in *. cbn [length] in Hi.
  case_bool_decide; cbn [orb andb].
  - apply IH; [done|lia| |done]. intros e He. specialize (Hout e He). lia.
  - rewrite andb_assoc. apply IH; [done|lia| |].
    + intros e [= <-]. destruct out as [e|]; [specialize (Hout e eq_refl); cbn [height]; lia|lia].
    + destruct out as [e|]; cbn [otruth] in *.
      * apply truth_and; [specialize (Hout e eq_refl); lia|eauto].
      * by subst bo.
Qed.

Lemma andExcept_spec n used conjs bs :
  truths conjs bs → Forall (low n) conjs → (n + length conjs ≤ maxExprDepth)%nat →
  otruth (andExcept conjs used) (unused 0 used bs).
Proof. intros Ht Hl Hn. by apply (andExcept_loop_spec n used conjs bs Ht Hl 0 None true); [lia|..]. Qed.

End depth.

(** ** Operands that compare columns with literals *)

Lemma cell_compare_antisym a b : c_type a = c_type b → cell_compare a b = CompOpp (cell_compare b a).
Proof.
  intros Ht. unfold cell_compare. rewrite Ht. case_decide; [apply Z.compare_antisym|apply bytes_compare_antisym].
Qed.

Lemma cells_compare_antisym xs ys : same_shape xs ys → cells_compare xs ys = CompOpp (cells_compare ys xs).
Proof.
  induction 1 as [|x y xs ys (_ & _ & Ht) _ IH]; [done|]. cbn [cells_compare].
  rewrite cell_compare_antisym, IH by done. by destruct (cell_compare y x).
Qed.

Lemma same_shape_sym xs ys : same_shape xs ys → same_shape ys xs.
Proof. intros H. apply Forall2_flip. eapply Forall2_impl; [exact H|]. intros x y (? & ? & ?). by split_and!. Qed.

Lemma cmpResult_flip op c : isRangeOp op = true → cmpResult (flip_op op) (cmp_int (CompOpp c)) = cmpResult op (cmp_int c).
Proof.
  unfold isRangeOp. cbn [existsb]. intros H.
  repeat (apply orb_true_iff in H as [->%Z.eqb_eq|H]; [by destruct c|]). done.
Qed.

Lemma flip_range op : isRangeOp op = true → isRangeOp (flip_op op) = true.
Proof.
  unfold isRangeOp at 1. cbn [existsb]. intros H.
  repeat (apply orb_true_iff in H as [->%Z.eqb_eq|H]; [done|]). done.
Qed.

Lemma range_cmp op : isRangeOp op = true → isCmpOp op = true.
Proof.
  unfold isRangeOp. cbn [existsb]. intros H.
  repeat (apply orb_true_iff in H as [->%Z.eqb_eq|H]; [done|]). done.
Qed.

Lemma mapM_names kids names : mapM as_name kids = Some names → kids = map EName names.
Proof.
  revert names. induction kids as [|k kids IH]; intros names; cbn; [by intros [= <-]|].
  destruct k; try done. cbn. destruct (mapM as_name kids) as [l|]; [|done]. intros [= <-]. cbn. by rewrite (IH l).
Qed.

Lemma mapM_cells kids cells : mapM as_cell kids = Some cells → kids = map ECell cells.
Proof.
  revert cells. induction kids as [|k kids IH]; intros names; cbn; [by intros [= <-]|].
  destruct k; try done. cbn. destruct (mapM as_cell kids) as [l|]; [|done]. intros [= <-]. cbn. by rewrite (IH l).
Qed.

Section operands.
Context (schema : Schema) (row : Row).

(** The cells an operand of a comparison stands for. *)
Definition operand (e : expr) (xs : list Cell) : Prop :=
  match e with
  | ETuple kids => map (fun k => evalExprAt schema row k 1) kids = map Ok xs
  | _ => ∃ x, xs = [x] ∧ evalExprAt schema row e 1 = Ok x
  end.

Lemma cmp_tuples op ls rs xs ys c :
  operand (ETuple ls) xs → operand (ETuple rs) ys → same_shape xs ys → isCmpOp op = true →
  evalExpr schema row (EBinOp op (ETuple ls) (ETuple rs)) = Ok c →
  c = boolCell (cmpResult op (cmp_int (cells_compare xs ys))).
Proof.
  cbn [operand]. intros Hl Hr Hs Hop. unfold evalExpr. cbn [evalExprAt]. rewrite Hop, Hl, Hr.
  change (maxExprDepth <? 0)%nat with false. cbv iota. unfold evalTupleCmp.
  rewrite !length_map, (Forall2_length _ _ _ Hs), Nat.eqb_refl. cbn [negb]. rewrite tuple_cmp_lex by done. rs.
  case_decide as Hn; [|by intros [= <-]]. subst xs. inversion Hs; subst. by intros [= <-].
Qed.

Lemma cmp_scalars op l r x y c :
  evalExprAt schema row l 1 = Ok x → evalExprAt schema row r 1 = Ok y → same_shape [x] [y] → isCmpOp op = true →
  (∀ ks, l ≠ ETuple ks) → (∀ ks, r ≠ ETuple ks) → evalExpr schema row (EBinOp op l r) = Ok c →
  c = boolCell (cmpResult op (cmp_int (cells_compare [x] [y]))).
Proof.
  intros Hl Hr Hs Hop Nl Nr.
  assert (evalExpr schema row (EBinOp op l r) = evalBinOp op x y) as ->.
  { unfold evalExpr. cbn [evalExprAt]. rewrite Hop, Hl, Hr. change (maxExprDepth <? 0)%nat with false. cbv iota.
    destruct l; try (by destruct (Nl _ eq_refl)); destruct r; try (by destruct (Nr _ eq_refl)); done. }
  apply Forall2_cons in Hs as [(Hx & Hy & Ht) _]. unfold evalBinOp. rewrite bool_decide_true, Hop by done. cbn [negb].
  rewrite compareCells_spec by (by apply cell_ok_type). rs. intros [= <-]. cbn [cells_compare].
  by destruct (cell_compare x y).
Qed.

Lemma tuple_dec e : (∃ ks, e = ETuple ks) ∨ (∀ ks, e ≠ ETuple ks).
Proof. destruct e; try (by right); eauto. Qed.

Lemma operand_scalar e xs : (∀ ks, e ≠ ETuple ks) → operand e xs → ∃ x, xs = [x] ∧ evalExprAt schema row e 1 = Ok x.
Proof. intros Hn. destruct e; try done. by destruct (Hn kids). Qed.

(** A comparison that evaluates compares the cells of its operands. *)
Lemma cmp_truth op l r xs ys b :
  isCmpOp op = true → operand l xs → operand r ys → same_shape xs ys → truth schema row (EBinOp op l r) b →
  b = cmpResult op (cmp_int (cells_compare xs ys)).
Proof.
  intros Hop Hl Hr Hs (c & Hc & _ & ->).
  assert (∀ c', c' = boolCell (cmpResult op (cmp_int (cells_compare xs ys))) →
    negb (c_i64 c' =? 0) = cmpResult op (cmp_int (cells_compare xs ys))) as Hfin by (intros ? ->; apply boolCell_truth).
  destruct (tuple_dec l) as [[ls ->]|Nl], (tuple_dec r) as [[rs ->]|Nr].
  - apply Hfin. by eapply cmp_tuples.
  - exfalso. unfold evalExpr in Hc. cbn [evalExprAt] in Hc. rewrite Hop in Hc.
    destruct r; try done. by destruct (Nr _ eq_refl).
  - exfalso. unfold evalExpr in Hc. cbn [evalExprAt] in Hc. rewrite Hop in Hc.
    destruct l; try done. by destruct (Nl _ eq_refl).
  - apply operand_scalar in Hl as (x & -> & Hl), Hr as (y & -> & Hr); [|done..]. apply Hfin. by eapply cmp_scalars.
Qed.

Lemma names_operand e names xs :
  asNameList e = Some names → map (fun n => evalExprAt schema row (EName n) 1) names = map Ok xs → operand e xs.
Proof.
  destruct e; cbn [asNameList]; try done.
  - intros [= <-]. cbn. destruct xs as [|x [|]]; try done. intros [= E]. exists x. split; [done|]. exact E.
  - intros ->%mapM_names Hm. cbn [operand]. rewrite map_map. exact Hm.
Qed.

Lemma cells_operand e cells : asCellList e = Some cells → operand e cells.
Proof.
  destruct e; cbn [asCellList]; try done.
  - intros [= <-]. cbn. eauto.
  - intros ->%mapM_cells. cbn [operand]. rewrite map_map. apply map_ext. intros c. reflexivity.
Qed.

End operands.

(** ** Bounds on an index *)

Section bounds.
Context (schema : Schema) (Hschema : schema_ok schema) (Hnd : NoDup (map col_Name (sc_Cols schema))).

Lemma index_col_lookup cols i col :
  NoDup (map col_Name cols) → cols !! i = Some col → index_col cols (col_Name col) = Some i.
Proof.
  revert i. induction cols as [|c cols IH]; intros i Hn; [done|]. cbn [map] in Hn. apply NoDup_cons in Hn as [Hc Hn].
  destruct i as [|i]; cbn [index_col lookup list_lookup].
  - intros [= <-]. by rewrite bytes_equal_refl.
  - intros Hi. destruct (bytes_equal (col_Name c) (col_Name col)) eqn:E; [|by rewrite (IH i)].
    apply bytes_equal_eq in E. destruct Hc. rewrite E. apply list_elem_of_In, in_map, list_elem_of_In.
    by eapply list_elem_of_lookup_2.
Qed.

(** A column of a row by its name. *)
Lemma eval_column row idx col :
  row_ok schema row → sc_Cols schema !! Z.to_nat idx = Some col →
  evalExprAt schema row (EName (col_Name col)) 1 = Ok (default (zero_cell x00) (row !! Z.to_nat idx)).
Proof.
  intros Hr Hc. cbn [evalExprAt]. change (maxExprDepth <? 1)%nat with false. cbv iota.
  rewrite (index_col_lookup _ _ _ Hnd Hc). destruct (Forall2_lookup_r _ _ _ _ _ Hr Hc) as (c & Hrc & _).
  rewrite Hrc. by apply go_index_ok.
Qed.

Lemma col_at idx : 0 ≤ idx < Z.of_nat (length (sc_Cols schema)) →
  ∃ col, go_at (sc_Cols schema) idx = Ok col ∧ sc_Cols schema !! Z.to_nat idx = Some col.
Proof.
  intros Hi. destruct (lookup_lt_is_Some_2 (sc_Cols schema) (Z.to_nat idx)) as [col Hcol]; [lia|].
  exists col. split; [|done]. apply go_at_ok; [lia|done].
Qed.

(** What [isPKeyPrefix] accepts: the names are those of the first columns of
    the index, the cells have their types. *)
Lemma prefix_matches_spec names cells : ∀ index,
  (∀ idx, idx ∈ index → 0 ≤ idx < Z.of_nat (length (sc_Cols schema))) →
  length names = length cells → (length cells ≤ length index)%nat → Forall cell_ok cells →
  ∃ ok, prefix_matches schema index names cells = Ok ok ∧
    (ok = true → prefix_ok schema index cells ∧
      ∀ row, row_ok schema row → map (fun n => evalExprAt schema row (EName n) 1) names
        = map Ok (take (length cells) (index_cells row index))).
Proof.
  revert cells. induction names as [|name names IH]; intros [|cell cells] index Hin Hlen Hle Hok; try done.
  { exists true. split; [by destruct index|]. intros _. split; [constructor|done]. }
  destruct index as [|idx index]; [cbn in Hle; lia|]. cbn [prefix_matches].
  destruct (col_at idx) as (col & -> & Hcol); [apply Hin; by left|]. rs.
  apply Forall_cons in Hok as [Hc Hok].
  destruct (bytes_equal (col_Name col) name) eqn:En; cbn [negb orb]; [|by exists false].
  destruct (bool_decide_reflect (col_Type col = c_type cell)) as [Ht|]; cbn [negb]; [|by exists false].
  destruct (IH cells index) as (ok & -> & Hspec); [|by injection Hlen|cbn in Hle; lia|done|].
  { intros i Hi. apply Hin. by right. }
  exists ok. split; [done|]. intros ->. destruct (Hspec eq_refl) as [Hp Hev]. split.
  - constructor; [|exact Hp]. eauto.
  - intros row Hr. apply bytes_equal_eq in En as <-. cbn [map length take index_cells fmap list_fmap].
    rewrite (eval_column row idx col) by done. f_equal. by apply Hev.
Qed.

(** An operator and cells that can bound the index. *)
Record bound_ok (index : list Z) (op : Z) (cells : list Cell) : Prop := {
  bo_op : isRangeOp op = true;
  bo_len : (length cells ≤ length index)%nat;
  bo_prefix : prefix_ok schema index cells;
}.

(** The row satisfies the bound. *)
Definition within (index : list Z) (op : Z) (cells : list Cell) (row : Row) : bool :=
  cmpResult op (cmp_int (cells_compare (take (length cells) (index_cells row index)) cells)).

Lemma index_range_cols indexNo index : sc_Indices schema !! indexNo = Some index →
  ∀ idx, idx ∈ index → 0 ≤ idx < Z.of_nat (length (sc_Cols schema)).
Proof. intros Hi. by apply (so_index _ Hschema index), list_elem_of_lookup_2 with indexNo. Qed.

Lemma lits_cells e cells : asCellList e = Some cells → lits_ok e → Forall cell_ok cells.
Proof.
  destruct e; cbn [asCellList]; try done.
  - intros [= <-] Hc. by constructor.
  - intros ->%mapM_cells. cbn [lits_ok]. induction cells as [|c cells IH]; cbn; [done|].
    intros [Hc Hcs]. constructor; auto.
Qed.

(** The two shapes of an operand [matchCmp] accepts. *)
Lemma matchCmp_inv cond op names cells :
  matchCmp cond = Some (op, names, cells) → ∃ op0 l r, cond = EBinOp op0 l r ∧ isRangeOp op0 = true ∧
    (op = op0 ∧ asNameList l = Some names ∧ asCellList r = Some cells ∨
     op = flip_op op0 ∧ asNameList r = Some names ∧ asCellList l = Some cells).
Proof.
  destruct cond as [| | |op0 l r| |]; cbn [matchCmp]; try done. destruct (isRangeOp op0) eqn:Eop; cbn [negb]; [|done].
  intros H. exists op0, l, r. split; [done|]. split; [done|]. destruct (asNameList l) as [ns|] eqn:El.
  - destruct (asCellList r) as [cs|] eqn:Er; [|done]. injection H as <- <- <-. by left.
  - destruct (asNameList r) as [ns|] eqn:Er; [|done]. cbn in H.
    destruct (asCellList l) as [cs|] eqn:Ecl; [|done]. injection H as <- <- <-. by right.
Qed.

Lemma index_bound_spec indexNo index cond :
  sc_Indices schema !! indexNo = Some index → lits_ok cond →
  ∃ ob, index_bound schema indexNo cond = Ok ob ∧ ∀ op cells, ob = Some (op, cells) →
    bound_ok index op cells ∧
    ∀ row b, row_ok schema row → truth schema row cond b → b = within index op cells row.
Proof.
  intros Hi Hlit. unfold index_bound. destruct (matchCmp cond) as [[[op names] cells]|] eqn:Em; [|by exists None].
  unfold isPKeyPrefix. rewrite Hi. case_if; [by exists None|].
  match goal with H : _ || _ = false |- _ => apply orb_false_iff in H as [[Hlen Hne]%orb_false_iff Hle] end.
  apply negb_false_iff, Nat.eqb_eq in Hlen. apply Nat.ltb_ge in Hle. rewrite Hlen in Hle.
  apply matchCmp_inv in Em as (op0 & l & r & -> & Hop & Hcase). destruct Hlit as [Hll Hlr].
  assert (Forall cell_ok cells) as Hok.
  { destruct Hcase as [(_ & _ & Hc)|(_ & _ & Hc)]; by eapply lits_cells. }
  destruct (prefix_matches_spec names cells index (index_range_cols _ _ Hi) Hlen Hle Hok) as (ok & -> & Hspec). rs.
  destruct ok; [|by exists None]. destruct (Hspec eq_refl) as [Hp Hev].
  eexists. split; [done|]. intros op' cells' [= <- <-]. split.
  { split; [|done..]. destruct Hcase as [(-> & _)|(-> & _)]; [done|by apply flip_range]. }
  intros row b Hr Ht. pose proof (prefix_shape _ _ _ _ Hr Hp) as Hs. unfold within.
  destruct Hcase as [(-> & Hn & Hc)|(-> & Hn & Hc)].
  - eapply cmp_truth; [by apply range_cmp|by eapply names_operand, Hev|by apply cells_operand|done|done].
  - rewrite (cells_compare_antisym _ _ Hs), cmpResult_flip by done.
    eapply cmp_truth; [by apply range_cmp|by apply cells_operand|by eapply names_operand, Hev|by apply same_shape_sym|done].
Qed.

(** ** Key ranges *)

(** [k] lies between the two bounds of a scan. *)
Definition covers (start stop : bytes) (desc : bool) (k : bytes) : bool :=
  if desc then bytes_leb stop k && bytes_leb k start else bytes_leb start k && bytes_leb k stop.

(** A bound compared with the key of a row. *)
Lemma bound_key indexNo index op cells row k p :
  go_at (sc_Indices schema) indexNo = Ok index → bound_ok index op cells →
  row_ok schema row → EncodeKey row schema indexNo = Ok k →
  EncodeKeyPrefix schema indexNo cells (fst (suffixPositive op)) = Ok p →
  (if fst (isDescending op) then bytes_leb k p else bytes_leb p k) = within index op cells row.
Proof.
  intros Hi [Hop Hlen Hp] Hr Hk Hpk.
  pose proof (EncodeKeyPrefix_compare schema Hschema row indexNo index cells _ k p Hr Hi Hlen Hp Hk Hpk) as Hc.
  unfold within, bytes_leb. rewrite (bytes_compare_antisym p k), Hc.
  unfold isRangeOp in Hop. cbn [existsb] in Hop. destruct (cells_compare _ _);
    repeat (apply orb_true_iff in Hop as [->%Z.eqb_eq|Hop]; [done|]); done.
Qed.

(** Two bounds in opposite directions make a range. *)
Lemma range_bounds_spec req index :
  go_at (sc_Indices schema) (rq_IndexNo req) = Ok index →
  bound_ok index (rq_StartCmp req) (rq_Start req) → bound_ok index (rq_StopCmp req) (rq_Stop req) →
  fst (isDescending (rq_StopCmp req)) = negb (fst (isDescending (rq_StartCmp req))) →
  ∃ start stop desc, range_bounds schema req = Ok (start, stop, desc) ∧
    ∀ row k, row_ok schema row → EncodeKey row schema (rq_IndexNo req) = Ok k →
      covers start stop desc k =
        within index (rq_StartCmp req) (rq_Start req) row && within index (rq_StopCmp req) (rq_Stop req) row.
Proof.
  intros Hi H1 H2 Hd. pose proof H1 as [Hop1 Hl1 Hp1]. pose proof H2 as [Hop2 Hl2 Hp2].
  assert (∀ op, isRangeOp op = true → suffixPositive op = (fst (suffixPositive op), true)) as Hsfx.
  { intros op Hop. unfold isRangeOp in Hop. cbn [existsb] in Hop.
    repeat (apply orb_true_iff in Hop as [->%Z.eqb_eq|Hop]; [done|]). done. }
  unfold range_bounds. rewrite (Hsfx _ Hop1), (Hsfx _ Hop2).
  destruct (isDescending (rq_StartCmp req)) as [desc u1] eqn:Ed1, (isDescending (rq_StopCmp req)) as [sdesc u2] eqn:Ed2.
  cbn [fst] in Hd. subst sdesc. cbn [negb orb]. replace (Bool.eqb desc (negb desc)) with false by (by destruct desc).
  pose proof (EncodeKeyPrefix_bytes schema Hschema _ _ _ (fst (suffixPositive (rq_StartCmp req))) Hi Hl1 Hp1) as E1.
  pose proof (EncodeKeyPrefix_bytes schema Hschema _ _ _ (fst (suffixPositive (rq_StopCmp req))) Hi Hl2 Hp2) as E2.
  rewrite E1, E2. rs. eexists _, _, _. split; [done|]. intros row k Hr Hk.
  rewrite <- (bound_key _ _ _ _ _ _ _ Hi H1 Hr Hk E1), <- (bound_key _ _ _ _ _ _ _ Hi H2 Hr Hk E2), Ed1, Ed2.
  unfold covers. cbn [fst]. destruct desc; cbn [negb]; [apply andb_comm|done].
Qed.

(** A range stands for a condition on the rows. *)
Definition req_means (req : RangeReq) (cond : Row → bool → Prop) : Prop :=
  ∃ start stop desc, range_bounds schema req = Ok (start, stop, desc) ∧
    ∀ row k b, row_ok schema row → EncodeKey row schema (rq_IndexNo req) = Ok k → cond row b →
      covers start stop desc k = b.

Lemma go_at_nat indexNo index : sc_Indices schema !! indexNo = Some index → go_at (sc_Indices schema) (Z.of_nat indexNo) = Ok index.
Proof. intros H. apply go_at_ok; [lia|]. by rewrite Nat2Z.id. Qed.

Lemma no_bound index : prefix_ok schema index [].
Proof. constructor. Qed.

Lemma within_nil index op row : cmpResult op 0 = true → within index op [] row = true.
Proof. unfold within. by destruct (index_cells row index). Qed.

(** A single bound is a range that is open at its other end. *)
Lemma single_means indexNo index op cells cond :
  sc_Indices schema !! indexNo = Some index → bound_ok index op cells →
  (∀ row b, row_ok schema row → cond row b → b = within index op cells row) →
  req_means (MkReq op (if fst (isDescending op) then OP_GE else OP_LE) cells [] (Z.of_nat indexNo)) cond.
Proof.
  intros Hi Hb Hc.
  destruct (range_bounds_spec (MkReq op (if fst (isDescending op) then OP_GE else OP_LE) cells [] (Z.of_nat indexNo)) index)
    as (start & stop & desc & E & Hcov); cbn in *.
  - by apply go_at_nat.
  - done.
  - split; [by destruct (fst _)|cbn; lia|apply no_bound].
  - by destruct (fst (isDescending op)).
  - exists start, stop, desc. split; [done|]. intros row k b Hr Hk Hcb. rewrite (Hcov row k Hr Hk).
    rewrite (within_nil index), andb_true_r by (by destruct (fst _)). symmetry. by apply Hc.
Qed.

Lemma pair_means indexNo index op1 cells1 op2 cells2 cond :
  sc_Indices schema !! indexNo = Some index → bound_ok index op1 cells1 → bound_ok index op2 cells2 →
  fst (isDescending op2) = negb (fst (isDescending op1)) →
  (∀ row b, row_ok schema row → cond row b → b = within index op1 cells1 row && within index op2 cells2 row) →
  req_means (MkReq op1 op2 cells1 cells2 (Z.of_nat indexNo)) cond.
Proof.
  intros Hi H1 H2 Hd Hc.
  destruct (range_bounds_spec (MkReq op1 op2 cells1 cells2 (Z.of_nat indexNo)) index (go_at_nat _ _ Hi) H1 H2 Hd)
    as (start & stop & desc & E & Hcov).
  exists start, stop, desc. split; [done|]. intros row k b Hr Hk Hcb. rewrite (Hcov row k Hr Hk). symmetry. by apply Hc.
Qed.

(** [matchRangeByIndex] finds a range that means its condition. *)
Lemma matchRange_spec indexNo index cond :
  sc_Indices schema !! indexNo = Some index → lits_ok cond → (height cond ≤ maxExprDepth)%nat →
  ∃ oreq, matchRangeByIndex schema indexNo cond = Ok oreq ∧
    ∀ req, oreq = Some req → req_means req (fun row b => truth schema row cond b).
Proof.
  intros Hi Hlit Hh. destruct cond as [| | |op l r| |]; try (by exists None). cbn [matchRangeByIndex].
  destruct (op =? OP_AND) eqn:Eop.
  - apply Z.eqb_eq in Eop as ->. destruct Hlit as [Hll Hlr]. cbn [height] in Hh.
    destruct (index_bound_spec indexNo index l Hi Hll) as ([[op1 cells1]|] & -> & Hs1); rs; [|by exists None].
    destruct (index_bound_spec indexNo index r Hi Hlr) as ([[op2 cells2]|] & -> & Hs2); rs; [|by exists None].
    destruct (Hs1 _ _ eq_refl) as [Hb1 Ht1], (Hs2 _ _ eq_refl) as [Hb2 Ht2].
    destruct (fst (isDescending op1)) eqn:Ed1, (fst (isDescending op2)) eqn:Ed2; cbn [Bool.eqb]; try (by exists None);
      (eexists; split; [done|]; intros req [= <-]; eapply pair_means; [done..|by rewrite Ed1, Ed2|];
       intros row b Hr (bl & br & Hl & Hr' & ->)%truth_and; [|lia]).
    + rewrite andb_comm. f_equal; [by apply Ht2|by apply Ht1].
    + f_equal; [by apply Ht1|by apply Ht2].
  - destruct (index_bound_spec indexNo index (EBinOp op l r) Hi Hlit) as ([[op1 cells1]|] & -> & Hs1); rs; [|by exists None].
    destruct (Hs1 _ _ eq_refl) as [Hb1 Ht1]. eexists. split; [done|]. intros req [= <-].
    by eapply single_means.
Qed.

(** ** Equality prefixes *)

Definition is_eq (c : comparison) : bool := match c with Eq => true | _ => false end.

Lemma matchEq_inv node name v :
  matchEq node = Some (name, v) →
  node = EBinOp OP_EQ (EName name) (ECell v) ∨ node = EBinOp OP_EQ (ECell v) (EName name).
Proof.
  destruct node as [| | |op l r| |]; cbn [matchEq]; try done. destruct (op =? OP_EQ) eqn:E; cbn [negb]; [|done].
  apply Z.eqb_eq in E as ->. destruct l, r; try done; intros [= <- <-]; auto.
Qed.

Lemma find_eq_spec col used conjs : ∀ i j v,
  find_eq col used i conjs = Some (j, v) →
  (i ≤ j)%nat ∧ ∃ node, conjs !! (j - i)%nat = Some node ∧ matchEq node = Some (col_Name col, v) ∧ c_type v = col_Type col.
Proof.
  induction conjs as [|node conjs IH]; intros i j v; cbn [find_eq]; [done|].
  assert (find_eq col used (S i) conjs = Some (j, v) → (i ≤ j)%nat ∧ ∃ node0, (node :: conjs) !! (j - i)%nat = Some node0 ∧
    matchEq node0 = Some (col_Name col, v) ∧ c_type v = col_Type col) as Hskip.
  { intros (Hle & n & Hn & Hm)%IH. split; [lia|]. exists n. split; [|done].
    by replace (j - i)%nat with (S (j - S i)) by lia. }
  case_bool_decide; [done|]. destruct (matchEq node) as [[column value]|] eqn:Em; [|done].
  destruct (bytes_equal column (col_Name col)) eqn:Ec; cbn [andb]; [|done].
  case_bool_decide as Ht; [|done]. apply bytes_equal_eq in Ec as ->. intros [= <- <-]. split; [lia|].
  exists node. by rewrite Nat.sub_diag.
Qed.

Lemma eq_truth row idx col node v b :
  row_ok schema row → sc_Cols schema !! Z.to_nat idx = Some col → matchEq node = Some (col_Name col, v) →
  c_type v = col_Type col → cell_ok v → truth schema row node b →
  b = is_eq (cell_compare (default (zero_cell x00) (row !! Z.to_nat idx)) v).
Proof.
  intros Hr Hc Hm Ht Hv Hb. pose proof (eval_column row idx col Hr Hc) as He.
  destruct (Forall2_lookup_r _ _ _ _ _ Hr Hc) as (c & Hrc & Hok & Htc). rewrite Hrc in *. cbn [default] in *. unfold id in He |- *.
  assert (same_shape [c] [v]) as Hs by (constructor; [split_and!; [done..|congruence]|constructor]).
  assert (operand schema row (EName (col_Name col)) [c]) as Ho1 by (exists c; done).
  assert (operand schema row (ECell v) [v]) as Ho2 by (exists v; done).
  apply matchEq_inv in Hm as [->| ->].
  - rewrite (cmp_truth schema row OP_EQ _ _ _ _ _ eq_refl Ho1 Ho2 Hs Hb). cbn. by destruct (cell_compare c v).
  - rewrite (cmp_truth schema row OP_EQ _ _ _ _ _ eq_refl Ho2 Ho1 (same_shape_sym _ _ Hs) Hb). cbn.
    rewrite (cell_compare_antisym c v) by congruence. by destruct (cell_compare v c).
Qed.

Lemma lits_eq node name v : lits_ok node → matchEq node = Some (name, v) → cell_ok v.
Proof. intros Hl [->| ->]%matchEq_inv; apply Hl. Qed.

Section conjuncts.
Context (conjs : list expr) (Hlits : Forall lits_ok conjs).

Lemma pick_loop_spec index : ∀ cells used,
  (∀ idx, idx ∈ index → 0 ≤ idx < Z.of_nat (length (sc_Cols schema))) →
  ∃ more umore, pick_loop schema conjs index cells used = Ok (cells ++ more, used ++ umore) ∧
    (length more ≤ length index)%nat ∧ prefix_ok schema index more ∧
    ∀ row bs, row_ok schema row → truths schema row conjs bs →
      used_all umore bs = is_eq (cells_compare (take (length more) (index_cells row index)) more).
Proof.
  induction index as [|idx index IH]; intros cells used Hin; cbn [pick_loop].
  { exists [], []. rewrite !app_nil_r. split_and!; [done|cbn; lia|constructor|done]. }
  destruct (col_at idx) as (col & -> & Hcol); [apply Hin; by left|]. rs.
  destruct (find_eq col used 0 conjs) as [[i v]|] eqn:Ef.
  2: { exists [], []. rewrite !app_nil_r. split_and!; [done|cbn; lia|constructor|done]. }
  apply find_eq_spec in Ef as (_ & node & Hn & Hm & Ht). rewrite Nat.sub_0_r in Hn.
  assert (cell_ok v) as Hv by (eapply lits_eq; [eapply Forall_lookup_1; [exact Hlits|exact Hn]|done]).
  destruct (IH (cells ++ [v]) (used ++ [i])) as (more & umore & -> & Hlen & Hp & Hall).
  { intros j Hj. apply Hin. by right. }
  exists (v :: more), (i :: umore). rewrite <- !(assoc_L (++)). split; [done|]. split; [cbn; lia|].
  split; [constructor; [|exact Hp]; eauto|]. intros row bs Hr Hbs.
  destruct (Forall2_lookup_l _ _ _ _ _ Hbs Hn) as (b & Hbi & Hb).
  pose proof (eq_truth row idx col node v b Hr Hcol Hm Ht Hv Hb) as ->.
  cbn [used_all forallb length take index_cells fmap list_fmap cells_compare]. rewrite Hbi. cbn [default].
  specialize (Hall row bs Hr Hbs). unfold used_all in Hall. rewrite Hall. by destruct (cell_compare _ v).
Qed.

(** A range that stands for the operands [used]. *)
Definition range_means (req : RangeReq) (used : list nat) : Prop :=
  req_means req (fun row b => ∃ bs, truths schema row conjs bs ∧ b = used_all used bs).

Lemma eq_within index cells row : within index OP_GE cells row && within index OP_LE cells row =
  is_eq (cells_compare (take (length cells) (index_cells row index)) cells).
Proof. unfold within. by destruct (cells_compare _ cells). Qed.

Lemma eq_means indexNo index cells used :
  sc_Indices schema !! indexNo = Some index → (length cells ≤ length index)%nat → prefix_ok schema index cells →
  (∀ row bs, row_ok schema row → truths schema row conjs bs →
     used_all used bs = is_eq (cells_compare (take (length cells) (index_cells row index)) cells)) →
  range_means (MkReq OP_GE OP_LE cells cells (Z.of_nat indexNo)) used.
Proof.
  intros Hi Hl Hp Hu. eapply pair_means; [exact Hi|by split|by split|done|].
  intros row b Hr (bs & Hbs & ->). rewrite eq_within. by apply Hu.
Qed.

Lemma best_eq_spec :
  ∃ best, best_eq schema conjs = Ok best ∧ ∀ indexNo cells used, best = Some (indexNo, cells, used) →
    range_means (MkReq OP_GE OP_LE cells cells (Z.of_nat indexNo)) used.
Proof.
  unfold best_eq. set (good := fun best : option (nat * list Cell * list nat) => ∀ indexNo cells used,
    best = Some (indexNo, cells, used) → range_means (MkReq OP_GE OP_LE cells cells (Z.of_nat indexNo)) used).
  assert (∀ l best, Forall (fun n => (n < length (sc_Indices schema))%nat) l → good best →
    ∃ best', foldM (fun best indexNo =>
      '(cells, used) ← pickEqPrefix schema indexNo conjs;
      let n := match best with Some (_, bestCells, _) => length bestCells | None => 0%nat end in
      Ok (if (n <? length cells)%nat then Some (indexNo, cells, used) else best)) best l = Ok best' ∧ good best') as Hloop.
  { intros l. induction l as [|indexNo l IH]; intros best Hall Hgood; cbn [foldM]; [eauto|].
    apply Forall_cons in Hall as [Hn Hall]. unfold pickEqPrefix.
    destruct (lookup_lt_is_Some_2 _ _ Hn) as [index Hi]. rewrite (proj2 (go_index_ok _ _ _) Hi). rs.
    destruct (pick_loop_spec index [] [] (index_range_cols _ _ Hi)) as (cells & used & -> & Hl & Hp & Hu). rs.
    apply IH; [done|]. case_if; [|done]. intros ? ? ? [= <- <- <-]. by eapply eq_means. }
  apply Hloop; [|done]. apply Forall_seq. lia.
Qed.

(** ** The plan *)

Context (n : nat) (Hlow : Forall (low n) conjs) (Hn : (n + maxPlanConjuncts ≤ maxExprDepth)%nat)
  (Hcount : (length conjs ≤ maxPlanConjuncts)%nat).

(** A plan that keeps the meaning of the operands. *)
Definition plan_means (plan : scanPlan) : Prop :=
  ∃ start stop desc, range_bounds schema (pl_req plan) = Ok (start, stop, desc) ∧
    ∀ row k bs, row_ok schema row → EncodeKey row schema (rq_IndexNo (pl_req plan)) = Ok k →
      truths schema row conjs bs →
      ∃ b, matchRow schema row (pl_residual plan) = Ok b ∧ forallb id bs = covers start stop desc k && b.

Lemma range_plan req used indexed :
  range_means req used → plan_means (MkPlan req (andExcept conjs used) indexed).
Proof.
  intros (start & stop & desc & E & Hcov). exists start, stop, desc. split; [done|]. intros row k bs Hr Hk Hbs.
  exists (unused 0 used bs). split.
  - apply matchRow_otruth. eapply andExcept_spec; [done..|lia].
  - cbn [pl_req] in Hk. rewrite (Hcov row k (used_all used bs)) by eauto. apply split_used.
Qed.

Definition finds {B} (P : B → Prop) (r : res (option B)) : Prop := ∃ o, r = Ok o ∧ ∀ b, o = Some b → P b.

Lemma find_first_finds {A B} (P : B → Prop) (f : A → res (option B)) l :
  (∀ a, a ∈ l → finds P (f a)) → finds P (find_first f l).
Proof.
  induction l as [|a l IH]; intros Hf; cbn [find_first]; [by exists None|].
  destruct (Hf a) as ([b|] & -> & Hb); [by left| |]; rs; [by exists (Some b)|]. apply IH. intros a' Ha. apply Hf. by right.
Qed.

Lemma conj_low i node : conjs !! i = Some node → (height node < maxExprDepth)%nat.
Proof. intros Hi. pose proof (Forall_lookup_1 _ _ _ _ Hlow Hi). unfold low, maxPlanConjuncts in *. lia. Qed.

Lemma conj_at i : (i < length conjs)%nat → ∃ node, go_index conjs i = Ok node ∧ conjs !! i = Some node.
Proof. intros Hi. destruct (lookup_lt_is_Some_2 _ _ Hi) as [node Hnode]. exists node. by rewrite go_index_ok. Qed.

Lemma single_plan_means indexNo index i :
  sc_Indices schema !! indexNo = Some index → (i < length conjs)%nat →
  finds plan_means (single_plan schema conjs indexNo i).
Proof.
  intros Hi Hlt. destruct (conj_at i Hlt) as (ci & Hg & Hci). unfold single_plan. rewrite Hg. rs.
  destruct (matchRange_spec indexNo index ci Hi) as (oreq & -> & Hreq); [by eapply Forall_lookup_1|apply conj_low in Hci; lia|].
  rs. eexists. split; [done|]. intros plan Hp. destruct oreq as [req|]; [|done]. injection Hp as <-. apply range_plan.
  destruct (Hreq req eq_refl) as (start & stop & desc & E & Hcov). exists start, stop, desc. split; [done|].
  intros row k b Hr Hk (bs & Hbs & ->). destruct (Forall2_lookup_l _ _ _ _ _ Hbs Hci) as (b & Hb & Ht).
  cbn [used_all forallb]. rewrite Hb, andb_true_r. by apply Hcov with row.
Qed.

Lemma pair_plan_means indexNo index i j :
  sc_Indices schema !! indexNo = Some index → (i < length conjs)%nat → (j < length conjs)%nat →
  finds plan_means (pair_plan schema conjs indexNo i j).
Proof.
  intros Hi Hlti Hltj. unfold pair_plan. case_if; [by exists None|].
  destruct (conj_at i Hlti) as (ci & Hgi & Hci), (conj_at j Hltj) as (cj & Hgj & Hcj). rewrite Hgi, Hgj. rs.
  pose proof (conj_low _ _ Hci). pose proof (conj_low _ _ Hcj).
  destruct (matchRange_spec indexNo index (EBinOp OP_AND ci cj) Hi) as (oreq & -> & Hreq).
  { split; by eapply Forall_lookup_1. }
  { cbn [height]. lia. }
  rs. eexists. split; [done|]. intros plan Hp. destruct oreq as [req|]; [|done]. injection Hp as <-. apply range_plan.
  destruct (Hreq req eq_refl) as (start & stop & desc & E & Hcov). exists start, stop, desc. split; [done|].
  intros row k b Hr Hk (bs & Hbs & ->). destruct (Forall2_lookup_l _ _ _ _ _ Hbs Hci) as (b & Hb & Ht).
  destruct (Forall2_lookup_l _ _ _ _ _ Hbs Hcj) as (b' & Hb' & Ht').
  cbn [used_all forallb]. rewrite Hb, Hb', andb_true_r. apply Hcov with row; [done..|].
  apply truth_and; [lia|eauto].
Qed.

Lemma index_range_means indexNo index :
  sc_Indices schema !! indexNo = Some index → finds plan_means (index_range schema conjs indexNo).
Proof.
  intros Hi. unfold index_range.
  destruct (find_first_finds plan_means (fun i => find_first (pair_plan schema conjs indexNo i) (seq 0 (length conjs)))
    (seq 0 (length conjs))) as ([p|] & -> & Hp).
  - intros i Hin%elem_of_seq. apply find_first_finds. intros j Hj%elem_of_seq. by eapply pair_plan_means; [|lia..].
  - rs. by exists (Some p).
  - rs. apply find_first_finds. intros i Hin%elem_of_seq. by eapply single_plan_means; [|lia].
Qed.

End conjuncts.

(** A plan that keeps the meaning of a condition. *)
Definition plan_sound (cond : option expr) (plan : scanPlan) : Prop :=
  ∃ start stop desc, range_bounds schema (pl_req plan) = Ok (start, stop, desc) ∧
    ∀ row k b, row_ok schema row → EncodeKey row schema (rq_IndexNo (pl_req plan)) = Ok k →
      matchRow schema row cond = Ok b →
      ∃ b', matchRow schema row (pl_residual plan) = Ok b' ∧ b = covers start stop desc k && b'.

Lemma full_scan_means cond indexed : plan_sound cond (MkPlan fullScanReq cond indexed).
Proof.
  destruct (sc_Indices schema !! 0%nat) as [index|] eqn:Hi.
  2: { apply lookup_ge_None in Hi. pose proof (so_indices _ Hschema). lia. }
  destruct (pair_means 0 index OP_GE [] OP_LE [] (fun _ b => b = true) Hi) as (start & stop & desc & E & Hcov).
  - split; [done|cbn; lia|apply no_bound].
  - split; [done|cbn; lia|apply no_bound].
  - done.
  - intros row b _ ->. by rewrite !within_nil.
  - exists start, stop, desc. split; [done|]. intros row k b Hr Hk Hb. exists b. split; [done|].
    by rewrite (Hcov row k true Hr Hk eq_refl).
Qed.

Lemma planScan_sound cond :
  match cond with Some e => lits_ok e ∧ (height e + maxPlanConjuncts ≤ maxExprDepth)%nat | None => True end →
  ∃ plan, planScan schema cond = Ok plan ∧ plan_sound cond plan.
Proof.
  destruct cond as [cond|]; cbn [planScan]; [|intros _; eexists; split; [done|apply full_scan_means]].
  intros [Hlit Hh]. destruct (flattenAnd_returns cond) as [conjs Ef]. rewrite Ef. rs.
  assert (Forall lits_ok conjs) as Hlits.
  { apply (flatten_loop_Forall lits_ok (expr_size cond)) with [cond] []; [by intros l r [Hl Hr]|by constructor|exact Ef]. }
  assert (Forall (low (height cond)) conjs) as Hlow.
  { apply (flatten_loop_Forall _ (expr_size cond)) with [cond] []; [|by constructor; [unfold low; lia|]|exact Ef].
    unfold low. cbn [height]. intros l r ?. lia. }
  assert (length conjs ≤ maxPlanConjuncts)%nat as Hcount.
  { apply (flatten_loop_count (expr_size cond)) with [cond] []; [unfold maxPlanConjuncts; cbn; lia|exact Ef]. }
  assert (∀ plan, plan_means conjs plan → plan_sound (Some cond) plan) as Hfin.
  { intros plan (start & stop & desc & E & Hp). exists start, stop, desc. split; [done|]. intros row k b Hr Hk Hb.
    apply matchRow_truth in Hb. destruct (flattenAnd_truth schema row cond conjs b) as (bs & Hbs & ->); [lia|done|done|].
    by apply Hp. }
  destruct (best_eq_spec conjs Hlits) as (best & -> & Hbest). rs. destruct best as [[[indexNo cells] used]|].
  { eexists. split; [done|]. apply Hfin. eapply range_plan; [exact Hlow|done|done|]. by apply Hbest. }
  destruct (find_first_finds (plan_means conjs) (index_range schema conjs) (seq 0 (length (sc_Indices schema)))) as (o & -> & Ho).
  { intros indexNo Hin%elem_of_seq. destruct (lookup_lt_is_Some_2 (sc_Indices schema) indexNo) as [index Hi]; [lia|].
    by eapply index_range_means. }
  rs. eexists. split; [done|]. destruct o as [plan|]; [by apply Hfin, Ho|apply full_scan_means].
Qed.

End bounds.
