(* ===== verification/TxKV.v ===== *)
(** * What the tables need from a transaction

    db/table.go reads and writes through the methods of a [KVTX] and of its
    range iterator.  [TxOps] lists those methods; [TxLaws] states what they
    promise: the transaction denotes a sorted sequence of live entries, reads
    and range scans follow it, writes change one key, a nested transaction
    starts from it and its commit publishes what it denotes.  Transactions of
    the store discharge the laws in TxInstance.v; the proofs about tables use
    nothing else. *)

From Stdlib Require Import ZArith Lia.
From Stdlib.Strings Require Import Byte.
From stdpp Require Import base list numbers.
From S2P Require Import Prelude GoLib SortedSeq KVIterators.

Open Scope Z_scope.

(** The methods of [RangedKVIter]; [steps] bounds how often it can move. *)
Class RangeOps (It : Type) := {
  i_Valid : It → res bool;
  i_Key : It → res bytes;
  i_Val : It → res bytes;
  i_Next : It → res It;
  i_steps : It → nat;
}.

Class TxOps (T It : Type) := {
  t_Get : T → bytes → res (option bytes);
  t_SetEx : T → bytes → bytes → Z → T * res bool;
  t_Del : T → bytes → T * res bool;
  t_Range : T → bytes → bytes → bool → res It;
  t_NewTX : T → T;
  (** [t_Commit outer inner] *)
  t_Commit : T → T → T * res unit;
}.

#[global] Hint Mode RangeOps ! : typeclass_instances.
#[global] Hint Mode TxOps ! - : typeclass_instances.

(** ** Sequences of live entries *)

Definition val_at (m : list ent) (k : bytes) : option bytes := e_val <$> assoc m k.

Definition view_ok (m : list ent) : Prop := sorted m ∧ Forall (fun e => live e = true) m.

Definition put (k v : bytes) (m : list ent) : list ent := upsert (Ent k v false) m.
Definition cut (k : bytes) (m : list ent) : list ent := filter (fun e => e_key e ≠ k) m.

Lemma assoc_view m k : view_ok m → assoc m k = (fun v => Ent k v false) <$> val_at m k.
Proof.
  intros [_ Hl]. unfold val_at. destruct (assoc m k) as [[k' v d]|] eqn:E; [|done].
  pose proof (assoc_Some_key _ _ _ E) as Hk. apply assoc_elem in E. rewrite Forall_forall in Hl.
  specialize (Hl _ E). cbn in *. by destruct d; subst.
Qed.

(** A view is determined by its lookups. *)
Lemma view_ext m1 m2 : view_ok m1 → view_ok m2 → (∀ k, val_at m1 k = val_at m2 k) → m1 = m2.
Proof. intros H1 H2 Hv. apply sorted_ext; [apply H1|apply H2|]. intros k. by rewrite !assoc_view, Hv. Qed.

Lemma assoc_cut m k k' : assoc (cut k m) k' = if bytes_equal k k' then None else assoc m k'.
Proof.
  unfold bytes_equal. induction m as [|e m IH]; [by destruct (bool_decide _)|]. unfold cut in *. rewrite filter_cons.
  cbn [assoc]. unfold bytes_equal in *. destruct (decide (e_key e ≠ k)) as [Hne|Heq].
  - cbn [assoc]. unfold bytes_equal. rewrite IH. repeat case_bool_decide; congruence.
  - apply dec_stable in Heq. rewrite IH. repeat case_bool_decide; congruence.
Qed.

Lemma put_ok k v m : view_ok m → view_ok (put k v m).
Proof.
  intros [Hs Hl]. split; [by apply upsert_sorted|]. apply Forall_forall. rewrite Forall_forall in Hl.
  intros e [->|He]%upsert_elem; auto.
Qed.

Lemma cut_ok k m : view_ok m → view_ok (cut k m).
Proof.
  intros [Hs Hl]. split; [by apply sorted_filter|]. apply Forall_forall. rewrite Forall_forall in Hl.
  intros e [_ He]%list_elem_of_filter. auto.
Qed.

Lemma val_at_put k v m k' : sorted m → val_at (put k v m) k' = if bytes_equal k k' then Some v else val_at m k'.
Proof. intros Hs. unfold val_at, put. rewrite assoc_upsert by done. by destruct (bytes_equal _ _). Qed.

Lemma val_at_cut k m k' : val_at (cut k m) k' = if bytes_equal k k' then None else val_at m k'.
Proof. unfold val_at. rewrite assoc_cut. by destruct (bytes_equal _ _). Qed.

Lemma put_same m k v : view_ok m → val_at m k = Some v → put k v m = m.
Proof.
  intros Hm Hv. apply view_ext; [by apply put_ok|done|]. intros k'. rewrite val_at_put by apply Hm.
  destruct (bytes_equal k k') eqn:E; [|done]. by apply bytes_equal_eq in E as <-.
Qed.

Lemma cut_absent m k : view_ok m → val_at m k = None → cut k m = m.
Proof.
  intros Hm Hv. apply view_ext; [by apply cut_ok|done|]. intros k'. rewrite val_at_cut.
  destruct (bytes_equal k k') eqn:E; [|done]. by apply bytes_equal_eq in E as <-.
Qed.

(** The range from [start] to [stop], both included, in scan order. *)
Definition scan (start stop : bytes) (desc : bool) (m : list ent) : list (bytes * bytes) :=
  kvs (if desc then reverse (between stop start m) else between start stop m).

(** ** Laws *)

(** The iterator yields the pairs of the list and ends; its bound is enough. *)
Inductive yields `{RangeOps It} : It → list (bytes * bytes) → Prop :=
  | yields_nil it : i_Valid it = Ok false → yields it []
  | yields_cons it k v it' l :
      i_Valid it = Ok true → i_Key it = Ok k → i_Val it = Ok v → i_Next it = Ok it' →
      (length l < i_steps it)%nat → yields it' l → yields it ((k, v) :: l).

(** Transactions related to the entries they see by [P] can insert any key and
    delete the keys of [D]. *)
Record writable `{TxOps T It} (P : T → list ent → Prop) (D : bytes → Prop) : Prop := {
  w_ok t m : P t m → view_ok m;
  w_get t m k : P t m → t_Get t k = Ok (val_at m k);
  w_insert t m k v : P t m →
    ∃ t', t_SetEx t k v ModeInsert = (t', Ok (bool_decide (val_at m k = None))) ∧
      P t' (if bool_decide (val_at m k = None) then put k v m else m);
  w_del t m k : P t m → D k →
    ∃ t', t_Del t k = (t', Ok (bool_decide (val_at m k ≠ None))) ∧ P t' (cut k m);
}.

Class TxLaws (T It : Type) `{RangeOps It} `{TxOps T It} := {
  (** [means t m]: the transaction sees the entries [m]. *)
  means : T → list ent → Prop;
  means_writable : writable means (fun _ => True);
  means_upsert t m k v : means t m →
    ∃ t', t_SetEx t k v ModeUpsert = (t', Ok (bool_decide (val_at m k ≠ Some v))) ∧ means t' (put k v m);
  means_range t m start stop desc : means t m →
    ∃ it, t_Range t start stop desc = Ok it ∧ yields it (scan start stop desc m);
  (** [inner o t m]: [t] was started from [o], sees [m], and has deleted only
      keys that [o] sees. *)
  inner : T → T → list ent → Prop;
  inner_writable o m0 : means o m0 → writable (inner o) (fun k => val_at m0 k ≠ None);
  inner_new t m : means t m → inner t (t_NewTX t) m;
  inner_commit o t m0 m : means o m0 → inner o t m → ∃ o', t_Commit o t = (o', Ok tt) ∧ means o' m;
}.

Arguments TxLaws T It {_ _}.
