(* ===== verification/TxInstance.v ===== *)
(** * Transactions of the store as the interface the tables use

    The methods of [KVTX] and [RangedKVIter] (db/kv.go) satisfy the laws of
    TxKV.v: a transaction that reads a committed state denotes the live entries
    of its own writes over that state, and a nested one those of its writes over
    the outer transaction. *)

From Stdlib Require Import ZArith Lia.
From Stdlib.Strings Require Import Byte.
From stdpp Require Import base list numbers.
From S2P Require Import Prelude GoLib SortedSeq SortedKV SortedArray Merge File Entry SortedFile.
From S2P Require Import SortedFileProofs KVIterators Log Metadata KV KVCompact KVProofs TxKV.

Open Scope Z_scope.

Section instance.
Context `{BL : BloomLaws}.

#[export] Instance ranged_RangeOps : RangeOps (RangedKVIter TXIter) := {
  i_Valid := rg_Valid;
  i_Key := rg_Key;
  i_Val := rg_Val;
  i_Next := rg_Next;
  i_steps it := steps (rg_iter it);
}.

#[export] Instance kvtx_TxOps : TxOps KVTX (RangedKVIter TXIter) := {
  t_Get := tx_Get;
  t_SetEx := tx_SetEx;
  t_Del := tx_Del;
  t_Range := tx_Range;
  t_NewTX := nested_NewTX;
  t_Commit := nested_applyTX;
}.

(** ** Live entries *)

Lemma val_at_lives s k : sorted s → val_at (lives s) k = visible (assoc s k).
Proof.
  intros Hs. unfold val_at, lives. rewrite assoc_filter_live by done. destruct (assoc s k) as [[k' v []]|]; done.
Qed.

Lemma lives_view_ok s : sorted s → view_ok (lives s).
Proof. intros Hs. split; [by apply lives_sorted|]. apply Forall_forall. by intros e [He _]%list_elem_of_filter. Qed.

Lemma put_lives u s k v :
  sorted u → sorted s → lives (overlay (upsert (Ent k v false) u) s) = put k v (lives (overlay u s)).
Proof.
  intros Hu Hs. assert (sorted (overlay u s)) by (by apply overlay_sorted).
  apply view_ext; [by apply lives_view_ok, overlay_sorted|by apply put_ok, lives_view_ok|].
  intros k'. rewrite val_at_put by (by apply lives_sorted). rewrite !val_at_lives, !visible_overlay, assoc_upsert
    by (try apply overlay_sorted; done). cbn [e_key]. by destruct (bytes_equal k k').
Qed.

Lemma cut_lives u s k :
  sorted u → sorted s → lives (overlay (upsert (Ent k [] true) u) s) = cut k (lives (overlay u s)).
Proof.
  intros Hu Hs. assert (sorted (overlay u s)) by (by apply overlay_sorted).
  apply view_ext; [by apply lives_view_ok, overlay_sorted|by apply cut_ok, lives_view_ok|].
  intros k'. rewrite val_at_cut, !val_at_lives, !visible_overlay, assoc_upsert
    by (try apply overlay_sorted; done). cbn [e_key]. by destruct (bytes_equal k k').
Qed.

(** ** A transaction with the writes [u] over the state [base] *)

Record reads_over (tx : KVTX) (u base : list ent) : Prop := {
  ro_updates : tx_updates tx = arr_of u;
  ro_sorted : sorted u;
  ro_base : ∃ init commits n, sorted init ∧ tx_reads init commits tx n ∧ base = state_at init commits n;
}.

Definition shown (u base : list ent) : list ent := lives (overlay u base).

Lemma ro_base_sorted tx u base : reads_over tx u base → sorted base.
Proof. intros [_ _ (init & commits & n & Hi & _ & ->)]. by apply state_at_sorted. Qed.

Lemma shown_ok tx u base : reads_over tx u base → view_ok (shown u base).
Proof. intros Hr. by eapply lives_view_ok, overlay_sorted, ro_base_sorted. Qed.

Lemma val_at_shown tx u base k : reads_over tx u base → val_at (shown u base) k = visible (assoc (overlay u base) k).
Proof. intros Hr. by eapply val_at_lives, overlay_sorted, ro_base_sorted. Qed.

Lemma ro_write tx u base u' : reads_over tx u base → sorted u' → reads_over (set_updates tx (arr_of u')) u' base.
Proof.
  intros [_ _ (init & commits & n & Hi & Hr & Hb)] Hu'. split; [done|done|].
  exists init, commits, n. split; [done|]. split; [|done]. by apply tx_reads_updates.
Qed.

Lemma ro_get tx u base k : reads_over tx u base → tx_Get tx k = Ok (val_at (shown u base) k).
Proof.
  intros Hro. rewrite (val_at_shown _ _ _ _ Hro). destruct Hro as [Hu _ (init & commits & n & Hi & Hr & ->)].
  rewrite (tx_Get_spec _ _ _ _ _ Hi Hr). by rewrite Hu, arr_ents_of.
Qed.

Lemma ro_set tx u base k v mode : reads_over tx u base → mode_valid mode →
  let updated := mode_updates mode (val_at (shown u base) k) v in
  tx_SetEx tx k v mode = (if updated then set_updates tx (arr_of (upsert (Ent k v false) u)) else tx, Ok updated).
Proof.
  intros Hro Hm updated. unfold updated. rewrite (val_at_shown _ _ _ _ Hro).
  destruct Hro as [Hu Hs (init & commits & n & Hi & Hr & ->)]. by apply (tx_SetEx_spec _ _ _ _ u).
Qed.

Lemma ro_del tx u base k : reads_over tx u base →
  tx_Del tx k = (if bool_decide (val_at (shown u base) k = None) then tx
                 else set_updates tx (arr_of (upsert (Ent k [] true) u)), Ok (bool_decide (val_at (shown u base) k ≠ None))).
Proof.
  intros Hro. rewrite (val_at_shown _ _ _ _ Hro).
  destruct Hro as [Hu Hs (init & commits & n & Hi & Hr & ->)]. by apply (tx_Del_spec _ _ _ _ u).
Qed.

Lemma ro_nested tx u base : reads_over tx u base → reads_over (nested_NewTX tx) [] (overlay u base).
Proof.
  intros Hro. pose proof (ro_base_sorted _ _ _ Hro) as Hb.
  destruct Hro as [Hu Hs (init & commits & n & Hi & (He & Hn & Hle & (ls & Hl & Hv) & _) & ->)].
  split; [done|constructor|]. exists (overlay u (state_at init commits n)), [], 0%nat.
  split; [by apply overlay_sorted|]. split; [|done]. split_and!; try done.
  - exists (u :: ls). split; [by constructor|]. apply (overlay_same_view u (merge_levels ls)); [apply merge_levels_sorted|done|done].
  - exists []. split; [done|constructor].
Qed.

(** *** Range scans *)

Lemma rg_start_at (it : TXIter) s p start stop desc r :
  At it s p → rg_start it start stop desc = Ok r → ∃ p', At (rg_iter r) s p'.
Proof.
  intros Hat Hst. unfold rg_start in Hst. apply bind_ok in Hst as (back & _ & Hst). apply bind_ok in Hst as (it' & Hit & [= <-]).
  destruct back; [|injection Hit as <-; by eauto].
  destruct (At_prev _ _ _ Hat) as (it1 & E & Hat1). rewrite E in Hit. injection Hit as <-. by eauto.
Qed.

Lemma rg_Next_at (it it' : RangedKVIter TXIter) s p :
  At (rg_iter it) s p → rg_Next it = Ok it' → ∃ p', At (rg_iter it') s p'.
Proof.
  intros Hat Hn. unfold rg_Next in Hn. apply bind_ok in Hn as (v & _ & Hn). destruct v; cbn [negb] in Hn; [|injection Hn as <-; eauto].
  apply bind_ok in Hn as (i & Hi & [= <-]). destruct (rg_desc it).
  - destruct (At_prev _ _ _ Hat) as (it1 & E & Hat1). rewrite E in Hi. injection Hi as <-. by eauto.
  - destruct (At_next _ _ _ Hat) as (it1 & E & Hat1). rewrite E in Hi. injection Hi as <-. by eauto.
Qed.

(** What the collecting loop returns, the iterator yields step by step. *)
Lemma collect_yields s fuel : ∀ (it : RangedKVIter TXIter) p l,
  At (rg_iter it) s p → rg_collect fuel it = Ok l → (length l ≤ length s)%nat → yields it l.
Proof.
  induction fuel as [|fuel IH]; intros it p l Hat Hc Hl; cbn [rg_collect] in Hc; apply bind_ok in Hc as (v & Hv & Hc).
  - destruct v; [done|]. injection Hc as <-. by constructor.
  - destruct v; [|injection Hc as <-; by constructor].
    apply bind_ok in Hc as (k & Hk & Hc). apply bind_ok in Hc as (x & Hx & Hc). apply bind_ok in Hc as (it' & Hn & Hc).
    apply bind_ok in Hc as (rest & Hr & [= <-]). cbn [length] in Hl.
    destruct (rg_Next_at _ _ _ _ Hat Hn) as [p' Hat'].
    econstructor; [done..| |by eapply IH; [done|done|lia]].
    change (i_steps it) with (steps (rg_iter it)). pose proof (At_steps _ _ _ Hat). lia.
Qed.

Lemma scan_length start stop desc m : (length (scan start stop desc m) ≤ length m)%nat.
Proof.
  unfold scan, kvs, between. rewrite length_fmap. destruct desc; rewrite ?length_reverse; apply length_filter.
Qed.

Lemma ro_range tx u base start stop desc : reads_over tx u base →
  ∃ it, tx_Range tx start stop desc = Ok it ∧ yields it (scan start stop desc (shown u base)).
Proof.
  intros [Hu Hs (init & commits & n & Hi & Hr & ->)].
  assert (shown u (state_at init commits n) = lives (tx_view init commits tx n)) as ->.
  { unfold shown, tx_view. by rewrite Hu, arr_ents_of. }
  destruct (tx_Range_spec init commits tx n Hi Hr start stop desc (length (lives (tx_view init commits tx n))))
    as (it & Hit & Hc); [done|].
  exists it. split; [done|]. unfold tx_Range in Hit. apply bind_ok in Hit as (it0 & Hseek & Hst).
  destruct (tx_Seek_spec init commits tx n Hi Hr start) as (it1 & E & Hat). rewrite E in Hseek. injection Hseek as ->.
  destruct (rg_start_at _ _ _ _ _ _ _ Hat Hst) as [p' Hat'].
  eapply collect_yields; [exact Hat'|exact Hc|apply scan_length].
Qed.

(** ** Nested transactions *)

(** The inner transaction [t] of [o], with the writes [u] over what [o] sees. *)
Record nested_over (o t : KVTX) (u uo base : list ent) : Prop := {
  no_outer : reads_over o uo base;
  no_inner : t = set_updates (nested_NewTX o) (arr_of u);
  no_sorted : sorted u;
  no_dels e : e ∈ u → e_del e = true → val_at (shown uo base) (e_key e) ≠ None;
}.

Lemma nested_reads o t u uo base : nested_over o t u uo base → reads_over t u (overlay uo base).
Proof. intros [Ho -> Hs _]. eapply ro_write; [by apply ro_nested|done]. Qed.

Lemma nested_write o t u uo base e :
  nested_over o t u uo base → (e_del e = true → val_at (shown uo base) (e_key e) ≠ None) →
  nested_over o (set_updates t (arr_of (upsert e u))) (upsert e u) uo base.
Proof.
  intros [Ho -> Hs Hd] He. split; [done|done|by apply upsert_sorted|].
  intros e' [->|Hin]%upsert_elem Hdel; auto.
Qed.

(** One step of the commit. *)
Definition apply_step (updates : SortedArray) (e : ent) : res SortedArray :=
  if e_del e then '(u, _) ← arr_Del updates (e_key e); Ok u
  else '(u, _) ← arr_Set updates (e_key e) (e_val e); Ok u.

(** [e'] stands for the write [e]: a value that is already there is kept. *)
Definition same_write (e : ent) (o : option ent) : Prop := o ≠ None ∧ visible o = visible (Some e).

Lemma apply_step_spec w e :
  sorted w → (e_del e = true → ∀ x, assoc w (e_key e) = Some x → e_del x = false) →
  ∃ w', apply_step (arr_of w) e = Ok (arr_of w') ∧ sorted w' ∧ same_write e (assoc w' (e_key e)) ∧
    ∀ k, e_key e ≠ k → assoc w' k = assoc w k.
Proof.
  intros Hw Hd.
  assert (∀ e', e_key e' = e_key e → e_del e' = e_del e → visible (Some e') = visible (Some e) → sorted (upsert e' w) ∧
    same_write e (assoc (upsert e' w) (e_key e)) ∧ ∀ k, e_key e ≠ k → assoc (upsert e' w) k = assoc w k) as Hup.
  { intros e' Hk _ Hv. split; [by apply upsert_sorted|]. split.
    - rewrite assoc_upsert, Hk, (proj2 (bytes_equal_eq _ _) eq_refl) by done. done.
    - intros k Hne. rewrite assoc_upsert, Hk by done. unfold bytes_equal. by rewrite bool_decide_false. }
  unfold apply_step. destruct e as [k v d]; cbn [e_del e_key e_val] in *. destruct d.
  - rewrite arr_Del_of by auto. rs. eexists. split; [done|]. by apply Hup.
  - rewrite arr_Set_of by done. rs. case_bool_decide as Hv; [|eexists; split; [done|]; by apply Hup].
    exists w. split; [done|]. split; [done|]. split; [|done]. split; [by destruct (assoc w k)|done].
Qed.

Lemma apply_fold u : ∀ w,
  sorted w → sorted u →
  (∀ e, e ∈ u → e_del e = true → ∀ x, assoc w (e_key e) = Some x → e_del x = false) →
  ∃ w', foldM apply_step (arr_of w) u = Ok (arr_of w') ∧ sorted w' ∧
    ∀ k, match assoc u k with Some e => same_write e (assoc w' k) | None => assoc w' k = assoc w k end.
Proof.
  induction u as [|e u IH]; intros w Hw Hu Hd; cbn [foldM]; [by exists w|].
  apply sorted_cons in Hu as [Hu Hlt]. rewrite Forall_forall in Hlt.
  destruct (apply_step_spec w e Hw) as (w1 & -> & Hw1 & He & Hother); [apply Hd; by left|]. rs.
  assert (∀ x, x ∈ u → e_key e ≠ e_key x) as Hne.
  { intros x Hx Heq. specialize (Hlt x Hx). unfold ent_lt in Hlt. rewrite Heq in Hlt. by apply bytes_lt_irrefl in Hlt. }
  destruct (IH w1 Hw1 Hu) as (w' & -> & Hw' & Hall).
  { intros x Hx Hdel y Hy. rewrite Hother in Hy by auto. eapply Hd; [by right|done|done]. }
  exists w'. split; [done|]. split; [done|]. intros k. specialize (Hall k). cbn [assoc].
  destruct (bytes_equal (e_key e) k) eqn:Ek.
  - apply bytes_equal_eq in Ek as <-. rewrite (proj2 (assoc_None _ _)) in Hall; [by rewrite Hall|].
    intros x Hx Heq. by apply (Hne x).
  - unfold bytes_equal in Ek. apply bool_decide_eq_false in Ek. destruct (assoc u k); [done|].
    rewrite Hall. by apply Hother.
Qed.

Lemma commit_spec o t u uo base : nested_over o t u uo base →
  ∃ w, nested_applyTX o t = (set_updates o (arr_of w), Ok tt) ∧ reads_over (set_updates o (arr_of w)) w base ∧
    shown w base = shown u (overlay uo base).
Proof.
  intros [Ho -> Hs Hd]. pose proof (ro_base_sorted _ _ _ Ho) as Hb. pose proof (ro_sorted _ _ _ Ho) as Huo.
  assert (sorted (overlay uo base)) as Hob by (by apply overlay_sorted).
  destruct (apply_fold u uo Huo Hs) as (w & Hf & Hw & Hall).
  { intros e He Hdel x Hx. specialize (Hd e He Hdel). rewrite (val_at_shown _ _ _ _ Ho), visible_overlay, Hx in Hd by done.
    cbn in Hd. by destruct (e_del x). }
  exists w. split; [|split; [by eapply ro_write|]].
  - unfold nested_applyTX. cbn [tx_err set_updates nested_NewTX tx_updates].
    destruct (ro_base _ _ _ Ho) as (init & commits & n & Hi & (He & _) & _). rewrite He.
    assert (arr_Iter (arr_of u) = Ok (arr_iter_at (arr_of u) 0)) as Eit by done.
    rewrite Eit. rs. rewrite (arr_for_each _ u) by done. rewrite (ro_updates _ _ _ Ho).
    change (foldM _ (arr_of uo) u) with (foldM apply_step (arr_of uo) u). by rewrite Hf.
  - unfold shown. apply view_ext; [by apply lives_view_ok, overlay_sorted|by apply lives_view_ok, overlay_sorted|].
    intros k. rewrite !val_at_lives by (by apply overlay_sorted). rewrite !visible_overlay by done. specialize (Hall k).
    destruct (assoc u k) as [e|].
    + destruct Hall as [Hn Hv]. by destruct (assoc w k).
    + by rewrite Hall.
Qed.

(** ** The laws *)

Lemma mode_insert cur v : mode_updates ModeInsert cur v = bool_decide (cur = None).
Proof. done. Qed.
Lemma mode_upsert cur v : mode_updates ModeUpsert cur v = bool_decide (cur ≠ Some v).
Proof. done. Qed.

Lemma ro_put tx u base k v : reads_over tx u base → shown (upsert (Ent k v false) u) base = put k v (shown u base).
Proof. intros Hr. apply put_lives; [apply Hr|by eapply ro_base_sorted]. Qed.

Lemma ro_cut tx u base k : reads_over tx u base → shown (upsert (Ent k [] true) u) base = cut k (shown u base).
Proof. intros Hr. apply cut_lives; [apply Hr|by eapply ro_base_sorted]. Qed.

Section laws.
(** The laws hold for a transaction [tx0] over the state [base] and what it
    becomes by its own writes. *)
Context (tx0 : KVTX) (base : list ent).

Definition tx_means (tx : KVTX) (m : list ent) : Prop :=
  ∃ u, tx = set_updates tx0 (arr_of u) ∧ reads_over tx u base ∧ m = shown u base.
Definition tx_inner (o t : KVTX) (m : list ent) : Prop :=
  ∃ u uo, nested_over o t u uo base ∧ m = shown u (overlay uo base).

Lemma tx_means_write tx u u' : tx = set_updates tx0 (arr_of u) → reads_over tx u base → sorted u' →
  tx_means (set_updates tx (arr_of u')) (shown u' base).
Proof. intros -> Hr Hs. exists u'. split; [done|]. split; [by eapply ro_write|done]. Qed.

Lemma tx_means_writable : writable tx_means (fun _ => True).
Proof.
  split.
  - intros t m (u & _ & Hr & ->). by eapply shown_ok.
  - intros t m k (u & _ & Hr & ->). by apply ro_get.
  - intros t m k v (u & Ht & Hr & ->). cbn [t_SetEx kvtx_TxOps].
    rewrite (ro_set _ _ _ _ _ _ Hr) by (by right; left). rewrite mode_insert. eexists. split; [done|].
    case_bool_decide; [|by exists u]. erewrite <- ro_put by done. eapply tx_means_write; [done|done|apply upsert_sorted, Hr].
  - intros t m k (u & Ht & Hr & ->) _. cbn [t_Del kvtx_TxOps]. rewrite (ro_del _ _ _ _ Hr).
    eexists. split; [done|]. case_bool_decide as Hn.
    + exists u. split; [done|]. split; [done|]. apply cut_absent; [by eapply shown_ok|done].
    + erewrite <- ro_cut by done. eapply tx_means_write; [done|done|apply upsert_sorted, Hr].
Qed.

Lemma tx_inner_writable o m0 : tx_means o m0 → writable (tx_inner o) (fun k => val_at m0 k ≠ None).
Proof.
  intros (u0 & _ & Hr0 & ->). split.
  - intros t m (u & uo & Hn & ->). eapply shown_ok, nested_reads, Hn.
  - intros t m k (u & uo & Hn & ->). apply ro_get, nested_reads with o, Hn.
  - intros t m k v (u & uo & Hn & ->). cbn [t_SetEx kvtx_TxOps]. pose proof (nested_reads _ _ _ _ _ Hn) as Hr.
    rewrite (ro_set _ _ _ _ _ _ Hr) by (by right; left). rewrite mode_insert. eexists. split; [done|].
    case_bool_decide; [|by exists u, uo]. exists (upsert (Ent k v false) u), uo.
    split; [by apply nested_write|]. symmetry. by eapply ro_put.
  - intros t m k (u & uo & Hn & ->) Hk. cbn [t_Del kvtx_TxOps]. pose proof (nested_reads _ _ _ _ _ Hn) as Hr.
    rewrite (ro_del _ _ _ _ Hr). eexists. split; [done|]. case_bool_decide as Hnone.
    + exists u, uo. split; [done|]. apply cut_absent; [by eapply shown_ok|done].
    + exists (upsert (Ent k [] true) u), uo. split; [|symmetry; by eapply ro_cut].
      apply nested_write; [done|]. intros _. cbn [e_key].
      pose proof (ro_get _ _ _ k (no_outer _ _ _ _ _ Hn)) as E1. rewrite (ro_get _ _ _ k Hr0) in E1. congruence.
Qed.

Definition tx_laws : TxLaws KVTX (RangedKVIter TXIter).
Proof.
  refine {| means := tx_means; inner := tx_inner |}.
  - exact tx_means_writable.
  - intros t m k v (u & Ht & Hr & ->). cbn [t_SetEx kvtx_TxOps].
    rewrite (ro_set _ _ _ _ _ _ Hr) by (by left). rewrite mode_upsert. eexists. split; [done|]. case_bool_decide as Hv.
    + erewrite <- ro_put by done. eapply tx_means_write; [done|done|apply upsert_sorted, Hr].
    + exists u. split; [done|]. split; [done|]. apply put_same; [by eapply shown_ok|]. destruct (decide (val_at (shown u base) k = Some v)); [done|by destruct Hv].
  - intros t m start stop desc (u & _ & Hr & ->). by apply ro_range.
  - exact tx_inner_writable.
  - intros t m (u & _ & Hr & ->). exists [], u. split; [|done]. split; [done|done|constructor|by intros e ?%elem_of_nil].
  - intros o t m0 m (u0 & -> & Hr0 & _) (u & uo & Hn & ->). destruct (commit_spec _ _ _ _ _ Hn) as (w & E & Hr & Hs).
    eexists. split; [exact E|]. exists w. by rewrite Hs.
Defined.

End laws.

(** An open transaction of a reachable store satisfies the interface. *)
Lemma tx_means_reads init commits tx n u :
  sorted init → tx_reads init commits tx n → tx_updates tx = arr_of u → sorted u →
  tx_means tx (state_at init commits n) tx (shown u (state_at init commits n)).
Proof.
  intros Hi Hr Hu Hs. exists u. split; [by destruct tx; cbn in *; subst|]. split; [|done]. split; [done|done|].
  by exists init, commits, n.
Qed.

End instance.
