(* ===== verification/Table.v ===== *)
(** * Tables: db/table.go

    Rows live in the key-value store: one entry per row and index.  The primary
    key maps to the other columns, every further index to nothing.  A [DBTX] is
    a transaction with a cache of schemas; the operations are written against
    the interface [TxOps], and methods that change the transaction return it. *)

From Stdlib Require Import ZArith Lia.
From Stdlib.Strings Require Import Byte.
From stdpp Require Import base list numbers.
From S2P Require Import Prelude GoLib Cell Row Sql KVIterators Planner TxKV.

Open Scope Z_scope.

(** encoding/json for the type [Schema]. *)
Class SchemaJson := {
  schema_Marshal : Schema → res bytes;
  schema_Unmarshal : bytes → res Schema;
}.

Definition inconsistent : error := errorsNew "inconsistent index".
Definition mismatch : error := errorsNew "row does not match the schema".

(** ** Schema keys *)

Definition ReservedKeyPrefix : bytes := [x00] ++ bs "pallasdb" ++ [x00].

(** [bytes.HasPrefix] *)
Definition HasPrefix (s prefix : bytes) : bool := bytes_equal (take (length prefix) s) prefix.

Definition IsReservedKey (key : bytes) : bool := HasPrefix key ReservedKeyPrefix.

Definition schemaKey (table : bytes) : bytes := ReservedKeyPrefix ++ bs "schema" ++ [x00] ++ table.

(** ** Columns *)

(** [append] of the columns of the primary key that the index does not name. *)
Definition addPKeyToIndex (index pkey : list Z) : list Z :=
  foldl (fun index idx => if bool_decide (idx ∈ index) then index else index ++ [idx]) index pkey.

Definition lookupColumns (cols : list Column) (names : list bytes) : res (list Z) :=
  mapM_res (fun name => match index_col cols name with
    | None => Err (errorsNew "column is not found")
    | Some idx => Ok (Z.of_nat idx)
    end) names.

Definition pkeyCells (schema : Schema) (row : Row) : res (list Cell) :=
  pkey ← go_at (sc_Indices schema) 0;
  mapM_res (go_at row) pkey.

Section table.
Context `{Rops : RangeOps It} `{Tops : TxOps T It}.

(** ** Rows by primary key *)

(** Whether the row is there, and the row with its columns filled in. *)
Definition Select (tx : T) (schema : Schema) (row : Row) : res (bool * Row) :=
  key ← EncodeKey row schema 0;
  old ← t_Get tx key;
  match old with
  | None => Ok (false, row)
  | Some val => row ← DecodeVal row schema val; Ok (true, row)
  end.

(** The loop of [delete] over the index numbers. *)
Fixpoint delete_loop (schema : Schema) (row : Row) (indices : list nat) (deleted : bool) (tx : T) : T * res bool :=
  match indices with
  | [] => (tx, Ok deleted)
  | i :: indices =>
      let! (tx, key) := (tx, EncodeKey row schema (Z.of_nat i)) in
      let! (tx, deleted) := t_Del tx key in
      if (deleted : bool) then delete_loop schema row indices true tx
      else if (i =? 0)%nat then (tx, Ok false) else (tx, Err inconsistent)
  end.

Definition delete (tx : T) (schema : Schema) (row : Row) : T * res bool :=
  delete_loop schema row (seq 0 (length (sc_Indices schema))) false tx.

(** The loop of [update]: the value goes to the primary key. *)
Fixpoint insert_loop (schema : Schema) (row : Row) (val : bytes) (indices : list nat) (updated : bool) (tx : T)
    : T * res bool :=
  match indices with
  | [] => (tx, Ok updated)
  | i :: indices =>
      let! (tx, key) := (tx, EncodeKey row schema (Z.of_nat i)) in
      let! (tx, updated) := t_SetEx tx key (if (i =? 0)%nat then val else []) ModeInsert in
      if (updated : bool) then insert_loop schema row val indices true tx else (tx, Err inconsistent)
  end.

Definition update (tx : T) (schema : Schema) (row : Row) (mode : Z) : T * res bool :=
  let! (tx, key) := (tx, EncodeKey row schema 0) in
  let! (tx, val) := (tx, EncodeVal row schema) in
  let! (tx, old) := (tx, t_Get tx key) in
  let exist := match old with Some _ => true | None => false end in
  let same := match old with Some oldVal => bytes_equal oldVal val | None => false end in
  let! (tx, updated) := (tx,
    if mode =? ModeUpsert then Ok (negb exist || negb same)
    else if mode =? ModeInsert then Ok (negb exist)
    else if mode =? ModeUpdate then Ok (exist && negb same)
    else Err (errorsNew "invalid update mode")) in
  if negb updated then (tx, Ok false) else
  let! (tx, _d) := match old with
    | None => (tx, Ok true)
    | Some oldVal => let! (tx, oldRow) := (tx, DecodeVal row schema oldVal) in delete tx schema oldRow
    end in
  insert_loop schema row val (seq 0 (length (sc_Indices schema))) updated tx.

(** [tx = tx.NewTX()], an operation, and [abortOrCommit]. *)
Definition nested_op (tx : T) (op : T → T * res bool) : T * res bool :=
  let (inner, r) := op (t_NewTX tx) in
  match r with
  | Ok updated => let! (tx, _u) := t_Commit tx inner in (tx, Ok updated)
  | Err e => (tx, Err e)
  | Panic s => (tx, Panic s)
  | OutOfFuel => (tx, OutOfFuel)
  end.

Definition Insert (tx : T) (schema : Schema) (row : Row) : T * res bool :=
  nested_op tx (fun tx => update tx schema row ModeInsert).
Definition Upsert (tx : T) (schema : Schema) (row : Row) : T * res bool :=
  nested_op tx (fun tx => update tx schema row ModeUpsert).
Definition Update (tx : T) (schema : Schema) (row : Row) : T * res bool :=
  nested_op tx (fun tx => update tx schema row ModeUpdate).
Definition Delete (tx : T) (schema : Schema) (row : Row) : T * res bool :=
  nested_op tx (fun tx => delete tx schema row).

(** ** Scans *)

Record RowIterator := MkRowIter {
  ri_tx : T;
  ri_schema : Schema;
  ri_indexNo : Z;
  ri_iter : It;
  ri_valid : bool;
  ri_row : Row;
}.

(** The row at the position of [iter], decoded into [row]. *)
Definition decodeKVIter (tx : T) (schema : Schema) (indexNo : Z) (iter : It) (row : Row) : res (bool * Row) :=
  valid ← i_Valid iter;
  if negb valid then Ok (false, row) else
  key ← i_Key iter;
  row ← DecodeKey row schema indexNo key;
  if 0 <? indexNo then
    '(ok, row) ← Select tx schema row;
    if negb ok then Err inconsistent else Ok (true, row)
  else
    val ← i_Val iter;
    row ← DecodeVal row schema val;
    Ok (true, row).

Definition ri_Row (it : RowIterator) : res Row := _ ← check (ri_valid it); Ok (ri_row it).

Definition ri_Next (it : RowIterator) : res RowIterator :=
  iter ← i_Next (ri_iter it);
  '(valid, row) ← decodeKVIter (ri_tx it) (ri_schema it) (ri_indexNo it) iter (ri_row it);
  Ok (MkRowIter (ri_tx it) (ri_schema it) (ri_indexNo it) iter valid row).

Definition Range (tx : T) (schema : Schema) (req : RangeReq) : res RowIterator :=
  '(start, stop, desc) ← range_bounds schema req;
  iter ← t_Range tx start stop desc;
  '(valid, row) ← decodeKVIter tx schema (rq_IndexNo req) iter (NewRow schema);
  Ok (MkRowIter tx schema (rq_IndexNo req) iter valid row).

Definition Seek (tx : T) (schema : Schema) (row : Row) : res RowIterator :=
  if negb (length row =? length (sc_Cols schema))%nat then Err mismatch else
  pkey ← go_at (sc_Indices schema) 0;
  start ← mapM_res (fun idx =>
      cell ← go_at row idx;
      col ← go_at (sc_Cols schema) idx;
      if negb (bool_decide (c_type cell = col_Type col)) then Err mismatch else Ok cell) pkey;
  Range tx schema (MkReq OP_GE OP_LE start [] 0).

(** ** SELECT *)

Record selectCursor := MkCursor {
  cu_schema : Schema;
  cu_plan : scanPlan;
  cu_proj : list expr;
  cu_iter : RowIterator;
  cu_started : bool;
  cu_remaining : Z;
  cu_skip : Z;
  cu_out : Row;
  cu_scanned : Z;
}.

(** One round of [next] before the row is tested: move and look. *)
Definition cursor_move (c : selectCursor) : res RowIterator :=
  if cu_started c then ri_Next (cu_iter c) else Ok (cu_iter c).

Fixpoint next_loop (fuel : nat) (c : selectCursor) : res (selectCursor * bool) :=
  iter ← cursor_move c;
  if negb (ri_valid iter) then
    Ok (MkCursor (cu_schema c) (cu_plan c) (cu_proj c) iter true (cu_remaining c) (cu_skip c) (cu_out c) (cu_scanned c), false)
  else
    row ← ri_Row iter;
    ok ← matchRow (cu_schema c) row (pl_residual (cu_plan c));
    let cursor skip := MkCursor (cu_schema c) (cu_plan c) (cu_proj c) iter true (cu_remaining c) skip (cu_out c) (cu_scanned c + 1) in
    let again skip := match fuel with O => OutOfFuel | S fuel => next_loop fuel (cursor skip) end in
    if negb ok then again (cu_skip c)
    else if 0 <? cu_skip c then again (cu_skip c - 1)
    else
      out ← mapM_res (evalExpr (cu_schema c) row) (cu_proj c);
      Ok (MkCursor (cu_schema c) (cu_plan c) (cu_proj c) iter true
            (if 0 <? cu_remaining c then cu_remaining c - 1 else cu_remaining c) (cu_skip c) out (cu_scanned c + 1), true).

(** Every round but the last one moves the iterator. *)
Definition cursor_next (c : selectCursor) : res (selectCursor * bool) :=
  if cu_remaining c =? 0 then Ok (c, false) else next_loop (i_steps (ri_iter (cu_iter c))) c.

(** ** Batches of an UPDATE or DELETE *)

Definition mutateBatchSize : nat := 512.

Fixpoint collect_rows (schema : Schema) (residual : option expr) (fuel : nat) (iter : RowIterator) (batch : list Row)
    : res (list Row * bool) :=
  if negb (ri_valid iter) then Ok (batch, true) else
  match fuel with
  | O => OutOfFuel
  | S fuel =>
      row ← ri_Row iter;
      ok ← matchRow schema row residual;
      let batch := if (ok : bool) then batch ++ [row] else batch in
      if ok && (mutateBatchSize <=? length batch)%nat then Ok (batch, false) else
      iter ← ri_Next iter;
      collect_rows schema residual fuel iter batch
  end.

Definition collectBatch (tx : T) (schema : Schema) (plan : scanPlan) (resume : option (list Cell))
    : res (list Row * bool) :=
  let req := pl_req plan in
  iter ← Range tx schema (match resume with
    | Some cells => MkReq OP_GT (rq_StopCmp req) cells (rq_Stop req) (rq_IndexNo req)
    | None => req
    end);
  collect_rows schema (pl_residual plan) (i_steps (ri_iter iter)) iter [].

Section forEachMatch.
(** The function applied to a row, with the variables it captures. *)
Context {A : Type} (fn : T * A → Row → (T * A) * res unit).

Fixpoint apply_batch (st : T * A) (batch : list Row) : (T * A) * res unit :=
  match batch with
  | [] => (st, Ok tt)
  | row :: batch => let! (st, _u) := fn st row in apply_batch st batch
  end.

(** The loop over batches in the order of the primary key. *)
Fixpoint batch_loop (fuel : nat) (schema : Schema) (cond : option expr) (resume : option (list Cell)) (st : T * A)
    : (T * A) * res unit :=
  let! (st, b) := (st, collectBatch (fst st) schema (MkPlan fullScanReq cond false) resume) in
  let (batch, done) := (b : list Row * bool) in
  match last batch with
  | None => (st, Ok tt)
  | Some row =>
      let! (st, resume) := (st, pkeyCells schema row) in
      let! (st, _u) := apply_batch st batch in
      if (done : bool) then (st, Ok tt) else
      match fuel with
      | O => (st, OutOfFuel)
      | S fuel => batch_loop fuel schema cond (Some resume) st
      end
  end.

(** A bound on the number of batches: the entries of the table. *)
Definition batch_fuel (tx : T) (schema : Schema) : nat :=
  match Range tx schema fullScanReq with Ok iter => i_steps (ri_iter iter) | _ => 0%nat end.

Definition forEachMatch (schema : Schema) (cond : option expr) (st : T * A) : (T * A) * res unit :=
  let! (st, plan) := (st, planScan schema cond) in
  let! (st, b) := (st, collectBatch (fst st) schema plan None) in
  let (batch, done) := (b : list Row * bool) in
  if (done : bool) then apply_batch st batch
  else batch_loop (batch_fuel (fst st) schema) schema cond None st.
End forEachMatch.

(** ** Statements *)

(** The cache of schemas is a map from table names. *)
Record DBTX := MkDBTX { d_kv : T; d_tables : list (bytes * Schema) }.

Fixpoint find_table (tables : list (bytes * Schema)) (table : bytes) : option Schema :=
  match tables with
  | [] => None
  | (name, schema) :: tables => if bytes_equal name table then Some schema else find_table tables table
  end.

Definition forget_table (tables : list (bytes * Schema)) (table : bytes) : list (bytes * Schema) :=
  filter (fun p => fst p ≠ table) tables.

Definition set_kv (tx : DBTX) (kv : T) : DBTX := MkDBTX kv (d_tables tx).

(** [(tx *DBTX) NewTX] *)
Definition dbtx_NewTX (tx : DBTX) : DBTX := MkDBTX (t_NewTX (d_kv tx)) [].

Context `{SchemaJson}.

Definition GetSchema (tx : DBTX) (table : bytes) : DBTX * res Schema :=
  match find_table (d_tables tx) table with
  | Some schema => (tx, Ok schema)
  | None =>
      let! (tx, val) := (tx, t_Get (d_kv tx) (schemaKey table)) in
      let! (tx, schema) := (tx, match val with
        | None => Err (errorsNew "table is not found")
        | Some val => schema_Unmarshal val
        end) in
      let! (tx, _u) := (tx, Validate schema) in
      (MkDBTX (d_kv tx) ((table, schema) :: forget_table (d_tables tx) table), Ok schema)
  end.

(** The indices of CREATE TABLE: the primary key, then the others with the
    columns of the primary key added. *)
Fixpoint create_indices (cols : list Column) (names : list (list bytes)) (indices : list (list Z)) : res (list (list Z)) :=
  match names with
  | [] => Ok indices
  | ns :: names =>
      index ← lookupColumns cols ns;
      if (length index =? 0)%nat then Err (errorsNew "expect at least one key column") else
      create_indices cols names
        (indices ++ [match indices with [] => index | pkey :: _ => addPKeyToIndex index pkey end])
  end.

Definition execCreateTable (tx : DBTX) (stmt : StmtCreatTable) : DBTX * res unit :=
  let (tx, r) := GetSchema tx (ct_table stmt) in
  match r with
  | Ok _ => (tx, Err (errorsNew "duplicate table name"))
  | Panic s => (tx, Panic s)
  | OutOfFuel => (tx, OutOfFuel)
  | Err _ =>
      if (length (ct_cols stmt) =? 0)%nat then (tx, Err (errorsNew "expect at least one column")) else
      let! (tx, indices) := (tx, create_indices (ct_cols stmt) (ct_pkey stmt :: ct_indices stmt) []) in
      let schema := MkSchema SchemaVersion (ct_table stmt) (ct_cols stmt) indices in
      let! (tx, _u) := (tx, Validate schema) in
      let! (tx, val) := (tx, schema_Marshal schema) in
      let (kv, r) := t_SetEx (d_kv tx) (schemaKey (ct_table stmt)) val ModeUpsert in
      let! (tx, _u) := (set_kv tx kv, r) in
      (MkDBTX (d_kv tx) ((ct_table stmt, schema) :: forget_table (d_tables tx) (ct_table stmt)), Ok tt)
  end.

(** The callbacks of DROP TABLE, UPDATE and DELETE. *)
Definition drop_row (schema : Schema) (st : T * Z) (row : Row) : (T * Z) * res unit :=
  let (tx, r) := Delete (fst st) schema row in
  let! (st, _d) := ((tx, snd st), r) in (st, Ok tt).

Definition delete_row (schema : Schema) (st : T * Z) (row : Row) : (T * Z) * res unit :=
  let (tx, r) := Delete (fst st) schema row in
  let! (st, deleted) := ((tx, snd st), r) in
  ((fst st, if (deleted : bool) then snd st + 1 else snd st), Ok tt).

Definition fillNonPKey (schema : Schema) (updates : list (bytes * Cell)) (out : Row) : res Row :=
  foldM (fun out '(column, value) =>
    match index_col (sc_Cols schema) column with
    | None => Err (errorsNew "unknown column")
    | Some idx =>
        col ← go_index (sc_Cols schema) idx;
        if negb (bool_decide (col_Type col = c_type value)) then Err (errorsNew "column type mismatch") else
        pkey ← go_at (sc_Indices schema) 0;
        if bool_decide (Z.of_nat idx ∈ pkey) then Err (errorsNew "cannot update a primary key column") else
        _ ← go_index out idx;
        Ok (<[idx := value]> out)
    end) out updates.

Definition update_row (schema : Schema) (value : list ExprAssign) (st : T * Z) (row : Row) : (T * Z) * res unit :=
  let! (st, updates) := (st, mapM_res (fun a => cell ← evalExpr schema row (as_expr a); Ok (as_column a, cell)) value) in
  let! (st, row) := (st, fillNonPKey schema updates row) in
  let (tx, r) := Update (fst st) schema row in
  let! (st, updated) := ((tx, snd st), r) in
  ((fst st, if (updated : bool) then snd st + 1 else snd st), Ok tt).

(** [forEachMatch] in the transaction of a [DBTX], with a counter. *)
Definition for_match (tx : DBTX) (schema : Schema) (cond : option expr) (fn : T * Z → Row → (T * Z) * res unit)
    : DBTX * res Z :=
  let '((kv, count), r) := forEachMatch fn schema cond (d_kv tx, 0) in
  let! (tx, _u) := (set_kv tx kv, r) in (tx, Ok count).

Definition execDropTable (tx : DBTX) (stmt : StmtDropTable) : DBTX * res unit :=
  let! (tx, schema) := GetSchema tx (drop_table stmt) in
  let! (tx, _c) := for_match tx schema None (drop_row schema) in
  let (kv, r) := t_Del (d_kv tx) (schemaKey (drop_table stmt)) in
  let! (tx, _d) := (set_kv tx kv, r) in
  (MkDBTX (d_kv tx) (forget_table (d_tables tx) (drop_table stmt)), Ok tt).

Definition execInsert (tx : DBTX) (stmt : StmtInsert) : DBTX * res Z :=
  let! (tx, schema) := GetSchema tx (ins_table stmt) in
  let! (tx, _u) := (tx,
    if negb (length (sc_Cols schema) =? length (ins_value stmt))%nat then Err (errorsNew "schema mismatch")
    else if existsb (fun '(col, cell) => negb (bool_decide (col_Type col = c_type cell)))
              (zip (sc_Cols schema) (ins_value stmt)) then Err (errorsNew "schema mismatch") else Ok tt) in
  let (kv, r) := Insert (d_kv tx) schema (ins_value stmt) in
  let! (tx, updated) := (set_kv tx kv, r) in
  (tx, Ok (if (updated : bool) then 1 else 0)).

Definition execUpdate (tx : DBTX) (stmt : StmtUpdate) : DBTX * res Z :=
  let! (tx, schema) := GetSchema tx (upd_tbl stmt) in
  for_match tx schema (upd_cond stmt) (update_row schema (upd_value stmt)).

Definition execDelete (tx : DBTX) (stmt : StmtDelete) : DBTX * res Z :=
  let! (tx, schema) := GetSchema tx (del_table stmt) in
  for_match tx schema (del_cond stmt) (delete_row schema).

(** ** Results *)

(** The owned transaction of the source is kept by the functions of DB.v. *)
Record SQLResult := MkResult {
  sr_cols : list ColumnDesc;
  sr_cursor : option selectCursor;
  sr_affected : Z;
  sr_err : option error;
  sr_closed : bool;
}.

Definition affected_result (count : Z) : SQLResult := MkResult [] None count None false.

Definition execSelect (tx : DBTX) (stmt : StmtSelect) : DBTX * res SQLResult :=
  let! (tx, schema) := GetSchema tx (sel_table stmt) in
  let! (tx, p) := (tx, expandProjection schema (sel_cols stmt)) in
  let (proj, cols) := (p : list expr * list ColumnDesc) in
  let! (tx, plan) := (tx, planScan schema (sel_cond stmt)) in
  let! (tx, iter) := (tx, Range (d_kv tx) schema (pl_req plan)) in
  (tx, Ok (MkResult cols
    (Some (MkCursor schema plan proj iter false (if sel_limit stmt <? 0 then -1 else sel_limit stmt) (sel_offset stmt) [] 0))
    0 None false)).

Definition execStmt (tx : DBTX) (s : stmt) : DBTX * res SQLResult :=
  match s with
  | SCreateTable s => let! (tx, _u) := execCreateTable tx s in (tx, Ok (affected_result 0))
  | SDropTable s => let! (tx, _u) := execDropTable tx s in (tx, Ok (affected_result 0))
  | SSelect s => execSelect tx s
  | SInsert s => let! (tx, count) := execInsert tx s in (tx, Ok (affected_result count))
  | SUpdate s => let! (tx, count) := execUpdate tx s in (tx, Ok (affected_result count))
  | SDelete s => let! (tx, count) := execDelete tx s in (tx, Ok (affected_result count))
  end.

(** [(r *SQLResult) Next]; an error is kept in the result. *)
Definition sr_Next (r : SQLResult) : res (SQLResult * bool) :=
  match sr_cursor r with
  | None => Ok (r, false)
  | Some c =>
      if sr_closed r || match sr_err r with Some _ => true | None => false end then Ok (r, false) else
      match cursor_next c with
      | Ok (c, ok) => Ok (MkResult (sr_cols r) (Some c) (sr_affected r) (sr_err r) (sr_closed r), ok)
      | Err e => Ok (MkResult (sr_cols r) (Some c) (sr_affected r) (Some e) (sr_closed r), false)
      | Panic s => Panic s
      | OutOfFuel => OutOfFuel
      end
  end.

Definition sr_Row (r : SQLResult) : Row := match sr_cursor r with None => [] | Some c => cu_out c end.

(** [Rows] drains the result. *)
Fixpoint rows_loop (fuel : nat) (r : SQLResult) (out : list Row) : res (SQLResult * list Row) :=
  '(r, ok) ← sr_Next r;
  if negb ok then Ok (r, out) else
  match fuel with
  | O => OutOfFuel
  | S fuel => rows_loop fuel r (out ++ [sr_Row r])
  end.

Definition Rows (r : SQLResult) : res (SQLResult * (list Row * option error)) :=
  let fuel := match sr_cursor r with Some c => i_steps (ri_iter (cu_iter c)) | None => 0%nat end in
  '(r, out) ← rows_loop fuel r [];
  Ok (r, (out, sr_err r)).

End table.

Arguments DBTX T : clear implicits.
Arguments MkDBTX {T}.
Arguments d_kv {T}.
Arguments d_tables {T}.
