(* ===== verification/TableProofs.v ===== *)
(** * A table is a set of rows

    [Rep m rows]: the entries a transaction sees under the name of the table are
    exactly the index entries of [rows].  Every operation of db/table.go on rows
    keeps such a set and changes it the way its name says. *)

From Stdlib Require Import ZArith Lia.
From Stdlib.Strings Require Import Byte.
From stdpp Require Import base list numbers.
From S2P Require Import Prelude GoLib SortedSeq Cell Row RowProofs Sql KVIterators Planner TxKV Table.

Open Scope Z_scope.

(** ** Entries of a row *)

(** Every index ends in the columns of the primary key, and the number of an
    index is one byte of UTF-8. *)
Record table_schema (schema : Schema) : Prop := {
  ts_ok : schema_ok schema;
  ts_keyed index pkey : index ∈ sc_Indices schema → sc_Indices schema !! 0%nat = Some pkey → ∀ idx, idx ∈ pkey → idx ∈ index;
  ts_few : (length (sc_Indices schema) ≤ 128)%nat;
}.

Definition pkey_of (schema : Schema) : list Z := default [] (sc_Indices schema !! 0%nat).
Definition pk (schema : Schema) (row : Row) : list Cell := index_cells row (pkey_of schema).

Definition key_of (schema : Schema) (row : Row) (i : nat) : bytes :=
  match EncodeKey row schema (Z.of_nat i) with Ok k => k | _ => [] end.
Definition val_of (schema : Schema) (row : Row) : bytes :=
  match EncodeVal row schema with Ok v => v | _ => [] end.

Definition entry_at (schema : Schema) (row : Row) (i : nat) : bytes * bytes :=
  (key_of schema row i, if (i =? 0)%nat then val_of schema row else []).

Definition numbers (schema : Schema) : list nat := seq 0 (length (sc_Indices schema)).

Definition entries (schema : Schema) (row : Row) : list (bytes * bytes) := map (entry_at schema row) (numbers schema).

(** The keys of the table. *)
Definition owned (schema : Schema) (k : bytes) : Prop := ∃ rest, k = sc_Table schema ++ x00 :: rest.

Section entries.
Context (schema : Schema) (Hts : table_schema schema).

Let Hok : schema_ok schema := ts_ok schema Hts.

Lemma pkey_lookup : sc_Indices schema !! 0%nat = Some (pkey_of schema).
Proof.
  unfold pkey_of. destruct (lookup_lt_is_Some_2 (sc_Indices schema) 0) as [p Hp]; [apply (so_indices _ Hok)|]. by rewrite Hp.
Qed.

Lemma pkey_at : go_at (sc_Indices schema) 0 = Ok (pkey_of schema).
Proof. apply go_at_ok; [done|apply pkey_lookup]. Qed.

Lemma index_at i : (i < length (sc_Indices schema))%nat →
  ∃ index, sc_Indices schema !! i = Some index ∧ go_at (sc_Indices schema) (Z.of_nat i) = Ok index.
Proof.
  intros Hi. destruct (lookup_lt_is_Some_2 _ _ Hi) as [index E]. exists index. split; [done|].
  apply go_at_ok; [lia|]. by rewrite Nat2Z.id.
Qed.

Lemma EncodeKey_key row i : row_ok schema row → (i < length (sc_Indices schema))%nat →
  EncodeKey row schema (Z.of_nat i) = Ok (key_of schema row i).
Proof.
  intros Hr Hi. destruct (index_at i Hi) as (index & _ & Hg). unfold key_of. by rewrite (EncodeKey_bytes _ Hok _ _ index).
Qed.

Lemma EncodeVal_val row : row_ok schema row → EncodeVal row schema = Ok (val_of schema row).
Proof. intros Hr. unfold val_of. by rewrite (EncodeVal_bytes _ _ (pkey_of schema)) by (done || apply pkey_at). Qed.

Lemma val_of_bytes row : row_ok schema row → val_of schema row = row_vals (pkey_of schema) 0 row.
Proof. intros Hr. unfold val_of. by rewrite (EncodeVal_bytes _ _ (pkey_of schema)) by (done || apply pkey_at). Qed.

Lemma key_of_bytes row i index : row_ok schema row → go_at (sc_Indices schema) (Z.of_nat i) = Ok index →
  key_of schema row i = sc_Table schema ++ x00 :: z2b (Z.of_nat i) :: ekeys (index_cells row index) ++ [x00].
Proof.
  intros Hr Hg. unfold key_of. rewrite (EncodeKey_bytes _ Hok _ _ index) by done. unfold key_prefix. by rewrite <- (assoc_L (++)).
Qed.

Lemma key_of_owned row i : row_ok schema row → (i < length (sc_Indices schema))%nat → owned schema (key_of schema row i).
Proof. intros Hr Hi. destruct (index_at i Hi) as (index & _ & Hg). rewrite (key_of_bytes _ _ index) by done. by eexists. Qed.

Lemma index_cells_sub r1 r2 l l' :
  index_cells r1 l = index_cells r2 l → (∀ idx, idx ∈ l' → idx ∈ l) → index_cells r1 l' = index_cells r2 l'.
Proof.
  intros He Hsub.
  assert (∀ idx, idx ∈ l → default (zero_cell x00) (r1 !! Z.to_nat idx) = default (zero_cell x00) (r2 !! Z.to_nat idx)) as Hp.
  { clear Hsub. induction l as [|i l IH]; intros idx Hin; [by apply not_elem_of_nil in Hin|].
    injection He as Hi Hl. apply elem_of_cons in Hin as [->|Hin]; [done|]. by apply IH. }
  induction l' as [|i l' IH]; [done|]. unfold index_cells in *. cbn [fmap list_fmap]. f_equal.
  - apply Hp, Hsub. by left.
  - apply IH. intros; apply Hsub. by right.
Qed.

(** Two rows share a key only in the same index and with the same columns. *)
Lemma key_inj r1 r2 i j :
  row_ok schema r1 → row_ok schema r2 → (i < length (sc_Indices schema))%nat → (j < length (sc_Indices schema))%nat →
  key_of schema r1 i = key_of schema r2 j → i = j ∧ pk schema r1 = pk schema r2.
Proof.
  intros H1 H2 Hi Hj Heq. destruct (index_at i Hi) as (ix & Ei & Gi), (index_at j Hj) as (jx & Ej & Gj).
  pose proof (ts_few _ Hts) as Hfew. assert (i = j) as ->.
  { rewrite (key_of_bytes _ _ ix), (key_of_bytes _ _ jx) in Heq by done. apply app_inv_head in Heq.
    injection Heq as Hb _. apply (f_equal b2z) in Hb. rewrite !b2z_z2b, !Z.mod_small in Hb by lia. lia. }
  split; [done|]. pose proof (EncodeKey_compare _ Hok r1 r2 (Z.of_nat j) jx _ _ H1 H2 Gj
    (EncodeKey_key r1 j H1 Hj) (EncodeKey_key r2 j H2 Hj)) as Hc.
  rewrite Heq, (proj2 (bytes_compare_eq _ _) eq_refl) in Hc. symmetry in Hc.
  assert (jx ∈ sc_Indices schema) as Hin by (by eapply list_elem_of_lookup_2).
  apply cells_compare_eq in Hc; [|by apply (index_cells_shape schema), (so_index _ Hok)].
  eapply index_cells_sub; [exact Hc|]. by apply (ts_keyed _ Hts _ _ Hin pkey_lookup).
Qed.

(** A row with the primary key of [row] is filled in from its value. *)
Lemma pk_agree row r0 : row_ok schema row → length r0 = length row → pk schema r0 = pk schema row →
  ∀ i, Z.of_nat i ∈ pkey_of schema → r0 !! i = row !! i.
Proof.
  intros Hr Hl Hpk i Hi. unfold pk in Hpk.
  assert (Z.of_nat i < Z.of_nat (length (sc_Cols schema))) as Hlt.
  { apply (so_index _ Hok (pkey_of schema)); [|done]. eapply list_elem_of_lookup_2, pkey_lookup. }
  pose proof (row_length _ _ Hr) as Hrl.
  destruct (lookup_lt_is_Some_2 row i) as [c Hc], (lookup_lt_is_Some_2 r0 i) as [c0 Hc0]; [lia..|].
  assert (index_cells r0 [Z.of_nat i] = index_cells row [Z.of_nat i]) as He.
  { eapply index_cells_sub; [exact Hpk|]. by intros idx ->%list_elem_of_singleton. }
  unfold index_cells in He. cbn in He. rewrite Nat2Z.id, Hc, Hc0 in He. cbn in He. congruence.
Qed.

Lemma DecodeVal_row row r0 : row_ok schema row → length r0 = length row → pk schema r0 = pk schema row →
  DecodeVal r0 schema (val_of schema row) = Ok row.
Proof.
  intros Hr Hl Hpk. rewrite val_of_bytes by done. apply DecodeVal_agree; [done|done|apply pkey_at|by apply pk_agree].
Qed.

Lemma val_inj r1 r2 : row_ok schema r1 → row_ok schema r2 → pk schema r1 = pk schema r2 →
  val_of schema r1 = val_of schema r2 → r1 = r2.
Proof.
  intros H1 H2 Hpk Hv. pose proof (row_length _ _ H1). pose proof (row_length _ _ H2).
  pose proof (DecodeVal_row r1 r1 H1 eq_refl eq_refl) as E1. rewrite Hv, DecodeVal_row in E1 by (done || congruence). congruence.
Qed.

Lemma elem_numbers i : i ∈ numbers schema ↔ (i < length (sc_Indices schema))%nat.
Proof. unfold numbers. rewrite elem_of_seq. lia. Qed.

Lemma elem_entries row k v : (k, v) ∈ entries schema row ↔
  ∃ i, (i < length (sc_Indices schema))%nat ∧ k = key_of schema row i ∧ v = if (i =? 0)%nat then val_of schema row else [].
Proof.
  unfold entries. rewrite list_elem_of_In, in_map_iff. split.
  - intros (i & Hi & Hin). apply list_elem_of_In, elem_numbers in Hin. injection Hi as <- <-. eauto.
  - intros (i & Hi & -> & ->). exists i. split; [done|]. by apply list_elem_of_In, elem_numbers.
Qed.

(** The entries of one row do not clash, nor those of two rows. *)
Lemma entries_pk r1 r2 k v1 v2 : row_ok schema r1 → row_ok schema r2 →
  (k, v1) ∈ entries schema r1 → (k, v2) ∈ entries schema r2 → pk schema r1 = pk schema r2.
Proof.
  intros H1 H2 (i & Hi & Ek & _)%elem_entries (j & Hj & Ek' & _)%elem_entries.
  apply (key_inj r1 r2 i j); try done. congruence.
Qed.

Lemma entries_fun row k v1 v2 : row_ok schema row → (k, v1) ∈ entries schema row → (k, v2) ∈ entries schema row → v1 = v2.
Proof.
  intros Hr (i & Hi & Ek & ->)%elem_entries (j & Hj & Ek' & ->)%elem_entries.
  destruct (key_inj row row i j) as [-> _]; try done. congruence.
Qed.

(** ** The set of rows *)

Record Rep (m : list ent) (rows : list Row) : Prop := {
  rep_rows : Forall (row_ok schema) rows;
  rep_pk : NoDup (map (pk schema) rows);
  rep_iff k v : owned schema k → val_at m k = Some v ↔ ∃ row, row ∈ rows ∧ (k, v) ∈ entries schema row;
}.

(** The entries outside the table are the same. *)
Definition frame (m m' : list ent) : Prop := ∀ k, ¬ owned schema k → val_at m' k = val_at m k.

Lemma rep_row m rows row : Rep m rows → row ∈ rows → row_ok schema row.
Proof. intros [Hr _ _] Hin. rewrite Forall_forall in Hr. by apply Hr. Qed.

Lemma rep_unique m rows r1 r2 : Rep m rows → r1 ∈ rows → r2 ∈ rows → pk schema r1 = pk schema r2 → r1 = r2.
Proof.
  intros [_ Hn _] H1 H2 Hpk. apply list_elem_of_lookup in H1 as [i Hi], H2 as [j Hj].
  assert (i = j) as ->; [|congruence]. eapply NoDup_lookup; [exact Hn| |].
  - change (map (pk schema) rows) with (pk schema <$> rows). by rewrite list_lookup_fmap, Hi.
  - change (map (pk schema) rows) with (pk schema <$> rows). rewrite list_lookup_fmap, Hj. cbn. by rewrite Hpk.
Qed.

Lemma rep_entry m rows row i : Rep m rows → row ∈ rows → (i < length (sc_Indices schema))%nat →
  val_at m (key_of schema row i) = Some (if (i =? 0)%nat then val_of schema row else []).
Proof.
  intros HR Hin Hi. pose proof (rep_row _ _ _ HR Hin) as Hr. apply (rep_iff _ _ HR); [by apply key_of_owned|].
  exists row. split; [done|]. apply elem_entries. eauto.
Qed.

Lemma rep_absent m rows row i : Rep m rows → row_ok schema row → pk schema row ∉ map (pk schema) rows →
  (i < length (sc_Indices schema))%nat → val_at m (key_of schema row i) = None.
Proof.
  intros HR Hr Hpk Hi. destruct (val_at m (key_of schema row i)) as [v|] eqn:E; [|done]. destruct Hpk.
  apply (rep_iff _ _ HR) in E as (r & Hin & He); [|by apply key_of_owned].
  assert ((key_of schema row i, if (i =? 0)%nat then val_of schema row else []) ∈ entries schema row) as He'
    by (apply elem_entries; eauto).
  rewrite <- (entries_pk r row _ _ _ (rep_row _ _ _ HR Hin) Hr He He').
  by apply list_elem_of_In, in_map, list_elem_of_In.
Qed.

(** The row of a primary key, if there is one. *)
Definition find_row (rows : list Row) (key : list Cell) : option Row := find (fun r => bool_decide (pk schema r = key)) rows.

Lemma find_row_Some rows key row : find_row rows key = Some row → row ∈ rows ∧ pk schema row = key.
Proof. intros [Hin Hb]%find_some. apply list_elem_of_In in Hin. by apply bool_decide_eq_true in Hb. Qed.

Lemma find_row_None rows key : find_row rows key = None → key ∉ map (pk schema) rows.
Proof.
  intros Hf Hin. apply list_elem_of_In, in_map_iff in Hin as (r & Hr & Hin).
  pose proof (find_none _ _ Hf r Hin) as Hb. by apply bool_decide_eq_false in Hb.
Qed.

Lemma find_row_elem m rows row : Rep m rows → row ∈ rows → find_row rows (pk schema row) = Some row.
Proof.
  intros HR Hin. destruct (find_row rows (pk schema row)) as [r|] eqn:E.
  - apply find_row_Some in E as [Hr Hpk]. f_equal. by eapply rep_unique.
  - apply find_row_None in E. destruct E. by apply list_elem_of_In, in_map, list_elem_of_In.
Qed.

(** The rows without that of a primary key. *)
Definition others (rows : list Row) (key : list Cell) : list Row := filter (fun r => pk schema r ≠ key) rows.

Lemma others_pk rows key : key ∉ map (pk schema) (others rows key).
Proof.
  intros Hin. apply list_elem_of_In, in_map_iff in Hin as (r & Hr & Hin). apply list_elem_of_In in Hin.
  by apply list_elem_of_filter in Hin as [Hne _].
Qed.

Lemma others_absent rows key : key ∉ map (pk schema) rows → others rows key = rows.
Proof.
  intros Hn. unfold others. induction rows as [|r rows IH]; [done|]. rewrite filter_cons.
  cbn in Hn. apply not_elem_of_cons in Hn as [Hne Hn]. rewrite decide_True by congruence. by rewrite IH.
Qed.

Lemma NoDup_others rows key : NoDup (map (pk schema) rows) → NoDup (map (pk schema) (others rows key)).
Proof.
  induction rows as [|r rows IH]; [done|]. cbn [map]. intros [Hr Hn]%NoDup_cons. unfold others in *. rewrite filter_cons.
  case_decide; [|by apply IH]. cbn [map]. apply NoDup_cons. split; [|by apply IH]. intros Hin. destruct Hr.
  apply list_elem_of_In, in_map_iff in Hin as (x & Hx & Hin). apply list_elem_of_In, list_elem_of_filter in Hin as [_ Hin].
  rewrite <- Hx. by apply list_elem_of_In, in_map, list_elem_of_In.
Qed.

(** Cutting the entries of a row removes it. *)
Lemma rep_remove m m' rows row :
  Rep m rows → row ∈ rows →
  (∀ k, val_at m' k = if bool_decide (k ∈ (entries schema row).*1) then None else val_at m k) →
  Rep m' (others rows (pk schema row)).
Proof.
  intros HR Hin Hm'. pose proof (rep_row _ _ _ HR Hin) as Hr. split.
  - apply Forall_forall. intros r [_ Hx]%list_elem_of_filter. by eapply rep_row.
  - apply NoDup_others, HR.
  - intros k v Hown. rewrite Hm'. case_bool_decide as Hk.
    + split; [done|]. intros (r & [Hne Hrin]%list_elem_of_filter & He). destruct Hne.
      apply list_elem_of_fmap in Hk as ([k' v'] & -> & He'). cbn in He.
      eapply entries_pk; [by eapply rep_row|exact Hr|exact He|exact He'].
    + rewrite (rep_iff _ _ HR) by done. split; intros (r & Hrin & He).
      * exists r. split; [|done]. apply list_elem_of_filter. split; [|done]. intros Hpk.
        destruct Hk. apply list_elem_of_fmap. exists (k, v). split; [done|].
        by rewrite <- (rep_unique _ _ _ _ HR Hrin Hin Hpk).
      * apply list_elem_of_filter in Hrin as [_ Hrin]. eauto.
Qed.

(** Putting the entries of a new row adds it. *)
Lemma rep_add m m' rows row :
  Rep m rows → row_ok schema row → pk schema row ∉ map (pk schema) rows →
  (∀ k v, (k, v) ∈ entries schema row → val_at m' k = Some v) →
  (∀ k, k ∉ (entries schema row).*1 → val_at m' k = val_at m k) →
  Rep m' (row :: rows).
Proof.
  intros HR Hr Hpk Hnew Hold. split.
  - constructor; [done|apply HR].
  - cbn [map]. apply NoDup_cons. split; [done|apply HR].
  - intros k v Hown. destruct (decide (k ∈ (entries schema row).*1)) as [Hk|Hk].
    + apply list_elem_of_fmap in Hk as ([k' v'] & -> & He'). cbn [fst]. rewrite (Hnew _ _ He'). split.
      * intros [= <-]. exists row. split; [by left|done].
      * intros (r & Hrin & He). apply elem_of_cons in Hrin as [->|Hrin]; [by rewrite (entries_fun _ _ _ _ Hr He He')|].
        destruct Hpk. rewrite <- (entries_pk r row _ _ _ (rep_row _ _ _ HR Hrin) Hr He He').
        by apply list_elem_of_In, in_map, list_elem_of_In.
    + rewrite Hold, (rep_iff _ _ HR) by done. split; intros (r & Hrin & He).
      * exists r. split; [by right|done].
      * apply elem_of_cons in Hrin as [->|Hrin]; [|eauto]. destruct Hk. apply list_elem_of_fmap. by exists (k, v).
Qed.

End entries.

(** ** Operations *)

Lemma bindS_Ok {S A B} (s : S) (a : A) (f : S → A → S * res B) : bindS (s, Ok a) f = f s a.
Proof. done. Qed.

Section ops.
Context (schema : Schema) (Hts : table_schema schema).
Context `{Tops : TxOps T It} (P : T → list ent → Prop) (D : bytes → Prop) (HW : writable P D).

Let Hok : schema_ok schema := ts_ok schema Hts.

Lemma not_key_cons k row i (ns : list nat) :
  k ∉ map (key_of schema row) (i :: ns) ↔ key_of schema row i ≠ k ∧ k ∉ map (key_of schema row) ns.
Proof. cbn [map]. rewrite not_elem_of_cons. naive_solver. Qed.

Lemma key_other row i j (ns : list nat) :
  row_ok schema row → i ∉ ns → (∀ x, x ∈ i :: ns → (x < length (sc_Indices schema))%nat) → j ∈ ns →
  key_of schema row i ≠ key_of schema row j.
Proof.
  intros Hr Hni Hlt Hj Heq. destruct (key_inj schema Hts row row i j) as [-> _]; try done.
  - apply Hlt. by left.
  - apply Hlt. by right.
Qed.

Lemma delete_loop_spec row ns : ∀ t m deleted,
  row_ok schema row → NoDup ns → (∀ i, i ∈ ns → (i < length (sc_Indices schema))%nat) → P t m →
  (∀ i, i ∈ ns → val_at m (key_of schema row i) ≠ None ∧ D (key_of schema row i)) →
  ∃ t' m', delete_loop schema row ns deleted t = (t', Ok (match ns with [] => deleted | _ => true end)) ∧ P t' m' ∧
    ∀ k, val_at m' k = if bool_decide (k ∈ map (key_of schema row) ns) then None else val_at m k.
Proof.
  induction ns as [|i ns IH]; intros t m deleted Hr Hnd Hlt HP Hin; cbn [delete_loop].
  { exists t, m. split; [done|]. split; [done|]. intros k. rewrite bool_decide_false; [done|]. apply not_elem_of_nil. }
  apply NoDup_cons in Hnd as [Hni Hnd]. destruct (Hin i ltac:(by left)) as [Hi HD].
  rewrite (EncodeKey_key schema Hts) by (done || apply Hlt; by left). cbn [bindS].
  destruct (w_del _ _ HW t m _ HP HD) as (t1 & -> & HP1). rewrite bool_decide_true by done. cbn [bindS].
  destruct (IH t1 (cut (key_of schema row i) m) true Hr Hnd) as (t2 & m2 & -> & HP2 & Hv); [intros; apply Hlt; by right|done| |].
  { intros j Hj. destruct (Hin j ltac:(by right)) as [Hjv HDj]. split; [|done]. rewrite val_at_cut.
    rewrite bytes_equal_false; [done|]. by eapply key_other. }
  exists t2, m2. split; [by destruct ns|]. split; [done|]. intros k. rewrite Hv, val_at_cut.
  destruct (decide (key_of schema row i = k)) as [<-|Hne].
  - rewrite (proj2 (bytes_equal_eq _ _) eq_refl). rewrite (bool_decide_true (_ ∈ map _ (i :: ns))) by (by left).
    by destruct (bool_decide _).
  - rewrite bytes_equal_false by done. cbn [map].
    rewrite (bool_decide_ext (k ∈ key_of schema row i :: map (key_of schema row) ns) (k ∈ map (key_of schema row) ns)); [done|].
    rewrite elem_of_cons. split; [intros [?|?]; congruence|by right].
Qed.

Lemma insert_loop_spec row ns : ∀ t m updated,
  row_ok schema row → NoDup ns → (∀ i, i ∈ ns → (i < length (sc_Indices schema))%nat) → P t m →
  (∀ i, i ∈ ns → val_at m (key_of schema row i) = None) →
  ∃ t' m', insert_loop schema row (val_of schema row) ns updated t = (t', Ok (match ns with [] => updated | _ => true end)) ∧
    P t' m' ∧ (∀ i, i ∈ ns → val_at m' (key_of schema row i) = Some (snd (entry_at schema row i))) ∧
    ∀ k, k ∉ map (key_of schema row) ns → val_at m' k = val_at m k.
Proof.
  induction ns as [|i ns IH]; intros t m updated Hr Hnd Hlt HP Hin; cbn [insert_loop].
  { exists t, m. split; [done|]. split; [done|]. split; [|done]. intros i Hi. by apply not_elem_of_nil in Hi. }
  apply NoDup_cons in Hnd as [Hni Hnd].
  rewrite (EncodeKey_key schema Hts) by (done || apply Hlt; by left). cbn [bindS].
  destruct (w_insert _ _ HW t m (key_of schema row i) (snd (entry_at schema row i)) HP) as (t1 & E & HP1).
  cbn [entry_at snd] in E. rewrite E. rewrite bool_decide_true in HP1 |- * by (apply Hin; by left). cbn [bindS].
  pose proof (proj1 (w_ok _ _ HW _ _ HP)) as Hs.
  destruct (IH t1 _ true Hr Hnd ltac:(intros; apply Hlt; by right) HP1) as (t2 & m2 & -> & HP2 & Hnew & Hold).
  { intros j Hj. rewrite val_at_put by done. rewrite bytes_equal_false by (by eapply key_other). apply Hin. by right. }
  exists t2, m2. split; [by destruct ns|]. split; [done|]. split.
  - intros j Hj. apply elem_of_cons in Hj as [->|Hj]; [|by apply Hnew]. rewrite Hold.
    + rewrite val_at_put by done. by rewrite (proj2 (bytes_equal_eq _ _) eq_refl).
    + intros Hk. apply list_elem_of_In, in_map_iff in Hk as (j & Hj & Hjin). apply list_elem_of_In in Hjin.
      eapply key_other; [exact Hr|exact Hni|exact Hlt|exact Hjin|by symmetry].
  - intros k [Hne Hk]%not_key_cons. rewrite Hold, val_at_put by done. by rewrite bytes_equal_false.
Qed.

Lemma numbers_NoDup : NoDup (numbers schema).
Proof. apply NoDup_seq. Qed.

Lemma numbers_cons : ∃ ns, numbers schema = 0%nat :: ns.
Proof. unfold numbers. pose proof (so_indices _ Hok). destruct (length (sc_Indices schema)); [lia|]. cbn. eauto. Qed.

Lemma entries_fst row : (entries schema row).*1 = map (key_of schema row) (numbers schema).
Proof. unfold entries. change (map (entry_at schema row) (numbers schema)).*1 with (map fst (map (entry_at schema row) (numbers schema))). by rewrite map_map. Qed.

Lemma entries_owned row k : row_ok schema row → k ∈ (entries schema row).*1 → owned schema k.
Proof.
  intros Hr Hk. rewrite entries_fst in Hk. apply list_elem_of_In, in_map_iff in Hk as (i & <- & Hi).
  apply list_elem_of_In, (elem_numbers schema) in Hi. by apply (key_of_owned schema Hts).
Qed.

(** DELETE of a row that is there, with its keys deletable. *)
Lemma delete_present t m rows row :
  P t m → Rep schema m rows → row ∈ rows → (∀ i, (i < length (sc_Indices schema))%nat → D (key_of schema row i)) →
  ∃ t' m', delete t schema row = (t', Ok true) ∧ P t' m' ∧ Rep schema m' (others schema rows (pk schema row)) ∧
    frame schema m m' ∧ ∀ i, (i < length (sc_Indices schema))%nat → val_at m' (key_of schema row i) = None.
Proof.
  intros HP HR Hin HD. pose proof (rep_row schema _ _ _ HR Hin) as Hr. unfold delete. fold (numbers schema).
  destruct (delete_loop_spec row (numbers schema) t m false Hr numbers_NoDup) as (t' & m' & -> & HP' & Hv).
  - intros i. apply elem_numbers.
  - done.
  - intros i Hi%elem_numbers. split; [|by apply HD]. by rewrite (rep_entry schema Hts _ _ _ _ HR Hin Hi).
  - exists t', m'. split; [by destruct numbers_cons as [ns ->]|]. split; [done|].
    split; [eapply rep_remove; [exact Hts|exact HR|done|by rewrite entries_fst]|]. split.
    + intros k Hk. rewrite Hv, bool_decide_false; [done|]. rewrite <- entries_fst. intros Hx. by apply Hk, (entries_owned row).
    + intros i Hi. rewrite Hv, bool_decide_true; [done|]. apply list_elem_of_In, in_map, list_elem_of_In. by apply elem_numbers.
Qed.

(** DELETE of a primary key that is not there. *)
Lemma delete_absent t m rows row :
  P t m → Rep schema m rows → row_ok schema row → pk schema row ∉ map (pk schema) rows → D (key_of schema row 0) →
  ∃ t' m', delete t schema row = (t', Ok false) ∧ P t' m' ∧ m' = m.
Proof.
  intros HP HR Hr Hpk HD. unfold delete. fold (numbers schema). destruct numbers_cons as [ns En].
  assert (0 < length (sc_Indices schema))%nat as Hpos by apply (so_indices _ Hok).
  rewrite En. cbn [delete_loop]. rewrite (EncodeKey_key schema Hts row 0) by done. cbn [bindS].
  pose proof (rep_absent schema Hts _ _ _ 0 HR Hr Hpk Hpos) as Hn.
  destruct (w_del _ _ HW t m _ HP HD) as (t1 & -> & HP1). rewrite bool_decide_false by tauto. cbn [bindS Nat.eqb].
  exists t1, (cut (key_of schema row 0) m). split; [done|]. split; [done|]. apply cut_absent; [by eapply w_ok|done].
Qed.

(** What a mode lets through: the row stored under the key, the new row. *)
Definition row_updates (mode : Z) (old : option Row) (row : Row) : bool :=
  if mode =? ModeUpsert then bool_decide (old ≠ Some row)
  else if mode =? ModeInsert then bool_decide (old = None)
  else bool_decide (old ≠ None ∧ old ≠ Some row).

Definition known_mode (mode : Z) : Prop := mode = ModeUpsert ∨ mode = ModeInsert ∨ mode = ModeUpdate.

Lemma stored_value m rows row : Rep schema m rows → row_ok schema row →
  val_at m (key_of schema row 0) = val_of schema <$> find_row schema rows (pk schema row).
Proof.
  intros HR Hr. assert (0 < length (sc_Indices schema))%nat as Hpos by apply (so_indices _ Hok).
  destruct (find_row schema rows (pk schema row)) as [old|] eqn:E; cbn [fmap option_fmap option_map].
  - apply find_row_Some in E as [Hin Hpk]. pose proof (rep_row schema _ _ _ HR Hin) as Hro.
    assert (key_of schema row 0 = key_of schema old 0) as ->; [|by rewrite (rep_entry schema Hts _ _ _ 0 HR Hin Hpos)].
    rewrite !(key_of_bytes schema Hts _ 0 (pkey_of schema)) by (done || apply (pkey_at schema Hts)).
    by fold (pk schema row); fold (pk schema old); rewrite Hpk.
  - apply (rep_absent schema Hts _ _ _ _ HR Hr); [by apply find_row_None|done].
Qed.

(** The new row goes in once no row has its primary key. *)
Lemma insert_row t m rows row updated :
  P t m → Rep schema m rows → row_ok schema row → pk schema row ∉ map (pk schema) rows →
  ∃ t' m', insert_loop schema row (val_of schema row) (numbers schema) updated t = (t', Ok true) ∧
    P t' m' ∧ Rep schema m' (row :: rows) ∧ frame schema m m'.
Proof.
  intros HP HR Hr Hpk.
  destruct (insert_loop_spec row (numbers schema) t m updated Hr numbers_NoDup) as (t' & m' & -> & HP' & Hnew & Hold).
  - intros i. apply elem_numbers.
  - done.
  - intros i Hi%elem_numbers. by eapply (rep_absent schema Hts).
  - exists t', m'. split; [by destruct numbers_cons as [ns ->]|]. split; [done|]. split.
    + eapply rep_add; [exact Hts|exact HR|done|done| |by rewrite entries_fst].
      intros k v (i & Hi & -> & ->)%elem_entries. rewrite Hnew; [done|by apply elem_numbers].
    + intros k Hk. apply Hold. rewrite <- entries_fst. intros Hx. by apply Hk, (entries_owned row).
Qed.

Lemma table_frame_trans m1 m2 m3 : frame schema m1 m2 → frame schema m2 m3 → frame schema m1 m3.
Proof. intros H1 H2 k Hk. by rewrite (H2 k Hk), (H1 k Hk). Qed.

Lemma update_spec t m rows row mode :
  P t m → Rep schema m rows → row_ok schema row → known_mode mode →
  (∀ old i, old ∈ rows → (i < length (sc_Indices schema))%nat → D (key_of schema old i)) →
  let updated := row_updates mode (find_row schema rows (pk schema row)) row in
  ∃ t' m', update t schema row mode = (t', Ok updated) ∧ P t' m' ∧
    Rep schema m' (if updated then row :: others schema rows (pk schema row) else rows) ∧ frame schema m m'.
Proof.
  intros HP HR Hr Hmode HD updated. assert (0 < length (sc_Indices schema))%nat as Hpos by apply (so_indices _ Hok).
  unfold update. change 0 with (Z.of_nat 0). rewrite (EncodeKey_key schema Hts), (EncodeVal_val schema Hts) by done. rewrite !bindS_Ok.
  rewrite (w_get _ _ HW _ _ _ HP), (stored_value _ _ _ HR Hr), bindS_Ok. fold (numbers schema). cbv zeta.
  set (old := find_row schema rows (pk schema row)) in *.
  assert (∀ o, old = Some o → bytes_equal (val_of schema o) (val_of schema row) = bool_decide (o = row)) as Hsame.
  { intros o Ho. apply find_row_Some in Ho as [Hin Hpk]. unfold bytes_equal. apply bool_decide_ext. split; [|by intros ->].
    apply (val_inj schema Hts); [by eapply rep_row|done|done]. }
  match goal with |- context [bindS (_, ?r) _] => assert (r = Ok updated) as -> end.
  { unfold updated, row_updates. destruct old as [o|] eqn:Eo; cbn [fmap option_fmap option_map].
    - rewrite (Hsame o) by done. destruct Hmode as [->|[->| ->]]; cbn; f_equal; repeat case_bool_decide; naive_solver.
    - destruct Hmode as [->|[->| ->]]; cbn; f_equal; repeat case_bool_decide; naive_solver. }
  cbn [bindS]. destruct updated eqn:Eu; cbn [negb]; [|exists t, m; by split_and!].
  destruct old as [o|] eqn:Eo; cbn [fmap option_fmap option_map].
  - pose proof (find_row_Some schema _ _ _ Eo) as [Hin Hpk]. pose proof (rep_row schema _ _ _ HR Hin) as Hro.
    rewrite (DecodeVal_row schema Hts o row) by (done || by rewrite (row_length _ _ Hr), (row_length _ _ Hro)). cbn [bindS].
    destruct (delete_present t m rows o HP HR Hin) as (t1 & m1 & -> & HP1 & HR1 & HF1 & _); [by intros; apply HD|]. cbn [bindS].
    rewrite Hpk in HR1. destruct (insert_row t1 m1 _ row true HP1 HR1 Hr (others_pk schema _ _)) as (t2 & m2 & -> & HP2 & HR2 & HF2).
    exists t2, m2. split_and!; [done..|]. by eapply table_frame_trans.
  - cbn [bindS]. pose proof (find_row_None schema _ _ Eo) as Hn. rewrite (others_absent schema _ _ Hn).
    destruct (insert_row t m _ row true HP HR Hr Hn) as (t2 & m2 & -> & HP2 & HR2 & HF2).
    exists t2, m2. by split_and!.
Qed.

End ops.

(** ** Operations in a nested transaction *)

Section nested.
Context (schema : Schema) (Hts : table_schema schema).
Context `{TL : TxLaws T It}.

(** A row operation, aborted or committed into the outer transaction. *)
Lemma nested_op_spec t m op b m' :
  means t m → (∃ t', op (t_NewTX t) = (t', Ok b) ∧ inner t t' m') →
  ∃ t'', nested_op t op = (t'', Ok b) ∧ means t'' m'.
Proof.
  intros Hm (t' & E & Hi). unfold nested_op. rewrite E.
  destruct (inner_commit t t' m m' Hm Hi) as (o' & -> & Hm'). exists o'. done.
Qed.

Lemma update_nested t m rows row mode :
  means t m → Rep schema m rows → row_ok schema row → known_mode mode →
  let updated := row_updates mode (find_row schema rows (pk schema row)) row in
  ∃ t' m', nested_op t (fun tx => update tx schema row mode) = (t', Ok updated) ∧ means t' m' ∧
    Rep schema m' (if updated then row :: others schema rows (pk schema row) else rows) ∧ frame schema m m'.
Proof.
  intros Hm HR Hr Hmode updated.
  destruct (update_spec schema Hts (inner t) _ (inner_writable t m Hm) (t_NewTX t) m rows row mode (inner_new t m Hm) HR Hr Hmode)
    as (t1 & m1 & E & Hi & HR1 & HF1).
  { intros old i Hin Hlt. by rewrite (rep_entry schema Hts _ _ _ _ HR Hin Hlt). }
  destruct (nested_op_spec t m (fun tx => update tx schema row mode) updated m1 Hm) as (t2 & E2 & Hm2); [eauto|].
  exists t2, m1. by split_and!.
Qed.

(** Delete of a row, or of a primary key that is not there. *)
Lemma delete_nested t m rows row :
  means t m → Rep schema m rows → row ∈ rows →
  ∃ t' m', Delete t schema row = (t', Ok true) ∧ means t' m' ∧
    Rep schema m' (others schema rows (pk schema row)) ∧ frame schema m m'.
Proof.
  intros Hm HR Hin.
  destruct (delete_present schema Hts (inner t) _ (inner_writable t m Hm) (t_NewTX t) m rows row (inner_new t m Hm) HR Hin)
    as (t1 & m1 & E & Hi & HR1 & HF1 & _).
  { intros i Hlt. by rewrite (rep_entry schema Hts _ _ _ _ HR Hin Hlt). }
  destruct (nested_op_spec t m (fun tx => delete tx schema row) true m1 Hm) as (t2 & E2 & Hm2); [eauto|].
  exists t2, m1. by split_and!.
Qed.

End nested.
