(* ===== verification/TableScan.v ===== *)
(** * Scans of a table

    A range scan of an index visits the rows of the table whose keys lie in the
    range, each one once, in the order of the keys. *)

From Stdlib Require Import ZArith Lia.
From Stdlib.Strings Require Import Byte.
From stdpp Require Import base list numbers.
From S2P Require Import Prelude GoLib SortedSeq Cell Row RowProofs Sql KVIterators Planner PlannerProofs.
From S2P Require Import TxKV Table TableProofs.

Open Scope Z_scope.

(** ** Keys of one index *)

(** What lies between two strings with a common prefix has the prefix. *)
Lemma prefix_between p : ∀ a b k,
  bytes_leb (p ++ a) k = true → bytes_leb k (p ++ b) = true → ∃ rest, k = p ++ rest.
Proof.
  unfold bytes_leb. induction p as [|x p IH]; intros a b k H1 H2; [by exists k|].
  destruct k as [|y k]; [done|]. cbn [app bytes_compare] in *.
  destruct (Z.compare_spec (b2z x) (b2z y)) as [E|E|E]; [|..|done].
  - apply b2z_inj in E as ->. rewrite Z.compare_refl in H2. destruct (IH a b k) as [rest ->]; [done|done|]. by exists rest.
  - rewrite (proj2 (Z.compare_gt_iff (b2z y) (b2z x))) in H2; [done|lia].
Qed.

Lemma cell_EncodeKey_extends c key k : cell_EncodeKey c key = Ok k → ∃ r, k = key ++ r.
Proof.
  unfold cell_EncodeKey. repeat case_decide; try done; intros [= <-]; [by eexists|]. rewrite encodeStrKey_esc. by eexists.
Qed.

Lemma encode_prefix_extends schema index cells : ∀ i key k,
  encode_prefix_loop schema index i cells key = Ok k → ∃ r, k = key ++ r.
Proof.
  induction cells as [|c cells IH]; intros i key k; cbn [encode_prefix_loop].
  - intros [= <-]. exists []. by rewrite app_nil_r.
  - intros H. apply bind_ok in H as (idx & _ & H). apply bind_ok in H as (col & _ & H).
    case_if_in H; [done|]. apply bind_ok in H as (key' & Hk & H). apply IH in H as [r ->].
    apply cell_EncodeKey_extends in Hk as [r' ->]. rewrite <- !(assoc_L (++)). by eexists.
Qed.

Lemma EncodeKeyPrefix_prefix schema indexNo cells positive k :
  EncodeKeyPrefix schema indexNo cells positive = Ok k →
  0 ≤ indexNo < Z.of_nat (length (sc_Indices schema)) ∧ ∃ r, k = key_prefix schema indexNo ++ r.
Proof.
  unfold EncodeKeyPrefix. destruct (Z.ltb_spec indexNo 0) as [|Hlo]; [done|].
  destruct (Z.leb_spec (Z.of_nat (length (sc_Indices schema))) indexNo) as [|Hhi]; [done|]. cbn [orb].
  intros H. apply bind_ok in H as (index & _ & H). case_if_in H; [done|]. apply bind_ok in H as (key & Hk & H).
  split; [lia|]. apply encode_prefix_extends in Hk as [r ->]. injection H as <-.
  unfold key_prefix. destruct positive; [exists (r ++ [xff]); by rewrite <- !(assoc_L (++))|by exists r].
Qed.

(** The bounds of a range request share the prefix of its index. *)
Lemma range_bounds_prefix schema req start stop desc :
  range_bounds schema req = Ok (start, stop, desc) →
  0 ≤ rq_IndexNo req < Z.of_nat (length (sc_Indices schema)) ∧
  ∀ k, covers start stop desc k = true → ∃ rest, k = key_prefix schema (rq_IndexNo req) ++ rest.
Proof.
  unfold range_bounds. destruct (suffixPositive _) as [s1 ?], (suffixPositive _) as [s2 ?], (isDescending _) as [d1 ?], (isDescending _).
  case_if; [done|]. intros H. apply bind_ok in H as (st & Hst & H). apply bind_ok in H as (sp & Hsp & [= <- <- <-]).
  apply EncodeKeyPrefix_prefix in Hst as (Hi & r1 & ->), Hsp as (_ & r2 & ->). split; [done|].
  intros k Hc. unfold covers in Hc. destruct d1; apply andb_true_iff in Hc as [H1 H2]; by eapply prefix_between.
Qed.

(** ** Entries in a range *)

Lemma elem_view m k v : view_ok m → val_at m k = Some v ↔ Ent k v false ∈ m.
Proof.
  intros Hm. split.
  - intros Hv. pose proof (assoc_view m k Hm) as Ha. rewrite Hv in Ha. by apply assoc_elem in Ha.
  - intros Hin. apply list_elem_of_lookup in Hin as [i Hi]. apply (assoc_lookup m i) in Hi; [|apply Hm].
    unfold val_at. cbn [e_key] in Hi. by rewrite Hi.
Qed.

Lemma elem_kvs l k v : (k, v) ∈ kvs l ↔ ∃ e, e ∈ l ∧ e_key e = k ∧ e_val e = v.
Proof. unfold kvs. rewrite list_elem_of_fmap. split; [intros (e & [= -> ->] & Hin); eauto|intros (e & Hin & <- & <-); eauto]. Qed.

Lemma elem_scan start stop desc m k v : view_ok m →
  (k, v) ∈ scan start stop desc m ↔ val_at m k = Some v ∧ covers start stop desc k = true.
Proof.
  intros Hm. rewrite (elem_view m k v Hm). unfold scan, covers.
  assert (∀ lo hi, (∃ e, e ∈ between lo hi m ∧ e_key e = k ∧ e_val e = v) ↔
    Ent k v false ∈ m ∧ bytes_leb lo k && bytes_leb k hi = true) as Hb.
  { intros lo hi. unfold between. split.
    - intros (e & [Hr Hin]%list_elem_of_filter & <- & <-). destruct Hm as [_ Hl]. rewrite Forall_forall in Hl.
      specialize (Hl _ Hin). destruct e as [k' v' []]; done.
    - intros [Hin Hr]. exists (Ent k v false). split; [|done]. by apply list_elem_of_filter. }
  destruct desc; rewrite elem_kvs; [|apply Hb]. rewrite <- (Hb stop start).
  by setoid_rewrite elem_of_reverse.
Qed.

Lemma scan_NoDup start stop desc m : view_ok m → NoDup (scan start stop desc m).*1.
Proof.
  intros [Hs _]. assert (∀ lo hi, NoDup (kvs (between lo hi m)).*1) as Hb.
  { intros lo hi. assert (sorted (between lo hi m)) as Hsb by (by apply sorted_filter).
    unfold kvs. rewrite <- list_fmap_compose. change (fst ∘ (λ e, (e_key e, e_val e))) with e_key.
    induction (between lo hi m) as [|e l IH]; [constructor|]. apply sorted_cons in Hsb as [Hl He]. cbn [fmap list_fmap].
    apply NoDup_cons. split; [|by apply IH]. intros (x & Hk & Hx)%list_elem_of_fmap. rewrite Forall_forall in He.
    specialize (He _ Hx). unfold ent_lt in He. rewrite Hk in He. by apply bytes_lt_irrefl in He. }
  unfold scan. destruct desc; [|apply Hb]. unfold kvs. rewrite !fmap_reverse, reverse_Permutation. apply Hb.
Qed.

Section scan.
Context (schema : Schema) (Hts : table_schema schema).
Context `{TL : TxLaws T It} (tx : T) (m : list ent) (rows : list Row) (Hm : means tx m) (HR : Rep schema m rows).

Let Hok : schema_ok schema := ts_ok schema Hts.

Lemma m_ok : view_ok m.
Proof. eapply w_ok; [apply means_writable|exact Hm]. Qed.

(** A key of an index belongs to a row. *)
Lemma entry_row i k v rest : (i < length (sc_Indices schema))%nat →
  val_at m k = Some v → k = key_prefix schema (Z.of_nat i) ++ rest → ∃ row, row ∈ rows ∧ (k, v) = entry_at schema row i.
Proof.
  intros Hi Hv Hk.
  assert (owned schema k) as Hown by (rewrite Hk; unfold key_prefix; rewrite <- (assoc_L (++)); by eexists).
  apply (rep_iff _ _ _ HR) in Hv as (row & Hin & He); [|done]. exists row. split; [done|].
  apply elem_entries in He as (j & Hj & Ek & ->). pose proof (rep_row _ _ _ _ HR Hin) as Hr.
  assert (i = j) as ->; [|by rewrite Ek].
  destruct (index_at schema j Hj) as (index & _ & Hg). pose proof (ts_few _ Hts).
  rewrite Hk, (key_of_bytes schema Hts _ _ index) in Ek by done. unfold key_prefix in Ek. rewrite <- (assoc_L (++)) in Ek.
  apply app_inv_head in Ek. injection Ek as Hb _. apply (f_equal b2z) in Hb. rewrite !b2z_z2b, !Z.mod_small in Hb by lia. lia.
Qed.

(** The row at a position of the storage iterator. *)
Lemma decode_row row i r0 iter : row ∈ rows → (i < length (sc_Indices schema))%nat → length r0 = length (sc_Cols schema) →
  i_Valid iter = Ok true → i_Key iter = Ok (key_of schema row i) → i_Val iter = Ok (snd (entry_at schema row i)) →
  decodeKVIter tx schema (Z.of_nat i) iter r0 = Ok (true, row).
Proof.
  intros Hin Hi Hl Ev Ek Ex. pose proof (rep_row _ _ _ _ HR Hin) as Hr. pose proof (row_length _ _ Hr) as Hrl.
  destruct (index_at schema i Hi) as (index & Hix & Hg). pose proof (ts_few _ Hts).
  assert (index ∈ sc_Indices schema) as Hinx by (by eapply list_elem_of_lookup_2).
  assert (∀ idx, idx ∈ index → 0 ≤ idx < Z.of_nat (length row)) as Hrange by (rewrite Hrl; apply (so_index _ Hok _ Hinx)).
  pose proof (ts_keyed _ Hts _ _ Hinx (pkey_lookup schema Hts)) as Hkeyed.
  unfold decodeKVIter. rewrite Ev. rs. cbn [negb]. rewrite Ek. rs.
  rewrite (DecodeKey_EncodeKey schema Hok row r0 (Z.of_nat i) index) by (done || lia || by apply EncodeKey_key). rs.
  set (r1 := set_cells r0 row index).
  assert (length r1 = length row) as Hl1 by (unfold r1; by rewrite set_cells_length, Hl).
  assert (∀ x, Z.of_nat x ∈ pkey_of schema → r1 !! x = row !! x) as Hag.
  { intros x Hx. unfold r1. rewrite set_cells_lookup by (done || by rewrite Hl). by rewrite decide_True by (by apply Hkeyed). }
  assert (DecodeVal r1 schema (val_of schema row) = Ok row) as Hdec.
  { rewrite val_of_bytes by done. apply DecodeVal_agree; [done|done|by apply pkey_at|done]. }
  destruct (Z.ltb_spec 0 (Z.of_nat i)) as [Hpos|Hpos].
  - unfold Select. rewrite (EncodeKey_agree schema row r1 0 (pkey_of schema)); [|done|by apply pkey_at|].
    2: { intros idx Hidx. rewrite <- (Hag (Z.to_nat idx)); [done|]. rewrite Z2Nat.id; [done|]. apply Hrange, Hkeyed, Hidx. }
    change 0 with (Z.of_nat 0) at 1. rewrite (EncodeKey_key schema Hts) by (done || lia). rs.
    rewrite (w_get _ _ means_writable _ _ _ Hm), (rep_entry schema Hts _ _ _ 0 HR Hin) by lia. rs. cbn [Nat.eqb].
    rewrite Hdec. done.
  - assert (i = 0)%nat as -> by lia. rewrite Ex. rs. cbn [entry_at snd Nat.eqb]. by rewrite Hdec.
Qed.

(** The rows an iterator of the table yields. *)
Inductive ryields : RowIterator (T := T) (It := It) → list Row → Prop :=
  | ryields_nil it : ri_valid it = false → ryields it []
  | ryields_cons it row it' l :
      ri_valid it = true → ri_row it = row → ri_Next it = Ok it' → (length l < i_steps (ri_iter it))%nat →
      ryields it' l → ryields it (row :: l).

Lemma ryields_steps it l : ryields it l → (length l ≤ i_steps (ri_iter it))%nat.
Proof. destruct 1; cbn [length]; lia. Qed.

Definition at_rows (i : nat) (l : list Row) (kvl : list (bytes * bytes)) : Prop :=
  Forall2 (fun row kv => row ∈ rows ∧ kv = entry_at schema row i) l kvl.

(** From the pairs of the storage iterator to the rows of the table. *)
Lemma yields_rows i iter kvl : (i < length (sc_Indices schema))%nat → yields iter kvl →
  ∀ l r0, at_rows i l kvl → length r0 = length (sc_Cols schema) →
  ∃ valid row, decodeKVIter tx schema (Z.of_nat i) iter r0 = Ok (valid, row) ∧
    ryields (MkRowIter tx schema (Z.of_nat i) iter valid row) l.
Proof.
  intros Hi Hy. induction Hy as [iter Hv|iter k v iter' kvl Hv Hk Hx Hn Hst Hy IH]; intros l r0 Hat Hl;
    inversion Hat as [|row ? l' ? [Hin Hkv] Hat' E1 E2]; subst.
  - exists false, r0. unfold decodeKVIter. rewrite Hv. rs. cbn [negb]. split; [done|]. by constructor.
  - injection Hkv as -> ->. exists true, row. split; [by apply decode_row|].
    pose proof (row_length _ _ (rep_row _ _ _ _ HR Hin)) as Hrl.
    destruct (IH l' row Hat' Hrl) as (valid & row' & E & Hr). econstructor; [done|done| | |exact Hr].
    + unfold ri_Next. cbn [ri_iter ri_tx ri_schema ri_indexNo ri_row]. rewrite Hn. rs. by rewrite E.
    + cbn [ri_iter]. by rewrite (Forall2_length _ _ _ Hat').
Qed.

Lemma at_rows_exist i kvl :
  Forall (fun kv => ∃ row, row ∈ rows ∧ kv = entry_at schema row i) kvl → ∃ l, at_rows i l kvl.
Proof.
  induction 1 as [|kv kvl (row & Hin & ->) _ [l IH]]; [by exists []; constructor|]. exists (row :: l). by constructor.
Qed.

Lemma at_rows_keys i l kvl : at_rows i l kvl → map (fun row => key_of schema row i) l = kvl.*1.
Proof. induction 1 as [|row kv l kvl [_ ->] _ IH]; [done|]. cbn. by rewrite IH. Qed.

Lemma at_rows_elem i l kvl row : at_rows i l kvl → row ∈ l → row ∈ rows ∧ entry_at schema row i ∈ kvl.
Proof.
  intros Hat Hin. apply list_elem_of_lookup in Hin as [j Hj].
  destruct (Forall2_lookup_l _ _ _ _ _ Hat Hj) as (kv & Hkv & Hin & ->). split; [done|]. by eapply list_elem_of_lookup_2.
Qed.

Lemma elem_at_rows i l kvl kv : at_rows i l kvl → kv ∈ kvl → ∃ row, row ∈ l ∧ row ∈ rows ∧ kv = entry_at schema row i.
Proof.
  intros Hat Hin. apply list_elem_of_lookup in Hin as [j Hj].
  destruct (Forall2_lookup_r _ _ _ _ _ Hat Hj) as (row & Hrow & Hin & ->). exists row. split; [|done]. by eapply list_elem_of_lookup_2.
Qed.

(** The keys in scan order. *)
Definition scan_order (desc : bool) (keys : list bytes) : Prop :=
  StronglySorted bytes_lt (if desc then reverse keys else keys).

Lemma scan_sorted start stop desc : scan_order desc (scan start stop desc m).*1.
Proof.
  assert (∀ lo hi, StronglySorted bytes_lt (kvs (between lo hi m)).*1) as Hb.
  { intros lo hi. assert (sorted (between lo hi m)) as Hsb by (apply sorted_filter, m_ok).
    unfold kvs. rewrite <- list_fmap_compose. change (fst ∘ (λ e, (e_key e, e_val e))) with e_key.
    induction (between lo hi m) as [|e l IH]; [constructor|]. apply sorted_cons in Hsb as [Hl He]. cbn [fmap list_fmap].
    constructor; [by apply IH|]. apply Forall_fmap. eapply Forall_impl; [exact He|]. done. }
  unfold scan_order, scan. destruct desc; [|apply Hb]. unfold kvs. rewrite !fmap_reverse, reverse_involutive. apply Hb.
Qed.

(** A range scan yields the rows whose keys it covers, in key order. *)
Lemma Range_rows req start stop desc :
  range_bounds schema req = Ok (start, stop, desc) →
  let key row := key_of schema row (Z.to_nat (rq_IndexNo req)) in
  ∃ it l, Range tx schema req = Ok it ∧ ryields it l ∧ scan_order desc (map key l) ∧ NoDup l ∧
    ∀ row, row ∈ l ↔ row ∈ rows ∧ covers start stop desc (key row) = true.
Proof.
  intros Hb key. destruct (range_bounds_prefix _ _ _ _ _ Hb) as [Hi Hpre]. set (i := Z.to_nat (rq_IndexNo req)) in *.
  assert (rq_IndexNo req = Z.of_nat i) as Ei by (unfold i; lia). rewrite Ei in Hpre.
  assert (i < length (sc_Indices schema))%nat as Hlt by lia.
  destruct (means_range tx m start stop desc Hm) as (iter & Hr & Hy).
  destruct (at_rows_exist i (scan start stop desc m)) as [l Hat].
  { apply Forall_forall. intros [k v] [Hv Hc]%elem_scan; [|apply m_ok]. destruct (Hpre k Hc) as [rest Hk]. by eapply entry_row. }
  destruct (yields_rows i iter _ Hlt Hy l (NewRow schema) Hat) as (valid & row & E & Hry).
  { unfold NewRow. apply length_replicate. }
  eexists _, l. split_and!.
  - unfold Range. rewrite Hb. rs. rewrite Hr. rs. rewrite Ei, E. done.
  - exact Hry.
  - unfold key. rewrite (at_rows_keys _ _ _ Hat). apply scan_sorted.
  - apply (NoDup_fmap_1 key). change (key <$> l) with (map key l). unfold key. rewrite (at_rows_keys _ _ _ Hat).
    apply scan_NoDup, m_ok.
  - intros r. split.
    + intros Hin. destruct (at_rows_elem _ _ _ _ Hat Hin) as [Hr1 He]. split; [done|].
      unfold entry_at in He. by apply elem_scan in He as [_ Hc]; [|apply m_ok].
    + intros [Hr1 Hc]. assert (entry_at schema r i ∈ scan start stop desc m) as He.
      { apply elem_scan; [apply m_ok|]. split; [|done]. by apply (rep_entry schema Hts _ rows). }
      destruct (elem_at_rows _ _ _ _ Hat He) as (r' & Hin & Hr2 & Heq). injection Heq as Hk _.
      destruct (key_inj schema Hts r r' i i) as [_ Hpk]; try done; [by eapply rep_row..|].
      by rewrite (rep_unique schema _ _ _ _ HR Hr1 Hr2 Hpk).
Qed.

(** ** Batches *)

Definition matching (cond : option expr) (row : Row) : bool :=
  match matchRow schema row cond with Ok b => b | _ => false end.

Definition decided (cond : option expr) (l : list Row) : Prop := ∀ row, row ∈ l → ∃ b, matchRow schema row cond = Ok b.

Lemma decided_matching cond l row : decided cond l → row ∈ l → matchRow schema row cond = Ok (matching cond row).
Proof. intros Hd Hin. unfold matching. by destruct (Hd row Hin) as [b ->]. Qed.

(** The batch is the next matching rows, all of them or a full batch. *)
Lemma collect_rows_spec residual it l : ryields it l → decided residual l → ∀ fuel batch,
  (length l ≤ fuel)%nat → (length batch < mutateBatchSize)%nat →
  let all := batch ++ filter (fun row => matching residual row = true) l in
  collect_rows schema residual fuel it batch =
    Ok (if (mutateBatchSize <=? length all)%nat then (take mutateBatchSize all, false) else (all, true)).
Proof.
  induction 1 as [it Hv|it row it' l Hv Hrow Hn Hst Hy IH]; intros Hdec fuel batch Hf Hb all.
  - unfold all. cbn [filter]. rewrite app_nil_r. destruct (Nat.leb_spec mutateBatchSize (length batch)); [lia|].
    destruct fuel; cbn [collect_rows]; by rewrite Hv.
  - destruct fuel as [|fuel]; [cbn in Hf; lia|]. cbn [collect_rows]. unfold ri_Row. rewrite Hv, Hrow. cbn [negb check]. rs.
    assert (row ∈ row :: l) as Hin by (by left). rewrite (decided_matching _ _ _ Hdec Hin). rs. cbn [length] in Hf.
    assert (decided residual l) as Hdec' by (intros r Hr; apply Hdec; by right).
    unfold all. rewrite filter_cons. destruct (matching residual row) eqn:Em; cbn [andb]; cycle 1.
    + rewrite Hn. rs. rewrite IH by (done || lia). rewrite decide_False by done. done.
    + rewrite decide_True by done. destruct (Nat.leb_spec mutateBatchSize (length (batch ++ [row]))) as [Hfull|Hfull];
        rewrite length_app in Hfull; cbn [length] in Hfull.
      * assert (mutateBatchSize = length (batch ++ [row])) as El by (rewrite length_app; cbn; lia).
        rewrite (proj2 (Nat.leb_le _ _)) by (rewrite length_app; cbn [length]; lia).
        assert (∀ x, take mutateBatchSize (batch ++ row :: x) = batch ++ [row]) as ->; [|done].
        intros x. rewrite El. rewrite (cons_middle row batch x), (assoc_L (++)). apply take_app_length.
      * rewrite Hn. rs. rewrite IH by (done || lia || (rewrite length_app; cbn; lia)). by rewrite <- (assoc_L (++)).
Qed.

End scan.
