(* ===== verification/TableSelect.v ===== *)
(** * SELECT returns the matching rows

    The cursor of a SELECT streams the scanned rows that match, skips OFFSET of
    them, projects the others and stops at LIMIT; with the plan of the WHERE
    clause these are the rows of the table that satisfy it. *)

From Stdlib Require Import ZArith Lia.
From Stdlib.Strings Require Import Byte.
From stdpp Require Import base list numbers.
From S2P Require Import Prelude GoLib SortedSeq Cell Row RowProofs Sql EvalProofs KVIterators Planner PlannerProofs.
From S2P Require Import TxKV Table TableProofs TableScan.

Open Scope Z_scope.

(** The first row after [skip] matching ones, and the rows behind it. *)
Fixpoint next_row (M : Row → bool) (skip : Z) (l : list Row) : option (Row * list Row) :=
  match l with
  | [] => None
  | row :: l =>
      if M row then if 0 <? skip then next_row M (skip - 1) l else Some (row, l)
      else next_row M skip l
  end.

Definition limited {A} (n : Z) (l : list A) : list A := if n <? 0 then l else take (Z.to_nat n) l.

Lemma next_row_spec M l : ∀ skip, 0 ≤ skip →
  drop (Z.to_nat skip) (filter (fun r => M r = true) l) =
    match next_row M skip l with None => [] | Some (row, rest) => row :: filter (fun r => M r = true) rest end ∧
  ∀ row rest, next_row M skip l = Some (row, rest) → (length rest < length l)%nat ∧ M row = true ∧ row ∈ l ∧ ∀ r, r ∈ rest → r ∈ l.
Proof.
  induction l as [|r l IH]; intros skip Hs; cbn [next_row]; [by split; [destruct (Z.to_nat skip)|]|]. rewrite filter_cons.
  destruct (M r) eqn:Em; [rewrite decide_True by done|rewrite decide_False by done].
  - destruct (Z.ltb_spec 0 skip) as [Hp|Hp].
    + replace (Z.to_nat skip) with (S (Z.to_nat (skip - 1))) by lia. cbn [drop].
      destruct (IH (skip - 1)) as [H1 H2]; [lia|]. split; [done|]. intros row rest (Hlen & Hm & Hin & Hsub)%H2.
      split; [cbn; lia|]. split; [done|]. split; [by right|]. intros x Hx. right. by apply Hsub.
    + replace skip with 0 by lia. split; [done|]. intros row rest [= <- <-]. split; [cbn; lia|]. split; [done|].
      split; [by left|]. intros x Hx. by right.
  - destruct (IH skip Hs) as [H1 H2]. split; [done|]. intros row rest (Hlen & Hm & Hin & Hsub)%H2.
    split; [cbn; lia|]. split; [done|]. split; [by right|]. intros x Hx. right. by apply Hsub.
Qed.

Section cursor.
Context `{Rops : RangeOps It} `{Tops : TxOps T It}.
Context (schema : Schema) (plan : scanPlan) (proj : list expr).

(** The cells a row contributes to the result. *)
Definition projected (row : Row) : Row :=
  match mapM_res (evalExpr schema row) proj with Ok out => out | _ => [] end.

Definition projects (l : list Row) : Prop := ∀ row, row ∈ l → ∃ out, mapM_res (evalExpr schema row) proj = Ok out.

(** A cursor that has the rows [l] ahead of it. *)
Record ahead (c : selectCursor (T := T) (It := It)) (l : list Row) (remaining skip : Z) : Prop := {
  ah_schema : cu_schema c = schema;
  ah_plan : cu_plan c = plan;
  ah_proj : cu_proj c = proj;
  ah_remaining : cu_remaining c = remaining;
  ah_skip : cu_skip c = skip;
  ah_rows : ∃ it, cursor_move c = Ok it ∧ ryields it l;
  ah_steps : (length l ≤ i_steps (ri_iter (cu_iter c)))%nat;
}.

Lemma next_loop_spec it l : ryields it l → ∀ c remaining skip fuel,
  cursor_move c = Ok it → cu_schema c = schema → cu_plan c = plan → cu_proj c = proj → cu_remaining c = remaining → cu_skip c = skip →
  decided schema (pl_residual plan) l → projects l → 0 ≤ skip → (length l ≤ fuel)%nat →
  match next_row (matching schema (pl_residual plan)) skip l with
  | None => ∃ c', next_loop fuel c = Ok (c', false)
  | Some (row, rest) => ∃ c', next_loop fuel c = Ok (c', true) ∧ cu_out c' = projected row ∧
      ahead c' rest (if 0 <? remaining then remaining - 1 else remaining) 0
  end.
Proof.
  induction 1 as [it Hv|it row it' l Hv Hrow Hn Hst Hy IH]; intros c remaining skip fuel Hmv Hsc Hpl Hpr Hre Hsk Hdec Hproj Hs Hf;
    cbn [next_row].
  - destruct fuel; cbn [next_loop]; rewrite Hmv; rs; rewrite Hv; cbn [negb]; eauto.
  - assert (row ∈ row :: l) as Hin by (by left).
    assert (decided schema (pl_residual plan) l) as Hdec' by (intros r Hr; apply Hdec; by right).
    assert (projects l) as Hproj' by (intros r Hr; apply Hproj; by right). cbn [length] in Hf.
    assert (next_loop fuel c = (let again skip := match fuel with O => OutOfFuel | S fuel => next_loop fuel
        (MkCursor (cu_schema c) (cu_plan c) (cu_proj c) it true (cu_remaining c) skip (cu_out c) (cu_scanned c + 1)) end in
      if negb (matching schema (pl_residual plan) row) then again (cu_skip c)
      else if 0 <? cu_skip c then again (cu_skip c - 1)
      else out ← mapM_res (evalExpr (cu_schema c) row) (cu_proj c);
        Ok (MkCursor (cu_schema c) (cu_plan c) (cu_proj c) it true
            (if 0 <? cu_remaining c then cu_remaining c - 1 else cu_remaining c) (cu_skip c) out (cu_scanned c + 1), true))) as E.
    { destruct fuel; cbn [next_loop]; rewrite Hmv; rs; rewrite Hv; cbn [negb]; unfold ri_Row; rewrite Hv, Hrow; cbn [check]; rs;
        rewrite Hsc, Hpl, (decided_matching _ _ _ _ Hdec Hin); done. }
    rewrite E. cbv zeta. destruct fuel as [|fuel]; [lia|].
    assert (∀ c' skip', cu_started c' = true → cu_iter c' = it → cu_schema c' = schema → cu_plan c' = plan → cu_proj c' = proj →
      cu_remaining c' = remaining → cu_skip c' = skip' → 0 ≤ skip' →
      match next_row (matching schema (pl_residual plan)) skip' l with
      | None => ∃ c'', next_loop fuel c' = Ok (c'', false)
      | Some (row, rest) => ∃ c'', next_loop fuel c' = Ok (c'', true) ∧ cu_out c'' = projected row ∧
          ahead c'' rest (if 0 <? remaining then remaining - 1 else remaining) 0
      end) as Hagain.
    { intros c' skip' Hst' Hit' H1 H2 H3 H4 H5 H6. apply IH; try done; [|lia]. unfold cursor_move. by rewrite Hst', Hit', Hn. }
    destruct (matching schema (pl_residual plan) row); cbn [negb]; [|by apply Hagain].
    rewrite Hsk. destruct (Z.ltb_spec 0 skip) as [Hp|Hp]; [by apply Hagain; [..|lia]|].
    assert (mapM_res (evalExpr (cu_schema c) row) (cu_proj c) = Ok (projected row)) as ->.
    { rewrite Hsc, Hpr. unfold projected. by destruct (Hproj row Hin) as [out ->]. }
    rs. eexists. split; [done|]. split; [done|]. rewrite Hre. split; try done; cbn; [lia| |lia].
    exists it'. split; [|done]. unfold cursor_move. cbn. exact Hn.
Qed.

Lemma next_spec c l remaining skip :
  ahead c l remaining skip → decided schema (pl_residual plan) l → projects l → 0 ≤ skip → remaining ≠ 0 →
  match next_row (matching schema (pl_residual plan)) skip l with
  | None => ∃ c', cursor_next c = Ok (c', false)
  | Some (row, rest) => ∃ c', cursor_next c = Ok (c', true) ∧ cu_out c' = projected row ∧
      ahead c' rest (if 0 <? remaining then remaining - 1 else remaining) 0
  end.
Proof.
  intros [H1 H2 H3 H4 H5 (it & Hmv & Hy) H6] Hdec Hproj Hs Hr. unfold cursor_next. rewrite H4.
  destruct (Z.eqb_spec remaining 0); [done|]. by eapply next_loop_spec.
Qed.

(** Draining the result: all matching rows behind the offset, up to the limit. *)
Lemma rows_loop_spec cols : ∀ fuel l c remaining skip out,
  ahead c l remaining skip → decided schema (pl_residual plan) l → projects l → 0 ≤ skip → (length l ≤ fuel)%nat →
  ∃ r, rows_loop fuel (MkResult cols (Some c) 0 None false) out =
      Ok (r, out ++ map projected (limited remaining
        (drop (Z.to_nat skip) (filter (fun row => matching schema (pl_residual plan) row = true) l)))) ∧ sr_err r = None.
Proof.
  induction fuel as [|fuel IH]; intros l c remaining skip out Hah Hdec Hproj Hs Hf; cbn [rows_loop];
    unfold sr_Next; cbn [sr_cursor sr_closed sr_err orb].
  all: destruct (Z.eq_dec remaining 0) as [->|Hr].
  all: try (unfold cursor_next; rewrite (ah_remaining _ _ _ _ Hah); cbn [Z.eqb]; rs; cbn [negb];
    unfold limited; cbn [Z.ltb]; change (Z.to_nat 0) with 0%nat; rewrite take_0; cbn [map]; rewrite app_nil_r; eauto; fail).
  all: pose proof (next_spec c l remaining skip Hah Hdec Hproj Hs Hr) as Hn;
    destruct (next_row_spec (matching schema (pl_residual plan)) l skip Hs) as [-> Hrest];
    destruct (next_row _ skip l) as [[row rest]|] eqn:E.
  - specialize (Hrest _ _ eq_refl). lia.
  - destruct Hn as (c' & ->). rs. cbn [negb sr_cols sr_affected]. unfold limited. destruct (remaining <? 0); rewrite ?take_nil, app_nil_r; eauto.
  - destruct Hn as (c' & -> & Ho & Hah'). rs. cbn [negb sr_Row sr_cols sr_affected sr_cursor sr_err sr_closed]. rewrite Ho.
    destruct (Hrest _ _ eq_refl) as (Hlen & _ & _ & Hsub).
    destruct (IH rest c' _ 0 (out ++ [projected row]) Hah') as (r & -> & He); [..|done|lia|].
    + intros x Hx. by apply Hdec, Hsub.
    + intros x Hx. by apply Hproj, Hsub.
    + exists r. split; [|done]. change (Z.to_nat 0) with 0%nat. rewrite drop_0, <- (assoc_L (++)). do 3 f_equal. unfold limited.
      destruct (Z.ltb_spec 0 remaining) as [Hp|Hp].
      * destruct (Z.ltb_spec (remaining - 1) 0), (Z.ltb_spec remaining 0); try lia.
        replace (Z.to_nat remaining) with (S (Z.to_nat (remaining - 1))) by lia. done.
      * by destruct (Z.ltb_spec remaining 0); [|lia].
  - destruct Hn as (c' & ->). rs. cbn [negb]. unfold limited. destruct (remaining <? 0); rewrite ?take_nil, app_nil_r; eauto.
Qed.

End cursor.

(** ** The planned scan *)

Lemma StronglySorted_filter {A} (R : A → A → Prop) (P : A → Prop) `{!∀ x, Decision (P x)} l :
  StronglySorted R l → StronglySorted R (filter P l).
Proof.
  induction 1 as [|x l Hl IH Hx]; [constructor|]. rewrite filter_cons. case_decide; [|done]. constructor; [done|].
  apply Forall_forall. rewrite Forall_forall in Hx. intros y [_ Hy]%list_elem_of_filter. by apply Hx.
Qed.

Lemma StronglySorted_map {A B} (R : B → B → Prop) (f : A → B) l :
  StronglySorted R (map f l) → StronglySorted (fun a b => R (f a) (f b)) l.
Proof.
  induction l as [|x l IH]; [constructor|]. cbn. intros [Hs Hf]%StronglySorted_inv. constructor; [by apply IH|].
  rewrite List.Forall_map in Hf. exact Hf.
Qed.

(** Rows in the order of their keys in an index. *)
Definition key_ordered (schema : Schema) (i : nat) (desc : bool) : list Row → Prop :=
  StronglySorted (fun a b => if desc then bytes_lt (key_of schema b i) (key_of schema a i)
                             else bytes_lt (key_of schema a i) (key_of schema b i)).

Lemma scan_key_ordered schema i desc l : scan_order desc (map (fun row => key_of schema row i) l) → key_ordered schema i desc l.
Proof.
  unfold scan_order, key_ordered. destruct desc; [|apply StronglySorted_map].
  intros Hs%StronglySorted_reverse. exact (StronglySorted_map _ _ _ Hs).
Qed.

Section select.
Context (schema : Schema) (Hts : table_schema schema) (Hnames : NoDup (map col_Name (sc_Cols schema))).
Context `{TL : TxLaws T It} (tx : T) (m : list ent) (rows : list Row) (Hm : means tx m) (HR : Rep schema m rows).

Lemma rows_NoDup : NoDup rows.
Proof. eapply (NoDup_fmap_1 (pk schema)), (rep_pk _ _ _ HR). Qed.

(** A condition the planner keeps: its literals are cells, and it leaves room
    for the residual condition below the depth bound. *)
Definition plannable (cond : option expr) : Prop :=
  match cond with Some e => lits_ok e ∧ (height e + maxPlanConjuncts ≤ maxExprDepth)%nat | None => True end.

(** The scan of a plan and its residual select the rows that match. *)
Lemma plan_rows cond plan :
  plan_sound schema cond plan → decided schema cond rows →
  ∃ it l desc, Range tx schema (pl_req plan) = Ok it ∧ ryields it l ∧ decided schema (pl_residual plan) l ∧
    (∀ row, row ∈ l → row ∈ rows) ∧ key_ordered schema (Z.to_nat (rq_IndexNo (pl_req plan))) desc l ∧
    filter (fun row => matching schema (pl_residual plan) row = true) l ≡ₚ filter (fun row => matching schema cond row = true) rows.
Proof.
  intros (start & stop & desc & Hb & Hsound) Hdec.
  destruct (range_bounds_prefix _ _ _ _ _ Hb) as [Hi _].
  destruct (Range_rows schema Hts tx m rows Hm HR _ _ _ _ Hb) as (it & l & Hr & Hy & Ho & Hnd & Hl).
  set (i := Z.to_nat (rq_IndexNo (pl_req plan))) in *.
  assert (∀ row, row ∈ rows → ∃ b, matchRow schema row (pl_residual plan) = Ok b ∧
    matching schema cond row = covers start stop desc (key_of schema row i) && b) as Hrow.
  { intros row Hin. apply (Hsound row (key_of schema row i) (matching schema cond row)).
    - by eapply rep_row.
    - replace (rq_IndexNo (pl_req plan)) with (Z.of_nat i) by (unfold i; lia).
      apply EncodeKey_key; [done|by eapply rep_row|lia].
    - by eapply decided_matching. }
  exists it, l, desc. split_and!; [done|done| |by intros row [? _]%Hl|by apply scan_key_ordered|].
  - intros row [Hin _]%Hl. destruct (Hrow row Hin) as (b & -> & _). eauto.
  - apply NoDup_Permutation; [by apply NoDup_filter|apply NoDup_filter, rows_NoDup|]. intros row.
    rewrite !list_elem_of_filter, Hl. split.
    + intros (Hm1 & Hin & Hc). split; [|done]. destruct (Hrow row Hin) as (b & Hb' & ->).
      unfold matching in Hm1. rewrite Hb' in Hm1. by rewrite Hc, Hm1.
    + intros (Hm1 & Hin). destruct (Hrow row Hin) as (b & Hb' & He). rewrite Hm1 in He. symmetry in He.
      apply andb_true_iff in He as [Hc ->]. split; [|done]. unfold matching. by rewrite Hb'.
Qed.

(** What SELECT streams. *)
Lemma select_rows stmt proj cols :
  expandProjection schema (sel_cols stmt) = Ok (proj, cols) → plannable (sel_cond stmt) →
  decided schema (sel_cond stmt) rows → projects schema proj rows → 0 ≤ sel_offset stmt →
  ∃ plan it l r i desc, planScan schema (sel_cond stmt) = Ok plan ∧ Range tx schema (pl_req plan) = Ok it ∧
    l ≡ₚ filter (fun row => matching schema (sel_cond stmt) row = true) rows ∧ key_ordered schema i desc l ∧
    Rows (MkResult cols (Some (MkCursor schema plan proj it false
        (if sel_limit stmt <? 0 then -1 else sel_limit stmt) (sel_offset stmt) [] 0)) 0 None false) =
      Ok (r, (map (projected schema proj) (limited (sel_limit stmt) (drop (Z.to_nat (sel_offset stmt)) l)), None)).
Proof.
  intros Hexp Hplan Hdec Hproj Hoff.
  destruct (planScan_sound schema (ts_ok _ Hts) Hnames (sel_cond stmt) Hplan) as (plan & Ep & Hsound).
  destruct (plan_rows _ _ Hsound Hdec) as (it & l & desc & Hr & Hy & Hdl & Hsub & Hord & Hperm).
  destruct (rows_loop_spec schema plan proj cols (i_steps (ri_iter it)) l (MkCursor schema plan proj it false
    (if sel_limit stmt <? 0 then -1 else sel_limit stmt) (sel_offset stmt) [] 0)
    (if sel_limit stmt <? 0 then -1 else sel_limit stmt) (sel_offset stmt) []) as (r & E & He).
  - split; try done; [by exists it|]. by apply ryields_steps.
  - done.
  - intros row Hin. by apply Hproj, Hsub.
  - done.
  - by apply ryields_steps.
  - exists plan, it, (filter (fun row => matching schema (pl_residual plan) row = true) l), r, (Z.to_nat (rq_IndexNo (pl_req plan))), desc.
    split_and!; [done|done|done|by apply StronglySorted_filter|]. unfold Rows. cbn [sr_cursor cu_iter]. rewrite E. rs. rewrite He.
    do 5 f_equal. unfold limited. destruct (Z.ltb_spec (sel_limit stmt) 0) as [Hn|Hn]; [done|].
    by destruct (Z.ltb_spec (sel_limit stmt) 0); [lia|].
Qed.

End select.
