(* ===== verification/TableBatch.v ===== *)
(** * UPDATE and DELETE visit every matching row once

    [forEachMatch] applies its function to a permutation of the matching rows,
    in one planned batch or in batches along the primary key that resume behind
    the last row, while the function rewrites or removes the rows visited. *)

From Stdlib Require Import ZArith Lia.
From Stdlib.Strings Require Import Byte.
From stdpp Require Import base list numbers sorting.
From S2P Require Import Prelude GoLib SortedSeq Cell Row RowProofs Sql EvalProofs KVIterators Planner PlannerProofs.
From S2P Require Import TxKV Table TableProofs TableScan TableSelect.

Open Scope Z_scope.

Section batch.
Context (schema : Schema) (Hts : table_schema schema) (Hnames : NoDup (map col_Name (sc_Cols schema))).
Context `{TL : TxLaws T It}.
Context (rows : list Row) (Hrows : Forall (row_ok schema) rows) (Hpks : NoDup (map (pk schema) rows)).
Context (cond : option expr) (Hplan : plannable cond) (Hdec : decided schema cond rows).

Let Hok : schema_ok schema := ts_ok schema Hts.
Let key (row : Row) : bytes := key_of schema row 0.

Lemma idx0 : (0 < length (sc_Indices schema))%nat.
Proof. apply (so_indices _ Hok). Qed.

Lemma all_ok row : row ∈ rows → row_ok schema row.
Proof. rewrite Forall_forall in Hrows. apply Hrows. Qed.

Lemma pk_unique r1 r2 : r1 ∈ rows → r2 ∈ rows → pk schema r1 = pk schema r2 → r1 = r2.
Proof.
  intros H1 H2 Hpk. apply list_elem_of_lookup in H1 as [i Hi], H2 as [j Hj].
  assert (i = j) as ->; [|congruence]. eapply NoDup_lookup; [exact Hpks| |].
  - change (map (pk schema) rows) with (pk schema <$> rows). by rewrite list_lookup_fmap, Hi.
  - change (map (pk schema) rows) with (pk schema <$> rows). rewrite list_lookup_fmap, Hj. cbn. by rewrite Hpk.
Qed.

(** ** Resuming behind a row *)

Definition resume_req (last : option Row) : RangeReq :=
  match last with
  | None => fullScanReq
  | Some row => MkReq OP_GT OP_LE (pk schema row) [] 0
  end.

Definition behind (last : option Row) (row : Row) : bool :=
  match last with None => true | Some r => bytes_ltb (key r) (key row) end.

Lemma pk_prefix_ok row : row_ok schema row → prefix_ok schema (pkey_of schema) (pk schema row).
Proof.
  intros Hr. unfold prefix_ok, pk, index_cells. rewrite length_fmap, take_ge by done. apply Forall2_fmap_l, Forall_Forall2_diag.
  apply Forall_forall. intros idx Hidx.
  assert (pkey_of schema ∈ sc_Indices schema) as Hin by (eapply list_elem_of_lookup_2, (pkey_lookup schema Hts)).
  destruct (row_lookup schema row idx Hr) as (cell & col & Hcell & Hcol & Hc & Ht); [by apply (so_index _ Hok _ Hin)|].
  cbn. rewrite Hcell. split; [done|]. eauto.
Qed.

Lemma pk_length row : length (pk schema row) = length (pkey_of schema).
Proof. apply length_fmap. Qed.

Lemma resume_bounds last : (∀ r, last = Some r → row_ok schema r) →
  ∃ start stop, range_bounds schema (resume_req last) = Ok (start, stop, false) ∧
    ∀ row, row_ok schema row → covers start stop false (key row) = behind last row.
Proof.
  intros Hlast. pose proof (pkey_at schema Hts) as Hg. pose proof (pkey_lookup schema Hts) as Hl.
  assert (∀ op, isRangeOp op = true → bound_ok schema (pkey_of schema) op []) as Hnil.
  { intros op Hop. split; [done|cbn; lia|apply no_bound]. }
  destruct last as [r|]; cbn [resume_req behind].
  - specialize (Hlast r eq_refl).
    destruct (range_bounds_spec schema Hok (MkReq OP_GT OP_LE (pk schema r) [] 0) (pkey_of schema) Hg) as (start & stop & desc & E & Hc);
      [split; cbn [rq_StartCmp rq_Start]; [done|by rewrite pk_length|by apply pk_prefix_ok]|by apply Hnil|done|].
    assert (desc = false) as ->.
    { unfold range_bounds in E. cbn -[EncodeKeyPrefix] in E. apply bind_ok in E as (? & _ & E). apply bind_ok in E as (? & _ & E). congruence. }
    exists start, stop. split; [done|]. intros row Hr.
    rewrite (Hc row (key row) Hr (EncodeKey_key schema Hts row 0 Hr idx0)). cbn [rq_StartCmp rq_StopCmp rq_Start rq_Stop].
    rewrite (within_nil (pkey_of schema) OP_LE) by done. rewrite andb_true_r. unfold within.
    rewrite pk_length, <- (pk_length row), take_ge by done.
    pose proof (EncodeKey_compare schema Hok r row 0 (pkey_of schema) _ _ Hlast Hr Hg
      (EncodeKey_key schema Hts r 0 Hlast idx0) (EncodeKey_key schema Hts row 0 Hr idx0)) as Hk.
    fold (pk schema r) (pk schema row) in Hk. unfold bytes_ltb, key. rewrite Hk.
    change (index_cells row (pkey_of schema)) with (pk schema row). rewrite (cells_compare_antisym (pk schema row) (pk schema r)).
    + by destruct (cells_compare (pk schema r) (pk schema row)).
    + apply (index_cells_shape schema); [done|done|]. apply (so_index _ Hok). by eapply list_elem_of_lookup_2.
  - destruct (range_bounds_spec schema Hok fullScanReq (pkey_of schema) Hg) as (start & stop & desc & E & Hc); [by apply Hnil|by apply Hnil|done|].
    assert (desc = false) as ->.
    { unfold range_bounds in E. cbn -[EncodeKeyPrefix] in E. apply bind_ok in E as (? & _ & E). apply bind_ok in E as (? & _ & E). congruence. }
    exists start, stop. split; [done|]. intros row Hr.
    rewrite (Hc row (key row) Hr (EncodeKey_key schema Hts row 0 Hr idx0)). cbn [rq_StartCmp rq_StopCmp rq_Start rq_Stop fullScanReq].
    by rewrite !(within_nil (pkey_of schema)).
Qed.

(** ** The loop *)

Definition wanted (row : Row) : bool := matching schema cond row.
Definition want (l : list Row) : list Row := filter (fun row => wanted row = true) l.

Context {A : Type} (fn : T * A → Row → (T * A) * res unit) (I : list Row → T * A → Prop).

(** The function processes a wanted row that was not processed before. *)
Hypothesis fn_step : ∀ done st row, I done st → row ∈ rows → wanted row = true → row ∉ done →
  ∃ st', fn st row = (st', Ok tt) ∧ I (done ++ [row]) st'.

(** The transaction still holds the rows that were not processed, and no other
    rows with their keys. *)
Hypothesis I_rep : ∀ done st, I done st → (∀ row, row ∈ done → row ∈ rows) →
  ∃ m rows', means (fst st) m ∧ Rep schema m rows' ∧
    ∀ row, pk schema row ∉ map (pk schema) done → row ∈ rows' ↔ row ∈ rows.

Lemma apply_batch_spec batch : ∀ done st,
  I done st → (∀ row, row ∈ batch → row ∈ rows ∧ wanted row = true) → NoDup (done ++ batch) →
  ∃ st', apply_batch fn st batch = (st', Ok tt) ∧ I (done ++ batch) st'.
Proof.
  induction batch as [|row batch IH]; intros done st HI Hb Hnd; cbn [apply_batch].
  { exists st. by rewrite app_nil_r. }
  destruct (Hb row ltac:(by left)) as [Hin Hw].
  destruct (fn_step done st row HI Hin Hw) as (st1 & -> & HI1).
  { apply NoDup_app in Hnd as (_ & Hd & _). intros Hx. apply (Hd row Hx). by left. }
  cbn [bindS]. destruct (IH (done ++ [row]) st1 HI1) as (st2 & -> & HI2).
  - intros r Hr. apply Hb. by right.
  - by rewrite <- (assoc_L (++)).
  - exists st2. by rewrite <- (assoc_L (++)) in HI2.
Qed.

(** The wanted rows in the order of the primary key. *)
Definition in_order : list Row → Prop := key_ordered schema 0 false.

#[local] Instance key_antisymm : AntiSymm (=) (fun a b : Row => bytes_lt (key_of schema a 0) (key_of schema b 0)).
Proof. intros a b H1 H2. destruct (bytes_lt_irrefl (key_of schema a 0)). by etrans. Qed.

Lemma in_order_unique l1 l2 : in_order l1 → in_order l2 → l1 ≡ₚ l2 → l1 = l2.
Proof. apply StronglySorted_unique, _. Qed.

Lemma in_order_NoDup l : in_order l → NoDup l.
Proof.
  induction 1 as [|x l Hl IH Hx]; constructor; [|done]. intros Hin. rewrite Forall_forall in Hx.
  by apply Hx, bytes_lt_irrefl in Hin.
Qed.

Lemma order_split P R : in_order (P ++ R) → ∀ a b, a ∈ P → b ∈ R → bytes_lt (key a) (key b).
Proof.
  unfold in_order, key_ordered. induction P as [|x P IH]; cbn [app]; intros Hs a b Ha Hb; [by apply not_elem_of_nil in Ha|].
  apply StronglySorted_inv in Hs as [Hs Hx]. rewrite Forall_forall in Hx.
  apply elem_of_cons in Ha as [->|Ha]; [|by apply IH]. apply Hx, elem_of_app. by right.
Qed.

Lemma order_app_r P R : in_order (P ++ R) → in_order R.
Proof. induction P as [|x P IH]; [done|]. cbn [app]. intros [Hs _]%StronglySorted_inv. by apply IH. Qed.

(** The last row of an ordered list is behind none of it. *)
Lemma last_max P r row : in_order P → last P = Some r → row ∈ P → ¬ bytes_lt (key r) (key row).
Proof.
  intros Ho Hl Hin. apply last_Some in Hl as [P' ->]. apply elem_of_app in Hin as [Hin| ->%list_elem_of_singleton].
  - intros Hlt. assert (r ∈ [r]) as Hr by (by left).
    pose proof (order_split P' [r] Ho row r Hin Hr) as Hlt'. destruct (bytes_lt_irrefl (key r)). by etrans.
  - apply bytes_lt_irrefl.
Qed.

Lemma order_app_l P R : in_order (P ++ R) → in_order P.
Proof.
  unfold in_order, key_ordered. induction P as [|x P IH]; [constructor|]. cbn [app]. intros [Hs Hx]%StronglySorted_inv.
  constructor; [by apply IH|]. by apply Forall_app in Hx as [? _].
Qed.

Lemma key_pk r1 r2 : row_ok schema r1 → row_ok schema r2 → pk schema r1 = pk schema r2 → key r1 = key r2.
Proof.
  intros H1 H2 Hpk. unfold key. rewrite !(key_of_bytes schema Hts _ 0 (pkey_of schema)) by (done || apply (pkey_at schema Hts)).
  unfold pk in Hpk. by rewrite Hpk.
Qed.

(** One batch: the wanted rows ahead of the processed ones. *)
Lemma collect_ahead P R st :
  in_order (P ++ R) → P ++ R ≡ₚ want rows → I P st →
  collectBatch (fst st) schema (MkPlan fullScanReq cond false) (pk schema <$> last P) =
    Ok (if (mutateBatchSize <=? length R)%nat then (take mutateBatchSize R, false) else (R, true)).
Proof.
  intros Hord Hperm HI.
  assert (∀ row, row ∈ P ++ R ↔ row ∈ rows ∧ wanted row = true) as Hmem.
  { intros row. rewrite Hperm. unfold want. rewrite list_elem_of_filter. tauto. }
  assert (∀ row, row ∈ P → row ∈ rows) as HP by (intros row Hr; apply Hmem, elem_of_app; by left).
  destruct (I_rep P st HI HP) as (m & rows' & Hm & HR & Hsame).
  assert (∀ r, last P = Some r → r ∈ P) as Hlast by (intros r Hr; by eapply last_Some_elem_of).
  destruct (resume_bounds (last P)) as (start & stop & Hb & Hcov); [intros r Hr; by apply all_ok, HP, Hlast|].
  destruct (Range_rows schema Hts (fst st) m rows' Hm HR _ _ _ _ Hb) as (it & l & Hr & Hy & Ho & Hnd & Hl).
  assert (Z.to_nat (rq_IndexNo (resume_req (last P))) = 0%nat) as E0 by (by destruct (last P)). rewrite E0 in *. unfold key in Hcov.
  assert (∀ row, row_ok schema row → behind (last P) row = true → pk schema row ∉ map (pk schema) P) as Hfresh.
  { intros row Hrok Hbe Hin. apply list_elem_of_In, in_map_iff in Hin as (r & Hpk & Hin). apply list_elem_of_In in Hin.
    destruct (last P) as [r0|] eqn:E; [|apply last_None in E as ->; by apply not_elem_of_nil in Hin].
    cbn [behind] in Hbe. apply bytes_ltb_lt in Hbe.
    rewrite <- (key_pk r row (all_ok _ (HP _ Hin)) Hrok Hpk) in Hbe.
    by apply (last_max P r0 r (order_app_l _ _ Hord) E Hin). }
  assert (∀ row, row ∈ l ↔ row ∈ rows ∧ behind (last P) row = true) as Hl'.
  { intros row. rewrite Hl. split.
    - intros [Hin Hc]. pose proof (rep_row schema _ _ _ HR Hin) as Hrok. rewrite Hcov in Hc by done.
      split; [|done]. by apply Hsame; [apply Hfresh|].
    - intros [Hin Hbe]. pose proof (all_ok _ Hin) as Hrok. rewrite Hcov by done. split; [|done].
      by apply Hsame; [apply Hfresh|]. }
  assert (want l = R) as HRl.
  { apply in_order_unique; [apply StronglySorted_filter; by apply (scan_key_ordered schema 0 false)|by eapply order_app_r|].
    apply NoDup_Permutation; [by apply NoDup_filter|by eapply in_order_NoDup, order_app_r|]. intros row.
    unfold want. rewrite list_elem_of_filter, Hl'. split.
    - intros (Hw & Hin & Hbe). pose proof (proj2 (Hmem row) (conj Hin Hw)) as Hx. apply elem_of_app in Hx as [Hx|Hx]; [|done].
      exfalso. apply (Hfresh row (all_ok _ Hin) Hbe). by apply list_elem_of_In, in_map, list_elem_of_In.
    - intros Hx. assert (row ∈ rows ∧ wanted row = true) as [Hin Hw] by (apply Hmem, elem_of_app; by right).
      split; [done|]. split; [done|]. destruct (last P) as [r|] eqn:E; [|done]. cbn [behind].
      apply bytes_ltb_lt, (order_split P R Hord); [by apply Hlast|done]. }
  unfold collectBatch. cbn [pl_req pl_residual].
  assert ((match pk schema <$> last P with Some cells => MkReq OP_GT (rq_StopCmp fullScanReq) cells (rq_Stop fullScanReq) (rq_IndexNo fullScanReq)
    | None => fullScanReq end) = resume_req (last P)) as -> by (by destruct (last P)).
  rewrite Hr. rs. rewrite (collect_rows_spec schema cond it l Hy).
  - cbn [app]. change (filter _ l) with (want l). by rewrite HRl.
  - intros row [Hin _]%Hl'. by apply Hdec.
  - by apply ryields_steps.
  - cbn. unfold mutateBatchSize. lia.
Qed.

Lemma pkeyCells_pk row : row_ok schema row → pkeyCells schema row = Ok (pk schema row).
Proof.
  intros Hr. unfold pkeyCells. rewrite (pkey_at schema Hts). rs. unfold pk, index_cells.
  assert (∀ idx, idx ∈ pkey_of schema → 0 ≤ idx < Z.of_nat (length (sc_Cols schema))) as Hin.
  { apply (so_index _ Hok). eapply list_elem_of_lookup_2, (pkey_lookup schema Hts). }
  induction (pkey_of schema) as [|idx l IH]; [done|]. cbn [mapM_res fmap list_fmap].
  destruct (row_lookup schema row idx Hr) as (cell & col & Hcell & _); [apply Hin; by left|].
  rewrite (go_at_ok _ _ _ ltac:(apply Hin; by left) Hcell). rs. rewrite IH by (intros; apply Hin; by right). by rewrite Hcell.
Qed.

Lemma batch_loop_spec fuel : ∀ P R st,
  in_order (P ++ R) → P ++ R ≡ₚ want rows → I P st → (length R ≤ fuel)%nat →
  ∃ st', batch_loop fn fuel schema cond (pk schema <$> last P) st = (st', Ok tt) ∧ I (P ++ R) st'.
Proof.
  induction fuel as [|fuel IH]; intros P R st Hord Hperm HI Hf.
  all: assert (NoDup (P ++ R)) as Hnd by (by apply in_order_NoDup).
  all: assert (∀ row, row ∈ R → row ∈ rows ∧ wanted row = true) as HRin
    by (intros row Hr; assert (row ∈ want rows) as Hx by (rewrite <- Hperm; apply elem_of_app; by right);
        unfold want in Hx; apply list_elem_of_filter in Hx; tauto).
  all: cbn [batch_loop]; rewrite (collect_ahead P R st Hord Hperm HI), bindS_Ok.
  { destruct R; [|cbn in Hf; lia]. cbn. exists st. by rewrite app_nil_r. }
  destruct (Nat.leb_spec mutateBatchSize (length R)) as [Hfull|Hpart].
  - assert (R ≠ []) as Hne by (destruct R; [unfold mutateBatchSize in Hfull; cbn in Hfull; lia|done]).
    pose proof (take_drop mutateBatchSize R) as Htd. set (B := take mutateBatchSize R) in *. set (R' := drop mutateBatchSize R) in *.
    assert (length B = mutateBatchSize) as HB by (unfold B; rewrite length_take; lia).
    destruct (last B) as [r|] eqn:El; [|apply last_None in El; rewrite El in HB; done].
    assert (∀ row, row ∈ B → row ∈ rows ∧ wanted row = true) as HBin.
    { intros row Hx. apply HRin. rewrite <- Htd. apply elem_of_app. by left. }
    rewrite pkeyCells_pk by (apply all_ok, HBin; by eapply last_Some_elem_of). rewrite bindS_Ok.
    destruct (apply_batch_spec B P st HI HBin) as (st1 & -> & HI1).
    { rewrite <- Htd, (assoc_L (++)) in Hnd. by apply NoDup_app in Hnd as (? & _). }
    rewrite bindS_Ok. assert (last (P ++ B) = Some r) as HlPB by (rewrite last_app, El; done).
    destruct (IH (P ++ B) R' st1) as (st2 & E & HI2).
    + by rewrite <- (assoc_L (++)), Htd.
    + by rewrite <- (assoc_L (++)), Htd.
    + done.
    + unfold R'. rewrite length_drop. unfold mutateBatchSize. lia.
    + rewrite HlPB in E. cbn in E. exists st2. rewrite <- (assoc_L (++)), Htd in HI2. split; [exact E|done].
  - destruct (last R) as [r|] eqn:El; [|apply last_None in El as ->; exists st; by rewrite app_nil_r].
    rewrite pkeyCells_pk by (apply all_ok, HRin; by eapply last_Some_elem_of). rewrite bindS_Ok.
    destruct (apply_batch_spec R P st HI HRin Hnd) as (st1 & -> & HI1). rewrite bindS_Ok. eauto.
Qed.

Lemma rows_NoDup' : NoDup rows.
Proof. eapply (NoDup_fmap_1 (pk schema)), Hpks. Qed.

(** The wanted rows in the order of the primary key, as a full scan finds them. *)
Lemma full_order st : I [] st →
  ∃ R, in_order R ∧ R ≡ₚ want rows ∧ (length R ≤ batch_fuel (fst st) schema)%nat.
Proof.
  intros HI. destruct (I_rep [] st HI) as (m & rows' & Hm & HR & Hsame); [intros row Hx; by apply not_elem_of_nil in Hx|].
  destruct (resume_bounds None) as (start & stop & Hb & Hcov); [done|].
  destruct (Range_rows schema Hts (fst st) m rows' Hm HR _ _ _ _ Hb) as (it & l & Hr & Hy & Ho & Hnd & Hl).
  exists (want l). split_and!.
  - apply StronglySorted_filter. by apply (scan_key_ordered schema 0 false).
  - apply NoDup_Permutation; [by apply NoDup_filter|apply NoDup_filter, rows_NoDup'|]. intros row. unfold want.
    rewrite !list_elem_of_filter, Hl. split.
    + intros (Hw & Hin & _). split; [done|]. by apply Hsame; [apply not_elem_of_nil|].
    + intros (Hw & Hin). split; [done|]. split; [by apply Hsame; [apply not_elem_of_nil|]|].
      apply (Hcov row). by apply all_ok.
  - unfold batch_fuel. change fullScanReq with (resume_req None). rewrite Hr. etrans; [apply length_filter|by apply ryields_steps].
Qed.

(** Every matching row is processed exactly once. *)
Lemma forEachMatch_spec st : I [] st →
  ∃ L st', L ≡ₚ want rows ∧ forEachMatch fn schema cond st = (st', Ok tt) ∧ I L st'.
Proof.
  intros HI. destruct (I_rep [] st HI) as (m & rows' & Hm & HR & Hsame); [intros row Hx; by apply not_elem_of_nil in Hx|].
  assert (∀ row, row ∈ rows' ↔ row ∈ rows) as Heq by (intros row; apply Hsame, not_elem_of_nil).
  destruct (planScan_sound schema Hok Hnames cond Hplan) as (plan & Ep & Hsound).
  assert (decided schema cond rows') as Hdec' by (intros row Hin%Heq; by apply Hdec).
  destruct (plan_rows schema Hts (fst st) m rows' Hm HR cond plan Hsound Hdec') as (it & l & desc & Hr & Hy & Hdl & Hsub & _ & Hperm).
  assert (filter (fun row => matching schema (pl_residual plan) row = true) l ≡ₚ want rows) as Hw.
  { rewrite Hperm. apply NoDup_Permutation; [eapply NoDup_filter, rows_NoDup, HR|apply NoDup_filter, rows_NoDup'|].
    intros row. unfold want, wanted. rewrite !list_elem_of_filter, Heq. done. }
  unfold forEachMatch. rewrite Ep, bindS_Ok. unfold collectBatch at 1. rewrite Hr. rs.
  rewrite (collect_rows_spec schema _ it l Hy Hdl) by (by apply ryields_steps || (cbn; unfold mutateBatchSize; lia)).
  cbn [app]. rewrite bindS_Ok. destruct (mutateBatchSize <=? _)%nat.
  - destruct (full_order st HI) as (R & Hord & HRp & Hfuel).
    destruct (batch_loop_spec (batch_fuel (fst st) schema) [] R st Hord HRp HI Hfuel) as (st' & E & HI'). eauto.
  - destruct (apply_batch_spec (filter (fun row => matching schema (pl_residual plan) row = true) l) [] st HI) as (st' & -> & HI').
    + intros row Hin. rewrite Hw in Hin. unfold want in Hin. apply list_elem_of_filter in Hin. tauto.
    + cbn [app]. rewrite Hw. apply NoDup_filter, rows_NoDup'.
    + eauto.
Qed.

End batch.
