(* ===== verification/TableStmt.v ===== *)
(** * What the statements do to a table

    INSERT, UPDATE, DELETE, CREATE TABLE and DROP TABLE of db/table.go as
    changes of the set of rows. *)

From Stdlib Require Import ZArith Lia.
From Stdlib.Strings Require Import Byte.
From stdpp Require Import base list numbers.
From S2P Require Import Prelude GoLib SortedSeq Cell Row RowProofs Entry Sql EvalProofs KVIterators Planner PlannerProofs.
From S2P Require Import TxKV Table TableProofs TableScan TableSelect TableBatch.

Open Scope Z_scope.

(** ** Evaluation yields well-formed cells *)

Lemma evalBinOp_ok op a b c : evalBinOp op a b = Ok c → cell_ok c.
Proof.
  unfold evalBinOp. cbv zeta. case_if; [done|]. case_if.
  { intros H. apply bind_ok in H as (r & _ & [= <-]). apply boolCell_ok. }
  repeat case_if; try done; intros [= <-]; try apply int_ok; try apply boolCell_ok.
  right. split_and!; [done|done|]. cbn [c_str]. rewrite length_app.
  match goal with H : (MaxEntrySize <? _) = false |- _ => apply Z.ltb_ge in H; unfold MaxEntrySize in H end. lia.
Qed.

Lemma evalUnOp_ok op a c : evalUnOp op a = Ok c → cell_ok c.
Proof. unfold evalUnOp. repeat case_if; try done; intros [= <-]; [apply int_ok|apply boolCell_ok]. Qed.

Lemma eval_cell_ok schema row e : ∀ d c,
  row_ok schema row → lits_ok e → evalExprAt schema row e d = Ok c → cell_ok c.
Proof.
  destruct e as [n|cell|op k|op l r|ks|]; intros d c Hr Hl; cbn [evalExprAt]; case_if; try done.
  - destruct (index_col _ n) as [i|]; [|done]. intros Hc%go_index_ok. destruct (Forall2_lookup_l _ _ _ _ _ Hr Hc) as (col & _ & ? & _). done.
  - by intros [= <-].
  - intros H. apply bind_ok in H as (x & _ & H). by eapply evalUnOp_ok.
  - assert (∀ m1 m2 : res Cell, (x ← m1; y ← m2; evalBinOp op x y) = Ok c → cell_ok c) as Hs.
    { intros m1 m2 H. apply bind_ok in H as (x & _ & H). apply bind_ok in H as (y & _ & H). by eapply evalBinOp_ok. }
    case_if; [|apply Hs]. destruct l, r; try (apply Hs); try done.
    unfold evalTupleCmp. case_if; [done|]. intros H. apply bind_ok in H as (x & _ & [= <-]). apply boolCell_ok.
Qed.

(** ** Sets of rows *)

Lemma rep_same schema m rows1 rows2 :
  Rep schema m rows1 → (∀ r, r ∈ rows1 ↔ r ∈ rows2) → NoDup (map (pk schema) rows2) → Rep schema m rows2.
Proof.
  intros HR Heq Hnd. split; [|done|].
  - apply Forall_forall. intros r Hr%Heq. by eapply rep_row.
  - intros k v Hk. rewrite (rep_iff _ _ _ HR) by done. split; intros (row & Hin & He); exists row; (split; [by apply Heq|done]).
Qed.

Lemma NoDup_pk_filter schema (P : Row → Prop) `{!∀ r, Decision (P r)} rows :
  NoDup (map (pk schema) rows) → NoDup (map (pk schema) (filter P rows)).
Proof.
  induction rows as [|r rows IH]; [done|]. cbn [map]. intros [Hr Hn]%NoDup_cons. rewrite filter_cons.
  case_decide; [|by apply IH]. cbn [map]. apply NoDup_cons. split; [|by apply IH]. intros Hin. destruct Hr.
  apply list_elem_of_In, in_map_iff in Hin as (x & Hx & Hin). apply list_elem_of_In, list_elem_of_filter in Hin as [_ Hin].
  rewrite <- Hx. by apply list_elem_of_In, in_map, list_elem_of_In.
Qed.

Section stmts.
Context (schema : Schema) (Hts : table_schema schema) (Hnames : NoDup (map col_Name (sc_Cols schema))).
Context {T It : Type} {Rops : RangeOps It} {Tops : TxOps T It} {TL : TxLaws T It}.

Let Hok : schema_ok schema := ts_ok schema Hts.

(** ** DELETE *)

Section delete.
Context (m0 : list ent) (rows : list Row) (cond : option expr) (HR0 : Rep schema m0 rows).
Context (Hplan : plannable cond) (Hdec : decided schema cond rows).

(** The rows processed so far are gone. *)
Definition deleted_inv (count : bool) (done : list Row) (st : T * Z) : Prop :=
  (∀ r, r ∈ done → r ∈ rows) ∧
  ∃ m rows', means (fst st) m ∧ Rep schema m rows' ∧ frame schema m0 m ∧
    (∀ r, r ∈ rows' ↔ r ∈ rows ∧ pk schema r ∉ map (pk schema) done) ∧
    snd st = if count then Z.of_nat (length done) else 0.

Lemma deleted_step (count : bool) (done : list Row) (st : T * Z) (row : Row) (fn : T * Z → Row → (T * Z) * res unit) :
  (∀ (st : T * Z) (row : Row) (t : T), Delete (fst st) schema row = (t, Ok true) → fn st row = ((t, if count then snd st + 1 else snd st), Ok tt)) →
  deleted_inv count done st → row ∈ rows → row ∉ done →
  ∃ st', fn st row = (st', Ok tt) ∧ deleted_inv count (done ++ [row]) st'.
Proof.
  intros Hfn (Hsub & m & rows' & Hm & HR & HF & Hmem & Hn) Hin Hnd.
  assert (row ∈ rows') as Hin'.
  { apply Hmem. split; [done|]. intros Hx. apply list_elem_of_In, in_map_iff in Hx as (r & Hpk & Hr). apply list_elem_of_In in Hr.
    destruct Hnd. by rewrite <- (rep_unique schema _ _ _ _ HR0 (Hsub _ Hr) Hin Hpk). }
  destruct (delete_nested schema Hts (fst st) m rows' row Hm HR Hin') as (t' & m' & E & Hm' & HR' & HF').
  eexists. split; [by apply Hfn|].
  split; [intros r [Hr| ->%list_elem_of_singleton]%elem_of_app; [by apply Hsub|done]|].
  exists m', (others schema rows' (pk schema row)). cbn [fst snd]. split_and!; [done|done| | |].
  - intros k Hk. by rewrite (HF' k Hk), (HF k Hk).
  - intros r. unfold others. rewrite list_elem_of_filter, Hmem, map_app, not_elem_of_app. cbn [map].
    rewrite list_elem_of_singleton. tauto.
  - rewrite Hn, length_app. destruct count; [cbn; lia|done].
Qed.

Lemma deleted_rep count done st : deleted_inv count done st →
  ∃ m rows', means (fst st) m ∧ Rep schema m rows' ∧
    ∀ row, pk schema row ∉ map (pk schema) done → row ∈ rows' ↔ row ∈ rows.
Proof. intros (_ & m & rows' & Hm & HR & _ & Hmem & _). exists m, rows'. split_and!; [done..|]. intros row Hx. rewrite Hmem. tauto. Qed.

Lemma deleted_start t (Hm : means t m0) count : deleted_inv count [] (t, 0).
Proof.
  split; [intros r Hr; by apply not_elem_of_nil in Hr|]. exists m0, rows. split_and!; [done|done|done| |by destruct count].
  intros r. cbn [map]. split; [intros Hr; split; [done|apply not_elem_of_nil]|tauto].
Qed.

(** Deleting every matching row leaves the others. *)
Lemma delete_matching (count : bool) (fn : T * Z → Row → (T * Z) * res unit) t :
  (∀ (st : T * Z) (row : Row) (t : T), Delete (fst st) schema row = (t, Ok true) →
     fn st row = ((t, if count then snd st + 1 else snd st), Ok tt)) →
  means t m0 →
  ∃ t' m', forEachMatch fn schema cond (t, 0) =
      ((t', if count then Z.of_nat (length (filter (fun r => matching schema cond r = true) rows)) else 0), Ok tt) ∧
    means t' m' ∧ Rep schema m' (filter (fun r => matching schema cond r = false) rows) ∧ frame schema m0 m'.
Proof.
  intros Hfn Hm.
  destruct (forEachMatch_spec schema Hts Hnames rows (rep_rows _ _ _ HR0) (rep_pk _ _ _ HR0) cond Hplan Hdec
    fn (deleted_inv count)) with (st := (t, 0)) as (L & [t' n] & HL & E & _ & m' & rows' & Hm' & HR' & HF & Hmem & Hn).
  - intros done st row HI Hin _ Hnd. by eapply deleted_step.
  - intros done st HI _. by eapply deleted_rep.
  - by apply deleted_start.
  - cbn [fst snd] in *. subst n. exists t', m'. split; [rewrite E, HL; done|]. split; [done|]. split; [|done].
    apply (rep_same _ _ rows'); [done| |apply NoDup_pk_filter, HR0]. intros r. rewrite Hmem, list_elem_of_filter. split.
    + intros [Hin Hnot]. split; [|done]. apply not_true_iff_false. intros Hw. destruct Hnot.
      apply list_elem_of_In, in_map, list_elem_of_In. rewrite HL. unfold want. by apply list_elem_of_filter.
    + intros [Hw Hin]. split; [done|]. intros Hx. apply list_elem_of_In, in_map_iff in Hx as (r' & Hpk & Hr'). apply list_elem_of_In in Hr'.
      rewrite HL in Hr'. unfold want, wanted in Hr'. apply list_elem_of_filter in Hr' as [Hw' Hin'].
      rewrite (rep_unique schema _ _ _ _ HR0 Hin' Hin Hpk) in Hw'. congruence.
Qed.

End delete.

(** ** UPDATE *)

(** The cells of the assignments, and the row with them in place. *)
Definition assigned (value : list ExprAssign) (row : Row) : res Row :=
  updates ← mapM_res (fun a => cell ← evalExpr schema row (as_expr a); Ok (as_column a, cell)) value;
  fillNonPKey schema updates row.

Lemma index_cells_insert (row : Row) (idx : nat) (c : Cell) (index : list Z) :
  Z.of_nat idx ∉ index → (∀ i, i ∈ index → 0 ≤ i) → index_cells (<[idx := c]> row) index = index_cells row index.
Proof.
  intros Hni Hpos. unfold index_cells. induction index as [|i index IH]; [done|]. cbn [fmap list_fmap].
  apply not_elem_of_cons in Hni as [Hne Hni]. f_equal; [|apply IH; [done|intros; apply Hpos; by right]].
  assert (0 ≤ i) by (apply Hpos; by left). rewrite list_lookup_insert_ne; [done|]. intros ->. by rewrite Z2Nat.id in Hne.
Qed.

Lemma fill_ok updates : ∀ row row',
  row_ok schema row → Forall (fun u => cell_ok (snd u)) updates → fillNonPKey schema updates row = Ok row' →
  row_ok schema row' ∧ pk schema row' = pk schema row.
Proof.
  induction updates as [|[column value] updates IH]; intros row row' Hr Hu; cbn [fillNonPKey foldM]; [by intros [= <-]|].
  apply Forall_cons in Hu as [Hc Hu]. cbn [snd] in Hc. intros H. apply bind_ok in H as (row1 & Hstep & H).
  destruct (index_col _ column) as [idx|]; [|done]. apply bind_ok in Hstep as (col & Hcol%go_index_ok & Hstep).
  destruct (bool_decide_reflect (col_Type col = c_type value)) as [Ht|]; [|done]. cbn [negb] in Hstep.
  rewrite (pkey_at schema Hts) in Hstep. cbn [mbind res_bind] in Hstep.
  destruct (bool_decide_reflect (Z.of_nat idx ∈ pkey_of schema)) as [|Hni]; [done|].
  apply bind_ok in Hstep as (old & _ & [= <-]).
  assert (row_ok schema (<[idx := value]> row)) as Hr1.
  { unfold row_ok. rewrite <- (list_insert_id (sc_Cols schema) idx col Hcol). by apply Forall2_insert. }
  destruct (IH _ _ Hr1 Hu H) as [Hr' Hpk]. split; [done|]. rewrite Hpk. unfold pk. apply index_cells_insert; [done|].
  intros i Hi. eapply (so_index _ Hok (pkey_of schema)); [|done]. eapply list_elem_of_lookup_2, (pkey_lookup schema Hts).
Qed.

Lemma assigned_ok value row row' :
  row_ok schema row → Forall (fun a => lits_ok (as_expr a)) value → assigned value row = Ok row' →
  row_ok schema row' ∧ pk schema row' = pk schema row.
Proof.
  intros Hr Hv H. unfold assigned in H. apply bind_ok in H as (updates & Hu & H).
  eapply fill_ok; [done| |exact H]. clear H. revert updates Hu. induction Hv as [|a value Ha _ IH]; intros updates; cbn [mapM_res].
  - by intros [= <-].
  - intros H. apply bind_ok in H as (u & H1 & H). apply bind_ok in H as (us & H2 & [= <-]).
    apply bind_ok in H1 as (cell & Hc & [= <-]). constructor; [by eapply eval_cell_ok|by apply IH].
Qed.

Section update.
Context (m0 : list ent) (rows : list Row) (cond : option expr) (HR0 : Rep schema m0 rows).
Context (Hplan : plannable cond) (Hdec : decided schema cond rows).
Context (value : list ExprAssign) (Hlits : Forall (fun a => lits_ok (as_expr a)) value).
Context (new : Row → Row) (Hnew : ∀ row, row ∈ rows → matching schema cond row = true → assigned value row = Ok (new row)).

Definition updated_row (done : list Row) (r : Row) : Row := if bool_decide (r ∈ done) then new r else r.
Definition changes (l : list Row) : list Row := filter (fun r => new r ≠ r) l.

Definition updated_inv (done : list Row) (st : T * Z) : Prop :=
  (∀ r, r ∈ done → r ∈ rows ∧ matching schema cond r = true) ∧
  ∃ m rows', means (fst st) m ∧ Rep schema m rows' ∧ frame schema m0 m ∧
    (∀ r, r ∈ rows' ↔ ∃ r0, r0 ∈ rows ∧ r = updated_row done r0) ∧ snd st = Z.of_nat (length (changes done)).

Lemma new_ok row : row ∈ rows → matching schema cond row = true → row_ok schema (new row) ∧ pk schema (new row) = pk schema row.
Proof. intros Hin Hw. eapply assigned_ok; [by eapply rep_row|exact Hlits|by apply Hnew]. Qed.

Lemma updated_pk done r : (∀ r, r ∈ done → r ∈ rows ∧ matching schema cond r = true) → pk schema (updated_row done r) = pk schema r.
Proof. intros Hd. unfold updated_row. case_bool_decide; [|done]. by apply new_ok; apply Hd. Qed.

Lemma updated_rep done st : updated_inv done st →
  ∃ m rows', means (fst st) m ∧ Rep schema m rows' ∧
    ∀ row, pk schema row ∉ map (pk schema) done → row ∈ rows' ↔ row ∈ rows.
Proof.
  intros (Hd & m & rows' & Hm & HR & _ & Hmem & _). exists m, rows'. split_and!; [done..|]. intros row Hx.
  assert (∀ r, pk schema r = pk schema row → r ∉ done) as Hnot.
  { intros r Hpk Hr. destruct Hx. rewrite <- Hpk. by apply list_elem_of_In, in_map, list_elem_of_In. }
  rewrite Hmem. split.
  - intros (r0 & Hin & ->). rewrite (updated_pk done r0 Hd) in Hnot. unfold updated_row. rewrite bool_decide_false; [done|by apply Hnot].
  - intros Hin. exists row. split; [done|]. unfold updated_row. rewrite bool_decide_false; [done|by apply Hnot].
Qed.

Lemma updated_members done m rows' row :
  (∀ r, r ∈ done → r ∈ rows ∧ matching schema cond r = true) → Rep schema m rows' →
  (∀ r, r ∈ rows' ↔ ∃ r0, r0 ∈ rows ∧ r = updated_row done r0) → row ∈ rows → row ∈ rows' → ∀ r,
  r ∈ (if bool_decide (new row ≠ row) then new row :: others schema rows' (pk schema row) else rows') ↔
    ∃ r0, r0 ∈ rows ∧ r = updated_row (done ++ [row]) r0.
Proof.
  intros Hd HR Hmem Hin Hin' r.
  assert (∀ r0, r0 ∈ rows → pk schema r0 ≠ pk schema row → updated_row (done ++ [row]) r0 = updated_row done r0) as Hsame.
  { intros r0 Hr0 Hne. unfold updated_row.
    rewrite (bool_decide_ext (r0 ∈ done ++ [row]) (r0 ∈ done)); [done|]. rewrite elem_of_app, list_elem_of_singleton.
    split; [intros [?|?]; [done|congruence]|by left]. }
  assert (updated_row (done ++ [row]) row = new row) as Hrow.
  { unfold updated_row. rewrite bool_decide_true; [done|]. apply elem_of_app. right. by left. }
  assert (r ∈ rows' ∧ pk schema r ≠ pk schema row ↔ ∃ r0, r0 ∈ rows ∧ pk schema r0 ≠ pk schema row ∧ r = updated_row (done ++ [row]) r0) as Hoth.
  { rewrite Hmem. split.
    - intros [(r0 & Hr0 & ->) Hne]. rewrite (updated_pk done r0 Hd) in Hne. exists r0. split; [done|]. split; [done|]. by rewrite Hsame.
    - intros (r0 & Hr0 & Hne & ->). rewrite Hsame by done. split; [eauto|]. by rewrite (updated_pk done r0 Hd). }
  case_bool_decide as Hch.
  + rewrite elem_of_cons. unfold others. rewrite list_elem_of_filter. split.
    * intros [->|[Hne Hr]]; [exists row; by rewrite Hrow|]. destruct (proj1 Hoth (conj Hr Hne)) as (r0 & ? & _ & ?). eauto.
    * intros (r0 & Hr0 & ->). destruct (decide (pk schema r0 = pk schema row)) as [Hpk|Hpk].
      -- left. by rewrite (rep_unique schema _ _ _ _ HR0 Hr0 Hin Hpk).
      -- right. destruct (proj2 Hoth) as [? ?]; [eauto|]. done.
  + assert (new row = row) as Heq by (destruct (decide (new row = row)); [done|tauto]).
    split.
    * intros Hr. destruct (decide (pk schema r = pk schema row)) as [Hpk|Hpk].
      -- rewrite (rep_unique schema _ _ _ _ HR Hr Hin' Hpk). exists row. by rewrite Hrow, Heq.
      -- destruct (proj1 Hoth (conj Hr Hpk)) as (r0 & ? & _ & ?). eauto.
    * intros (r0 & Hr0 & ->). destruct (decide (pk schema r0 = pk schema row)) as [Hpk|Hpk].
      -- rewrite (rep_unique schema _ _ _ _ HR0 Hr0 Hin Hpk), Hrow. by rewrite Heq.
      -- destruct (proj2 Hoth) as [? ?]; [eauto|]. done.
Qed.

Lemma updated_step done st row : updated_inv done st → row ∈ rows → matching schema cond row = true → row ∉ done →
  ∃ st', update_row schema value st row = (st', Ok tt) ∧ updated_inv (done ++ [row]) st'.
Proof.
  intros (Hd & m & rows' & Hm & HR & HF & Hmem & Hn) Hin Hw Hnd.
  destruct (new_ok row Hin Hw) as [Hnok Hnpk].
  assert (row ∈ rows') as Hin' by (apply Hmem; exists row; split; [done|]; unfold updated_row; by rewrite bool_decide_false).
  pose proof (Hnew row Hin Hw) as Ha. unfold assigned in Ha. apply bind_ok in Ha as (updates & Hu & Hf).
  destruct (update_nested schema Hts (fst st) m rows' (new row) ModeUpdate Hm HR Hnok) as (t' & m' & E & Hm' & HR' & HF').
  { by right; right. }
  rewrite Hnpk, (find_row_elem schema m) in E, HR' by done.
  assert (row_updates ModeUpdate (Some row) (new row) = bool_decide (new row ≠ row)) as Eu.
  { unfold row_updates. cbn. apply bool_decide_ext. split; [intros [_ Hne] He; apply Hne; congruence|intros Hne; split; [done|congruence]]. }
  rewrite Eu in E, HR'. eexists. split.
  { unfold update_row. rewrite Hu, bindS_Ok, Hf, bindS_Ok. change (nested_op (fst st) (λ tx, update tx schema (new row) ModeUpdate))
      with (Update (fst st) schema (new row)) in E. rewrite E, bindS_Ok. done. }
  split. { intros r [Hr| ->%list_elem_of_singleton]%elem_of_app; [by apply Hd|done]. }
  eexists m', _. cbn [fst snd]. split; [done|]. split; [exact HR'|]. split; [|split].
  - intros k Hk. by rewrite (HF' k Hk), (HF k Hk).
  - by eapply updated_members.
  - rewrite Hn. unfold changes. rewrite filter_app, length_app, filter_cons. case_bool_decide as Hch.
    + rewrite decide_True by tauto. cbn. lia.
    + rewrite decide_False by tauto. cbn. lia.
Qed.

Lemma updated_start t (Hm : means t m0) : updated_inv [] (t, 0).
Proof.
  split; [intros r Hr; by apply not_elem_of_nil in Hr|]. exists m0, rows. split_and!; [done|done|done| |done].
  intros r. unfold updated_row. split.
  - intros Hr. exists r. split; [done|]. rewrite bool_decide_false; [done|apply not_elem_of_nil].
  - intros (r0 & Hr0 & ->). rewrite bool_decide_false; [done|apply not_elem_of_nil].
Qed.

(** The table after the statement. *)
Definition after_update : list Row := map (fun r => if matching schema cond r then new r else r) rows.

Lemma after_update_pk : map (pk schema) after_update = map (pk schema) rows.
Proof.
  unfold after_update. rewrite map_map. apply map_ext_in. intros r Hr%list_elem_of_In.
  destruct (matching schema cond r) eqn:Em; [|done]. by apply new_ok.
Qed.

(** Updating every matching row; rows that stay the same are not counted. *)
Lemma update_matching t : means t m0 →
  ∃ t' m', forEachMatch (update_row schema value) schema cond (t, 0) =
      ((t', Z.of_nat (length (changes (filter (fun r => matching schema cond r = true) rows)))), Ok tt) ∧
    means t' m' ∧ Rep schema m' after_update ∧ frame schema m0 m'.
Proof.
  intros Hm.
  destruct (forEachMatch_spec schema Hts Hnames rows (rep_rows _ _ _ HR0) (rep_pk _ _ _ HR0) cond Hplan Hdec
    (update_row schema value) updated_inv) with (st := (t, 0)) as (L & [t' n] & HL & E & Hd & m' & rows' & Hm' & HR' & HF & Hmem & Hn).
  - intros done st row HI Hin Hw Hnd. by apply updated_step.
  - intros done st HI _. by eapply updated_rep.
  - by apply updated_start.
  - cbn [fst snd] in *. subst n. exists t', m'. split.
    { rewrite E. unfold changes. by rewrite HL. }
    split; [done|]. split; [|done].
    apply (rep_same _ _ rows'); [done| |rewrite after_update_pk; apply HR0]. intros r. rewrite Hmem. unfold after_update.
    rewrite list_elem_of_In, in_map_iff. split; intros (r0 & H1 & H2).
    + exists r0. split; [|by apply list_elem_of_In]. subst r. unfold updated_row. destruct (matching schema cond r0) eqn:Em.
      * rewrite bool_decide_true; [done|]. rewrite HL. by apply list_elem_of_filter.
      * rewrite bool_decide_false; [done|]. intros Hx. destruct (Hd r0 Hx). congruence.
    + apply list_elem_of_In in H2. exists r0. split; [done|]. subst r. unfold updated_row. destruct (matching schema cond r0) eqn:Em.
      * rewrite bool_decide_true; [done|]. rewrite HL. by apply list_elem_of_filter.
      * rewrite bool_decide_false; [done|]. intros Hx. destruct (Hd r0 Hx). congruence.
Qed.

End update.

(** ** The statements on a [DBTX] *)

Context {SJ : SchemaJson}.

Lemma GetSchema_kv (tx tx' : DBTX T) table r : GetSchema tx table = (tx', r) → d_kv tx' = d_kv tx.
Proof.
  unfold GetSchema. destruct (find_table _ _); [by intros [= <- _]|].
  destruct (t_Get _ _) as [val| | |]; cbn [bindS]; try (by intros [= <- _]).
  destruct (match val with None => _ | Some _ => _ end) as [s| | |]; cbn [bindS]; try (by intros [= <- _]).
  destruct (Validate s) as [[]| | |]; cbn [bindS]; by intros [= <- _].
Qed.

Lemma execDelete_spec (tx tx1 : DBTX T) stmt m rows :
  GetSchema tx (del_table stmt) = (tx1, Ok schema) → means (d_kv tx) m → Rep schema m rows →
  plannable (del_cond stmt) → decided schema (del_cond stmt) rows →
  ∃ tx' m', execDelete tx stmt =
      (tx', Ok (Z.of_nat (length (filter (fun r => matching schema (del_cond stmt) r = true) rows)))) ∧
    means (d_kv tx') m' ∧ Rep schema m' (filter (fun r => matching schema (del_cond stmt) r = false) rows) ∧ frame schema m m'.
Proof.
  intros Eg Hm HR Hp Hd. unfold execDelete. rewrite Eg, bindS_Ok. rewrite <- (GetSchema_kv _ _ _ _ Eg) in Hm.
  destruct (delete_matching m rows (del_cond stmt) HR Hp Hd true (delete_row schema) (d_kv tx1)) as (t' & m' & E & Hm' & HR' & HF).
  - intros st row t Ed. unfold delete_row. by rewrite Ed, bindS_Ok.
  - done.
  - unfold for_match. rewrite E, bindS_Ok. eexists _, m'. split; [done|]. done.
Qed.

Lemma execUpdate_spec (tx tx1 : DBTX T) stmt m rows new :
  GetSchema tx (upd_tbl stmt) = (tx1, Ok schema) → means (d_kv tx) m → Rep schema m rows →
  plannable (upd_cond stmt) → decided schema (upd_cond stmt) rows → Forall (fun a => lits_ok (as_expr a)) (upd_value stmt) →
  (∀ row, row ∈ rows → matching schema (upd_cond stmt) row = true → assigned (upd_value stmt) row = Ok (new row)) →
  ∃ tx' m', execUpdate tx stmt =
      (tx', Ok (Z.of_nat (length (filter (fun r => new r ≠ r) (filter (fun r => matching schema (upd_cond stmt) r = true) rows))))) ∧
    means (d_kv tx') m' ∧ Rep schema m' (map (fun r => if matching schema (upd_cond stmt) r then new r else r) rows) ∧ frame schema m m'.
Proof.
  intros Eg Hm HR Hp Hd Hl Hnew. unfold execUpdate. rewrite Eg, bindS_Ok. rewrite <- (GetSchema_kv _ _ _ _ Eg) in Hm.
  destruct (update_matching m rows (upd_cond stmt) HR Hp Hd (upd_value stmt) Hl new Hnew (d_kv tx1) Hm) as (t' & m' & E & Hm' & HR' & HF).
  unfold for_match. rewrite E, bindS_Ok. eexists _, m'. split; [done|]. done.
Qed.

Lemma insert_types values : Forall cell_ok values →
  row_ok schema values ↔ length (sc_Cols schema) = length values ∧
    existsb (fun '(col, cell) => negb (bool_decide (col_Type col = c_type cell))) (zip (sc_Cols schema) values) = false.
Proof.
  unfold row_ok. generalize (sc_Cols schema). induction values as [|v values IH]; intros cols Hv.
  - split; [by inversion 1|]. intros [Hl _]. destruct cols; [constructor|done].
  - apply Forall_cons in Hv as [Hc Hv]. destruct cols as [|col cols]; [split; [by inversion 1|by intros []]|].
    rewrite Forall2_cons, (IH cols Hv). cbn [length zip zip_with existsb]. rewrite orb_false_iff, negb_false_iff, bool_decide_eq_true.
    split; [intros ((_ & Ht) & Hl & He)|intros (Hl & Ht & He)]; split_and!; auto.
Qed.

(** INSERT of values that do not fit, of a new row, and of a taken key. *)
Lemma execInsert_spec (tx tx1 : DBTX T) stmt m rows :
  GetSchema tx (ins_table stmt) = (tx1, Ok schema) → means (d_kv tx) m → Rep schema m rows → Forall cell_ok (ins_value stmt) →
  if bool_decide (row_ok schema (ins_value stmt)) then
    ∃ tx' m', let new := bool_decide (find_row schema rows (pk schema (ins_value stmt)) = None) in
      execInsert tx stmt = (tx', Ok (if new then 1 else 0)) ∧ means (d_kv tx') m' ∧
      Rep schema m' (if new then ins_value stmt :: rows else rows) ∧ frame schema m m'
  else execInsert tx stmt = (tx1, Err (errorsNew "schema mismatch")).
Proof.
  intros Eg Hm HR Hv. unfold execInsert. rewrite Eg, bindS_Ok. rewrite <- (GetSchema_kv _ _ _ _ Eg) in Hm.
  pose proof (insert_types (ins_value stmt) Hv) as Hiff. case_bool_decide as Hr.
  - destruct (proj1 Hiff Hr) as [Hl He]. rewrite Hl, Nat.eqb_refl, He. cbn [negb]. rewrite bindS_Ok.
    destruct (update_nested schema Hts (d_kv tx1) m rows (ins_value stmt) ModeInsert Hm HR Hr) as (t' & m' & E & Hm' & HR' & HF).
    { by right; left. }
    change (nested_op (d_kv tx1) (λ tx, update tx schema (ins_value stmt) ModeInsert)) with (Insert (d_kv tx1) schema (ins_value stmt)) in E.
    rewrite E, bindS_Ok. eexists _, m'. cbv zeta. split; [done|]. split; [done|]. split; [|done].
    cbn [row_updates Z.eqb Pos.eqb ModeInsert ModeUpsert] in HR'. unfold row_updates in HR'. cbn in HR'.
    case_bool_decide as Hn; [|done]. by rewrite (others_absent schema rows _ (find_row_None schema rows _ Hn)) in HR'.
  - destruct (Nat.eqb_spec (length (sc_Cols schema)) (length (ins_value stmt))) as [Hl|]; cbn [negb]; [|done].
    destruct (existsb _ _) eqn:He; [done|]. destruct Hr. by apply Hiff.
Qed.

End stmts.

(** * CREATE TABLE and DROP TABLE

    A created table has a valid schema whose indices all contain the primary
    key, is found again by its name, and is empty; a dropped one is gone with
    all of its entries. *)

(** ASCII text, which encoding/json writes and reads back unchanged; other
    bytes it may replace. *)
Definition ascii (s : bytes) : Prop := Forall (fun b => b2z b < 128) s.
Definition schema_text (schema : Schema) : Prop :=
  ascii (sc_Table schema) ∧ Forall (fun col => ascii (col_Name col)) (sc_Cols schema).

Class SchemaJsonLaws `{SchemaJson} := {
  schema_roundtrip schema : schema_ok schema → schema_text schema → ∃ v, schema_Marshal schema = Ok v ∧ schema_Unmarshal v = Ok schema;
}.

(** ** The schema of CREATE TABLE *)

Lemma addPKey_incl index pkey : (∀ idx, idx ∈ index → idx ∈ addPKeyToIndex index pkey) ∧ (∀ idx, idx ∈ pkey → idx ∈ addPKeyToIndex index pkey).
Proof.
  unfold addPKeyToIndex. revert index. induction pkey as [|p pkey IH]; intros index; cbn [foldl].
  { split; [done|]. intros idx Hx. by apply not_elem_of_nil in Hx. }
  set (index' := if bool_decide (p ∈ index) then index else index ++ [p]).
  assert (∀ idx, idx ∈ p :: index → idx ∈ index') as Hsub.
  { intros idx Hx. unfold index'. case_bool_decide as Hp; apply elem_of_cons in Hx as [->|Hx]; try done;
      apply elem_of_app; [by right; left|by left]. }
  destruct (IH index') as [H1 H2]. split; intros idx Hx.
  - apply H1, Hsub. by right.
  - apply elem_of_cons in Hx as [->|Hx]; [apply H1, Hsub; by left|by apply H2].
Qed.

Lemma cons_middle_app {A} (l1 l2 : list A) x : l1 ++ x :: l2 = (l1 ++ [x]) ++ l2.
Proof. by rewrite <- (assoc_L (++)). Qed.

Lemma create_indices_keyed cols names : ∀ pkey indices indices',
  create_indices cols names (pkey :: indices) = Ok indices' →
  ∃ more, indices' = (pkey :: indices) ++ more ∧ ∀ index, index ∈ more → ∀ idx, idx ∈ pkey → idx ∈ index.
Proof.
  induction names as [|ns names IH]; intros pkey indices indices'; cbn [create_indices].
  { intros [= <-]. exists []. rewrite app_nil_r. split; [done|]. intros index Hx. by apply not_elem_of_nil in Hx. }
  intros H. apply bind_ok in H as (index & _ & H). case_if_in H; [done|].
  apply IH in H as (more & -> & Hk). exists (addPKeyToIndex index pkey :: more). split; [cbn [app]; f_equal; symmetry; apply cons_middle_app|].
  intros ix Hx. apply elem_of_cons in Hx as [->|Hx]; [apply addPKey_incl|by apply Hk].
Qed.

Lemma create_keyed cols pkn names indices :
  create_indices cols (pkn :: names) [] = Ok indices →
  ∀ index pkey, index ∈ indices → indices !! 0%nat = Some pkey → ∀ idx, idx ∈ pkey → idx ∈ index.
Proof.
  cbn [create_indices]. intros H. apply bind_ok in H as (p & _ & H). case_if_in H; [done|].
  apply create_indices_keyed in H as (more & -> & Hk). intros index pkey Hin [= <-] idx Hidx.
  apply elem_of_app in Hin as [->%list_elem_of_singleton|Hin]; [done|by eapply Hk].
Qed.

(** The schema of a CREATE TABLE that succeeds. *)
Definition created (stmt : StmtCreatTable) (schema : Schema) : Prop :=
  ct_cols stmt ≠ [] ∧ (∃ indices, create_indices (ct_cols stmt) (ct_pkey stmt :: ct_indices stmt) [] = Ok indices ∧
    schema = MkSchema SchemaVersion (ct_table stmt) (ct_cols stmt) indices) ∧ Validate schema = Ok tt.

Lemma created_schema stmt schema : created stmt schema → (length (ct_indices stmt) < 128)%nat → table_schema schema.
Proof.
  intros (_ & (indices & Ec & ->) & Hv) Hfew. split.
  - by apply Validate_iff.
  - cbn [sc_Indices]. by eapply create_keyed.
  - cbn [sc_Indices]. cut (∀ names ix ix', create_indices (ct_cols stmt) names ix = Ok ix' → length ix' = length ix + length names)%nat.
    { intros Hlen. apply Hlen in Ec. cbn in Ec. lia. }
    induction names as [|ns names IH]; intros ix ix'; cbn [create_indices]; [intros [= <-]; cbn; lia|].
    intros H. apply bind_ok in H as (index & _ & H). case_if_in H; [done|]. apply IH in H. rewrite length_app in H. cbn in *. lia.
Qed.

(** ** Schema keys *)

(** A table name starts with a letter or an underscore. *)
Definition name_start (table : bytes) : Prop := ∃ c s, table = c :: s ∧ c ≠ x00.

Lemma schemaKey_not_owned schema table : name_start (sc_Table schema) → ¬ owned schema (schemaKey table).
Proof. intros (c & s & Et & Hc) [rest Hk]. rewrite Et in Hk. by injection Hk as <- _. Qed.

Lemma schemaKey_inj t1 t2 : schemaKey t1 = schemaKey t2 → t1 = t2.
Proof. unfold schemaKey. by intros ?%app_inv_head%app_inv_head%app_inv_head. Qed.

Lemma find_forget tables table : find_table (forget_table tables table) table = None.
Proof.
  unfold forget_table. induction tables as [|[name s] tables IH]; [done|]. rewrite filter_cons. cbn [fst].
  case_decide as Hn; [|done]. cbn [find_table]. by rewrite bytes_equal_false.
Qed.

Section schema.
Context {T It : Type} {Rops : RangeOps It} {Tops : TxOps T It} {TL : TxLaws T It}.
Context {SJ : SchemaJson} {SL : SchemaJsonLaws}.

(** A schema that is not in the cache is read from its key. *)
Lemma GetSchema_stored (tx : DBTX T) m table v schema :
  means (d_kv tx) m → find_table (d_tables tx) table = None → val_at m (schemaKey table) = Some v →
  schema_Unmarshal v = Ok schema → Validate schema = Ok tt → snd (GetSchema tx table) = Ok schema.
Proof.
  intros Hm Hf Hv Hu Hval. unfold GetSchema. rewrite Hf, (w_get _ _ means_writable _ _ _ Hm), Hv, bindS_Ok, Hu, bindS_Ok.
  by rewrite Hval, bindS_Ok.
Qed.

Lemma GetSchema_missing (tx : DBTX T) m table :
  means (d_kv tx) m → find_table (d_tables tx) table = None → val_at m (schemaKey table) = None →
  GetSchema tx table = (tx, Err (errorsNew "table is not found")).
Proof. intros Hm Hf Hv. unfold GetSchema. by rewrite Hf, (w_get _ _ means_writable _ _ _ Hm), Hv. Qed.

(** CREATE TABLE of a name that is free. *)
Lemma create_spec (tx : DBTX T) m stmt schema :
  means (d_kv tx) m → find_table (d_tables tx) (ct_table stmt) = None → val_at m (schemaKey (ct_table stmt)) = None →
  created stmt schema → schema_text schema → name_start (ct_table stmt) →
  (∀ k, owned schema k → val_at m k = None) →
  ∃ tx' m', execCreateTable tx stmt = (tx', Ok tt) ∧ means (d_kv tx') m' ∧ Rep schema m' [] ∧
    (∀ k, k ≠ schemaKey (ct_table stmt) → val_at m' k = val_at m k) ∧
    ∃ v, val_at m' (schemaKey (ct_table stmt)) = Some v ∧ schema_Unmarshal v = Ok schema.
Proof.
  intros Hm Hf Hv (Hc & (indices & Ec & Es) & Hval) Htext Hname Hfree.
  unfold execCreateTable. rewrite (GetSchema_missing tx m) by done.
  destruct (Nat.eqb_spec (length (ct_cols stmt)) 0) as [E0|_]; [by destruct (ct_cols stmt)|]. rewrite Ec, bindS_Ok, <- Es, Hval, bindS_Ok.
  destruct (schema_roundtrip schema (proj1 (Validate_iff _) Hval) Htext) as (v & -> & Hu). rewrite bindS_Ok.
  destruct (means_upsert (d_kv tx) m (schemaKey (ct_table stmt)) v Hm) as (t' & -> & Hm'). rewrite bindS_Ok.
  pose proof (w_ok _ _ means_writable _ _ Hm) as [Hs _].
  assert (∀ k, k ≠ schemaKey (ct_table stmt) → val_at (put (schemaKey (ct_table stmt)) v m) k = val_at m k) as Hoth.
  { intros k Hk. rewrite val_at_put by done. by rewrite bytes_equal_false. }
  eexists _, _. split; [done|]. split; [exact Hm'|]. split_and!; [|done|].
  - split; [constructor|constructor|]. intros k w Hk. rewrite Hoth, Hfree; [|done|].
    + split; [done|]. intros (r & Hr & _). by apply not_elem_of_nil in Hr.
    + intros ->. eapply schemaKey_not_owned; [|exact Hk]. by rewrite Es.
  - exists v. split; [|done]. rewrite val_at_put by done. by rewrite (proj2 (bytes_equal_eq _ _) eq_refl).
Qed.

(** DROP TABLE removes the rows and the schema. *)
Lemma drop_spec (tx tx1 : DBTX T) m stmt schema rows :
  GetSchema tx (drop_table stmt) = (tx1, Ok schema) → means (d_kv tx) m → table_schema schema →
  NoDup (map col_Name (sc_Cols schema)) → name_start (sc_Table schema) → Rep schema m rows →
  ∃ tx' m', execDropTable tx stmt = (tx', Ok tt) ∧ means (d_kv tx') m' ∧
    (∀ k, owned schema k → val_at m' k = None) ∧
    (∀ k, ¬ owned schema k → k ≠ schemaKey (drop_table stmt) → val_at m' k = val_at m k) ∧
    val_at m' (schemaKey (drop_table stmt)) = None ∧ find_table (d_tables tx') (drop_table stmt) = None.
Proof.
  intros Eg Hm Hts Hnd Hname HR. unfold execDropTable. rewrite Eg, bindS_Ok. rewrite <- (GetSchema_kv _ _ _ _ Eg) in Hm.
  destruct (delete_matching schema Hts Hnd m rows None HR I) with (count := false) (fn := drop_row schema (T := T) (It := It)) (t := d_kv tx1)
    as (t' & m' & E & Hm' & HR' & HF).
  - intros row _. by exists true.
  - intros st row t Ed. unfold drop_row. by rewrite Ed, bindS_Ok.
  - done.
  - unfold for_match. rewrite E, !bindS_Ok. change (d_kv (set_kv tx1 t')) with t'.
    assert (filter (fun r => matching schema None r = false) rows = []) as En.
    { clear. induction rows as [|r rows IH]; [done|]. rewrite filter_cons. by rewrite decide_False. }
    rewrite En in HR'.
    destruct (w_del _ _ means_writable t' m' (schemaKey (drop_table stmt)) Hm' I) as (t2 & -> & Hm2). rewrite bindS_Ok.
    eexists _, _. split; [done|]. split; [exact Hm2|]. split_and!.
    + intros k Hk. rewrite val_at_cut. case_if; [done|]. destruct (val_at m' k) as [v|] eqn:Ev; [|done].
      apply (rep_iff _ _ _ HR') in Ev as (r & Hr & _); [|done]. by apply not_elem_of_nil in Hr.
    + intros k Hk Hne. rewrite val_at_cut, bytes_equal_false by congruence. by apply HF.
    + rewrite val_at_cut. by rewrite (proj2 (bytes_equal_eq _ _) eq_refl).
    + apply find_forget.
Qed.

End schema.
