(* ===== verification/SchemaSample.v ===== *)
(** * A codec for schemas, for the witnesses

    An instance of the interface [SchemaJson] with its law: lists with a marker
    before every element, numbers in unary, strings as in index keys. *)

From Stdlib Require Import ZArith Lia.
From Stdlib.Strings Require Import Byte.
From stdpp Require Import base list numbers.
From S2P Require Import Prelude GoLib Cell Row Table TableStmt.

Open Scope Z_scope.

Definition bad_schema : error := errorsNew "bad schema".

Section lists.
Context {A : Type} (enc : A → bytes) (dec : bytes → res (A * bytes)).

Fixpoint enc_seq (l : list A) : bytes :=
  match l with [] => [x00] | a :: l => x01 :: enc a ++ enc_seq l end.

Fixpoint dec_seq (fuel : nat) (data : bytes) : res (list A * bytes) :=
  match fuel, data with
  | _, x00 :: rest => Ok ([], rest)
  | S fuel, x01 :: rest => '(a, rest) ← dec rest; '(l, rest) ← dec_seq fuel rest; Ok (a :: l, rest)
  | _, _ => Err bad_schema
  end.

Lemma dec_enc_seq l rest : (∀ a rest, a ∈ l → dec (enc a ++ rest) = Ok (a, rest)) →
  ∀ fuel, (length l ≤ fuel)%nat → dec_seq fuel (enc_seq l ++ rest) = Ok (l, rest).
Proof.
  induction l as [|a l IH]; intros Hd [|fuel] Hf; cbn in Hf; try lia; try done.
  cbn [enc_seq dec_seq app]. rewrite <- (assoc_L (++)), Hd by (by left). rs.
  rewrite IH by (lia || (intros; apply Hd; by right)). done.
Qed.

Lemma enc_seq_length l : (length l < length (enc_seq l))%nat.
Proof. induction l as [|a l IH]; cbn; [lia|]. rewrite length_app. lia. Qed.
End lists.

Definition enc_num (z : Z) : bytes := enc_seq (fun _ : unit => []) (replicate (Z.to_nat z) tt).
Definition dec_num (data : bytes) : res (Z * bytes) :=
  '(l, rest) ← dec_seq (fun data => Ok (tt, data)) (length data) data; Ok (Z.of_nat (length l), rest).

Definition enc_col (c : Column) : bytes := col_Type c :: enc_str (col_Name c).
Definition dec_col (data : bytes) : res (Column * bytes) :=
  match data with
  | [] => Err bad_schema
  | t :: data => '(name, rest) ← decodeStrKey data; Ok (MkColumn name t, rest)
  end.

Definition dec_list {A} (dec : bytes → res (A * bytes)) (data : bytes) : res (list A * bytes) := dec_seq dec (length data) data.

Lemma dec_list_enc {A} (enc : A → bytes) (dec : bytes → res (A * bytes)) l rest :
  (∀ a rest, a ∈ l → dec (enc a ++ rest) = Ok (a, rest)) → dec_list dec (enc_seq enc l ++ rest) = Ok (l, rest).
Proof.
  intros Hd. apply dec_enc_seq; [done|]. rewrite length_app. pose proof (enc_seq_length enc l). lia.
Qed.

Lemma dec_num_enc z rest : 0 ≤ z → dec_num (enc_num z ++ rest) = Ok (z, rest).
Proof.
  intros Hz. unfold dec_num, enc_num. fold (dec_list (fun data => Ok (tt, data)) (enc_seq (fun _ : unit => []) (replicate (Z.to_nat z) tt) ++ rest)).
  rewrite dec_list_enc by (by intros [] ? _). rs. by rewrite length_replicate, Z2Nat.id.
Qed.

Lemma dec_col_enc c rest : dec_col (enc_col c ++ rest) = Ok (c, rest).
Proof. destruct c as [n t]. unfold dec_col, enc_col. cbn [app col_Type col_Name]. unfold decodeStrKey. by rewrite decodeStrKey_enc. Qed.

#[export] Instance sample_schema : SchemaJson := {
  schema_Marshal s := Ok (enc_num (sc_Version s) ++ enc_str (sc_Table s) ++ enc_seq enc_col (sc_Cols s) ++
    enc_seq (enc_seq enc_num) (sc_Indices s));
  schema_Unmarshal data :=
    '(version, data) ← dec_num data;
    '(table, data) ← decodeStrKey data;
    '(cols, data) ← dec_list dec_col data;
    '(indices, _) ← dec_list (dec_list dec_num) data;
    Ok (MkSchema version table cols indices);
}.

#[export] Instance sample_schema_laws : SchemaJsonLaws.
Proof.
  split. intros schema Hok _. eexists. split; [done|]. destruct schema as [v t cols ids]. destruct Hok as [Hv _ _ _ _ Hi]. cbn in *. subst v.
  rewrite dec_num_enc by done. rs. unfold decodeStrKey. fold (enc_str t). rewrite decodeStrKey_enc. rs.
  rewrite dec_list_enc by (intros; apply dec_col_enc). rs.
  rewrite <- (app_nil_r (enc_seq (enc_seq enc_num) ids)), dec_list_enc; [done|].
  intros index rest Hin. apply dec_list_enc. intros z rest' Hz. apply dec_num_enc. by apply (Hi index).
Qed.
