(* ===== verification/Relational.v ===== *)
(** * A relational database

    What SQL statements mean for a database that is a list of tables, each a
    schema with a set of rows, and when a transaction holds such a database.
    [sql_step] and [sql_error] are the specification of the executors of
    db/table.go; Refine.v proves that they implement it. *)

From Stdlib Require Import ZArith Lia.
From Stdlib.Strings Require Import Byte.
From stdpp Require Import base list numbers.
From S2P Require Import Prelude GoLib SortedSeq Cell Row Sql EvalProofs KVIterators Planner PlannerProofs TxKV Table.
From S2P Require Import TableProofs TableScan TableSelect TableStmt.

Open Scope Z_scope.

(** ** Databases *)

Definition database : Type := list (Schema * list Row).

Definition names (db : database) : list bytes := map (fun t => sc_Table (fst t)) db.

(** A name the parser can read. *)
Definition name_ok (table : bytes) : Prop := table ≠ [] ∧ x00 ∉ table.

(** ** Statements that change rows *)

Section rows.
Context (schema : Schema) (rows : list Row).

Definition wanted_rows (cond : option expr) : list Row := filter (fun r => matching schema cond r = true) rows.

(** The rows after the statement and the number of rows it reports. *)
Inductive row_step : stmt → list Row → Z → Prop :=
  | row_insert st :
      ins_table st = sc_Table schema → row_ok schema (ins_value st) →
      find_row schema rows (pk schema (ins_value st)) = None →
      row_step (SInsert st) (ins_value st :: rows) 1
  | row_insert_present st :
      ins_table st = sc_Table schema → row_ok schema (ins_value st) →
      find_row schema rows (pk schema (ins_value st)) ≠ None →
      row_step (SInsert st) rows 0
  | row_update st new :
      upd_tbl st = sc_Table schema → plannable (upd_cond st) → decided schema (upd_cond st) rows →
      Forall (fun a => lits_ok (as_expr a)) (upd_value st) →
      (∀ row, row ∈ rows → matching schema (upd_cond st) row = true → assigned schema (upd_value st) row = Ok (new row)) →
      row_step (SUpdate st) (map (fun r => if matching schema (upd_cond st) r then new r else r) rows)
        (Z.of_nat (length (filter (fun r => new r ≠ r) (wanted_rows (upd_cond st)))))
  | row_delete st :
      del_table st = sc_Table schema → plannable (del_cond st) → decided schema (del_cond st) rows →
      row_step (SDelete st) (filter (fun r => matching schema (del_cond st) r = false) rows)
        (Z.of_nat (length (wanted_rows (del_cond st)))).
End rows.

(** ** Statements *)

(** A CREATE TABLE the database accepts and can read back. *)
Record creates (st : StmtCreatTable) (schema : Schema) : Prop := {
  cr_created : created st schema;
  cr_few : (length (ct_indices st) < 128)%nat;
  cr_text : schema_text schema;
  cr_cols : NoDup (map col_Name (sc_Cols schema));
  cr_name : name_ok (ct_table st);
}.

Inductive sql_step : database → stmt → database → Z → Prop :=
  | sql_create db st schema :
      creates st schema → ct_table st ∉ names db → sql_step db (SCreateTable st) ((schema, []) :: db) 0
  | sql_drop db1 schema rows db2 st :
      drop_table st = sc_Table schema → sql_step (db1 ++ (schema, rows) :: db2) (SDropTable st) (db1 ++ db2) 0
  | sql_rows db1 schema rows db2 s rows' n :
      row_step schema rows s rows' n →
      sql_step (db1 ++ (schema, rows) :: db2) s (db1 ++ (schema, rows') :: db2) n.

(** The table a statement names. *)
Definition target (s : stmt) : bytes :=
  match s with
  | SCreateTable s => ct_table s
  | SDropTable s => drop_table s
  | SSelect s => sel_table s
  | SInsert s => ins_table s
  | SUpdate s => upd_tbl s
  | SDelete s => del_table s
  end.

Definition is_create (s : stmt) : bool := match s with SCreateTable _ => true | _ => false end.

Inductive sql_error (db : database) : stmt → error → Prop :=
  | err_missing s :
      name_ok (target s) → target s ∉ names db → is_create s = false → sql_error db s (errorsNew "table is not found")
  | err_duplicate st : ct_table st ∈ names db → sql_error db (SCreateTable st) (errorsNew "duplicate table name")
  | err_mismatch schema rows st :
      (schema, rows) ∈ db → ins_table st = sc_Table schema → Forall cell_ok (ins_value st) → ¬ row_ok schema (ins_value st) →
      sql_error db (SInsert st) (errorsNew "schema mismatch").

(** The answers to a SELECT: the matching rows in the order of some index,
    then OFFSET, LIMIT and the projection. *)
Definition select_answer (schema : Schema) (rows : list Row) (st : StmtSelect) (proj : list expr) (out : list Row) : Prop :=
  ∃ l i desc, l ≡ₚ filter (fun row => matching schema (sel_cond st) row = true) rows ∧ key_ordered schema i desc l ∧
    out = map (projected schema proj) (limited (sel_limit st) (drop (Z.to_nat (sel_offset st)) l)).

(** A SELECT that evaluates on every row. *)
Record selects (schema : Schema) (rows : list Row) (st : StmtSelect) (proj : list expr) (cols : list ColumnDesc) : Prop := {
  se_table : sel_table st = sc_Table schema;
  se_proj : expandProjection schema (sel_cols st) = Ok (proj, cols);
  se_plan : plannable (sel_cond st);
  se_decided : decided schema (sel_cond st) rows;
  se_projects : projects schema proj rows;
  se_offset : 0 ≤ sel_offset st;
}.

(** ** Databases in a transaction *)

Section rep.
Context {SJ : SchemaJson}.

Record TableRep (m : list ent) (schema : Schema) (rows : list Row) : Prop := {
  tr_schema : table_schema schema;
  tr_cols : NoDup (map col_Name (sc_Cols schema));
  tr_name : name_ok (sc_Table schema);
  tr_rows : Rep schema m rows;
  tr_stored : ∃ v, val_at m (schemaKey (sc_Table schema)) = Some v ∧ schema_Unmarshal v = Ok schema;
}.

Record DbRep (m : list ent) (db : database) : Prop := {
  db_names : NoDup (names db);
  db_tables schema rows : (schema, rows) ∈ db → TableRep m schema rows;
  (** Nothing is left of a table that does not exist. *)
  db_free table : name_ok table → table ∉ names db →
    val_at m (schemaKey table) = None ∧ ∀ rest, val_at m (table ++ x00 :: rest) = None;
}.

Lemma name_ok_start table : name_ok table → name_start table.
Proof.
  intros [Hne H0]. destruct table as [|c s]; [done|]. exists c, s. split; [done|]. intros ->. apply H0. by left.
Qed.

(** A key belongs to one table. *)
Lemma name_split t1 : ∀ t2 r1 r2, x00 ∉ t1 → x00 ∉ t2 → t1 ++ x00 :: r1 = t2 ++ x00 :: r2 → t1 = t2.
Proof.
  induction t1 as [|c t1 IH]; intros [|c2 t2] r1 r2 H1 H2 He; cbn in He; [done|..].
  - injection He as <- _. destruct H2. by left.
  - injection He as -> _. destruct H1. by left.
  - injection He as -> He. f_equal. eapply IH; [| |exact He]; intros Hin; [apply H1|apply H2]; by right.
Qed.

Lemma owned_disjoint s1 s2 k : name_ok (sc_Table s1) → name_ok (sc_Table s2) → owned s1 k → owned s2 k → sc_Table s1 = sc_Table s2.
Proof. intros [_ H1] [_ H2] [r1 ->] [r2 He]. by eapply name_split. Qed.

Lemma rep_agree schema m m' rows : Rep schema m rows → (∀ k, owned schema k → val_at m' k = val_at m k) → Rep schema m' rows.
Proof. intros [R1 R2 R3] Ha. split; [done|done|]. intros k v Hk. rewrite Ha by done. by apply R3. Qed.

(** A table is not touched by a change to another one. *)
Lemma table_rep_agree m m' schema rows : TableRep m schema rows →
  (∀ k, owned schema k → val_at m' k = val_at m k) →
  val_at m' (schemaKey (sc_Table schema)) = val_at m (schemaKey (sc_Table schema)) → TableRep m' schema rows.
Proof.
  intros [T1 T2 T3 T4 T5] Ha Hk. split; [done|done|done|by eapply rep_agree|]. by rewrite Hk.
Qed.

Lemma names_app db1 db2 : names (db1 ++ db2) = names db1 ++ names db2.
Proof. apply map_app. Qed.

Lemma elem_names schema rows db : (schema, rows) ∈ db → sc_Table schema ∈ names db.
Proof. intros Hin. apply list_elem_of_In, in_map_iff. exists (schema, rows). split; [done|]. by apply list_elem_of_In. Qed.

Lemma names_elem table db : table ∈ names db → ∃ schema rows, (schema, rows) ∈ db ∧ sc_Table schema = table.
Proof. intros ((schema & rows) & He & Hin)%list_elem_of_In%in_map_iff. exists schema, rows. split; [by apply list_elem_of_In|done]. Qed.

(** The other tables of the database have other names. *)
Lemma names_middle db1 schema rows db2 : NoDup (names (db1 ++ (schema, rows) :: db2)) →
  ∀ schema' rows', (schema', rows') ∈ db1 ++ db2 → sc_Table schema' ≠ sc_Table schema.
Proof.
  rewrite names_app. intros (_ & Hd & Hn)%NoDup_app schema' rows' Hin He. cbn in *. apply NoDup_cons in Hn as [Hn _].
  apply elem_of_app in Hin as [Hin|Hin]; apply elem_names in Hin; rewrite He in Hin.
  - apply (Hd _ Hin). by left.
  - done.
Qed.

(** What a change to the rows of one table does to the database. *)
Lemma db_set_rows m m' db1 schema rows db2 rows' :
  DbRep m (db1 ++ (schema, rows) :: db2) → Rep schema m' rows' → frame schema m m' →
  DbRep m' (db1 ++ (schema, rows') :: db2).
Proof.
  intros [D1 D2 D3] HR HF.
  assert (TableRep m schema rows) as [T1 T2 T3 T4 T5] by (apply D2, elem_of_app; right; by left).
  assert (∀ table, val_at m' (schemaKey table) = val_at m (schemaKey table)) as Hkeys.
  { intros table. apply HF. apply schemaKey_not_owned. by apply name_ok_start. }
  split.
  - by rewrite names_app in *.
  - intros schema' rows1 Hin. destruct (decide ((schema', rows1) = (schema, rows'))) as [[= -> ->]|Hne].
    + split; try done. by rewrite Hkeys.
    + assert ((schema', rows1) ∈ db1 ++ db2) as Hin'.
      { apply elem_of_app. apply elem_of_app in Hin as [Hin|[Hin|Hin]%elem_of_cons]; auto. done. }
      pose proof (names_middle _ _ _ _ D1 _ _ Hin') as Hother.
      assert (TableRep m schema' rows1) as HT.
      { apply D2. apply elem_of_app in Hin' as [Hin'|Hin']; apply elem_of_app; [by left|right; by right]. }
      apply (table_rep_agree m); [done| |apply Hkeys]. intros k Hk. apply HF. intros Hk'.
      apply Hother. by eapply owned_disjoint; [apply HT|..].
  - intros table Hn Hnot. rewrite Hkeys. rewrite names_app in *. destruct (D3 table Hn Hnot) as [Hs Hr].
    split; [done|]. intros rest. rewrite <- (Hr rest). apply HF. intros [rest' Hk]. apply Hnot.
    apply elem_of_app. right. cbn. apply elem_of_cons. left. destruct T3 as [_ T3], Hn as [_ Hn]. by eapply name_split.
Qed.

Lemma db_add_table m m' db schema :
  DbRep m db → sc_Table schema ∉ names db → table_schema schema → NoDup (map col_Name (sc_Cols schema)) →
  name_ok (sc_Table schema) → Rep schema m' [] →
  (∀ k, k ≠ schemaKey (sc_Table schema) → val_at m' k = val_at m k) →
  (∃ v, val_at m' (schemaKey (sc_Table schema)) = Some v ∧ schema_Unmarshal v = Ok schema) →
  DbRep m' ((schema, []) :: db).
Proof.
  intros [D1 D2 D3] Hnew Hts Hcols Hname HR Hoth Hst. split.
  - cbn. by constructor.
  - intros schema' rows' [[= -> ->]|Hin]%elem_of_cons; [by split|].
    pose proof (D2 _ _ Hin) as HT. apply (table_rep_agree m); [done|..].
    + intros k Hk. apply Hoth. intros ->. eapply schemaKey_not_owned; [|exact Hk]. apply name_ok_start, HT.
    + apply Hoth. intros He%schemaKey_inj. apply Hnew. rewrite <- He. by eapply elem_names.
  - intros table Hn Hnot. cbn in Hnot. apply not_elem_of_cons in Hnot as [Hne Hnot].
    destruct (D3 table Hn Hnot) as [Hs Hr]. split.
    + rewrite Hoth; [done|]. intros He%schemaKey_inj. congruence.
    + intros rest. rewrite Hoth; [by apply Hr|]. intros He. destruct (name_ok_start _ Hn) as (c & s & -> & Hc).
      unfold schemaKey, ReservedKeyPrefix in He. injection He as Hc' _. congruence.
Qed.

Lemma db_drop_table m m' db1 schema rows db2 :
  DbRep m (db1 ++ (schema, rows) :: db2) →
  (∀ k, owned schema k → val_at m' k = None) → val_at m' (schemaKey (sc_Table schema)) = None →
  (∀ k, ¬ owned schema k → k ≠ schemaKey (sc_Table schema) → val_at m' k = val_at m k) →
  DbRep m' (db1 ++ db2).
Proof.
  intros [D1 D2 D3] Hgone Hkey Hoth.
  assert (TableRep m schema rows) as [T1 T2 T3 T4 T5] by (apply D2, elem_of_app; right; by left).
  assert (∀ table, ¬ owned schema (schemaKey table)) as Hsk by (intros; by apply schemaKey_not_owned, name_ok_start).
  split.
  - rewrite names_app in *. cbn in D1. apply NoDup_app in D1 as (Ha & Hd & [_ Hb]%NoDup_cons). apply NoDup_app.
    split_and!; [done| |done]. intros x Hx Hx'. apply (Hd x Hx). by right.
  - intros schema' rows' Hin. pose proof (names_middle _ _ _ _ D1 _ _ Hin) as Hother.
    assert (TableRep m schema' rows') as HT.
    { apply D2. apply elem_of_app in Hin as [Hin|Hin]; apply elem_of_app; [by left|right; by right]. }
    apply (table_rep_agree m); [done|..].
    + intros k Hk. apply Hoth.
      * intros Hk'. apply Hother. by eapply owned_disjoint; [apply HT|..].
      * intros ->. eapply schemaKey_not_owned; [|exact Hk]. apply name_ok_start, HT.
    + apply Hoth; [done|]. by intros He%schemaKey_inj.
  - intros table Hn Hnot. destruct (decide (table = sc_Table schema)) as [->|Hne].
    + split; [done|]. intros rest. apply Hgone. by exists rest.
    + assert (table ∉ names (db1 ++ (schema, rows) :: db2)) as Hnot'.
      { rewrite names_app in *. intros [Hin|[Hin|Hin]%elem_of_cons]%elem_of_app; [|done|]; apply Hnot, elem_of_app; auto. }
      destruct (D3 table Hn Hnot') as [Hs Hr]. split.
      * rewrite Hoth; [done|done|]. by intros ?%schemaKey_inj.
      * intros rest. rewrite Hoth; [by apply Hr|..].
        -- intros [rest' Hk]. apply Hne. destruct T3 as [_ T3], Hn as [_ Hn]. by eapply name_split.
        -- intros He. destruct (name_ok_start _ Hn) as (c & s & -> & Hc).
           unfold schemaKey, ReservedKeyPrefix in He. injection He as Hc' _. congruence.
Qed.

End rep.
