(* ===== verification/DB.v ===== *)
(** * The database: the methods of [DB] in db/table.go

    A [DB] is a store with tables on top.  Its methods start a transaction of
    the store, run an operation of Table.v in it and commit or abort it.  A
    transaction is named by its place in the heap of the store; the result of a
    SELECT owns its transaction until it is closed. *)

From Stdlib Require Import ZArith Lia.
From Stdlib.Strings Require Import Byte.
From stdpp Require Import base list numbers.
From S2P Require Import Prelude GoLib SortedSeq SortedKV SortedArray Merge SortedFile KVIterators Metadata KV KVCompact.
From S2P Require Import Cell Row Sql Planner Parser TxKV TxInstance Table.

Open Scope Z_scope.

(** ** Statements in a transaction *)

Section tx.
Context `{Rops : RangeOps It} `{Tops : TxOps T It} {SJ : SchemaJson}.

(** [(tx *DBTX) ExecStmt]: the statement runs in a nested transaction, which the
    result of a SELECT keeps. *)
Definition tx_ExecStmt (tx : DBTX T) (s : stmt) : DBTX T * res (SQLResult * option (DBTX T)) :=
  let (inner, r) := execStmt (dbtx_NewTX tx) s in
  match r with
  | Ok r =>
      match sr_cursor r with
      | None =>
          let (kv, c) := t_Commit (d_kv tx) (d_kv inner) in
          let! (tx, _u) := (set_kv tx kv, c) in (tx, Ok (r, None))
      | Some _ => (tx, Ok (r, Some inner))
      end
  | Err e => (tx, Err e)
  | Panic s => (tx, Panic s)
  | OutOfFuel => (tx, OutOfFuel)
  end.

Definition tx_Query (tx : DBTX T) (statement : bytes) : DBTX T * res (SQLResult * option (DBTX T)) :=
  let! (tx, s) := (tx, ParseStmt statement) in tx_ExecStmt tx s.

(** The fields [Close] leaves in a result. *)
Definition closed_result (r : SQLResult (T := T) (It := It)) : SQLResult (T := T) (It := It) :=
  MkResult (sr_cols r) None (sr_affected r) (sr_err r) true.

End tx.

Section db.
Context `{Bloom} `{MetaJson} {SJ : SchemaJson}.

Definition Result : Type := SQLResult (T := KVTX) (It := RangedKVIter TXIter).

(** ** Rows *)

(** A new transaction, an operation on it, and [abortOrCommit]. *)
Definition db_op (kv : KV) (f : KVTX → KVTX * res bool) : KV * res bool :=
  let! (kv, p) := (kv, NewTX kv) in
  let (kv, id) := (p : KV * nat) in
  let (kv, r) := with_tx kv id f in
  abortOrCommit kv id r.

Definition db_Insert (kv : KV) (schema : Schema) (row : Row) : KV * res bool :=
  db_op kv (fun tx => update tx schema row ModeInsert).
Definition db_Upsert (kv : KV) (schema : Schema) (row : Row) : KV * res bool :=
  db_op kv (fun tx => update tx schema row ModeUpsert).
Definition db_Update (kv : KV) (schema : Schema) (row : Row) : KV * res bool :=
  db_op kv (fun tx => update tx schema row ModeUpdate).
Definition db_Delete (kv : KV) (schema : Schema) (row : Row) : KV * res bool :=
  db_op kv (fun tx => delete tx schema row).

(** A read in a transaction of its own, aborted in the end. *)
Definition db_read {A} (kv : KV) (f : KVTX → KVTX * res A) : KV * res A :=
  let! (kv, p) := (kv, NewTX kv) in
  let (kv, id) := (p : KV * nat) in
  let (kv, r) := with_tx kv id f in
  let! (kv, kv') := (kv, abortTX kv id) in
  (kv', r).

Definition db_Select (kv : KV) (schema : Schema) (row : Row) : KV * res (bool * Row) :=
  db_read kv (fun tx => (tx, Select tx schema row)).

Definition db_GetSchema (kv : KV) (table : bytes) : KV * res Schema :=
  db_read kv (fun tx => let (tx, r) := GetSchema (MkDBTX tx []) table in (d_kv tx, r)).

(** ** Statements *)

(** [execStmtOwned] for a transaction of the store. *)
Definition execStmtOwned (kv : KV) (id : nat) (s : stmt) : KV * res (Result * option nat) :=
  let (kv, r) := with_tx kv id (fun tx => let (tx, r) := execStmt (MkDBTX tx []) s in (d_kv tx, r)) in
  match r with
  | Ok r =>
      match sr_cursor r with
      | None => let! (kv, _u) := applyTXSync kv id in (kv, Ok (r, None))
      | Some _ => (kv, Ok (r, Some id))
      end
  | Err e => let! (kv, kv') := (kv, abortTX kv id) in (kv', Err e)
  | Panic s => (kv, Panic s)
  | OutOfFuel => (kv, OutOfFuel)
  end.

Definition db_ExecStmt (kv : KV) (s : stmt) : KV * res (Result * option nat) :=
  let! (kv, p) := (kv, NewTX kv) in
  let (kv, id) := (p : KV * nat) in
  execStmtOwned kv id s.

Definition db_Query (kv : KV) (statement : bytes) : KV * res (Result * option nat) :=
  let! (kv, s) := (kv, ParseStmt statement) in db_ExecStmt kv s.

(** [Close] of a result and the transaction it owns. *)
Definition sr_Close (kv : KV) (r : Result * option nat) : KV * (Result * option nat) * res unit :=
  let (r, tx) := r in
  if sr_closed r then (kv, (r, tx), Ok tt) else
  let r' := (closed_result r, None) in
  match tx with
  | None => (kv, r', Ok tt)
  | Some id =>
      match sr_err r with
      | Some _ => match abortTX kv id with
          | Ok kv' => (kv', r', Ok tt)
          | Err e => (kv, r', Err e)
          | Panic s => (kv, r', Panic s)
          | OutOfFuel => (kv, r', OutOfFuel)
          end
      | None => let (kv', c) := applyTXSync kv id in (kv', r', c)
      end
  end.

(** ** Life cycle *)

Definition db_Open (opts : KVOptions) (d : disk) : res KV := kv_Open opts d.
Definition db_Close (kv : KV) : res KV := kv_Close kv.

End db.
