(* ===== verification/Refine.v ===== *)
(** * The executors implement the relational database

    First for a transaction with the laws of [TxLaws], then for the statements
    of a [DB], which run in a transaction of the store and commit it: a
    statement is one atomic step of the database in the committed state. *)

From Stdlib Require Import ZArith Lia.
From Stdlib.Strings Require Import Byte.
From stdpp Require Import base list numbers.
From S2P Require Import Prelude GoLib SortedSeq SortedKV SortedArray Merge File Entry SortedFile SortedFileProofs KVIterators.
From S2P Require Import Log Metadata KV KVCompact KVProofs KVCompactProofs KVSystem KVOps.
From S2P Require Import Cell Row RowProofs Sql EvalProofs Planner PlannerProofs TxKV TxInstance Table TableProofs TableScan TableSelect.
From S2P Require Import TableStmt Relational DB.

Open Scope Z_scope.

Lemma row_cells_ok schema row : row_ok schema row → Forall cell_ok row.
Proof. induction 1 as [|cell col row cols [Hc _] _ IH]; by constructor. Qed.

(** ** In a transaction *)

Section tx.
Context {T It : Type} {Rops : RangeOps It} {Tops : TxOps T It} {TL : TxLaws T It}.
Context {SJ : SchemaJson} {SL : SchemaJsonLaws}.
Context (t : T) (m : list ent) (Hm : means t m).

(** A statement starts with an empty cache. *)
Let tx : DBTX T := MkDBTX t [].

Lemma find_schema schema rows : TableRep m schema rows → ∃ tx1, GetSchema tx (sc_Table schema) = (tx1, Ok schema).
Proof.
  intros [T1 _ _ _ (v & Hv & Hu)]. pose proof (proj2 (Validate_iff schema) (ts_ok _ T1)) as Hval.
  pose proof (GetSchema_stored tx m _ v schema Hm eq_refl Hv Hu Hval) as E.
  destruct (GetSchema tx (sc_Table schema)) as [tx1 r]. cbn in E. subst. by exists tx1.
Qed.

Lemma rows_refine schema rows s rows' n : TableRep m schema rows → row_step schema rows s rows' n →
  ∃ tx' m', execStmt tx s = (tx', Ok (affected_result n)) ∧ means (d_kv tx') m' ∧ Rep schema m' rows' ∧ frame schema m m'.
Proof.
  intros HT Hs. pose proof HT as [T1 T2 T3 T4 T5]. destruct (find_schema _ _ HT) as (tx1 & Eg).
  destruct Hs as [st He Hr Hf|st He Hr Hf|st new He Hp Hd Hl Ha|st He Hp Hd]; cbn [execStmt].
  - rewrite <- He in Eg. pose proof (execInsert_spec schema T1 tx tx1 st m rows Eg Hm T4) as Hi.
    rewrite bool_decide_true in Hi by done. destruct Hi as (tx' & m' & E & Hi); [by eapply row_cells_ok|].
    rewrite bool_decide_true in E, Hi by done. exists tx', m'. by rewrite E, bindS_Ok.
  - rewrite <- He in Eg. pose proof (execInsert_spec schema T1 tx tx1 st m rows Eg Hm T4) as Hi.
    rewrite bool_decide_true in Hi by done. destruct Hi as (tx' & m' & E & Hi); [by eapply row_cells_ok|].
    rewrite bool_decide_false in E, Hi by done. exists tx', m'. by rewrite E, bindS_Ok.
  - rewrite <- He in Eg. destruct (execUpdate_spec schema T1 T2 tx tx1 st m rows new Eg Hm T4 Hp Hd Hl Ha) as (tx' & m' & E & Hi).
    exists tx', m'. by rewrite E, bindS_Ok.
  - rewrite <- He in Eg. destruct (execDelete_spec schema T1 T2 tx tx1 st m rows Eg Hm T4 Hp Hd) as (tx' & m' & E & Hi).
    exists tx', m'. by rewrite E, bindS_Ok.
Qed.

Context (db : database) (HD : DbRep m db).

Lemma stmt_refines s db' n : sql_step db s db' n →
  ∃ tx' m', execStmt tx s = (tx', Ok (affected_result n)) ∧ means (d_kv tx') m' ∧ DbRep m' db'.
Proof.
  intros Hs. destruct Hs as [db0 st schema [C1 C2 C3 C4 C5] Hnew|db1 schema rows db2 st He|db1 schema rows db2 s rows' n Hr].
  - destruct (db_free _ _ HD _ C5 Hnew) as [Hk Ho]. pose proof (created_schema _ _ C1 C2) as Hts.
    assert (sc_Table schema = ct_table st) as Et by (by destruct C1 as (_ & (idx & _ & ->) & _)).
    destruct (create_spec tx m st schema Hm eq_refl Hk C1 C3 (name_ok_start _ C5)) as (tx' & m' & E & Hm' & HR & Hoth & Hst).
    { intros k [rest ->]. rewrite Et. apply Ho. }
    cbn [execStmt]. rewrite E, bindS_Ok. exists tx', m'. split; [done|]. split; [done|].
    rewrite <- Et in *. by apply (db_add_table m).
  - assert (TableRep m schema rows) as HT by (apply (db_tables _ _ HD), elem_of_app; right; by left).
    destruct (find_schema _ _ HT) as (tx1 & Eg). rewrite <- He in Eg. pose proof HT as [T1 T2 T3 T4 T5].
    destruct (drop_spec tx tx1 m st schema rows Eg Hm T1 T2 (name_ok_start _ T3) T4) as (tx' & m' & E & Hm' & Hg & Hoth & Hk & _).
    cbn [execStmt]. rewrite E, bindS_Ok. exists tx', m'. split; [done|]. split; [done|].
    rewrite He in *. by apply (db_drop_table m _ _ schema rows).
  - assert (TableRep m schema rows) as HT by (apply (db_tables _ _ HD), elem_of_app; right; by left).
    destruct (rows_refine _ _ _ _ _ HT Hr) as (tx' & m' & E & Hm' & HR & HF).
    exists tx', m'. split; [done|]. split; [done|]. by apply (db_set_rows m _ _ _ rows).
Qed.

Lemma stmt_errors s e : sql_error db s e → ∃ tx', execStmt tx s = (tx', Err e) ∧ d_kv tx' = t.
Proof.
  intros Hs. destruct Hs as [s Hn Hnot Hc|st Hin|schema rows st Hin He Hc Hr].
  - destruct (db_free _ _ HD _ Hn Hnot) as [Hk _]. pose proof (GetSchema_missing tx m _ Hm eq_refl Hk) as E.
    exists tx. split; [|done]. destruct s; cbn [execStmt target] in *; try done;
      unfold execDropTable, execSelect, execInsert, execUpdate, execDelete; by rewrite E.
  - destruct (names_elem _ _ Hin) as (schema & rows & Hin' & Ht).
    destruct (find_schema _ _ (db_tables _ _ HD _ _ Hin')) as (tx1 & E). rewrite Ht in E.
    exists tx1. cbn [execStmt]. unfold execCreateTable. rewrite E. split; [done|]. by apply (GetSchema_kv _ _ _ _ E).
  - pose proof (db_tables _ _ HD _ _ Hin) as HT. destruct (find_schema _ _ HT) as (tx1 & E). rewrite <- He in E.
    pose proof (execInsert_spec schema (tr_schema _ _ _ HT) tx tx1 st m rows E Hm (tr_rows _ _ _ HT) Hc) as Hi.
    rewrite bool_decide_false in Hi by done. exists tx1. cbn [execStmt]. rewrite Hi. split; [done|].
    by apply (GetSchema_kv _ _ _ _ E).
Qed.

(** A SELECT opens a cursor that yields the answer. *)
Lemma select_refines schema rows st proj cols : (schema, rows) ∈ db → selects schema rows st proj cols →
  ∃ tx' r r' out, execStmt tx (SSelect st) = (tx', Ok r) ∧ d_kv tx' = t ∧ sr_cols r = cols ∧ sr_cursor r ≠ None ∧
    sr_closed r = false ∧ Rows r = Ok (r', (out, None)) ∧ select_answer schema rows st proj out.
Proof.
  intros Hin [S1 S2 S3 S4 S5 S6]. pose proof (db_tables _ _ HD _ _ Hin) as HT. pose proof HT as [T1 T2 T3 T4 T5].
  destruct (find_schema _ _ HT) as (tx1 & Eg). rewrite <- S1 in Eg. pose proof (GetSchema_kv _ _ _ _ Eg) as Ek.
  destruct (select_rows schema T1 T2 t m rows Hm T4 st proj cols S2 S3 S4 S5 S6) as (plan & it & l & r' & i & desc & E1 & E2 & Hl & Ho & E3).
  cbn [execStmt]. unfold execSelect. rewrite Eg, bindS_Ok, S2, bindS_Ok, E1, bindS_Ok, Ek. cbn [d_kv tx]. rewrite E2, bindS_Ok.
  eexists tx1, _, r', _. split; [done|]. split; [done|]. split; [done|]. split; [done|]. split; [done|]. split; [exact E3|].
  exists l, i, desc. done.
Qed.

End tx.

(** ** In the store *)

Section store.
Context `{BL : BloomLaws} `{MetaJson} {SJ : SchemaJson} {SL : SchemaJsonLaws}.

(** The entries that are committed. *)
Definition committed_view (init : list ent) (commits : list (list ent)) : list ent :=
  lives (state_at init commits (length commits)).

(** An open store whose committed entries hold the database [db]. *)
Record db_state (kv : KV) (init : list ent) (commits : list (list ent)) (db : database) : Prop := {
  ds_inv : inv kv init commits;
  ds_refs : refs_ok kv;
  ds_open : kv_closed kv = false;
  ds_rep : DbRep (committed_view init commits) db;
}.

Lemma view_commit init commits u : committed_view init (commits ++ [u]) = shown u (state_at init commits (length commits)).
Proof.
  unfold committed_view, shown. rewrite length_app. cbn [length].
  replace (length commits + 1)%nat with (S (length commits)) by lia. by rewrite state_at_snoc.
Qed.

Section op.
Context (kv : KV) (init : list ent) (commits : list (list ent)) (db : database) (Hs : db_state kv init commits db).

(** The laws for a transaction of the store. *)
Definition store_laws (tx0 : KVTX) : TxLaws KVTX (RangedKVIter TXIter) := tx_laws tx0 (state_at init commits (length commits)).

Lemma work_means kv1 id tx0 : at_work kv init commits kv1 id tx0 [] → tx_updates tx0 = arr_empty →
  means (TxLaws := store_laws tx0) tx0 (committed_view init commits).
Proof.
  intros Hw Hu. apply (tx_means_reads init commits tx0 (length commits) []); [apply (i_init _ _ _ _ (ds_inv _ _ _ _ Hs))|apply Hw|done|constructor].
Qed.

(** The transaction after the operation is the one of the heap with new writes. *)
Lemma work_after kv1 id tx0 tx' m' : at_work kv init commits kv1 id tx0 [] → means (TxLaws := store_laws tx0) tx' m' →
  ∃ u, tx' = set_updates tx0 (arr_of u) ∧ m' = shown u (state_at init commits (length commits)) ∧
    at_work kv init commits (set_txs kv1 (<[id := tx']> (kv_txs kv1))) id tx0 u.
Proof.
  intros Hw (u & -> & Hr & ->). exists u. split; [done|]. split; [done|]. eapply at_work_write; [done|apply Hr].
Qed.

(** Commit of the writes [u]: the log decides, and what it refuses changes
    nothing. *)
Lemma work_commit kv1 id tx0 u db' : at_work kv init commits kv1 id tx0 u →
  DbRep (shown u (state_at init commits (length commits))) db' → Z.of_nat (length commits) < 2 ^ 64 - 1 →
  ∃ kv2, applyTXSync kv1 id = (kv2, log_result kv u) ∧
    match log_result kv u with
    | Ok _ => ∃ commits', db_state kv2 init commits' db' ∧ (length commits' ≤ S (length commits))%nat
    | _ => db_state kv2 init commits db
    end.
Proof.
  intros Hw HD Hlen. destruct (at_work_commit _ _ _ _ _ _ _ Hw Hlen) as (kv2 & r & E & Hi & Hr & Ho & ->).
  exists kv2. split; [done|]. unfold log_result in *. destruct (decide (u = [])) as [->|Hne].
  - exists commits. split; [by split|lia].
  - destruct (snd (updateLog (kv_log kv) (arr_of u))) as [[]| | |]; cbn [committed] in Hi; [|split; try done; apply Hs..].
    exists (commits ++ [u]). rewrite length_app. cbn. split; [|lia]. split; [by destruct u|done|done|by rewrite view_commit].
Qed.

(** What the statement [s] writes: its executor, run in a new transaction of
    [kv], stages [u]. *)
Definition writes_of (s : stmt) (u : list ent) : Prop :=
  ∃ kv1 id tx0 tx' r, NewTX kv = Ok (kv1, id) ∧ kv_txs kv1 !! id = Some tx0 ∧ execStmt (MkDBTX tx0 []) s = (tx', Ok r) ∧
    tx_updates (d_kv tx') = arr_of u.

(** A statement that changes the database: the log decides about its own
    writes. *)
Lemma exec_refines s db' n : sql_step db s db' n → Z.of_nat (length commits) < 2 ^ 64 - 1 →
  ∃ kv' u, writes_of s u ∧ db_ExecStmt kv s = (kv', _ ← log_result kv u; Ok (affected_result n, None)) ∧
    match log_result kv u with
    | Ok _ => ∃ commits', db_state kv' init commits' db' ∧ (length commits' ≤ S (length commits))%nat
    | _ => db_state kv' init commits db
    end.
Proof.
  intros Hst Hlen. destruct (at_work_new kv init commits (ds_inv _ _ _ _ Hs) (ds_refs _ _ _ _ Hs) (ds_open _ _ _ _ Hs))
    as (kv1 & id & tx0 & En & Hw & Hu).
  destruct (stmt_refines (TL := store_laws tx0) tx0 _ (work_means _ _ _ Hw Hu) db (ds_rep _ _ _ _ Hs) s db' n Hst)
    as (tx' & m' & E & Hm' & HD').
  pose proof (aw_tx _ _ _ _ _ _ _ Hw) as Htx. rewrite set_no_updates in Htx by done.
  unfold db_ExecStmt. rewrite En, bindS_Ok. unfold execStmtOwned, with_tx. rewrite Htx, E. cbn [sr_cursor affected_result].
  destruct (work_after _ _ _ _ _ Hw Hm') as (u & Et & -> & Hw').
  destruct (work_commit _ _ _ _ _ Hw' HD' Hlen) as (kv2 & -> & Hr).
  exists kv2, u. split; [|split; [by destruct (log_result kv u)|exact Hr]].
  eexists kv1, id, tx0, tx', _. split_and!; try done. by rewrite Et.
Qed.

(** A statement that fails. *)
Lemma exec_errors s e : sql_error db s e →
  ∃ kv', db_ExecStmt kv s = (kv', Err e) ∧ db_state kv' init commits db.
Proof.
  intros Hst. destruct (at_work_new kv init commits (ds_inv _ _ _ _ Hs) (ds_refs _ _ _ _ Hs) (ds_open _ _ _ _ Hs))
    as (kv1 & id & tx0 & En & Hw & Hu).
  destruct (stmt_errors (TL := store_laws tx0) tx0 _ (work_means _ _ _ Hw Hu) db (ds_rep _ _ _ _ Hs) s e Hst) as (tx' & E & Ek).
  unfold db_ExecStmt. rewrite En, bindS_Ok. unfold execStmtOwned, with_tx.
  rewrite (aw_tx _ _ _ _ _ _ _ Hw), set_no_updates, E by done. rewrite Ek.
  destruct (work_after _ _ _ _ _ Hw (work_means _ _ _ Hw Hu)) as (u & _ & _ & Hw').
  destruct (at_work_abort _ _ _ _ _ _ _ Hw') as (kv2 & -> & Hi & Hr & Ho). rewrite bindS_Ok.
  exists kv2. split; [done|]. split; try done. apply Hs.
Qed.

(** A SELECT, its rows, and the end of its transaction. *)
Lemma exec_select schema rows st proj cols : (schema, rows) ∈ db → selects schema rows st proj cols →
  Z.of_nat (length commits) < 2 ^ 64 - 1 →
  ∃ kv1 r id r' out kv2, db_ExecStmt kv (SSelect st) = (kv1, Ok (r, Some id)) ∧ sr_cols r = cols ∧
    Rows r = Ok (r', (out, None)) ∧ select_answer schema rows st proj out ∧
    sr_Close kv1 (r, Some id) = (kv2, (closed_result r, None), Ok tt) ∧ db_state kv2 init commits db.
Proof.
  intros Hin Hsel Hlen. destruct (at_work_new kv init commits (ds_inv _ _ _ _ Hs) (ds_refs _ _ _ _ Hs) (ds_open _ _ _ _ Hs))
    as (kv1 & id & tx0 & En & Hw & Hu).
  destruct (select_refines (TL := store_laws tx0) tx0 _ (work_means _ _ _ Hw Hu) db (ds_rep _ _ _ _ Hs) schema rows st proj cols Hin Hsel)
    as (tx' & r & r' & out & E & Ek & Ec & Hcu & Hcl & Er & Ha).
  unfold db_ExecStmt. rewrite En, bindS_Ok. unfold execStmtOwned, with_tx.
  rewrite (aw_tx _ _ _ _ _ _ _ Hw), set_no_updates, E by done. destruct (sr_cursor r) eqn:Ecur; [|done]. rewrite Ek.
  pose proof (at_work_write _ _ _ _ _ _ _ [] Hw (SSorted_nil _)) as Hw'. rewrite set_no_updates in Hw' by done.
  destruct (at_work_commit _ _ _ _ _ _ _ Hw' Hlen) as (kv2 & c & E2 & Hi & Hr & Ho & ->). unfold log_result in *. rewrite decide_True in E2, Hi by done. cbn [committed] in Hi.
  eexists _, r, id, r', out, kv2. split; [done|]. split; [done|]. split; [done|]. split; [done|]. split.
  - unfold sr_Close. rewrite Hcl. destruct (sr_err r) eqn:Ee; [|by rewrite E2].
    exfalso. clear -Er Ee Ecur. unfold Rows in Er. rewrite Ecur in Er. destruct (i_steps _) in Er; cbn [rows_loop] in Er;
      unfold sr_Next in Er; rewrite Ecur, Ee, orb_true_r in Er; rs; injection Er as <- _ He; congruence.
  - split; try done. apply Hs.
Qed.

(** A SELECT writes nothing. *)
Lemma select_writes schema rows st proj cols : (schema, rows) ∈ db → selects schema rows st proj cols → writes_of (SSelect st) [].
Proof.
  intros Hin Hsel. destruct (at_work_new kv init commits (ds_inv _ _ _ _ Hs) (ds_refs _ _ _ _ Hs) (ds_open _ _ _ _ Hs))
    as (kv1 & id & tx0 & En & Hw & Hu).
  destruct (select_refines (TL := store_laws tx0) tx0 _ (work_means _ _ _ Hw Hu) db (ds_rep _ _ _ _ Hs) schema rows st proj cols Hin Hsel)
    as (tx' & r & _ & _ & E & Ek & _).
  pose proof (aw_tx _ _ _ _ _ _ _ Hw) as Htx. rewrite set_no_updates in Htx by done.
  exists kv1, id, tx0, tx', r. split_and!; try done. by rewrite Ek.
Qed.

End op.

(** *** Rows through the methods of [DB] *)

(** What an operation writes: run in a new transaction of [kv] it stages [u]. *)
Definition stages {A} (kv : KV) (f : KVTX → KVTX * res A) (u : list ent) : Prop :=
  ∃ kv1 id tx0 tx' r, NewTX kv = Ok (kv1, id) ∧ kv_txs kv1 !! id = Some tx0 ∧ f tx0 = (tx', Ok r) ∧ tx_updates tx' = arr_of u.

Section rows.
Context (kv : KV) (init : list ent) (commits : list (list ent)) (db1 : database) (schema : Schema) (rows : list Row) (db2 : database).
Context (Hs : db_state kv init commits (db1 ++ (schema, rows) :: db2)) (Hlen : Z.of_nat (length commits) < 2 ^ 64 - 1).

Let HT : TableRep (committed_view init commits) schema rows.
Proof. apply (db_tables _ _ (ds_rep _ _ _ _ Hs)), elem_of_app. right. by left. Qed.

Lemma db_op_spec f b rows' :
  (∀ (t : KVTX) m (TL : TxLaws KVTX (RangedKVIter TXIter)), means t m → Rep schema m rows →
     ∃ t' m', f t = (t', Ok b) ∧ means t' m' ∧ Rep schema m' rows' ∧ frame schema m m') →
  ∃ kv' u, stages kv f u ∧ db_op kv f = (kv', _ ← log_result kv u; Ok b) ∧
    match log_result kv u with
    | Ok _ => ∃ commits', db_state kv' init commits' (db1 ++ (schema, rows') :: db2) ∧ (length commits' ≤ S (length commits))%nat
    | _ => db_state kv' init commits (db1 ++ (schema, rows) :: db2)
    end.
Proof.
  intros Hf. destruct (at_work_new kv init commits (ds_inv _ _ _ _ Hs) (ds_refs _ _ _ _ Hs) (ds_open _ _ _ _ Hs))
    as (kv1 & id & tx0 & En & Hw & Hu).
  destruct (Hf tx0 _ (store_laws init commits tx0) (work_means _ _ _ _ Hs _ _ _ Hw Hu) (tr_rows _ _ _ HT)) as (tx' & m' & E & Hm' & HR & HF).
  unfold db_op. rewrite En, bindS_Ok. unfold with_tx. rewrite (aw_tx _ _ _ _ _ _ _ Hw), set_no_updates, E by done.
  destruct (work_after _ _ _ _ _ _ _ _ Hw Hm') as (u & Et & -> & Hw').
  destruct (work_commit _ _ _ _ Hs _ _ _ _ _ Hw' (db_set_rows _ _ _ _ _ _ _ (ds_rep _ _ _ _ Hs) HR HF) Hlen) as (kv2 & Ea & Hr).
  unfold abortOrCommit. rewrite Ea. exists kv2, u. split; [|split; [by destruct (log_result kv u)|exact Hr]].
  eexists kv1, id, tx0, tx', _. split_and!; [done| |done|by rewrite Et].
  rewrite (aw_tx _ _ _ _ _ _ _ Hw). by rewrite set_no_updates.
Qed.

End rows.
End store.
