(* ===== verification/DBTheorems.v ===== *)
(** * What the database guarantees

    A SQL statement is one atomic step of a relational database that lives in
    the committed entries of the store; a SELECT returns the rows the condition
    asks for; the planner may not change what a condition means; rows written
    through the methods of [DB] follow their mode. *)

From Stdlib Require Import ZArith Lia.
From Stdlib.Strings Require Import Byte.
From stdpp Require Import base list numbers.
From S2P Require Import Prelude GoLib SortedSeq SortedKV SortedArray Merge File Entry SortedFile SortedFileProofs KVIterators.
From S2P Require Import Log Metadata KV KVCompact KVProofs KVCompactProofs KVSystem KVOps Samples KVTheorems.
From S2P Require Import Cell Row RowProofs Sql EvalProofs SqlTheorems Parser Planner PlannerProofs TxKV TxInstance Table.
From S2P Require Import TableProofs TableScan TableSelect TableStmt SchemaSample Relational DB Refine.

Open Scope Z_scope.

Section theorems.
Context `{BL : BloomLaws} `{MetaJson} {SJ : SchemaJson} {SL : SchemaJsonLaws}.

(** ** Statements *)

(** C4: Statements are atomic steps of a relational database: CREATE TABLE, DROP
    TABLE, INSERT, UPDATE and DELETE through [DB.ExecStmt] report the number of
    rows and leave the committed state that the specification [sql_step] gives
    for all tables, indices included.  The log decides about the writes [u] that
    the statement stages in its transaction: when it refuses them its error is
    reported and the committed database is the old one, otherwise the statement
    succeeds. *)
Theorem statement_atomic kv init commits db s db' n :
  db_state kv init commits db → sql_step db s db' n → Z.of_nat (length commits) < 2 ^ 64 - 1 →
  ∃ kv' u, writes_of kv s u ∧ db_ExecStmt kv s = (kv', _ ← log_result kv u; Ok (affected_result n, None)) ∧
    match log_result kv u with
    | Ok _ => ∃ commits', db_state kv' init commits' db' ∧ (length commits' ≤ S (length commits))%nat
    | _ => db_state kv' init commits db
    end.
Proof. intros Hs. by apply exec_refines. Qed.

(** A statement on a missing table, a CREATE TABLE of a name that is taken
    and an INSERT that does not fit the schema fail with their error, and the
    committed database is unchanged. *)
Theorem statement_errors kv init commits db s e :
  db_state kv init commits db → sql_error db s e →
  ∃ kv', db_ExecStmt kv s = (kv', Err e) ∧ db_state kv' init commits db.
Proof. intros Hs. by apply exec_errors. Qed.

(** C5: SELECT is correct whatever index the planner picks: draining the result
    returns without error the matching rows of the table, each once, in the
    order of the keys of one index, after OFFSET, LIMIT and projection; closing
    it ends its transaction and changes nothing.  [selects] asks that the columns
    exist, that the condition is within the depth the planner can handle, that
    condition and projection evaluate on the rows, and that OFFSET is not negative. *)
Theorem select_correct kv init commits db schema rows st proj cols :
  db_state kv init commits db → (schema, rows) ∈ db → selects schema rows st proj cols →
  Z.of_nat (length commits) < 2 ^ 64 - 1 →
  ∃ kv1 r id r' out kv2, db_ExecStmt kv (SSelect st) = (kv1, Ok (r, Some id)) ∧ sr_cols r = cols ∧
    Rows r = Ok (r', (out, None)) ∧ select_answer schema rows st proj out ∧
    sr_Close kv1 (r, Some id) = (kv2, (closed_result r, None), Ok tt) ∧ db_state kv2 init commits db.
Proof. intros Hs. by apply exec_select. Qed.

(** ** The planner *)

(** C31: The planner keeps the meaning of a condition: it always finds a plan,
    the bounds of the plan can be encoded, and a row matches the condition
    exactly when its index key lies between the bounds and it matches the
    residual condition.  The columns have distinct names, the condition is nested
    within the planner's bound ([plannable]), and it evaluates on the row. *)
Theorem plan_keeps_meaning schema cond :
  schema_ok schema → NoDup (map col_Name (sc_Cols schema)) → plannable cond →
  ∃ plan start stop desc, planScan schema cond = Ok plan ∧ range_bounds schema (pl_req plan) = Ok (start, stop, desc) ∧
    ∀ row k b, row_ok schema row → EncodeKey row schema (rq_IndexNo (pl_req plan)) = Ok k →
      matchRow schema row cond = Ok b →
      ∃ b', matchRow schema row (pl_residual plan) = Ok b' ∧ b = covers start stop desc k && b'.
Proof.
  intros Hok Hnd Hp. destruct (planScan_sound schema Hok Hnd cond Hp) as (plan & E & start & stop & desc & Hb & Hm).
  by exists plan, start, stop, desc.
Qed.

(** ** Nested transactions *)

(** Writes of a transaction: a value, or a deletion. *)
Definition run_writes (tx : KVTX) (ops : list (bytes * option bytes)) : KVTX :=
  foldl (fun tx '(k, v) => fst (match v with Some v => tx_Set tx k v | None => tx_Del tx k end)) tx ops.

Lemma run_writes_nested ops : ∀ o t u uo base, nested_over o t u uo base →
  (∀ k, (k, None) ∈ ops → val_at (shown uo base) k ≠ None) →
  ∃ u', nested_over o (run_writes t ops) u' uo base.
Proof.
  induction ops as [|[k [v|]] ops IH]; intros o t u uo base Hn Hd; [by exists u|..]; cbn [run_writes foldl];
    pose proof (nested_reads _ _ _ _ _ Hn) as Hr.
  - unfold tx_Set. rewrite (ro_set _ _ _ _ _ _ Hr) by (by left). cbn [fst].
    case_match; eapply IH; try (intros; apply Hd; by right); [by apply nested_write|done].
  - rewrite (ro_del _ _ _ _ Hr). cbn [fst]. case_bool_decide; eapply IH; try (intros; apply Hd; by right); [done|].
    apply nested_write; [done|]. intros _. apply Hd. by left.
Qed.

(** A nested transaction commits into its parent: for an open transaction of
    any reachable store and any writes in a transaction nested in it that
    delete only keys the parent sees, the commit succeeds and the parent then
    reads exactly what the nested one read. *)
Theorem nested_commit opts s id tx ops :
  store_state opts s → id ∈ kv_ongoing (sy_kv s) → kv_txs (sy_kv s) !! id = Some tx →
  (∀ k, (k, None) ∈ ops → tx_Get tx k ≠ Ok None) →
  let inner := run_writes (nested_NewTX tx) ops in
  ∃ tx', nested_applyTX tx inner = (tx', Ok tt) ∧ ∀ k, tx_Get tx' k = tx_Get inner k.
Proof.
  intros Hst Hid Htx Hd inner. destruct (store_inv _ _ Hst) as [Hinv _ _ _ _ _].
  destruct (i_txs _ _ _ _ Hinv id Hid) as (tx0 & n & Htx0 & Hr). rewrite Htx in Htx0. injection Htx0 as <-.
  pose proof Hr as (_ & _ & _ & _ & uo & Hu & Hs). set (base := state_at [] (sy_commits s) n).
  destruct (tx_means_reads [] (sy_commits s) tx n uo (SSorted_nil _) Hr Hu Hs) as (uo' & _ & Hro & _).
  destruct (run_writes_nested ops tx (nested_NewTX tx) [] uo' base) as (u & Hn).
  - split; [done|done|constructor|by intros e ?%elem_of_nil].
  - intros k Hk Hv. apply (Hd k Hk). rewrite (ro_get _ _ _ _ Hro). exact (f_equal Ok Hv).
  - destruct (commit_spec _ _ _ _ _ Hn) as (w & E & Hrw & Hsh). eexists. split; [exact E|]. intros k.
    rewrite (ro_get _ _ _ _ Hrw), Hsh. symmetry. by eapply ro_get, nested_reads.
Qed.

(** ** Rows *)

(** [Insert], [Upsert] and [Update] of [DB] by their mode. *)
Definition db_put (mode : Z) : KV → Schema → Row → KV * res bool :=
  if mode =? ModeUpsert then db_Upsert else if mode =? ModeInsert then db_Insert else db_Update.

(** Rows by mode: Insert writes a row whose primary key is new, Update one
    whose primary key is there with other columns, Upsert both, and nothing
    else changes; old index entries are gone and the report says whether
    anything was written.  A failure of the log changes nothing. *)
Theorem row_modes kv init commits db1 schema rows db2 mode row :
  db_state kv init commits (db1 ++ (schema, rows) :: db2) → Z.of_nat (length commits) < 2 ^ 64 - 1 →
  row_ok schema row → known_mode mode →
  let updated := row_updates mode (find_row schema rows (pk schema row)) row in
  let rows' := if updated then row :: others schema rows (pk schema row) else rows in
  ∃ kv' u, stages kv (fun tx => update tx schema row mode) u ∧ db_put mode kv schema row = (kv', _ ← log_result kv u; Ok updated) ∧
    match log_result kv u with
    | Ok _ => ∃ commits', db_state kv' init commits' (db1 ++ (schema, rows') :: db2) ∧ (length commits' ≤ S (length commits))%nat
    | _ => db_state kv' init commits (db1 ++ (schema, rows) :: db2)
    end.
Proof.
  intros Hs Hlen Hr Hm updated rows'.
  assert (table_schema schema) as Hts.
  { eapply tr_schema, (db_tables _ _ (ds_rep _ _ _ _ Hs) schema rows), elem_of_app. right. by left. }
  assert (db_put mode kv schema row = db_op kv (fun tx => update tx schema row mode)) as ->.
  { by destruct Hm as [->|[->| ->]]. }
  apply db_op_spec; [done|done|]. intros t m TL Hmean HR.
  by apply (update_spec schema Hts means (fun _ => True) means_writable t m rows row mode).
Qed.

(** Delete of [DB] removes a row with all its index entries and reports it,
    and reports nothing for a primary key that is not there. *)
Theorem row_removed kv init commits db1 schema rows db2 row :
  db_state kv init commits (db1 ++ (schema, rows) :: db2) → Z.of_nat (length commits) < 2 ^ 64 - 1 →
  row_ok schema row → (row ∈ rows ∨ pk schema row ∉ map (pk schema) rows) →
  let found := bool_decide (row ∈ rows) in
  ∃ kv' u, stages kv (fun tx => delete tx schema row) u ∧ db_Delete kv schema row = (kv', _ ← log_result kv u; Ok found) ∧
    match log_result kv u with
    | Ok _ => ∃ commits', db_state kv' init commits' (db1 ++ (schema, others schema rows (pk schema row)) :: db2) ∧
        (length commits' ≤ S (length commits))%nat
    | _ => db_state kv' init commits (db1 ++ (schema, rows) :: db2)
    end.
Proof.
  intros Hs Hlen Hr Hin found.
  assert (table_schema schema) as Hts.
  { eapply tr_schema, (db_tables _ _ (ds_rep _ _ _ _ Hs) schema rows), elem_of_app. right. by left. }
  apply db_op_spec; [done|done|]. intros t m TL Hmean HR. unfold found. case_bool_decide as Hf.
  - destruct (delete_present schema Hts means (fun _ => True) means_writable t m rows row) as (t' & m' & E & Hm' & HR' & HF & _);
      eauto 10.
  - destruct Hin as [Hin|Hpk]; [done|].
    destruct (delete_absent schema Hts means (fun _ => True) means_writable t m rows row) as (t' & m' & E & Hm' & ->); try done.
    exists t', m. rewrite others_absent by done. by split_and!.
Qed.

End theorems.

(** ** Witnesses: a new database, a table, a row *)

Definition w_create : StmtCreatTable := MkCreate (bs "t") (sc_Cols w_schema) [bs "id"] [[bs "name"; bs "n"]].
Definition w_insert : StmtInsert := MkInsert (bs "t") w_row1.

Definition w_exec (kv : KV) (s : stmt) : KV := fst (db_ExecStmt kv s).
Definition w_table : KV := w_exec w_kv0 (SCreateTable w_create).
Definition w_filled : KV := w_exec w_table (SInsert w_insert).

Lemma w_empty_state : db_state w_kv0 [] [] [].
Proof.
  destruct (fresh_inv w_opts w_kv0) as [Hi Hr _ _ _ _]; [vm_compute; reflexivity|]. split; [done|done|vm_compute; reflexivity|].
  split; [constructor|by intros ? ? ?%elem_of_nil|]. intros table _ _. split; [vm_compute; reflexivity|]. by intros [|? ?].
Qed.

Lemma w_creates : creates w_create w_schema.
Proof.
  split; [|cbn; lia| | |].
  - split; [done|]. split; [|vm_compute; reflexivity]. eexists. split; vm_compute; reflexivity.
  - split; repeat constructor.
  - apply (bool_decide_unpack _). vm_compute. exact I.
  - split; [done|]. apply (bool_decide_unpack _). vm_compute. exact I.
Qed.

Lemma w_create_step : sql_step [] (SCreateTable w_create) [(w_schema, [])] 0.
Proof. apply sql_create; [apply w_creates|]. apply not_elem_of_nil. Qed.

Lemma w_insert_step : sql_step [(w_schema, [])] (SInsert w_insert) [(w_schema, [w_row1])] 1.
Proof. apply (sql_rows [] w_schema [] []), row_insert; [done|apply w_row1_ok|done]. Qed.

(** After a success the log has accepted the writes. *)
Lemma log_accepted {A} (l : res unit) (x y : A) (P Q : Prop) :
  (_ ← l; Ok x) = Ok y → match l with Ok _ => P | _ => Q end → P.
Proof. by destruct l. Qed.

(** A statement that reported its rows was committed. *)
Lemma exec_done kv commits db s db' n :
  db_state kv [] commits db → sql_step db s db' n → Z.of_nat (length commits) < 2 ^ 64 - 1 →
  snd (db_ExecStmt kv s) = Ok (affected_result n, None) →
  ∃ commits', db_state (w_exec kv s) [] commits' db' ∧ (length commits' ≤ S (length commits))%nat.
Proof.
  intros Hs Hst Hlen E. destruct (exec_refines kv [] commits db Hs s db' n Hst Hlen) as (kv' & u & _ & Ex & Hd).
  unfold w_exec. rewrite Ex in *. cbn [fst snd] in *. by destruct (log_result kv u).
Qed.

Lemma w_table_state : ∃ commits, db_state w_table [] commits [(w_schema, [])] ∧ (length commits ≤ 1)%nat.
Proof. apply (exec_done w_kv0 [] [] _ _ 0); [apply w_empty_state|apply w_create_step|cbn; lia|vm_compute; reflexivity]. Qed.

Lemma w_filled_state : ∃ commits, db_state w_filled [] commits [(w_schema, [w_row1])] ∧ (length commits ≤ 2)%nat.
Proof.
  destruct w_table_state as (commits & Hs & Hl).
  destruct (exec_done w_table commits _ _ _ _ Hs w_insert_step) as (c & Hc & Hl'); [lia|vm_compute; reflexivity|].
  exists c. split; [done|lia].
Qed.

Lemma statement_atomic_witness :
  snd (db_ExecStmt w_kv0 (SCreateTable w_create)) = Ok (affected_result 0, None) ∧
  ∃ commits', db_state (w_exec w_kv0 (SCreateTable w_create)) [] commits' [(w_schema, [])].
Proof.
  split; [vm_compute; reflexivity|].
  destruct (statement_atomic w_kv0 [] [] [] (SCreateTable w_create) [(w_schema, [])] 0 w_empty_state w_create_step)
    as (kv' & u & _ & E & Hd); [cbn; lia|].
  assert (snd (db_ExecStmt w_kv0 (SCreateTable w_create)) = Ok (affected_result 0, None)) as Ev by (vm_compute; reflexivity).
  rewrite E in Ev. cbn [snd] in Ev. destruct (log_accepted _ _ _ _ _ Ev Hd) as (c & Hc & _). exists c. unfold w_exec. rewrite E. exact Hc.
Defined.

Lemma statement_errors_witness : ∃ kv', db_ExecStmt w_kv0 (SInsert w_insert) = (kv', Err (errorsNew "table is not found")) ∧
  db_state kv' [] [] [].
Proof.
  apply (statement_errors w_kv0 [] [] [] (SInsert w_insert)); [apply w_empty_state|].
  apply err_missing; [|apply not_elem_of_nil|done]. split; [done|]. apply (bool_decide_unpack _). vm_compute. exact I.
Defined.

(** SELECT n + 1 FROM t WHERE name = 'ab' *)
Definition w_cond : expr := EBinOp OP_EQ (EName (bs "name")) (ECell (MkCell TypeStr 0 (bs "ab"))).
Definition w_proj : expr := EBinOp OP_ADD (EName (bs "n")) (ECell (MkCell TypeI64 1 [])).
Definition w_select : StmtSelect := MkSelect (bs "t") [w_proj] (Some w_cond) (-1) 0.

Definition w_answer (kv : KV) (st : StmtSelect) : option (list Row * option error) :=
  match snd (db_ExecStmt kv (SSelect st)) with
  | Ok (r, _) => match Rows r with Ok (_, out) => Some out | _ => None end
  | _ => None
  end.

Lemma w_selects : selects w_schema [w_row1] w_select [w_proj]
  [MkDesc (expr2str w_proj) TypeI64].
Proof.
  split; [done|vm_compute; reflexivity| | | |done].
  - split; [|vm_compute; lia]. split; [done|]. apply (bool_decide_unpack _). vm_compute. exact I.
  - intros row ->%list_elem_of_singleton. exists true. vm_compute. reflexivity.
  - intros row ->%list_elem_of_singleton. eexists. vm_compute. reflexivity.
Qed.

Lemma select_correct_witness :
  w_answer w_filled w_select = Some ([[MkCell TypeI64 8 []]], None) ∧
  select_answer w_schema [w_row1] w_select [w_proj] [[MkCell TypeI64 8 []]].
Proof.
  assert (w_answer w_filled w_select = Some ([[MkCell TypeI64 8 []]], None)) as Ea by (vm_compute; reflexivity).
  split; [exact Ea|]. destruct w_filled_state as (commits & Hs & Hl).
  destruct (select_correct w_filled [] commits _ w_schema [w_row1] w_select [w_proj] _ Hs (list_elem_of_here _ _) w_selects)
    as (kv1 & r & id & r' & out & kv2 & E & _ & Er & Ha & _); [lia|].
  unfold w_answer in Ea. rewrite E in Ea. cbn [snd] in Ea. rewrite Er in Ea. injection Ea as ->. exact Ha.
Defined.

Lemma plan_keeps_meaning_witness :
  ∃ plan start stop desc, planScan w_schema (Some w_cond) = Ok plan ∧ rq_IndexNo (pl_req plan) = 1 ∧
    range_bounds w_schema (pl_req plan) = Ok (start, stop, desc) ∧
    ∀ row k b, row_ok w_schema row → EncodeKey row w_schema (rq_IndexNo (pl_req plan)) = Ok k →
      matchRow w_schema row (Some w_cond) = Ok b →
      ∃ b', matchRow w_schema row (pl_residual plan) = Ok b' ∧ b = covers start stop desc k && b'.
Proof.
  destruct (plan_keeps_meaning w_schema (Some w_cond)) as (plan & start & stop & desc & E & Hb & Hm).
  - apply w_schema_ok.
  - apply (bool_decide_unpack _). vm_compute. exact I.
  - apply w_selects.
  - exists plan, start, stop, desc. split; [exact E|]. split; [|split; [exact Hb|exact Hm]].
    assert (match planScan w_schema (Some w_cond) with Ok p => rq_IndexNo (pl_req p) | _ => 0 end = 1) as Ei by (vm_compute; reflexivity).
    by rewrite E in Ei.
Defined.

Definition w_row3 : Row := w_row (-5) (bs "zz") 9.

Lemma w_row3_updates : row_updates ModeUpsert (find_row w_schema [w_row1] (pk w_schema w_row3)) w_row3 = true.
Proof. vm_compute. reflexivity. Qed.
Lemma w_row3_others : others w_schema [w_row1] (pk w_schema w_row3) = [].
Proof. vm_compute. reflexivity. Qed.

Lemma row_modes_witness : ∃ kv' commits',
  db_put ModeUpsert w_filled w_schema w_row3 = (kv', Ok true) ∧ db_state kv' [] commits' [(w_schema, [w_row3])].
Proof.
  destruct w_filled_state as (commits & Hs & Hl).
  assert (snd (db_put ModeUpsert w_filled w_schema w_row3) = Ok true) as Ev by (vm_compute; reflexivity).
  destruct (row_modes w_filled [] commits [] w_schema [w_row1] [] ModeUpsert w_row3 Hs)
    as (kv' & u & _ & E & Hr).
  - lia.
  - apply (bool_decide_unpack _). vm_compute. exact I.
  - by left.
  - rewrite w_row3_updates, w_row3_others in Hr. rewrite E in Ev. cbn [snd] in Ev.
    destruct (log_accepted _ _ _ _ _ Ev Hr) as (c & Hc & _). exists kv', c. rewrite E, Ev. split; [reflexivity|exact Hc].
Defined.

Lemma w_row1_others : others w_schema [w_row1] (pk w_schema w_row1) = [].
Proof. vm_compute. reflexivity. Qed.

Lemma row_removed_witness : ∃ kv' commits',
  db_Delete w_filled w_schema w_row1 = (kv', Ok true) ∧ db_state kv' [] commits' [(w_schema, [])].
Proof.
  destruct w_filled_state as (commits & Hs & Hl).
  assert (snd (db_Delete w_filled w_schema w_row1) = Ok true) as Ev by (vm_compute; reflexivity).
  destruct (row_removed w_filled [] commits [] w_schema [w_row1] [] w_row1 Hs) as (kv' & u & _ & E & Hr).
  - lia.
  - apply w_row1_ok.
  - left. by left.
  - rewrite w_row1_others in Hr. rewrite E in Ev. cbn [snd] in Ev.
    destruct (log_accepted _ _ _ _ _ Ev Hr) as (c & Hc & _). exists kv', c. rewrite E, Ev. split; [reflexivity|exact Hc].
Defined.

Lemma w_deletes k : (k, None) ∈ [(bs "a", Some (bs "1")); (bs "k", None)] → tx_Get w_tx4 k ≠ Ok None.
Proof.
  assert (tx_Get w_tx4 (bs "k") = Ok (Some (bs "v"))) as Ev by (vm_compute; reflexivity). revert Ev. generalize w_tx4. intros tx Ev.
  intros [Hk|[Hk|Hk%elem_of_nil]%elem_of_cons]%elem_of_cons; [discriminate| |done]. apply (f_equal fst) in Hk. cbn [fst] in Hk.
  rewrite Hk, Ev. discriminate.
Qed.

Lemma nested_commit_witness :
  ∃ tx', nested_applyTX w_tx4 (run_writes (nested_NewTX w_tx4) [(bs "a", Some (bs "1")); (bs "k", None)]) = (tx', Ok tt) ∧
    tx_Get tx' (bs "a") = Ok (Some (bs "1")) ∧ tx_Get tx' (bs "k") = Ok None.
Proof.
  destruct (nested_commit w_opts w_s4 1 w_tx4 [(bs "a", Some (bs "1")); (bs "k", None)] w_step4) as (tx' & E & Hg).
  - apply (bool_decide_unpack _). vm_compute. exact I.
  - vm_compute. reflexivity.
  - exact w_deletes.
  - exists tx'. split; [exact E|]. split.
    + rewrite Hg. vm_compute. reflexivity.
    + rewrite Hg. vm_compute. reflexivity.
Defined.
