(* ===== verification/Reopen.v ===== *)
(** * Closing a store and opening it again

    [Open] of db/kv.go rebuilds the memtable from the log: the committed entries
    are sorted by key, stably, and the last one of a key is kept.  [logged]
    relates a store that has not been flushed with its log; such a store is
    found unchanged when its directory is opened again. *)

From Stdlib Require Import ZArith Lia.
From Stdlib.Strings Require Import Byte.
From stdpp Require Import base list numbers sorting.
From S2P Require Import Prelude GoLib SortedSeq SortedKV SortedArray Merge File Entry SortedFile.
From S2P Require Import SortedFileProofs KVIterators Log LogProofs Metadata KV KVCompact KVProofs.
From S2P Require Import KVCompactProofs KVSystem KVOps LogHistory.

Open Scope Z_scope.

(** ** The memtable of a log *)

(** The updates [us], oldest first. *)
Definition log_mem (us : list ent) : list ent := overlay (reverse us) [].

Lemma log_mem_sorted us : sorted (log_mem us).
Proof. apply overlay_sorted. constructor. Qed.

Lemma log_mem_snoc us e : log_mem (us ++ [e]) = upsert e (log_mem us).
Proof. unfold log_mem. by rewrite reverse_snoc. Qed.

Lemma log_mem_app us vs : log_mem (us ++ vs) = overlay (reverse vs) (log_mem us).
Proof. unfold log_mem, overlay. by rewrite reverse_app, foldr_app. Qed.

(** Sorted updates have each key once, so their order does not matter. *)
Lemma assoc_reverse u k : sorted u → assoc (reverse u) k = assoc u k.
Proof.
  induction u as [|e u IH]; intros Hu; [done|]. apply sorted_cons in Hu as [Hu Hf]. rewrite reverse_cons, assoc_app, IH by done. cbn [assoc].
  destruct (bytes_equal (e_key e) k) eqn:E; [|by destruct (assoc u k)]. apply bytes_equal_eq in E as <-.
  destruct (assoc u (e_key e)) as [e'|] eqn:Ea; [|done]. exfalso. pose proof (assoc_Some_key _ _ _ Ea) as Hk.
  apply assoc_elem in Ea. rewrite Forall_forall in Hf. specialize (Hf _ Ea). unfold ent_lt in Hf. rewrite Hk in Hf. by apply bytes_lt_irrefl in Hf.
Qed.

Lemma log_mem_commit us u : sorted u → log_mem (us ++ u) = overlay u (log_mem us).
Proof.
  intros Hu. rewrite log_mem_app. apply sorted_ext; try apply overlay_sorted, log_mem_sorted.
  intros k. by rewrite !assoc_overlay, assoc_reverse by (done || apply log_mem_sorted).
Qed.

(** *** Sorting keeps the order of the entries of a key *)

Definition key_is (k : bytes) (e : Entry) : Prop := en_key e = k.
#[local] Instance key_is_dec k e : Decision (key_is k e) := decide (en_key e = k).

Definition entry_le (a b : Entry) : Prop := ¬ bytes_lt (en_key b) (en_key a).

Lemma insert_stable_elem e l x : x ∈ insert_stable e l → x = e ∨ x ∈ l.
Proof.
  induction l as [|e' l IH]; cbn [insert_stable]; [intros ->%list_elem_of_singleton; by left|].
  destruct (bytes_compare (en_key e) (en_key e')); rewrite !elem_of_cons; tauto.
Qed.

Lemma entry_le_trans a b c : entry_le a b → entry_le b c → entry_le a c.
Proof.
  unfold entry_le. intros Hab Hbc Hca. destruct (bytes_lt_total (en_key a) (en_key b)) as [Hl|[He|Hl]]; [|congruence|done].
  apply Hbc. exact (bytes_lt_trans _ _ _ Hca Hl).
Qed.

Lemma insert_stable_spec e l k : StronglySorted entry_le l →
  StronglySorted entry_le (insert_stable e l) ∧
  filter (key_is k) (insert_stable e l) = filter (key_is k) (l ++ [e]).
Proof.
  induction l as [|e' l IH]; intros Hs; cbn [insert_stable app]; [by split; [repeat constructor|]|].
  apply StronglySorted_inv in Hs as [Hs Hf]. destruct (IH Hs) as [IH1 IH2].
  assert (¬ bytes_lt (en_key e) (en_key e') → StronglySorted entry_le (e' :: insert_stable e l) ∧
    filter (key_is k) (e' :: insert_stable e l) = filter (key_is k) (e' :: l ++ [e])) as Hbehind.
  { intros Hle. split.
    - constructor; [done|]. apply Forall_forall. intros x [->|Hx]%insert_stable_elem; [done|]. rewrite Forall_forall in Hf. by apply Hf.
    - by rewrite !filter_cons, IH2. }
  destruct (bytes_compare_spec (en_key e) (en_key e')) as [E|E|E].
  - apply Hbehind. rewrite E. apply bytes_lt_irrefl.
  - assert (Forall (entry_le e) (e' :: l)) as Hall.
    { constructor; [by apply bytes_lt_not|]. eapply Forall_impl; [exact Hf|]. intros x Hx. eapply entry_le_trans; [|exact Hx]. by apply bytes_lt_not. }
    split; [by constructor; [constructor|]|]. rewrite (filter_cons _ e).
    destruct (decide (key_is k e)) as [He|He].
    + assert (filter (key_is k) (e' :: l) = []) as Hn; [|change (e' :: l ++ [e]) with ((e' :: l) ++ [e]); rewrite filter_app, Hn, filter_cons_True by done; done].
      destruct (filter (key_is k) (e' :: l)) as [|x xs] eqn:Ex; [done|]. exfalso.
      assert (x ∈ filter (key_is k) (e' :: l)) as [Hk Hx]%list_elem_of_filter by (rewrite Ex; by left). unfold key_is in *.
      apply elem_of_cons in Hx as [->|Hx]; [rewrite Hk, He in E; by apply bytes_lt_irrefl in E|].
      rewrite Forall_forall in Hf. specialize (Hf x Hx). unfold entry_le in Hf. by rewrite Hk, <- He in Hf.
    + change (e' :: l ++ [e]) with ((e' :: l) ++ [e]). rewrite filter_app, (filter_cons_False _ e) by done. by rewrite app_nil_r.
  - apply Hbehind. by apply bytes_lt_not.
Qed.

Lemma sort_stable_spec es k :
  StronglySorted entry_le (sort_stable es) ∧ filter (key_is k) (sort_stable es) = filter (key_is k) es.
Proof.
  induction es as [|e es IH] using rev_ind; [by split; [constructor|]|]. unfold sort_stable in *. rewrite foldl_snoc.
  destruct IH as [IH1 IH2]. destruct (insert_stable_spec e _ k IH1) as [H1 H2]. split; [done|].
  by rewrite H2, !filter_app, IH2.
Qed.

(** *** The last entry of a key wins *)

Lemma assoc_last es k : assoc (log_mem (ent_of <$> es)) k = ent_of <$> last (filter (key_is k) es).
Proof.
  induction es as [|e es IH] using rev_ind; [done|]. rewrite fmap_app. change (ent_of <$> [e]) with [ent_of e].
  rewrite log_mem_snoc, assoc_upsert, filter_app by apply log_mem_sorted.
  destruct (bytes_equal (e_key (ent_of e)) k) eqn:E.
  - apply bytes_equal_eq in E. rewrite (filter_cons_True _ e), filter_nil by done. by rewrite last_snoc.
  - rewrite (filter_cons_False _ e), filter_nil; [by rewrite app_nil_r|]. intros Hk. unfold key_is in Hk. subst. cbn in E. by rewrite bytes_equal_refl in E.
Qed.

Lemma log_mem_stable es : log_mem (ent_of <$> sort_stable es) = log_mem (ent_of <$> es).
Proof.
  apply sorted_ext; try apply log_mem_sorted. intros k. rewrite !assoc_last. by destruct (sort_stable_spec es k) as [_ ->].
Qed.

(** An entry behind every smaller one. *)
Lemma upsert_last s e : Forall (fun x => bytes_lt (e_key x) (e_key e)) s → upsert e s = s ++ [e].
Proof.
  induction 1 as [|x s Hx _ IH]; [done|]. cbn [upsert app]. destruct (bytes_compare_spec (e_key e) (e_key x)) as [E|E|E].
  - rewrite E in Hx. by apply bytes_lt_irrefl in Hx.
  - exfalso. by eapply bytes_lt_not in Hx.
  - by rewrite IH.
Qed.

Lemma upsert_replace s x e : Forall (fun y => bytes_lt (e_key y) (e_key e)) s → e_key x = e_key e → upsert e (s ++ [x]) = s ++ [e].
Proof.
  intros Hs Hx. induction Hs as [|y s Hy _ IH]; cbn [upsert app]; [by rewrite Hx, bytes_compare_refl|].
  destruct (bytes_compare_spec (e_key e) (e_key y)) as [E|E|E].
  - rewrite E in Hy. by apply bytes_lt_irrefl in Hy.
  - exfalso. by eapply bytes_lt_not in Hy.
  - by rewrite IH.
Qed.

(** One round of the loop over the sorted entries. *)
Lemma mem_step s e : sorted s → Forall (fun x => ¬ bytes_lt (en_key e) (e_key x)) s →
  (let n := Size (arr_of s) in
   mem ← (if (0 <? n)%nat then
            k ← arr_Key (arr_of s) (n - 1);
            if bytes_equal k (en_key e) then arr_Pop (arr_of s) else Ok (arr_of s)
          else Ok (arr_of s));
   Ok (arr_Push mem (en_key e) (en_val e) (bool_decide (en_op e = EntryDel)))) = Ok (arr_of (upsert (ent_of e) s)).
Proof.
  intros Hs Hle. cbn zeta. rewrite arr_size_of. destruct s as [|x s _] using rev_ind; [done|].
  rewrite length_app. cbn [length]. replace (0 <? length s + 1)%nat with true by (symmetry; apply Nat.ltb_lt; lia).
  replace (length s + 1 - 1)%nat with (length s) by lia.
  unfold arr_Key. change (arr_keys (arr_of (s ++ [x]))) with (e_key <$> s ++ [x]).
  rewrite (proj2 (go_index_ok _ _ (e_key x))) by (by rewrite list_lookup_fmap, list_lookup_middle). rs.
  apply Forall_app in Hle as [Hle Hx]. rewrite Forall_singleton in Hx.
  assert (Forall (fun y => bytes_lt (e_key y) (e_key x)) s) as Hsx.
  { apply Forall_forall. intros y Hy. apply list_elem_of_lookup_1 in Hy as [i Hi]. pose proof (lookup_lt_Some _ _ _ Hi).
    eapply (sorted_lookup_lt (s ++ [x]) i (length s)); [done|by rewrite lookup_app_l|by rewrite list_lookup_middle|done]. }
  destruct (bytes_equal (e_key x) (en_key e)) eqn:E.
  - apply bytes_equal_eq in E. rewrite arr_Pop_of. rs. rewrite arr_Push_of, upsert_replace; [done| |done].
    cbn. by rewrite <- E.
  - rs. rewrite arr_Push_of, upsert_last; [done|]. cbn.
    assert (bytes_lt (e_key x) (en_key e)) as Hlt.
    { destruct (bytes_lt_total (e_key x) (en_key e)) as [?|[He|?]]; [done| |done]. rewrite He, bytes_equal_refl in E. done. }
    apply Forall_app. split; [|by constructor]. eapply Forall_impl; [exact Hsx|]. intros y Hy. exact (bytes_lt_trans _ _ _ Hy Hlt).
Qed.

Lemma log_mem_elem us x : x ∈ log_mem us → x ∈ us.
Proof.
  induction us as [|e us IH] using rev_ind; [done|]. rewrite log_mem_snoc, elem_of_app.
  intros [->|Hx]%upsert_elem; [right; by left|left; auto].
Qed.

Lemma mem_of_entries_spec es : mem_of_entries es = Ok (arr_of (log_mem (ent_of <$> es))).
Proof.
  rewrite <- log_mem_stable. unfold mem_of_entries. destruct (sort_stable_spec es []) as [Hs _].
  generalize dependent (sort_stable es). clear es. intros es Hs.
  induction es as [|e es IH] using rev_ind; [done|].
  rewrite foldM_app, IH; [|by eapply StronglySorted_app_1_l]. rs. cbn [foldM].
  rewrite mem_step; [rs; rewrite fmap_app; change (ent_of <$> [e]) with [ent_of e]; by rewrite log_mem_snoc|apply log_mem_sorted|].
  apply Forall_forall. intros x Hx%log_mem_elem. apply list_elem_of_fmap in Hx as (y & -> & Hy).
  eapply (StronglySorted_app_1_elem_of entry_le es [e]); [done|done|by left].
Qed.

(** ** A store that was never flushed *)

Section logged.
Context `{BL : BloomLaws} `{MetaJson}.

(** The parts of a store its directory depends on. *)
Record same_disk (kv kv' : KV) : Prop := {
  sd_meta : kv_meta kv' = kv_meta kv;
  sd_imm : kv_imm kv' = kv_imm kv;
  sd_main : kv_main kv' = kv_main kv;
  sd_files : kv_files kv' = kv_files kv;
}.

Lemma same_disk_trans kv1 kv2 kv3 : same_disk kv1 kv2 → same_disk kv2 kv3 → same_disk kv1 kv3.
Proof. intros [] []. split; congruence. Qed.

(** A store whose memtable is in its log and that has no tables. *)
Record logged (kv : KV) (us : list ent) : Prop := {
  lg_log : LogHistory.committed (kv_log kv) us;
  lg_mem : kv_mem kv = arr_of (log_mem us);
  lg_imm : kv_imm kv = None;
  lg_main : kv_main kv = [];
  lg_files : kv_files kv = [];
  lg_meta : f_view (mi_fp (slot0 (kv_meta kv))) = [] ∧ f_view (mi_fp (slot1 (kv_meta kv))) = [];
}.

Lemma logged_same kv kv' us : same_disk kv kv' → kv_log kv' = kv_log kv → kv_mem kv' = kv_mem kv → logged kv us → logged kv' us.
Proof. intros [E1 E2 E3 E4] El Em [L1 L2 L3 L4 L5 L6]. split; [by rewrite El|congruence..|by rewrite E1]. Qed.

Lemma NewTX_quiet kv kv' id : kv_main kv = [] → kv_closed kv = false → NewTX kv = Ok (kv', id) →
  same_disk kv kv' ∧ kv_log kv' = kv_log kv ∧ kv_mem kv' = kv_mem kv ∧ ∃ tx, kv_txs kv' !! id = Some tx ∧ tx_mainSnap tx = [].
Proof.
  intros Hm Hc. unfold NewTX. rewrite Hc, Hm. intros (levels & _ & Hn)%bind_ok. injection Hn as <- <-. cbn [foldl].
  split; [by constructor|]. split; [done|]. split; [done|]. eexists. split; [apply list_lookup_middle; done|done].
Qed.

Lemma untrack_quiet kv kv' id tx : kv_txs kv !! id = Some tx → tx_mainSnap tx = [] → untrackTXSync kv id = Ok kv' →
  same_disk kv kv' ∧ kv_log kv' = kv_log kv ∧ kv_mem kv' = kv_mem kv.
Proof.
  intros Ht Hs. unfold untrackTXSync. destruct (index_of id _); [|by intros [= <-]]. intros (h & _ & Hu)%bind_ok.
  apply bind_ok in Hu as (tx' & Hx & Hu). apply go_index_ok in Hx. rewrite Ht in Hx. injection Hx as <-. rewrite Hs in Hu. by injection Hu as <-.
Qed.

(** What a commit does to the log and the memtable. *)
Lemma apply_updates_effect kv tx kv' u : apply_updates kv tx = (kv', Ok tt) → tx_updates tx = arr_of u → u ≠ [] →
  same_disk kv kv' ∧ kv_txs kv' = kv_txs kv ∧ updateLog (kv_log kv) (arr_of u) = (kv_log kv', Ok tt) ∧
  updateMem (kv_mem kv) (arr_of u) = Ok (kv_mem kv').
Proof.
  intros Ha Hu Hne. unfold apply_updates in Ha. rewrite Hu, arr_size_of in Ha.
  assert ((length u =? 0)%nat = false) as E by (destruct u; done). rewrite E in Ha. clear E.
  destruct (checkTXConflict kv tx) as [[]| | |]; cbn [bindS] in Ha; try done.
  destruct (updateLog (kv_log kv) (arr_of u)) as [log [[]| | |]] eqn:El; cbn [bindS] in Ha; try done.
  cbn [kv_mem set_log] in Ha. destruct (updateMem (kv_mem kv) (arr_of u)) as [mem| | |] eqn:Em; cbn [bindS] in Ha; try done.
  destruct (updateHistory _ tx) as [kv2| | |] eqn:Eh; cbn [bindS] in Ha; try done. injection Ha as <-.
  unfold updateHistory in Eh. case_if_in Eh.
  - apply bind_ok in Eh as (it & _ & Eh). apply bind_ok in Eh as (h & _ & Eh). by injection Eh as <-.
  - by injection Eh as <-.
Qed.

(** A transaction at work in a store that was never flushed. *)
Lemma write_logged kv us id tx : logged kv us → logged (set_txs kv (<[id := tx]> (kv_txs kv))) us.
Proof. intros Hl. by eapply (logged_same kv); [constructor|..]. Qed.

(** Committing writes that fit: they are logged. *)
Lemma commit_logged kv init commits kv2 id tx u us :
  at_work kv init commits kv2 id tx u → logged kv2 us → tx_mainSnap tx = [] → Forall small u →
  Z.of_nat (length commits) < 2 ^ 64 - 1 → l_seq (kv_log kv2) + Z.of_nat (length u) < 2 ^ 64 - 1 →
  ∃ kv', applyTXSync kv2 id = (kv', Ok tt) ∧ logged kv' (us ++ u) ∧ refs_ok kv' ∧ kv_closed kv' = false ∧
    inv kv' init (if decide (u = []) then commits else commits ++ [u]) ∧
    l_seq (kv_log kv') ≤ l_seq (kv_log kv2) + Z.of_nat (length u) + 1.
Proof.
  intros Hw Hlg Hsnap Hsm Hlen Hq. pose proof (aw_sorted _ _ _ _ _ _ _ Hw) as Hsu. destruct (lg_log _ _ Hlg) as (ec & Hok & Hd).
  destruct (updateLog_ok (kv_log kv2) ec u Hok Hsu Hsm Hq) as (log' & es & com & El & Hes & Hok1 & Hcom & Hok2 & Hseq).
  destruct (at_work_commit _ _ _ _ _ _ _ Hw Hlen) as (kv' & r & E & Hi & Hr & Ho & Hres).
  unfold log_result in Hres. rewrite <- (aw_log _ _ _ _ _ _ _ Hw), El in Hres.
  assert (r = Ok tt) as -> by (rewrite Hres; by destruct (decide (u = []))). clear Hres.
  exists kv'. split; [done|].
  cut (logged kv' (us ++ u) ∧ l_seq (kv_log kv') ≤ l_seq (kv_log kv2) + Z.of_nat (length u) + 1).
  { intros []. split_and!; try done. destruct (decide (u = [])) as [->|]; [done|]. by destruct u. }
  clear Hi Hr Ho. revert E. unfold applyTXSync. rewrite (proj2 (go_index_ok _ _ _) (aw_tx _ _ _ _ _ _ _ Hw)). cbn [bindS].
  change (tx_err (set_updates tx (arr_of u))) with (tx_err tx). rewrite (proj1 (aw_reads _ _ _ _ _ _ _ Hw)).
  destruct (apply_updates kv2 (set_updates tx (arr_of u))) as [kv3 r3] eqn:Ea.
  destruct (untrackTXSync kv3 id) as [kv4| | |] eqn:Eu; cbn [bindS]; try done. destruct r3 as [[]| | |]; cbn [bindS]; try done.
  intros [= <-]. destruct (decide (u = [])) as [->|Hne].
  - rewrite app_nil_r in *. cbn in Ea. injection Ea as <-.
    destruct (untrack_quiet _ _ _ _ (aw_tx _ _ _ _ _ _ _ Hw) Hsnap Eu) as (U1 & U2 & U3).
    split; [by eapply (logged_same kv2)|rewrite U2; cbn; lia].
  - destruct (apply_updates_effect _ _ _ u Ea eq_refl Hne) as (A1 & A2 & A3 & A4).
    pose proof (aw_tx _ _ _ _ _ _ _ Hw) as Ht2. rewrite <- A2 in Ht2.
    destruct (untrack_quiet _ _ _ _ Ht2 Hsnap Eu) as (U1 & U2 & U3). pose proof (same_disk_trans _ _ _ A1 U1) as [S1 S2 S3 S4].
    rewrite El in A3. injection A3 as ->. rewrite (lg_mem _ _ Hlg), updateMem_spec in A4 by (apply log_mem_sorted || done).
    injection A4 as Am. destruct Hlg as [L1 L2 L3 L4 L5 L6].
    split; [|rewrite U2; lia]. split; [rewrite U2, <- Hd, <- Hes; by eapply committed_commit|rewrite U3, <- Am; by rewrite log_mem_commit|congruence..|by rewrite S1].
Qed.

(** A new transaction of such a store. *)
Lemma begin_logged kv init commits us :
  inv kv init commits → refs_ok kv → kv_closed kv = false → logged kv us →
  ∃ kv1 id tx, NewTX kv = Ok (kv1, id) ∧ at_work kv init commits kv1 id tx [] ∧ tx_updates tx = arr_empty ∧
    logged kv1 us ∧ tx_mainSnap tx = [].
Proof.
  intros Hinv Hrefs Hopen Hlg. destruct (at_work_new kv init commits Hinv Hrefs Hopen) as (kv1 & id & tx & En & Hw & Hu0).
  destruct (NewTX_quiet _ _ _ (lg_main _ _ Hlg) Hopen En) as (Q1 & Q2 & Q3 & tx' & Ht' & Hsnap).
  rewrite (aw_tx _ _ _ _ _ _ _ Hw), set_no_updates in Ht' by done. injection Ht' as <-.
  exists kv1, id, tx. split_and!; try done. by eapply (logged_same kv).
Qed.

(** [SetEx] of an entry that fits: it is logged, or it changes nothing. *)
Lemma SetEx_logged kv init commits us k v :
  inv kv init commits → refs_ok kv → kv_closed kv = false → Z.of_nat (length commits) < 2 ^ 64 - 1 →
  logged kv us → (mode_updates ModeUpsert (current init commits k) v = true → small (Ent k v false)) → l_seq (kv_log kv) < 2 ^ 64 - 2 →
  let u := if mode_updates ModeUpsert (current init commits k) v then [Ent k v false] else [] in
  ∃ kv' b, kv_SetEx kv k v ModeUpsert = (kv', Ok b) ∧ logged kv' (us ++ u) ∧ refs_ok kv' ∧ kv_closed kv' = false ∧
    inv kv' init (if decide (u = []) then commits else commits ++ [u]) ∧ l_seq (kv_log kv') ≤ l_seq (kv_log kv) + 2.
Proof.
  intros Hinv Hrefs Hopen Hlen Hlg Hsm Hq u.
  destruct (begin_logged kv init commits us Hinv Hrefs Hopen Hlg) as (kv1 & id & tx & En & Hw & Hu0 & Hlg1 & Hsnap).
  assert (sorted u ∧ Forall small u ∧ (length u ≤ 1)%nat) as (Hsu & Hsmu & Hlu) by (unfold u; destruct (mode_updates _ _ _); repeat constructor; auto).
  unfold kv_SetEx. rewrite En. cbn [bindS]. unfold with_tx. rewrite (aw_tx _ _ _ _ _ _ _ Hw), set_no_updates by done.
  rewrite (tx_SetEx_spec tx init commits (length commits) []); [|apply (i_init _ _ _ _ Hinv)|apply Hw|done|constructor|by left].
  change (visible _) with (current init commits k). fold u.
  set (tx2 := if mode_updates ModeUpsert (current init commits k) v then _ else tx).
  assert (tx2 = set_updates tx (arr_of u)) as ->.
  { unfold tx2, u. destruct (mode_updates _ _ _); [done|]. by rewrite set_no_updates. }
  pose proof (aw_log _ _ _ _ _ _ _ Hw) as Hlog.
  destruct (commit_logged _ _ _ _ _ _ u us (at_work_write _ _ _ _ _ _ _ u Hw Hsu) (write_logged _ _ _ _ Hlg1) Hsnap Hsmu Hlen)
    as (kv' & E & Hl' & Hr' & Ho' & Hi' & Hs'); [cbn [kv_log set_txs]; rewrite Hlog; lia|].
  unfold abortOrCommit. rewrite E. cbn [bindS]. eexists kv', _. split_and!; try done.
  cbn [kv_log set_txs] in Hs'. rewrite Hlog in Hs'. lia.
Qed.

(** An entry the log refuses fails the call. *)
Lemma updateLog_too_large log ec e : log_ok log ec [] → ¬ small e → snd (updateLog log (arr_of [e])) = Err ErrEntryTooLarge.
Proof.
  intros Hok Hsm. unfold updateLog, defer_ResetTX. change (arr_Iter (arr_of [e])) with (Ok (arr_iter_at (arr_of [e]) 0)). cbn [bindS].
  assert (At (arr_iter_at (arr_of [e]) 0) [e] 0) as Hat by (split; [done|]; split; [repeat constructor|cbn; lia]).
  destruct (At_entry _ _ _ e Hat ltac:(lia) eq_refl) as (Hk & Hx & Hd).
  assert (write_entries (steps (arr_iter_at (arr_of [e]) 0)) (arr_iter_at (arr_of [e]) 0) log = (log, Err ErrEntryTooLarge)) as ->; [|done].
  change (steps (arr_iter_at (arr_of [e]) 0)) with 1%nat. cbn [write_entries]. rewrite (At_valid _ _ _ Hat), bool_decide_true by (cbn; lia).
  rewrite Hk, Hx, Hd. rs. cbn [bindS]. rewrite (log_Write_too_large log); [done|]. unfold small in Hsm. cbn. lia.
Qed.

(** The committed value of a key. *)
Lemma logged_current kv init commits us k : inv kv init commits → logged kv us →
  current init commits k = visible (assoc (log_mem us) k).
Proof.
  intros Hi [L1 L2 L3 L4 L5 L6]. destruct (i_now _ _ _ _ Hi) as (m & ims & fs & Hm & _ & Him & Ht & Hv).
  rewrite L3 in Him. subst ims. rewrite L4 in Ht. inversion Ht; subst. rewrite L2 in Hm.
  apply (f_equal arr_ents) in Hm. rewrite !arr_ents_of in Hm. subst m. unfold current. rewrite <- Hv. cbn [app].
  by rewrite merge_levels_single by apply log_mem_sorted.
Qed.

(** ** Opening the directory of a store *)

(** What a store leaves in its directory. *)
Definition disk_of (kv : KV) : disk :=
  MkDisk (f_view (mi_fp (slot0 (kv_meta kv)))) (f_view (mi_fp (slot1 (kv_meta kv))))
    (match l_fp (kv_log kv) with Some fp => f_view fp | None => [] end) (kv_files kv).

(** A store as [Open] builds it, before any transaction. *)
Lemma opened_inv kv m : kv_mem kv = arr_of m → sorted m → kv_imm kv = None → kv_main kv = [] → kv_tables kv = [] →
  kv_snapshot kv = 0 → kv_history kv = [] → kv_ongoing kv = [] → inv kv m [] ∧ refs_ok kv.
Proof.
  intros Em Hm Ei Ema Et Es Eh Eo. split.
  - constructor; rewrite ?Ema, ?Es, ?Eh, ?Eo; try done; try by constructor.
    + exists m, [], []. rewrite Ei. split_and!; try done; [by constructor|]. cbn [app].
      intros k. change (visible (assoc (merge_levels [m]) k) = visible (assoc m k)). by rewrite merge_levels_single.
    + intros id Hid. by apply elem_of_nil in Hid.
    + intros h Hh. by apply elem_of_nil in Hh.
  - unfold refs_ok, held. rewrite Ema, Eo. split; rewrite ?Et; try done. intros tid Hin. by apply elem_of_nil in Hin.
Qed.

(** A store that was never flushed is found as it was closed. *)
Lemma reopen_logged opts kv us : logged kv us →
  ∃ kv', kv_Open opts (disk_of kv) = Ok kv' ∧ inv kv' (log_mem us) [] ∧ refs_ok kv' ∧ kv_closed kv' = false ∧ logged kv' us.
Proof.
  intros [(ec & Hok & Hd) L2 L3 L4 L5 [M0 M1]]. unfold disk_of. rewrite M0, M1, L5, (lo_fp _ _ _ Hok).
  change (f_view _) with (log_content (l_epoch (kv_log kv)) ec).
  destruct (replay_log_ok (l_epoch (kv_log kv)) ec [] []) as (log' & Hr & Hok' & _);
    [apply Hok|apply Hok|done|rewrite app_nil_r|rewrite app_nil_r|apply dead_nil|].
  1: pose proof (lo_entries _ _ _ Hok) as Hx; by rewrite app_nil_r in Hx.
  1: pose proof (lo_increasing _ _ _ Hok) as Hx; by rewrite app_nil_r in Hx.
  change (records [] ++ []) with (@nil byte) in Hr. rewrite app_nil_r in Hr.
  unfold kv_Open. cbn [d_meta0 d_meta1 d_log d_files fmap list_fmap]. unfold openLog. rewrite Hr. cbn [bindS].
  rewrite mem_of_entries_spec, Hd. rs. eexists. split; [reflexivity|]. apply (proj1 (Logic.and_assoc _ _ _)). split; [|split; [reflexivity|]].
  - clear Hr. apply opened_inv; try reflexivity. apply log_mem_sorted.
  - clear Hr. split; try reflexivity; [|by split]. exists ec. split; [exact Hok'|exact Hd].
Qed.

Lemma fresh_logged opts : ∃ kv, kv_Open opts (MkDisk [] [] [] []) = Ok kv ∧ logged kv [] ∧ kv_log kv = new_log ∧
  inv kv [] [] ∧ refs_ok kv ∧ kv_closed kv = false.
Proof.
  unfold kv_Open, openLog. cbn [d_meta0 d_meta1 d_log d_files fmap list_fmap]. rewrite replay_empty.
  eexists. split; [reflexivity|]. split; [|split; [reflexivity|]].
  - split; try reflexivity; [|by split]. exists []. split; [apply new_log_ok|done].
  - apply (proj1 (Logic.and_assoc _ _ _)). split; [|reflexivity]. apply opened_inv; try reflexivity. constructor.
Qed.

End logged.
