(* ===== verification/Recovery.v ===== *)
(** * Recovering a store after a crash

    [durable] relates a store that may have a flush or a merge in flight with
    its directory: the log holds the memtables, the metadata names the tables,
    and every table can be opened from its file.  Every step of the store
    keeps it, so that [Open] of db/kv.go finds the committed state whatever the
    store was doing. *)

From Stdlib Require Import ZArith Lia.
From Stdlib.Strings Require Import Byte.
From stdpp Require Import base list numbers.
From S2P Require Import Prelude GoLib SortedSeq SortedKV SortedArray Merge File Entry SortedFile.
From S2P Require Import SortedFileProofs KVIterators Log LogProofs Metadata KV KVCompact KVProofs.
From S2P Require Import KVCompactProofs KVSystem KVOps LogHistory Reopen.

Open Scope Z_scope.

Section recovery.
Context `{BL : BloomLaws} `{MJ : MetaJson} `{!MetaJsonLaws}.

(** ** What the directory holds *)

(** The file of an open table can be opened again, with the same entries. *)
Definition stored (kv : KV) (t : TableRef) : Prop :=
  ∃ s file, sf_Holds (tr_file t) s ∧
    openExisting (file_content (kv_files kv) (tr_FileName t)) = Ok file ∧ sf_Holds file s.

(** A name the metadata may list at version [v]. *)
Definition named (v : Z) (name : bytes) : Prop := ∃ w, 0 < w ≤ v ∧ name = sstableName w.

Definition table_name (kv : KV) (id : nat) : bytes :=
  match kv_tables kv !! id with Some t => tr_FileName t | None => [] end.

(** The version that the compaction in flight will publish. *)
Definition phase_publishes (p : phase) : option Z :=
  match p with
  | Idle => None
  | Frozen v _ _ | Written v _ _ _ | Merging _ v _ _ _ | Merged _ v _ _ _ _ => Some v
  end.

(** The newest version a table can have: the table of the compaction in flight
    does not exist before it is written. *)
Definition table_bound (kv : KV) (p : phase) : Z :=
  match p with
  | Frozen v _ _ | Merging _ v _ _ _ => v - 1
  | _ => kv_version kv
  end.

Definition phase_table (kv : KV) (p : phase) : Prop :=
  match p with
  | Written v _ _ id | Merged _ v _ _ _ id => table_name kv id = sstableName v
  | _ => True
  end.

Record durable (kv : KV) (p : phase) : Prop := {
  du_log : ∃ older newer, LogHistory.committed (kv_log kv) (older ++ newer) ∧
    kv_mem kv = arr_of (log_mem newer) ∧
    match kv_imm kv with Some imm => imm = arr_of (log_mem older) | None => older = [] end;
  du_meta : meta_ok (kv_meta kv);
  du_main : md_SSTables (meta_Get (kv_meta kv)) = table_name kv <$> kv_main kv;
  du_named : Forall (named (md_Version (meta_Get (kv_meta kv)))) (md_SSTables (meta_Get (kv_meta kv)));
  du_nodup : NoDup (md_SSTables (meta_Get (kv_meta kv)));
  du_version : 0 ≤ md_Version (meta_Get (kv_meta kv)) ≤ kv_version kv;
  du_next v : phase_publishes p = Some v → md_Version (meta_Get (kv_meta kv)) < v ≤ kv_version kv;
  du_tables id t : kv_tables kv !! id = Some t → named (table_bound kv p) (tr_FileName t);
  du_distinct : NoDup (tr_FileName <$> kv_tables kv);
  du_files id t : kv_tables kv !! id = Some t → tr_open t = true → stored kv t;
  du_table : phase_table kv p;
}.

(** *** Operations on transactions and reference counts *)

(** Nothing durable changes: tables may be closed and their files removed, the
    files of the others are left alone. *)
Record quiet (kv kv' : KV) : Prop := {
  q_log : kv_log kv' = kv_log kv;
  q_meta : kv_meta kv' = kv_meta kv;
  q_mem : kv_mem kv' = kv_mem kv;
  q_imm : kv_imm kv' = kv_imm kv;
  q_main : kv_main kv' = kv_main kv;
  q_version : kv_version kv' = kv_version kv;
  q_names : tr_FileName <$> kv_tables kv' = tr_FileName <$> kv_tables kv;
  q_open id t' : kv_tables kv' !! id = Some t' → tr_open t' = true →
    ∃ t, kv_tables kv !! id = Some t ∧ tr_open t = true ∧ tr_file t' = tr_file t ∧
      file_content (kv_files kv') (tr_FileName t) = file_content (kv_files kv) (tr_FileName t);
}.

Lemma names_lookup kv kv' id t' : tr_FileName <$> kv_tables kv' = tr_FileName <$> kv_tables kv →
  kv_tables kv' !! id = Some t' → ∃ t, kv_tables kv !! id = Some t ∧ tr_FileName t' = tr_FileName t.
Proof.
  intros E Ht. apply (f_equal (fun l => l !! id)) in E. rewrite !list_lookup_fmap, Ht in E. cbn in E.
  destruct (kv_tables kv !! id) as [t|]; [|done]. injection E as E. eauto.
Qed.

Lemma table_name_quiet kv kv' id :
  tr_FileName <$> kv_tables kv' = tr_FileName <$> kv_tables kv → table_name kv' id = table_name kv id.
Proof.
  intros E. apply (f_equal (fun l => l !! id)) in E. rewrite !list_lookup_fmap in E. unfold table_name.
  destruct (kv_tables kv' !! id), (kv_tables kv !! id); cbn in E; congruence.
Qed.

Lemma table_name_names kv kv' : tr_FileName <$> kv_tables kv' = tr_FileName <$> kv_tables kv →
  ∀ ids : list nat, table_name kv' <$> ids = table_name kv <$> ids.
Proof. intros E ids. apply list_fmap_ext. intros _ id _. by apply table_name_quiet. Qed.

Lemma quiet_refl kv : quiet kv kv.
Proof. constructor; try done. eauto. Qed.

Lemma quiet_trans kv1 kv2 kv3 : quiet kv1 kv2 → quiet kv2 kv3 → quiet kv1 kv3.
Proof.
  intros [A1 A2 A3 A4 A5 A6 A7 A8] [B1 B2 B3 B4 B5 B6 B7 B8]. constructor; [congruence..|].
  intros id t3 Ht3 Ho3. destruct (B8 _ _ Ht3 Ho3) as (t2 & Ht2 & Ho2 & E2 & F2).
  destruct (A8 _ _ Ht2 Ho2) as (t1 & Ht1 & Ho1 & E1 & F1). exists t1. split_and!; [done..|congruence|].
  destruct (names_lookup _ _ _ _ A7 Ht2) as (t & Ht & En). rewrite Ht1 in Ht. injection Ht as <-. by rewrite <- En, F2, En.
Qed.

Lemma durable_quiet kv kv' p : quiet kv kv' → durable kv p → durable kv' p.
Proof.
  intros [Q1 Q2 Q3 Q4 Q5 Q6 Q7 Q8] [D1 D2 D3 D4 D5 D6 D7 D8 D9 D10 D11]. constructor; rewrite ?Q1, ?Q2, ?Q3, ?Q4, ?Q5, ?Q6, ?Q7; try done.
  - by rewrite (table_name_names _ _ Q7).
  - intros id t' Ht'. destruct (names_lookup _ _ _ _ Q7 Ht') as (t & Ht & ->). specialize (D8 _ _ Ht). destruct p; cbn in *; by rewrite ?Q6.
  - intros id t' Ht' Ho'. destruct (names_lookup _ _ _ _ Q7 Ht') as (t0 & Ht0 & En).
    destruct (Q8 _ _ Ht' Ho') as (t & Ht & Ho & Ef & Ec). rewrite Ht in Ht0. injection Ht0 as <-.
    destruct (D10 _ _ Ht Ho) as (s & file & S1 & S2 & S3). exists s, file. rewrite Ef, En, Ec. done.
  - destruct p; cbn in *; try done; by rewrite (table_name_quiet _ _ _ Q7).
Qed.

(** A change of one table that keeps its name. *)
Lemma quiet_upd kv id f :
  (∀ t, tr_FileName (f t) = tr_FileName t ∧ tr_file (f t) = tr_file t ∧ tr_open (f t) = tr_open t) → quiet kv (upd_table kv id f).
Proof.
  intros Hf. constructor; try done; cbn.
  - apply list_eq. intros i. rewrite !list_lookup_fmap. destruct (decide (i = id)) as [->|Hne].
    + rewrite list_lookup_alter_eq. destruct (kv_tables kv !! id) as [t|]; [|done]. cbn. f_equal. apply Hf.
    + by rewrite list_lookup_alter_ne.
  - intros i t' Ht' Ho'. destruct (decide (i = id)) as [->|Hne].
    + rewrite list_lookup_alter_eq in Ht'. destruct (kv_tables kv !! id) as [t|]; [|done]. injection Ht' as <-.
      destruct (Hf t) as (_ & E2 & E3). exists t. split_and!; try done. congruence.
    + rewrite list_lookup_alter_ne in Ht' by done. eauto.
Qed.

Lemma quiet_acquires ids kv : quiet kv (foldl acquire kv ids).
Proof.
  revert kv. induction ids as [|id ids IH]; intros kv; [apply quiet_refl|]. cbn [foldl].
  eapply quiet_trans; [|apply IH]. by apply quiet_upd.
Qed.

Lemma remove_other files name n : n ≠ name → file_content (remove_file files name) n = file_content files n.
Proof.
  intros Hn. unfold file_content, remove_file. rewrite list_filter_filter.
  induction files as [|[m c] files IH]; [done|]. rewrite !filter_cons.
  destruct (decide (m = n)) as [->|Hm].
  - rewrite decide_True by done. done.
  - destruct (decide (m = n ∧ m ≠ name)) as [[? _]|_]; done.
Qed.

Lemma quiet_release kv id kv' : NoDup (tr_FileName <$> kv_tables kv) → release kv id = Ok kv' → quiet kv kv'.
Proof.
  intros Hnd Hr. unfold release in Hr. apply bind_ok in Hr as (t & Ht & Hr). apply go_index_ok in Ht. rs.
  destruct (0 <=? tr_refs t - 1); cbn [check] in Hr; [|done]. rs. injection Hr as <-.
  constructor; try done; cbn.
  - rewrite list_fmap_insert. cbn. apply list_insert_id. by rewrite list_lookup_fmap, Ht.
  - intros i t' Ht' Ho'. destruct (decide (i = id)) as [->|Hne].
    + rewrite list_lookup_insert_eq in Ht' by (by eapply lookup_lt_Some). injection Ht' as <-. cbn in Ho'.
      exists t. split; [done|]. destruct (0 <? tr_refs t - 1); [|done]. done.
    + rewrite list_lookup_insert_ne in Ht' by done. exists t'. split_and!; try done.
      destruct (_ || _); [done|]. apply remove_other. intros En. apply Hne.
      eapply (NoDup_lookup (tr_FileName <$> kv_tables kv)); [done|rewrite list_lookup_fmap, Ht'; done|].
      rewrite list_lookup_fmap, Ht. cbn. by rewrite En.
Qed.

Lemma quiet_releases ids : ∀ kv kv', NoDup (tr_FileName <$> kv_tables kv) → foldM release kv ids = Ok kv' → quiet kv kv'.
Proof.
  induction ids as [|id ids IH]; intros kv kv' Hnd; cbn [foldM]; [intros [= <-]; apply quiet_refl|].
  intros (kv1 & Hr & Hrs)%bind_ok. pose proof (quiet_release _ _ _ Hnd Hr) as Hq.
  eapply quiet_trans; [exact Hq|]. apply IH; [|done]. by rewrite (q_names _ _ Hq).
Qed.

Lemma quiet_new kv kv' id : NewTX kv = Ok (kv', id) → quiet kv kv'.
Proof.
  unfold NewTX. destruct (kv_closed kv); [intros [= <- _]; constructor; eauto|].
  intros (levels & _ & Hn)%bind_ok. injection Hn as <- _. destruct (quiet_acquires (kv_main kv) kv). by constructor.
Qed.

Lemma quiet_untrack kv kv' id : NoDup (tr_FileName <$> kv_tables kv) → untrackTXSync kv id = Ok kv' → quiet kv kv'.
Proof.
  intros Hnd. unfold untrackTXSync. destruct (index_of id (kv_ongoing kv)); [|intros [= <-]; apply quiet_refl].
  intros (h & _ & Hu)%bind_ok. apply bind_ok in Hu as (tx & _ & Hu). apply quiet_releases in Hu; [|done]. destruct Hu. by constructor.
Qed.

Lemma quiet_with_tx {A} kv id (f : KVTX → KVTX * res A) : quiet kv (fst (with_tx kv id f)).
Proof.
  unfold with_tx. destruct (kv_txs kv !! id) as [tx|]; [|apply quiet_refl]. destruct (f tx). cbn. constructor; eauto.
Qed.

(** *** Commit *)

Lemma updateLog_committed log done u :
  LogHistory.committed log done → sorted u → Forall small u → l_seq log + Z.of_nat (length u) < 2 ^ 64 - 1 →
  ∃ log', updateLog log (arr_of u) = (log', Ok tt) ∧ LogHistory.committed log' (done ++ u).
Proof.
  intros (ec & Hok & Hd) Hs Hsm Hq.
  destruct (updateLog_ok log ec u Hok Hs Hsm Hq) as (log' & es & com & El & Hes & Hok1 & Hcom & Hok2 & _).
  exists log'. split; [done|]. rewrite <- Hd, <- Hes. by eapply committed_commit.
Qed.

(** The updates of a transaction that fits reach the log and the memtable, or
    nothing changes. *)
Lemma durable_apply kv p tx u kv' r :
  durable kv p → tx_updates tx = arr_of u → sorted u → Forall small u → l_seq (kv_log kv) + Z.of_nat (length u) < 2 ^ 64 - 1 →
  apply_updates kv tx = (kv', r) → durable kv' p ∧ kv_tables kv' = kv_tables kv.
Proof.
  intros Hd Hu Hs Hsm Hq. unfold apply_updates. rewrite Hu, arr_size_of. destruct (length u =? 0)%nat; [by intros [= <- _]|].
  rewrite (checkTXConflict_spec kv tx u) by done. cbn [bindS]. destruct (conflicts _ _ u); [by intros [= <- _]|].
  destruct Hd as [(older & newer & L1 & L2 & L3) D2 D3 D4 D5 D6 D7 D8 D9 D10 D11].
  destruct (updateLog_committed _ _ u L1 Hs Hsm Hq) as (log' & -> & Hc). cbn [bindS kv_mem set_log].
  rewrite L2, updateMem_spec by (done || apply log_mem_sorted). cbn [bindS].
  rewrite (updateHistory_spec _ tx u) by done. cbn [bindS]. intros [= <- <-]. split; [|done].
  constructor; try done. exists older, (newer ++ u). rewrite (assoc_L (++)), log_mem_commit by done. done.
Qed.

Lemma durable_commit kv p init commits id tx kv' r :
  sys_inv init (MkSys kv p commits) → durable kv p → id ∈ kv_ongoing kv → kv_txs kv !! id = Some tx →
  Forall small (arr_ents (tx_updates tx)) → l_seq (kv_log kv) + Z.of_nat (Size (tx_updates tx)) < 2 ^ 64 - 1 →
  applyTXSync kv id = (kv', r) → durable kv' p.
Proof.
  intros [Hinv _ _ _ _ _] Hd Hid Htx Hsm Hq Ha. cbn [sy_kv sy_commits] in *.
  destruct (i_txs _ _ _ _ Hinv id Hid) as (tx' & n & Htx' & Hr). rewrite Htx in Htx'. injection Htx' as <-.
  pose proof Hr as (Herr & _ & _ & _ & u & Hu & Hsu). rewrite Hu, arr_ents_of in Hsm. rewrite Hu, arr_size_of in Hq.
  unfold applyTXSync in Ha. rewrite (proj2 (go_index_ok _ _ _) Htx) in Ha. cbn [bindS] in Ha. rewrite Herr in Ha.
  destruct (apply_updates kv tx) as [kv1 r1] eqn:Eap. destruct (durable_apply _ _ _ u _ _ Hd Hu Hsu Hsm Hq Eap) as [Hd1 Et].
  destruct (untrackTXSync kv1 id) as [kv2| | |] eqn:Eu; cbn [bindS] in Ha; injection Ha as <- _; try done.
  eapply durable_quiet; [|exact Hd1]. eapply quiet_untrack; [|exact Eu]. apply (du_distinct _ _ Hd1).
Qed.

(** *** Flush *)

Lemma durable_freeze kv kv' version frozen d :
  durable kv Idle → 0 ≤ kv_version kv → kv_version kv + 1 < 2 ^ 64 →
  flush_freeze kv = (kv', Ok (Some (version, frozen, d))) → durable kv' (Frozen version (arr_ents frozen) d).
Proof.
  intros [(older & newer & L1 & L2 & L3) D2 D3 D4 D5 D6 D7 D8 D9 D10 D11] Hv0 Hv. unfold flush_freeze.
  destruct (kv_imm kv); [done|]. subst older. destruct (Size (kv_mem kv) =? 0)%nat; [done|].
  assert (u64 (kv_version kv + 1) = kv_version kv + 1) as Hu by (apply Z.mod_small; lia). rewrite Hu. intros [= <- <- _ _].
  constructor; cbn; try done.
  - exists newer, []. rewrite app_nil_r. done.
  - lia.
  - intros v [= <-]. lia.
  - intros id t Ht. replace (kv_version kv + 1 - 1) with (kv_version kv) by lia. by eapply D8.
Qed.

(** A new table under a name nobody has. *)
Lemma put_file_same files name c : file_content (put_file files name c) name = c.
Proof. unfold file_content, put_file. by rewrite filter_cons_True. Qed.

Lemma put_other files name c n : n ≠ name → file_content (put_file files name c) n = file_content files n.
Proof. intros Hn. unfold put_file, file_content at 1. rewrite filter_cons_False by done. by apply remove_other. Qed.

Lemma named_mono v w name : v ≤ w → named v name → named w name.
Proof. intros Hle (x & Hx & ->). exists x. split; [lia|done]. Qed.

Lemma named_fresh v w name : named v name → v < w < 2 ^ 64 → name ≠ sstableName w.
Proof. intros (x & Hx & ->) Hw E. apply sstableName_inj in E; lia. Qed.

(** Creating the table of the compaction in flight. *)
Lemma durable_create kv p p' v file s :
  durable kv p → table_bound kv p = v - 1 → phase_publishes p = Some v → phase_publishes p' = Some v → table_bound kv p' = kv_version kv →
  kv_version kv < 2 ^ 64 → sf_Holds file s → (∃ file', openExisting (sf_fp file) = Ok file' ∧ sf_Holds file' s) →
  let kv' := set_tables kv (kv_tables kv ++ [MkTable (sstableName v) file true 0 false]) (put_file (kv_files kv) (sstableName v) (sf_fp file)) in
  phase_table kv' p' → durable kv' p'.
Proof.
  intros [D1 D2 D3 D4 D5 D6 D7 D8 D9 D10 D11] Hb Hp Hp' Hb' Hv Hh Hro kv' Hpt. destruct (D7 v Hp) as [Hv1 Hv2]. rewrite Hb in D8.
  assert (∀ id t, kv_tables kv !! id = Some t → tr_FileName t ≠ sstableName v) as Hfresh.
  { intros id t Ht. eapply named_fresh; [by eapply D8|lia]. }
  assert (table_bound kv' p' = kv_version kv) as Hbb by (destruct p'; done).
  constructor; try done.
  - change (kv_meta kv') with (kv_meta kv). change (kv_main kv') with (kv_main kv). rewrite D3. apply Forall_fmap_ext_1. apply Forall_forall. intros id Hid. unfold table_name. cbn.
    destruct (kv_tables kv !! id) as [t|] eqn:Ht; [by rewrite (lookup_app_l_Some _ _ _ _ Ht)|]. exfalso.
    assert ([] ∈ md_SSTables (meta_Get (kv_meta kv))) as Hin.
    { rewrite D3. apply list_elem_of_fmap. exists id. unfold table_name. by rewrite Ht. }
    rewrite Forall_forall in D4. destruct (D4 _ Hin) as (w & _ & Hw). done.
  - intros w Hw. rewrite Hp' in Hw. injection Hw as <-. done.
  - rewrite Hbb. intros id t [Ht|[_ Ht]]%lookup_app_Some.
    + eapply named_mono; [|by eapply D8]. lia.
    + apply list_lookup_singleton_Some in Ht as [_ <-]. exists v. cbn. split; [lia|done].
  - cbn. rewrite fmap_app. apply NoDup_app. split_and!; [done| |apply NoDup_singleton].
    intros n (t & -> & Ht)%list_elem_of_fmap Hn. cbn in Hn. apply list_elem_of_singleton in Hn.
    apply list_elem_of_lookup in Ht as [id Ht]. by eapply Hfresh.
  - intros id t [Ht|[_ Ht]]%lookup_app_Some Ho.
    + destruct (D10 _ _ Ht Ho) as (s' & f' & S1 & S2 & S3). exists s', f'. cbn. by rewrite put_other by (by eapply Hfresh).
    + apply list_lookup_singleton_Some in Ht as [_ <-]. destruct Hro as (f' & R1 & R2). exists s, f'. cbn. by rewrite put_file_same.
Qed.

Lemma table_name_last kv name file files :
  table_name (set_tables kv (kv_tables kv ++ [MkTable name file true 0 false]) files) (length (kv_tables kv)) = name.
Proof. unfold table_name. cbn. by rewrite list_lookup_middle. Qed.

Lemma durable_flush_write init kv c version s d kv' id :
  sys_inv init (MkSys kv (Frozen version s d) c) → durable kv (Frozen version s d) → Z.of_nat (length s) ≤ maxNKeys →
  flush_write kv version (arr_of s) d = (kv', Ok id) → durable kv' (Written version s d id).
Proof.
  intros [Hinv Hrefs (Himm & Hs & Hd & Hfresh) [_ Hsm] [Hv _] Hpv] Hdu Hmax. cbn [sy_kv sy_phase sy_commits] in *. cbn in Hpv.
  rewrite Himm, arr_ents_of in Hsm. unfold flush_write.
  destruct (create_table_spec (It := SortedArrayIter) kv (sstableName version) d (arr_of s) s) as (file & Hf & Hro & ->).
  { by split. } { done. } { done. } { change (sf_fits (Size (arr_of s))). rewrite arr_size_of. unfold sf_fits, maxNKeys in *. lia. }
  intros [= <- <-]. eapply durable_create with (p := Frozen version s d); try done; [lia| |apply table_name_last].
  apply Hro. pose proof (kept_length d s). lia.
Qed.

(** Removing the file of a table that was not created. *)
Lemma durable_unlink kv p v : durable kv p → table_bound kv p = v - 1 → phase_publishes p = Some v → kv_version kv < 2 ^ 64 →
  kv_imm kv = None → durable (unlink kv (sstableName v)) Idle.
Proof.
  intros [D1 D2 D3 D4 D5 D6 D7 D8 D9 D10 D11] Hb Hp Hv Hi. destruct (D7 v Hp) as [Hv1 Hv2]. rewrite Hb in D8.
  constructor; try done.
  - intros id t Ht. eapply named_mono; [|by eapply D8]. cbn. lia.
  - intros id t Ht Ho. destruct (D10 _ _ Ht Ho) as (s' & f' & S1 & S2 & S3). exists s', f'. cbn.
    rewrite remove_other; [done|]. eapply named_fresh; [by eapply D8|lia].
Qed.

Lemma log_mem_levels older newer : merge_levels [log_mem newer; log_mem older] = log_mem (older ++ newer).
Proof.
  apply sorted_ext; [apply merge_levels_sorted|apply log_mem_sorted|]. intros k.
  rewrite assoc_merge_levels, log_mem_app, assoc_overlay by apply log_mem_sorted. cbn [assoc_levels].
  unfold log_mem at 1. rewrite assoc_overlay by constructor. cbn [assoc].
  by destruct (assoc (reverse newer) k), (assoc (log_mem older) k).
Qed.

Lemma durable_unfreeze kv v s d kv' : durable kv (Frozen v s d) → unfreeze kv = Ok kv' →
  durable kv' (Frozen v s d) ∧ kv_imm kv' = None ∧ kv_version kv' = kv_version kv.
Proof.
  intros [(older & newer & L1 & L2 & L3) D2 D3 D4 D5 D6 D7 D8 D9 D10 D11]. unfold unfreeze.
  destruct (kv_imm kv) as [imm|] eqn:Hi.
  - subst imm. rewrite L2, merge_arrays_spec by apply log_mem_sorted. rs. intros [= <-]. split; [|done]. constructor; try done.
    exists [], (older ++ newer). rewrite <- log_mem_levels. done.
  - intros [= <-]. split; [|done]. constructor; try done. exists older, newer. by rewrite Hi.
Qed.

(** The log rewritten around the live memtable. *)
Lemma rewriteLog_committed log done m :
  LogHistory.committed log done → sorted m → Forall small m → l_seq log + Z.of_nat (length m) < 2 ^ 64 - 1 →
  ∃ log', rewriteLog log (arr_of m) = (log', Ok tt) ∧ LogHistory.committed log' m.
Proof.
  intros (ec & Hok & _) Hs Hsm Hq. destruct (log_Truncate_ok log ec Hok) as (log1 & Ht & Hok1 & _ & Hseq & _).
  assert (LogHistory.committed log1 []) as Hc1 by (by exists []).
  unfold rewriteLog. rewrite Ht. cbn [bindS]. rewrite arr_size_of. destruct m as [|e m]; [eauto|]. cbn [length Nat.eqb].
  destruct (updateLog_committed log1 [] (e :: m) Hc1 Hs Hsm) as (log' & El & Hc'); [lia|].
  exists log'. split; [exact El|exact Hc'].
Qed.

Lemma log_mem_id m : sorted m → log_mem m = m.
Proof. intros Hm. rewrite <- (app_nil_l m) at 1. rewrite log_mem_commit by done. by apply (merge_levels_single m). Qed.

(** Publishing a new list of tables. *)
Lemma durable_publish kv p v names main log imm :
  durable kv p → phase_publishes p = Some v → table_bound kv p = kv_version kv → meta_fits (MkMeta v names) →
  names = table_name kv <$> main → Forall (named v) names → NoDup names →
  (∃ older newer, LogHistory.committed log (older ++ newer) ∧ kv_mem kv = arr_of (log_mem newer) ∧
     match imm with Some imm => imm = arr_of (log_mem older) | None => older = [] end) →
  durable (set_log (set_imm (set_main (set_meta kv (meta_Set (kv_meta kv) (MkMeta v names))) main) imm) log) Idle.
Proof.
  intros [D1 D2 D3 D4 D5 D6 D7 D8 D9 D10 D11] Hp Hb Hfit Hn Hnm Hnd Hl. destruct (D7 v Hp) as [Hv1 Hv2].
  assert (meta_Get (meta_Set (kv_meta kv) (MkMeta v names)) = MkMeta v names) as Hg by (by apply meta_Get_Set).
  rewrite Hb in D8. constructor; cbn [kv_meta kv_main kv_version kv_tables kv_files set_log set_imm set_main set_meta]; rewrite ?Hg; try done.
  - by apply meta_Set_ok.
  - cbn. lia.
Qed.

Lemma phase_named kv p v id : durable kv p → phase_publishes p = Some v → kv_version kv < 2 ^ 64 → table_name kv id = sstableName v →
  (sstableName v ∉ md_SSTables (meta_Get (kv_meta kv))) ∧ named v (table_name kv id) ∧
  Forall (named v) (md_SSTables (meta_Get (kv_meta kv))).
Proof.
  intros Hd Hp Hv Hn. destruct (du_next _ _ Hd v Hp) as [Hv1 Hv2]. pose proof (du_version _ _ Hd) as Hv0. split_and!.
  - intros Hin. pose proof (du_named _ _ Hd) as Hf. rewrite Forall_forall in Hf. eapply named_fresh; [by apply Hf| |done]. lia.
  - rewrite Hn. exists v. split; [lia|done].
  - eapply Forall_impl; [apply (du_named _ _ Hd)|]. intros n. apply named_mono. lia.
Qed.

Definition flush_md (kv : KV) (version : Z) : KVMetaData := MkMeta version (sstableName version :: md_SSTables (meta_Get (kv_meta kv))).

Lemma durable_flush_install init kv c version s d id log r :
  sys_inv init (MkSys kv (Written version s d id) c) → durable kv (Written version s d id) → meta_fits (flush_md kv version) →
  l_seq (kv_log kv) + Z.of_nat (Size (kv_mem kv)) < 2 ^ 64 - 1 → rewriteLog (kv_log kv) (kv_mem kv) = (log, r) →
  durable (set_log (flush_install (flush_meta kv version) id) log) Idle.
Proof.
  intros [_ _ _ [Hsm _] [Hv _] _] Hd Hfit Hq Hr. cbn [sy_kv sy_phase] in *.
  destruct (phase_named kv _ version id Hd eq_refl ltac:(lia) (du_table _ _ Hd)) as (Hni & Hnn & Hnf).
  pose proof (quiet_upd kv id (fun t => MkTable (tr_FileName t) (tr_file t) (tr_open t) (tr_refs t + 1) (tr_unlink t)) ltac:(done)) as Hqu.
  change (quiet kv (acquire kv id)) in Hqu. pose proof (durable_quiet _ _ _ Hqu Hd) as Hd1.
  destruct (du_log _ _ Hd) as (older & newer & L1 & L2 & L3). rewrite L2 in Hr, Hq, Hsm. rewrite arr_ents_of in Hsm. rewrite arr_size_of in Hq.
  destruct (rewriteLog_committed _ _ (log_mem newer) L1 (log_mem_sorted _) Hsm Hq) as (log1 & Hr1 & Hc1). rewrite Hr in Hr1. injection Hr1 as <- _.
  refine (durable_publish _ _ version (sstableName version :: md_SSTables (meta_Get (kv_meta kv))) (id :: kv_main kv) log None Hd1 eq_refl eq_refl Hfit _ _ _ _).
  - rewrite fmap_cons, (table_name_names _ _ (q_names _ _ Hqu)), (table_name_quiet _ _ _ (q_names _ _ Hqu)), (du_main _ _ Hd). f_equal.
    symmetry. exact (du_table _ _ Hd).
  - constructor; [|done]. rewrite <- (du_table _ _ Hd). done.
  - constructor; [done|apply (du_nodup _ _ Hd)].
  - exists [], (log_mem newer). rewrite (log_mem_id (log_mem newer)) by apply log_mem_sorted. done.
Qed.

(** *** Merge *)

Lemma durable_merge_plan kv level kv' version o1 o2 d :
  durable kv Idle → 0 ≤ kv_version kv → kv_version kv + 1 < 2 ^ 64 →
  merge_plan kv level = (kv', Ok (Some (version, o1, o2, d))) → durable kv' (Merging level version o1 o2 d).
Proof.
  intros [D1 D2 D3 D4 D5 D6 D7 D8 D9 D10 D11] Hv0 Hv. unfold merge_plan. destruct (_ <=? _)%nat; [done|].
  assert (u64 (kv_version kv + 1) = kv_version kv + 1) as Hu by (apply Z.mod_small; lia). rewrite Hu.
  destruct (go_index _ level); cbn [bindS]; try done. destruct (go_index _ (level + 1)); cbn [bindS]; try done. intros [= <- <- _ _ _].
  constructor; cbn; try done.
  - lia.
  - intros v [= <-]. lia.
  - intros id t Ht. replace (kv_version kv + 1 - 1) with (kv_version kv) by lia. by eapply D8.
Qed.

Definition merge_room (kv : KV) (level : nat) : Prop :=
  ∀ o1 o2 t1 t2, kv_main kv !! level = Some o1 → kv_main kv !! (level + 1)%nat = Some o2 →
    kv_tables kv !! o1 = Some t1 → kv_tables kv !! o2 = Some t2 →
    Z.of_nat (EstimatedSize (tr_file t1) + EstimatedSize (tr_file t2)) ≤ maxNKeys.

Lemma durable_merge_write init kv c level version o1 o2 d kv' id :
  sys_inv init (MkSys kv (Merging level version o1 o2 d) c) → durable kv (Merging level version o1 o2 d) → merge_room kv level →
  merge_write kv version o1 o2 d = (kv', Ok id) → durable kv' (Merged level version o1 o2 d id).
Proof.
  intros [Hinv Hrefs (Himm & Hsrc & Hfresh) _ [Hv _] Hpv] Hdu Hroom. cbn [sy_kv sy_phase sy_commits] in *. cbn in Hpv.
  destruct (merge_sources_hold _ _ _ _ _ _ _ _ Hinv Hsrc) as (a & b & t1 & t2 & Hab & Ht1 & Ht2 & Hh1 & Hh2).
  destruct Hsrc as (M1 & M2 & _). specialize (Hroom _ _ _ _ M1 M2 Ht1 Ht2).
  unfold merge_write. rewrite (proj2 (go_index_ok _ _ _) Ht1). cbn [bindS]. rewrite (proj2 (go_index_ok _ _ _) Ht2). cbn [bindS].
  destruct (create_table_spec (It := MergedSortedKVIter SortedFileIter) kv (sstableName version) d
    (MkMerged [tr_file t1; tr_file t2]) (merge_levels [a; b])) as (file & Hf & Hro & ->).
  { exists [a; b]. split; [|done]. constructor; [exact Hh1|constructor; [exact Hh2|constructor]]. }
  { done. }
  { apply merge_levels_small; by eapply sf_Holds_small. }
  { assert (sf_fits (EstimatedSize (tr_file t1) + EstimatedSize (tr_file t2))) as Hfit; [|exact Hfit]. unfold sf_fits, maxNKeys in *. lia. }
  intros [= <- <-]. eapply durable_create with (p := Merging level version o1 o2 d); try done; [lia| |apply table_name_last].
  apply Hro. pose proof (kept_length d (merge_levels [a; b])). rewrite (sf_Holds_size _ _ Hh1), (sf_Holds_size _ _ Hh2) in Hroom.
  pose proof (merge_levels_length [a; b]) as Hml. cbn [foldr] in Hml. lia.
Qed.

Definition merge_md (kv : KV) (level : nat) (version : Z) : KVMetaData :=
  let ssts := md_SSTables (meta_Get (kv_meta kv)) in MkMeta version (take level ssts ++ sstableName version :: drop (level + 2) ssts).

Lemma NoDup_splice {A} (l : list A) n m x : NoDup l → x ∉ l → (n ≤ m)%nat → NoDup (take n l ++ x :: drop m l).
Proof.
  intros Hl Hx Hle. assert (take n l ++ drop m l `sublist_of` l) as Hsub.
  { rewrite <- (take_drop n l) at 3. apply sublist_app; [done|]. replace m with (n + (m - n))%nat by lia. rewrite <- drop_drop. apply sublist_drop. }
  rewrite <- Permutation_middle. constructor; [|by eapply sublist_NoDup]. intros Hin. apply Hx. by eapply elem_of_sublist.
Qed.

Lemma quiet_merge_tail kv o1 o2 kv1 kv2 : NoDup (tr_FileName <$> kv_tables kv) →
  release (retire (retire kv o1) o2) o1 = Ok kv1 → release kv1 o2 = Ok kv2 → quiet kv kv2.
Proof.
  intros Hnd H1 H2. assert (quiet kv (retire (retire kv o1) o2)) as Q0 by (eapply quiet_trans; by apply quiet_upd).
  assert (quiet kv kv1) as Q1 by (eapply quiet_trans; [exact Q0|]; eapply quiet_release; [|done]; by rewrite (q_names _ _ Q0)).
  eapply quiet_trans; [exact Q1|]. eapply quiet_release; [|done]. by rewrite (q_names _ _ Q1).
Qed.

Lemma durable_merge_install init kv c level version o1 o2 d id kv' r :
  sys_inv init (MkSys kv (Merged level version o1 o2 d id) c) → durable kv (Merged level version o1 o2 d id) →
  meta_fits (merge_md kv level version) →
  merge_install (merge_meta kv level version) level o1 o2 id = (kv', r) → durable kv' Idle.
Proof.
  intros [Hinv Hrefs Hp _ [Hv _] _] Hd Hfit Hm. cbn [sy_kv sy_phase sy_commits] in *.
  destruct (merge_finish_inv _ _ _ _ _ _ _ _ _ _ Hinv Hrefs Hp) as (kv1 & Hm1 & _). rewrite Hm in Hm1. injection Hm1 as -> ->.
  destruct (phase_named kv _ version id Hd eq_refl ltac:(lia) (du_table _ _ Hd)) as (Hni & Hnn & Hnf).
  pose proof (quiet_upd kv id (fun t => MkTable (tr_FileName t) (tr_file t) (tr_open t) (tr_refs t + 1) (tr_unlink t)) ltac:(done)) as Hqu.
  change (quiet kv (acquire kv id)) in Hqu. pose proof (durable_quiet _ _ _ Hqu Hd) as Hd1.
  unfold merge_install in Hm. destruct (check _); cbn [bindS] in Hm; try done.
  set (main := take level (kv_main kv) ++ id :: drop (level + 2) (kv_main kv)).
  assert (durable (set_main (acquire (merge_meta kv level version) id) main) Idle) as Hd2.
  { refine (durable_publish _ _ version _ main (kv_log kv) (kv_imm kv) Hd1 eq_refl eq_refl Hfit _ _ _ _).
    - rewrite (table_name_names _ _ (q_names _ _ Hqu)). unfold main. rewrite fmap_app, fmap_cons, fmap_take, fmap_drop, <- (du_main _ _ Hd).
      do 2 f_equal. symmetry. exact (du_table _ _ Hd).
    - rewrite <- (du_table _ _ Hd) at 1. apply Forall_app. split; [by apply Forall_take|]. constructor; [done|by apply Forall_drop].
    - apply NoDup_splice; [apply (du_nodup _ _ Hd)|done|lia].
    - apply (du_log _ _ Hd). }
  destruct (release _ o1) as [kv1'| | |] eqn:E1; cbn [bindS] in Hm; try done.
  destruct (release kv1' o2) as [kv2| | |] eqn:E2; cbn [bindS] in Hm; try done. injection Hm as ->.
  eapply durable_quiet; [|exact Hd2]. eapply quiet_merge_tail; [|exact E1|exact E2]. apply (du_distinct _ _ Hd2).
Qed.

(** ** Every step *)

(** What a run must not exceed: records that fit the log, sequence numbers and
    key counts that fit their fields, metadata that fits its slot. *)
Record room (s : sys) : Prop := {
  rm_updates id tx : id ∈ kv_ongoing (sy_kv s) → kv_txs (sy_kv s) !! id = Some tx →
    Forall small (arr_ents (tx_updates tx)) ∧ l_seq (kv_log (sy_kv s)) + Z.of_nat (Size (tx_updates tx)) < 2 ^ 64 - 1;
  rm_mem : l_seq (kv_log (sy_kv s)) + Z.of_nat (Size (kv_mem (sy_kv s))) < 2 ^ 64 - 1;
  rm_phase : match sy_phase s with
    | Idle => True
    | Frozen _ s _ => Z.of_nat (length s) ≤ maxNKeys
    | Written v _ _ _ => meta_fits (flush_md (sy_kv s) v)
    | Merging level _ _ _ _ => merge_room (sy_kv s) level
    | Merged level v _ _ _ _ => meta_fits (merge_md (sy_kv s) level v)
    end;
}.

Lemma durable_step init s s' :
  sys_inv init s → durable (sy_kv s) (sy_phase s) → room s → step s s' → durable (sy_kv s') (sy_phase s').
Proof.
  intros Hsi Hd [R1 R2 R3] Hst. pose proof (si_names _ _ Hsi) as [Hv _].
  destruct Hst; cbn [sy_kv sy_phase sy_commits] in *.
  - eapply durable_quiet; [|exact Hd]. by eapply quiet_new.
  - eapply durable_quiet; [|exact Hd]. pose proof (quiet_with_tx kv id f) as Hq. by rewrite H3 in Hq.
  - eapply durable_quiet; [|exact Hd]. eapply quiet_untrack; [apply (du_distinct _ _ Hd)|done].
  - destruct (R1 id tx) as [Ra Rb]; [done..|]. by eapply durable_commit.
  - eapply durable_freeze; [done|lia|done..].
  - by eapply durable_flush_write.
  - destruct (durable_unfreeze _ _ _ _ _ Hd H1) as (Hd1 & Hi & Hver). eapply durable_unlink; [exact Hd1|done|done|rewrite Hver; lia|done].
  - by eapply durable_flush_install.
  - eapply durable_merge_plan; [done|lia|done..].
  - by eapply durable_merge_write.
  - pose proof (si_phase _ _ Hsi) as (Hi & _). eapply durable_unlink; [exact Hd|done|done|lia|done].
  - by eapply durable_merge_install.
Qed.

(** ** Opening a directory *)

(** The tables of the metadata, as [openSSTable] finds them. *)
Definition openable (files : list (bytes * bytes)) (name : bytes) (s : list ent) : Prop :=
  ∃ file, openExisting (file_content files name) = Ok file ∧ sf_Holds file s.

Record opened_table (files : list (bytes * bytes)) (t : TableRef) (s : list ent) : Prop := {
  ot_refs : tr_refs t = 1;
  ot_open : tr_open t = true;
  ot_file : openExisting (file_content files (tr_FileName t)) = Ok (tr_file t);
  ot_holds : sf_Holds (tr_file t) s;
}.

Lemma open_tables_spec files names fs : Forall2 (openable files) names fs →
  ∃ tables, open_tables files names = Ok tables ∧ tr_FileName <$> tables = names ∧ Forall2 (opened_table files) tables fs.
Proof.
  unfold open_tables. induction 1 as [|name s names fs (file & Ho & Hh) _ (tables & IH1 & IH2 & IH3)]; [by exists []|].
  cbn [mapM_res]. rewrite Ho. rs. rewrite IH1. rs. eexists. split; [done|]. cbn. rewrite IH2. split; [done|]. by constructor.
Qed.

Lemma sstableName_prefix v : take (length sstablePrefix) (sstableName v) = sstablePrefix.
Proof. done. Qed.

Lemma sweep_keeps files names name : name ∈ names → file_content (sweepOrphanSSTables files names) name = file_content files name.
Proof.
  intros Hin. unfold file_content, sweepOrphanSSTables. rewrite list_filter_filter.
  induction files as [|[m c] files IH]; [done|]. rewrite !filter_cons.
  destruct (decide (m = name)) as [->|Hm].
  - rewrite decide_True by auto. done.
  - rewrite decide_False by tauto. done.
Qed.

Lemma sweep_absent files names v : sstableName v ∉ names → file_content (sweepOrphanSSTables files names) (sstableName v) = [].
Proof.
  intros Hn. unfold file_content, sweepOrphanSSTables. rewrite list_filter_filter.
  induction files as [|[m c] files IH]; [done|]. rewrite filter_cons. rewrite decide_False; [exact IH|].
  intros [-> [Hp|Hi]]; [by rewrite sstableName_prefix in Hp|done].
Qed.

Lemma tables_hold_seq kv files fs tables : kv_tables kv = tables → Forall2 (opened_table files) tables fs →
  tables_hold kv (seq 0 (length tables)) fs.
Proof.
  intros E Hf. unfold tables_hold. apply Forall2_same_length_lookup. split; [rewrite length_seq; by eapply Forall2_length|].
  intros i id s Hi Hs. apply lookup_seq in Hi as [-> Hlt]. cbn.
  destruct (Forall2_lookup_r _ _ _ _ _ Hf Hs) as (t & Ht & Hot). exists t. rewrite E. split; [done|apply Hot].
Qed.

Lemma opened_refs kv files fs : Forall2 (opened_table files) (kv_tables kv) fs → kv_main kv = seq 0 (length (kv_tables kv)) →
  kv_ongoing kv = [] → refs_ok kv.
Proof.
  intros Hf Em Eo. unfold refs_ok, held. rewrite Em, Eo. change (snaps (kv_txs kv) []) with (@nil nat). rewrite app_nil_r. split.
  - intros tid t Ht. destruct (Forall2_lookup_l _ _ _ _ _ Hf Ht) as (s & _ & Hot). rewrite (ot_refs _ _ _ Hot).
    assert (tid ∈ seq 0 (length (kv_tables kv))) as Hin by (apply elem_of_seq; apply lookup_lt_Some in Ht; lia).
    apply list_elem_of_In in Hin. rewrite (proj1 (NoDup_count_occ' Nat.eq_dec _)); [done|apply seq_NoDup|done].
  - intros tid t Ht _. destruct (Forall2_lookup_l _ _ _ _ _ Hf Ht) as (s & _ & Hot). apply Hot.
  - intros tid Hin%elem_of_seq. lia.
Qed.

Lemma updates_small log ec : log_ok log ec [] → Forall small (ent_of <$> updates_of ec).
Proof.
  intros Hok. pose proof (lo_entries _ _ _ Hok) as He. rewrite app_nil_r in He. rewrite Forall_forall in He. apply Forall_forall.
  intros x (e & -> & Hin)%list_elem_of_fmap. unfold updates_of in Hin. apply list_elem_of_filter in Hin as [_ Hin].
  destruct (He e Hin) as (Hl & _). unfold small. cbn. lia.
Qed.

Lemma log_mem_small us : Forall small us → Forall small (log_mem us).
Proof. intros Hs. rewrite Forall_forall in *. intros x Hx%log_mem_elem. by apply Hs. Qed.

(** The store [Open] makes of what it read. *)
Definition opened_kv (opts : KVOptions) (d : disk) (meta : KVMetaStore) (log : Log) (us : list ent) (tables : list TableRef) : KV :=
  MkKV (setDefaults opts) meta (md_Version (meta_Get meta)) log (arr_of (log_mem us)) None (seq 0 (length tables)) 0 [] [] false None []
    tables (sweepOrphanSSTables (d_files d) (md_SSTables (meta_Get meta))).

Lemma open_disk opts d meta log es fs :
  meta_Open (d_meta0 d) (d_meta1 d) ((fun '(n, _) => (n, false)) <$> d_files d) = Ok meta → replay (d_log d) = (log, Ok es) →
  Forall2 (openable (d_files d)) (md_SSTables (meta_Get meta)) fs →
  ∃ tables, kv_Open opts d = Ok (opened_kv opts d meta log (ent_of <$> es) tables) ∧
    tr_FileName <$> tables = md_SSTables (meta_Get meta) ∧ Forall2 (opened_table (d_files d)) tables fs.
Proof.
  intros Hm Hr Hf. destruct (open_tables_spec _ _ _ Hf) as (tables & Ht & En & Hot). exists tables. split; [|done].
  unfold kv_Open. rewrite Hm. rs. unfold openLog. rewrite Hr. cbn [bindS]. rewrite mem_of_entries_spec. rs. by rewrite Ht.
Qed.

Lemma opened_kv_inv opts d meta log us tables fs : Forall2 (opened_table (d_files d)) tables fs →
  inv (opened_kv opts d meta log us tables) (merge_levels (log_mem us :: fs)) [] ∧ refs_ok (opened_kv opts d meta log us tables).
Proof.
  intros Hot. split; [|by eapply (opened_refs (opened_kv opts d meta log us tables))].
  assert (sorted (merge_levels (log_mem us :: fs))) as Hs by apply merge_levels_sorted.
  constructor; try done; try (by constructor).
  - exists (log_mem us), [], fs. split_and!; try done; [apply log_mem_sorted|]. by eapply tables_hold_seq.
  - intros id Hid. by apply elem_of_nil in Hid.
  - intros h Hh. by apply elem_of_nil in Hh.
Qed.

Lemma opened_kv_durable opts d meta log ec tables fs : meta_ok meta → log_ok log ec [] →
  Forall (named (md_Version (meta_Get meta))) (md_SSTables (meta_Get meta)) → NoDup (md_SSTables (meta_Get meta)) →
  0 ≤ md_Version (meta_Get meta) → tr_FileName <$> tables = md_SSTables (meta_Get meta) → Forall2 (opened_table (d_files d)) tables fs →
  durable (opened_kv opts d meta log (ent_of <$> updates_of ec) tables) Idle.
Proof.
  intros Hmok Hok Hnm Hnd Hv En Hot.
  assert (∀ id t, tables !! id = Some t → tr_FileName t ∈ md_SSTables (meta_Get meta)) as Hin.
  { intros id t Hid. rewrite <- En. apply list_elem_of_fmap. exists t. split; [done|]. by eapply list_elem_of_lookup_2. }
  constructor; try done.
  - exists [], (ent_of <$> updates_of ec). split; [by exists ec|done].
  - cbn [kv_meta kv_main opened_kv]. rewrite <- En. apply list_eq. intros i. rewrite !list_lookup_fmap. destruct (tables !! i) as [t|] eqn:Hi.
    + rewrite lookup_seq_lt by (by eapply lookup_lt_Some). cbn. unfold table_name. cbn. by rewrite Hi.
    + rewrite lookup_seq_ge by (by apply lookup_ge_None). done.
  - intros id t Hid. rewrite Forall_forall in Hnm. by eapply Hnm, Hin.
  - cbn. by rewrite En.
  - intros id t Hid _. destruct (Forall2_lookup_l _ _ _ _ _ Hot Hid) as (s & _ & Ho). exists s, (tr_file t).
    cbn. rewrite sweep_keeps by (by eapply Hin). split_and!; apply Ho.
Qed.

(** Opening a directory whose metadata, log and tables can be read: the store
    shows the log over the tables, and its directory holds what it shows. *)
Lemma recover_disk opts d meta log ec fs :
  meta_Open (d_meta0 d) (d_meta1 d) ((fun '(n, _) => (n, false)) <$> d_files d) = Ok meta → meta_ok meta →
  replay (d_log d) = (log, Ok (updates_of ec)) → log_ok log ec [] →
  Forall (named (md_Version (meta_Get meta))) (md_SSTables (meta_Get meta)) → NoDup (md_SSTables (meta_Get meta)) →
  0 ≤ md_Version (meta_Get meta) < 2 ^ 64 → Forall2 (openable (d_files d)) (md_SSTables (meta_Get meta)) fs →
  ∃ kv', kv_Open opts d = Ok kv' ∧ kv_closed kv' = false ∧ durable kv' Idle ∧
    sys_inv (merge_levels (log_mem (ent_of <$> updates_of ec) :: fs)) (MkSys kv' Idle []).
Proof.
  intros Hm Hmok Hr Hok Hnm Hnd Hv Hf. destruct (open_disk opts d meta log _ fs Hm Hr Hf) as (tables & Ho & En & Hot).
  destruct (opened_kv_inv opts d meta log (ent_of <$> updates_of ec) tables fs Hot) as [Hinv Hrefs].
  eexists. split; [exact Ho|]. split; [done|]. split; [eapply opened_kv_durable; try done; lia|].
  constructor; cbn [sy_kv sy_phase sy_commits]; try done.
  - split; [|done]. cbn [kv_mem opened_kv]. rewrite arr_ents_of. by eapply log_mem_small, updates_small.
  - split; [exact Hv|]. cbn. intros v Hlt. apply sweep_absent. intros Hx. rewrite Forall_forall in Hnm. eapply named_fresh; [by apply Hnm| |done]. lia.
Qed.

(** ** Crashes *)

(** The files of the tables [names] have reached the disk; any other file may be
    there or not, complete or not. *)
Definition files_kept (kv : KV) (names : list bytes) (d : disk) : Prop :=
  Forall (fun name => file_content (d_files d) name = file_content (kv_files kv) name) names.

(** [Open] tells a new directory from a damaged one by its SSTables: as long as
    no metadata was ever published it refuses a directory that has any. *)
Definition refused_as_damaged (opts : KVOptions) (kv : KV) (d : disk) : Prop :=
  md_Version (meta_Get (kv_meta kv)) = 0 ∧ countSSTables ((fun '(n, _) => (n, false)) <$> d_files d) ≠ 0%nat ∧
  kv_Open opts d = Err ErrMetaUnreadable.

(** The metadata that the compaction in flight is about to publish. *)
Definition publishes (s : sys) (md : KVMetaData) : Prop :=
  match sy_phase s with
  | Written v _ _ _ => md = flush_md (sy_kv s) v
  | Merged level v _ _ _ _ => md = merge_md (sy_kv s) level v
  | _ => False
  end.

(** A directory that a power loss can leave, with the updates of the commit it
    interrupted: between two steps, also while a table is being written; at any
    point of writing a transaction to the log; while the slot of the metadata
    is being overwritten, or after that and before the log is truncated. *)
Inductive crash_point (s : sys) (d : disk) : list ent → Prop :=
  | cp_quiet fp :
      l_fp (kv_log (sy_kv s)) = Some fp → crash fp (d_log d) →
      (d_meta0 d, d_meta1 d) = contents (kv_meta (sy_kv s)) →
      files_kept (sy_kv s) (md_SSTables (meta_Get (kv_meta (sy_kv s)))) d →
      crash_point s d []
  | cp_commit id tx fp :
      id ∈ kv_ongoing (sy_kv s) → kv_txs (sy_kv s) !! id = Some tx →
      update_point (kv_log (sy_kv s)) (arr_ents (tx_updates tx)) fp → crash fp (d_log d) →
      (d_meta0 d, d_meta1 d) = contents (kv_meta (sy_kv s)) →
      files_kept (sy_kv s) (md_SSTables (meta_Get (kv_meta (sy_kv s)))) d →
      crash_point s d (arr_ents (tx_updates tx))
  | cp_publish md c fp :
      publishes s md →
      tear_detected (f_synced (set_target (kv_meta (sy_kv s)))) md →
      crash (f_write (set_target (kv_meta (sy_kv s))) 0 (meta_bytes md)) c →
      (d_meta0 d, d_meta1 d) = with_target (kv_meta (sy_kv s)) c →
      l_fp (kv_log (sy_kv s)) = Some fp → crash fp (d_log d) →
      files_kept (sy_kv s) (md_SSTables (meta_Get (kv_meta (sy_kv s)))) d → files_kept (sy_kv s) (md_SSTables md) d →
      crash_point s d [].

Lemma meta_Open_ok c0 c1 entries meta : meta_Open c0 c1 entries = Ok meta → meta_ok meta.
Proof.
  unfold meta_Open. pose proof (openSlot_ok c0) as H1. pose proof (openSlot_ok c1) as H2.
  destruct (openSlot c0) as [s0 u0], (openSlot c1) as [s1 u1]. cbn in *. destruct (u0 || u1); [by intros [= <-]|].
  destruct (_ =? 0)%nat; [|done]. by intros [= <-].
Qed.

(** What [Open] finds in the slots: [P], unless it refuses the directory. *)
Lemma meta_found opts kv d c (P : KVMetaData → Prop) :
  (d_meta0 d, d_meta1 d) = c → P (meta_Get (as_read c)) → (P meta_zero → md_Version (meta_Get (kv_meta kv)) = 0) →
  (∃ meta, meta_Open (d_meta0 d) (d_meta1 d) ((fun '(n, _) => (n, false)) <$> d_files d) = Ok meta ∧ P (meta_Get meta)) ∨
  refused_as_damaged opts kv d.
Proof.
  intros <- HP Hz. destruct (meta_Open_cases (d_meta0 d, d_meta1 d) ((fun '(n, _) => (n, false)) <$> d_files d)) as [Ho|(Hm & Hc & Ho)];
    cbn [fst snd] in Ho; [left; eauto|right]. rewrite Hm in HP. split; [by apply Hz|]. split; [done|]. unfold kv_Open. by rewrite Ho.
Qed.

(** The tables of the store are on disk. *)
Lemma table_openable kv p id t s d : durable kv p → kv_tables kv !! id = Some t → tr_open t = true → sf_Holds (tr_file t) s →
  file_content (d_files d) (tr_FileName t) = file_content (kv_files kv) (tr_FileName t) → openable (d_files d) (tr_FileName t) s.
Proof.
  intros Hd Ht Ho Hs Hf. destruct (du_files _ _ Hd id t Ht Ho) as (s' & file & S1 & S2 & S3). exists file. rewrite Hf. split; [done|].
  by rewrite (sf_Holds_unique _ _ _ Hs S1).
Qed.

Lemma main_openable kv p ids fs d : durable kv p → refs_ok kv → tables_hold kv ids fs → (∀ id, id ∈ ids → id ∈ kv_main kv) →
  files_kept kv (table_name kv <$> ids) d → Forall2 (openable (d_files d)) (table_name kv <$> ids) fs.
Proof.
  intros Hd Hrefs Hh. induction Hh as [|id s ids fs (t & Ht & Hs) _ IH]; intros Hsub Hk; [constructor|].
  rewrite fmap_cons in Hk |- *. apply Forall_cons in Hk as [Hk1 Hk2]. constructor; [|apply IH; [intros; apply Hsub; by right|done]].
  unfold table_name in Hk1 |- *. rewrite Ht in Hk1 |- *. eapply table_openable; try done. eapply (rf_open _ _ Hrefs); [done|].
  unfold held. apply elem_of_app. left. apply Hsub. by left.
Qed.

(** *** What the log and the tables show *)

Lemma log_view kv p init commits older newer fs : inv kv init commits → durable kv p →
  kv_mem kv = arr_of (log_mem newer) → match kv_imm kv with Some imm => imm = arr_of (log_mem older) | None => older = [] end →
  tables_hold kv (kv_main kv) fs →
  same_view (merge_levels (log_mem (older ++ newer) :: fs)) (state_at init commits (length commits)).
Proof.
  intros [_ _ _ (m & ims & fs' & Hm & Hs & Hi & Ht & Hv) _ _ _ _ _] Hd Em Ei Hf.
  rewrite (tables_hold_unique _ _ _ _ Hf Ht). etrans; [|exact Hv]. intros k. rewrite !assoc_merge_levels. cbn [assoc_levels].
  rewrite <- log_mem_levels, assoc_merge_levels. cbn [assoc_levels].
  assert (m = log_mem newer) as -> by (rewrite Em in Hm; apply (f_equal arr_ents) in Hm; by rewrite !arr_ents_of in Hm).
  destruct (kv_imm kv) as [imm|].
  - destruct Hi as (s & -> & -> & _). apply (f_equal arr_ents) in Ei. rewrite !arr_ents_of in Ei. subst s. cbn [app assoc_levels].
    by destruct (assoc (log_mem newer) k), (assoc (log_mem older) k).
  - subst ims older. cbn [app]. by destruct (assoc (log_mem newer) k).
Qed.

(** Committed updates in front of the levels. *)
Lemma overlay_levels u a fs : sorted a → same_view (merge_levels (overlay u a :: fs)) (overlay u (merge_levels (a :: fs))).
Proof.
  intros Ha k. rewrite assoc_merge_levels, assoc_overlay by apply merge_levels_sorted. cbn [assoc_levels].
  rewrite assoc_overlay, assoc_merge_levels by done. cbn [assoc_levels]. by destruct (assoc u k), (assoc a k).
Qed.

(** A table that repeats a part of the level above it. *)
Lemma repeated_level a b fs : (∀ k, assoc a k = None → assoc b k = None) → same_view (merge_levels (a :: b :: fs)) (merge_levels (a :: fs)).
Proof. intros Hab k. rewrite !assoc_merge_levels. cbn [assoc_levels]. destruct (assoc a k) eqn:E; [done|]. by rewrite Hab. Qed.

Lemma kept_none d s k : assoc s k = None → assoc (kept d s) k = None.
Proof. rewrite !assoc_None. intros Hs e He. apply Hs. destruct d; [by apply drop_dead_elem|done]. Qed.

Definition recovered (opts : KVOptions) (d : disk) (view : list ent) : Prop :=
  ∃ kv' init, kv_Open opts d = Ok kv' ∧ kv_closed kv' = false ∧ durable kv' Idle ∧ sys_inv init (MkSys kv' Idle []) ∧ same_view init view.

Lemma recovered_view opts d v v' : same_view v v' → recovered opts d v → recovered opts d v'.
Proof. intros Hv (kv' & init & H1 & H2 & H3 & H4 & H5). exists kv', init. split_and!; try done. by etrans. Qed.

(** Metadata that names tables of the store. *)
Lemma recover_tables opts kv p d meta log ec ids fs :
  durable kv p → refs_ok kv → kv_version kv < 2 ^ 64 →
  meta_Open (d_meta0 d) (d_meta1 d) ((fun '(n, _) => (n, false)) <$> d_files d) = Ok meta →
  md_SSTables (meta_Get meta) = table_name kv <$> ids → Forall (named (md_Version (meta_Get meta))) (table_name kv <$> ids) →
  NoDup (table_name kv <$> ids) → 0 ≤ md_Version (meta_Get meta) ≤ kv_version kv →
  replay (d_log d) = (log, Ok (updates_of ec)) → log_ok log ec [] → Forall2 (openable (d_files d)) (table_name kv <$> ids) fs →
  recovered opts d (merge_levels (log_mem (ent_of <$> updates_of ec) :: fs)).
Proof.
  intros Hd Hrefs Hv Hm En Hnm Hnd Hvm Hr Hok Hf.
  destruct (recover_disk opts d meta log ec fs) as (kv' & H1 & H2 & H3 & H4); rewrite ?En; try done; [by eapply meta_Open_ok|lia|].
  exists kv', (merge_levels (log_mem (ent_of <$> updates_of ec) :: fs)). done.
Qed.

Lemma publishes_inv s md : publishes s md →
  (∃ v fz dt id, sy_phase s = Written v fz dt id ∧ md = flush_md (sy_kv s) v) ∨
  (∃ level v o1 o2 dt id, sy_phase s = Merged level v o1 o2 dt id ∧ md = merge_md (sy_kv s) level v).
Proof. unfold publishes. destruct (sy_phase s); try done; intros ->; [left|right]; eauto 10. Qed.

Section point.
Variables (opts : KVOptions) (init : list ent) (s : sys) (d : disk).
Hypothesis (Hsi : sys_inv init s) (Hd : durable (sy_kv s) (sy_phase s)).

(** The tables the store had, with whatever log [Open] finds. *)
Lemma recover_old meta log ec fs :
  meta_Open (d_meta0 d) (d_meta1 d) ((fun '(n, _) => (n, false)) <$> d_files d) = Ok meta → meta_Get meta = meta_Get (kv_meta (sy_kv s)) →
  files_kept (sy_kv s) (md_SSTables (meta_Get (kv_meta (sy_kv s)))) d →
  replay (d_log d) = (log, Ok (updates_of ec)) → log_ok log ec [] → tables_hold (sy_kv s) (kv_main (sy_kv s)) fs →
  recovered opts d (merge_levels (log_mem (ent_of <$> updates_of ec) :: fs)).
Proof.
  intros Ho Hg Hk Hr Hok Hf. pose proof (si_names _ _ Hsi) as [Hv _]. pose proof (du_version _ _ Hd) as Hv'.
  pose proof (du_main _ _ Hd) as En. pose proof (du_named _ _ Hd) as Hnm. pose proof (du_nodup _ _ Hd) as Hnd. rewrite En in Hnm, Hnd, Hk.
  eapply (recover_tables opts (sy_kv s) _ d meta log ec (kv_main (sy_kv s)) fs Hd (si_refs _ _ Hsi)); rewrite ?Hg; try done; [lia|].
  eapply main_openable; try done. apply Hsi.
Qed.

(** The tables the compaction publishes: [ids] with entries [fs]. *)
Lemma recover_new v ids meta log ec fs :
  phase_publishes (sy_phase s) = Some v → meta_Get meta = MkMeta v (table_name (sy_kv s) <$> ids) →
  meta_Open (d_meta0 d) (d_meta1 d) ((fun '(n, _) => (n, false)) <$> d_files d) = Ok meta →
  Forall (named v) (table_name (sy_kv s) <$> ids) → NoDup (table_name (sy_kv s) <$> ids) →
  replay (d_log d) = (log, Ok (updates_of ec)) → log_ok log ec [] → Forall2 (openable (d_files d)) (table_name (sy_kv s) <$> ids) fs →
  recovered opts d (merge_levels (log_mem (ent_of <$> updates_of ec) :: fs)).
Proof.
  intros Hp Hg Ho Hnm Hnd Hr Hok Hf. pose proof (si_names _ _ Hsi) as [Hv _]. pose proof (du_next _ _ Hd v Hp) as Hv'. pose proof (du_version _ _ Hd) as Hv0.
  eapply (recover_tables opts (sy_kv s) _ d meta log ec ids fs Hd (si_refs _ _ Hsi)); rewrite ?Hg; cbn [md_Version md_SSTables]; try done; lia.
Qed.

Lemma log_after_crash fp : l_fp (kv_log (sy_kv s)) = Some fp → crash fp (d_log d) →
  ∃ older newer log ec, kv_mem (sy_kv s) = arr_of (log_mem newer) ∧
    match kv_imm (sy_kv s) with Some imm => imm = arr_of (log_mem older) | None => older = [] end ∧
    replay (d_log d) = (log, Ok (updates_of ec)) ∧ log_ok log ec [] ∧ ent_of <$> updates_of ec = older ++ newer.
Proof.
  intros Hfp Hc. destruct (du_log _ _ Hd) as (older & newer & (ec & Hok & He) & L2 & L3).
  destruct (crash_uncommitted _ _ _ _ _ Hok Hfp Hc) as (log & Hr & Hok' & _). exists older, newer, log, ec. done.
Qed.

Lemma recover_quiet fp meta :
  l_fp (kv_log (sy_kv s)) = Some fp → crash fp (d_log d) →
  meta_Open (d_meta0 d) (d_meta1 d) ((fun '(n, _) => (n, false)) <$> d_files d) = Ok meta → meta_Get meta = meta_Get (kv_meta (sy_kv s)) →
  files_kept (sy_kv s) (md_SSTables (meta_Get (kv_meta (sy_kv s)))) d →
  recovered opts d (state_at init (sy_commits s) (length (sy_commits s))).
Proof.
  intros Hfp Hc Ho Hg Hk. destruct (log_after_crash fp Hfp Hc) as (older & newer & log & ec & L2 & L3 & Hr & Hok & He).
  destruct (i_now _ _ _ _ (si_inv _ _ Hsi)) as (_ & _ & fs & _ & _ & _ & Hf & _).
  eapply recovered_view; [|by eapply recover_old]. rewrite He. by eapply log_view; [apply Hsi|..].
Qed.

Lemma recover_commit id tx fp meta : room s →
  id ∈ kv_ongoing (sy_kv s) → kv_txs (sy_kv s) !! id = Some tx →
  update_point (kv_log (sy_kv s)) (arr_ents (tx_updates tx)) fp → crash fp (d_log d) →
  meta_Open (d_meta0 d) (d_meta1 d) ((fun '(n, _) => (n, false)) <$> d_files d) = Ok meta → meta_Get meta = meta_Get (kv_meta (sy_kv s)) →
  files_kept (sy_kv s) (md_SSTables (meta_Get (kv_meta (sy_kv s)))) d →
  recovered opts d (state_at init (sy_commits s) (length (sy_commits s))) ∨
  recovered opts d (overlay (arr_ents (tx_updates tx)) (state_at init (sy_commits s) (length (sy_commits s)))).
Proof.
  intros Hroom Hid Htx Hup Hc Ho Hg Hk. pose proof (si_inv _ _ Hsi) as Hinv. destruct (rm_updates _ Hroom id tx Hid Htx) as [Hsm Hq].
  destruct (i_txs _ _ _ _ Hinv id Hid) as (tx' & n & Htx' & Hr). rewrite Htx in Htx'. injection Htx' as <-.
  destruct Hr as (_ & _ & _ & _ & u & Hu & Hsu). rewrite Hu in *. rewrite arr_ents_of in *. rewrite arr_size_of in Hq.
  destruct (du_log _ _ Hd) as (older & newer & (ec & Hok & He) & L2 & L3).
  destruct (i_now _ _ _ _ Hinv) as (_ & _ & fs & _ & _ & _ & Hf & _).
  pose proof (log_view _ _ _ _ older newer fs Hinv Hd L2 L3 Hf) as Hv.
  destruct (update_crash_ok _ ec u fp _ Hok Hsu Hsm Hq Hup Hc) as (log' & ec' & Hr' & Hok' & [->|Hec']).
  - left. eapply recovered_view; [|by eapply recover_old]. by rewrite He.
  - right. eapply recovered_view; [|by eapply recover_old]. rewrite Hec', He, log_mem_commit by done.
    etrans; [apply overlay_levels, log_mem_sorted|]. apply overlay_same_view; [apply merge_levels_sorted| |exact Hv]. apply state_at_sorted, Hinv.
Qed.

(** The new table of a compaction. *)
Lemma new_table_openable id ents name : unreferenced (sy_kv s) id ents → table_name (sy_kv s) id = name → files_kept (sy_kv s) [name] d →
  openable (d_files d) name ents.
Proof.
  intros (t & Ht & Ho & _ & Hh) <- Hk. unfold files_kept in Hk. rewrite Forall_singleton in Hk. unfold table_name in Hk |- *. rewrite Ht in Hk |- *. exact (table_openable _ _ id t ents d Hd Ht Ho Hh Hk).
Qed.

(** The tables a flush publishes. *)
Lemma flush_openable v fz dt id fs : sy_phase s = Written v fz dt id → tables_hold (sy_kv s) (kv_main (sy_kv s)) fs →
  files_kept (sy_kv s) (md_SSTables (flush_md (sy_kv s) v)) d →
  md_SSTables (flush_md (sy_kv s) v) = table_name (sy_kv s) <$> id :: kv_main (sy_kv s) ∧
  Forall2 (openable (d_files d)) (table_name (sy_kv s) <$> id :: kv_main (sy_kv s)) (kept dt fz :: fs).
Proof.
  intros Hp Hf Hk. pose proof (si_phase _ _ Hsi) as Hph. rewrite Hp in Hph. destruct Hph as (_ & _ & _ & Hun).
  pose proof (du_table _ _ Hd) as Htn. rewrite Hp in Htn. cbn in Htn. pose proof (du_main _ _ Hd) as En.
  apply Forall_cons in Hk as [Hk1 Hk2]. split; [unfold flush_md; by rewrite fmap_cons, Htn, <- En|].
  rewrite fmap_cons. constructor.
  - rewrite Htn. eapply new_table_openable; [exact Hun|done|]. by apply Forall_singleton.
  - rewrite En in Hk2. eapply main_openable; try done. apply Hsi.
Qed.

Lemma recover_flush v fz dt id meta log ec older newer :
  sy_phase s = Written v fz dt id → meta_Get meta = flush_md (sy_kv s) v →
  meta_Open (d_meta0 d) (d_meta1 d) ((fun '(n, _) => (n, false)) <$> d_files d) = Ok meta →
  files_kept (sy_kv s) (md_SSTables (flush_md (sy_kv s) v)) d →
  replay (d_log d) = (log, Ok (updates_of ec)) → log_ok log ec [] → ent_of <$> updates_of ec = older ++ newer →
  kv_mem (sy_kv s) = arr_of (log_mem newer) →
  match kv_imm (sy_kv s) with Some imm => imm = arr_of (log_mem older) | None => older = [] end →
  recovered opts d (state_at init (sy_commits s) (length (sy_commits s))).
Proof.
  intros Hp Hg Ho Hk Hr Hok He L2 L3. pose proof (si_names _ _ Hsi) as [Hv _]. pose proof (si_phase _ _ Hsi) as Hph. rewrite Hp in Hph.
  destruct Hph as (Himm & Hs & _ & Hun). pose proof (du_table _ _ Hd) as Htn. rewrite Hp in Htn. cbn in Htn.
  assert (phase_publishes (sy_phase s) = Some v) as Hpv by (by rewrite Hp).
  destruct (phase_named _ _ v id Hd Hpv ltac:(lia) Htn) as (Hni & Hnn & Hnf).
  destruct (i_now _ _ _ _ (si_inv _ _ Hsi)) as (_ & _ & fs & _ & _ & _ & Hf & _).
  pose proof (log_view _ _ _ _ older newer fs (si_inv _ _ Hsi) Hd L2 L3 Hf) as Hview.
  pose proof (du_main _ _ Hd) as En. pose proof (du_nodup _ _ Hd) as Hnd. destruct (flush_openable v fz dt id fs Hp Hf Hk) as [_ Hop].
  assert (fz = log_mem older) as ->.
  { rewrite Himm in L3. apply (f_equal arr_ents) in L3. by rewrite !arr_ents_of in L3. }
  eapply recovered_view; [|eapply (recover_new v (id :: kv_main (sy_kv s)) meta log ec (kept dt (log_mem older) :: fs))]; try done.
  - rewrite He. etrans; [|exact Hview]. apply repeated_level. intros k Hn. apply kept_none.
    rewrite <- log_mem_levels, assoc_merge_levels in Hn. cbn in Hn. by destruct (assoc (log_mem newer) k), (assoc (log_mem older) k).
  - rewrite Hg. unfold flush_md. by rewrite fmap_cons, Htn, En.
  - rewrite fmap_cons, <- En. constructor; [done|done].
  - rewrite fmap_cons, Htn, <- En. by constructor.
Qed.

Lemma recover_merge level v o1 o2 dt id meta log ec newer :
  sy_phase s = Merged level v o1 o2 dt id → meta_Get meta = merge_md (sy_kv s) level v →
  meta_Open (d_meta0 d) (d_meta1 d) ((fun '(n, _) => (n, false)) <$> d_files d) = Ok meta →
  files_kept (sy_kv s) (md_SSTables (merge_md (sy_kv s) level v)) d →
  replay (d_log d) = (log, Ok (updates_of ec)) → log_ok log ec [] → ent_of <$> updates_of ec = newer →
  kv_mem (sy_kv s) = arr_of (log_mem newer) →
  recovered opts d (state_at init (sy_commits s) (length (sy_commits s))).
Proof.
  intros Hp Hg Ho Hk Hr Hok He L2. pose proof (si_names _ _ Hsi) as [Hv _]. pose proof (si_phase _ _ Hsi) as Hph. rewrite Hp in Hph.
  destruct Hph as (Himm & (Ho1 & Ho2 & Hdt) & a & b & Hab & Hun). pose proof (du_table _ _ Hd) as Htn. rewrite Hp in Htn. cbn in Htn.
  assert (phase_publishes (sy_phase s) = Some v) as Hpv by (by rewrite Hp).
  destruct (phase_named _ _ v id Hd Hpv ltac:(lia) Htn) as (Hni & Hnn & Hnf).
  pose proof (split_level _ _ _ _ Ho1 Ho2) as Hmain. pose proof (du_main _ _ Hd) as En. pose proof (du_nodup _ _ Hd) as Hnd.
  destruct (i_now _ _ _ _ (si_inv _ _ Hsi)) as (_ & _ & fs & _ & _ & _ & Hf & _).
  assert (same_view (merge_levels (log_mem newer :: fs)) (state_at init (sy_commits s) (length (sy_commits s)))) as Hview.
  { rewrite <- (app_nil_l newer). apply (log_view (sy_kv s) (sy_phase s) init (sy_commits s) [] newer fs); try done; [apply Hsi|by rewrite Himm]. }
  set (l1 := take level (kv_main (sy_kv s))) in *. set (l2 := drop (level + 2) (kv_main (sy_kv s))) in *.
  rewrite Hmain in Hf. apply tables_hold_split in Hf as (f1 & fr & -> & Hf1 & Hfr).
  inversion Hfr as [|? x ? fr' Hx Hfr']; subst. inversion Hfr' as [|? y ? f2 Hy Hf2]; subst.
  assert ([x; y] = [a; b]) as [= -> ->] by (eapply tables_hold_unique; [by repeat constructor|exact Hab]).
  assert (md_SSTables (merge_md (sy_kv s) level v) = table_name (sy_kv s) <$> l1 ++ id :: l2) as Emd.
  { unfold merge_md. cbn. unfold l1, l2. rewrite En, fmap_app, fmap_cons, Htn, fmap_take, fmap_drop. done. }
  eapply recovered_view; [|eapply (recover_new v (l1 ++ id :: l2) meta log ec (f1 ++ kept dt (merge_levels [a; b]) :: f2))]; try done.
  - etrans; [|exact Hview]. apply (merge_adjacent (log_mem (ent_of <$> updates_of ec) :: f1)).
    + destruct Hx as (t & _ & Hh). exact (Holds_sorted (It := SortedFileIter) _ _ Hh).
    + destruct Hy as (t & _ & Hh). exact (Holds_sorted (It := SortedFileIter) _ _ Hh).
    + intros E. rewrite (Hdt E) in Hf2. by inversion Hf2.
  - rewrite Hg, <- Emd. done.
  - rewrite <- Emd. unfold merge_md. cbn. rewrite <- Htn at 1. apply Forall_app. split; [by apply Forall_take|]. constructor; [done|by apply Forall_drop].
  - rewrite <- Emd. apply NoDup_splice; [done|done|lia].
  - rewrite Emd in Hk. unfold files_kept in Hk. rewrite fmap_app, fmap_cons in Hk |- *. apply Forall_app in Hk as [Hk1 Hk2]. apply Forall_cons in Hk2 as [Hk2 Hk3].
    apply Forall2_app; [|constructor].
    + eapply main_openable; try done; [apply Hsi|]. intros i Hi. rewrite Hmain. apply elem_of_app. by left.
    + eapply new_table_openable; [exact Hun|done|]. by apply Forall_singleton.
    + eapply main_openable; try done; [apply Hsi|]. intros i Hi. rewrite Hmain. apply elem_of_app. right. by do 2 right.
Qed.

(** Metadata of version 0 lists nothing. *)
Lemma unpublished : md_Version (meta_Get (kv_meta (sy_kv s))) = 0 → meta_Get (kv_meta (sy_kv s)) = meta_zero.
Proof.
  intros Hv. pose proof (du_named _ _ Hd) as Hn. destruct (meta_Get (kv_meta (sy_kv s))) as [v names]. cbn in *. subst v.
  destruct names as [|name names]; [done|]. apply Forall_cons in Hn as [(w & Hw & _) _]. lia.
Qed.

(** After a crash the committed state is found again, with or without the
    transaction that was being committed, unless the directory is refused. *)
Lemma recover_point u : room s → crash_point s d u →
  recovered opts d (state_at init (sy_commits s) (length (sy_commits s))) ∨
  recovered opts d (overlay u (state_at init (sy_commits s) (length (sy_commits s)))) ∨
  refused_as_damaged opts (sy_kv s) d.
Proof.
  intros Hroom Hcp. pose proof (as_read_contents _ (du_meta _ _ Hd)) as Hread.
  destruct Hcp as [fp Hfp Hc Hm Hk|id tx fp Hid Htx Hup Hc Hm Hk|md c fp Hpub Htear Hcm Hm Hfp Hc Hk Hk'].
  - destruct (meta_found opts (sy_kv s) d _ (eq (meta_Get (kv_meta (sy_kv s)))) Hm) as [(meta & Ho & Hg)|Hr]; [done|by intros ->| |by auto].
    left. by eapply recover_quiet.
  - destruct (meta_found opts (sy_kv s) d _ (eq (meta_Get (kv_meta (sy_kv s)))) Hm) as [(meta & Ho & Hg)|Hr]; [done|by intros ->| |by auto].
    destruct (recover_commit id tx fp meta) as [Hr|Hr]; auto.
  - destruct (log_after_crash fp Hfp Hc) as (older & newer & log & ec & L2 & L3 & Hr & Hok & He).
    destruct (i_now _ _ _ _ (si_inv _ _ Hsi)) as (_ & _ & fs & _ & _ & _ & Hf & _). pose proof (du_version _ _ Hd) as Hv.
    assert (phase_publishes (sy_phase s) = Some (md_Version md) ∧ meta_fits md) as [Hp Hfit].
    { pose proof (rm_phase _ Hroom) as Hrp. unfold publishes in Hpub. destruct (sy_phase s); try done; by subst md. }
    destruct (du_next _ _ Hd _ Hp) as [Hlt _].
    destruct (meta_found opts (sy_kv s) d _ (fun m => m = meta_Get (kv_meta (sy_kv s)) ∨ m = md) Hm) as [(meta & Ho & Hg)|Href];
      [by apply set_crash; [apply (du_meta _ _ Hd)| |lia|apply unpublished|..]|intros [<-|<-]; cbn in *; lia| |by auto].
    left. destruct Hg as [Hg|Hg].
    + eapply recovered_view; [|by eapply recover_old]. rewrite He. by eapply log_view; [apply Hsi|..].
    + destruct (publishes_inv _ _ Hpub) as [(v & fz & dt & id & Ep & ->)|(level & v & o1 & o2 & dt & id & Ep & ->)].
      * by eapply recover_flush.
      * pose proof (si_phase _ _ Hsi) as Hph. rewrite Ep in Hph. destruct Hph as (Himm & _). rewrite Himm in L3. subst older. by eapply recover_merge.
Qed.
End point.
End recovery.
