(* ===== verification/RecoveryTheorems.v ===== *)
(** * What a crash can do to a store

    However often a store crashes, opening its directory finds every
    transaction that was acknowledged; what a crash inside the rewrite of the
    log can leave; and the two windows in which a crash loses committed
    transactions or makes the directory unreadable. *)

From Stdlib Require Import ZArith Lia.
From Stdlib.Strings Require Import Byte.
From stdpp Require Import base list numbers.
From S2P Require Import Prelude GoLib SortedSeq SortedKV SortedArray Merge File Entry SortedFile.
From S2P Require Import SortedFileProofs KVIterators Log LogProofs Metadata KV KVCompact KVProofs.
From S2P Require Import KVCompactProofs KVSystem KVOps LogHistory Reopen Samples KVTheorems Recovery.

Open Scope Z_scope.

Section theorems.
Context `{BL : BloomLaws} `{MJ : MetaJson} `{!MetaJsonLaws}.

(** What readers of the store find: the commits [h], oldest first. *)
Definition shows (kv : KV) (h : list (list ent)) : Prop := ∀ k, snd (kv_Get kv k) = Ok (current [] h k).

(** The life of a directory: it is opened when it is empty, the store makes
    steps within its limits, crashes, is opened again, possibly with other
    options, and so on.  [past] are the commits of the earlier incarnations. *)
Inductive run : list (list ent) → sys → Prop :=
  | run_new opts kv : kv_Open opts fresh_disk = Ok kv → run [] (MkSys kv Idle [])
  | run_step past s s' : run past s → room s → step s s' → run past s'
  | run_crash past s d u opts kv past' :
      run past s → room s → crash_point s d u → kv_Open opts d = Ok kv →
      past' = past ++ sy_commits s ∨ past' = past ++ sy_commits s ++ [u] → shows kv past' →
      run past' (MkSys kv Idle []).

Definition base (past : list (list ent)) : list ent := state_at [] past (length past).

Lemma state_at_all init c : state_at init c (length c) = foldl (fun s u => overlay u s) init c.
Proof. unfold state_at. by rewrite take_ge. Qed.

Lemma base_app past c : base (past ++ c) = state_at (base past) c (length c).
Proof. unfold base. by rewrite !state_at_all, foldl_app. Qed.

Lemma base_sorted past : sorted (base past).
Proof. apply state_at_sorted. constructor. Qed.

Lemma current_base h k : current [] h k = visible (assoc (base h) k).
Proof. done. Qed.

Lemma shows_view kv init h : inv kv init [] → refs_ok kv → kv_closed kv = false → shows kv h ↔ same_view init (base h).
Proof.
  intros Hinv Hrefs Hcl. unfold shows, same_view. split; intros Hs k; specialize (Hs k);
    destruct (kv_Get_spec kv init [] Hinv Hrefs Hcl k) as (kv' & Hg & _).
  - rewrite Hg in Hs. cbn in Hs. injection Hs as Hs. exact Hs.
  - rewrite Hg. cbn. by rewrite current_base, <- Hs.
Qed.

(** The invariant does not depend on how the initial state is written. *)
Lemma sys_inv_view init init' kv : sys_inv init (MkSys kv Idle []) → same_view init init' → sorted init' → sys_inv init' (MkSys kv Idle []).
Proof.
  intros [[I1 I2 I3 (m & ims & fs & N1 & N2 & N3 & N4 & N5) I5 I6 I7 I8 I9] Hr Hp Hs Hn Hv] Hview Hso. constructor; try done.
  constructor; try done.
  - exists m, ims, fs. split_and!; try done. by etrans.
  - intros id Hid. destruct (I5 id Hid) as (tx & n & Ht & T1 & T2 & T3 & (ls & T4 & T5) & T6). cbn in T3. exists tx, n. split; [done|].
    split_and!; try done. exists ls. split; [done|]. etrans; [exact T5|]. by destruct n.
Qed.

Lemma recovered_shows opts d h : recovered opts d (base h) →
  ∃ kv, kv_Open opts d = Ok kv ∧ shows kv h ∧ durable kv Idle ∧ sys_inv (base h) (MkSys kv Idle []).
Proof.
  intros (kv & init & H1 & H2 & H3 & H4 & H5). pose proof H4 as [Hinv Hrefs _ _ _ _]. exists kv. split; [done|].
  split; [by apply (shows_view kv init)|]. split; [done|]. eapply sys_inv_view; [done..|apply base_sorted].
Qed.

Lemma crash_recovered opts past s d u : sys_inv (base past) s → durable (sy_kv s) (sy_phase s) → room s → crash_point s d u →
  (∃ past', (past' = past ++ sy_commits s ∨ past' = past ++ sy_commits s ++ [u]) ∧ recovered opts d (base past')) ∨
  refused_as_damaged opts (sy_kv s) d.
Proof.
  intros Hsi Hd Hroom Hcp. destruct (recover_point opts _ s d Hsi Hd u Hroom Hcp) as [Hr|[Hr|Hr]]; [left..|by right].
  - exists (past ++ sy_commits s). split; [by left|]. by rewrite base_app.
  - exists (past ++ sy_commits s ++ [u]). split; [by right|]. rewrite base_app, length_app, Nat.add_1_r. by rewrite state_at_snoc.
Qed.

Lemma fresh_durable opts kv : kv_Open opts fresh_disk = Ok kv → sys_inv [] (MkSys kv Idle []) ∧ durable kv Idle.
Proof.
  intros Ho. destruct (recover_disk opts fresh_disk (MkStore (MkItem (f_open []) meta_zero) (MkItem (f_open []) meta_zero)) new_log [] [])
    as (kv' & Ho' & _ & Hd & Hsi); try done; [constructor|]. rewrite Ho in Ho'. by injection Ho' as <-.
Qed.

Lemma run_ok past s : run past s → sys_inv (base past) s ∧ durable (sy_kv s) (sy_phase s).
Proof.
  induction 1 as [opts kv Ho|past s s' _ [IH1 IH2] Hroom Hst|past s d u opts kv past' _ [IH1 IH2] Hroom Hcp Ho Hp Hs].
  - by apply (fresh_durable opts).
  - split; [by eapply step_inv|by eapply durable_step].
  - destruct (crash_recovered opts _ _ _ _ IH1 IH2 Hroom Hcp) as [(past1 & _ & Hrec)|(_ & _ & Hrec)]; [|by rewrite Ho in Hrec].
    destruct Hrec as (kv1 & init & H1 & H2 & H3 & H4 & H5). rewrite Ho in H1. injection H1 as <-. split; [|done].
    pose proof H4 as [Hinv Hrefs _ _ _ _]. eapply sys_inv_view; [done| |apply base_sorted]. by apply (shows_view kv init).
Qed.

(** C3: Crash recovery: take a store whose directory was created empty and that
    has since run transactions, flushes and merges in any interleaving, and has
    crashed and been opened again any number of times.  A power loss between two
    steps, while a table is written, at any point of writing a transaction to the
    log, or while the metadata is overwritten leaves one of two things.  Either
    the directory opens, every key reads as in the state of all transactions ever
    acknowledged, in order, with or without the one that was being committed, and
    the store goes on from there.  Or no metadata was ever published and there is
    a table file already, which is the store's first flush: then [Open] refuses
    the directory with ErrMetaUnreadable, and that is the only other outcome.
    Conditions: the store is within its limits ([room]: entry, table and counter
    sizes), a power loss keeps the unsynced writes of a file up to some point,
    the last of them perhaps partly ([crash]), and a torn metadata slot is noticed
    by its checksum ([tear_detected]).  The rewriting of the log at the end of a
    flush is [flush_crash]'s. *)
Theorem crash_recovery past s d u opts :
  run past s → room s → crash_point s d u →
  (∃ kv past', kv_Open opts d = Ok kv ∧ (past' = past ++ sy_commits s ∨ past' = past ++ sy_commits s ++ [u]) ∧
     shows kv past' ∧ run past' (MkSys kv Idle [])) ∨
  (md_Version (meta_Get (kv_meta (sy_kv s))) = 0 ∧ countSSTables ((fun '(n, _) => (n, false)) <$> d_files d) ≠ 0%nat ∧
   kv_Open opts d = Err ErrMetaUnreadable).
Proof.
  intros Hrun Hroom Hcp. destruct (run_ok _ _ Hrun) as [Hsi Hd].
  destruct (crash_recovered opts _ _ _ _ Hsi Hd Hroom Hcp) as [(past' & Hp & Hrec)|Hrec]; [left|by right].
  destruct (recovered_shows _ _ _ Hrec) as (kv & Ho & Hs & _). exists kv, past'. split_and!; try done. by eapply run_crash.
Qed.

(** *** Rewriting the log *)

(** The log file at each point of [rewriteLog]: while it is truncated, then
    while the live memtable is written to it. *)
Definition rewrite_point (log : Log) (live : list ent) (f : file) : Prop :=
  (∃ fp, l_fp log = Some fp ∧ f ∈ truncate_points fp (l_seq log)) ∨
  (∃ log1, log_Truncate log = (log1, Ok tt) ∧ update_point log1 live f).

Lemma rewrite_crash log ec live f c :
  log_ok log ec [] → sorted live → Forall small live → l_seq log + Z.of_nat (length live) < 2 ^ 64 - 1 →
  rewrite_point log live f → crash f c →
  ∃ log', replay c = (log', Err ErrLogHeaderCorrupt) ∨
    ∃ es, replay c = (log', Ok es) ∧ (es = updates_of ec ∨ ent_of <$> es = [] ∨ ent_of <$> es = live).
Proof.
  intros Hok Hs Hsm Hq [(fp & Hfp & Hf)|(log1 & Ht & Hup)] Hc.
  - destruct (truncate_crash_outcomes log ec fp f c Hok Hfp Hf Hc) as (log' & [Hr|[Hr|Hr]]); exists log'; [by left|right..]; eexists; eauto.
  - destruct (log_Truncate_ok log ec Hok) as (log2 & Ht2 & Hok2 & _ & Hseq & _). rewrite Ht in Ht2. injection Ht2 as <-.
    destruct (update_crash_ok log1 [] live f c Hok2 Hs Hsm ltac:(lia) Hup Hc) as (log' & ec' & Hr & _ & Hec). exists log'. right.
    exists (updates_of ec'). split; [done|]. right. destruct Hec as [ -> | -> ]; [by left|by right].
Qed.

(** Opening when the log is refused. *)
Lemma open_refused opts d meta log e : 
  meta_Open (d_meta0 d) (d_meta1 d) ((fun '(n, _) => (n, false)) <$> d_files d) = Ok meta → replay (d_log d) = (log, Err e) →
  kv_Open opts d = Err e.
Proof. intros Hm Hr. unfold kv_Open. rewrite Hm. rs. unfold openLog. rewrite Hr. done. Qed.

(** A key that is not in the live memtable reads as before, whichever of the
    three logs is found. *)
Lemma rewrite_view (init : list ent) (s : sys) v fz dt id older newer us fs k :
  sys_inv init s → durable (sy_kv s) (sy_phase s) → sy_phase s = Written v fz dt id →
  kv_mem (sy_kv s) = arr_of (log_mem newer) →
  match kv_imm (sy_kv s) with Some imm => imm = arr_of (log_mem older) | None => older = [] end →
  tables_hold (sy_kv s) (kv_main (sy_kv s)) fs → us = older ++ newer ∨ us = [] ∨ us = log_mem newer → assoc (log_mem newer) k = None →
  visible (assoc (merge_levels (log_mem us :: kept dt fz :: fs)) k) = visible (assoc (state_at init (sy_commits s) (length (sy_commits s))) k).
Proof.
  intros Hsi Hd Hp L2 L3 Hf Hus Hk. pose proof (si_phase _ _ Hsi) as Hph. rewrite Hp in Hph. destruct Hph as (Himm & Hs & Hdt & _).
  rewrite <- (log_view _ _ _ _ older newer fs (si_inv _ _ Hsi) Hd L2 L3 Hf k).
  assert (fz = log_mem older) as -> by (rewrite Himm in L3; apply (f_equal arr_ents) in L3; by rewrite !arr_ents_of in L3).
  assert (assoc (log_mem (older ++ newer)) k = assoc (log_mem older) k) as Ho.
  { rewrite <- log_mem_levels, assoc_merge_levels. cbn [assoc_levels]. rewrite Hk. by destruct (assoc (log_mem older) k). }
  rewrite !assoc_merge_levels. cbn [assoc_levels]. rewrite Ho.
  assert (visible match assoc (kept dt (log_mem older)) k with Some e => Some e | None => assoc_levels fs k end =
    visible match assoc (log_mem older) k with Some e => Some e | None => assoc_levels fs k end) as Hkept.
  { pose proof (kept_same_view dt (log_mem older) (log_mem_sorted _) k) as Hkv. destruct dt; cbn [kept] in *; [|done].
    rewrite (Hdt eq_refl) in Hf. inversion Hf; subst. cbn [assoc_levels].
    by destruct (assoc (drop_dead (log_mem older)) k), (assoc (log_mem older) k). }
  destruct Hus as [ -> |[ -> | -> ]].
  - rewrite Ho. destruct (assoc (log_mem older) k) eqn:E; [done|]. by rewrite (kept_none _ _ _ E).
  - exact Hkept.
  - rewrite log_mem_id, Hk by apply log_mem_sorted. exact Hkept.
Qed.

(** C33: The end of a flush, after the metadata has been published: a crash at any
    point of truncating the log and writing the live memtable back leaves a log
    whose header is refused, or a directory that opens and in which every key
    outside the live memtable reads as committed.  So a flush during which
    nothing was committed loses nothing. *)
Theorem flush_crash past s d v fz dt id f opts :
  run past s → room s → sy_phase s = Written v fz dt id →
  rewrite_point (kv_log (sy_kv s)) (arr_ents (kv_mem (sy_kv s))) f → crash f (d_log d) →
  (d_meta0 d, d_meta1 d) = contents (meta_Set (kv_meta (sy_kv s)) (flush_md (sy_kv s) v)) →
  files_kept (sy_kv s) (md_SSTables (flush_md (sy_kv s) v)) d →
  kv_Open opts d = Err ErrLogHeaderCorrupt ∨
  ∃ kv, kv_Open opts d = Ok kv ∧
    ∀ k, assoc (arr_ents (kv_mem (sy_kv s))) k = None → snd (kv_Get kv k) = Ok (current [] (past ++ sy_commits s) k).
Proof.
  intros Hrun Hroom Hp Hrp Hc Hm Hk. destruct (run_ok _ _ Hrun) as [Hsi Hd]. destruct Hroom as [_ Hq Hfit]. rewrite Hp in Hfit.
  destruct (du_log _ _ Hd) as (older & newer & (ec & Hok & He) & L2 & L3).
  assert (phase_publishes (sy_phase s) = Some v) as Hpv by (by rewrite Hp). destruct (du_next _ _ Hd v Hpv) as [Hv1 _]. pose proof (du_version _ _ Hd) as Hv0.
  assert (meta_Get (meta_Set (kv_meta (sy_kv s)) (flush_md (sy_kv s) v)) = flush_md (sy_kv s) v) as Hgs by (by apply meta_Get_Set).
  destruct (meta_reopen (meta_Set (kv_meta (sy_kv s)) (flush_md (sy_kv s) v)) ((fun '(n, _) => (n, false)) <$> d_files d)) as (meta & Ho & Hg & _);
    [by apply meta_Set_ok, Hfit; apply (du_meta _ _ Hd)|rewrite Hgs; cbn; lia|]. rewrite <- Hm in Ho. cbn [fst snd] in Ho. rewrite Hgs in Hg.
  pose proof (si_small _ _ Hsi) as [Hsm _]. rewrite L2 in Hsm, Hrp, Hq |- *. rewrite arr_ents_of in Hsm, Hrp |- *. rewrite arr_size_of in Hq.
  destruct (i_now _ _ _ _ (si_inv _ _ Hsi)) as (_ & _ & fs & _ & _ & _ & Hf & _).
  destruct (flush_openable _ s d Hsi Hd v fz dt id fs Hp Hf Hk) as [En Hop].
  destruct (rewrite_crash _ ec (log_mem newer) f _ Hok (log_mem_sorted _) Hsm Hq Hrp Hc) as (log' & [Hr|(es & Hr & Hes)]);
    [left; by eapply open_refused|right].
  destruct (open_disk opts d meta log' es (kept dt fz :: fs) Ho Hr) as (tables & Hopen & _ & Hot); [by rewrite Hg, En|].
  destruct (opened_kv_inv opts d meta log' (ent_of <$> es) tables _ Hot) as [Hinv Hrefs].
  eexists. split; [exact Hopen|]. intros k Hn. destruct (kv_Get_spec _ _ _ Hinv Hrefs eq_refl k) as (kv' & Hgt & _). rewrite Hgt. cbn [snd]. f_equal.
  rewrite current_base, base_app. apply (rewrite_view (base past) s v fz dt id older newer); try done.
  destruct Hes as [ -> |[Hes|Hes]]; rewrite ?He, ?Hes; auto.
Qed.

End theorems.

(** ** Concrete runs *)

(** [room] by computation, outside of merges. *)
Definition room_check (s : sys) : bool :=
  forallb (fun id => match kv_txs (sy_kv s) !! id with
    | Some tx => forallb (fun e => bool_decide (small e)) (arr_ents (tx_updates tx)) &&
                 (l_seq (kv_log (sy_kv s)) + Z.of_nat (Size (tx_updates tx)) <? 2 ^ 64 - 1)
    | None => true end) (kv_ongoing (sy_kv s)) &&
  (l_seq (kv_log (sy_kv s)) + Z.of_nat (Size (kv_mem (sy_kv s))) <? 2 ^ 64 - 1) &&
  match sy_phase s with
  | Idle => true
  | Frozen _ s _ => Z.of_nat (length s) <=? maxNKeys
  | Written v _ _ _ => let md := flush_md (sy_kv s) v in
      (0 <=? md_Version md) && (md_Version md <? 2 ^ 64) && (Z.of_nat (length (json_Marshal md)) <? 2 ^ 32)
  | _ => false
  end.

Lemma room_checked s : room_check s = true → room s.
Proof.
  intros [[Hu Hm]%andb_true_iff Hp]%andb_true_iff. split.
  - intros id tx Hid Htx. rewrite forallb_forall in Hu. specialize (Hu id). rewrite <- list_elem_of_In in Hu. specialize (Hu Hid).
    rewrite Htx in Hu. apply andb_true_iff in Hu as [Hs Hq]. split; [|by apply Z.ltb_lt].
    apply Forall_forall. intros e He. rewrite forallb_forall in Hs. specialize (Hs e). rewrite <- list_elem_of_In in Hs. by apply (bool_decide_unpack _), Is_true_true, Hs.
  - by apply Z.ltb_lt.
  - destruct (sy_phase s) as [|v f d|v f d id|? ? ? ? ?|? ? ? ? ? ?]; try done; [by apply Z.leb_le|].
    apply andb_true_iff in Hp as [[H1 H2]%andb_true_iff H3]. split; [split; [by apply Z.leb_le|by apply Z.ltb_lt]|by apply Z.ltb_lt].
Qed.

Definition w_s0 : sys := MkSys w_kv0 Idle [].
Definition w_s1 : sys := MkSys w_kv1 Idle [].

Lemma w_run2 : run [] w_s2.
Proof.
  apply (run_step [] w_s1); [apply (run_step [] w_s0)|..].
  - apply (run_new w_opts). vm_compute. reflexivity.
  - apply room_checked. vm_compute. reflexivity.
  - eapply (s_new w_kv0 Idle [] w_kv1 0); vm_compute; reflexivity.
  - apply room_checked. vm_compute. reflexivity.
  - eapply (s_write w_kv1 Idle [] 0 _ w_kv2); [|apply (w_SetEx (bs "k") (bs "v") ModeUpsert)|vm_compute; reflexivity].
    apply (bool_decide_unpack _). vm_compute. exact I.
Qed.

(** A crash between the record of a transaction and its commit record. *)
Definition w_torn : file := default (f_open []) (l_fp (write_all (kv_log w_kv2) (arr_ents (tx_updates w_tx2)))).
Definition w_crashed : disk := MkDisk [] [] (f_view w_torn) [].

Lemma w_crash_point : crash_point w_s2 w_crashed (arr_ents (tx_updates w_tx2)).
Proof.
  apply (cp_commit _ _ 0%nat w_tx2 w_torn).
  - apply (bool_decide_unpack _). vm_compute. exact I.
  - vm_compute. reflexivity.
  - apply (up_writing _ _ _ 1). vm_compute. reflexivity.
  - unfold w_crashed. cbn [d_log]. unfold f_view. rewrite <- (app_nil_r (f_pending w_torn)) at 1. apply (crash_prefix _ _ []). by rewrite app_nil_r.
  - vm_compute. reflexivity.
  - constructor.
Qed.

Lemma crash_recovery_witness :
  ∃ kv past', kv_Open w_opts w_crashed = Ok kv ∧ (past' = [] ∨ past' = [arr_ents (tx_updates w_tx2)]) ∧ shows kv past'.
Proof.
  destruct (crash_recovery [] w_s2 w_crashed (arr_ents (tx_updates w_tx2)) w_opts w_run2) as [(kv & past' & Ho & Hp & Hs & _)|(_ & Hn & _)].
  - apply room_checked. vm_compute. reflexivity.
  - exact w_crash_point.
  - exists kv, past'. split; [exact Ho|]. split; [exact Hp|exact Hs].
  - exfalso. apply Hn. vm_compute. reflexivity.
Defined.

(** A commit while a flush is in flight. *)
Definition w_kv8 : KV := fst (with_tx w_kv6 1 (fun tx => tx_SetEx tx (bs "j") (bs "w") ModeUpsert)).
Definition w_kv9 : KV := fst (applyTXSync w_kv8 1).
Definition w_flushing (kv : KV) (c : list (list ent)) : sys := MkSys kv (Written 1 [Ent (bs "k") (bs "v") false] true 0) c.
Definition w_s8 : sys := w_flushing w_kv8 w_commits.
Definition w_s9 : sys := w_flushing w_kv9 (w_commits ++ [[Ent (bs "j") (bs "w") false]]).
Definition w_tx10 : KVTX := default (MkTX 0 arr_empty [] [] None) (kv_txs w_kv8 !! 1%nat).

Lemma w_run6 : run [] w_s6.
Proof.
  apply (run_step [] w_s5); [apply (run_step [] w_s4); [apply (run_step [] w_s3); [apply (run_step [] w_s2); [apply w_run2|..]|..]|..]|..];
    try (apply room_checked; vm_compute; reflexivity).
  - eapply (s_commit w_kv2 Idle [] 0 w_tx2 w_kv3 (Ok tt)); try (vm_compute; reflexivity). apply (bool_decide_unpack _). vm_compute. exact I.
  - eapply (s_new w_kv3 Idle w_commits w_kv4 1); vm_compute; reflexivity.
  - exact w_freeze.
  - exact w_write.
Qed.

Lemma w_run9 : run [] w_s9.
Proof.
  apply (run_step [] w_s8); [apply (run_step [] w_s6); [apply w_run6|..]|..]; try (apply room_checked; vm_compute; reflexivity).
  - eapply (s_write w_kv6 _ _ 1 _ w_kv8); [|apply (w_SetEx (bs "j") (bs "w") ModeUpsert)|vm_compute; reflexivity].
    apply (bool_decide_unpack _). vm_compute. exact I.
  - eapply (s_commit w_kv8 _ w_commits 1 w_tx10 w_kv9 (Ok tt)); try (vm_compute; reflexivity). apply (bool_decide_unpack _). vm_compute. exact I.
Qed.

(** The directory when [rewriteLog] has truncated the log and has not yet
    written the live memtable. *)
Definition truncated_disk (kv : KV) (version : Z) : disk :=
  disk_of (set_log (flush_meta kv version) (fst (log_Truncate (kv_log kv)))).

Definition w_opened : KV := match kv_Open w_opts (truncated_disk w_kv9 1) with Ok kv => kv | _ => w_none end.

(** Two windows in which a crash does harm.  In the first flush of a store,
    between writing the table and the metadata, the directory cannot be opened
    although the log holds everything.  In any flush, between truncating the log
    and writing the live memtable back, the directory opens without the
    transactions that were committed, and acknowledged, while the flush ran. *)
Lemma crash_windows :
  (run [] w_s6 ∧ current [] (sy_commits w_s6) (bs "k") = Some (bs "v") ∧
   kv_Open w_opts (disk_of w_kv6) = Err ErrMetaUnreadable) ∧
  (run [] w_s9 ∧ current [] (sy_commits w_s9) (bs "j") = Some (bs "w") ∧
   kv_Open w_opts (truncated_disk w_kv9 1) = Ok w_opened ∧ snd (kv_Get w_opened (bs "j")) = Ok None).
Proof.
  split; [split; [exact w_run6|]|split; [exact w_run9|]]; split_and!; vm_compute; reflexivity.
Qed.

Lemma crash_at f c : f_pending f = [] → c = f_synced f → crash f c.
Proof. intros Hp ->. by apply (crash_prefix f [] []). Qed.

Lemma flush_crash_witness :
  kv_Open w_opts (truncated_disk w_kv9 1) = Err ErrLogHeaderCorrupt ∨
  ∃ kv, kv_Open w_opts (truncated_disk w_kv9 1) = Ok kv ∧ snd (kv_Get kv (bs "k")) = Ok (Some (bs "v")).
Proof.
  destruct (flush_crash [] w_s9 (truncated_disk w_kv9 1) 1 [Ent (bs "k") (bs "v") false] true 0
    (default (f_open []) (l_fp (fst (log_Truncate (kv_log w_kv9))))) w_opts w_run9) as [He|(kv & Ho & Hk)].
  - apply room_checked. vm_compute. reflexivity.
  - reflexivity.
  - left. eexists. split; [vm_compute; reflexivity|]. vm_compute. by do 4 right; left.
  - apply crash_at; vm_compute; reflexivity.
  - vm_compute. reflexivity.
  - unfold files_kept. apply (bool_decide_unpack _). vm_compute. exact I.
  - left. exact He.
  - right. exists kv. split; [exact Ho|]. apply Hk. vm_compute. reflexivity.
Defined.
