(* ===== verification/Cache.v ===== *)
(** * The read cache and the options of the store: db/kv.go

    [Get] of a store with a cache answers from the cache when it can; a commit
    drops the keys it wrote.  The cache is Ristretto, an interface of its
    operations: writes are buffered and applied later by a goroutine of the
    library, and entries can be lost at any time. *)

From Stdlib Require Import ZArith Lia.
From Stdlib Require Import SpecFloat.
From Stdlib.Strings Require Import Byte.
From stdpp Require Import base list numbers.
From S2P Require Import Prelude GoLib SortedSeq SortedKV SortedArray Merge File Entry SortedFile.
From S2P Require Import SortedFileProofs KVIterators Log Metadata KV KVCompact KVProofs.
From S2P Require Import KVCompactProofs KVSystem KVOps Samples KVTheorems.

Open Scope Z_scope.

(** ** Ristretto *)

(** The writes that are buffered, oldest first. *)
Inductive cache_op := OpSet (k v : bytes) | OpDel (k : bytes).

#[export] Instance cache_op_eq_dec : EqDecision cache_op.
Proof. solve_decision. Defined.

(** [cache_buffer] are the writes [Wait] would wait for, [cache_moves] what the
    library does on its own. *)
Class Ristretto := {
  cache_t : Type;
  NewCache : Z → Z → res cache_t;
  cache_Get : cache_t → bytes → option bytes;
  cache_Set : cache_t → bytes → bytes → Z → cache_t;
  cache_Del : cache_t → bytes → cache_t;
  cache_buffer : cache_t → list cache_op;
  cache_moves : cache_t → cache_t → Prop;
}.

(** What the library documents.  A new cache is empty.  A Set is visible at once
    only where it replaces an entry; it goes to the buffer, or is dropped.  A Del
    removes the entry at once, and again when its turn in the buffer comes, so
    that it also undoes a Set that was buffered before it.  The library applies
    the buffer in order, admitting a Set or not, and evicts as it likes. *)
Class RistrettoLaws `{Ristretto} := {
  new_miss counters cost c k : NewCache counters cost = Ok c → cache_Get c k = None;
  new_buffer counters cost c : NewCache counters cost = Ok c → cache_buffer c = [];
  set_hit c k v cost k' v' : cache_Get (cache_Set c k v cost) k' = Some v' → if decide (k' = k) then v' = v else cache_Get c k' = Some v';
  set_buffer c k v cost : cache_buffer (cache_Set c k v cost) = cache_buffer c ∨ cache_buffer (cache_Set c k v cost) = cache_buffer c ++ [OpSet k v];
  del_miss c k : cache_Get (cache_Del c k) k = None;
  del_hit c k k' v : cache_Get (cache_Del c k) k' = Some v → cache_Get c k' = Some v;
  del_buffer c k : cache_buffer (cache_Del c k) = cache_buffer c ++ [OpDel k];
  moves_law c c' : cache_moves c c' →
    (cache_buffer c' = cache_buffer c ∧ ∀ k v, cache_Get c' k = Some v → cache_Get c k = Some v) ∨
    (∃ op, cache_buffer c = op :: cache_buffer c' ∧
       ∀ k v, cache_Get c' k = Some v → op = OpSet k v ∨ (cache_Get c k = Some v ∧ op ≠ OpDel k));
}.

(** ** Options *)

(** [type KVOptions struct]: those of the tree, and those of the cache and of
    the compaction thread. *)
Record Settings := MkSettings {
  st_tree : KVOptions;
  st_AutoCompact : bool;
  st_CacheEnabled : bool;
  st_CacheMaxCost : Z;
  st_CacheNumCounters : Z;
}.

Definition KVOption : Type := Settings → res Settings.

Definition WithLogThreshold (n : Z) : KVOption := fun opts =>
  if n <=? 0 then Err (errorsNew "log threshold must be positive") else
  Ok (MkSettings (MkOptions (o_LogShreshold (st_tree opts)) n (o_GrowthFactor (st_tree opts))) (st_AutoCompact opts)
        (st_CacheEnabled opts) (st_CacheMaxCost opts) (st_CacheNumCounters opts)).

Definition WithGrowthFactor (f : spec_float) : KVOption := fun opts =>
  if SFltb f (f32_of_Z 2) then Err (errorsNew "growth factor must be at least 2") else
  Ok (MkSettings (MkOptions (o_LogShreshold (st_tree opts)) (o_LogThreshold (st_tree opts)) f) (st_AutoCompact opts)
        (st_CacheEnabled opts) (st_CacheMaxCost opts) (st_CacheNumCounters opts)).

Definition WithAutoCompact (enabled : bool) : KVOption := fun opts =>
  Ok (MkSettings (st_tree opts) enabled (st_CacheEnabled opts) (st_CacheMaxCost opts) (st_CacheNumCounters opts)).

Definition WithCache (maxCostBytes numCounters : Z) : KVOption := fun opts =>
  if maxCostBytes <=? 0 then Err (errorsNew "cache max cost must be positive") else
  if numCounters <=? 0 then Err (errorsNew "cache num counters must be positive") else
  Ok (MkSettings (st_tree opts) (st_AutoCompact opts) true maxCostBytes numCounters).

Definition CacheKVOpts (opts : Settings) : list KVOption :=
  if negb (st_CacheEnabled opts) || (st_CacheMaxCost opts =? 0) then []
  else [WithCache (st_CacheMaxCost opts) (st_CacheNumCounters opts)].

(** ** The store with its cache *)

Section cache.
Context `{Bloom} `{MetaJson} `{Ristretto}.

Record CKV := MkCKV { ck_kv : KV; ck_cache : option cache_t }.

Definition openCache (opts : Settings) : res (option cache_t) :=
  if negb (st_CacheEnabled opts) || (st_CacheMaxCost opts =? 0) then Ok None else
  c ← NewCache (st_CacheNumCounters opts) (st_CacheMaxCost opts);
  Ok (Some c).

(** [NewKV] on a directory with the contents [d]: the options in order, then
    [Open]. *)
Definition NewKV (d : disk) (opts : list KVOption) : res CKV :=
  options ← foldM (fun options opt => opt options) (MkSettings (MkOptions 0 0 (f32_of_Z 0)) false false 0 0) opts;
  cache ← openCache options;
  kv ← kv_Open (st_tree options) d;
  Ok (MkCKV kv cache).

(** [invalidateCache] *)
Definition invalidateCache (cache : option cache_t) (updates : SortedArray) : res (option cache_t) :=
  match cache with
  | None => Ok None
  | Some c =>
      iter ← arr_Iter updates;
      c ← for_each (fun c key _ _ => Ok (cache_Del c key)) iter c;
      Ok (Some c)
  end.

(** [applyTXSync] of a store with a cache: the keys are dropped after a commit
    that changed the memtable. *)
Definition ck_Commit (ck : CKV) (id : nat) : CKV * res unit :=
  let (kv, r) := applyTXSync (ck_kv ck) id in
  match r, kv_txs (ck_kv ck) !! id with
  | Ok _, Some tx =>
      if (Size (tx_updates tx) =? 0)%nat then (MkCKV kv (ck_cache ck), r) else
      let! (ck', cache) := (MkCKV kv (ck_cache ck), invalidateCache (ck_cache ck) (tx_updates tx)) in
      (MkCKV kv cache, r)
  | _, _ => (MkCKV kv (ck_cache ck), r)
  end.

(** [Get] in three parts: the lookup, the read in a transaction, the fill. *)
Definition get_lookup (ck : CKV) (key : bytes) : option bytes :=
  match ck_cache ck with Some c => cache_Get c key | None => None end.

Definition get_fill (ck : CKV) (key : bytes) (r : res (option bytes)) : CKV :=
  match r, ck_cache ck with
  | Ok (Some val), Some c => MkCKV (ck_kv ck) (Some (cache_Set c key val (Z.of_nat (length val))))
  | _, _ => ck
  end.

Definition ck_Get (ck : CKV) (key : bytes) : CKV * res (option bytes) :=
  match get_lookup ck key with
  | Some v => (ck, Ok (Some v))
  | None =>
      let (kv, r) := kv_Get (ck_kv ck) key in
      (get_fill (MkCKV kv (ck_cache ck)) key r, r)
  end.

(** [SetEx] and [Del]: the commit invalidates the cache. *)
Definition ck_abortOrCommit (ck : CKV) (id : nat) (r : res bool) : CKV * res bool :=
  match r with
  | Ok updated => let! (ck, _u) := ck_Commit ck id in (ck, Ok updated)
  | Err e => let! (ck', kv) := (ck, abortTX (ck_kv ck) id) in (MkCKV kv (ck_cache ck), Err e)
  | Panic s => (ck, Panic s)
  | OutOfFuel => (ck, OutOfFuel)
  end.

Definition ck_SetEx (ck : CKV) (key val : bytes) (mode : Z) : CKV * res bool :=
  let! (ck, p) := (ck, NewTX (ck_kv ck)) in
  let (kv, id) := (p : KV * nat) in
  let (kv, r) := with_tx kv id (fun tx => tx_SetEx tx key val mode) in
  ck_abortOrCommit (MkCKV kv (ck_cache ck)) id r.

(** ** A store in which Gets do not overlap commits *)

(** Steps of transactions, flushes and merges, which leave the cache alone;
    commits, which invalidate it; Gets; what the cache does on its own. *)
Inductive cached_step : sys * option cache_t → sys * option cache_t → Prop :=
  | cs_store s s' c : step s s' → sy_commits s' = sy_commits s → cached_step (s, c) (s', c)
  | cs_commit kv p commits c id tx ck' r :
      id ∈ kv_ongoing kv → kv_txs kv !! id = Some tx → Z.of_nat (length commits) < 2 ^ 64 - 1 →
      ck_Commit (MkCKV kv c) id = (ck', r) →
      cached_step (MkSys kv p commits, c) (MkSys (ck_kv ck') p (committed r (arr_ents (tx_updates tx)) commits), ck_cache ck')
  | cs_get kv p commits c k ck' r :
      kv_closed kv = false → ck_Get (MkCKV kv c) k = (ck', r) →
      cached_step (MkSys kv p commits, c) (MkSys (ck_kv ck') p commits, ck_cache ck')
  | cs_cache s c c' : cache_moves c c' → cached_step (s, Some c) (s, Some c').

Inductive cached_reachable (s0 : sys * option cache_t) : sys * option cache_t → Prop :=
  | cr_init : cached_reachable s0 s0
  | cr_step s s' : cached_reachable s0 s → cached_step s s' → cached_reachable s0 s'.

(** A value the key had after one of the commits, or initially. *)
Definition was (init : list ent) (commits : list (list ent)) (k v : bytes) : Prop :=
  ∃ n, (n ≤ length commits)%nat ∧ current init (take n commits) k = Some v.

(** A value of the cache before the writes [buf] are applied: it was committed
    once, and it still is or will be deleted. *)
Definition sound (init : list ent) (commits : list (list ent)) (buf : list cache_op) (k v : bytes) : Prop :=
  was init commits k v ∧ (current init commits k = Some v ∨ OpDel k ∈ buf).

(** Every buffered Set is sound with respect to what is buffered behind it. *)
Fixpoint sound_buffer (init : list ent) (commits : list (list ent)) (buf : list cache_op) : Prop :=
  match buf with
  | [] => True
  | OpSet k v :: buf => sound init commits buf k v ∧ sound_buffer init commits buf
  | OpDel _ :: buf => sound_buffer init commits buf
  end.

Definition coherent (init : list ent) (sc : sys * option cache_t) : Prop :=
  match snd sc with
  | Some c => (∀ k v, cache_Get c k = Some v → sound init (sy_commits (fst sc)) (cache_buffer c) k v) ∧
              sound_buffer init (sy_commits (fst sc)) (cache_buffer c)
  | None => True
  end.

Context `{BL : !BloomLaws} `{RL : !RistrettoLaws}.

Lemma sound_buffer_app init commits commits' buf tail :
  (∀ k v q, sound init commits q k v → sound init commits' (q ++ tail) k v) →
  sound_buffer init commits buf → sound_buffer init commits' tail → sound_buffer init commits' (buf ++ tail).
Proof. intros Hs Hb Ht. induction buf as [|[k v|k] buf IH]; cbn in *; [done|destruct Hb; auto|auto]. Qed.

Lemma sound_dels init commits keys : sound_buffer init commits (OpDel <$> keys).
Proof. by induction keys. Qed.

Lemma was_now init commits k v : current init commits k = Some v → was init commits k v.
Proof. intros Hc. exists (length commits). by rewrite take_ge. Qed.

Lemma was_commit init commits r u k v : was init commits k v → was init (committed r u commits) k v.
Proof.
  intros (n & Hn & Hc). unfold committed. destruct r as [[]| | |]; try by exists n. destruct u; [by exists n|].
  exists n. rewrite length_app, take_app_le by done. split; [lia|done].
Qed.

Lemma dels_miss (keys : list bytes) : ∀ c,
  cache_buffer (foldl cache_Del c keys) = cache_buffer c ++ (OpDel <$> keys) ∧
  ∀ k v, cache_Get (foldl cache_Del c keys) k = Some v → cache_Get c k = Some v.
Proof.
  induction keys as [|k0 keys IH]; intros c; cbn [foldl fmap list_fmap]; [by rewrite app_nil_r|].
  destruct (IH (cache_Del c k0)) as [Hb Hg]. rewrite Hb, del_buffer, <- app_assoc. split; [done|]. intros k v Hk. by eapply del_hit, Hg.
Qed.

Lemma invalidate_spec c u : sorted u → invalidateCache (Some c) (arr_of u) = Ok (Some (foldl cache_Del c (e_key <$> u))).
Proof.
  intros Hu. unfold invalidateCache. change (arr_Iter (arr_of u)) with (Ok (arr_iter_at (arr_of u) 0)). rs.
  rewrite (arr_for_each _ u) by done.
  assert (∀ c, foldM (fun c e => Ok (cache_Del c (e_key e))) c u = Ok (foldl cache_Del c (e_key <$> u))) as Hf.
  { clear. induction u as [|e u IH]; intros c; cbn [foldM]; [done|]. rs. by rewrite IH. }
  by rewrite Hf.
Qed.

(** A commit does not change the keys it did not write. *)
Lemma current_committed init commits r u k : sorted init → sorted u → k ∉ (e_key <$> u) →
  current init (committed r u commits) k = current init commits k.
Proof.
  intros Hi Hu Hn. unfold committed. destruct r; try done. destruct u as [|e u]; [done|].
  rewrite current_commit by done. assert (assoc (e :: u) k = None) as ->; [|done].
  apply assoc_None. intros x Hx Hk. apply Hn. rewrite <- Hk. by apply list_elem_of_fmap_2.
Qed.

Lemma ck_Commit_cache kv c id kv' r tx u : applyTXSync kv id = (kv', r) → kv_txs kv !! id = Some tx → tx_updates tx = arr_of u → sorted u →
  ck_Commit (MkCKV kv c) id =
    (MkCKV kv' (match r with Ok _ => (fun d => foldl cache_Del d (e_key <$> u)) <$> c | _ => c end), r).
Proof.
  intros Ha Htx Hu Hs. unfold ck_Commit. cbn [ck_kv ck_cache]. rewrite Ha, Htx, Hu, arr_size_of.
  destruct r as [[]| | |]; try done. destruct u as [|e u]; cbn [length Nat.eqb]; [by destruct c|].
  destruct c as [d|]; [|done]. by rewrite invalidate_spec.
Qed.

(** A commit and its invalidations keep what is sound. *)
Lemma sound_commit init commits u q k v : sorted init → sorted u → sound init commits q k v →
  sound init (committed (Ok tt) u commits) (q ++ (OpDel <$> (e_key <$> u))) k v.
Proof.
  intros Hi Hu [Hw Hc]. split; [by apply was_commit|]. destruct (decide (k ∈ e_key <$> u)) as [Hk|Hk].
  - right. apply elem_of_app. right. by apply list_elem_of_fmap_2.
  - rewrite current_committed by done. destruct Hc as [Hc|Hc]; [by left|]. right. apply elem_of_app. by left.
Qed.

(** [Get] of the store without its cache is a transaction that starts and ends. *)
Lemma get_sys_inv init kv p commits k kv' r : sys_inv init (MkSys kv p commits) → kv_closed kv = false → kv_Get kv k = (kv', r) →
  sys_inv init (MkSys kv' p commits) ∧ r = Ok (current init commits k).
Proof.
  intros Hsi Hcl Hg. pose proof Hsi as [Hinv Hrefs _ _ _ _]. cbn [sy_kv sy_commits] in *.
  destruct (kv_Get_spec kv init commits Hinv Hrefs Hcl k) as (kv1 & Hg1 & _). rewrite Hg in Hg1. injection Hg1 as <- ->. split; [|done].
  destruct (at_work_new kv init commits Hinv Hrefs Hcl) as (kv2 & id & tx & Hn & Hw & Hu).
  pose proof (new_step_inv _ _ _ _ _ _ Hsi Hcl Hn) as Hsi2. pose proof (aw_tx _ _ _ _ _ _ _ Hw) as Htx. rewrite set_no_updates in Htx by done.
  unfold kv_Get in Hg. rewrite Hn in Hg. cbn [bindS] in Hg. unfold with_tx in Hg. rewrite Htx in Hg.
  destruct (abortTX _ id) as [kv3| | |] eqn:Ea; cbn [bindS] in Hg; try done. injection Hg as <- _.
  rewrite list_insert_id in Ea by done. assert (set_txs kv2 (kv_txs kv2) = kv2) as E by (by destruct kv2). rewrite E in Ea.
  eapply abort_step_inv; [exact Hsi2| |exact Ea]. apply Hw.
Qed.

Lemma commit_coherent init commits u c : sorted init → sorted u →
  (∀ k v, cache_Get c k = Some v → sound init commits (cache_buffer c) k v) → sound_buffer init commits (cache_buffer c) →
  let c' := foldl cache_Del c (e_key <$> u) in
  (∀ k v, cache_Get c' k = Some v → sound init (committed (Ok tt) u commits) (cache_buffer c') k v) ∧
  sound_buffer init (committed (Ok tt) u commits) (cache_buffer c').
Proof.
  intros Hi Hu Hg Hb c'. destruct (dels_miss (e_key <$> u) c) as [Eb Eg]. unfold c'. rewrite Eb. split.
  - intros k v Hk. apply sound_commit; [done..|]. by apply Hg, Eg.
  - eapply sound_buffer_app; [|exact Hb|apply sound_dels]. intros k v q. by apply sound_commit.
Qed.

Lemma fill_coherent init commits c k v cost :
  (∀ k v, cache_Get c k = Some v → sound init commits (cache_buffer c) k v) → sound_buffer init commits (cache_buffer c) →
  current init commits k = Some v →
  let c' := cache_Set c k v cost in
  (∀ k v, cache_Get c' k = Some v → sound init commits (cache_buffer c') k v) ∧ sound_buffer init commits (cache_buffer c').
Proof.
  intros Hg Hb Hc c'.
  assert (∀ q k v, sound init commits q k v → ∀ t, sound init commits (q ++ t) k v) as Hext.
  { intros q k' v' [Hw [Hx|Hx]] t; (split; [done|]); [by left|right; apply elem_of_app; by left]. }
  assert (∀ q, sound init commits q k v) as Hnow by (intros q; split; [by apply was_now|by left]).
  split.
  - intros k' v' Hk. apply set_hit in Hk. destruct (decide (k' = k)) as [->|]; [by subst; apply Hnow|].
    destruct (set_buffer c k v cost) as [E|E]; unfold c'; rewrite E; [by apply Hg|]. by apply Hext, Hg.
  - destruct (set_buffer c k v cost) as [E|E]; unfold c'; rewrite E; [done|].
    eapply sound_buffer_app; [|exact Hb|done]. intros k' v' q Hq. by apply Hext.
Qed.

Lemma moves_coherent init commits c c' : cache_moves c c' →
  (∀ k v, cache_Get c k = Some v → sound init commits (cache_buffer c) k v) → sound_buffer init commits (cache_buffer c) →
  (∀ k v, cache_Get c' k = Some v → sound init commits (cache_buffer c') k v) ∧ sound_buffer init commits (cache_buffer c').
Proof.
  intros Hm Hg Hb. destruct (moves_law _ _ Hm) as [[E Hs]|(op & E & Hs)]; [rewrite E; split; [|done]; intros k v Hk; by apply Hg, Hs|].
  rewrite E in Hb. split; [|by destruct op; [destruct Hb|]]. intros k v Hk. destruct (Hs k v Hk) as [->|[Hk' Hop]]; [by destruct Hb|].
  destruct (Hg k v Hk') as [Hw Hc]. split; [done|]. destruct Hc as [Hc|Hc]; [by left|right]. rewrite E in Hc.
  apply elem_of_cons in Hc as [Hc|Hc]; [congruence|done].
Qed.

Lemma cached_step_inv init sc sc' : sys_inv init (fst sc) → coherent init sc → cached_step sc sc' →
  sys_inv init (fst sc') ∧ coherent init sc'.
Proof.
  intros Hsi Hco Hst. destruct Hst as [s s' c Hst Hc|kv p commits c id tx ck' r Hid Htx Hlen Ha|kv p commits c k ck' r Hcl Hg|s c c' Hev]; cbn [fst] in *.
  - split; [by eapply step_inv|]. unfold coherent in *. cbn [fst snd] in *. by rewrite Hc.
  - pose proof Hsi as [Hinv _ _ _ _ _]. cbn [sy_kv sy_commits] in *.
    destruct (i_txs _ _ _ _ Hinv id Hid) as (tx' & n & Htx' & Hr). rewrite Htx in Htx'. injection Htx' as <-.
    destruct Hr as (_ & _ & _ & _ & u & Hu & Hsu). destruct (applyTXSync kv id) as [kv1 r1] eqn:Eap.
    rewrite (ck_Commit_cache kv c id kv1 r1 tx u Eap Htx Hu Hsu) in Ha. injection Ha as <- <-.
    split; [by eapply commit_step_inv|]. unfold coherent in *. cbn [fst snd ck_cache sy_commits] in *. rewrite Hu, arr_ents_of.
    destruct r1 as [[]| | |]; [|exact Hco..]. destruct c as [d|]; [|done]. destruct Hco as [HA HB]. apply commit_coherent; [apply Hinv|done..].
  - unfold ck_Get, get_lookup in Hg. cbn [ck_cache ck_kv] in Hg.
    assert (∀ kv1 r1, kv_Get kv k = (kv1, r1) → (ck', r) = (get_fill (MkCKV kv1 c) k r1, r1) →
      sys_inv init (MkSys (ck_kv ck') p commits) ∧ coherent init (MkSys (ck_kv ck') p commits, ck_cache ck')) as Hmiss.
    { intros kv1 r1 Eg [= -> ->]. destruct (get_sys_inv _ _ _ _ _ _ _ Hsi Hcl Eg) as [Hsi1 ->]. unfold get_fill. cbn [ck_cache ck_kv].
      unfold coherent in *. cbn [fst snd sy_commits] in *. destruct (current init commits k) as [v|] eqn:Ec, c as [c|]; try done.
      split; [done|]. destruct Hco. by apply fill_coherent. }
    destruct c as [c|].
    + destruct (cache_Get c k) as [v|]; [by injection Hg as <- <-|]. destruct (kv_Get kv k) as [kv1 r1] eqn:Eg. by eapply Hmiss.
    + destruct (kv_Get kv k) as [kv1 r1] eqn:Eg. by eapply Hmiss.
  - split; [done|]. unfold coherent in *. cbn [fst snd] in *. destruct Hco. by eapply moves_coherent.
Qed.

Lemma cached_reachable_inv init s0 sc : sys_inv init (fst s0) → coherent init s0 → cached_reachable s0 sc →
  sys_inv init (fst sc) ∧ coherent init sc.
Proof. intros HA HB Hr. induction Hr as [|sc sc' _ [IH1 IH2] Hst]; [done|]. by eapply cached_step_inv. Qed.

(** An answer that is out of date: the cache still has an earlier value, whose
    deletion is buffered. *)
Definition outdated (init : list ent) (commits : list (list ent)) (c : option cache_t) (k : bytes) (r : res (option bytes)) : Prop :=
  ∃ d v, c = Some d ∧ OpDel k ∈ cache_buffer d ∧ r = Ok (Some v) ∧ was init commits k v.

Lemma ck_Get_spec init kv p commits c k : sys_inv init (MkSys kv p commits) → coherent init (MkSys kv p commits, c) → kv_closed kv = false →
  snd (ck_Get (MkCKV kv c) k) = Ok (current init commits k) ∨ outdated init commits c k (snd (ck_Get (MkCKV kv c) k)).
Proof.
  intros Hsi Hco Hcl. unfold ck_Get, get_lookup, coherent in *. cbn [ck_cache ck_kv fst snd sy_commits] in *.
  assert (snd (kv_Get kv k) = Ok (current init commits k)) as Hg.
  { destruct (kv_Get kv k) as [kv1 r1] eqn:Eg. by destruct (get_sys_inv _ _ _ _ _ _ _ Hsi Hcl Eg) as [_ ->]. }
  destruct c as [c|]; [destruct (cache_Get c k) as [v|] eqn:Ec|]; [|left; destruct (kv_Get kv k) as [kv1 r1]; exact Hg..].
  destruct (proj1 Hco k v Ec) as [Hw [Hc|Hc]]; [left; cbn; by rewrite Hc|]. right. exists c, v. done.
Qed.

Lemma NewKV_coherent opts ck : NewKV fresh_disk opts = Ok ck →
  sys_inv [] (MkSys (ck_kv ck) Idle []) ∧ coherent [] (MkSys (ck_kv ck) Idle [], ck_cache ck).
Proof.
  unfold NewKV. intros (o & _ & Hx)%bind_ok. apply bind_ok in Hx as (c & Hc & Hx). apply bind_ok in Hx as (kv & Ho & Hx). injection Hx as <-.
  split; [by eapply fresh_inv|]. unfold coherent. cbn. destruct c as [d|]; [|done]. revert Hc. unfold openCache.
  destruct (_ || _); [done|]. intros (c0 & Hn & Hc)%bind_ok. injection Hc as ->. rewrite (new_buffer _ _ _ Hn). split; [|done].
  intros k v Hk. by rewrite (new_miss _ _ _ k Hn) in Hk.
Qed.

(** C8: What the cache may change: while transactions, flushes, merges, commits and
    Gets happen in any order, and the cache applies its buffered writes and loses
    entries whenever it likes, but no Get overlaps a commit, every Get answers
    the committed value, from the cache or from the tree - unless the
    invalidation of this very key is still in the buffer of the cache: then it
    may answer a value the key had after an earlier commit, and nothing else. *)
Theorem cache_coherent opts ck sc k :
  NewKV fresh_disk opts = Ok ck → cached_reachable (MkSys (ck_kv ck) Idle [], ck_cache ck) sc →
  kv_closed (sy_kv (fst sc)) = false →
  let r := snd (ck_Get (MkCKV (sy_kv (fst sc)) (snd sc)) k) in
  r = Ok (current [] (sy_commits (fst sc)) k) ∨ outdated [] (sy_commits (fst sc)) (snd sc) k r.
Proof.
  intros Hn Hr Hcl. destruct (NewKV_coherent _ _ Hn) as [Hsi Hco].
  destruct (cached_reachable_inv [] (MkSys (ck_kv ck) Idle [], ck_cache ck) sc Hsi Hco Hr) as [Hsi' Hco'].
  destruct sc as [[kv p commits] c]. by eapply ck_Get_spec.
Qed.

End cache.

(** ** A cache for concrete runs *)

Fixpoint sample_get (c : list (bytes * bytes)) (k : bytes) : option bytes :=
  match c with
  | [] => None
  | (k', v) :: c => if decide (k' = k) then Some v else sample_get c k
  end.

Fixpoint sample_del (c : list (bytes * bytes)) (k : bytes) : list (bytes * bytes) :=
  match c with
  | [] => []
  | (k', v) :: c => if decide (k' = k) then sample_del c k else (k', v) :: sample_del c k
  end.

Lemma sample_del_get c k k' : sample_get (sample_del c k) k' = if decide (k' = k) then None else sample_get c k'.
Proof.
  induction c as [|[x v] c IH]; cbn; [by destruct (decide (k' = k))|].
  destruct (decide (x = k)) as [->|Hx]; [rewrite IH; by destruct (decide (k' = k)), (decide (k = k'))|]. cbn. rewrite IH.
  by destruct (decide (x = k')), (decide (k' = k)); try congruence.
Qed.

(** Entries and buffer.  A Set of a key that is present replaces its value at
    once; every write goes to the buffer, and [cache_moves] applies the oldest. *)
Definition sample_t : Type := list (bytes * bytes) * list cache_op.

Definition sample_apply (c : sample_t) : sample_t :=
  match snd c with
  | [] => c
  | OpSet k v :: buf => ((k, v) :: fst c, buf)
  | OpDel k :: buf => (sample_del (fst c) k, buf)
  end.

#[export] Instance sample_cache : Ristretto := {
  cache_t := sample_t;
  NewCache _ _ := Ok ([], []);
  cache_Get c := sample_get (fst c);
  cache_Set c k v _ := (match sample_get (fst c) k with Some _ => (k, v) :: fst c | None => fst c end, snd c ++ [OpSet k v]);
  cache_Del c k := (sample_del (fst c) k, snd c ++ [OpDel k]);
  cache_buffer := snd;
  cache_moves c c' := c' = sample_apply c;
}.

Lemma sample_cons_get c k v k' v' : sample_get ((k, v) :: c) k' = Some v' → if decide (k' = k) then v' = v else sample_get c k' = Some v'.
Proof. cbn. destruct (decide (k = k')), (decide (k' = k)); (congruence || by intros [= <-]) || done. Qed.

Lemma sample_applied c op buf k v : snd c = op :: buf → sample_get (fst (sample_apply c)) k = Some v →
  op = OpSet k v ∨ (sample_get (fst c) k = Some v ∧ op ≠ OpDel k).
Proof.
  unfold sample_apply. intros ->. destruct op as [k0 v0|k0]; cbn [fst].
  - intros Hk%sample_cons_get. destruct (decide (k = k0)); [left; congruence|by right].
  - rewrite sample_del_get. destruct (decide (k = k0)); [done|]. right. split; [done|congruence].
Qed.

#[export] Instance sample_cache_laws : RistrettoLaws.
Proof.
  split; cbn [cache_Get cache_Set cache_Del cache_buffer cache_moves NewCache sample_cache fst snd].
  - by intros counters cost c k [= <-].
  - by intros counters cost c [= <-].
  - intros c k v cost k' v'. destruct (sample_get (fst c) k) eqn:E; [apply sample_cons_get|].
    destruct (decide (k' = k)) as [->|]; [congruence|done].
  - by right.
  - intros c k. by rewrite sample_del_get, decide_True.
  - intros c k k' v. rewrite sample_del_get. by destruct (decide (k' = k)).
  - done.
  - intros c c' ->. destruct (snd c) as [|op buf] eqn:E; [left; unfold sample_apply; by rewrite E|right]. exists op. split.
    + unfold sample_apply. rewrite E. by destruct op.
    + intros k v. by apply (sample_applied c op buf).
Qed.

Definition w_cached : CKV := match NewKV fresh_disk [WithCache 1024 1000] with Ok ck => ck | _ => MkCKV w_none None end.

(** A store with the key k set to v, and the first two parts of a Get of it. *)
Definition w_ck1 : CKV := fst (ck_SetEx w_cached (bs "k") (bs "v") ModeUpsert).
Definition w_read : KV * res (option bytes) := kv_Get (ck_kv w_ck1) (bs "k").
Definition w_ck2 : CKV := MkCKV (fst w_read) (ck_cache w_ck1).
(** Another caller sets it to w, and the Get goes on. *)
Definition w_ck3 : CKV := fst (ck_SetEx w_ck2 (bs "k") (bs "w") ModeUpsert).
Definition w_ck4 : CKV := get_fill w_ck3 (bs "k") (snd w_read).
(** The cache has applied the two invalidations and the fill. *)
Definition w_ck5 : CKV := MkCKV (ck_kv w_ck4) ((fun c => sample_apply (sample_apply (sample_apply c))) <$> ck_cache w_ck4).

(** A commit inside a Get is not noticed: the Get read v, the commit wrote w
    and invalidated the key, then the Get filled the cache with v.  When the cache
    has caught up it has v and nothing buffered that would drop it, although w
    is committed and the store itself has it: the condition of [cache_coherent]
    that no Get overlaps a commit is needed. *)
Lemma cache_stale :
  get_lookup w_ck1 (bs "k") = None ∧ snd w_read = Ok (Some (bs "v")) ∧
  snd (ck_SetEx w_ck2 (bs "k") (bs "w") ModeUpsert) = Ok true ∧ cache_buffer <$> ck_cache w_ck5 = Some [] ∧
  ck_Get w_ck5 (bs "k") = (w_ck5, Ok (Some (bs "v"))) ∧ snd (kv_Get (ck_kv w_ck5) (bs "k")) = Ok (Some (bs "w")).
Proof. split_and!; vm_compute; reflexivity. Qed.

(** A transaction that sets k, and a Get that fills the cache. *)
Definition w_c0 : KV := ck_kv w_cached.
Definition w_c1 : KV := w_begin w_c0.
Definition w_c2 : KV := fst (with_tx w_c1 0 (fun tx => tx_SetEx tx (bs "k") (bs "v") ModeUpsert)).
Definition w_ctx : KVTX := default (MkTX 0 arr_empty [] [] None) (kv_txs w_c2 !! 0%nat).
Definition w_c3 : CKV := fst (ck_Commit (MkCKV w_c2 (ck_cache w_cached)) 0).
Definition w_c4 : CKV := fst (ck_Get w_c3 (bs "k")).

(** The cache catches up: the invalidation, then the fill. *)
Definition w_cache1 : cache_t := default ([], []) (ck_cache w_c4).
Definition w_cache2 : cache_t := sample_apply w_cache1.
Definition w_cache3 : cache_t := sample_apply w_cache2.

Definition w_sc : sys * option cache_t := (MkSys (ck_kv w_c4) Idle w_commits, Some w_cache3).

Lemma w_cached_run : cached_reachable (MkSys (ck_kv w_cached) Idle [], ck_cache w_cached) w_sc.
Proof.
  eapply cr_step; [eapply cr_step; [eapply cr_step; [eapply cr_step; [eapply cr_step; [eapply cr_step; [apply cr_init|]|]|]|]|]|].
  - apply (cs_store _ (MkSys w_c1 Idle [])); [|reflexivity]. apply (s_new _ _ _ _ 0); vm_compute; reflexivity.
  - apply (cs_store _ (MkSys w_c2 Idle [])); [|reflexivity]. eapply (s_write w_c1 Idle [] 0 _ w_c2); [|apply (w_SetEx (bs "k") (bs "v") ModeUpsert)|vm_compute; reflexivity].
    apply (bool_decide_unpack _). vm_compute. exact I.
  - apply (cs_commit w_c2 Idle [] _ 0 w_ctx w_c3 (Ok tt)); try (vm_compute; reflexivity). apply (bool_decide_unpack _). vm_compute. exact I.
  - apply (cs_get (ck_kv w_c3) Idle _ (ck_cache w_c3) (bs "k") w_c4 (Ok (Some (bs "v")))); vm_compute; reflexivity.
  - apply (cs_cache (MkSys (ck_kv w_c4) Idle w_commits) w_cache1 w_cache2). reflexivity.
  - apply (cs_cache _ w_cache2 w_cache3). reflexivity.
Qed.

(** Nothing is buffered any more: the Get is a hit, and it is current. *)
Lemma cache_coherent_witness :
  get_lookup (MkCKV (ck_kv w_c4) (snd w_sc)) (bs "k") = Some (bs "v") ∧
  snd (ck_Get (MkCKV (sy_kv (fst w_sc)) (snd w_sc)) (bs "k")) = Ok (current [] (sy_commits (fst w_sc)) (bs "k")).
Proof.
  split; [vm_compute; reflexivity|].
  destruct (cache_coherent [WithCache 1024 1000] w_cached w_sc (bs "k")) as [Hr|(d & v & Hd & Hin & _)];
    [vm_compute; reflexivity|exact w_cached_run|vm_compute; reflexivity|exact Hr|].
  injection Hd as <-. vm_compute in Hin. inversion Hin.
Defined.
