(* ===== verification/Command.v ===== *)
(** * Replicated commands: cluster/command.go

    The binary format of the entries of the Raft log, and the decoder that also
    accepts the JSON of older releases.  An [Op] is a string. *)

From Stdlib Require Import ZArith Lia.
From Stdlib.Strings Require Import Byte.
From stdpp Require Import base list numbers.
From S2P Require Import Prelude GoLib.

Open Scope Z_scope.

Definition OpPut : bytes := bs "put".
Definition OpDel : bytes := bs "del".
Definition OpBatch : bytes := bs "batch".

Definition commandMagic : byte := xc1.
Definition CommandVersion : byte := x01.
Definition opCodePut : byte := x01.
Definition opCodeDel : byte := x02.
Definition opCodeBatch : byte := x03.
Definition legacyJSONPrefix : byte := x7b.

Definition MaxKeyLen : Z := 2 ^ 20.
Definition MaxValueLen : Z := 64 * 2 ^ 20.
Definition MaxBatchMutations : Z := 2 ^ 20.

Record Mutation := MkMut { mu_Op : bytes; mu_Key : bytes; mu_Val : bytes; mu_Mode : Z }.
Record Command := MkCmd { cm_Op : bytes; cm_Key : bytes; cm_Val : bytes; cm_Mode : Z; cm_Batch : list Mutation }.

(** encoding/json for the type [Command]. *)
Class CommandJson := { command_Unmarshal : bytes → res Command }.

Definition NewBatchCommand (muts : list Mutation) : Command := MkCmd OpBatch [] [] 0 muts.

Definition Mutations (c : Command) : list Mutation :=
  if bool_decide (cm_Op c = OpBatch) then cm_Batch c else [MkMut (cm_Op c) (cm_Key c) (cm_Val c) (cm_Mode c)].

Definition opCode (op : bytes) : option byte :=
  if bool_decide (op = OpPut) then Some opCodePut
  else if bool_decide (op = OpDel) then Some opCodeDel
  else if bool_decide (op = OpBatch) then Some opCodeBatch
  else None.

Definition opFromCode (code : byte) : option bytes :=
  if bool_decide (code = opCodePut) then Some OpPut
  else if bool_decide (code = opCodeDel) then Some OpDel
  else if bool_decide (code = opCodeBatch) then Some OpBatch
  else None.

(** ** Encoding *)

Definition blen (b : bytes) : Z := Z.of_nat (length b).

(** The loop shifts a [uint64] by seven bits: at most ten rounds. *)
Fixpoint uvarintLen_loop (fuel : nat) (v n : Z) : Z :=
  match fuel with
  | O => n
  | S fuel => if 0x80 <=? v then uvarintLen_loop fuel (Z.shiftr v 7) (n + 1) else n
  end.
Definition uvarintLen (v : Z) : Z := uvarintLen_loop 10 v 1.

Definition mutationSize (m : Mutation) : Z :=
  let n := 1 + uvarintLen (blen (mu_Key m)) + blen (mu_Key m) in
  if bool_decide (mu_Op m = OpPut)
  then n + uvarintLen (blen (mu_Val m)) + blen (mu_Val m) + uvarintLen (u64 (mu_Mode m))
  else n.

Definition appendMutation (buf : bytes) (m : Mutation) : bytes :=
  let buf := buf ++ [default x00 (opCode (mu_Op m))] in
  let buf := AppendUvarint buf (blen (mu_Key m)) ++ mu_Key m in
  if bool_decide (mu_Op m = OpPut) then
    let buf := AppendUvarint buf (blen (mu_Val m)) ++ mu_Val m in
    AppendUvarint buf (u64 (mu_Mode m))
  else buf.

Definition validateMutation (m : Mutation) : res unit :=
  if negb (bool_decide (mu_Op m = OpPut ∨ mu_Op m = OpDel)) then Err (errorsNew "unsupported mutation op") else
  if MaxKeyLen <? blen (mu_Key m) then Err (errorsNew "key exceeds limit") else
  if MaxValueLen <? blen (mu_Val m) then Err (errorsNew "value exceeds limit") else
  if bool_decide (mu_Op m = OpDel) && (0 <? blen (mu_Val m)) then Err (errorsNew "delete mutation carries a value") else
  if mu_Mode m <? 0 then Err (errorsNew "negative update mode") else Ok tt.

Definition EncodeCommand (cmd : Command) : res bytes :=
  match opCode (cm_Op cmd) with
  | None => Err (errorsNew "unsupported command op")
  | Some code =>
      if negb (bool_decide (cm_Op cmd = OpBatch)) then
        let m := MkMut (cm_Op cmd) (cm_Key cmd) (cm_Val cmd) (cm_Mode cmd) in
        _ ← validateMutation m;
        Ok (appendMutation [commandMagic; CommandVersion] m)
      else if (length (cm_Batch cmd) =? 0)%nat then Err ErrEmptyBatch
      else if MaxBatchMutations <? Z.of_nat (length (cm_Batch cmd)) then Err (errorsNew "batch exceeds limit")
      else
        _ ← foldM (fun _ m => validateMutation m) tt (cm_Batch cmd);
        Ok (foldl appendMutation
          (AppendUvarint [commandMagic; CommandVersion; code] (Z.of_nat (length (cm_Batch cmd)))) (cm_Batch cmd))
  end.

(** ** Decoding *)

Definition decodeBytes (buf : bytes) (limit : Z) : res (bytes * bytes) :=
  match Uvarint buf with
  | None => Err (errorsNew "bad length")
  | Some (n, read) =>
      if limit <? n then Err (errorsNew "length exceeds limit") else
      let buf := drop read buf in
      if blen buf <? n then Err (errorsNew "truncated") else
      Ok (take (Z.to_nat n) buf, drop (Z.to_nat n) buf)
  end.

Definition decodeMutationBody (op : bytes) (buf : bytes) : res (Mutation * bytes) :=
  '(key, buf) ← decodeBytes buf MaxKeyLen;
  if negb (bool_decide (op = OpPut)) then Ok (MkMut op key [] 0, buf) else
  '(val, buf) ← decodeBytes buf MaxValueLen;
  match Uvarint buf with
  | None => Err (errorsNew "bad update mode")
  | Some (mode, n) =>
      if 2 ^ 32 - 1 <? mode then Err (errorsNew "absurd update mode") else
      Ok (MkMut op key val mode, drop n buf)
  end.

(** The loop over the mutations of a batch. *)
Fixpoint decodeBatch (count : nat) (rest : bytes) (batch : list Mutation) : res (list Mutation * bytes) :=
  match count with
  | O => Ok (batch, rest)
  | S count =>
      match rest with
      | [] => Err (errorsNew "truncated batch")
      | code :: rest =>
          match opFromCode code with
          | None => Err (errorsNew "bad mutation opcode")
          | Some mop =>
              if bool_decide (mop = OpBatch) then Err (errorsNew "bad mutation opcode") else
              '(m, rest) ← decodeMutationBody mop rest;
              decodeBatch count rest (batch ++ [m])
          end
      end
  end.

Definition decodeBinary (data : bytes) : res Command :=
  match data with
  | _ :: version :: code :: rest =>
      if negb (bool_decide (version = CommandVersion)) then Err ErrUnsupportedCommandVersion else
      match opFromCode code with
      | None => Err ErrUnknownCommandOp
      | Some op =>
          if negb (bool_decide (op = OpBatch)) then
            '(m, rest) ← decodeMutationBody op rest;
            if negb (length rest =? 0)%nat then Err ErrTrailingCommandBytes else
            Ok (MkCmd (mu_Op m) (mu_Key m) (mu_Val m) (mu_Mode m) [])
          else
            match Uvarint rest with
            | None => Err (errorsNew "bad batch count")
            | Some (count, n) =>
                if MaxBatchMutations <? count then Err (errorsNew "batch count exceeds limit") else
                '(batch, rest) ← decodeBatch (Z.to_nat count) (drop n rest) [];
                if negb (length rest =? 0)%nat then Err ErrTrailingCommandBytes else
                Ok (MkCmd OpBatch [] [] 0 batch)
            end
      end
  | _ => Err (errorsNew "truncated command header")
  end.

Section decode.
Context `{CommandJson}.

Definition decodeLegacyJSON (data : bytes) : res Command :=
  cmd ← command_Unmarshal data;
  match opCode (cm_Op cmd) with
  | None => Err ErrUnknownCommandOp
  | Some _ => Ok cmd
  end.

Definition DecodeCommand (data : bytes) : res Command :=
  match data with
  | [] => Err ErrEmptyCommand
  | b :: _ =>
      if bool_decide (b = legacyJSONPrefix) then decodeLegacyJSON data
      else if bool_decide (b = commandMagic) then decodeBinary data
      else Err ErrUnknownCommandFormat
  end.

End decode.

(** ** Properties *)

(** The wire form keeps no mode of a deletion. *)
Definition canonical (m : Mutation) : Mutation :=
  MkMut (mu_Op m) (mu_Key m) (mu_Val m) (if bool_decide (mu_Op m = OpPut) then mu_Mode m else 0).

(** A mode the decoder accepts. *)
Definition mode_fits (m : Mutation) : Prop := mu_Op m = OpPut → mu_Mode m < 2 ^ 32.

(** A command as the decoder returns it. *)
Definition canonical_cmd (c : Command) : Command :=
  if bool_decide (cm_Op c = OpBatch) then NewBatchCommand (map canonical (cm_Batch c))
  else let m := canonical (MkMut (cm_Op c) (cm_Key c) (cm_Val c) (cm_Mode c)) in
    MkCmd (mu_Op m) (mu_Key m) (mu_Val m) (mu_Mode m) [].

Lemma validate_ok m : validateMutation m = Ok tt →
  (mu_Op m = OpPut ∨ mu_Op m = OpDel) ∧ blen (mu_Key m) ≤ MaxKeyLen ∧ blen (mu_Val m) ≤ MaxValueLen ∧
  (mu_Op m = OpDel → mu_Val m = []) ∧ 0 ≤ mu_Mode m.
Proof.
  unfold validateMutation. case_bool_decide as Ho; [|done]. cbn [negb].
  destruct (Z.ltb_spec MaxKeyLen (blen (mu_Key m))); [done|]. destruct (Z.ltb_spec MaxValueLen (blen (mu_Val m))); [done|].
  case_if; [done|]. destruct (Z.ltb_spec (mu_Mode m) 0); [done|]. intros _. split_and!; try lia; [done|].
  intros Hd. rewrite bool_decide_true in Heqb by done. cbn [andb] in Heqb. apply Z.ltb_ge in Heqb.
  unfold blen in Heqb. by destruct (mu_Val m).
Qed.

Lemma decodeBytes_app b rest limit : blen b ≤ limit → limit < 2 ^ 64 →
  decodeBytes (AppendUvarint [] (blen b) ++ b ++ rest) limit = Ok (b, rest).
Proof.
  intros Hb Hl. unfold decodeBytes. assert (0 ≤ blen b) by (unfold blen; lia). rewrite Uvarint_Append by lia.
  destruct (Z.ltb_spec limit (blen b)); [lia|]. rewrite drop_app_length.
  destruct (Z.ltb_spec (blen (b ++ rest)) (blen b)) as [Hlt|_]; [unfold blen in Hlt; rewrite length_app in Hlt; lia|].
  unfold blen. rewrite Nat2Z.id. by rewrite take_app_length, drop_app_length.
Qed.

Lemma AppendUvarint_app buf v : AppendUvarint buf v = buf ++ AppendUvarint [] v.
Proof. done. Qed.

(** What [appendMutation] appends, after the opcode. *)
Definition mutation_body (m : Mutation) : bytes :=
  AppendUvarint [] (blen (mu_Key m)) ++ mu_Key m ++
    if bool_decide (mu_Op m = OpPut)
    then AppendUvarint [] (blen (mu_Val m)) ++ mu_Val m ++ AppendUvarint [] (u64 (mu_Mode m))
    else [].

Lemma appendMutation_bytes buf m : appendMutation buf m = buf ++ default x00 (opCode (mu_Op m)) :: mutation_body m.
Proof.
  unfold appendMutation, mutation_body. rewrite (AppendUvarint_app (buf ++ _)). case_bool_decide.
  - rewrite (AppendUvarint_app (((buf ++ _) ++ _) ++ _)), (AppendUvarint_app (((((buf ++ _) ++ _) ++ _) ++ _) ++ _)).
    rewrite <- !(assoc_L (++)). done.
  - rewrite app_nil_r, <- !(assoc_L (++)). done.
Qed.

Lemma decode_body m rest : validateMutation m = Ok tt → mode_fits m →
  decodeMutationBody (mu_Op m) (mutation_body m ++ rest) = Ok (canonical m, rest).
Proof.
  intros (Ho & Hk & Hv & Hd & Hm)%validate_ok Hf. unfold decodeMutationBody, mutation_body, canonical.
  rewrite <- !(assoc_L (++)), decodeBytes_app by (done || (unfold MaxKeyLen; lia)). rs. case_bool_decide as Hp; cbn [negb].
  - rewrite <- !(assoc_L (++)), decodeBytes_app by (done || (unfold MaxValueLen; lia)). rs.
    specialize (Hf Hp). unfold u64. rewrite Z.mod_small by lia. rewrite Uvarint_Append by lia.
    destruct (Z.ltb_spec (2 ^ 32 - 1) (mu_Mode m)); [lia|]. rewrite drop_app_length. done.
  - destruct Ho as [Ho|Ho]; [done|]. by rewrite Hd.
Qed.

Lemma opCode_roundtrip m : mu_Op m = OpPut ∨ mu_Op m = OpDel →
  opFromCode (default x00 (opCode (mu_Op m))) = Some (mu_Op m) ∧ mu_Op m ≠ OpBatch.
Proof. by intros [-> | ->]. Qed.

Lemma append_fold l : ∀ buf, foldl appendMutation buf l = buf ++ foldl appendMutation [] l.
Proof.
  induction l as [|m l IH]; intros buf; cbn [foldl]; [by rewrite app_nil_r|].
  rewrite IH, (IH (appendMutation [] m)), !appendMutation_bytes, <- (assoc_L (++)). done.
Qed.

Lemma decode_batch l : ∀ batch rest,
  Forall (fun m => validateMutation m = Ok tt ∧ mode_fits m) l →
  decodeBatch (length l) (foldl appendMutation [] l ++ rest) batch = Ok (batch ++ map canonical l, rest).
Proof.
  induction l as [|m l IH]; intros batch rest Hl; cbn [length decodeBatch foldl map]; [by rewrite app_nil_r|].
  apply Forall_cons in Hl as [[Hv Hf] Hl]. pose proof (validate_ok _ Hv) as (Ho & _).
  destruct (opCode_roundtrip m Ho) as [Ec Hnb].
  rewrite append_fold, appendMutation_bytes. cbn [app]. rewrite Ec, bool_decide_false by done.
  rewrite <- (assoc_L (++)), decode_body by done. rs. rewrite IH by done. by rewrite <- (assoc_L (++)).
Qed.

Lemma foldM_validate l : foldM (fun _ m => validateMutation m) tt l = Ok tt → Forall (fun m => validateMutation m = Ok tt) l.
Proof. induction l as [|m l IH]; [done|]. cbn [foldM]. intros ([] & H1 & H2)%bind_ok. constructor; auto. Qed.

Lemma decode_encode `{CommandJson} cmd data :
  EncodeCommand cmd = Ok data → Forall mode_fits (Mutations cmd) → DecodeCommand data = Ok (canonical_cmd cmd).
Proof.
  intros He Hf. unfold EncodeCommand, Mutations, canonical_cmd in *. destruct (opCode (cm_Op cmd)) as [code|] eqn:Eo; [|done].
  case_bool_decide as Hb; cbn [negb] in He.
  - destruct (Nat.eqb_spec (length (cm_Batch cmd)) 0) as [|Hne]; [done|].
    destruct (Z.ltb_spec MaxBatchMutations (Z.of_nat (length (cm_Batch cmd)))) as [|Hle]; [done|].
    apply bind_ok in He as ([] & Hv%foldM_validate & [= <-]).
    rewrite AppendUvarint_app. assert (code = opCodeBatch) as -> by (rewrite Hb in Eo; by injection Eo).
    rewrite append_fold, <- (assoc_L (++)). cbn [app DecodeCommand]. rewrite bool_decide_false, bool_decide_true by done.
    cbn [decodeBinary]. rewrite (bool_decide_true (CommandVersion = CommandVersion)) by done. cbn [negb].
    change (opFromCode opCodeBatch) with (Some OpBatch). cbn iota. rewrite (bool_decide_true (OpBatch = OpBatch)) by done. cbn [negb].
    unfold MaxBatchMutations in *. rewrite Uvarint_Append by lia.
    destruct (Z.ltb_spec (2 ^ 20) (Z.of_nat (length (cm_Batch cmd)))); [lia|]. rewrite drop_app_length, Nat2Z.id.
    rewrite <- (app_nil_r (foldl appendMutation [] (cm_Batch cmd))), decode_batch by (by apply Forall_and). done.
  - apply bind_ok in He as ([] & Hv & [= <-]). set (m := MkMut (cm_Op cmd) (cm_Key cmd) (cm_Val cmd) (cm_Mode cmd)) in *.
    pose proof (validate_ok _ Hv) as (Ho & _). destruct (opCode_roundtrip m Ho) as [Ec _].
    rewrite appendMutation_bytes. cbn [app DecodeCommand]. rewrite bool_decide_false, bool_decide_true by done.
    cbn [decodeBinary]. rewrite (bool_decide_true (CommandVersion = CommandVersion)) by done. cbn [negb].
    rewrite Ec, bool_decide_false by done. cbn [negb]. rewrite <- (app_nil_r (mutation_body m)).
    rewrite Forall_singleton in Hf. rewrite (decode_body m [] Hv Hf). done.
Qed.

(** The buffer is allocated with the right capacity. *)
Lemma uvarintLen_enc fuel : ∀ v n, 0 ≤ v < 2 ^ (7 * Z.of_nat fuel) → (0 < fuel)%nat →
  uvarintLen_loop fuel v n = n - 1 + blen (uvarint_enc fuel v).
Proof.
  induction fuel as [|fuel IH]; intros v n Hv Hf; [lia|]. cbn [uvarintLen_loop uvarint_enc].
  change 0x80 with 128. destruct (Z.leb_spec 128 v) as [Hge|Hlt]; [|unfold blen; cbn; lia].
  rewrite Z.shiftr_div_pow2 by lia. change (2 ^ 7) with 128.
  assert (0 < fuel)%nat.
  { destruct fuel; [|lia]. change (7 * Z.of_nat 1) with 7 in Hv. lia. }
  rewrite IH; [|split; [apply Z.div_pos; lia|]|done].
  - unfold blen. cbn [length]. lia.
  - apply Z.div_lt_upper_bound; [lia|]. change 128 with (2 ^ 7). rewrite <- Z.pow_add_r by lia.
    replace (7 + 7 * Z.of_nat fuel) with (7 * Z.of_nat (S fuel)) by lia. lia.
Qed.

Lemma uvarintLen_length v : 0 ≤ v < 2 ^ 64 → uvarintLen v = blen (AppendUvarint [] v).
Proof. intros Hv. unfold uvarintLen, AppendUvarint. rewrite uvarintLen_enc by lia. cbn [app]. lia. Qed.

Lemma mutationSize_exact buf m : blen (mu_Key m) < 2 ^ 64 → blen (mu_Val m) < 2 ^ 64 →
  blen (appendMutation buf m) = blen buf + mutationSize m.
Proof.
  intros Hk Hv. assert (∀ a b, blen (a ++ b) = blen a + blen b) as Happ by (intros; unfold blen; rewrite length_app; lia).
  assert (∀ b, 0 ≤ blen b) as Hpos by (intros; unfold blen; lia).
  pose proof (Z.mod_pos_bound (mu_Mode m) (2 ^ 64) eq_refl) as Hm. fold (u64 (mu_Mode m)) in Hm.
  rewrite appendMutation_bytes, Happ. unfold mutationSize, mutation_body.
  assert (∀ x b, blen (x :: b) = 1 + blen b) as Hcons by (intros; unfold blen; cbn [length]; lia).
  rewrite Hcons, (uvarintLen_length (blen (mu_Key m))), (uvarintLen_length (blen (mu_Val m))), (uvarintLen_length (u64 (mu_Mode m)))
    by (done || split; auto). case_bool_decide; rewrite !Happ; [lia|]. change (blen []) with 0. lia.
Qed.

(** ** Every input is decoded or refused *)

Lemma decodeBytes_returns buf limit : returns (decodeBytes buf limit).
Proof. unfold decodeBytes. destruct (Uvarint buf) as [[n read]|]; [|done]. by repeat case_if. Qed.

Lemma decodeMutationBody_returns op buf : returns (decodeMutationBody op buf).
Proof.
  unfold decodeMutationBody. apply returns_bind; [apply decodeBytes_returns|]. intros [key b1] _. case_if; [done|].
  apply returns_bind; [apply decodeBytes_returns|]. intros [val b2] _. destruct (Uvarint b2) as [[mode n]|]; [|done]. by case_if.
Qed.

Lemma decodeBatch_returns count : ∀ rest batch, returns (decodeBatch count rest batch).
Proof.
  induction count as [|count IH]; intros rest batch; cbn [decodeBatch]; [done|]. destruct rest as [|code rest]; [done|].
  destruct (opFromCode code) as [mop|]; [|done]. case_if; [done|]. apply returns_bind; [apply decodeMutationBody_returns|].
  intros [m r] _. apply IH.
Qed.

Lemma decodeBinary_returns data : returns (decodeBinary data).
Proof.
  destruct data as [|b0 [|version [|code rest]]]; try done. cbn [decodeBinary]. case_if; [done|].
  destruct (opFromCode code) as [op|]; [|done]. case_if.
  - apply returns_bind; [apply decodeMutationBody_returns|]. intros [m r] _. by case_if.
  - destruct (Uvarint rest) as [[count n]|]; [|done]. case_if; [done|].
    apply returns_bind; [apply decodeBatch_returns|]. intros [batch r] _. by case_if.
Qed.
