(* ===== verification/Snapshot.v ===== *)
(** * Snapshots of the state machine: cluster/fsm_snapshot.go

    The stream a snapshot is written to and restored from: a header, one record
    per live pair, a terminator and a CRC-32C of everything before.  Failures
    of the underlying writer and reader other than a short stream are not
    modelled. *)

From Stdlib Require Import ZArith Lia.
From Stdlib.Strings Require Import Byte.
From stdpp Require Import base list numbers.
From S2P Require Import Prelude GoLib SortedSeq SortedKV Command.

Open Scope Z_scope.

Definition snapshotVersion : Z := 1.
Definition snapshotRecordTag : byte := x01.
Definition snapshotEndTag : byte := x00.
Definition snapshotHeaderLen : nat := 8.
Definition snapshotTrailerLen : nat := 4.
Definition snapshotMagic : bytes := bs "PDBS".

(** ** [hash/crc32] as a running sum *)

Definition crc32c_New : Z := 0xFFFFFFFF.
Definition crc32c_Write (h : Z) (p : bytes) : Z := foldl (crc_byte 0x82F63B78) h p.
Definition crc32c_Sum32 (h : Z) : Z := Z.lxor h 0xFFFFFFFF.

(** ** Writing *)

(** [bufio.Writer] with the hash of [hashingWriter]. *)
Record hashingWriter := MkHW { hw_out : bytes; hw_h : Z }.

Definition hw_Write (w : hashingWriter) (p : bytes) : hashingWriter := MkHW (hw_out w ++ p) (crc32c_Write (hw_h w) p).

Definition snapshot_header : bytes := snapshotMagic ++ le_bytes 2 snapshotVersion ++ [x00; x00].

Definition record_header (key val : bytes) : bytes :=
  snapshotRecordTag :: le_bytes 4 (u32 (blen key)) ++ le_bytes 4 (u32 (blen val)).

(** The loop over the iterator. *)
Fixpoint write_records `{KVIter It} (fuel : nat) (iter : It) (w : hashingWriter) : res hashingWriter :=
  if negb (Valid iter) then Ok w else
  match fuel with
  | O => OutOfFuel
  | S fuel =>
      key ← Key iter; val ← Val iter;
      if MaxKeyLen <? blen key then Err (errorsNew "snapshot key exceeds limit") else
      if MaxValueLen <? blen val then Err (errorsNew "snapshot value exceeds limit") else
      let w := hw_Write (hw_Write w (record_header key val)) key in
      let w := if 0 <? blen val then hw_Write w val else w in
      iter ← Next iter;
      write_records fuel iter w
  end.

Definition writeSnapshot `{KVIter It} (iter : It) : res bytes :=
  let w := hw_Write (MkHW [] crc32c_New) snapshot_header in
  w ← write_records (steps iter) iter w;
  let w := hw_Write w [snapshotEndTag] in
  Ok (hw_out w ++ le_bytes snapshotTrailerLen (crc32c_Sum32 (hw_h w))).

(** ** Reading *)

(** The rest of the stream and the hash of [hashingReader]. *)
Record hashingReader := MkHR { hr_rest : bytes; hr_h : Z }.

(** [io.ReadFull] *)
Definition stream_ReadFull (rest : bytes) (n : nat) : res (bytes * bytes) :=
  if (n <=? length rest)%nat then Ok (take n rest, drop n rest)
  else Err (if (length rest =? 0)%nat then io_EOF else io_ErrUnexpectedEOF).

Definition hr_ReadFull (r : hashingReader) (n : nat) : res (bytes * hashingReader) :=
  '(p, rest) ← stream_ReadFull (hr_rest r) n; Ok (p, MkHR rest (crc32c_Write (hr_h r) p)).

Section read.
(** [visit] with the variables it captures. *)
Context {St : Type} (visit : St → bytes → bytes → St * res unit).

(** The loop over the records, up to the terminator. *)
Fixpoint read_records (fuel : nat) (r : hashingReader) (st : St) : St * res hashingReader :=
  match fuel with
  | O => (st, OutOfFuel)
  | S fuel =>
      let! (st, x) := (st, hr_ReadFull r 1) in
      let (tag, r) := (x : bytes * hashingReader) in
      if bool_decide (tag = [snapshotEndTag]) then (st, Ok r) else
      if negb (bool_decide (tag = [snapshotRecordTag])) then (st, Err ErrSnapshotCorrupt) else
      let! (st, x) := (st, hr_ReadFull r 8) in
      let (rec, r) := (x : bytes * hashingReader) in
      let klen := le_val (take 4 rec) in
      let vlen := le_val (drop 4 rec) in
      if MaxKeyLen <? klen then (st, Err ErrSnapshotCorrupt) else
      if MaxValueLen <? vlen then (st, Err ErrSnapshotCorrupt) else
      if klen =? 0 then (st, Err ErrSnapshotCorrupt) else
      let! (st, x) := (st, hr_ReadFull r (Z.to_nat (klen + vlen))) in
      let (buf, r) := (x : bytes * hashingReader) in
      let! (st, _u) := visit st (take (Z.to_nat klen) buf) (drop (Z.to_nat klen) buf) in
      read_records fuel r st
  end.

(** Every record takes a byte of the stream. *)
Definition readSnapshot (data : bytes) (st : St) : St * res unit :=
  let! (st, x) := (st, hr_ReadFull (MkHR data crc32c_New) snapshotHeaderLen) in
  let (hdr, r) := (x : bytes * hashingReader) in
  if negb (bytes_equal (take 4 hdr) snapshotMagic) then (st, Err ErrSnapshotMagic) else
  if negb (le_val (take 2 (drop 4 hdr)) =? snapshotVersion) then (st, Err ErrSnapshotVersion) else
  let! (st, r) := read_records (S (length data)) r st in
  let! (st, x) := (st, stream_ReadFull (hr_rest r) snapshotTrailerLen) in
  let (trailer, _) := (x : bytes * bytes) in
  if negb (le_val trailer =? crc32c_Sum32 (hr_h r)) then (st, Err ErrSnapshotChecksum) else (st, Ok tt).

(** Reading returns whatever the stream holds, if [visit] does: [P n] allows [n]
    more visits, [Q] is what remains after an error. *)
Context (P : nat → St → Prop) (Q : St → Prop).
Context (Hvisit : ∀ n st k v, P (S n) st → let (st', r) := visit st k v in (r = Ok tt ∧ P n st') ∨ (Q st' ∧ ∃ e, r = Err e)).
Context (Hrest : ∀ n st, P n st → Q st).

Lemma hr_ReadFull_cases r n : (∃ e, hr_ReadFull r n = Err e) ∨
  ∃ p r', hr_ReadFull r n = Ok (p, r') ∧ length p = n ∧ (length (hr_rest r') = length (hr_rest r) - n)%nat ∧ (n ≤ length (hr_rest r))%nat.
Proof.
  unfold hr_ReadFull, stream_ReadFull. destruct (Nat.leb_spec n (length (hr_rest r))); rs; [right|left; eauto].
  eexists _, _. split; [reflexivity|]. cbn. rewrite length_take, length_drop. lia.
Qed.

Lemma read_records_returns fuel : ∀ r n st, (length (hr_rest r) < fuel)%nat → (length (hr_rest r) ≤ n)%nat → P n st →
  let (st', x) := read_records fuel r st in returns x ∧ Q st'.
Proof.
  induction fuel as [|fuel IH]; intros r n st Hf Hn Hp; [lia|]. cbn [read_records].
  destruct (hr_ReadFull_cases r 1) as [[e ->]|(tag & r1 & -> & _ & L1 & Hge)]; cbn [bindS]; [by split; [|eapply Hrest]|].
  case_if; [by split; [|eapply Hrest]|]. case_if; [by split; [|eapply Hrest]|].
  destruct (hr_ReadFull_cases r1 8) as [[e ->]|(rec & r2 & -> & _ & L2 & _)]; cbn [bindS]; [by split; [|eapply Hrest]|].
  do 3 (case_if; [by split; [|eapply Hrest]|]).
  destruct (hr_ReadFull_cases r2 (Z.to_nat (le_val (take 4 rec) + le_val (drop 4 rec)))) as [[e ->]|(buf & r3 & -> & _ & L3 & _)];
    cbn [bindS]; [by split; [|eapply Hrest]|]. destruct n as [|n]; [lia|].
  specialize (Hvisit n st (take (Z.to_nat (le_val (take 4 rec))) buf) (drop (Z.to_nat (le_val (take 4 rec))) buf) Hp).
  destruct (visit st _ _) as [st1 x]. destruct Hvisit as [[-> Hp1]|[Hq [e ->]]]; cbn [bindS]; [|done].
  apply (IH r3 n); [lia|lia|done].
Qed.

Lemma readSnapshot_returns data st : P (length data) st → let (st', x) := readSnapshot data st in returns x ∧ Q st'.
Proof.
  intros Hp. unfold readSnapshot.
  destruct (hr_ReadFull_cases (MkHR data crc32c_New) snapshotHeaderLen) as [[e ->]|(hdr & r & -> & _ & Hl & _)]; cbn [bindS]; [by split; [|eapply Hrest]|].
  do 2 (case_if; [by split; [|eapply Hrest]|]). cbn [hr_rest] in Hl.
  pose proof (read_records_returns (S (length data)) r (length data) st ltac:(lia) ltac:(lia) Hp) as Hr.
  destruct (read_records _ r st) as [st1 x]. destruct Hr as [Hx Hq]. destruct x as [r1|e|s|]; cbn [bindS]; try done.
  unfold stream_ReadFull. case_if; cbn [bindS]; [|by split; [|eauto]]. case_if; by split.
Qed.

(** The records in order, up to the first one [visit] refuses. *)
Fixpoint visit_all (l : list (bytes * bytes)) (st : St) : St * res unit :=
  match l with
  | [] => (st, Ok tt)
  | (k, v) :: l => let! (st, _u) := visit st k v in visit_all l st
  end.
End read.

(** ** The bytes of a snapshot *)

Definition record_bytes (kv : bytes * bytes) : bytes := record_header kv.1 kv.2 ++ kv.1 ++ kv.2.

Definition snapshot_body (l : list (bytes * bytes)) : bytes := concat (map record_bytes l) ++ [snapshotEndTag].

Definition snapshot_bytes (l : list (bytes * bytes)) : bytes :=
  let data := snapshot_header ++ snapshot_body l in
  data ++ le_bytes 4 (crc32c_Sum32 (crc32c_Write crc32c_New data)).

(** Pairs the writer accepts, and pairs the reader accepts. *)
Definition pair_small (kv : bytes * bytes) : Prop := blen kv.1 ≤ MaxKeyLen ∧ blen kv.2 ≤ MaxValueLen.
Definition pair_ok (kv : bytes * bytes) : Prop := kv.1 ≠ [] ∧ pair_small kv.

Lemma hw_Write_app w p q : hw_Write (hw_Write w p) q = hw_Write w (p ++ q).
Proof. unfold hw_Write, crc32c_Write. cbn. by rewrite foldl_app, (assoc_L (++)). Qed.

Section write.
Context `{IL : IterLaws It}.

Definition pairs (s : list ent) : list (bytes * bytes) := map (fun e => (e_key e, e_val e)) s.

Lemma write_records_spec s fuel : ∀ (it : It) p w,
  At it s p → 0 ≤ p → (length s - Z.to_nat p ≤ fuel)%nat → Forall pair_small (pairs s) →
  write_records fuel it w = Ok (hw_Write w (concat (map record_bytes (pairs (drop (Z.to_nat p) s))))).
Proof.
  induction fuel as [|fuel IH]; intros it p w Hat Hp Hf Hs; cbn [write_records];
    rewrite (At_valid _ _ _ Hat); pose proof (At_range _ _ _ Hat) as Hr.
  - rewrite bool_decide_false by lia. cbn [negb]. rewrite drop_ge by lia. unfold hw_Write. cbn. by rewrite app_nil_r; destruct w.
  - case_bool_decide as Hv; cbn [negb].
    + destruct (lookup_lt_is_Some_2 s (Z.to_nat p)) as [e He]; [lia|].
      destruct (At_entry _ _ _ _ Hat Hp He) as (-> & -> & _). rs.
      rewrite Forall_forall in Hs. assert (pair_small (e_key e, e_val e)) as [Hk Hvl].
      { apply Hs, list_elem_of_In, in_map_iff. exists e. split; [done|]. by eapply list_elem_of_In, list_elem_of_lookup_2. }
      cbn in Hk, Hvl. destruct (Z.ltb_spec MaxKeyLen (blen (e_key e))); [lia|]. destruct (Z.ltb_spec MaxValueLen (blen (e_val e))); [lia|].
      destruct (At_next _ _ _ Hat) as (it' & -> & Hat'). rs. rewrite Z.min_l in Hat' by lia.
      rewrite (IH it' (p + 1)) by (try done; try lia; by apply Forall_forall). f_equal.
      rewrite (drop_S s e (Z.to_nat p)) by done. replace (Z.to_nat (p + 1)) with (S (Z.to_nat p)) by lia. cbn [pairs map concat].
      assert ((if 0 <? blen (e_val e) then hw_Write (hw_Write (hw_Write w (record_header (e_key e) (e_val e))) (e_key e)) (e_val e)
               else hw_Write (hw_Write w (record_header (e_key e) (e_val e))) (e_key e)) =
              hw_Write w (record_bytes (e_key e, e_val e))) as ->; [|by rewrite hw_Write_app].
      unfold record_bytes. cbn [fst snd]. destruct (Z.ltb_spec 0 (blen (e_val e))) as [_|Hz]; [by rewrite !hw_Write_app|].
      unfold blen in Hz. destruct (e_val e) eqn:Ev; [|cbn in Hz; lia]. by rewrite hw_Write_app, app_nil_r.
    + rewrite drop_ge by lia. unfold hw_Write. cbn. by rewrite app_nil_r; destruct w.
Qed.

Lemma writeSnapshot_spec (it : It) s : At it s 0 → Forall pair_small (pairs s) → writeSnapshot it = Ok (snapshot_bytes (pairs s)).
Proof.
  intros Hat Hs. unfold writeSnapshot. pose proof (At_steps _ _ _ Hat). rewrite (write_records_spec s _ it 0) by (done || lia). rs.
  rewrite !hw_Write_app. unfold snapshot_bytes, snapshot_body. cbn [hw_Write hw_out hw_h app Z.to_nat drop]. by rewrite <- !(assoc_L (++)).
Qed.
End write.

(** ** Reading what was written *)

Lemma stream_ReadFull_app p rest n : n = length p → stream_ReadFull (p ++ rest) n = Ok (p, rest).
Proof.
  intros ->. unfold stream_ReadFull. rewrite (proj2 (Nat.leb_le _ _)) by (rewrite length_app; lia).
  by rewrite take_app_length, drop_app_length.
Qed.

Lemma stream_ReadFull_short rest n : (length rest < n)%nat → ∃ e, stream_ReadFull rest n = Err e.
Proof. intros Hn. unfold stream_ReadFull. rewrite (proj2 (Nat.leb_gt _ _)) by done. by eexists. Qed.

Lemma hr_ReadFull_app p rest h n : n = length p → hr_ReadFull (MkHR (p ++ rest) h) n = Ok (p, MkHR rest (crc32c_Write h p)).
Proof. intros Hn. unfold hr_ReadFull. cbn [hr_rest hr_h]. by rewrite stream_ReadFull_app. Qed.

Lemma hr_ReadFull_cons b rest h : hr_ReadFull (MkHR (b :: rest) h) 1 = Ok ([b], MkHR rest (crc32c_Write h [b])).
Proof. done. Qed.

Lemma hr_ReadFull_short rest h n : (length rest < n)%nat → ∃ e, hr_ReadFull (MkHR rest h) n = Err e.
Proof. intros Hn. unfold hr_ReadFull. destruct (stream_ReadFull_short rest n Hn) as [e E]. cbn. rewrite E. by exists e. Qed.

Lemma le_len b limit : blen b ≤ limit → limit < 2 ^ 32 → le_val (le_bytes 4 (u32 (blen b))) = blen b.
Proof.
  intros Hb Hl. assert (0 ≤ blen b) by (unfold blen; lia). rewrite le_val_bytes. change (256 ^ Z.of_nat 4) with (2 ^ 32).
  unfold u32. by rewrite Zmod_mod, Z.mod_small by lia.
Qed.

Lemma header_lens k v : pair_small (k, v) →
  let rec := le_bytes 4 (u32 (blen k)) ++ le_bytes 4 (u32 (blen v)) in
  le_val (take 4 rec) = blen k ∧ le_val (drop 4 rec) = blen v.
Proof.
  intros [Hk Hv]. cbn in Hk, Hv. unfold MaxKeyLen, MaxValueLen in *. cbn zeta.
  rewrite take_app_length' , drop_app_length' by (by rewrite le_bytes_length).
  split; eapply le_len; (eassumption || lia).
Qed.

Lemma crc_app h p q : crc32c_Write (crc32c_Write h p) q = crc32c_Write h (p ++ q).
Proof. unfold crc32c_Write. by rewrite foldl_app. Qed.

Section roundtrip.
Context {St : Type} (visit : St → bytes → bytes → St * res unit).

(** One record, at the front of the stream. *)
Lemma read_record k v rest h fuel st : pair_ok (k, v) →
  read_records visit (S fuel) (MkHR (record_bytes (k, v) ++ rest) h) st =
    let! (st, _u) := visit st k v in read_records visit fuel (MkHR rest (crc32c_Write h (record_bytes (k, v)))) st.
Proof.
  intros [Hne Hs]. cbn [fst] in Hne. destruct (header_lens k v Hs) as [Ek Ev]. destruct Hs as [Hk Hv]. cbn in Hk, Hv.
  assert (0 < blen k) as Hpos by (unfold blen; destruct k; [done|cbn; lia]). assert (0 ≤ blen v) by (unfold blen; lia).
  unfold record_bytes, record_header. cbn [fst snd app read_records].
  rewrite hr_ReadFull_cons. cbn [bindS]. rewrite bool_decide_false, (bool_decide_true (_ = _)) by done. cbn [negb].
  rewrite <- !(assoc_L (++)). rewrite (assoc_L (++) (le_bytes 4 _)). rewrite hr_ReadFull_app by (by rewrite length_app, !le_bytes_length). cbn [bindS].
  rewrite Ek, Ev. destruct (Z.ltb_spec MaxKeyLen (blen k)); [lia|]. destruct (Z.ltb_spec MaxValueLen (blen v)); [lia|].
  destruct (Z.eqb_spec (blen k) 0); [lia|]. rewrite (assoc_L (++) k v rest).
  rewrite hr_ReadFull_app by (rewrite length_app; unfold blen; lia). cbn [bindS].
  unfold blen at 1 2. rewrite Nat2Z.id, take_app_length, drop_app_length, !crc_app.
  by rewrite <- !(assoc_L (++)).
Qed.

Lemma read_records_spec l : ∀ rest h fuel st, Forall pair_ok l → (length l < fuel)%nat →
  read_records visit fuel (MkHR (snapshot_body l ++ rest) h) st =
    let! (st, _u) := visit_all visit l st in (st, Ok (MkHR rest (crc32c_Write h (snapshot_body l)))).
Proof.
  induction l as [|[k v] l IH]; intros rest h [|fuel] st Hl Hf; cbn [length] in Hf; try lia.
  - cbn [visit_all bindS]. unfold snapshot_body. cbn [map concat app read_records].
    rewrite hr_ReadFull_cons. cbn [bindS]. by rewrite bool_decide_true.
  - apply Forall_cons in Hl as [Hkv Hl]. unfold snapshot_body. cbn [map concat visit_all]. rewrite <- !(assoc_L (++)).
    rewrite read_record by done. destruct (visit st k v) as [st1 [[]|e|e|]]; cbn [bindS]; try done.
    rewrite (assoc_L (++) _ [snapshotEndTag]). fold (snapshot_body l). rewrite IH by (done || lia). rewrite crc_app.
    done.
Qed.

Lemma header_check : take 4 snapshot_header = snapshotMagic ∧ le_val (take 2 (drop 4 snapshot_header)) = snapshotVersion.
Proof. split; vm_compute; reflexivity. Qed.

Lemma trailer_bytes data : le_val (le_bytes 4 (crc32c_Sum32 (crc32c_Write crc32c_New data))) = crc32c_Sum32 (crc32c_Write crc32c_New data).
Proof.
  rewrite le_val_bytes. change (256 ^ Z.of_nat 4) with (2 ^ 32). apply Z.mod_small. exact (ChecksumC_range data).
Qed.

Lemma snapshot_length l : (length l < length (snapshot_bytes l))%nat.
Proof.
  unfold snapshot_bytes, snapshot_body. rewrite !length_app, le_bytes_length. cbn [length].
  assert (length l ≤ length (concat (map record_bytes l)))%nat as Hl; [|lia].
  induction l as [|kv l IH]; [done|]. cbn [map concat length]. rewrite length_app. unfold record_bytes at 1, record_header. cbn. lia.
Qed.

Lemma readSnapshot_spec l st : Forall pair_ok l → readSnapshot visit (snapshot_bytes l) st = visit_all visit l st.
Proof.
  intros Hl. pose proof (snapshot_length l) as Hlen. unfold readSnapshot.
  set (fuel := S (length (snapshot_bytes l))) in *. assert (length l < fuel)%nat as Hf by (unfold fuel; lia). clearbody fuel.
  unfold snapshot_bytes. rewrite <- !(assoc_L (++)), hr_ReadFull_app by done. cbn [bindS].
  destruct header_check as [Hm Hv]. rewrite Hm, Hv, (proj2 (bytes_equal_eq _ _) eq_refl), Z.eqb_refl. cbn [negb].
  rewrite read_records_spec by done. destruct (visit_all visit l st) as [st1 [[]|e|e|]]; cbn [bindS]; try done.
  cbn [hr_rest hr_h]. rewrite <- (app_nil_r (le_bytes 4 _)), stream_ReadFull_app by (by rewrite le_bytes_length). cbn [bindS].
  by rewrite crc_app, trailer_bytes, Z.eqb_refl.
Qed.

(** A stream that was cut off is refused. *)
Lemma read_cut_record k v n h fuel st : pair_ok (k, v) → (n < length (record_bytes (k, v)))%nat →
  ∃ e, snd (read_records visit (S fuel) (MkHR (take n (record_bytes (k, v))) h) st) = Err e.
Proof.
  intros [Hne Hs] Hn. destruct (header_lens k v Hs) as [Ek Ev]. destruct Hs as [Hk Hv]. cbn in Hne, Hk, Hv.
  assert (0 < blen k) as Hpos by (unfold blen; destruct k; [done|cbn; lia]). assert (0 ≤ blen v) by (unfold blen; lia).
  destruct n as [|n]; [by eexists|]. unfold record_bytes, record_header in *. cbn [fst snd app take length read_records] in *.
  rewrite hr_ReadFull_cons. cbn [bindS]. rewrite bool_decide_false, (bool_decide_true (_ = _)) by done. cbn [negb].
  set (rec := le_bytes 4 (u32 (blen k)) ++ le_bytes 4 (u32 (blen v))) in *.
  assert (length rec = 8%nat) as Hrec by (unfold rec; by rewrite length_app, !le_bytes_length).
  destruct (decide (n < 8)%nat) as [Hlt|Hge].
  - destruct (hr_ReadFull_short (take n (rec ++ k ++ v)) (crc32c_Write h [snapshotRecordTag]) 8) as [e ->]; [rewrite length_take; lia|].
    by exists e.
  - rewrite (take_app_ge rec) by lia. rewrite hr_ReadFull_app by done. cbn [bindS].
    rewrite Ek, Ev. destruct (Z.ltb_spec MaxKeyLen (blen k)); [lia|]. destruct (Z.ltb_spec MaxValueLen (blen v)); [lia|].
    destruct (Z.eqb_spec (blen k) 0); [lia|].
    destruct (hr_ReadFull_short (take (n - length rec) (k ++ v)) (crc32c_Write (crc32c_Write h [snapshotRecordTag]) rec) (Z.to_nat (blen k + blen v)))
      as [e ->]; [|by exists e].
    rewrite length_take. rewrite !length_app in Hn. unfold blen. lia.
Qed.

Lemma read_cut l : ∀ n h fuel st st' r, Forall pair_ok l → (n < length (snapshot_body l))%nat →
  read_records visit fuel (MkHR (take n (snapshot_body l)) h) st ≠ (st', Ok r).
Proof.
  induction l as [|[k v] l IH]; intros n h fuel st st' r Hl Hn He; (destruct fuel as [|fuel]; [done|]).
  - cbn in Hn. assert (n = 0%nat) as -> by lia. done.
  - apply Forall_cons in Hl as [Hkv Hl]. unfold snapshot_body in *. cbn [map concat] in *. rewrite <- (assoc_L (++)) in *.
    destruct (decide (n < length (record_bytes (k, v)))%nat) as [Hlt|Hge].
    + rewrite take_app_le in He by lia. destruct (read_cut_record k v n h fuel st Hkv Hlt) as [e E]. rewrite He in E. done.
    + rewrite take_app_ge in He by lia. rewrite read_record in He by done. rewrite length_app in Hn.
      destruct (visit st k v) as [st1 [[]|e|e|]]; cbn [bindS] in He; try done. eapply IH; [done| |exact He]. unfold snapshot_body. lia.
Qed.

Lemma readSnapshot_cut l n st : Forall pair_ok l → (n < length (snapshot_bytes l))%nat →
  snd (readSnapshot visit (take n (snapshot_bytes l)) st) ≠ Ok tt.
Proof.
  intros Hl Hn. unfold readSnapshot. set (fuel := S (length (take n (snapshot_bytes l)))).
  assert (length l < fuel ∨ n < length (snapshot_header ++ snapshot_body l))%nat as Hfuel.
  { unfold fuel. rewrite length_take. unfold snapshot_bytes in *. rewrite !length_app in *. pose proof (snapshot_length l) as Hs.
    unfold snapshot_bytes, snapshot_body in *. rewrite !length_app in *. rewrite le_bytes_length in *. cbn [length] in *.
    assert (length l ≤ length (concat (map record_bytes l)))%nat as Hc; [|lia]. clear.
    induction l as [|kv l IH]; [done|]. cbn [map concat length]. rewrite length_app. unfold record_bytes at 1, record_header. cbn. lia. }
  clearbody fuel. unfold snapshot_bytes in *. rewrite <- !(assoc_L (++)) in *.
  destruct (decide (n < 8)%nat) as [Hlt|Hge].
  - destruct (hr_ReadFull_short (take n (snapshot_header ++ snapshot_body l ++ le_bytes 4 (crc32c_Sum32 (crc32c_Write crc32c_New (snapshot_header ++ snapshot_body l)))))
      crc32c_New snapshotHeaderLen) as [e ->]; [rewrite length_take; unfold snapshotHeaderLen; lia|]. done.
  - rewrite (take_app_ge snapshot_header) by (change (length snapshot_header) with 8%nat; lia). change (length snapshot_header) with 8%nat.
    rewrite hr_ReadFull_app by done. cbn [bindS]. destruct header_check as [Hm Hv].
    rewrite Hm, Hv, (proj2 (bytes_equal_eq _ _) eq_refl), Z.eqb_refl. cbn [negb].
    destruct (decide (n - 8 < length (snapshot_body l))%nat) as [Hb|Hb].
    + rewrite take_app_le by lia.
      destruct (read_records visit fuel _ st) as [st' [r|e|e|]] eqn:E; cbn [bindS]; try done. by eapply read_cut in E.
    + rewrite take_app_ge by lia. rewrite !length_app, le_bytes_length in Hn. rewrite length_app in Hfuel. change (length snapshot_header) with 8%nat in *.
      rewrite read_records_spec by (done || lia). destruct (visit_all visit l st) as [st1 [[]|e|e|]]; cbn [bindS]; try done.
      cbn [hr_rest]. destruct (stream_ReadFull_short (take (n - 8 - length (snapshot_body l))
        (le_bytes 4 (crc32c_Sum32 (crc32c_Write crc32c_New (snapshot_header ++ snapshot_body l))))) snapshotTrailerLen) as [e ->]; [|done].
      rewrite length_take, le_bytes_length. unfold snapshotTrailerLen. lia.
Qed.

End roundtrip.
