(* ===== verification/FSM.v ===== *)
(** * The replicated state machine: cluster/fsm.go, without Restore

    [Apply] decodes an entry of the Raft log and runs it in the store.  A
    deterministic rejection is part of the result; anything else aborts the
    process, [Panic] in the model.  The lock only serialises the operations
    with Restore (Restore.v); the applied index is in AppliedIndex.v too, with
    its waiters. *)

From Stdlib Require Import ZArith Lia.
From Stdlib.Strings Require Import Byte.
From stdpp Require Import base list numbers.
From S2P Require Import Prelude GoLib SortedSeq SortedKV SortedArray Merge SortedFile KVIterators Metadata KV Command Snapshot.

Open Scope Z_scope.

Record FSMResult := MkFSMResult { fr_Updated : bool; fr_Err : option error }.

Section fsm.
Context `{Bloom} `{MetaJson} `{CommandJson}.

Record FSM := MkFSM { f_store : KV; f_closed : bool; f_applied : Z }.

Definition set_store (f : FSM) (kv : KV) : FSM := MkFSM kv (f_closed f) (f_applied f).

Definition NewFSM (store : KV) : FSM := MkFSM store false 0.

Definition fatal {A} : res A := Panic "cluster: FSM cannot continue".

(** Any error that is not a rejection aborts the process. *)
Definition or_fatal {A} (r : res A) : res A := match r with Err _ => fatal | _ => r end.

Definition updateMode (mode : Z) : res Z :=
  if (mode <? ModeUpsert) || (ModeUpdate <? mode) then Err (errorsNew "invalid update mode") else Ok mode.

(** ** Batches *)

(** The loop of [applyBatch] in its transaction: whether anything was updated,
    or the rejection of a mutation. *)
Fixpoint apply_muts (muts : list Mutation) (updated : bool) (tx : KVTX) : KVTX * res (bool + error) :=
  match muts with
  | [] => (tx, Ok (inl updated))
  | m :: muts =>
      if bool_decide (mu_Op m = OpPut) then
        match updateMode (mu_Mode m) with
        | Ok mode => let! (tx, u) := tx_SetEx tx (mu_Key m) (mu_Val m) mode in apply_muts muts (updated || u) tx
        | Err e => (tx, Ok (inr e))
        | Panic s => (tx, Panic s)
        | OutOfFuel => (tx, OutOfFuel)
        end
      else if bool_decide (mu_Op m = OpDel) then
        let! (tx, d) := tx_Del tx (mu_Key m) in apply_muts muts (updated || d) tx
      else (tx, Err (errorsNew "unknown op"))
  end.

Definition applyBatch (kv : KV) (muts : list Mutation) : KV * res FSMResult :=
  let! (kv, p) := (kv, NewTX kv) in
  let (kv, id) := (p : KV * nat) in
  let (kv, r) := with_tx kv id (apply_muts muts false) in
  match r with
  | Ok (inl updated) =>
      let (kv, c) := applyTXSync kv id in
      let! (kv, _u) := (kv, or_fatal c) in (kv, Ok (MkFSMResult updated None))
  | Ok (inr e) => let! (kv, kv') := (kv, abortTX kv id) in (kv', Ok (MkFSMResult false (Some e)))
  | Err _ => let! (kv, kv') := (kv, abortTX kv id) in (kv', fatal)
  | Panic s => (kv, Panic s)
  | OutOfFuel => (kv, OutOfFuel)
  end.

(** ** Entries *)

Definition applyCommand (f : FSM) (cmd : Command) : FSM * res FSMResult :=
  if f_closed f then (f, fatal) else
  if bool_decide (cm_Op cmd = OpPut) then
    match updateMode (cm_Mode cmd) with
    | Err e => (f, Ok (MkFSMResult false (Some e)))
    | Ok mode =>
        let (kv, r) := kv_SetEx (f_store f) (cm_Key cmd) (cm_Val cmd) mode in
        let! (f, updated) := (set_store f kv, or_fatal r) in (f, Ok (MkFSMResult updated None))
    | Panic s => (f, Panic s)
    | OutOfFuel => (f, OutOfFuel)
    end
  else if bool_decide (cm_Op cmd = OpDel) then
    let (kv, r) := kv_Del (f_store f) (cm_Key cmd) in
    let! (f, deleted) := (set_store f kv, or_fatal r) in (f, Ok (MkFSMResult deleted None))
  else if bool_decide (cm_Op cmd = OpBatch) then
    let (kv, r) := applyBatch (f_store f) (cm_Batch cmd) in (set_store f kv, r)
  else (f, fatal).

(** The index never moves backwards. *)
Definition advanceApplied (f : FSM) (idx : Z) : FSM :=
  if idx <=? f_applied f then f else MkFSM (f_store f) (f_closed f) idx.

Definition AppliedIndex (f : FSM) : Z := f_applied f.
Definition ObserveAppliedIndex (f : FSM) (idx : Z) : FSM := advanceApplied f idx.
Definition StoreConfiguration (f : FSM) (idx : Z) : FSM := advanceApplied f idx.

Definition Apply (f : FSM) (index : Z) (data : bytes) : FSM * res FSMResult :=
  let! (f, cmd) := (f, or_fatal (DecodeCommand data)) in
  let! (f, res) := applyCommand f cmd in
  (advanceApplied f index, Ok res).

(** ** Reads *)

Definition fsm_Get (f : FSM) (key : bytes) : FSM * res (option bytes) :=
  if f_closed f then (f, Err ErrFSMClosed) else
  let (kv, r) := kv_Get (f_store f) key in (set_store f kv, r).

(** The transaction and its place in the heap; [release] aborts it. *)
Definition fsm_NewTX (f : FSM) : FSM * res nat :=
  let! (f, p) := (f, NewTX (f_store f)) in
  let (kv, id) := (p : KV * nat) in (set_store f kv, Ok id).

Definition fsm_release (f : FSM) (id : nat) : FSM * res unit :=
  let! (f, kv) := (f, abortTX (f_store f) id) in (set_store f kv, Ok tt).

(** ** Snapshots *)

(** [FSMSnapshot]: the iterator and the transaction [cleanup] aborts. *)
Record FSMSnapshot := MkSnapshot { sn_iter : TXIter; sn_tx : nat }.

(** [IterAll] of the store, with the transaction its cleanup function aborts. *)
Definition kv_IterAll (kv : KV) : KV * res (TXIter * nat) :=
  let! (kv, p) := (kv, NewTX kv) in
  let (kv, id) := (p : KV * nat) in
  let! (kv, tx) := (kv, go_index (kv_txs kv) id) in
  match tx_IterAll tx with
  | Ok iter => (kv, Ok (iter, id))
  | Err e => let! (kv, kv') := (kv, abortTX kv id) in (kv', Err e)
  | Panic s => (kv, Panic s)
  | OutOfFuel => (kv, OutOfFuel)
  end.

Definition fsm_Snapshot (f : FSM) : FSM * res FSMSnapshot :=
  if f_closed f then (f, Err ErrFSMClosed) else
  let (kv, r) := kv_IterAll (f_store f) in
  let! (f, p) := (set_store f kv, r) in
  let (iter, id) := (p : TXIter * nat) in (f, Ok (MkSnapshot iter id)).

(** [Persist] into a sink; on an error the sink is cancelled. *)
Definition Persist (s : FSMSnapshot) : res bytes := writeSnapshot (sn_iter s).

Definition Release (f : FSM) (s : FSMSnapshot) : FSM * res unit := fsm_release f (sn_tx s).

End fsm.
