(* ===== verification/FSMProofs.v ===== *)
(** * The state machine is deterministic

    [spec_apply] is the state machine the cluster agrees on: a function of the
    live entries and the command.  [Apply] implements it on any store, whatever
    its history of flushes, merges and earlier snapshots. *)

From Stdlib Require Import ZArith Lia.
From Stdlib.Strings Require Import Byte.
From stdpp Require Import base list numbers.
From S2P Require Import Prelude GoLib SortedSeq SortedKV SortedArray Merge File Entry SortedFile SortedFileProofs KVIterators.
From S2P Require Import Log Metadata KV KVCompact KVProofs KVCompactProofs KVSystem KVOps TxKV TxInstance Table DB Relational Refine.
From S2P Require Import Command Snapshot FSM.

Open Scope Z_scope.

(** ** The specification *)

Definition valid_mode (mode : Z) : bool := (ModeUpsert <=? mode) && (mode <=? ModeUpdate).

Definition bad_mode : error := errorsNew "invalid update mode".

(** One put or delete: whether it changed anything, and the entries after it. *)
Definition spec_put (m : list ent) (k v : bytes) (mode : Z) : bool * list ent :=
  let updated := mode_updates mode (val_at m k) v in (updated, if updated then put k v m else m).

Definition spec_del (m : list ent) (k : bytes) : bool * list ent :=
  (bool_decide (val_at m k ≠ None), cut k m).

(** The mutations of a batch in order; [None] for one that is rejected. *)
Fixpoint spec_batch (m : list ent) (updated : bool) (muts : list Mutation) : option (bool * list ent) :=
  match muts with
  | [] => Some (updated, m)
  | mu :: muts =>
      if bool_decide (mu_Op mu = OpPut) then
        if valid_mode (mu_Mode mu) then
          let '(u, m) := spec_put m (mu_Key mu) (mu_Val mu) (mu_Mode mu) in spec_batch m (updated || u) muts
        else None
      else let '(d, m) := spec_del m (mu_Key mu) in spec_batch m (updated || d) muts
  end.

(** A rejected command changes nothing. *)
Definition spec_apply (m : list ent) (cmd : Command) : FSMResult * list ent :=
  if bool_decide (cm_Op cmd = OpBatch) then
    match spec_batch m false (cm_Batch cmd) with
    | Some (u, m') => (MkFSMResult u None, m')
    | None => (MkFSMResult false (Some bad_mode), m)
    end
  else if bool_decide (cm_Op cmd = OpPut) then
    if valid_mode (cm_Mode cmd) then
      let '(u, m') := spec_put m (cm_Key cmd) (cm_Val cmd) (cm_Mode cmd) in (MkFSMResult u None, m')
    else (MkFSMResult false (Some bad_mode), m)
  else let '(d, m') := spec_del m (cm_Key cmd) in (MkFSMResult d None, m').

(** The operations the state machine knows. *)
Definition known_mut (mu : Mutation) : Prop := mu_Op mu = OpPut ∨ mu_Op mu = OpDel.
Definition known_cmd (cmd : Command) : Prop :=
  cm_Op cmd = OpPut ∨ cm_Op cmd = OpDel ∨ (cm_Op cmd = OpBatch ∧ Forall known_mut (cm_Batch cmd)).

Lemma updateMode_spec mode : updateMode mode = if valid_mode mode then Ok mode else Err bad_mode.
Proof.
  unfold updateMode, valid_mode, ModeUpsert, ModeUpdate.
  destruct (Z.ltb_spec mode 1), (Z.ltb_spec 3 mode), (Z.leb_spec 1 mode), (Z.leb_spec mode 3); try lia; done.
Qed.

Lemma valid_mode_known mode : valid_mode mode = true → mode_valid mode.
Proof. unfold valid_mode, mode_valid, ModeUpsert, ModeInsert, ModeUpdate. lia. Qed.

(** *** The log never runs out of fuel *)

Lemma log_Write_fuel log e : snd (log_Write log e) ≠ OutOfFuel.
Proof. unfold log_Write, Encode, with_fp. case_if; [done|]. by destruct (l_fp log). Qed.

Lemma write_entries_fuel s fuel : ∀ (it : SortedArrayIter) p log,
  At it s p → 0 ≤ p → (length s - Z.to_nat p ≤ fuel)%nat → snd (write_entries fuel it log) ≠ OutOfFuel.
Proof.
  induction fuel as [|fuel IH]; intros it p log Hat Hp Hf; cbn [write_entries]; (destruct (Valid it) eqn:Hv; [|done]);
    destruct (At_valid_entry _ _ _ Hat Hv) as (e & He & _ & Hk & Hx & Hd); apply lookup_lt_Some in He as Hlt; [lia|].
  rewrite Hk, Hx, Hd. rs. cbn [bindS]. pose proof (log_Write_fuel log (MkEntry (e_key e) (e_val e) 0 (if e_del e then EntryDel else EntryAdd))) as Hw.
  destruct (log_Write log _) as [log1 [[]| | |]]; cbn [bindS snd] in *; try done.
  destruct (At_next _ _ _ Hat) as (it' & -> & Hat'). cbn [bindS]. eapply IH; [exact Hat'|lia|lia].
Qed.

Lemma updateLog_fuel log u : sorted u → snd (updateLog log (arr_of u)) ≠ OutOfFuel.
Proof.
  intros Hs. unfold updateLog, defer_ResetTX. change (arr_Iter (arr_of u)) with (Ok (arr_iter_at (arr_of u) 0)). cbn [bindS snd].
  assert (At (arr_iter_at (arr_of u) 0) u 0) as Hat by (split; [done|]; split; [done|lia]).
  pose proof (write_entries_fuel u (steps (arr_iter_at (arr_of u) 0)) _ 0 log Hat) as Hw. pose proof (At_steps _ _ _ Hat).
  specialize (Hw ltac:(lia) ltac:(lia)). destruct (write_entries _ _ log) as [log1 [[]| | |]]; cbn [bindS snd] in *; try done.
  unfold log_Commit. pose proof (log_Write_fuel log1 (MkEntry [] [] 0 EntryCommit)) as Hc.
  destruct (log_Write log1 _) as [log2 [[]| | |]]; cbn [snd] in *; try done. unfold with_fp. by destruct (l_fp log2).
Qed.

Section proofs.
Context `{BL : BloomLaws} `{MetaJson} `{CommandJson}.

(** ** In a transaction *)

Section tx.
Context (tx0 : KVTX) (base : list ent).

(** Any write of a transaction is a write of the specification. *)
Lemma means_put t m k v mode : tx_means tx0 base t m → valid_mode mode = true →
  ∃ t', tx_SetEx t k v mode = (t', Ok (spec_put m k v mode).1) ∧ tx_means tx0 base t' (spec_put m k v mode).2.
Proof.
  intros (u & Ht & Hr & ->) Hm. unfold spec_put. cbn [fst snd]. rewrite (ro_set _ _ _ _ _ _ Hr) by (by apply valid_mode_known).
  eexists. split; [done|]. destruct (mode_updates _ _ _); [|by exists u]. erewrite <- ro_put by done.
  eapply tx_means_write; [done|done|apply upsert_sorted, Hr].
Qed.

Lemma means_del t m k : tx_means tx0 base t m →
  ∃ t', tx_Del t k = (t', Ok (spec_del m k).1) ∧ tx_means tx0 base t' (spec_del m k).2.
Proof. intros Hm. by apply (w_del _ _ (tx_means_writable tx0 base) t m k). Qed.

Lemma apply_muts_spec muts : ∀ t m updated, tx_means tx0 base t m → Forall known_mut muts →
  match spec_batch m updated muts with
  | Some (u, m') => ∃ t', apply_muts muts updated t = (t', Ok (inl u)) ∧ tx_means tx0 base t' m'
  | None => ∃ t' m', apply_muts muts updated t = (t', Ok (inr bad_mode)) ∧ tx_means tx0 base t' m'
  end.
Proof.
  induction muts as [|mu muts IH]; intros t m updated Hm Hk; cbn [apply_muts spec_batch]; [by exists t|].
  apply Forall_cons in Hk as [Ho Hk]. destruct (decide (mu_Op mu = OpPut)) as [Hp|Hp].
  - rewrite !bool_decide_true by done. rewrite updateMode_spec. destruct (valid_mode (mu_Mode mu)) eqn:Em; [|by exists t, m].
    destruct (means_put t m (mu_Key mu) (mu_Val mu) (mu_Mode mu) Hm Em) as (t' & E & Hm'). rewrite E. cbn [bindS].
    destruct (spec_put m _ _ _) as [u m1]. cbn [fst snd] in *. by apply IH.
  - rewrite !(bool_decide_false (mu_Op mu = OpPut)) by done. destruct Ho as [Ho|Ho]; [done|]. rewrite bool_decide_true by done.
    destruct (means_del t m (mu_Key mu) Hm) as (t' & E & Hm'). rewrite E. cbn [bindS].
    destruct (spec_del m _) as [d m1]. cbn [fst snd] in *. by apply IH.
Qed.
End tx.

(** ** In the store *)

(** An open state machine that has the live entries [m]. *)
Record fsm_state (f : FSM) (m : list ent) (n : nat) : Prop := {
  fm_inv : ∃ init commits, inv (f_store f) init commits ∧ committed_view init commits = m ∧ (length commits ≤ n)%nat;
  fm_refs : refs_ok (f_store f);
  fm_open : kv_closed (f_store f) = false;
  fm_running : f_closed f = false;
}.

(** What an operation of the store does, in terms of the live entries. *)
Definition store_step (kv kv' : KV) (init : list ent) (commits : list (list ent)) (m' : list ent) : Prop :=
  ∃ commits', inv kv' init commits' ∧ refs_ok kv' ∧ kv_closed kv' = false ∧ committed_view init commits' = m' ∧
    (length commits' ≤ S (length commits))%nat.

Section op.
Context (kv : KV) (init : list ent) (commits : list (list ent)).
Context (Hinv : inv kv init commits) (Hrefs : refs_ok kv) (Hopen : kv_closed kv = false).
Context (Hlen : Z.of_nat (length commits) < 2 ^ 64 - 1).

Let view := committed_view init commits.

Lemma current_view k : current init commits k = val_at view k.
Proof. unfold current, view, committed_view. symmetry. apply val_at_lives, state_at_sorted, (i_init _ _ _ _ Hinv). Qed.

(** A transaction that ends in the entries [m'], committed. *)
Lemma commit_op {A} (f : KVTX → KVTX * res A) (r : A) m' :
  (∀ tx0, tx_means tx0 (state_at init commits (length commits)) tx0 view →
     ∃ t', f tx0 = (t', Ok r) ∧ tx_means tx0 (state_at init commits (length commits)) t' m') →
  ∃ kv1 id kv2 t' kv3 c, NewTX kv = Ok (kv1, id) ∧ with_tx kv1 id f = (kv2, Ok r) ∧
    kv_txs kv2 !! id = Some t' ∧ applyTXSync kv2 id = (kv3, c) ∧
    ((c = Ok tt ∧ store_step kv kv3 init commits m') ∨ (c ≠ Ok tt ∧ c ≠ OutOfFuel)).
Proof.
  intros Hf. destruct (at_work_new kv init commits Hinv Hrefs Hopen) as (kv1 & id & tx0 & En & Hw & Hu).
  assert (tx_means tx0 (state_at init commits (length commits)) tx0 view) as Hm.
  { apply (tx_means_reads init commits tx0 (length commits) []); [apply (i_init _ _ _ _ Hinv)|apply Hw|done|constructor]. }
  destruct (Hf tx0 Hm) as (t' & E & u & -> & Hr & ->).
  pose proof (at_work_write _ _ _ _ _ _ _ u Hw (ro_sorted _ _ _ Hr)) as Hw'.
  destruct (at_work_commit _ _ _ _ _ _ _ Hw' Hlen) as (kv3 & c & Ec & Hi & Hr3 & Ho3 & Hc).
  eexists kv1, id, _, _, kv3, c. split; [done|]. split.
  { unfold with_tx. by rewrite (aw_tx _ _ _ _ _ _ _ Hw), set_no_updates, E. }
  split; [apply Hw'|]. split; [exact Ec|]. unfold log_result in Hc. destruct (decide (u = [])) as [->|Hne].
  - subst c. left. split; [done|]. exists commits. split_and!; try done. lia.
  - destruct c as [[]| | |]; cbn [committed] in Hi.
    1: left; split; [done|]; exists (commits ++ [u]); rewrite length_app; cbn; split_and!; try done; [by destruct u|by rewrite view_commit|lia].
    all: right; split; [done|]; pose proof (updateLog_fuel (kv_log kv) u (ro_sorted _ _ _ Hr)); congruence.
Qed.

Lemma abort_op {A} (f : KVTX → KVTX * res A) (r : A) :
  (∀ tx0, tx_means tx0 (state_at init commits (length commits)) tx0 view →
     ∃ t' m', f tx0 = (t', Ok r) ∧ tx_means tx0 (state_at init commits (length commits)) t' m') →
  ∃ kv1 id kv2 kv3, NewTX kv = Ok (kv1, id) ∧ with_tx kv1 id f = (kv2, Ok r) ∧
    abortTX kv2 id = Ok kv3 ∧ store_step kv kv3 init commits view.
Proof.
  intros Hf. destruct (at_work_new kv init commits Hinv Hrefs Hopen) as (kv1 & id & tx0 & En & Hw & Hu).
  assert (tx_means tx0 (state_at init commits (length commits)) tx0 view) as Hm.
  { apply (tx_means_reads init commits tx0 (length commits) []); [apply (i_init _ _ _ _ Hinv)|apply Hw|done|constructor]. }
  destruct (Hf tx0 Hm) as (t' & m' & E & u & -> & Hr & ->).
  pose proof (at_work_write _ _ _ _ _ _ _ u Hw (ro_sorted _ _ _ Hr)) as Hw'.
  destruct (at_work_abort _ _ _ _ _ _ _ Hw') as (kv3 & Ea & Hi & Hr3 & Ho3).
  eexists kv1, id, _, kv3. split; [done|]. split.
  { unfold with_tx. by rewrite (aw_tx _ _ _ _ _ _ _ Hw), set_no_updates, E. }
  split; [exact Ea|]. exists commits. split_and!; try done. lia.
Qed.

Lemma applyBatch_spec muts : Forall known_mut muts →
  ∃ kv' r, applyBatch kv muts = (kv', r) ∧
    match spec_batch view false muts with
    | Some (u, m') => (r = Ok (MkFSMResult u None) ∧ store_step kv kv' init commits m') ∨ (∃ s, r = Panic s)
    | None => r = Ok (MkFSMResult false (Some bad_mode)) ∧ store_step kv kv' init commits view
    end.
Proof.
  intros Hk. pose proof (fun tx0 => apply_muts_spec tx0 (state_at init commits (length commits)) muts tx0 view false) as Hs.
  unfold applyBatch. destruct (spec_batch view false muts) as [[u m']|].
  - destruct (commit_op (apply_muts muts false) (inl u) m') as (kv1 & id & kv2 & t' & kv3 & c & En & Ew & _ & Ec & Hc); [eauto|].
    rewrite En. cbn [bindS]. rewrite Ew, Ec. destruct Hc as [[-> Hst]|[Hne Hfuel]].
    + cbn [or_fatal bindS]. eauto 10.
    + destruct c as [[]|e|s|]; cbn [or_fatal fatal bindS]; try done; eexists _, _; (split; [done|]); eauto.
  - destruct (abort_op (apply_muts muts false) (inr bad_mode)) as (kv1 & id & kv2 & kv3 & En & Ew & Ea & Hst); [eauto|].
    rewrite En. cbn [bindS]. rewrite Ew, Ea. cbn [bindS]. eauto.
Qed.

(** A single write of the store. *)
Lemma single_op (f : KVTX → KVTX * res bool) b m' :
  (∀ tx0, tx_means tx0 (state_at init commits (length commits)) tx0 view →
     ∃ t', f tx0 = (t', Ok b) ∧ tx_means tx0 (state_at init commits (length commits)) t' m') →
  ∃ kv' r, db_op kv f = (kv', r) ∧
    ((r = Ok b ∧ store_step kv kv' init commits m') ∨ ∃ s, or_fatal r = Panic s).
Proof.
  intros Hf. destruct (commit_op f b m' Hf) as (kv1 & id & kv2 & t' & kv3 & c & En & Ew & _ & Ec & Hc).
  unfold db_op. rewrite En. cbn [bindS]. rewrite Ew. unfold abortOrCommit. rewrite Ec. destruct Hc as [[-> Hst]|[Hne Hfuel]].
  - cbn [bindS]. eauto 10.
  - destruct c as [[]|e|s|]; try done; eexists _, _; (split; [done|]); right; eauto.
Qed.

Lemma applyCommand_spec f cmd : f_store f = kv → f_closed f = false → known_cmd cmd →
  let '(res, m') := spec_apply view cmd in
  ∃ f' r, applyCommand f cmd = (f', r) ∧
    ((r = Ok res ∧ f_closed f' = false ∧ store_step kv (f_store f') init commits m') ∨ ∃ s, r = Panic s).
Proof.
  intros Hs Hc Hk. unfold spec_apply, applyCommand. rewrite Hc, Hs. destruct Hk as [Ho|[Ho|[Ho Hk]]]; rewrite Ho.
  - rewrite (bool_decide_false (OpPut = OpBatch)), !(bool_decide_true (OpPut = OpPut)) by done. rewrite updateMode_spec.
    destruct (valid_mode (cm_Mode cmd)) eqn:Em.
    + destruct (single_op (fun tx => tx_SetEx tx (cm_Key cmd) (cm_Val cmd) (cm_Mode cmd)) (spec_put view (cm_Key cmd) (cm_Val cmd) (cm_Mode cmd)).1
        (spec_put view (cm_Key cmd) (cm_Val cmd) (cm_Mode cmd)).2) as (kv' & r & E & Hr).
      { intros tx0 Hm. by apply means_put. }
      change (kv_SetEx kv (cm_Key cmd) (cm_Val cmd) (cm_Mode cmd)) with
        (db_op kv (fun tx => tx_SetEx tx (cm_Key cmd) (cm_Val cmd) (cm_Mode cmd))).
      rewrite E. destruct (spec_put view _ _ _) as [u m']. cbn [fst snd] in *.
      destruct Hr as [[-> Hst]|[s Hr]]; [cbn [or_fatal bindS]; eauto 10|]. rewrite Hr. cbn [bindS]. eauto 10.
    + eexists _, _. split; [done|]. left. split_and!; try done. rewrite Hs. exists commits. split_and!; try done. lia.
  - rewrite (bool_decide_false (OpDel = OpBatch)), !(bool_decide_false (OpDel = OpPut)), (bool_decide_true (OpDel = OpDel)) by done.
    destruct (single_op (fun tx => tx_Del tx (cm_Key cmd)) (spec_del view (cm_Key cmd)).1 (spec_del view (cm_Key cmd)).2) as (kv' & r & E & Hr).
    { intros tx0 Hm. by apply means_del. }
    change (kv_Del kv (cm_Key cmd)) with (db_op kv (fun tx => tx_Del tx (cm_Key cmd))). rewrite E.
    destruct (spec_del view _) as [d m']. cbn [fst snd] in *.
    destruct Hr as [[-> Hst]|[s Hr]]; [cbn [or_fatal bindS]; eauto 10|]. rewrite Hr. cbn [bindS]. eauto 10.
  - rewrite (bool_decide_false (OpBatch = OpPut)), (bool_decide_false (OpBatch = OpDel)), !(bool_decide_true (OpBatch = OpBatch)) by done.
    destruct (applyBatch_spec (cm_Batch cmd) Hk) as (kv' & r & E & Hr). rewrite E.
    destruct (spec_batch view false (cm_Batch cmd)) as [[u m']|].
    + destruct Hr as [[-> Hst]|Hr]; eauto 10.
    + destruct Hr as [-> Hst]. eauto 10.
Qed.

End op.

(** ** Entries of the log *)

Lemma decoded_known data cmd : DecodeCommand data = Ok cmd → cm_Op cmd ≠ OpBatch ∨ Forall known_mut (cm_Batch cmd) → known_cmd cmd.
Proof.
  intros Hd Hb. assert (opCode (cm_Op cmd) ≠ None) as Ho.
  { unfold DecodeCommand in Hd. destruct data as [|b data]; [done|]. case_bool_decide.
    - unfold decodeLegacyJSON in Hd. apply bind_ok in Hd as (c & _ & Hd). destruct (opCode (cm_Op c)) eqn:E; [|done]. injection Hd as ->. by rewrite E.
    - case_bool_decide; [|done]. unfold decodeBinary in Hd. destruct data as [|version [|code rest]]; try done.
      case_if_in Hd; [done|]. destruct (opFromCode code) as [op|] eqn:Eop; [|done]. case_if_in Hd.
      + apply bind_ok in Hd as ([m r] & Hm & Hd). case_if_in Hd; [done|]. injection Hd as <-. cbn [cm_Op].
        assert (mu_Op m = op) as ->.
        { unfold decodeMutationBody in Hm. apply bind_ok in Hm as ([k b1] & _ & Hm). case_if_in Hm; [by injection Hm as <- _|].
          apply bind_ok in Hm as ([v b2] & _ & Hm). destruct (Uvarint b2) as [[mo n]|]; [|done]. case_if_in Hm; [done|]. by injection Hm as <- _. }
        assert (op = OpPut ∨ op = OpDel ∨ op = OpBatch) as [->|[->| ->]]; [|done..].
        clear -Eop. unfold opFromCode in Eop. repeat case_bool_decide; simplify_eq; auto.
      + destruct (Uvarint rest) as [[count n]|]; [|done]. case_if_in Hd; [done|]. apply bind_ok in Hd as ([batch r] & _ & Hd).
        case_if_in Hd; [done|]. by injection Hd as <-. }
  unfold opCode in Ho. unfold known_cmd. repeat case_bool_decide; auto; [|done]. destruct Hb as [Hb|Hb]; [done|]. auto.
Qed.

Lemma Apply_spec f m n index data cmd :
  fsm_state f m n → Z.of_nat n < 2 ^ 64 - 1 → DecodeCommand data = Ok cmd → known_cmd cmd →
  ∃ f' r, Apply f index data = (f', r) ∧
    ((r = Ok (spec_apply m cmd).1 ∧ fsm_state f' (spec_apply m cmd).2 (S n) ∧ f_applied f' = Z.max (f_applied f) index) ∨
     ∃ s, r = Panic s).
Proof.
  intros [(init & commits & Hi & <- & Hl) Hr Ho Hc] Hn Hd Hk. unfold Apply. rewrite Hd. cbn [or_fatal bindS].
  pose proof (applyCommand_spec (f_store f) init commits Hi Hr Ho ltac:(lia) f cmd eq_refl Hc Hk) as Hs.
  destruct (spec_apply _ cmd) as [res m']. destruct Hs as (f' & r & E & Hs). rewrite E.
  assert (f_applied f' = f_applied f) as Ea.
  { clear -E. unfold applyCommand in E. destruct (f_closed f); [by injection E as <- _|]. case_bool_decide.
    - destruct (updateMode _); [|by injection E as <- _..]. destruct (kv_SetEx _ _ _ _) as [kv [b|e|s|]]; cbn in E; by injection E as <- _.
    - case_bool_decide; [destruct (kv_Del _ _) as [kv [b|e|s|]]; cbn in E; by injection E as <- _|].
      case_bool_decide; [|by injection E as <- _]. destruct (applyBatch _ _) as [kv r']. by injection E as <- _. }
  destruct Hs as [(-> & Hcl & commits' & Hi' & Hr' & Ho' & Hv' & Hl')|[s ->]]; cbn [bindS]; [|cbn [fst snd]; eauto 8].
  eexists _, _. split; [done|]. left. unfold advanceApplied. rewrite Ea. cbn [fst snd].
  destruct (Z.leb_spec index (f_applied f)); (split; [done|]); cbn; rewrite ?Z.max_l, ?Z.max_r by lia; (split; [|done]); split; cbn; try done;
    exists init, commits'; split_and!; (done || lia).
Qed.

End proofs.
