(* ===== verification/Restore.v ===== *)
(** * Restore: the rest of cluster/fsm.go

    A snapshot is streamed into a new store in a directory next to the live
    one, then the directories are swapped while the lock is held.  [world] is
    the state machine with the three directories; a directory holds what is on
    disk when its store is closed.  Every file-system operation may fail: an
    operation has a name and a time, and [fault] says which fail and how. *)

From Stdlib Require Import ZArith Lia.
From Stdlib.Strings Require Import Byte.
From stdpp Require Import base list numbers.
From S2P Require Import Prelude GoLib SortedSeq SortedKV SortedArray Merge File SortedFile KVIterators Log Metadata KV KVCompact Reopen Command Snapshot FSM.

Open Scope Z_scope.

(** The operations that can fail; [OpCloseStore] is [Close] of the store that is
    replaced. *)
Inductive fs_name :=
  | OpRemoveRestore | OpRemoveOld | OpCreate | OpCloseFresh | OpCloseStore | OpStat | OpStash | OpInstall | OpRollback
  | OpSyncParent | OpReopen | OpCloseFSM.

Section restore.
Context `{Bloom} `{MetaJson} `{CommandJson}.

Definition empty_disk : disk := MkDisk [] [] [] [].

Record world := MkWorld {
  w_fsm : FSM;
  w_live : option disk;
  w_restore : option disk;
  w_old : option disk;
  w_clock : nat;
}.

Definition set_fsm (w : world) (f : FSM) : world := MkWorld f (w_live w) (w_restore w) (w_old w) (w_clock w).
Definition set_dirs (w : world) (live restore old : option disk) : world := MkWorld (w_fsm w) live restore old (w_clock w).

(** The options of the stores, the failures of file operations, and whether the
    lock is taken in time. *)
Context (opts : KVOptions) (fault : fs_name → nat → option error) (locked : bool).

(** One file operation: its failure, and its effect when it succeeds. *)
Definition fs_op (op : fs_name) (w : world) (effect : world → world) : world * res unit :=
  let w' := MkWorld (w_fsm w) (w_live w) (w_restore w) (w_old w) (S (w_clock w)) in
  match fault op (w_clock w) with
  | Some e => (w', Err e)
  | None => (effect w', Ok tt)
  end.

Definition RemoveAll_restore (w : world) : world * res unit := fs_op OpRemoveRestore w (fun w => set_dirs w (w_live w) None (w_old w)).
Definition RemoveAll_old (w : world) : world * res unit := fs_op OpRemoveOld w (fun w => set_dirs w (w_live w) (w_restore w) None).
Definition rename_live_old (w : world) : world * res unit := fs_op OpStash w (fun w => set_dirs w None (w_restore w) (w_live w)).
Definition rename_restore_live (w : world) : world * res unit := fs_op OpInstall w (fun w => set_dirs w (w_restore w) None (w_old w)).
Definition rename_old_live (w : world) : world * res unit := fs_op OpRollback w (fun w => set_dirs w (w_old w) (w_restore w) None).
Definition syncParentDir (w : world) : world * res unit := fs_op OpSyncParent w (fun w => w).

(** The error of a call that is ignored. *)
Definition ignore (r : world * res unit) : world := fst r.

(** [db.NewKV] on the live directory. *)
Definition NewKV_live (w : world) : world * res KV :=
  let (w, r) := fs_op OpReopen w (fun w => w) in
  let! (w, _u) := (w, r) in (w, kv_Open opts (default empty_disk (w_live w))).

(** [recover]: reopen the live directory after a failed swap. *)
Definition fsm_recover (w : world) (cause : error) : world * res unit :=
  let w := ignore (RemoveAll_restore w) in
  let (w, r) := NewKV_live w in
  let! (w, store) := (w, or_fatal r) in
  (set_fsm w (set_store (w_fsm w) store), Err cause).

(** [stashDir]: whether there was a directory to move aside. *)
Definition stashDir (w : world) : world * res bool :=
  let! (w, _u) := fs_op OpStat w (fun w => w) in
  match w_live w with
  | None => (w, Ok false)
  | Some _ => let! (w, _u) := rename_live_old w in (w, Ok true)
  end.

(** From the install to the end of [swapIn]. *)
Definition install (w : world) (stashed : bool) : world * res unit :=
  let (w, sync) := syncParentDir w in
  let (w, r) := NewKV_live w in
  let! (w, store) := (w, or_fatal r) in
  let w := set_fsm w (set_store (w_fsm w) store) in
  let! (w, _u) := (w, sync) in
  if stashed then RemoveAll_old w else (w, Ok tt).

Definition swapIn (w : world) : world * res unit :=
  let f := w_fsm w in
  if f_closed f then (ignore (RemoveAll_restore w), Err ErrFSMClosed) else
  (* the store is closed whether or not [Close] reports an error *)
  let! (w, kv) := (w, kv_Close (f_store f)) in
  let w := set_fsm w (set_store f kv) in
  let (w, r) := fs_op OpCloseStore w (fun w => w) in
  match r with
  | Err e => (ignore (RemoveAll_restore w), Err e)
  | _ =>
      let w := set_dirs w (Some (disk_of (f_store f))) (w_restore w) (w_old w) in
      match stashDir w with
      | (w, Err e) => fsm_recover w e
      | (w, Ok stashed) =>
          match rename_restore_live w with
          | (w, Err e) =>
              if stashed then
                let (w, rb) := rename_old_live w in
                let! (w, _u) := (w, or_fatal rb) in fsm_recover w e
              else fsm_recover w e
          | (w, Ok _) => install w stashed
          | (w, Panic s) => (w, Panic s)
          | (w, OutOfFuel) => (w, OutOfFuel)
          end
      | (w, Panic s) => (w, Panic s)
      | (w, OutOfFuel) => (w, OutOfFuel)
      end
  end.

(** The function [Restore] passes to [readSnapshot]. *)
Definition restore_key (fresh : KV) (key val : bytes) : KV * res unit :=
  let! (fresh, _u) := kv_SetEx fresh key val ModeUpsert in (fresh, Ok tt).

Definition Restore (w : world) (data : bytes) : world * res unit :=
  let! (w, _u) := RemoveAll_restore w in
  let! (w, _u) := RemoveAll_old w in
  let! (w, _u) := fs_op OpCreate w (fun w => set_dirs w (w_live w) (Some empty_disk) (w_old w)) in
  let! (w, fresh) := (w, kv_Open opts empty_disk) in
  match readSnapshot restore_key data fresh with
  | (fresh, Ok _) =>
      let! (w, _c) := (w, kv_Close fresh) in
      let (w, r) := fs_op OpCloseFresh w (fun w => set_dirs w (w_live w) (Some (disk_of fresh)) (w_old w)) in
      match r with
      | Err e => (ignore (RemoveAll_restore w), Err e)
      | _ => if negb locked then (ignore (RemoveAll_restore w), Err ErrRestoreBusy) else swapIn w
      end
  | (fresh, Err e) =>
      (* the error of this [Close] is dropped *)
      let! (w, _c) := (w, kv_Close fresh) in
      (ignore (RemoveAll_restore w), Err e)
  | (_, Panic s) => (w, Panic s)
  | (_, OutOfFuel) => (w, OutOfFuel)
  end.

(** [Close] of the state machine. *)
Definition fsm_Close (w : world) : world * res unit :=
  let f := w_fsm w in
  if f_closed f then (w, Ok tt) else
  let! (w, kv) := (w, kv_Close (f_store f)) in
  fs_op OpCloseFSM (set_fsm w (MkFSM kv true (f_applied f))) (fun w => w).

(** ** What Restore leaves behind *)

Lemma fs_op_same op w effect : (∀ w, w_fsm (effect w) = w_fsm w) → w_fsm (fst (fs_op op w effect)) = w_fsm w.
Proof. intros He. unfold fs_op. destruct (fault _ _); cbn; [done|]. by rewrite He. Qed.

Lemma ignore_restore w : w_fsm (ignore (RemoveAll_restore w)) = w_fsm w.
Proof. by apply fs_op_same. Qed.

Lemma kv_Open_open d kv : kv_Open opts d = Ok kv → kv_closed kv = false.
Proof.
  unfold kv_Open. intros (meta & _ & E)%bind_ok. destruct (openLog (d_log d)) as [log r].
  apply bind_ok in E as (mem & _ & E). apply bind_ok in E as (tables & _ & E). by injection E as <-.
Qed.

(** The store Restore has filled from the stream [data]. *)
Definition loaded (data : bytes) (fresh : KV) : Prop :=
  ∃ kv0, kv_Open opts empty_disk = Ok kv0 ∧ readSnapshot restore_key data kv0 = (fresh, Ok tt).

(** What a swap with the directory [d] leaves: the store of [d], the old store
    reopened, the old store closed because its [Close] failed, the old store
    untouched, or an aborted process. *)
Inductive swapped (f : FSM) (d : disk) : FSM → res unit → Prop :=
  | sw_installed kv r : kv_Open opts d = Ok kv → swapped f d (set_store f kv) r
  | sw_back kv e : kv_Open opts (disk_of (f_store f)) = Ok kv → swapped f d (set_store f kv) (Err e)
  | sw_closed kv n e : kv_Close (f_store f) = Ok kv → fault OpCloseStore n = Some e → swapped f d (set_store f kv) (Err e)
  | sw_kept : f_closed f = true → swapped f d f (Err ErrFSMClosed)
  | sw_abort f' r : ¬ returns r → swapped f d f' r.

Lemma NewKV_live_spec w : let (w', r) := NewKV_live w in
  w_fsm w' = w_fsm w ∧ ∀ kv, r = Ok kv → kv_Open opts (default empty_disk (w_live w)) = Ok kv.
Proof. unfold NewKV_live, fs_op. by destruct (fault _ _). Qed.

Lemma or_fatal_spec {A} (r : res A) : (∃ a, r = Ok a ∧ or_fatal r = Ok a) ∨ ¬ returns (or_fatal r).
Proof. destruct r; cbn; eauto. Qed.

Lemma or_fatal_stop {A B} (w : world) (r : res A) (k : world → A → world * res B) :
  ¬ returns (or_fatal r) → ¬ returns (snd (let! (w, a) := (w, or_fatal r) in k w a)).
Proof. by destruct r. Qed.

Lemma recover_spec w cause d f d' : w_live w = Some d → d = disk_of (f_store f) → (∀ kv, set_store (w_fsm w) kv = set_store f kv) →
  let (w', r) := fsm_recover w cause in swapped f d' (w_fsm w') r.
Proof.
  intros Hl -> Hf. unfold fsm_recover. pose proof (ignore_restore w) as Hf1.
  assert (w_live (ignore (RemoveAll_restore w)) = w_live w) as Hlw by (unfold RemoveAll_restore, fs_op; by destruct (fault _ _)).
  generalize dependent (ignore (RemoveAll_restore w)). intros w1 Hf1 Hlw. pose proof (NewKV_live_spec w1) as Hn.
  destruct (NewKV_live w1) as [w2 r2]. destruct Hn as (Hf2 & Ho). rewrite Hlw, Hl in Ho. cbn [default] in Ho.
  destruct (or_fatal_spec r2) as [(kv & -> & E)|E].
  - cbn. rewrite Hf2, Hf1, Hf. by apply sw_back, Ho.
  - pose proof (or_fatal_stop w2 r2 (fun w store => (set_fsm w (set_store (w_fsm w) store), Err (A := unit) cause)) E) as Hs.
    destruct (bindS _ _) as [w3 r3]. by apply sw_abort.
Qed.

Lemma fs_op_spec op w effect : (∀ w, w_fsm (effect w) = w_fsm w) →
  let (w', r) := fs_op op w effect in w_fsm w' = w_fsm w ∧
    ((r = Ok tt ∧ ∃ w1, w_fsm w1 = w_fsm w ∧ w_live w1 = w_live w ∧ w_restore w1 = w_restore w ∧ w_old w1 = w_old w ∧ w' = effect w1) ∨
     ∃ e, r = Err e ∧ fault op (w_clock w) = Some e ∧ w_live w' = w_live w ∧ w_restore w' = w_restore w ∧ w_old w' = w_old w).
Proof.
  intros He. unfold fs_op. destruct (fault _ _) as [e|]; cbn; [split; [done|]; right; by exists e|].
  rewrite He. split; [done|]. left. split; [done|]. by eexists (MkWorld _ _ _ _ _).
Qed.

Lemma install_spec w stashed f d : w_live w = Some d → (∀ kv, set_store (w_fsm w) kv = set_store f kv) →
  let (w', r) := install w stashed in swapped f d (w_fsm w') r.
Proof.
  intros Hl Hf. unfold install. pose proof (fs_op_spec OpSyncParent w (fun w => w) ltac:(done)) as Hop. unfold syncParentDir.
  destruct (fs_op _ w _) as [w1 sync]. destruct Hop as [Hf1 Hop].
  assert (w_live w1 = Some d) as Hl1 by (destruct Hop as [(_ & x & _ & Hx & _ & _ & ->)|(e & _ & _ & Hx & _)]; congruence). clear Hop.
  pose proof (NewKV_live_spec w1) as Hn. destruct (NewKV_live w1) as [w2 r2]. destruct Hn as (Hf2 & Ho). rewrite Hl1 in Ho. cbn [default] in Ho.
  destruct (or_fatal_spec r2) as [(kv & -> & E)|E].
  2: { pose proof (or_fatal_stop w2 r2 (fun w store => let w := set_fsm w (set_store (w_fsm w) store) in
         let! (w, _u) := (w, sync) in if stashed then RemoveAll_old w else (w, Ok tt)) E) as Hs.
       destruct (bindS _ _) as [w3 r3]. by apply sw_abort. }
  cbn [or_fatal bindS]. rewrite Hf2, Hf1, Hf. specialize (Ho _ eq_refl). destruct sync as [[]| | |]; cbn [bindS]; try by apply sw_installed.
  destruct stashed; [|by apply sw_installed]. unfold RemoveAll_old.
  pose proof (fs_op_same OpRemoveOld (set_fsm w2 (set_store f kv)) (fun w => set_dirs w (w_live w) (w_restore w) None) ltac:(done)) as Hx.
  destruct (fs_op _ _ _) as [w4 r4]. cbn in Hx. rewrite Hx. by apply sw_installed.
Qed.

(** Moving the live directory aside. *)
Lemma stashDir_spec w d : w_live w = Some d →
  let (w', r) := stashDir w in w_fsm w' = w_fsm w ∧ w_restore w' = w_restore w ∧
    ((r = Ok true ∧ w_old w' = Some d) ∨ (∃ e, r = Err e ∧ w_live w' = Some d)).
Proof.
  intros Hl. unfold stashDir, rename_live_old, fs_op. destruct (fault _ (w_clock w)) as [e|]; cbn [bindS w_live];
    [do 2 (split; [done|]); right; by exists e|].
  rewrite Hl. cbn. destruct (fault _ (S (w_clock w))) as [e|]; cbn; do 2 (split; [done|]); [right; by exists e|by left].
Qed.

(** In the model only the file operations report errors. *)
Lemma kv_Close_spec kv : (∃ kv', kv_Close kv = Ok kv') ∨ ¬ returns (kv_Close kv).
Proof.
  unfold kv_Close. case_if; [eauto|]. set (kv1 := set_imm _ _). generalize (kv_main (set_closed kv true)). intros ids.
  clearbody kv1. clear. revert kv1. induction ids as [|id ids IH]; intros kv1; cbn [foldM]; [left; by eexists|].
  destruct (release kv1 id) as [kv2|e|s|] eqn:E; rs; [apply IH| |right; by intros []..].
  unfold release, go_index in E. destruct (kv_tables kv1 !! id) as [t|]; [|done]. cbn in E. by destruct (0 <=? tr_refs t - 1).
Qed.

Lemma swapIn_spec w d : w_restore w = Some d → let (w', r) := swapIn w in swapped (w_fsm w) d (w_fsm w') r.
Proof.
  intros Hr. unfold swapIn. destruct (f_closed (w_fsm w)) eqn:Hc.
  { rewrite ignore_restore. by apply sw_kept. }
  destruct (kv_Close_spec (f_store (w_fsm w))) as [[kv Ec]|Ec].
  2: { destruct (kv_Close (f_store (w_fsm w))) as [kv|e|s|]; cbn in Ec; try done; cbn [bindS]; by (apply sw_abort; intros []). }
  rewrite Ec. cbn [bindS]. set (w1 := set_fsm w (set_store (w_fsm w) kv)).
  assert (w_fsm w1 = set_store (w_fsm w) kv ∧ w_restore w1 = Some d) as [Hf1 Hr1] by done. clearbody w1.
  pose proof (fs_op_spec OpCloseStore w1 (fun w => w) ltac:(done)) as Hop. destruct (fs_op _ w1 _) as [w2 r2]. destruct Hop as [Hf2 Hop].
  destruct Hop as [(-> & w0 & Hf0 & _ & Hr0 & _ & ->)|(e & -> & Hflt & _)].
  2: { rewrite ignore_restore, Hf2, Hf1. by eapply sw_closed. }
  set (w3 := set_dirs _ _ _ _). set (old := disk_of (f_store (w_fsm w))) in *.
  assert (w_fsm w3 = set_store (w_fsm w) kv ∧ w_restore w3 = Some d ∧ w_live w3 = Some old) as (Hf3 & Hr3 & Hl3)
    by (unfold w3; cbn; split_and!; congruence). clearbody w3. clear w0 w1 Hf0 Hf1 Hf2 Hr0 Hr1.
  pose proof (stashDir_spec w3 old Hl3) as Hs. destruct (stashDir w3) as [w4 r4]. destruct Hs as (Hf4 & Hr4 & Hs).
  rewrite Hf3 in Hf4. rewrite Hr3 in Hr4. destruct Hs as [[-> Ho4]|(e & -> & Hl4)].
  2: { eapply recover_spec; [done|done|]. intros kv'. by rewrite Hf4. }
  unfold rename_restore_live. pose proof (fs_op_spec OpInstall w4 (fun w => set_dirs w (w_restore w) None (w_old w)) ltac:(done)) as Hop.
  destruct (fs_op _ w4 _) as [w5 r5]. destruct Hop as [Hf5 Hop]. rewrite Hf4 in Hf5.
  destruct Hop as [(-> & w0 & Hf0 & _ & Hr0 & _ & ->)|(e & -> & _ & _ & _ & Ho5)].
  - apply install_spec; [cbn; congruence|]. intros kv'. by rewrite Hf5.
  - rewrite Ho4 in Ho5. unfold rename_old_live.
    pose proof (fs_op_spec OpRollback w5 (fun w => set_dirs w (w_old w) (w_restore w) None) ltac:(done)) as Hop.
    destruct (fs_op _ w5 _) as [w6 r6]. destruct Hop as [Hf6 Hop]. rewrite Hf5 in Hf6.
    destruct Hop as [(-> & w0 & Hf0 & _ & _ & Ho0 & ->)|(e' & -> & _)]; cbn [or_fatal bindS fatal]; [|by (apply sw_abort; intros [])].
    eapply recover_spec; [cbn; rewrite Ho0; exact Ho5|done|]. intros kv'. by rewrite Hf6.
Qed.

(** What Restore leaves, whatever the stream and whatever file operations fail. *)
Inductive restored (f : FSM) (data : bytes) : FSM → res unit → Prop :=
  | rs_kept e : restored f data f (Err e)
  | rs_abort f' r : ¬ returns r → restored f data f' r
  | rs_swapped fresh f' r : loaded data fresh → swapped f (disk_of fresh) f' r → restored f data f' r.

Lemma Restore_spec w data : let (w', r) := Restore w data in restored (w_fsm w) data (w_fsm w') r.
Proof.
  unfold Restore.
  assert (∀ name (op : world → world) (w0 : world) (k : world → unit → world * res unit), (∀ w, w_fsm (op w) = w_fsm w) → w_fsm w0 = w_fsm w →
    (∀ w', w_fsm w' = w_fsm w → let (w2, r) := k w' tt in restored (w_fsm w) data (w_fsm w2) r) →
    let (w2, r) := bindS (fs_op name w0 op) k in restored (w_fsm w) data (w_fsm w2) r) as Hbind.
  { intros name op w0 k He Hf0 Hk. pose proof (fs_op_spec name w0 op He) as Hop. destruct (fs_op name w0 op) as [w' r]. destruct Hop as [Hf Hop].
    rewrite Hf0 in Hf. destruct Hop as [(-> & _)|(e & -> & _)]; cbn [bindS]; [by apply Hk|]. rewrite Hf. apply rs_kept. }
  apply Hbind; [done|done|]. intros w1 Hf1. apply Hbind; [done|done|]. intros w2 Hf2. apply Hbind; [done|done|]. intros w3 Hf3.
  destruct (kv_Open opts empty_disk) as [kv0|e|s|] eqn:Eo; cbn [bindS]; try (rewrite Hf3; apply rs_kept); try by (apply rs_abort; intros []).
  destruct (readSnapshot restore_key data kv0) as [fresh [[]|e|s|]] eqn:Er; try by (apply rs_abort; intros []).
  - destruct (kv_Close_spec fresh) as [[kv1 Ec]|Ec];
      [|destruct (kv_Close fresh) as [kv1|e|s|]; cbn in Ec; try done; cbn [bindS]; by (apply rs_abort; intros [])].
    rewrite Ec. cbn [bindS]. pose proof (fs_op_spec OpCloseFresh w3 (fun w => set_dirs w (w_live w) (Some (disk_of fresh)) (w_old w)) ltac:(done)) as Hop.
    destruct (fs_op _ w3 _) as [w4 r4]. destruct Hop as [Hf4 Hop]. rewrite Hf3 in Hf4.
    destruct Hop as [(-> & w0 & _ & _ & _ & _ & Hw4)|(e & -> & _)]; [|rewrite ignore_restore, Hf4; apply rs_kept].
    destruct locked; cbn [negb]; [|rewrite ignore_restore, Hf4; apply rs_kept].
    pose proof (swapIn_spec w4 (disk_of fresh) ltac:(by rewrite Hw4)) as Hs. destruct (swapIn w4) as [w5 r5]. rewrite Hf4 in Hs.
    eapply rs_swapped; [|exact Hs]. by exists kv0.
  - destruct (kv_Close_spec fresh) as [[kv1 Ec]|Ec];
      [|destruct (kv_Close fresh) as [kv1|e'|s|]; cbn in Ec; try done; cbn [bindS]; by (apply rs_abort; intros [])].
    rewrite Ec. cbn [bindS]. rewrite ignore_restore, Hf3. apply rs_kept.
Qed.

End restore.
