(* ===== verification/SnapshotProofs.v ===== *)
(** * A snapshot carries the whole state

    [fsm_Snapshot] and [Persist] on one node, [Restore] on another: the second
    ends with the live entries of the first. *)

From Stdlib Require Import ZArith Lia.
From Stdlib.Strings Require Import Byte.
From stdpp Require Import base list numbers sorting.
From S2P Require Import Prelude GoLib SortedSeq SortedKV SortedArray Merge File Entry SortedFile SortedFileProofs KVIterators.
From S2P Require Import Log LogProofs Metadata KV KVCompact KVProofs KVCompactProofs KVSystem KVOps LogHistory Reopen.
From S2P Require Import TxKV TxInstance Table DB Relational Refine Command Snapshot FSM FSMProofs Restore.

Open Scope Z_scope.

Section snapshot.
Context `{BL : BloomLaws} `{MetaJson} `{CommandJson}.

(** ** Taking a snapshot *)

Lemma fsm_Snapshot_spec f m n : fsm_state f m n →
  ∃ f' s, fsm_Snapshot f = (f', Ok s) ∧ At (sn_iter s) m 0 ∧ fsm_state f' m n ∧ f_applied f' = f_applied f.
Proof.
  intros [(init & commits & Hi & Hm & Hn) Hr Ho Hc]. unfold fsm_Snapshot, kv_IterAll. rewrite Hc.
  destruct (at_work_new (f_store f) init commits Hi Hr Ho) as (kv1 & id & tx & -> & Hw & Hu). cbn [bindS].
  rewrite (proj2 (go_index_ok _ _ _) (aw_tx _ _ _ _ _ _ _ Hw)), set_no_updates by done. cbn [bindS].
  destruct (tx_IterAll_spec init commits tx (length commits) (i_init _ _ _ _ Hi) (aw_reads _ _ _ _ _ _ _ Hw)) as (it & -> & Hat).
  cbn [bindS]. eexists _, _. split; [reflexivity|]. cbn [sn_iter]. unfold tx_view in Hat. rewrite Hu in Hat. unfold committed_view in Hm.
  change (overlay (arr_ents arr_empty) ?x) with x in Hat. rewrite Hm in Hat. split; [done|]. split; [|done].
  split; cbn; [exists init, commits; split_and!; [apply Hw|done|done]|apply Hw|apply Hw|done].
Qed.

Lemma Persist_spec m s : At (sn_iter s) m 0 → Forall pair_small (pairs m) →
  Persist s = Ok (snapshot_bytes (pairs m)).
Proof. intros Hat Hs. by apply writeSnapshot_spec. Qed.

(** ** Loading it into a new store *)

Section load.
Context (opts : KVOptions).

(** A store being filled with the entries of [us], in order. *)
Record filling (kv : KV) (us : list ent) : Prop := {
  fi_inv : ∃ commits, inv kv [] commits ∧ (length commits ≤ length us)%nat;
  fi_refs : refs_ok kv;
  fi_open : kv_closed kv = false;
  fi_logged : logged kv us;
  fi_seq : l_seq (kv_log kv) ≤ 2 * Z.of_nat (length us);
}.

Lemma absent_after us e l : sorted (us ++ e :: l) → assoc us (e_key e) = None.
Proof.
  intros Hs. destruct (assoc us (e_key e)) as [x|] eqn:E; [|done]. pose proof (assoc_Some_key _ _ _ E) as Hk. apply assoc_elem in E.
  pose proof (StronglySorted_app_1_elem_of ent_lt us (e :: l) x e Hs E ltac:(by left)) as Hlt. unfold ent_lt in Hlt.
  rewrite Hk in Hlt. by apply bytes_lt_irrefl in Hlt.
Qed.

Lemma log_mem_self us : sorted us → log_mem us = us.
Proof.
  intros Hs. apply sorted_ext; [apply log_mem_sorted|done|]. intros k. unfold log_mem. rewrite assoc_overlay, assoc_reverse by (done || constructor).
  by destruct (assoc us k).
Qed.

Lemma lives_all m : Forall (fun e => live e = true) m → lives m = m.
Proof. induction 1 as [|e m He _ IH]; [done|]. unfold lives in *. by rewrite filter_cons_True, IH. Qed.

Lemma restore_key_spec kv us e l : filling kv us → sorted (us ++ e :: l) → live e = true → small e →
  Z.of_nat (length us) < 2 ^ 62 →
  ∃ kv', restore_key kv (e_key e) (e_val e) = (kv', Ok tt) ∧ filling kv' (us ++ [e]).
Proof.
  intros [(commits & Hi & Hn) Hr Ho Hl Hq] Hs Hlv Hsm Hlen. destruct e as [k v []]; [done|]. cbn [e_key e_val].
  assert (sorted us) as Hsu by (by eapply StronglySorted_app_1_l).
  assert (current [] commits k = None) as Hcur.
  { rewrite (logged_current kv [] commits us) by done. rewrite log_mem_self by done.
    change k with (e_key (Ent k v false)). by rewrite (absent_after us (Ent k v false) l). }
  destruct (SetEx_logged kv [] commits us k v Hi Hr Ho ltac:(lia) Hl (fun _ => Hsm) ltac:(lia)) as (kv' & b & E & Hl' & Hr' & Ho' & Hi' & Hq').
  rewrite Hcur in *. cbn in Hl', Hi'. unfold restore_key. rewrite E. cbn [bindS]. exists kv'. split; [done|].
  split; try done; [|rewrite length_app; cbn; lia]. exists (commits ++ [[Ent k v false]]). split; [done|]. rewrite !length_app. cbn. lia.
Qed.

Lemma visit_restore l : ∀ kv us, filling kv us → sorted (us ++ l) → Forall (fun e => live e = true) l → Forall small l →
  Z.of_nat (length us + length l) < 2 ^ 62 →
  ∃ kv', visit_all restore_key (pairs l) kv = (kv', Ok tt) ∧ filling kv' (us ++ l).
Proof.
  induction l as [|e l IH]; intros kv us Hf Hs Hlv Hsm Hlen; cbn [pairs map visit_all]; [exists kv; by rewrite app_nil_r|].
  apply Forall_cons in Hlv as [He Hlv], Hsm as [Hse Hsm]. cbn [length] in Hlen.
  destruct (restore_key_spec kv us e l Hf Hs He Hse ltac:(lia)) as (kv' & -> & Hf'). cbn [bindS].
  destruct (IH kv' (us ++ [e])) as (kv2 & E & Hf2); try done; [by rewrite <- (assoc_L (++))|rewrite length_app; cbn; lia|].
  fold (pairs l). rewrite E. exists kv2. split; [done|]. by rewrite <- (assoc_L (++)) in Hf2.
Qed.

Lemma load_spec m : view_ok m → Forall pair_ok (pairs m) → Forall small m → Z.of_nat (length m) < 2 ^ 62 →
  ∃ fresh, loaded opts (snapshot_bytes (pairs m)) fresh ∧ logged fresh m.
Proof.
  intros [Hs Hl] Hp Hsm Hlen. destruct (fresh_logged opts) as (kv0 & E & Hlg & Hlog & Hi & Hr & Ho).
  destruct (visit_restore m kv0 []) as (fresh & Ev & Hf); try done.
  - split; try done; [by exists []|]. rewrite Hlog. cbn. lia.
  - exists fresh. split; [|apply Hf]. exists kv0. split; [done|]. by rewrite readSnapshot_spec.
Qed.
End load.

(** ** Restoring it *)

Definition no_fault (op : fs_name) (n : nat) : option error := None.

Lemma Close_ok kv : refs_ok kv → ∃ kv', kv_Close kv = Ok kv'.
Proof.
  intros Hr. unfold kv_Close. case_if; [eauto|].
  destruct (releases_refs (kv_main kv) (set_imm (set_main (set_closed kv true) []) None) (snaps (kv_txs kv) (kv_ongoing kv))) as (kv' & E & _);
    [by apply (refs_for_tables kv)|].
  cbn [kv_main set_closed]. rewrite E. rs. eauto.
Qed.

Lemma Close_no_tables kv : kv_main kv = [] → ∃ kv', kv_Close kv = Ok kv'.
Proof. intros Hm. unfold kv_Close. case_if; [eauto|]. cbn [kv_main set_closed]. rewrite Hm. cbn [foldM]. rs. eauto. Qed.

(** The swap, when no file operation fails. *)
Lemma swapIn_ok opts w d kv : kv_closed (f_store (w_fsm w)) = false → refs_ok (f_store (w_fsm w)) → f_closed (w_fsm w) = false →
  w_restore w = Some d → kv_Open opts d = Ok kv →
  ∃ w', swapIn opts no_fault w = (w', Ok tt) ∧ w_fsm w' = set_store (w_fsm w) kv ∧ w_old w' = None ∧ w_restore w' = None.
Proof.
  intros Ho Hr Hc Hd Hk. destruct (Close_ok _ Hr) as (kv1 & Ecl). unfold swapIn. rewrite Hc, Ecl. cbn.
  rewrite Hd. unfold NewKV_live, fs_op. cbn. rewrite Hk. cbn. eexists. split; [reflexivity|]. by cbn.
Qed.

(** ** Restoring any stream *)

(** A new store that can take [n] more writes. *)
Definition writes_left (n : nat) (kv : KV) : Prop :=
  ∃ commits us, inv kv [] commits ∧ refs_ok kv ∧ kv_closed kv = false ∧ logged kv us ∧
    Z.of_nat (length commits + n) < 2 ^ 62 ∧ l_seq (kv_log kv) + 2 * Z.of_nat n < 2 ^ 63.

Lemma restore_key_total n kv k v : writes_left (S n) kv →
  let (kv', r) := restore_key kv k v in (r = Ok tt ∧ writes_left n kv') ∨ (refs_ok kv' ∧ ∃ e, r = Err e).
Proof.
  intros (commits & us & Hi & Hr & Ho & Hl & Hn & Hq). unfold restore_key.
  destruct (decide (mode_updates ModeUpsert (current [] commits k) v = true → small (Ent k v false))) as [Hs|Hs].
  - destruct (SetEx_logged kv [] commits us k v Hi Hr Ho ltac:(lia) Hl Hs ltac:(lia)) as (kv' & b & -> & Hl' & Hr' & Ho' & Hi' & Hq').
    cbn [bindS]. left. split; [done|]. eexists _, _. split_and!; try done; [|lia]. case_decide; rewrite ?length_app; cbn; lia.
  - destruct (mode_updates ModeUpsert (current [] commits k) v) eqn:Hup; [|by destruct Hs].
    assert (¬ small (Ent k v false)) as Hns by (intros ?; by apply Hs). destruct (lg_log _ _ Hl) as (ec & Hok & _).
    destruct (SetEx_refused kv [] commits Hi Hr Ho k v ErrEntryTooLarge Hup ltac:(lia)) as (kv' & -> & Hr').
    + by eapply updateLog_too_large.
    + cbn [bindS]. right. eauto.
Qed.

(** Restore from any stream: the new store is always closed again, and unless
    the whole stream was accepted the state machine is not touched. *)
Lemma Restore_refused opts fault locked w data : Z.of_nat (length data) < 2 ^ 60 →
  (∀ fresh, ¬ loaded opts data fresh) →
  ∃ w' e, Restore opts fault locked w data = (w', Err e) ∧ w_fsm w' = w_fsm w.
Proof.
  intros Hlen Hno. pose proof (Restore_spec opts fault locked w data) as Hs.
  assert (returns (snd (Restore opts fault locked w data))) as Hret.
  { destruct (fresh_logged opts) as (kv0 & E0 & Hlg & Hlog & Hi & Hr & Ho).
    pose proof (readSnapshot_returns restore_key writes_left refs_ok restore_key_total
      ltac:(by intros n st (? & ? & _ & ? & _)) data kv0) as Hrd.
    unfold Restore. unfold RemoveAll_restore, RemoveAll_old.
    assert (∀ name (op : world → world) (w0 : world) (k : world → unit → world * res unit),
      (∀ w', returns (snd (k w' tt))) → returns (snd (bindS (fs_op fault name w0 op) k))) as Hbind.
    { intros name op w0 k Hk. unfold fs_op. destruct (fault _ _); [done|]. apply Hk. }
    do 3 (apply Hbind; intros ?). unfold empty_disk. rewrite E0. cbn [bindS].
    destruct (readSnapshot restore_key data kv0) as [fresh r] eqn:Er. destruct Hrd as [Hret Hq].
    { exists [], []. split_and!; try done; [cbn; lia|rewrite Hlog; cbn; lia]. }
    destruct (Close_ok fresh Hq) as (kv1 & Ec). destruct r as [[]|e|s|]; try done; [|rewrite Ec; done].
    exfalso. apply (Hno fresh). exists kv0. split; [exact E0|done]. }
  destruct (Restore opts fault locked w data) as [w' r]. exists w'. destruct Hs as [e|f' r Hnr|fresh f' r Hld _]; [eauto|done|].
  exfalso. by apply (Hno fresh).
Qed.

Lemma fs_op_ok op w effect : (∀ w, w_fsm (effect w) = w_fsm w) →
  ∃ w', fs_op no_fault op w effect = (effect w', Ok tt) ∧ w_fsm (effect w') = w_fsm w.
Proof. intros He. eexists. split; [reflexivity|]. by rewrite He. Qed.

Lemma Restore_ok opts w m0 n0 m : fsm_state (w_fsm w) m0 n0 →
  view_ok m → Forall pair_ok (pairs m) → Forall small m → Z.of_nat (length m) < 2 ^ 62 →
  ∃ w', Restore opts no_fault true w (snapshot_bytes (pairs m)) = (w', Ok tt) ∧ fsm_state (w_fsm w') m 0 ∧
    f_applied (w_fsm w') = f_applied (w_fsm w) ∧ w_old w' = None ∧ w_restore w' = None.
Proof.
  intros [_ Hr Ho Hc] Hv Hp Hsm Hlen. destruct (load_spec opts m Hv Hp Hsm Hlen) as (fresh & (kv0 & E0 & El) & Hlg).
  destruct (Close_no_tables fresh (lg_main _ _ Hlg)) as (kv1 & Ec).
  destruct (reopen_logged opts fresh m Hlg) as (kv2 & E2 & Hi & Hr2 & Ho2 & _).
  unfold Restore, RemoveAll_restore, RemoveAll_old.
  destruct (fs_op_ok OpRemoveRestore w (fun w => set_dirs w (w_live w) None (w_old w)) ltac:(done)) as (w1 & -> & Hf1). cbn [bindS].
  generalize dependent (set_dirs w1 (w_live w1) None (w_old w1)). intros w2 Hf2.
  destruct (fs_op_ok OpRemoveOld w2 (fun w => set_dirs w (w_live w) (w_restore w) None) ltac:(done)) as (w3 & -> & Hf3). cbn [bindS].
  generalize dependent (set_dirs w3 (w_live w3) (w_restore w3) None). intros w4 Hf4.
  destruct (fs_op_ok OpCreate w4 (fun w => set_dirs w (w_live w) (Some empty_disk) (w_old w)) ltac:(done)) as (w5 & -> & Hf5). cbn [bindS].
  generalize dependent (set_dirs w5 (w_live w5) (Some empty_disk) (w_old w5)). intros w6 Hf6.
  rewrite E0. cbn [bindS]. rewrite El, Ec. cbn [bindS negb].
  destruct (fs_op_ok OpCloseFresh w6 (fun w => set_dirs w (w_live w) (Some (disk_of fresh)) (w_old w)) ltac:(done)) as (w7 & -> & Hf7).
  assert (w_restore (set_dirs w7 (w_live w7) (Some (disk_of fresh)) (w_old w7)) = Some (disk_of fresh)) as Hd by done.
  generalize dependent (set_dirs w7 (w_live w7) (Some (disk_of fresh)) (w_old w7)). intros w8 Hf8 Hd.
  assert (w_fsm w8 = w_fsm w) as Hf by congruence. rewrite <- Hf in Hr, Ho, Hc |- *.
  destruct (swapIn_ok opts w8 (disk_of fresh) kv2 Ho Hr Hc Hd E2) as (w' & -> & Hf' & Hold & Hres).
  exists w'. split; [done|]. rewrite Hf'. split; [|done]. split; cbn; try done.
  exists m, []. rewrite <- (log_mem_self m) at 1 by apply Hv. split; [done|]. split; [|done].
  unfold committed_view. change (state_at m [] (length [])) with m. by apply lives_all, Hv.
Qed.

End snapshot.
