(* ===== verification/AppliedIndex.v ===== *)
(** * Waiting for the applied index: the concurrent part of cluster/fsm.go

    [advanceApplied] raises an atomic index, replaces the wake-up channel and
    closes the old one; [WaitForAppliedIndex] takes the channel, checks the
    index and blocks on the channel.  Any number of both run interleaved.  A
    thread is where a call is in its code; one atomic operation or critical
    section is one step; a schedule says which thread runs next, and whether the
    context of a blocked waiter is found done. *)

From Stdlib Require Import ZArith Lia.
From stdpp Require Import base list numbers.
From S2P Require Import Prelude GoLib.

Open Scope Z_scope.

(** The fields of the state machine the calls share: [applied], [idxCh], and the
    channels made and closed so far. *)
Record shared := MkShared { sh_applied : Z; sh_idxCh : nat; sh_made : nat; sh_closed : list nat }.

Inductive thread :=
  (* advanceApplied(idx) *)
  | ALoad (idx : Z)
  | ACas (idx cur : Z)
  | ASwap
  | AClose (ch : nat)
  | ADone
  (* WaitForAppliedIndex(ctx, idx) *)
  | WTake (idx : Z)
  | WCheck (idx : Z) (ch : nat)
  | WSelect (idx : Z) (ch : nat)
  | WDone (idx : Z) (r : option error).

Definition set_applied (s : shared) (idx : Z) : shared := MkShared idx (sh_idxCh s) (sh_made s) (sh_closed s).

(** One step of a thread; a blocked waiter stays where it is. *)
Definition thread_step (s : shared) (t : thread) (cancelled : bool) : res (shared * thread) :=
  match t with
  | ALoad idx => Ok (s, if idx <=? sh_applied s then ADone else ACas idx (sh_applied s))
  | ACas idx cur => if sh_applied s =? cur then Ok (set_applied s idx, ASwap) else Ok (s, ALoad idx)
  | ASwap => Ok (MkShared (sh_applied s) (sh_made s) (S (sh_made s)) (sh_closed s), AClose (sh_idxCh s))
  | AClose ch =>
      if bool_decide (ch ∈ sh_closed s) then Panic "close of closed channel"
      else Ok (MkShared (sh_applied s) (sh_idxCh s) (sh_made s) (ch :: sh_closed s), ADone)
  | ADone => Ok (s, ADone)
  | WTake idx => Ok (s, WCheck idx (sh_idxCh s))
  | WCheck idx ch => Ok (s, if idx <=? sh_applied s then WDone idx None else WSelect idx ch)
  | WSelect idx ch =>
      if cancelled then Ok (s, WDone idx (Some ctx_Err))
      else if bool_decide (ch ∈ sh_closed s) then Ok (s, WTake idx) else Ok (s, WSelect idx ch)
  | WDone idx r => Ok (s, WDone idx r)
  end.

Definition state : Type := shared * list thread.

Definition sched_step (st : state) (x : nat * bool) : res state :=
  match st.2 !! x.1 with
  | None => Ok st
  | Some t => '(s, t) ← thread_step st.1 t x.2; Ok (s, <[x.1 := t]> st.2)
  end.

Definition run (st : state) (sched : list (nat * bool)) : res state := foldM sched_step st sched.

(** The calls before any of them runs. *)
Definition starting (t : thread) : Prop :=
  match t with ALoad _ | WTake _ => True | _ => False end.

Definition start (applied : Z) (ts : list thread) : state := (MkShared applied 0 1 [], ts).

(** ** The invariant *)

Record ai_inv (st : state) : Prop := {
  ai_cas j idx cur : st.2 !! j = Some (ACas idx cur) → cur < idx;
  ai_current : (sh_idxCh st.1 < sh_made st.1)%nat ∧ ¬ (sh_idxCh st.1 ∈ sh_closed st.1);
  ai_closed c : c ∈ sh_closed st.1 → (c < sh_made st.1)%nat;
  ai_close j c : st.2 !! j = Some (AClose c) → ¬ (c ∈ sh_closed st.1) ∧ c ≠ sh_idxCh st.1 ∧ (c < sh_made st.1)%nat;
  ai_once j j' c : st.2 !! j = Some (AClose c) → st.2 !! j' = Some (AClose c) → j = j';
  (** a channel that was replaced is closed, or about to be *)
  ai_pending c : (c < sh_made st.1)%nat → c ∈ sh_closed st.1 ∨ c = sh_idxCh st.1 ∨ ∃ j, st.2 !! j = Some (AClose c);
  ai_held j idx c : st.2 !! j = Some (WCheck idx c) ∨ st.2 !! j = Some (WSelect idx c) → (c < sh_made st.1)%nat;
  (** a waiter whose index was reached waits on a channel somebody is about to replace *)
  ai_awake j idx : st.2 !! j = Some (WSelect idx (sh_idxCh st.1)) → idx ≤ sh_applied st.1 → ∃ j', st.2 !! j' = Some ASwap;
  ai_done j idx : st.2 !! j = Some (WDone idx None) → idx ≤ sh_applied st.1;
}.

Lemma start_inv applied ts : Forall starting ts → ai_inv (start applied ts).
Proof.
  intros Hs. rewrite Forall_lookup in Hs. split; cbn.
  - intros j idx cur Hj. by apply Hs in Hj.
  - split; [lia|]. by intros ?%elem_of_nil.
  - by intros c ?%elem_of_nil.
  - intros j c Hj. by apply Hs in Hj.
  - intros j j' c Hj. by apply Hs in Hj.
  - intros c Hc. right. left. lia.
  - intros j idx c [Hj|Hj]; by apply Hs in Hj.
  - intros j idx Hj. by apply Hs in Hj.
  - intros j idx Hj. by apply Hs in Hj.
Qed.

(** The threads after thread [j] has become [t]. *)
Lemma lookup_step (ts : list thread) j t i x :
  (j < length ts)%nat → <[j := t]> ts !! i = Some x → (i = j ∧ x = t) ∨ (i ≠ j ∧ ts !! i = Some x).
Proof. intros Hj Hx. apply list_lookup_insert_Some in Hx as [(-> & -> & _)|[Hne Hx]]; auto. Qed.

Lemma other_step (ts : list thread) j t0 t i x :
  ts !! j = Some t0 → ts !! i = Some x → x ≠ t0 → <[j := t]> ts !! i = Some x.
Proof. intros Hj Hi Hne. rewrite list_lookup_insert_ne; [done|]. intros ->. congruence. Qed.

Lemma self_step (ts : list thread) j t0 t : ts !! j = Some t0 → <[j := t]> ts !! j = Some t.
Proof. intros Hj. apply list_lookup_insert_eq. by eapply lookup_lt_Some. Qed.

Ltac thread_cases :=
  repeat match goal with
  | H : <[_ := _]> _ !! _ = Some _ |- _ => apply lookup_step in H as [[? ?]|[? ?]]; [| |by eapply lookup_lt_Some]
  end; simplify_eq.

(** A step that leaves the channels alone. *)
Lemma quiet_inv s ts j t0 t applied :
  ai_inv (s, ts) → ts !! j = Some t0 → (∀ c, t0 ≠ AClose c) →
  match t with
  | AClose _ => False
  | ACas idx cur => cur < idx
  | WCheck _ c => (c < sh_made s)%nat
  | WSelect idx c => (c < sh_made s)%nat ∧ (t0 = t ∨ applied < idx)
  | WDone idx None => idx ≤ applied
  | _ => True
  end →
  sh_applied s ≤ applied →
  t = ASwap ∨ (t0 ≠ ASwap ∧ applied = sh_applied s) → ai_inv (set_applied s applied, <[j := t]> ts).
Proof.
  intros [A0 A1 A2 A3 A4 A5 A6 A7 A8] Hj H0 Ht Hup Hsw. cbn in *. split; cbn; try done.
  - intros i idx cur Hi. thread_cases; try done; eauto.
  - intros i c Hi. thread_cases; try done; eauto.
  - intros i i' c Hi Hi'. thread_cases; try done; eauto.
  - intros c Hc. destruct (A5 c Hc) as [?|[?|[i Hi]]]; auto. right. right. exists i. eapply other_step; eauto.
  - intros i idx c [Hi|Hi]; thread_cases; try done; eauto. by destruct Ht.
  - intros i idx Hi Hle. destruct Hsw as [->|[Hns ->]]; [exists j; by eapply self_step|].
    assert (ts !! i = Some (WSelect idx (sh_idxCh s))) as Hi0.
    { thread_cases; [|done]. destruct Ht as [_ [->|Hlt]]; [done|lia]. }
    destruct (A7 i idx Hi0 Hle) as [j' Hj']. exists j'. eapply other_step; eauto.
  - intros i idx Hi. thread_cases; [done|]. assert (idx ≤ sh_applied s) by eauto. lia.
Qed.

(** Replacing the channel. *)
Lemma swap_inv s ts j : ai_inv (s, ts) → ts !! j = Some ASwap →
  ai_inv (MkShared (sh_applied s) (sh_made s) (S (sh_made s)) (sh_closed s), <[j := AClose (sh_idxCh s)]> ts).
Proof.
  intros [A0 A1 A2 A3 A4 A5 A6 A7 A8] Hj. cbn in *. split; cbn.
  - intros i idx cur Hi. thread_cases; try done; eauto.
  - split; [lia|]. intros Hc%A2. lia.
  - intros c Hc%A2. lia.
  - intros i c Hi. thread_cases; [split_and!; [apply A1|lia|lia]|]. edestruct A3 as (? & ? & ?); [done|]. split_and!; [done|lia|lia].
  - intros i i' c Hi Hi'. thread_cases; try done; [by edestruct A3 as (? & ? & ?)..|]. eauto.
  - intros c Hc. destruct (decide (c = sh_made s)) as [->|Hne]; [auto|].
    destruct (A5 c) as [?|[->|[i Hi]]]; [lia|auto|right; right; exists j; by eapply self_step|].
    right. right. exists i. eapply other_step; eauto.
  - intros i idx c [Hi|Hi]; thread_cases; [assert (c < sh_made s)%nat by eauto; lia..].
  - intros i idx Hi Hle. thread_cases. assert (sh_made s < sh_made s)%nat by eauto. lia.
  - intros i idx Hi. thread_cases. eauto.
Qed.

(** Closing a channel that was replaced. *)
Lemma close_inv s ts j ch : ai_inv (s, ts) → ts !! j = Some (AClose ch) →
  ai_inv (MkShared (sh_applied s) (sh_idxCh s) (sh_made s) (ch :: sh_closed s), <[j := ADone]> ts).
Proof.
  intros [A0 A1 A2 A3 A4 A5 A6 A7 A8] Hj. cbn in *. destruct (A3 j ch Hj) as (C1 & C2 & C3). split; cbn.
  - intros i idx cur Hi. thread_cases; try done; eauto.
  - split; [apply A1|]. intros [?|?]%elem_of_cons; [congruence|by apply A1].
  - intros c [->|Hc]%elem_of_cons; auto.
  - intros i c Hi. thread_cases. destruct (A3 i c) as (D1 & D2 & D3); [done|]. split_and!; try done.
    intros [->|?]%elem_of_cons; [|done]. eauto.
  - intros i i' c Hi Hi'. thread_cases. eauto.
  - intros c Hc. destruct (decide (c = ch)) as [->|Hne]; [left; by left|].
    destruct (A5 c Hc) as [?|[?|[i Hi]]]; [left; by right|auto|]. right. right. exists i. eapply other_step; eauto. congruence.
  - intros i idx c [Hi|Hi]; thread_cases; try done; eauto.
  - intros i idx Hi Hle. thread_cases. edestruct A7 as [j' Hj']; [done|done|]. exists j'. eapply other_step; eauto.
  - intros i idx Hi. thread_cases. eauto.
Qed.

Lemma set_applied_same s : set_applied s (sh_applied s) = s.
Proof. by destruct s. Qed.

(** No channel is closed twice, and the index never moves backwards. *)
Lemma sched_step_inv st x : ai_inv st →
  ∃ st', sched_step st x = Ok st' ∧ ai_inv st' ∧ sh_applied st.1 ≤ sh_applied st'.1 ∧ length st'.2 = length st.2.
Proof.
  destruct st as [s ts], x as [j c]. intros Hinv. unfold sched_step. cbn [fst snd].
  destruct (ts !! j) as [t0|] eqn:Hj; [|by exists (s, ts)].
  assert (∃ s' t, thread_step s t0 c = Ok (s', t) ∧ ai_inv (s', <[j := t]> ts) ∧ sh_applied s ≤ sh_applied s') as (s' & t & -> & Hi & Hle).
  2: { rs. eexists. split; [reflexivity|]. cbn. by rewrite length_insert. }
  pose proof (fun t => quiet_inv s ts j t0 t (sh_applied s) Hinv Hj) as Hq. rewrite set_applied_same in Hq.
  pose proof (fun t h1 h2 h3 => Hq t h1 h2 (Z.le_refl _) h3) as Hq'. clear Hq. rename Hq' into Hq.
  assert (∀ t, thread_step s t0 c = Ok (s, t) → ai_inv (s, <[j := t]> ts) →
    ∃ s' t, thread_step s t0 c = Ok (s', t) ∧ ai_inv (s', <[j := t]> ts) ∧ sh_applied s ≤ sh_applied s') as Hsame by eauto using Z.le_refl.
  destruct t0 as [idx|idx cur| |ch| |idx|idx ch|idx ch|idx r]; cbn [thread_step] in Hsame |- *.
  - eapply Hsame; [reflexivity|]. apply Hq; [done| |right; done]. destruct (Z.leb_spec idx (sh_applied s)); [done|lia].
  - destruct (Z.eqb_spec (sh_applied s) cur) as [<-|Hc]; [|eapply Hsame; [reflexivity|]; apply Hq; [done|done|by right]].
    eexists _, _. split; [reflexivity|]. pose proof (ai_cas _ Hinv j idx _ Hj). split; [|cbn; lia].
    eapply quiet_inv; [done|done|done|done|lia|by left].
  - eexists _, _. split; [reflexivity|]. split; [by apply swap_inv|cbn; lia].
  - rewrite bool_decide_false by (apply (ai_close _ Hinv j ch Hj)).
    eexists _, _. split; [reflexivity|]. split; [by apply close_inv|cbn; lia].
  - eapply Hsame; [reflexivity|]. apply Hq; [done|done|by right].
  - eapply Hsame; [reflexivity|]. apply Hq; [done|apply (ai_current _ Hinv)|by right].
  - eapply Hsame; [reflexivity|]. pose proof (ai_held _ Hinv j idx ch (or_introl Hj)). apply Hq; [done| |by right].
    destruct (Z.leb_spec idx (sh_applied s)); [done|]. split; [done|by right].
  - pose proof (ai_held _ Hinv j idx ch (or_intror Hj)).
    destruct c; [|case_bool_decide]; (eapply Hsame; [reflexivity|]); (apply Hq; [done| |by right]); [done|done|]. split; [done|by left].
  - eapply Hsame; [reflexivity|]. apply Hq; [done| |by right]. destruct r; [done|]. by apply (ai_done _ Hinv j).
Qed.

Lemma run_inv sched : ∀ st, ai_inv st →
  ∃ st', run st sched = Ok st' ∧ ai_inv st' ∧ sh_applied st.1 ≤ sh_applied st'.1 ∧ length st'.2 = length st.2.
Proof.
  induction sched as [|x sched IH]; intros st Hinv; [by exists st|].
  destruct (sched_step_inv st x Hinv) as (st1 & E & Hi1 & Hle & Hn). unfold run in *. cbn [foldM]. rewrite E. rs.
  destruct (IH st1 Hi1) as (st2 & E2 & Hi2 & Hle2 & Hn2). exists st2. split_and!; try done; [lia|congruence].
Qed.

(** ** No wake-up is lost *)

(** How far the waiter [i] is from returning, once its index is reached, and the
    thread [j] whose step brings it closer. *)
Definition near (i : nat) (idx : Z) (st : state) (k j : nat) : Prop :=
  idx ≤ sh_applied st.1 ∧
  match k with
  | 5%nat => st.2 !! i = Some (WSelect idx (sh_idxCh st.1)) ∧ st.2 !! j = Some ASwap
  | 4%nat => ∃ ch, st.2 !! i = Some (WSelect idx ch) ∧ st.2 !! j = Some (AClose ch)
  | 3%nat => j = i ∧ ∃ ch, st.2 !! i = Some (WSelect idx ch) ∧ ch ∈ sh_closed st.1
  | 2%nat => j = i ∧ st.2 !! i = Some (WTake idx)
  | 1%nat => j = i ∧ ∃ ch, st.2 !! i = Some (WCheck idx ch)
  | 0%nat => ∃ r, st.2 !! i = Some (WDone idx r)
  | _ => False
  end.

(** A call of [WaitForAppliedIndex(ctx, idx)], anywhere in its code. *)
Definition waits (idx : Z) (t : thread) : Prop :=
  match t with WTake x | WCheck x _ | WSelect x _ | WDone x _ => x = idx | _ => False end.

Lemma near_start st i idx t : ai_inv st → idx ≤ sh_applied st.1 → st.2 !! i = Some t → waits idx t →
  ∃ k j, (k ≤ 5)%nat ∧ near i idx st k j.
Proof.
  intros Hinv Hle Hi Hw. unfold near. destruct t as [| | | | |x|x ch|x ch|x r]; try done; cbn in Hw; subst.
  - exists 2%nat, i. split; [lia|]. by split_and!.
  - exists 1%nat, i. split; [lia|]. split_and!; eauto.
  - destruct (ai_pending _ Hinv ch) as [Hc|[->|[j Hj]]]; [by eapply ai_held; eauto|..].
    + exists 3%nat, i. split; [lia|]. split_and!; eauto.
    + destruct (ai_awake _ Hinv i idx Hi Hle) as [j Hj]. exists 5%nat, j. split; [lia|]. by split_and!.
    + exists 4%nat, j. split; [lia|]. split_and!; eauto.
  - exists 0%nat, i. split; [lia|]. split_and!; eauto.
Qed.

Lemma near_thread i idx st k j : near i idx st (S k) j → is_Some (st.2 !! j).
Proof.
  intros [_ Hn]. destruct k as [|[|[|[|[|]]]]]; [| | | | |done].
  - destruct Hn as (-> & ch & ->). eauto.
  - destruct Hn as (-> & ->). eauto.
  - destruct Hn as (-> & ch & -> & _). eauto.
  - destruct Hn as (ch & _ & ->). eauto.
  - destruct Hn as (_ & ->). eauto.
Qed.

Lemma thread_step_channels s t c s' t' : thread_step s t c = Ok (s', t') →
  (∀ ch, ch ∈ sh_closed s → ch ∈ sh_closed s') ∧ (sh_idxCh s' = sh_idxCh s ∨ (t = ASwap ∧ t' = AClose (sh_idxCh s))).
Proof.
  destruct t; cbn [thread_step]; repeat case_if; try (intros [= <- <-]; cbn; by auto); try done.
  intros [= <- <-]. cbn. split; [intros; by right|by left].
Qed.

(** A step of [j] brings the waiter closer; a step of another thread keeps it
    where it is or brings it closer. *)
Lemma near_step i idx st k j x st' : ai_inv st → near i idx st (S k) j → sched_step st x = Ok st' →
  (x.1 ≠ j ∧ near i idx st' (S k) j) ∨ ∃ k' j', (k' ≤ k)%nat ∧ near i idx st' k' j'.
Proof.
  intros Hinv [Hle Hn] Hst. pose proof (sched_step_inv st x Hinv) as (st2 & E & _ & Hmono & _). rewrite Hst in E. injection E as <-.
  destruct st as [s ts], x as [a c]. unfold sched_step in Hst. cbn [fst snd] in *. destruct (ts !! a) as [t0|] eqn:Ha.
  2: { injection Hst as <-. left. split; [|by split]. intros ->.
       destruct (near_thread i idx (s, ts) k j (conj Hle Hn)) as [t Ht]. cbn in Ht. congruence. }
  destruct (thread_step s t0 c) as [[s' t]| | |] eqn:Et; try done. cbn in Hst. injection Hst as <-. cbn [fst snd] in Hmono.
  destruct (thread_step_channels _ _ _ _ _ Et) as [Hcl Hcur]. assert (idx ≤ sh_applied s') as Hle' by lia.
  assert (a ≠ i → <[a := t]> ts !! i = ts !! i) as Hi by (intros; by apply list_lookup_insert_ne).
  assert (a ≠ j → <[a := t]> ts !! j = ts !! j) as Hj by (intros; by apply list_lookup_insert_ne).
  pose proof (self_step ts a t0 t Ha) as Hself. unfold near. cbn [fst snd].
  (* the waiter's own step, at the select *)
  assert (∀ ch, a = i → t0 = WSelect idx ch → (s' = s ∧ t = t0 ∧ ch ∉ sh_closed s) ∨
    ∃ k' j', (k' ≤ 2)%nat ∧ near i idx (s', <[a := t]> ts) k' j') as Hsel.
  { intros ch -> ->. cbn [thread_step] in Et. destruct c; [|case_bool_decide]; injection Et as <- <-; [right; exists 0%nat, i| right; exists 2%nat, i|by left];
      (split; [lia|]); split; cbn; eauto. }
  destruct k as [|[|[|[|[|k]]]]]; cbn in Hn; [..|done].
  - destruct Hn as (-> & ch & Hw). destruct (decide (a = i)) as [->|Hne]; [right|left; split; [done|]; rewrite Hi by done; eauto].
    rewrite Ha in Hw. injection Hw as ->. cbn [thread_step] in Et. destruct (Z.leb_spec idx (sh_applied s)); [|lia]. injection Et as <- <-.
    exists 0%nat, i. split; [lia|]. split; [done|]. eauto.
  - destruct Hn as (-> & Hw). destruct (decide (a = i)) as [->|Hne]; [right|left; split; [done|]; rewrite Hi by done; eauto].
    rewrite Ha in Hw. injection Hw as ->. cbn [thread_step] in Et. injection Et as <- <-.
    exists 1%nat, i. split; [lia|]. split; [done|]. eauto.
  - destruct Hn as (-> & ch & Hw & Hc). destruct (decide (a = i)) as [->|Hne]; [right|left; split; [done|]; rewrite Hi by done; eauto 10].
    rewrite Ha in Hw. injection Hw as ->. destruct (Hsel ch eq_refl eq_refl) as [(_ & _ & Hx)|Hx]; [done|exact Hx].
  - destruct Hn as (ch & Hw & Hcj). destruct (decide (a = j)) as [->|Hnj].
    + right. rewrite Ha in Hcj. injection Hcj as ->. cbn [thread_step] in Et. case_bool_decide; [done|]. injection Et as <- <-.
      exists 3%nat, i. split; [lia|]. split; [done|]. split; [done|]. exists ch. split; [|by left]. rewrite Hi; [done|]. intros ->. congruence.
    + destruct (decide (a = i)) as [->|Hne]; [|left; split; [done|]; rewrite Hi, Hj by done; eauto].
      rewrite Ha in Hw. injection Hw as ->. destruct (Hsel ch eq_refl eq_refl) as [(-> & -> & _)|(k' & j' & Hk & Hx)];
        [left; split; [done|]; rewrite Hj, Hself by done; eauto|right; exists k', j'; split; [lia|exact Hx]].
  - destruct Hn as (Hw & Hcj). destruct (decide (a = i)) as [->|Hne].
    + rewrite Ha in Hw. injection Hw as ->. destruct (Hsel _ eq_refl eq_refl) as [(-> & -> & _)|(k' & j' & Hk & Hx)];
        [|right; exists k', j'; split; [lia|exact Hx]].
      left. assert (i ≠ j) by (intros ->; congruence). split; [done|]. by rewrite Hj, Hself.
    + destruct Hcur as [Ec|[-> ->]].
      * destruct (decide (a = j)) as [->|Hnj]; [rewrite Ha in Hcj; injection Hcj as ->; cbn in Et; injection Et as <- <-;
          cbn in Ec; pose proof (ai_current _ Hinv) as [? _]; cbn in *; lia|].
        left. split; [done|]. by rewrite Ec, Hi, Hj.
      * right. exists 4%nat, a. split; [lia|]. split; [done|]. exists (sh_idxCh s). by rewrite Hi, Hself.
Qed.

(** A round lets every thread run. *)
Definition round (n : nat) (sched : list (nat * bool)) : Prop := ∀ j, (j < n)%nat → j ∈ sched.*1.

Lemma near_run i idx sched : ∀ st k j, ai_inv st → near i idx st k j →
  ∃ st', run st sched = Ok st' ∧ ai_inv st' ∧ length st'.2 = length st.2 ∧ ∃ k' j', (k' ≤ k)%nat ∧ near i idx st' k' j' ∧
    (j ∈ sched.*1 → (k' ≤ k - 1)%nat).
Proof.
  induction sched as [|x sched IH]; intros st k j Hinv Hn.
  { exists st. split_and!; try done. exists k, j. split_and!; try done. by intros ?%elem_of_nil. }
  destruct (sched_step_inv st x Hinv) as (st1 & E & Hi1 & Hmono & Hlen). unfold run in *. cbn [foldM]. rewrite E. rs.
  assert (∃ k1 j1, near i idx st1 k1 j1 ∧ ((k1 = k ∧ j1 = j ∧ x.1 ≠ j) ∨ (k1 ≤ k - 1)%nat)) as (k1 & j1 & Hn1 & Hk1).
  { destruct k as [|k].
    - exists 0%nat, j. split; [|right; lia]. destruct Hn as [Hle (r & Hr)]. destruct st as [s ts]. unfold sched_step in E. cbn [fst snd] in *.
      destruct (ts !! x.1) as [t0|] eqn:Ht; [|injection E as <-; split; eauto]. destruct (decide (x.1 = i)) as [Hx|Hx].
      + rewrite Hx, Hr in Ht. injection Ht as <-. cbn in E. injection E as <-. split; [done|]. exists r. cbn. rewrite Hx. by eapply self_step.
      + destruct (thread_step s t0 x.2) as [[s' t]| | |]; cbn in E; try done. injection E as <-. cbn in Hmono. split; [cbn; lia|].
        exists r. cbn. by rewrite list_lookup_insert_ne.
    - destruct (near_step _ _ _ _ _ _ _ Hinv Hn E) as [[Hx Hn1]|(k' & j' & Hk & Hn1)]; eauto 10 with lia. }
  destruct (IH st1 k1 j1 Hi1 Hn1) as (st2 & E2 & Hi2 & Hl2 & k2 & j2 & Hk2 & Hn2 & Hdec).
  exists st2. split_and!; try done; [congruence|]. exists k2, j2. split; [lia|]. split; [done|]. cbn [fmap list_fmap].
  intros [->|Hin]%elem_of_cons; [destruct Hk1 as [(_ & _ & ?)|?]; [done|lia]|].
  destruct Hk1 as [(-> & -> & _)|?]; [by apply Hdec|lia].
Qed.

(** Five rounds are enough: one for the channel to be replaced, one for it to be
    closed, three for the waiter to wake, take the new channel and check. *)
Lemma near_rounds i idx rounds : ∀ st k j, ai_inv st → near i idx st k j → (i < length st.2)%nat →
  Forall (round (length st.2)) rounds → (k ≤ length rounds)%nat →
  ∃ st', run st (concat rounds) = Ok st' ∧ ∃ r, st'.2 !! i = Some (WDone idx r).
Proof.
  induction rounds as [|sched rounds IH]; intros st k j Hinv Hn Hlt Hr Hk; cbn [length concat] in *.
  { assert (k = 0%nat) as -> by lia. exists st. split; [done|]. apply Hn. }
  apply Forall_cons in Hr as [Hr Hrs]. destruct (near_run i idx sched st k j Hinv Hn) as (st1 & E & Hi1 & Hl & k1 & j1 & Hk1 & Hn1 & Hdec).
  assert (k1 ≤ length rounds)%nat as Hk1'.
  { destruct k as [|k]; [lia|]. apply near_thread in Hn as [t Ht]. specialize (Hdec (Hr j (lookup_lt_Some _ _ _ Ht))). lia. }
  unfold run in *. rewrite foldM_app, E. rs. eapply IH; try done; rewrite Hl; done.
Qed.

(** ** Returning *)

(** A call whose context is not done does not report it. *)
Definition quiet_call (idx : Z) (t : thread) : Prop := waits idx t ∧ ∀ x e, t ≠ WDone x (Some e).

Lemma quiet_step s t c s' t' idx : thread_step s t c = Ok (s', t') → c = false → quiet_call idx t → quiet_call idx t'.
Proof.
  intros Et -> [Hw Hr]. destruct t; try done; cbn [thread_step waits] in *; subst.
  - injection Et as <- <-. by split.
  - injection Et as <- <-. destruct (_ <=? _); by split.
  - case_bool_decide; injection Et as <- <-; by split.
  - injection Et as <- <-. by split.
Qed.

Lemma quiet_run i idx sched : ∀ st st' t, run st sched = Ok st' → (∀ x, x ∈ sched → x.1 = i → x.2 = false) →
  st.2 !! i = Some t → quiet_call idx t → ∃ t', st'.2 !! i = Some t' ∧ quiet_call idx t'.
Proof.
  induction sched as [|x sched IH]; intros st st' t Hrun Hc Hi Hq; [injection Hrun as <-; eauto|].
  unfold run in *. cbn [foldM] in Hrun. apply bind_ok in Hrun as (st1 & E & Hrun).
  assert (∃ t1, st1.2 !! i = Some t1 ∧ quiet_call idx t1) as (t1 & Hi1 & Hq1).
  { unfold sched_step in E. destruct (st.2 !! x.1) as [t0|] eqn:Ht; [|injection E as <-; eauto].
    destruct (thread_step st.1 t0 x.2) as [[s1 t1]| | |] eqn:Et; cbn in E; try done. injection E as <-. cbn.
    destruct (decide (x.1 = i)) as [Hx|Hx]; [|rewrite list_lookup_insert_ne by done; eauto].
    exists t1. rewrite Hx in Ht |- *. split; [by eapply self_step|]. rewrite Hi in Ht. injection Ht as ->.
    eapply quiet_step; [exact Et| |done]. apply Hc; [by left|done]. }
  eapply IH; [exact Hrun| |done|done]. intros y Hy. apply Hc. by right.
Qed.

(** [advanceApplied] alone: the index becomes the larger of the two. *)
Lemma advance_alone s idx : ai_inv (s, [ALoad idx]) →
  ∃ s', run (s, [ALoad idx]) (replicate 4 (0%nat, false)) = Ok (s', [ADone]) ∧ sh_applied s' = Z.max (sh_applied s) idx.
Proof.
  intros Hinv. pose proof (ai_current _ Hinv) as [_ Hc]. cbn in Hc. unfold run. cbn [replicate foldM].
  unfold sched_step at 1. cbn. destruct (Z.leb_spec idx (sh_applied s)) as [Hle|Hlt]; cbn.
  - exists s. split; [done|lia].
  - rewrite Z.eqb_refl. cbn. rewrite bool_decide_false by done. cbn. eexists. split; [reflexivity|]. cbn. lia.
Qed.
