(* ===== verification/ClusterTheorems.v ===== *)
(** * What the replicated state machine guarantees

    The theorems about cluster/command.go, cluster/fsm_snapshot.go and
    cluster/fsm.go: commands survive the Raft log, replicas agree, snapshots
    carry the state, Restore installs or keeps a store, waiters wake. *)

From Stdlib Require Import ZArith Lia.
From Stdlib Require Import SpecFloat.
From Stdlib.Strings Require Import Byte.
From stdpp Require Import base list numbers.
From S2P Require Import Prelude GoLib SortedSeq SortedKV SortedArray Merge File Entry SortedFile SortedFileProofs KVIterators.
From S2P Require Import Log LogProofs Metadata KV KVCompact KVProofs KVCompactProofs KVSystem KVOps LogHistory Reopen.
From S2P Require Import TxKV TxInstance Table DB Relational Refine Command Snapshot FSM FSMProofs Restore SnapshotProofs AppliedIndex Samples KVTheorems.

Open Scope Z_scope.

(** ** Replicas *)

Section replicas.
Context `{BL : BloomLaws} `{MetaJson} `{CommandJson}.

(** An entry of the Raft log that a node proposed: its index and its data. *)
Definition proposed (entry : Z * bytes) (cmd : Command) : Prop :=
  EncodeCommand cmd = Ok entry.2 ∧ Forall mode_fits (Mutations cmd).

(** The calls of [Apply] for a part of the log, in order. *)
Fixpoint apply_all (f : FSM) (log : list (Z * bytes)) : FSM * res (list FSMResult) :=
  match log with
  | [] => (f, Ok [])
  | (index, data) :: log =>
      let! (f, r) := Apply f index data in
      let! (f, rs) := apply_all f log in (f, Ok (r :: rs))
  end.

(** The same in the specification. *)
Fixpoint spec_all (m : list ent) (cmds : list Command) : list FSMResult * list ent :=
  match cmds with
  | [] => ([], m)
  | cmd :: cmds =>
      let '(r, m) := spec_apply m (canonical_cmd cmd) in
      let '(rs, m) := spec_all m cmds in (r :: rs, m)
  end.

Lemma proposed_known entry cmd : proposed entry cmd → DecodeCommand entry.2 = Ok (canonical_cmd cmd) ∧ known_cmd (canonical_cmd cmd).
Proof.
  intros [He Hf]. pose proof (decode_encode cmd entry.2 He Hf) as Hd. split; [done|]. eapply decoded_known; [exact Hd|].
  unfold canonical_cmd. case_bool_decide as Hb; [right|left; by cbn]. cbn [NewBatchCommand cm_Batch].
  unfold EncodeCommand in He. destruct (opCode (cm_Op cmd)); [|done]. rewrite bool_decide_true in He by done. cbn [negb] in He. case_if_in He; [done|]. case_if_in He; [done|].
  apply bind_ok in He as ([] & Hv%foldM_validate & _). apply Forall_map. eapply Forall_impl; [exact Hv|].
  intros mu (Ho & _)%validate_ok. exact Ho.
Qed.

Lemma apply_all_spec log : ∀ f m n cmds, fsm_state f m n → Forall2 proposed log cmds → Z.of_nat (n + length log) < 2 ^ 64 - 1 →
  ∃ f' r, apply_all f log = (f', r) ∧
    ((r = Ok (spec_all m cmds).1 ∧ fsm_state f' (spec_all m cmds).2 (n + length log) ∧
      f_applied f' = foldl Z.max (f_applied f) log.*1) ∨ ∃ s, r = Panic s).
Proof.
  induction log as [|[index data] log IH]; intros f m n cmds Hf Hp Hn; inversion Hp as [|? cmd ? cmds' Hc Hp']; subst; cbn [apply_all spec_all].
  - exists f, (Ok []). split; [done|]. left. split; [done|]. cbn [length]. rewrite Nat.add_0_r. done.
  - destruct (proposed_known _ _ Hc) as [Hd Hk]. cbn [snd length] in *.
    destruct (Apply_spec f m n index data _ Hf ltac:(lia) Hd Hk) as (f1 & r1 & E & Hr). rewrite E.
    destruct Hr as [(-> & Hf1 & Ha)|[s ->]]; cbn [bindS]; [|eauto 10].
    destruct (IH f1 _ (S n) cmds' Hf1 Hp' ltac:(lia)) as (f2 & r2 & E2 & Hr2). rewrite E2.
    destruct (spec_apply m (canonical_cmd cmd)) as [r m1]. cbn [fst snd] in *. destruct (spec_all m1 cmds') as [rs m2]. cbn [fst snd] in *.
    destruct Hr2 as [(-> & Hf2 & Ha2)|[s ->]]; cbn [bindS]; [|eauto 10].
    eexists _, _. split; [reflexivity|]. left. split; [done|]. cbn [fmap list_fmap foldl]. rewrite Ha2, Ha.
    replace (n + S (length log))%nat with (S n + length log)%nat by lia. done.
Qed.

(** What a replica with the live entries [m] answers. *)
Lemma fsm_Get_spec f m n k : fsm_state f m n → snd (fsm_Get f k) = Ok (val_at m k).
Proof.
  intros [(init & commits & Hi & <- & _) Hr Ho Hc]. unfold fsm_Get. rewrite Hc.
  destruct (kv_Get_spec (f_store f) init commits Hi Hr Ho k) as (kv' & -> & _). cbn. by rewrite current_view with (kv := f_store f).
Qed.

(** The process has stopped. *)
Definition aborted {A} (r : res A) : Prop := ∃ s, r = Panic s.

(** C9: Replicas agree: two nodes that hold the same entries, whatever their own
    history of flushes, merges, transactions and snapshots, and that apply the
    same part of the Raft log return the same results, those of the
    specification [spec_apply], and answer every read alike, and their applied
    index is the last one they saw; a node that cannot apply an entry aborts
    and never continues without it. *)
Theorem replicas_agree f1 f2 m n log cmds :
  fsm_state f1 m n → fsm_state f2 m n → Forall2 proposed log cmds → Z.of_nat (n + length log) < 2 ^ 64 - 1 →
  let (f1', r1) := apply_all f1 log in
  let (f2', r2) := apply_all f2 log in
  aborted r1 ∨ aborted r2 ∨
  (r1 = Ok (spec_all m cmds).1 ∧ r2 = r1 ∧
   f_applied f1' = foldl Z.max (f_applied f1) log.*1 ∧ f_applied f2' = foldl Z.max (f_applied f2) log.*1 ∧
   ∀ k, snd (fsm_Get f1' k) = Ok (val_at (spec_all m cmds).2 k) ∧ snd (fsm_Get f2' k) = snd (fsm_Get f1' k)).
Proof.
  intros Hs1 Hs2 Hp Hn. destruct (apply_all_spec log f1 m n cmds Hs1 Hp Hn) as (f1' & r1 & -> & Hr1).
  destruct (apply_all_spec log f2 m n cmds Hs2 Hp Hn) as (f2' & r2 & -> & Hr2).
  destruct Hr1 as [(-> & Hf1 & Ha1)|Hr1]; [|by left]. destruct Hr2 as [(-> & Hf2 & Ha2)|Hr2]; [|by right; left].
  right. right. split_and!; try done. intros k. by rewrite (fsm_Get_spec _ _ _ k Hf1), (fsm_Get_spec _ _ _ k Hf2).
Qed.

(** C39: A command survives the Raft log: what EncodeCommand accepts is decoded to
    the same command with the same mutations in the same order, except that a
    deletion carries no update mode. *)
Theorem command_roundtrip cmd data :
  EncodeCommand cmd = Ok data → Forall mode_fits (Mutations cmd) →
  DecodeCommand data = Ok (canonical_cmd cmd) ∧ Mutations (canonical_cmd cmd) = map canonical (Mutations cmd).
Proof.
  intros He Hf. split; [by apply decode_encode|]. unfold canonical_cmd, Mutations.
  destruct (decide (cm_Op cmd = OpBatch)) as [Hb|Hb].
  - rewrite !(bool_decide_true (cm_Op cmd = OpBatch)) by done. cbn [NewBatchCommand cm_Op cm_Batch]. done.
  - rewrite !(bool_decide_false (cm_Op cmd = OpBatch)) by done. cbn [cm_Op mu_Op canonical]. by rewrite ?bool_decide_false.
Qed.

(** ** Snapshots *)

(** C14: A snapshot carries the whole state: the stream a node writes from its
    snapshot, restored on any other open node, replaces that node's entries by
    exactly the entries the first node had, leaves no directory behind, and
    the first node goes on unchanged. *)
Theorem snapshot_restore opts f m n w m0 n0 :
  fsm_state f m n → fsm_state (w_fsm w) m0 n0 →
  Forall pair_ok (pairs m) → Forall small m → Z.of_nat (length m) < 2 ^ 62 →
  ∃ f' s data w', fsm_Snapshot f = (f', Ok s) ∧ Persist s = Ok data ∧
    Restore opts no_fault true w data = (w', Ok tt) ∧ w_old w' = None ∧ w_restore w' = None ∧
    ∀ k, snd (fsm_Get (w_fsm w') k) = Ok (val_at m k) ∧ snd (fsm_Get f' k) = Ok (val_at m k).
Proof.
  intros Hf Hw Hp Hsm Hlen. destruct (fsm_Snapshot_spec f m n Hf) as (f' & s & E & Hat & Hf' & _).
  assert (view_ok m) as Hv.
  { destruct Hf as [(init & commits & Hi & <- & _) _ _ _]. apply lives_view_ok, state_at_sorted, (i_init _ _ _ _ Hi). }
  destruct (Restore_ok opts w m0 n0 m Hw Hv Hp Hsm Hlen) as (w' & Er & Hw' & _ & Ho & Hr).
  exists f', s, (snapshot_bytes (pairs m)), w'. split; [done|]. split.
  { apply Persist_spec; [done|]. eapply Forall_impl; [exact Hp|]. by intros kv []. }
  split_and!; try done. intros k. by rewrite (fsm_Get_spec _ _ _ k Hw'), (fsm_Get_spec _ _ _ k Hf').
Qed.

(** C18: A snapshot stream that was cut short anywhere is refused: Restore
    returns an error and the state machine keeps its store, whatever file
    operations fail on the way. *)
Theorem truncated_snapshot opts fault locked w l n :
  Forall pair_ok l → (n < length (snapshot_bytes l))%nat → Z.of_nat n < 2 ^ 60 →
  ∃ w' e, Restore opts fault locked w (take n (snapshot_bytes l)) = (w', Err e) ∧ w_fsm w' = w_fsm w.
Proof.
  intros Hl Hn Hlen. apply Restore_refused; [rewrite length_take; lia|]. intros fresh (kv0 & _ & E).
  apply (readSnapshot_cut restore_key l n kv0 Hl Hn). by rewrite E.
Qed.

(** C15: Restore never leaves a node without a store to serve from: whatever the
    stream and whatever file operations fail, the process aborts, or the node
    has an open store (the one it had, that one reopened from its own
    directory, or the restored one, and the last when Restore succeeds), or the
    operation that failed is [Close] of the previous store ([OpCloseStore]): then
    Restore returns its error and the node is left with that closed store. *)
Theorem restore_outcome opts fault locked w data :
  f_closed (w_fsm w) = false → kv_closed (f_store (w_fsm w)) = false →
  let (w', r) := Restore opts fault locked w data in
  let store := f_store (w_fsm w) in
  let store' := f_store (w_fsm w') in
  ¬ returns r ∨
  (kv_closed store' = false ∧ f_closed (w_fsm w') = false ∧
   ((∃ fresh, loaded opts data fresh ∧ kv_Open opts (disk_of fresh) = Ok store') ∨
    (r ≠ Ok tt ∧ (store' = store ∨ kv_Open opts (disk_of store) = Ok store')))) ∨
  (kv_Close store = Ok store' ∧ ∃ n e, fault OpCloseStore n = Some e ∧ r = Err e).
Proof.
  intros Hc Ho. pose proof (Restore_spec opts fault locked w data) as Hs. destruct (Restore opts fault locked w data) as [w' r]. cbn zeta.
  destruct Hs as [e|f' r Hr|fresh f' r Hld Hsw]; [right; left; split_and!; auto|by left|].
  destruct Hsw as [kv r Hk|kv e Hk|kv k e Hk Hft|Hcl|f' r Hr]; cbn [f_store f_closed set_store]; [..|congruence|by left].
  - right. left. split; [by eapply kv_Open_open|]. split; [done|]. left. eauto.
  - right. left. split; [by eapply kv_Open_open|]. split; [done|]. right. eauto.
  - right. right. eauto.
Qed.

End replicas.

(** ** Waiting for an index *)

(** C16: No wake-up is lost: from any state the concurrent calls of
    advanceApplied and WaitForAppliedIndex can reach, a waiter whose index has
    been reached returns within five rounds of the scheduler, with nil unless
    its context is done; no interleaving closes a channel twice. *)
Theorem wait_wakes applied ts past i idx t rounds st :
  Forall starting ts → run (start applied ts) past = Ok st →
  st.2 !! i = Some t → quiet_call idx t → idx ≤ sh_applied st.1 →
  Forall (round (length ts)) rounds → (5 ≤ length rounds)%nat →
  ∃ st' r, run st (concat rounds) = Ok st' ∧ st'.2 !! i = Some (WDone idx r) ∧
    ((∀ x, x ∈ concat rounds → x.1 = i → x.2 = false) → r = None).
Proof.
  intros Hts Hrun Hi Hq Hle Hr Hn. destruct (run_inv past _ (start_inv applied ts Hts)) as (st0 & E & Hinv & _ & Hlen).
  rewrite Hrun in E. injection E as <-. cbn in Hlen. destruct (near_start st i idx t Hinv Hle Hi (proj1 Hq)) as (k & j & Hk & Hnear).
  destruct (near_rounds i idx rounds st k j Hinv Hnear) as (st' & E & r & Hd); [by eapply lookup_lt_Some|by rewrite Hlen|lia|].
  exists st', r. split_and!; try done. intros Hc. destruct (quiet_run i idx _ _ _ _ E Hc Hi Hq) as (t' & Ht' & _ & Hne).
  rewrite Hd in Ht'. injection Ht' as <-. destruct r as [e|]; [by destruct (Hne idx e)|done].
Qed.

(** ** Witnesses *)

(** A decoder for the commands of older releases that knows a single one. *)
#[local] Instance sample_command_json : CommandJson := {
  command_Unmarshal data := if bool_decide (data = bs "{}") then Ok (MkCmd OpDel (bs "k") [] 0 []) else Err (errorsNew "json");
}.

Lemma fsm_of_store opts s : store_state opts s → kv_closed (sy_kv s) = false →
  fsm_state (NewFSM (sy_kv s)) (committed_view [] (sy_commits s)) (length (sy_commits s)).
Proof. intros Hs Hc. destruct (store_inv _ _ Hs) as [Hi Hr _ _ _ _]. split; [exists [], (sy_commits s); by split_and!|done|done|done]. Qed.

Definition w_view : list ent := [Ent (bs "k") (bs "v") false].

(** One replica has its entry in the memtable, the other one has flushed it. *)
Definition w_replica1 : FSM := NewFSM w_kv3.
Definition w_replica2 : FSM := NewFSM w_kv7.

Lemma w_replica1_state : fsm_state w_replica1 w_view 1.
Proof. exact (fsm_of_store _ _ w_step3 ltac:(vm_compute; reflexivity)). Qed.

Lemma w_replica2_state : fsm_state w_replica2 w_view 1.
Proof. exact (fsm_of_store _ _ w_step7 ltac:(vm_compute; reflexivity)). Qed.

Definition w_cmd1 : Command := MkCmd OpPut (bs "k") (bs "w") ModeUpdate [].
Definition w_cmd2 : Command := NewBatchCommand [MkMut OpPut (bs "a") (bs "1") ModeInsert; MkMut OpDel (bs "k") [] 0].
Definition w_data (cmd : Command) : bytes := match EncodeCommand cmd with Ok data => data | _ => [] end.
Definition w_raft_log : list (Z * bytes) := [(7, w_data w_cmd1); (8, w_data w_cmd2)].

Lemma w_proposed : Forall2 proposed w_raft_log [w_cmd1; w_cmd2].
Proof.
  constructor; [|constructor; [|constructor]]; (split; [vm_compute; reflexivity|]).
  - constructor; [|constructor]. by intros _.
  - constructor; [by intros _|]. constructor; [|constructor]. by intros ?.
Qed.

Lemma replicas_agree_witness :
  snd (apply_all w_replica1 w_raft_log) = Ok [MkFSMResult true None; MkFSMResult true None] ∧
  (∀ k, snd (fsm_Get (fst (apply_all w_replica2 w_raft_log)) k) = snd (fsm_Get (fst (apply_all w_replica1 w_raft_log)) k)) ∧
  f_applied (fst (apply_all w_replica2 w_raft_log)) = 8.
Proof.
  pose proof (replicas_agree w_replica1 w_replica2 w_view 1 w_raft_log [w_cmd1; w_cmd2]
    w_replica1_state w_replica2_state w_proposed ltac:(vm_compute; reflexivity)) as Hr.
  assert (snd (apply_all w_replica1 w_raft_log) = Ok [MkFSMResult true None; MkFSMResult true None]) as E1 by (vm_compute; reflexivity).
  assert (snd (apply_all w_replica2 w_raft_log) = Ok [MkFSMResult true None; MkFSMResult true None]) as E2 by (vm_compute; reflexivity).
  destruct (apply_all w_replica1 w_raft_log) as [f1 r1]. destruct (apply_all w_replica2 w_raft_log) as [f2 r2]. cbn [fst snd] in *. subst.
  destruct Hr as [[s Hs]|[[s Hs]|(_ & _ & _ & Ha & Hg)]]; [discriminate|discriminate|].
  split; [reflexivity|]. split; [intros k; apply Hg|exact Ha].
Defined.

Lemma command_roundtrip_witness : DecodeCommand (w_data w_cmd2) = Ok w_cmd2.
Proof.
  apply (command_roundtrip w_cmd2 (w_data w_cmd2)); [vm_compute; reflexivity|].
  constructor; [by intros _|]. constructor; [|constructor]. by intros ?.
Defined.

(** A node that restores into an empty store. *)
Definition w_world : world := MkWorld (NewFSM w_kv0) (Some empty_disk) None None 0.

Lemma w_world_state : fsm_state (w_fsm w_world) [] 0.
Proof.
  destruct w_step2 as (kv0 & Ho & _). assert (kv_Open w_opts fresh_disk = Ok w_kv0) as E by (vm_compute; reflexivity).
  exact (fsm_of_store w_opts (MkSys w_kv0 Idle []) (ex_intro _ w_kv0 (conj E (r_init _))) ltac:(vm_compute; reflexivity)).
Qed.

Lemma snapshot_restore_witness :
  ∃ f' s data w', fsm_Snapshot w_replica2 = (f', Ok s) ∧ Persist s = Ok data ∧
    Restore w_opts no_fault true w_world data = (w', Ok tt) ∧ snd (fsm_Get (w_fsm w') (bs "k")) = Ok (Some (bs "v")).
Proof.
  destruct (snapshot_restore w_opts w_replica2 w_view 1 w_world [] 0 w_replica2_state w_world_state) as (f' & s & data & w' & E1 & E2 & E3 & _ & _ & Hg).
  - constructor; [|constructor]. split; [discriminate|]. split; vm_compute; discriminate.
  - constructor; [|constructor]. vm_compute. discriminate.
  - vm_compute. reflexivity.
  - exists f', s, data, w'. split; [exact E1|]. split; [exact E2|]. split; [exact E3|]. apply Hg.
Defined.

Lemma truncated_snapshot_witness : ∃ w' e,
  Restore w_opts no_fault true w_world (take 20 (snapshot_bytes [(bs "k", bs "v")])) = (w', Err e) ∧ w_fsm w' = w_fsm w_world.
Proof.
  apply (truncated_snapshot w_opts no_fault true w_world [(bs "k", bs "v")] 20).
  - constructor; [|constructor]. split; [discriminate|]. split; vm_compute; discriminate.
  - apply Nat.ltb_lt. vm_compute. reflexivity.
  - vm_compute. reflexivity.
Defined.

(** [Close] of the previous store fails. *)
Definition w_close_fails (op : fs_name) (n : nat) : option error := match op with OpCloseStore => Some os_ErrClosed | _ => None end.

Lemma restore_outcome_witness :
  let w' := fst (Restore w_opts w_close_fails true w_world (snapshot_bytes [(bs "k", bs "v")])) in
  kv_closed (f_store (w_fsm w')) = true ∧ kv_Close (f_store (w_fsm w_world)) = Ok (f_store (w_fsm w')).
Proof.
  pose proof (restore_outcome w_opts w_close_fails true w_world (snapshot_bytes [(bs "k", bs "v")])
    ltac:(vm_compute; reflexivity) ltac:(vm_compute; reflexivity)) as Hr.
  set (r0 := Restore w_opts w_close_fails true w_world (snapshot_bytes [(bs "k", bs "v")])) in *.
  assert (kv_closed (f_store (w_fsm (fst r0))) = true) as Ec by (vm_compute; reflexivity).
  assert (snd r0 = Err os_ErrClosed) as Er by (vm_compute; reflexivity).
  clearbody r0. destruct r0 as [w' r]. cbn [fst snd] in *. subst r. split; [exact Ec|].
  destruct Hr as [Hr|[(Hr & _)|(Hr & _)]]; [exfalso; apply Hr; exact I|congruence|exact Hr].
Defined.

Lemma wait_wakes_witness :
  let st := (MkShared 3 0 1 [], [ASwap; WSelect 2 0]) in
  ∃ st' r, run st (concat (replicate 5 [(0%nat, false); (1%nat, false)])) = Ok st' ∧ st'.2 !! 1%nat = Some (WDone 2 r).
Proof.
  destruct (wait_wakes 0 [ALoad 3; WTake 2] [(1%nat, false); (1%nat, false); (0%nat, false); (0%nat, false)] 1 2 (WSelect 2 0)
    (replicate 5 [(0%nat, false); (1%nat, false)]) (MkShared 3 0 1 [], [ASwap; WSelect 2 0])) as (st' & r & E & Hd & _).
  - by repeat constructor.
  - reflexivity.
  - reflexivity.
  - split; [reflexivity|discriminate].
  - vm_compute. discriminate.
  - apply Forall_replicate. intros [|[|j]] Hj; cbn in *; [by left|by right; left|lia].
  - apply le_n.
  - exists st', r. split; [exact E|exact Hd].
Defined.
