(* ===== verification/Service.v ===== *)
(** * The key-value service: grpc/range.go, the handlers of grpc/server.go, and
    [send] and [ignoreClosedStream] of grpc/sql.go

    A handler gets the value of [ctx.Err()] it reads, a streaming handler an
    [stream_env]: the outcome of every [Send] and of every check of the context
    and of the clock, by the number of messages sent before.  The messages that
    were sent are part of the result also when the call fails. *)

From Stdlib Require Import ZArith Lia.
From Stdlib.Strings Require Import Byte.
From stdpp Require Import base list numbers.
From S2P Require Import Prelude GoLib SortedSeq SortedKV SortedArray Merge SortedFile KVIterators Metadata KV Table.

Open Scope Z_scope.

(** ** Status errors *)

(** [status.Error] and [status.Errorf]; the text of a wrapped error is not kept. *)
Definition status (c : Code) (msg : string) : error := status_Error c msg None.

(** [status.Code] of a non-nil error; it looks through wrappers. *)
Fixpoint status_Code (e : error) : Code :=
  match e with
  | status_Error c _ _ => c
  | noRetry e => status_Code e
  | _ => codes_Unknown
  end.

(** [status.FromContextError] *)
Definition FromContextError (e : error) : error :=
  match e with
  | context_Canceled => status codes_Canceled "context canceled"
  | context_DeadlineExceeded => status codes_DeadlineExceeded "context deadline exceeded"
  | _ => status codes_Unknown "context error"
  end.

(** [if err != nil { return status.Errorf(c, msg, err) }] *)
Definition or_status {A} (c : Code) (msg : string) (r : res A) : res A :=
  match r with Err _ => Err (status c msg) | _ => r end.

(** [if err := ctx.Err(); err != nil { return status.FromContextError(err).Err() }] *)
Definition ctx_check (ctx : option error) : res unit :=
  match ctx with Some e => Err (FromContextError e) | None => Ok tt end.

(** ** Streams *)

Record stream_env := MkEnv {
  ev_send : nat → option error;
  ev_ctx : nat → option error;
  ev_late : nat → bool;
}.

(** [send] *)
Definition send_result (env : stream_env) (n : nat) : res unit :=
  match ev_send env n with
  | None => Ok tt
  | Some e => Err (if bool_decide (e = io_EOF) then errStreamClosed else e)
  end.

Definition send {A} (env : stream_env) (out : list A) (msg : A) : list A * res unit :=
  let! (out, _u) := (out, send_result env (length out)) in (out ++ [msg], Ok tt).

Definition ignoreClosedStream {A} (r : A * res unit) : A * res unit :=
  match r with
  | (a, Err e) => (a, if bool_decide (e = errStreamClosed) then Ok tt else Err e)
  | _ => r
  end.

(** ** Range scans *)

Definition rangeCheckInterval : Z := 128.

Record rangeLimits := MkLimits { rl_limit : Z; rl_maxDuration : Z }.

(** The fields of [pbv1.RangeRequest] and [pbv1.RangeResponse]; [None] is a
    value that is not set. *)
Record RangeRequest := MkRangeReq {
  rr_start : bytes; rr_stop : bytes; rr_descending : bool; rr_keysOnly : bool; rr_limit : Z; rr_consistency : Z }.
Record RangeResponse := MkRangeResp { rp_Key : bytes; rp_Value : option bytes }.

Record rangeScan := MkScan {
  rs_start : bytes; rs_stop : bytes; rs_descending : bool; rs_keysOnly : bool;
  rs_limit : Z; rs_maxDuration : Z }.

Definition newRangeScan (req : RangeRequest) (limits : rangeLimits) : rangeScan :=
  let limit := rr_limit req in
  let limit :=
    if (limit =? 0) || ((0 <? rl_limit limits) && (rl_limit limits <? limit))
    then rl_limit limits else limit in
  MkScan (rr_start req) (rr_stop req) (rr_descending req) (rr_keysOnly req) limit (rl_maxDuration limits).

(** [len(b) == 0] *)
Definition is_empty (b : bytes) : bool := match b with [] => true | _ => false end.

Definition inBounds (r : rangeScan) (key : bytes) : bool :=
  if is_empty (rs_stop r) then true else
  if rs_descending r then bytes_leb (rs_stop r) key else bytes_leb key (rs_stop r).

Section scan.
Context `{KVIter It}.

Definition advance (r : rangeScan) (iter : It) : res It :=
  if rs_descending r then Prev iter else Next iter.

(** The tests of the context and of the clock between two rows. *)
Definition interrupted (r : rangeScan) (env : stream_env) (sent : Z) (n : nat) : res unit :=
  if sent mod rangeCheckInterval =? 0 then
    _ ← ctx_check (ev_ctx env n);
    if (0 <? rs_maxDuration r) && ev_late env n
    then Err (status codes_DeadlineExceeded "range exceeded the server scan deadline")
    else Ok tt
  else Ok tt.

Definition rs_response (r : rangeScan) (key val : bytes) : RangeResponse :=
  MkRangeResp key (if rs_keysOnly r then None else Some val).

(** The loop of [stream]; [sent] is a uint64. *)
Fixpoint stream_loop (r : rangeScan) (env : stream_env) (fuel : nat) (iter : It) (sent : Z) (out : list RangeResponse) :
    list RangeResponse * res unit :=
  if negb (Valid iter) then (out, Ok tt) else
  let! (out, key) := (out, Key iter) in
  if negb (inBounds r key) then (out, Ok tt) else
  match fuel with
  | O => (out, OutOfFuel)
  | S fuel =>
      if IsReservedKey key then
        let! (out, iter) := (out, or_status codes_Internal "iterate range" (advance r iter)) in
        stream_loop r env fuel iter sent out
      else
        let! (out, val) := (out, Val iter) in
        let! (out, _u) := send env out (rs_response r key val) in
        let sent := u64 (sent + 1) in
        if (0 <? rs_limit r) && (rs_limit r <=? sent) then (out, Ok tt) else
        let! (out, _u) := (out, interrupted r env sent (length out)) in
        let! (out, iter) := (out, or_status codes_Internal "iterate range" (advance r iter)) in
        stream_loop r env fuel iter sent out
  end.

End scan.

Section service.
Context `{Bloom} `{MetaJson}.

(** [open]: [KVTX] has the method [SeekToLast] that is probed for. *)
Definition rs_open (r : rangeScan) (tx : KVTX) : res TXIter :=
  let internal := fun m : res TXIter => or_status codes_Internal "range keys" m in
  if negb (rs_descending r) then internal (tx_Seek tx (rs_start r)) else
  if is_empty (rs_start r) then internal (tx_SeekToLast tx) else
  iter ← internal (tx_Seek tx (rs_start r));
  back ← (if negb (Valid iter) then Ok true else
          k ← Key iter; Ok (match bytes_compare k (rs_start r) with Gt => true | _ => false end));
  internal (if (back : bool) then Prev iter else Ok iter).

Definition rs_stream (r : rangeScan) (tx : KVTX) (env : stream_env) : list RangeResponse * res unit :=
  let! (out, iter) := ([], rs_open r tx) in
  stream_loop r env (S (steps iter)) iter 0 out.

(** ** The handlers of [KVServer] *)

Definition validateKey (key : bytes) : res unit :=
  if is_empty key then Err (status codes_InvalidArgument "key is required") else
  if IsReservedKey key then Err (status codes_InvalidArgument "key is reserved for engine metadata") else
  Ok tt.

(** [pbv1.PutMode]: an enumeration of the wire, so any number can arrive. *)
Definition PUT_MODE_UNSPECIFIED : Z := 0.
Definition PUT_MODE_UPSERT : Z := 1.
Definition PUT_MODE_INSERT : Z := 2.
Definition PUT_MODE_UPDATE : Z := 3.

(** [updateMode] of grpc/server.go *)
Definition rpc_updateMode (mode : Z) : res Z :=
  if (mode =? PUT_MODE_UPSERT) || (mode =? PUT_MODE_UNSPECIFIED) then Ok ModeUpsert else
  if mode =? PUT_MODE_INSERT then Ok ModeInsert else
  if mode =? PUT_MODE_UPDATE then Ok ModeUpdate else
  Err (status codes_InvalidArgument "invalid put mode").

Definition srv_Get (kv : KV) (ctx : option error) (key : bytes) : KV * res bytes :=
  let! (kv, _u) := (kv, validateKey key) in
  let! (kv, _u) := (kv, ctx_check ctx) in
  let (kv, r) := kv_Get kv key in
  let! (kv, v) := (kv, or_status codes_Internal "get key" r) in
  (kv, match v with Some value => Ok value | None => Err (status codes_NotFound "key not found") end).

Definition srv_Put (kv : KV) (ctx : option error) (key val : bytes) (mode : Z) : KV * res bool :=
  let! (kv, _u) := (kv, validateKey key) in
  let! (kv, _u) := (kv, ctx_check ctx) in
  let! (kv, mode) := (kv, rpc_updateMode mode) in
  let (kv, r) := kv_SetEx kv key val mode in
  (kv, or_status codes_Internal "put key" r).

Definition srv_Delete (kv : KV) (ctx : option error) (key : bytes) : KV * res bool :=
  let! (kv, _u) := (kv, validateKey key) in
  let! (kv, _u) := (kv, ctx_check ctx) in
  let (kv, r) := kv_Del kv key in
  (kv, or_status codes_Internal "delete key" r).

(** [Range]: the messages that were sent and the status of the call.  The
    deferred [Abort] runs on every return. *)
Definition srv_Range (kv : KV) (limits : rangeLimits) (req : RangeRequest) (env : stream_env) :
    KV * (list RangeResponse * res unit) :=
  match NewTX kv with
  | Ok (kv, id) =>
      match kv_txs kv !! id with
      | Some tx =>
          let r := ignoreClosedStream (rs_stream (newRangeScan req limits) tx env) in
          match abortTX kv id with
          | Ok kv => (kv, r)
          | Err e => (kv, (fst r, Err e))
          | Panic s => (kv, (fst r, Panic s))
          | OutOfFuel => (kv, (fst r, OutOfFuel))
          end
      | None => (kv, ([], Panic "index out of range"))
      end
  | Err e => (kv, ([], Err e))
  | Panic s => (kv, ([], Panic s))
  | OutOfFuel => (kv, ([], OutOfFuel))
  end.

End service.
