(* ===== verification/ServiceProofs.v ===== *)
(** * The key-value service: what a scan delivers and what the handlers do *)

From Stdlib Require Import ZArith Lia.
From Stdlib.Strings Require Import Byte.
From stdpp Require Import base list numbers.
From S2P Require Import Prelude GoLib SortedSeq SortedKV SortedArray Merge File Entry SortedFile SortedFileProofs KVIterators.
From S2P Require Import Log Metadata KV KVCompact KVProofs KVCompactProofs KVSystem KVOps Table Service.

Open Scope Z_scope.

(** ** Iterators as the rest of a walk *)

Section walk.
Context `{IterLaws It}.

(** What an iterator has still to visit in one direction. *)
Definition walks (desc : bool) (it : It) (rest : list ent) : Prop :=
  ∃ s p, At it s p ∧ if desc then p < Z.of_nat (length s) ∧ rest = reverse (take (Z.to_nat (p + 1)) s)
                     else 0 ≤ p ∧ rest = drop (Z.to_nat p) s.

Lemma walks_nil desc it : walks desc it [] → Valid it = false.
Proof.
  intros (s & p & Hat & Hr). pose proof (At_range _ _ _ Hat). rewrite (At_valid _ _ _ Hat).
  apply bool_decide_false. intros Hp. destruct desc; destruct Hr as [Hb Hr]; apply (f_equal length) in Hr; cbn in Hr.
  - rewrite length_reverse, length_take in Hr. lia.
  - rewrite length_drop in Hr. lia.
Qed.

Lemma walks_cons desc it e rest : walks desc it (e :: rest) →
  Valid it = true ∧ Key it = Ok (e_key e) ∧ Val it = Ok (e_val e) ∧
  ∃ it', (if desc then Prev it else Next it) = Ok it' ∧ walks desc it' rest.
Proof.
  intros (s & p & Hat & Hr). pose proof (At_range _ _ _ Hat) as Hp.
  assert (0 ≤ p ∧ s !! Z.to_nat p = Some e ∧
    rest = if desc then reverse (take (Z.to_nat p) s) else drop (S (Z.to_nat p)) s) as (Hp0 & He & Hrest).
  { destruct desc; destruct Hr as [Hb Hr].
    - destruct (decide (0 ≤ p)) as [Hp0|]; [|replace (Z.to_nat (p + 1)) with 0%nat in Hr by lia; done].
      replace (Z.to_nat (p + 1)) with (S (Z.to_nat p)) in Hr by lia.
      destruct (lookup_lt_is_Some_2 s (Z.to_nat p)) as [x Hx]; [lia|].
      rewrite (take_S_r _ _ _ Hx), reverse_app in Hr. cbn in Hr. by injection Hr as -> ->.
    - split; [done|]. destruct (s !! Z.to_nat p) as [x|] eqn:Hx.
      + rewrite (drop_S _ _ _ Hx) in Hr. by injection Hr as -> ->.
      + apply lookup_ge_None in Hx. by rewrite drop_ge in Hr. }
  apply lookup_lt_Some in He as Hlt. split.
  { rewrite (At_valid _ _ _ Hat). apply bool_decide_true. lia. }
  destruct (At_entry _ _ _ _ Hat Hp0 He) as (-> & -> & _). split; [done|]. split; [done|]. destruct desc.
  - destruct (At_prev _ _ _ Hat) as (it' & Hn & Hat'). exists it'. split; [done|].
    eexists s, _. split; [done|]. split; [lia|]. rewrite Hrest. f_equal. f_equal. lia.
  - destruct (At_next _ _ _ Hat) as (it' & Hn & Hat'). exists it'. split; [done|].
    eexists s, _. split; [done|]. split; [lia|]. rewrite Hrest. f_equal. lia.
Qed.

Lemma walks_length desc it rest : walks desc it rest → (length rest ≤ steps it)%nat.
Proof.
  intros (s & p & Hat & Hr). pose proof (At_steps _ _ _ Hat).
  destruct desc; destruct Hr as [_ ->]; rewrite ?length_reverse, ?length_take, ?length_drop; lia.
Qed.

(** ** The loop of a scan *)

Fixpoint take_while {A} (P : A → bool) (l : list A) : list A :=
  match l with
  | [] => []
  | a :: l => if P a then a :: take_while P l else []
  end.

(** The messages for the entries still to visit. *)
Definition answers (r : rangeScan) (rest : list ent) : list RangeResponse :=
  (fun e => rs_response r (e_key e) (e_val e)) <$>
    filter (fun e => IsReservedKey (e_key e) = false) (take_while (fun e => inBounds r (e_key e)) rest).

(** How the environment may end a stream after [n] messages. *)
Definition cut_off (r : rangeScan) (env : stream_env) (n : nat) (e : error) : Prop :=
  send_result env n = Err e ∨
  (0 < n)%nat ∧ Z.of_nat n mod 128 = 0 ∧
    ((∃ c, ev_ctx env n = Some c ∧ e = FromContextError c) ∨
     (0 < rs_maxDuration r ∧ ev_late env n = true ∧
        e = status codes_DeadlineExceeded "range exceeded the server scan deadline")).

(** The messages of a scan of [rows]: all of them or as many as the limit
    allows, or fewer when the environment ends the stream. *)
Definition delivered (r : rangeScan) (env : stream_env) (rows out : list RangeResponse) (res : res unit) : Prop :=
  (res = Ok tt ∧ out = if 0 <? rs_limit r then take (Z.to_nat (rs_limit r)) rows else rows) ∨
  (∃ e, res = Err e ∧ cut_off r env (length out) e ∧ out `prefix_of` rows ∧
     (0 < rs_limit r → Z.of_nat (length out) ≤ rs_limit r)).

Lemma u64_count n : u64 (u64 (Z.of_nat n) + 1) = u64 (Z.of_nat (S n)).
Proof. unfold u64. rewrite Zplus_mod_idemp_l. f_equal. lia. Qed.

Lemma u64_mod128 z : u64 z mod 128 = z mod 128.
Proof. unfold u64. apply Z.mod_mod_divide. exists (2 ^ 57). reflexivity. Qed.

Lemma interrupted_spec r env n : (0 < n)%nat →
  match interrupted r env (u64 (Z.of_nat n)) n with
  | Ok _ => True
  | Err e => cut_off r env n e
  | _ => False
  end.
Proof.
  intros Hn0. unfold interrupted, rangeCheckInterval. rewrite u64_mod128.
  destruct (Z.eqb_spec (Z.of_nat n mod 128) 0) as [Hn|]; [|done].
  unfold ctx_check. destruct (ev_ctx env n) as [c|] eqn:Ec; rs.
  - right. split; [done|]. split; [done|]. left. eauto.
  - destruct (Z.ltb_spec 0 (rs_maxDuration r)); [|done]. destruct (ev_late env n) eqn:El; [|done]. cbn [andb].
    right. split; [done|]. split; [done|]. by right.
Qed.

(** While the limit is not reached the counter has not wrapped around. *)
Lemma limit_reached r n :
  0 ≤ rs_limit r < 2 ^ 64 → (0 < rs_limit r → Z.of_nat n < rs_limit r) →
  (0 <? rs_limit r) && (rs_limit r <=? u64 (Z.of_nat (S n))) = bool_decide (0 < rs_limit r ∧ Z.of_nat (S n) = rs_limit r).
Proof.
  intros Hr Hn. symmetry. destruct (Z.ltb_spec 0 (rs_limit r)) as [Hp|]; cbn [andb].
  2: apply bool_decide_false; lia.
  specialize (Hn Hp). unfold u64. rewrite Z.mod_small by lia.
  destruct (Z.leb_spec (rs_limit r) (Z.of_nat (S n))); [apply bool_decide_true|apply bool_decide_false]; lia.
Qed.

(** Nothing is left to send, or the environment ended the stream. *)
Lemma delivered_end r env out :
  (0 < rs_limit r → Z.of_nat (length out) < rs_limit r) → delivered r env (out ++ []) out (Ok tt).
Proof.
  intros Hout. left. split; [done|]. rewrite app_nil_r.
  destruct (Z.ltb_spec 0 (rs_limit r)) as [Hp|]; [|done]. rewrite take_ge; [done|]. specialize (Hout Hp). lia.
Qed.

Lemma delivered_cut r env out l e :
  cut_off r env (length out) e → (0 < rs_limit r → Z.of_nat (length out) < rs_limit r) →
  delivered r env (out ++ l) out (Err e).
Proof.
  intros Hc Hout. right. exists e. split; [done|]. split; [done|]. split; [by apply prefix_app_r|].
  intros Hp. specialize (Hout Hp). lia.
Qed.

Lemma stream_loop_spec r env fuel it rest out :
  walks (rs_descending r) it rest → (length rest ≤ fuel)%nat → 0 ≤ rs_limit r < 2 ^ 64 →
  (0 < rs_limit r → Z.of_nat (length out) < rs_limit r) →
  ∃ out' x, stream_loop r env fuel it (u64 (Z.of_nat (length out))) out = (out', x) ∧
    delivered r env (out ++ answers r rest) out' x.
Proof.
  revert fuel it out. induction rest as [|e rest IH]; intros fuel it out Hw Hf Hl Hout.
  { destruct fuel; cbn [stream_loop]; rewrite (walks_nil _ _ Hw); cbn [negb];
      eexists out, _; (split; [done|]); by apply delivered_end. }
  destruct (walks_cons _ _ _ _ Hw) as (Hv & Hk & Hx & it' & Hadv & Hw').
  destruct fuel as [|fuel]; [cbn in Hf; lia|]. cbn [stream_loop]. rewrite Hv, Hk. cbn [negb bindS].
  unfold answers. cbn [take_while]. destruct (inBounds r (e_key e)); cbn [negb].
  2: { eexists out, _. split; [done|]. by apply delivered_end. }
  rewrite filter_cons. unfold advance. rewrite Hadv. cbn [or_status bindS]. cbn in Hf.
  destruct (IsReservedKey (e_key e)) eqn:Er.
  { rewrite decide_False by done. apply IH; [done|lia|done|done]. }
  rewrite decide_True by done. rewrite Hx. cbn [bindS]. unfold send. cbn [fmap list_fmap].
  destruct (send_result env (length out)) as [[]| | |] eqn:Es; cbn [bindS].
  2: { eexists out, _. split; [done|]. apply delivered_cut; [by left|done]. }
  2,3: unfold send_result in Es; by destruct (ev_send env (length out)).
  fold (answers r rest). set (m := rs_response r (e_key e) (e_val e)).
  change (m :: answers r rest) with ([m] ++ answers r rest).
  rewrite u64_count, (limit_reached _ _ Hl Hout), (app_assoc out [m]).
  replace (S (length out)) with (length (out ++ [m])) by (rewrite length_app; cbn; lia).
  case_bool_decide as Hend.
  { destruct Hend as [Hp Hlen]. eexists _, _. split; [done|]. left. split; [done|].
    rewrite (proj2 (Z.ltb_lt _ _) Hp), take_app_le, take_ge by lia. done. }
  assert (0 < rs_limit r → Z.of_nat (length (out ++ [m])) < rs_limit r) as Hout'.
  { intros Hp. specialize (Hout Hp). rewrite length_app in *. cbn in *. lia. }
  pose proof (interrupted_spec r env (length (out ++ [m])) ltac:(rewrite length_app; cbn; lia)) as Hi.
  destruct (interrupted r env _ _) as [[]|err| |]; cbn [bindS]; [|..|done|done].
  - apply IH; [done|lia|done|done].
  - eexists _, _. split; [done|]. by apply delivered_cut.
Qed.

End walk.

(** ** Scans of a sorted view *)

Lemma take_while_filter {A} (R : A → A → Prop) (P : A → bool) l :
  StronglySorted R l → (∀ a b, R a b → P b = true → P a = true) →
  take_while P l = filter (fun a => P a = true) l.
Proof.
  intros Hs HP. induction l as [|a l IH]; [done|]. apply StronglySorted_inv in Hs as [Hs Hf].
  cbn [take_while]. rewrite filter_cons. destruct (P a) eqn:Ea.
  - rewrite decide_True by done. by rewrite IH.
  - rewrite decide_False by done. symmetry. clear IH Hs. induction Hf as [|b l Hb Hf IHf]; [done|].
    rewrite filter_cons, decide_False; [done|]. intros Hx. rewrite (HP _ _ Hb Hx) in Ea. done.
Qed.

Lemma filter_all {A} (P : A → Prop) `{!∀ x, Decision (P x)} l : Forall P l → filter P l = l.
Proof. induction 1 as [|a l Ha _ IH]; [done|]. by rewrite filter_cons, decide_True, IH. Qed.

Lemma drop_below lo s : sorted s → drop (cnt (below lo) s) s = filter (fun e => bytes_leb lo (e_key e) = true) s.
Proof.
  intros Hs. induction s as [|e s IH]; [done|].
  pose proof (cnt_head_false (below lo) e s Hs (down_below lo)) as Hz.
  apply sorted_cons in Hs as [Hs Hf]. specialize (IH Hs).
  rewrite filter_cons, leb_below. cbn [cnt]. destruct (below lo (e_key e)); cbn [negb].
  - rewrite decide_False by done. exact IH.
  - rewrite (Hz eq_refl) in *. rewrite decide_True by done. cbn. by rewrite <- IH.
Qed.

Lemma take_upto hi s : sorted s → take (cnt (upto hi) s) s = filter (fun e => bytes_leb (e_key e) hi = true) s.
Proof.
  intros Hs. induction s as [|e s IH]; [done|].
  pose proof (cnt_head_false (upto hi) e s Hs (down_upto hi)) as Hz.
  apply sorted_cons in Hs as [Hs Hf]. specialize (IH Hs).
  rewrite filter_cons. change (bytes_leb (e_key e) hi) with (upto hi (e_key e)). cbn [cnt].
  destruct (upto hi (e_key e)).
  - rewrite decide_True by done. cbn. by rewrite IH.
  - rewrite (Hz eq_refl) in *. rewrite decide_False by done. cbn. rewrite <- IH. by rewrite take_0.
Qed.

(** Whether a scan asks for a key: inside its bounds and not reserved. *)
Definition asked (r : rangeScan) (k : bytes) : bool :=
  negb (IsReservedKey k) &&
  if rs_descending r then (is_empty (rs_start r) || bytes_leb k (rs_start r)) && bytes_leb (rs_stop r) k
  else bytes_leb (rs_start r) k && (is_empty (rs_stop r) || bytes_leb k (rs_stop r)).

(** The answer to a scan of the keys and values [s]. *)
Definition scan_rows (r : rangeScan) (s : list ent) : list RangeResponse :=
  (fun e => rs_response r (e_key e) (e_val e)) <$>
    (if rs_descending r then reverse else id) (filter (fun e => asked r (e_key e) = true) s).

Lemma bytes_leb_nil k : bytes_leb [] k = true.
Proof. by destruct k. Qed.

(** From the first key of the scan on, [inBounds] and the test for reserved
    keys leave what was asked for. *)
Lemma answers_asc r s :
  rs_descending r = false → sorted s → answers r (drop (cnt (below (rs_start r)) s) s) = scan_rows r s.
Proof.
  intros Hd Hs. unfold answers, scan_rows. rewrite Hd. cbn [id]. f_equal.
  rewrite drop_below by done.
  rewrite (take_while_filter ent_lt); [|by apply sorted_filter|].
  - rewrite !list_filter_filter. apply list_filter_iff. intros e. unfold asked, inBounds. rewrite Hd.
    destruct (IsReservedKey (e_key e)), (is_empty (rs_stop r)), (bytes_leb (rs_start r) (e_key e)), (bytes_leb (e_key e) (rs_stop r));
      cbn; intuition congruence.
  - intros a b Hab. unfold inBounds. rewrite Hd. destruct (is_empty (rs_stop r)); [done|].
    apply (down_upto (rs_stop r)), Hab.
Qed.

Lemma answers_desc r s hi :
  rs_descending r = true → sorted s →
  (hi = filter (fun e => is_empty (rs_start r) || bytes_leb (e_key e) (rs_start r) = true) s) →
  answers r (reverse hi) = scan_rows r s.
Proof.
  intros Hd Hs ->. unfold answers, scan_rows. rewrite Hd. f_equal.
  rewrite (take_while_filter (flip ent_lt)).
  - rewrite !filter_reverse. f_equal. rewrite !list_filter_filter. apply list_filter_iff. intros e.
    unfold asked, inBounds. rewrite Hd. destruct (rs_stop r) as [|x y] eqn:Es; cbn [is_empty].
    + rewrite bytes_leb_nil.
      destruct (IsReservedKey (e_key e)), (is_empty (rs_start r) || bytes_leb (e_key e) (rs_start r)); cbn; intuition congruence.
    + destruct (IsReservedKey (e_key e)), (is_empty (rs_start r) || bytes_leb (e_key e) (rs_start r)), (bytes_leb (x :: y) (e_key e));
        cbn; intuition congruence.
  - apply StronglySorted_reverse. rewrite reverse_involutive. by apply sorted_filter.
  - intros a b Hab. unfold inBounds. rewrite Hd. destruct (is_empty (rs_stop r)); [done|].
    rewrite !bytes_leb_le. intros Hb Ha. apply Hb. by eapply bytes_lt_trans.
Qed.

Section service.
Context `{BL : BloomLaws} `{MetaJson}.

Lemma rs_open_spec r tx init commits n :
  sorted init → tx_reads init commits tx n →
  ∃ it rest, rs_open r tx = Ok it ∧ walks (rs_descending r) it rest ∧
    answers r rest = scan_rows r (lives (tx_view init commits tx n)).
Proof.
  intros Hi Hr. set (s := lives (tx_view init commits tx n)). unfold rs_open.
  assert (sorted s) as Hs by (apply lives_sorted, overlay_sorted, state_at_sorted, Hi).
  destruct (tx_Seek_spec init commits tx n Hi Hr (rs_start r)) as (it & Hseek & Hat). fold s in Hat.
  destruct (rs_descending r) eqn:Hd; cbn [negb].
  2: { rewrite Hseek. cbn [or_status]. eexists it, _. split; [done|]. split; [|by apply answers_asc].
       exists s, (Z.of_nat (cnt (below (rs_start r)) s)). split; [done|]. split; [lia|]. by rewrite Nat2Z.id. }
  destruct (is_empty (rs_start r)) eqn:He.
  - destruct (tx_SeekToLast_spec init commits tx n Hi Hr) as (it2 & -> & Hat2). fold s in Hat2. cbn [or_status].
    exists it2, (reverse s). split; [done|]. split.
    + exists s, (Z.of_nat (length s) - 1). split; [done|]. split; [lia|].
      by replace (Z.to_nat (Z.of_nat (length s) - 1 + 1)) with (length s) by lia; rewrite firstn_all.
    + apply answers_desc; [done|done|]. rewrite He. symmetry. by apply filter_all, Forall_true.
  - rewrite Hseek. cbn [or_status]. rs. destruct (step_back _ _ _ Hat) as (back & it2 & -> & Hp & Hat2). rs. rewrite Hp.
    cbn [or_status]. eexists it2, _. split; [done|]. split.
    + exists s, (Z.of_nat (cnt (upto (rs_start r)) s) - 1). split; [done|]. split.
      { pose proof (cnt_le (upto (rs_start r)) s). lia. }
      by replace (Z.to_nat (Z.of_nat (cnt (upto (rs_start r)) s) - 1 + 1)) with (cnt (upto (rs_start r)) s) by lia.
    + apply answers_desc; [done|done|]. rewrite take_upto, He by done. done.
Qed.

Lemma rs_stream_spec r tx env init commits n :
  sorted init → tx_reads init commits tx n → 0 ≤ rs_limit r < 2 ^ 64 →
  ∃ out x, rs_stream r tx env = (out, x) ∧
    delivered r env (scan_rows r (lives (tx_view init commits tx n))) out x.
Proof.
  intros Hi Hr Hl. destruct (rs_open_spec r tx init commits n Hi Hr) as (it & rest & Ho & Hw & <-).
  unfold rs_stream. rewrite Ho. cbn [bindS]. pose proof (walks_length _ _ _ Hw).
  apply (stream_loop_spec r env _ it rest []); [done|lia|done|]. cbn. lia.
Qed.

(** The scan a request asks for: at most the limit of the server. *)
Lemma newRangeScan_limit req limits :
  0 ≤ rr_limit req < 2 ^ 64 → 0 ≤ rl_limit limits < 2 ^ 64 → 0 ≤ rs_limit (newRangeScan req limits) < 2 ^ 64.
Proof. intros Hr Hl. unfold newRangeScan. cbn [rs_limit]. by destruct (_ || _). Qed.

(** ** The handlers on an open store *)

Section handlers.
Context (kv : KV) (init : list ent) (commits : list (list ent)).
Context (Hinv : inv kv init commits) (Hrefs : refs_ok kv) (Hopen : kv_closed kv = false).

(** The committed keys and values. *)
Definition contents : list ent := lives (state_at init commits (length commits)).

Lemma srv_Range_spec limits req env :
  0 ≤ rr_limit req < 2 ^ 64 → 0 ≤ rl_limit limits < 2 ^ 64 →
  let scan := newRangeScan req limits in
  ∃ kv' out x, srv_Range kv limits req env = (kv', ignoreClosedStream (out, x)) ∧
    inv kv' init commits ∧ refs_ok kv' ∧ kv_closed kv' = false ∧
    delivered scan env (scan_rows scan contents) out x.
Proof.
  intros Hreq Hlim scan. destruct (at_work_new kv init commits Hinv Hrefs Hopen) as (kv1 & id & tx & Hn & Hw & Hu).
  unfold srv_Range. rewrite Hn, (aw_tx _ _ _ _ _ _ _ Hw), (set_no_updates tx Hu).
  destruct (rs_stream_spec scan tx env init commits (length commits)) as (out & x & Hst & Hd).
  { apply (i_init _ _ _ _ Hinv). } { apply Hw. } { by apply newRangeScan_limit. }
  fold scan. rewrite Hst. destruct (at_work_abort kv init commits kv1 id tx [] Hw) as (kv2 & -> & Hinv2 & Hrefs2 & Hcl2).
  exists kv2, out, x. split; [done|]. split; [done|]. split; [done|]. split; [done|].
  unfold tx_view in Hd. rewrite Hu in Hd. exact Hd.
Qed.

End handlers.

(** ** A map from keys to values *)

(** Calls that answer with one message. *)
Inductive call := CGet (k : bytes) | CPut (k v : bytes) (mode : Z) | CDelete (k : bytes).
Inductive reply := RGet (v : bytes) | RPut (updated : bool) | RDelete (deleted : bool).

Definition call_key (c : call) : bytes := match c with CGet k | CPut k _ _ | CDelete k => k end.

Definition serve (kv : KV) (ctx : option error) (c : call) : KV * res reply :=
  match c with
  | CGet k => let (kv, r) := srv_Get kv ctx k in (kv, RGet <$> r)
  | CPut k v mode => let (kv, r) := srv_Put kv ctx k v mode in (kv, RPut <$> r)
  | CDelete k => let (kv, r) := srv_Delete kv ctx k in (kv, RDelete <$> r)
  end.

(** Keys a client may address. *)
Definition user_key (k : bytes) : Prop := k ≠ [] ∧ IsReservedKey k = false.

(** What the modes of the wire mean for the value [old]: whether [v] is stored. *)
Definition put_stores (mode : Z) (old : option bytes) (v : bytes) : option bool :=
  if bool_decide (mode = 0 ∨ mode = 1) then Some (bool_decide (old ≠ Some v)) else
  if bool_decide (mode = 2) then Some (bool_decide (old = None)) else
  if bool_decide (mode = 3) then Some (bool_decide (old ≠ None ∧ old ≠ Some v)) else None.

(** The store as a map: each call is one step, with its answer. *)
Definition kvmap : Type := bytes → option bytes.
Definition write (m : kvmap) (k : bytes) (v : option bytes) : kvmap := fun k' => if decide (k' = k) then v else m k'.

Inductive rpc_step (m : kvmap) : option error → call → res reply → kvmap → Prop :=
  | rpc_bad_key ctx c msg : ¬ user_key (call_key c) →
      rpc_step m ctx c (Err (status codes_InvalidArgument msg)) m
  | rpc_cancelled e c : user_key (call_key c) → rpc_step m (Some e) c (Err (FromContextError e)) m
  | rpc_get k v : user_key k → m k = Some v → rpc_step m None (CGet k) (Ok (RGet v)) m
  | rpc_get_none k : user_key k → m k = None →
      rpc_step m None (CGet k) (Err (status codes_NotFound "key not found")) m
  | rpc_put k v mode b : user_key k → put_stores mode (m k) v = Some b →
      rpc_step m None (CPut k v mode) (Ok (RPut b)) (if b then write m k (Some v) else m)
  | rpc_put_mode k v mode msg : user_key k → put_stores mode (m k) v = None →
      rpc_step m None (CPut k v mode) (Err (status codes_InvalidArgument msg)) m
  | rpc_delete k : user_key k →
      rpc_step m None (CDelete k) (Ok (RDelete (bool_decide (m k ≠ None)))) (write m k None).

(** An open store whose committed state is the map [m]. *)
Definition serves (kv : KV) (init : list ent) (commits : list (list ent)) (m : kvmap) : Prop :=
  inv kv init commits ∧ refs_ok kv ∧ kv_closed kv = false ∧ ∀ k, current init commits k = m k.

Lemma validateKey_ok k : validateKey k = Ok tt ↔ user_key k.
Proof.
  unfold validateKey, user_key. destruct k as [|x k]; [split; [done|by intros []]|]. cbn [is_empty].
  destruct (IsReservedKey (x :: k)); split; try done; by intros [].
Qed.

Lemma validateKey_cases k :
  (user_key k ∧ validateKey k = Ok tt) ∨ (¬ user_key k ∧ ∃ msg, validateKey k = Err (status codes_InvalidArgument msg)).
Proof.
  rewrite <- validateKey_ok. destruct (validateKey k) as [[]| | |] eqn:E; [by left|right..];
    (split; [done|]); unfold validateKey in E; repeat case_if_in E; inv_ok; simplify_eq; eauto.
Qed.

Lemma rpc_updateMode_stores mode old v :
  match rpc_updateMode mode with
  | Ok m => mode_valid m ∧ put_stores mode old v = Some (mode_updates m old v)
  | Err e => put_stores mode old v = None ∧ ∃ msg, e = status codes_InvalidArgument msg
  | _ => False
  end.
Proof.
  unfold rpc_updateMode, put_stores, PUT_MODE_UPSERT, PUT_MODE_UNSPECIFIED, PUT_MODE_INSERT, PUT_MODE_UPDATE.
  destruct (Z.eqb_spec mode 1) as [->|Hm1]; [split; [by left|done]|].
  destruct (Z.eqb_spec mode 0) as [->|Hm0]; [split; [by left|done]|]. cbn [orb].
  destruct (Z.eqb_spec mode 2) as [->|Hm2]; [split; [by right; left|done]|].
  destruct (Z.eqb_spec mode 3) as [->|Hm3]; [split; [by right; right|done]|].
  rewrite !bool_decide_false by lia. eauto.
Qed.

(** A commit of one entry is a write of the map. *)
Lemma serves_commit init commits m k v del :
  sorted init → (∀ k, current init commits k = m k) →
  ∀ k', current init (commits ++ [[Ent k v del]]) k' = write m k (if del then None else Some v) k'.
Proof.
  intros Hi Hm k'. rewrite current_commit by done. unfold write. cbn [assoc e_key].
  destruct (decide (k' = k)) as [->|Hk].
  - rewrite bytes_equal_refl. cbn. by destruct del.
  - by rewrite bytes_equal_false by congruence.
Qed.

#[export] Instance user_key_dec k : Decision (user_key k).
Proof. unfold user_key. apply _. Defined.

(** The entry a call asks the store to write, if any. *)
Definition call_writes (m : kvmap) (ctx : option error) (c : call) : list ent :=
  match ctx, c with
  | None, CPut k v mode =>
      if decide (user_key k) then match put_stores mode (m k) v with Some true => [Ent k v false] | _ => [] end else []
  | None, CDelete k => if decide (user_key k) then if bool_decide (m k ≠ None) then [Ent k [] true] else [] else []
  | _, _ => []
  end.

Definition call_message (c : call) : string :=
  match c with CGet _ => "get key" | CPut _ _ _ => "put key" | CDelete _ => "delete key" end.

(** What a call answers when the log refuses its entry: Internal, with the
    message of the handler. *)
Definition refused (c : call) (l : res unit) : res reply :=
  match l with
  | Ok _ | Err _ => Err (status codes_Internal (call_message c))
  | Panic s => Panic s
  | OutOfFuel => OutOfFuel
  end.

(** The outcome of a call: a step of the map, or the refusal of its own entry. *)
Definition call_outcome (kv kv' : KV) (init : list ent) (commits : list (list ent)) (m : kvmap) (ctx : option error) (c : call) (r : res reply) : Prop :=
  match log_result kv (call_writes m ctx c) with
  | Ok _ => ∃ commits' m', rpc_step m ctx c r m' ∧ serves kv' init commits' m' ∧ (length commits' ≤ S (length commits))%nat
  | l => r = refused c l ∧ serves kv' init commits m
  end.

Lemma serves_weaken kv init commits m m' : (∀ k, m k = m' k) → serves kv init commits m → serves kv init commits m'.
Proof. intros He (Hi & Hr & Ho & Hm). split_and!; [done..|]. intros k. by rewrite Hm. Qed.

Lemma serve_get kv init commits m k :
  serves kv init commits m → user_key k →
  ∃ kv', serve kv None (CGet k) =
      (kv', match m k with Some v => Ok (RGet v) | None => Err (status codes_NotFound "key not found") end) ∧
    serves kv' init commits m.
Proof.
  intros (Hi & Hr & Ho & Hm) Hk%validateKey_ok. cbn [serve]. unfold srv_Get. rewrite Hk. cbn [bindS ctx_check].
  destruct (kv_Get_spec kv init commits Hi Hr Ho k) as (kv' & -> & Hi' & Hr' & Ho'). cbn [or_status bindS].
  exists kv'. rewrite Hm. split; [by destruct (m k)|done].
Qed.

Lemma serve_put kv init commits m k v mode md :
  serves kv init commits m → Z.of_nat (length commits) < 2 ^ 64 - 1 → user_key k →
  rpc_updateMode mode = Ok md → mode_valid md → put_stores mode (m k) v = Some (mode_updates md (m k) v) →
  ∃ kv' r, serve kv None (CPut k v mode) = (kv', r) ∧ call_outcome kv kv' init commits m None (CPut k v mode) r.
Proof.
  intros (Hi & Hr & Ho & Hm) Hlen Hu Hmd Hv Hst. pose proof (proj2 (validateKey_ok k) Hu) as Hk.
  unfold call_outcome, call_writes. rewrite decide_True, Hst by done. cbn [serve]. unfold srv_Put. rewrite Hk, Hmd. cbn [bindS ctx_check].
  destruct (kv_SetEx_spec kv init commits Hi Hr Ho k v md Hv Hlen) as (kv' & r & commits' & -> & Hi' & Hr' & Ho' & Hc).
  rewrite Hm in Hc. eexists kv', _. split; [done|].
  replace (match mode_updates md (m k) v with true => [Ent k v false] | false => [] end)
    with (if mode_updates md (m k) v then [Ent k v false] else []) by done.
  destruct Hc as [(-> & -> & ->)|(-> & Hne & -> & Hl)].
  - exists (if decide ((if mode_updates md (m k) v then [Ent k v false] else []) = []) then commits
            else commits ++ [if mode_updates md (m k) v then [Ent k v false] else []]),
      (if mode_updates md (m k) v then write m k (Some v) else m).
    split; [by constructor|]. destruct (mode_updates md (m k) v);
      [rewrite decide_False in * by done|rewrite decide_True in * by done].
    + split; [|rewrite length_app; cbn; lia]. split_and!; [done..|by apply serves_commit; [apply (i_init _ _ _ _ Hi)|]].
    + split; [by split_and!|lia].
  - unfold log_result. rewrite decide_False by done. by destruct (snd (updateLog _ _)) as [[]| | |].
Qed.

Lemma serve_delete kv init commits m k :
  serves kv init commits m → Z.of_nat (length commits) < 2 ^ 64 - 1 → user_key k →
  ∃ kv' r, serve kv None (CDelete k) = (kv', r) ∧ call_outcome kv kv' init commits m None (CDelete k) r.
Proof.
  intros (Hi & Hr & Ho & Hm) Hlen Hu. pose proof (proj2 (validateKey_ok k) Hu) as Hk.
  unfold call_outcome, call_writes. rewrite decide_True by done. cbn [serve]. unfold srv_Delete. rewrite Hk. cbn [bindS ctx_check].
  destruct (kv_Del_spec kv init commits Hi Hr Ho k Hlen) as (kv' & r & commits' & -> & Hi' & Hr' & Ho' & Hc).
  rewrite Hm in Hc. eexists kv', _. split; [done|]. destruct Hc as [(-> & -> & ->)|(-> & Hne & -> & Hl)].
  - case_bool_decide as Hb; [rewrite decide_False in * by done|rewrite decide_True in * by done].
    + eexists _, (write m k None). split; [rewrite <- (bool_decide_true _ Hb); by constructor|]. split; [split_and!; [done..|by apply (serves_commit _ _ _ _ [] true); [apply (i_init _ _ _ _ Hi)|]]|]. rewrite length_app. cbn. lia.
    + assert (∀ k', current init commits k' = write m k None k') as Hw.
      { intros k'. rewrite Hm. unfold write. destruct (decide (k' = k)) as [->|]; [|done]. by destruct (m k); [destruct Hb|]. }
      exists commits, (write m k None). split; [|split; [by split_and!|lia]].
      rewrite <- (bool_decide_false (m k ≠ None)) by (by intros []). by constructor.
  - unfold log_result. rewrite decide_False by done. by destruct (snd (updateLog _ _)) as [[]| | |].
Qed.

(** Calls the handlers refuse before they touch the store. *)
Lemma serve_bad_key kv ctx c : ¬ user_key (call_key c) →
  ∃ msg, serve kv ctx c = (kv, Err (status codes_InvalidArgument msg)).
Proof.
  intros Hk. destruct (validateKey_cases (call_key c)) as [[Hu _]|[_ [msg Hv]]]; [done|]. exists msg.
  destruct c; cbn in *; unfold srv_Get, srv_Put, srv_Delete; by rewrite Hv.
Qed.

Lemma serve_cancelled kv e c : user_key (call_key c) → serve kv (Some e) c = (kv, Err (FromContextError e)).
Proof. intros Hk%validateKey_ok. destruct c; cbn in *; unfold srv_Get, srv_Put, srv_Delete; by rewrite Hk. Qed.

(** Every call is a step of the map, unless the log refuses what it writes. *)
Lemma serve_refines kv init commits m ctx c :
  serves kv init commits m → Z.of_nat (length commits) < 2 ^ 64 - 1 →
  ∃ kv' r, serve kv ctx c = (kv', r) ∧ call_outcome kv kv' init commits m ctx c r.
Proof.
  intros Hs Hlen.
  assert (∀ kv' r, call_writes m ctx c = [] → rpc_step m ctx c r m → serves kv' init commits m → call_outcome kv kv' init commits m ctx c r) as Hquiet.
  { intros kv' r Hw Hst Hs'. unfold call_outcome. rewrite Hw. exists commits, m. split; [done|]. split; [done|lia]. }
  destruct (validateKey_cases (call_key c)) as [[Hk _]|[Hk _]].
  2: { destruct (serve_bad_key kv ctx c Hk) as [msg ->]. eexists _, _. split; [done|]. apply Hquiet; [|by constructor|done].
       destruct ctx, c; try done; cbn in Hk |- *; by rewrite decide_False. }
  destruct ctx as [e|].
  { rewrite (serve_cancelled kv e c Hk). eexists _, _. split; [done|]. apply Hquiet; [done|by constructor|done]. }
  destruct c as [k|k v mode|k]; cbn [call_key] in Hk.
  - destruct (serve_get _ _ _ _ k Hs Hk) as (kv' & -> & Hs'). eexists _, _. split; [done|]. apply Hquiet; [done| |done].
    destruct (m k) eqn:Em; by constructor.
  - pose proof (rpc_updateMode_stores mode (m k) v) as Hst. destruct (rpc_updateMode mode) as [md|e| |] eqn:Emd; [| |done|done].
    + destruct Hst as [Hv Hst]. by eapply serve_put.
    + destruct Hst as [Hst [msg ->]]. cbn [serve]. unfold srv_Put. rewrite (proj2 (validateKey_ok k) Hk), Emd. cbn [bindS].
      eexists _, _. split; [done|]. apply Hquiet; [|by constructor|done]. cbn. rewrite decide_True, Hst by done. done.
  - by apply serve_delete.
Qed.

(** A step changes nothing but a key the client may address. *)
Lemma rpc_step_reserved m ctx c r m' k : rpc_step m ctx c r m' → ¬ user_key k → m' k = m k.
Proof.
  intros Hs Hk. destruct Hs as [| | | |k0 v mode b Hu| |k0 Hu]; try done.
  - destruct b; [|done]. unfold write. by rewrite decide_False by (by intros ->).
  - unfold write. by rewrite decide_False by (by intros ->).
Qed.

(** What a Put answers decides what it wrote. *)
Lemma rpc_step_put m k v mode b m' :
  rpc_step m None (CPut k v mode) (Ok (RPut b)) m' → m' = if b then write m k (Some v) else m.
Proof. by inversion 1. Qed.

(** A call that answers is a step of the map. *)
Lemma answered_step kv kv' init commits m ctx c x :
  call_outcome kv kv' init commits m ctx c (Ok x) → ∃ m', rpc_step m ctx c (Ok x) m'.
Proof. unfold call_outcome, refused. destruct (log_result _ _); [intros (? & m' & ? & _); eauto|by intros []..]. Qed.

End service.
