(* ===== verification/Client.v ===== *)
(** * The client: client/client.go and client/kv.go

    A call runs on the active connection and is repeated on the leader when it
    fails with [codes.Unavailable].  A connection is its address: the client
    caches one connection per address.  The servers and the network are the
    state [W] with the outcome of the remote calls and of dialling. *)

From Stdlib Require Import ZArith Lia.
From Stdlib.Strings Require Import Byte.
From stdpp Require Import base list numbers strings.
From S2P Require Import Prelude GoLib Service.

Open Scope Z_scope.

(** ** Errors of a call *)

(** [errors.As(err, &noRetry{})] *)
Definition unwrapNoRetry (e : error) : error := match e with noRetry e => e | _ => e end.

Definition isRedirectable (e : error) : bool :=
  match e with
  | noRetry _ => false
  | _ => bool_decide (status_Code e = codes_Unavailable)
  end.

Definition guard (e : error) (delivered : bool) : error := if delivered then noRetry e else e.

Definition IsPartialScan (e : error) : bool := bool_decide (status_Code e = codes_DeadlineExceeded).

Definition mapNotFound (e : error) : error :=
  if bool_decide (status_Code e = codes_NotFound) then client_ErrNotFound else e.

(** ** The client *)

Record Client := MkClient {
  cl_maxRedirects : Z;
  cl_seedAddr : string;
  cl_conns : list string;
  cl_active : string;
  cl_closed : bool;
}.

(** [New]: the seed is dialled lazily. *)
Definition client_New (addr : string) (maxRedirects : Z) : res Client :=
  if bool_decide (addr = EmptyString) then Err (errorsNew "pallasdb: server address is required")
  else Ok (MkClient maxRedirects addr [addr] addr false).

Definition client_Close (c : Client) : Client :=
  MkClient (cl_maxRedirects c) (cl_seedAddr c) [] (cl_active c) true.

Definition client_current (c : Client) : res string :=
  if cl_closed c then Err client_ErrClosed else Ok (cl_active c).

Definition setActive (c : Client) (cn : string) : Client :=
  if cl_closed c then c else MkClient (cl_maxRedirects c) (cl_seedAddr c) (cl_conns c) cn false.

Section network.
(** The state of the servers, what dialling an address gives, and the answer of
    [GetLeader] on a connection. *)
Context {W : Type} (dial : string → res unit) (rpc_GetLeader : string → W → W * res string).

Definition connFor (c : Client) (addr : string) : Client * res string :=
  if cl_closed c then (c, Err client_ErrClosed) else
  if bool_decide (addr ∈ cl_conns c) then (c, Ok addr) else
  let! (c, _u) := (c, dial addr) in
  (MkClient (cl_maxRedirects c) (cl_seedAddr c) (addr :: cl_conns c) (cl_active c) false, Ok addr).

(** The loop over the candidates, with the last error. *)
Fixpoint ask_candidates (c : Client) (w : W) (candidates : list string) (lastErr : error) : (Client * W) * res string :=
  match candidates with
  | [] => ((c, w), Err lastErr)
  | candidate :: candidates =>
      match rpc_GetLeader candidate w with
      | (w, Ok addr) =>
          if bool_decide (addr = EmptyString) then ask_candidates c w candidates client_ErrNoLeader else
          match connFor c addr with
          | (c, Ok leader) => ((setActive c leader, w), Ok leader)
          | (c, Err e) => ask_candidates c w candidates e
          | (c, Panic s) => ((c, w), Panic s)
          | (c, OutOfFuel) => ((c, w), OutOfFuel)
          end
      | (w, Err e) => ask_candidates c w candidates e
      | (w, Panic s) => ((c, w), Panic s)
      | (w, OutOfFuel) => ((c, w), OutOfFuel)
      end
  end.

Definition resolveLeader (c : Client) (w : W) (from : string) : (Client * W) * res string :=
  if bool_decide (from = cl_seedAddr c) then ask_candidates c w [from] client_ErrNoLeader else
  match connFor c (cl_seedAddr c) with
  | (c, Ok seed) => ask_candidates c w [from; seed] client_ErrNoLeader
  | (c, _) => ask_candidates c w [from] client_ErrNoLeader
  end.

(** ** Calls *)

Section call.
(** [S] is the state of the function that is called. *)
Context {S : Type} (fn : string → W * S → (W * S) * res unit).

(** The retries, at most [attempts] more. *)
Fixpoint retry (attempts : nat) (c : Client) (cn : string) (ws : W * S) (r : res unit) : Client * ((W * S) * res unit) :=
  match attempts, r with
  | Datatypes.S attempts, Err e =>
      if isRedirectable e then
        match resolveLeader c (fst ws) cn with
        | ((c, w), Ok next) =>
            if bool_decide (next = cn) then (c, ((w, snd ws), r)) else
            let (ws, r) := fn next (w, snd ws) in retry attempts c next ws r
        | ((c, w), _) => (c, ((w, snd ws), r))
        end
      else (c, (ws, r))
  | _, _ => (c, (ws, r))
  end.

Definition client_call (c : Client) (ws : W * S) : Client * ((W * S) * res unit) :=
  match client_current c with
  | Ok cn =>
      let (ws, r) := fn cn ws in
      let '(c, (ws, r)) := retry (Z.to_nat (cl_maxRedirects c)) c cn ws r in
      (c, (ws, match r with Err e => Err (unwrapNoRetry e) | _ => r end))
  | Err e => (c, (ws, Err e))
  | Panic s => (c, (ws, Panic s))
  | OutOfFuel => (c, (ws, OutOfFuel))
  end.

End call.

(** *** Get, Put and Delete

    The variable the closure assigns is the state of the call. *)

Context (rpc_Get : string → bytes → W → W * res bytes).
Context (rpc_Put : string → bytes → bytes → Z → W → W * res bool).
Context (rpc_Delete : string → bytes → W → W * res bool).

Definition assign {A} (r : W * res A) (old : A) : (W * A) * res unit :=
  match r with
  | (w, Ok a) => ((w, a), Ok tt)
  | (w, Err e) => ((w, old), Err e)
  | (w, Panic s) => ((w, old), Panic s)
  | (w, OutOfFuel) => ((w, old), OutOfFuel)
  end.

(** The result of the method from the variable and the error of [call]. *)
Definition answer {A} (mapErr : error → error) (r : Client * ((W * A) * res unit)) : Client * W * res A :=
  let '(c, ((w, a), e)) := r in
  (c, w, match e with Ok _ => Ok a | Err e => Err (mapErr e) | Panic s => Panic s | OutOfFuel => OutOfFuel end).

Definition client_Get (c : Client) (w : W) (key : bytes) : Client * W * res bytes :=
  answer mapNotFound (client_call (fun cn '(w, v) => assign (rpc_Get cn key w) v) c (w, [])).

Inductive PutMode := PutUpsert | PutInsert | PutUpdate.

Definition PutMode_proto (m : PutMode) : Z :=
  match m with
  | PutInsert => PUT_MODE_INSERT
  | PutUpdate => PUT_MODE_UPDATE
  | PutUpsert => PUT_MODE_UPSERT
  end.

Definition client_Put (c : Client) (w : W) (key val : bytes) (mode : PutMode) : Client * W * res bool :=
  answer id (client_call (fun cn '(w, b) => assign (rpc_Put cn key val (PutMode_proto mode) w) b) c (w, false)).

Definition client_Delete (c : Client) (w : W) (key : bytes) : Client * W * res bool :=
  answer mapNotFound (client_call (fun cn '(w, b) => assign (rpc_Delete cn key w) b) c (w, false)).

(** *** Range *)

(** One stream of a server: its messages and the status at its end. *)
Context (rpc_Range : string → RangeRequest → W → W * (list RangeResponse * res unit)).

(** The loop around [stream.Recv]; [fn] is the function of the caller. *)
Fixpoint recv_loop {S} (fn : S → RangeResponse → S * res unit) (msgs : list RangeResponse) (status : res unit)
    (delivered : bool) (s : S) : S * res unit :=
  match msgs with
  | [] => (s, match status with Err e => Err (guard e delivered) | _ => status end)
  | msg :: msgs =>
      match fn s msg with
      | (s, Ok _) => recv_loop fn msgs status true s
      | (s, Err e) => (s, if bool_decide (e = io_EOF) then Ok tt else Err (noRetry e))
      | (s, Panic m) => (s, Panic m)
      | (s, OutOfFuel) => (s, OutOfFuel)
      end
  end.

Definition client_Range {S} (c : Client) (w : W) (req : RangeRequest) (fn : S → RangeResponse → S * res unit) (s : S) :
    Client * ((W * S) * res unit) :=
  client_call (fun cn '(w, s) =>
    let '(w, (msgs, status)) := rpc_Range cn req w in
    let (s, r) := recv_loop fn msgs status false s in ((w, s), r)) c (w, s).

Definition client_RangeSlice (c : Client) (w : W) (req : RangeRequest) : Client * W * res (list RangeResponse) :=
  answer id (client_Range c w req (fun out kv => (out ++ [kv], Ok tt)) []).

(** ** Properties *)

Lemma recv_collect msgs status delivered out :
  recv_loop (fun out kv => (out ++ [kv], Ok tt)) msgs status delivered out =
    (out ++ msgs, match status with
                  | Err e => Err (guard e (delivered || negb (bool_decide (msgs = []))))
                  | _ => status
                  end).
Proof.
  revert delivered out. induction msgs as [|m msgs IH]; intros delivered out; cbn [recv_loop].
  - rewrite app_nil_r, bool_decide_true by done. cbn. by rewrite orb_false_r.
  - rewrite IH, <- app_assoc. cbn. by rewrite orb_true_r.
Qed.

(** The rows [s] and the error [r] are those of one stream of one server. *)
Definition one_stream (req : RangeRequest) (s : list RangeResponse) (r : res unit) : Prop :=
  ∃ cn w0 w1 status, rpc_Range cn req w0 = (w1, (s, status)) ∧
    r = match status with Err e => Err (guard e (negb (bool_decide (s = [])))) | _ => status end.

Lemma one_stream_redirectable req s e : one_stream req s (Err e) → isRedirectable e = true → s = [].
Proof.
  intros (cn & w0 & w1 & status & _ & Hr) He. destruct status as [|e0| |]; [done| |done|done].
  injection Hr as ->. destruct (decide (s = [])) as [|Hs]; [done|]. by rewrite bool_decide_false in He.
Qed.

Definition collecting (req : RangeRequest) (cn : string) (ws : W * list RangeResponse) : (W * list RangeResponse) * res unit :=
  let '(w, s) := ws in
  let '(w, (msgs, status)) := rpc_Range cn req w in
  let (s, r) := recv_loop (fun out kv => (out ++ [kv], Ok tt)) msgs status false s in ((w, s), r).

Lemma collecting_one req cn w ws r : collecting req cn (w, []) = (ws, r) → one_stream req (snd ws) r.
Proof.
  unfold collecting. destruct (rpc_Range cn req w) as [w1 [msgs status]] eqn:E. rewrite recv_collect. cbn [app].
  intros [= <- <-]. exists cn, w, w1, status. by cbn.
Qed.

Lemma retry_one req n c cn ws r c' ws' r' :
  retry (collecting req) n c cn ws r = (c', (ws', r')) → one_stream req (snd ws) r → one_stream req (snd ws') r'.
Proof.
  revert c cn ws r. induction n as [|n IH]; intros c cn ws r Hr Ho; cbn [retry] in Hr; [by simplify_eq|].
  destruct r as [u|e| |]; [by simplify_eq| |by simplify_eq..].
  destruct (isRedirectable e) eqn:He; [|by simplify_eq].
  pose proof (one_stream_redirectable _ _ _ Ho He) as Hs.
  destruct (resolveLeader c (fst ws) cn) as [[c1 w1] [next| | |]]; [|by simplify_eq..].
  case_bool_decide; [by simplify_eq|]. rewrite Hs in Hr.
  destruct (collecting req next (w1, [])) as [ws2 r2] eqn:E. by eapply IH; [exact Hr|apply collecting_one in E].
Qed.

(** However often a scan is redirected, the caller gets the rows of one stream. *)
Lemma client_Range_one c w req c' ws r :
  cl_closed c = false → client_Range c w req (fun out kv => (out ++ [kv], Ok tt)) [] = (c', (ws, r)) →
  ∃ cn w0 w1 status, rpc_Range cn req w0 = (w1, (snd ws, status)) ∧ (r = Ok tt → status = Ok tt) ∧
    (∀ e, r = Err e → ∃ e', status = Err e' ∧ (e = e' ∨ e = unwrapNoRetry e')).
Proof.
  intros Hc Hr. change (client_call (collecting req) c (w, []) = (c', (ws, r))) in Hr.
  unfold client_call, client_current in Hr. rewrite Hc in Hr.
  destruct (collecting req (cl_active c) (w, [])) as [ws1 r1] eqn:E1. apply collecting_one in E1.
  destruct (retry (collecting req) (Z.to_nat (cl_maxRedirects c)) c (cl_active c) ws1 r1) as [c2 [ws2 r2]] eqn:E2. eapply retry_one in E2; [|done].
  injection Hr as <- <- <-. destruct E2 as (cn & w0 & w1 & status & Hrg & ->). exists cn, w0, w1, status.
  split; [done|]. destruct status as [[]|e| |]; (split; [done|]); intros e1 He1; try done. exists e. split; [done|].
  injection He1 as <-. unfold guard. case_bool_decide; cbn; eauto.
Qed.

(** A function of the caller that never fails sees every message. *)
Lemma recv_fold {S} (fn : S → RangeResponse → S * res unit) (f : S → RangeResponse → S) msgs status delivered s :
  (∀ s m, fn s m = (f s m, Ok tt)) →
  recv_loop fn msgs status delivered s =
    (foldl f s msgs, match status with
                     | Err e => Err (guard e (delivered || negb (bool_decide (msgs = []))))
                     | _ => status
                     end).
Proof.
  intros Hf. revert delivered s. induction msgs as [|m msgs IH]; intros delivered s; cbn [recv_loop foldl].
  - rewrite bool_decide_true by done. cbn. by rewrite orb_false_r.
  - rewrite Hf, IH. cbn. by rewrite orb_true_r.
Qed.

(** A call that needs no redirect runs once. *)
Lemma call_once {S} (fn : string → W * S → (W * S) * res unit) c ws ws' r :
  cl_closed c = false → fn (cl_active c) ws = (ws', r) → (∀ e, r = Err e → isRedirectable e = false) →
  client_call fn c ws = (c, (ws', match r with Err e => Err (unwrapNoRetry e) | _ => r end)).
Proof.
  intros Hc Hf Hr. unfold client_call, client_current. rewrite Hc, Hf.
  assert (retry fn (Z.to_nat (cl_maxRedirects c)) c (cl_active c) ws' r = (c, (ws', r))) as ->; [|done].
  destruct (Z.to_nat (cl_maxRedirects c)); [done|]. cbn [retry]. destruct r as [|e| |]; try done. by rewrite (Hr e).
Qed.

End network.
