(* ===== verification/Dump.v ===== *)
(** * Backups: cmd/pallasdb/dump.go

    The dump stream at byte level, the export of a local directory and of a
    server, and the import into either.  Failures of the output and of the
    input other than a short stream are not modelled; flags, files and messages
    of the commands are left out. *)

From Stdlib Require Import ZArith Lia.
From Stdlib.Strings Require Import Byte.
From stdpp Require Import base list numbers strings.
From S2P Require Import Prelude GoLib SortedSeq SortedKV SortedArray Merge SortedFile KVIterators Metadata KV KVCompact.
From S2P Require Import Reopen Command Snapshot FSM Service Client.

Open Scope Z_scope.

Definition dumpMagic : bytes := bs "PALLASDUMP" ++ [x01].
Definition dumpTagRecord : byte := x01.
Definition dumpTagEnd : byte := x00.
Definition restoreBatchSize : Z := 1000.
Definition maxDumpEntryBytes : Z := 2 ^ 30.

(** ** The stream *)

(** What was written, the running CRC and the number of records. *)
Record dumpWriter := MkDW { dw_w : bytes; dw_crc : Z; dw_count : Z }.

Definition newDumpWriter : dumpWriter := MkDW dumpMagic crc32c_New 0.

Definition dw_emit (d : dumpWriter) (p : bytes) : dumpWriter :=
  MkDW (dw_w d ++ p) (crc32c_Write (dw_crc d) p) (dw_count d).

Definition writeEntry (d : dumpWriter) (key value : bytes) : dumpWriter :=
  let d := dw_emit d (AppendUvarint [dumpTagRecord] (blen key)) in
  let d := dw_emit d key in
  let d := dw_emit d (AppendUvarint [] (blen value)) in
  let d := dw_emit d value in
  MkDW (dw_w d) (dw_crc d) (u64 (dw_count d + 1)).

(** [finish]: the whole stream and the count. *)
Definition dw_finish (d : dumpWriter) : bytes * Z :=
  let trailer := [dumpTagEnd] ++ AppendUvarint [] (dw_count d) in
  let trailer := trailer ++ be_bytes 4 (crc32c_Sum32 (dw_crc d)) in
  (dw_w d ++ trailer, dw_count d).

(** The rest of the input, the running CRC and the number of records. *)
Record dumpReader := MkDR { dr_r : bytes; dr_crc : Z; dr_count : Z }.

Definition newDumpReader (input : bytes) : res dumpReader :=
  match stream_ReadFull input (length dumpMagic) with
  | Ok (magic, rest) => if bytes_equal magic dumpMagic then Ok (MkDR rest crc32c_New 0) else Err errDumpCorrupt
  | _ => Err errDumpCorrupt
  end.

(** [binary.ReadUvarint] reads byte by byte what [Uvarint] decodes. *)
Definition ReadUvarint (rest : bytes) : res (Z * bytes * bytes) :=
  match Uvarint rest with
  | Some (v, n) => Ok (v, take n rest, drop n rest)
  | None => Err errDumpCorrupt
  end.

(** [binary.ReadUvarint(d)] with the CRC of [ReadByte]. *)
Definition dr_ReadUvarint (d : dumpReader) : res (Z * dumpReader) :=
  '(v, p, rest) ← ReadUvarint (dr_r d); Ok (v, MkDR rest (crc32c_Write (dr_crc d) p) (dr_count d)).

Definition dr_readN (d : dumpReader) (n : Z) : res (bytes * dumpReader) :=
  if maxDumpEntryBytes <? n then Err errDumpCorrupt else
  match stream_ReadFull (dr_r d) (Z.to_nat n) with
  | Ok (buf, rest) => Ok (buf, MkDR rest (crc32c_Write (dr_crc d) buf) (dr_count d))
  | _ => Err errDumpCorrupt
  end.

(** [verifyTrailer] ends in [io.EOF] or in an error. *)
Definition verifyTrailer (d : dumpReader) : error :=
  match ReadUvarint (dr_r d) with
  | Ok (want, _, rest) =>
      match stream_ReadFull rest 4 with
      | Ok (checksum, _) =>
          if negb (want =? dr_count d) then errDumpCorrupt else
          if negb (be_val checksum =? crc32c_Sum32 (dr_crc d)) then errDumpCorrupt else
          io_EOF
      | _ => errDumpCorrupt
      end
  | _ => errDumpCorrupt
  end.

Definition dr_next (d : dumpReader) : res (bytes * bytes * dumpReader) :=
  match dr_r d with
  | [] => Err errDumpCorrupt
  | tag :: rest =>
      if bool_decide (tag = dumpTagEnd) then Err (verifyTrailer (MkDR rest (dr_crc d) (dr_count d))) else
      if negb (bool_decide (tag = dumpTagRecord)) then Err errDumpCorrupt else
      let d := MkDR rest (crc32c_Write (dr_crc d) [tag]) (dr_count d) in
      '(keyLen, d) ← dr_ReadUvarint d;
      '(key, d) ← dr_readN d keyLen;
      '(valueLen, d) ← dr_ReadUvarint d;
      '(value, d) ← dr_readN d valueLen;
      Ok (key, value, MkDR (dr_r d) (dr_crc d) (u64 (dr_count d + 1)))
  end.

(** ** A local directory *)

Section local.
Context `{Bloom} `{MetaJson}.

(** The loop of [dumpLocal] over the iterator. *)
Fixpoint dump_loop `{!KVIter It} (fuel : nat) (iter : It) (writer : dumpWriter) : res dumpWriter :=
  if negb (Valid iter) then Ok writer else
  match fuel with
  | O => OutOfFuel
  | S fuel =>
      key ← Key iter; val ← Val iter;
      iter ← Next iter;
      dump_loop fuel iter (writeEntry writer key val)
  end.

(** [dumpLocal] on the directory [d]: the writer, and what the directory holds
    afterwards. *)
Definition dumpLocal (opts : KVOptions) (d : disk) (writer : dumpWriter) : disk * res dumpWriter :=
  match kv_Open opts d with
  | Ok store =>
      let (store, r) := kv_IterAll store in
      match r with
      | Ok (iter, id) =>
          let r := dump_loop (steps iter) iter writer in
          match abortTX store id with
          | Ok store => let! (d, _c) := (disk_of store, kv_Close store) in (d, r)
          | Err e => (disk_of store, Err e)
          | Panic s => (disk_of store, Panic s)
          | OutOfFuel => (disk_of store, OutOfFuel)
          end
      | Err e => let! (d, _c) := (disk_of store, kv_Close store) in (d, Err e)
      | Panic s => (disk_of store, Panic s)
      | OutOfFuel => (disk_of store, OutOfFuel)
      end
  | Err e => (d, Err e)
  | Panic s => (d, Panic s)
  | OutOfFuel => (d, OutOfFuel)
  end.

(** The loop of [restoreLocal]; [id] is the open transaction.  [inl] is the end
    of the stream with the transaction to commit, [inr] an error with the
    transaction the deferred function aborts, if any. *)
Fixpoint restore_loop (fuel : nat) (store : KV) (id : nat) (reader : dumpReader) (count pending : Z) :
    KV * res ((nat * Z) + (error * option nat)) :=
  match fuel with
  | O => (store, OutOfFuel)
  | S fuel =>
      match dr_next reader with
      | Ok (key, value, reader) =>
          match with_tx store id (fun tx => tx_Set tx key value) with
          | (store, Ok _) =>
              let count := u64 (count + 1) in
              let pending := pending + 1 in
              if restoreBatchSize <=? pending then
                match applyTXSync store id with
                | (store, Ok _) =>
                    let! (store, p) := (store, NewTX store) in
                    let (store, id) := (p : KV * nat) in
                    restore_loop fuel store id reader count 0
                | (store, Err e) => (store, Ok (inr (e, None)))
                | (store, Panic s) => (store, Panic s)
                | (store, OutOfFuel) => (store, OutOfFuel)
                end
              else restore_loop fuel store id reader count pending
          | (store, Err e) => (store, Ok (inr (e, Some id)))
          | (store, Panic s) => (store, Panic s)
          | (store, OutOfFuel) => (store, OutOfFuel)
          end
      | Err e => (store, Ok (if bool_decide (e = io_EOF) then inl (id, count) else inr (e, Some id)))
      | Panic s => (store, Panic s)
      | OutOfFuel => (store, OutOfFuel)
      end
  end.

(** The body of [restoreLocal] on the open store: what it returns, before the
    deferred [Close]. *)
Definition restore_store (store : KV) (reader : dumpReader) : KV * res Z :=
  let! (store, p) := (store, NewTX store) in
  let (store, id) := (p : KV * nat) in
  let! (store, r) := restore_loop (S (length (dr_r reader))) store id reader 0 0 in
  match r with
  | inl (id, count) => let! (store, _u) := applyTXSync store id in (store, Ok count)
  | inr (e, Some id) => let! (store, store') := (store, abortTX store id) in (store', Err e)
  | inr (e, None) => (store, Err e)
  end.

Definition restoreLocal (opts : KVOptions) (d : disk) (reader : dumpReader) : disk * res Z :=
  match kv_Open opts d with
  | Ok store =>
      let (store, r) := restore_store store reader in
      let! (d, _c) := (disk_of store, kv_Close store) in (d, r)
  | Err e => (d, Err e)
  | Panic s => (d, Panic s)
  | OutOfFuel => (d, OutOfFuel)
  end.

End local.

(** ** A server *)

Section remote.
Context {W : Type} (dial : string → res unit) (rpc_GetLeader : string → W → W * res string).
Context (rpc_Put : string → bytes → bytes → Z → W → W * res bool).
Context (rpc_Range : string → RangeRequest → W → W * (list RangeResponse * res unit)).

(** The variables of one page: the writer, [added] and [lastKey].  An empty
    field of a message arrives as nil. *)
Record page := MkPage { pg_writer : dumpWriter; pg_added : Z; pg_lastKey : option bytes }.

Definition wire_bytes (b : bytes) : option bytes := if is_empty b then None else Some b.

(** The function [dumpRemote] passes to [Range]. *)
Definition dump_entry (resumeFrom : option bytes) (p : page) (kv : RangeResponse) : page * res unit :=
  if match resumeFrom with Some k => bytes_equal (rp_Key kv) k | None => false end then (p, Ok tt) else
  (MkPage (writeEntry (pg_writer p) (rp_Key kv) (default [] (rp_Value kv))) (u64 (pg_added p + 1)) (wire_bytes (rp_Key kv)), Ok tt).

(** The loop of [dumpRemote]; [cancelled] says after which page [ctx.Err()] is
    set. *)
Fixpoint dump_pages (fuel : nat) (cancelled : nat → bool) (n : nat) (consistency : Z) (resumeFrom : option bytes)
    (c : Client) (w : W) (writer : dumpWriter) : W * dumpWriter * res unit :=
  match fuel with
  | O => (w, writer, OutOfFuel)
  | S fuel =>
      let req := MkRangeReq (default [] resumeFrom) [] false false 0 consistency in
      let '(c, ((w, p), r)) := client_Range dial rpc_GetLeader rpc_Range c w req (dump_entry resumeFrom) (MkPage writer 0 None) in
      let writer := pg_writer p in
      let continue :=
        if pg_added p =? 0 then (w, writer, Ok tt)
        else dump_pages fuel cancelled (S n) consistency (pg_lastKey p) c w writer in
      match r with
      | Ok _ => continue
      | Err e =>
          if pg_added p =? 0 then (w, writer, Err e) else
          if cancelled n then (w, writer, Err e) else
          if negb (IsPartialScan e) then (w, writer, Err e) else
          continue
      | Panic s => (w, writer, Panic s)
      | OutOfFuel => (w, writer, OutOfFuel)
      end
  end.

Definition dumpRemote (fuel : nat) (addr : string) (maxRedirects : Z) (consistency : Z) (cancelled : nat → bool)
    (w : W) (writer : dumpWriter) : W * dumpWriter * res unit :=
  match client_New addr maxRedirects with
  | Ok c => dump_pages fuel cancelled 0 consistency None c w writer
  | Err e => (w, writer, Err e)
  | Panic s => (w, writer, Panic s)
  | OutOfFuel => (w, writer, OutOfFuel)
  end.

Fixpoint restore_puts (fuel : nat) (c : Client) (w : W) (reader : dumpReader) (count : Z) : W * res Z :=
  match fuel with
  | O => (w, OutOfFuel)
  | S fuel =>
      match dr_next reader with
      | Ok (key, value, reader) =>
          match client_Put dial rpc_GetLeader rpc_Put c w key value PutUpsert with
          | (c, w, Ok _) => restore_puts fuel c w reader (u64 (count + 1))
          | (_, w, Err e) => (w, Err e)
          | (_, w, Panic s) => (w, Panic s)
          | (_, w, OutOfFuel) => (w, OutOfFuel)
          end
      | Err e => (w, if bool_decide (e = io_EOF) then Ok count else Err e)
      | Panic s => (w, Panic s)
      | OutOfFuel => (w, OutOfFuel)
      end
  end.

Definition restoreRemote (addr : string) (maxRedirects : Z) (w : W) (reader : dumpReader) : W * res Z :=
  match client_New addr maxRedirects with
  | Ok c => restore_puts (S (length (dr_r reader))) c w reader 0
  | Err e => (w, Err e)
  | Panic s => (w, Panic s)
  | OutOfFuel => (w, OutOfFuel)
  end.

End remote.
