(* ===== verification/DumpProofs.v ===== *)
(** * The dump stream: round trip and truncation *)

From Stdlib Require Import ZArith Lia.
From Stdlib.Strings Require Import Byte.
From stdpp Require Import base list numbers strings sorting.
From S2P Require Import Prelude GoLib SortedSeq SortedKV SortedArray Merge SortedFile KVIterators Metadata KV KVCompact.
From S2P Require Import Reopen Command Snapshot FSM Service Client Dump.
From S2P Require Import File Entry SortedFileProofs Log KVProofs KVCompactProofs KVSystem KVOps Table ServiceProofs.

Open Scope Z_scope.

(** ** Bytes of a stream *)

Definition dump_record (kv : bytes * bytes) : bytes :=
  AppendUvarint [dumpTagRecord] (blen kv.1) ++ kv.1 ++ AppendUvarint [] (blen kv.2) ++ kv.2.

Definition dump_body (l : list (bytes * bytes)) : bytes := concat (map dump_record l).

Definition dump_trailer (l : list (bytes * bytes)) : bytes :=
  [dumpTagEnd] ++ AppendUvarint [] (u64 (Z.of_nat (length l))) ++ be_bytes 4 (crc32c_Sum32 (crc32c_Write crc32c_New (dump_body l))).

Definition dump_bytes (l : list (bytes * bytes)) : bytes := dumpMagic ++ dump_body l ++ dump_trailer l.

(** The writer after the entries [l]. *)
Definition writer_of (l : list (bytes * bytes)) : dumpWriter :=
  MkDW (dumpMagic ++ dump_body l) (crc32c_Write crc32c_New (dump_body l)) (u64 (Z.of_nat (length l))).

Lemma dump_body_snoc l kv : dump_body (l ++ [kv]) = dump_body l ++ dump_record kv.
Proof. unfold dump_body. rewrite map_app, concat_app. cbn. by rewrite app_nil_r. Qed.

Lemma dw_emit_app d p q : dw_emit (dw_emit d p) q = dw_emit d (p ++ q).
Proof. unfold dw_emit. cbn. by rewrite crc_app, app_assoc. Qed.

Lemma u64_succ n : u64 (u64 (Z.of_nat n) + 1) = u64 (Z.of_nat (n + 1)).
Proof. unfold u64. rewrite Zplus_mod_idemp_l. f_equal. lia. Qed.

Lemma writeEntry_of l k v : writeEntry (writer_of l) k v = writer_of (l ++ [(k, v)]).
Proof.
  unfold writeEntry. rewrite !dw_emit_app. unfold dw_emit, writer_of. cbn [dw_w dw_crc dw_count].
  rewrite crc_app, dump_body_snoc, length_app, <- u64_succ. unfold dump_record. cbn [fst snd]. by rewrite <- !app_assoc.
Qed.

Lemma newDumpWriter_of : newDumpWriter = writer_of [].
Proof. unfold writer_of. cbn. reflexivity. Qed.

Lemma dw_finish_of l : dw_finish (writer_of l) = (dump_bytes l, u64 (Z.of_nat (length l))).
Proof. unfold dw_finish, dump_bytes, dump_trailer. cbn [dw_w dw_crc dw_count writer_of]. by rewrite <- !app_assoc. Qed.

(** ** Varints *)

Lemma ReadUvarint_app v rest : 0 ≤ v < 2 ^ 64 → ReadUvarint (AppendUvarint [] v ++ rest) = Ok (v, AppendUvarint [] v, rest).
Proof. intros Hv. unfold ReadUvarint. rewrite Uvarint_Append by done. by rewrite take_app_length, drop_app_length. Qed.

Lemma uvarint_dec_cut fuel i v n : 0 ≤ v → (n < length (uvarint_enc fuel v))%nat → uvarint_dec i fuel (take n (uvarint_enc fuel v)) = None.
Proof.
  revert i v n. induction fuel as [|fuel IH]; intros i v n Hv Hn; [cbn in Hn; lia|].
  cbn [uvarint_enc] in *. destruct (Z.leb_spec 128 v) as [Hge|Hlt]; cbn [length] in Hn.
  - destruct n as [|n]; [done|]. cbn [take uvarint_dec]. rewrite uvarint_group by lia.
    pose proof (Z.mod_pos_bound v 128 eq_refl). destruct (Z.ltb_spec (v mod 128 + 128) 128); [lia|].
    rewrite IH; [done|apply Z.div_pos; lia|lia].
  - assert (n = 0%nat) as -> by lia. done.
Qed.

Lemma ReadUvarint_cut v n : 0 ≤ v → (n < length (AppendUvarint [] v))%nat → ReadUvarint (take n (AppendUvarint [] v)) = Err errDumpCorrupt.
Proof. intros Hv Hn. unfold ReadUvarint, Uvarint. unfold AppendUvarint in *. cbn [app] in *. by rewrite uvarint_dec_cut. Qed.

(** ** Reading entries *)

(** Entries the reader accepts. *)
Definition dumpable (kv : bytes * bytes) : Prop := blen kv.1 ≤ maxDumpEntryBytes ∧ blen kv.2 ≤ maxDumpEntryBytes.

Lemma blen_u64 b : blen b ≤ maxDumpEntryBytes → 0 ≤ blen b < 2 ^ 64.
Proof. unfold maxDumpEntryBytes, blen. lia. Qed.

Lemma dr_readN_app b rest h n : blen b ≤ maxDumpEntryBytes →
  dr_readN (MkDR (b ++ rest) h n) (blen b) = Ok (b, MkDR rest (crc32c_Write h b) n).
Proof.
  intros Hb. unfold dr_readN. destruct (Z.ltb_spec maxDumpEntryBytes (blen b)); [lia|]. cbn [dr_r dr_crc dr_count].
  by rewrite stream_ReadFull_app by (unfold blen; lia).
Qed.

Lemma dr_readN_cut b h n m : (m < length b)%nat → dr_readN (MkDR (take m b) h n) (blen b) = Err errDumpCorrupt.
Proof.
  intros Hm. unfold dr_readN. destruct (maxDumpEntryBytes <? blen b); [done|]. cbn [dr_r].
  destruct (stream_ReadFull_short (take m b) (Z.to_nat (blen b))) as [e ->]; [|done]. rewrite length_take. unfold blen. lia.
Qed.

Lemma dr_ReadUvarint_app v rest h n : 0 ≤ v < 2 ^ 64 →
  dr_ReadUvarint (MkDR (AppendUvarint [] v ++ rest) h n) = Ok (v, MkDR rest (crc32c_Write h (AppendUvarint [] v)) n).
Proof. intros Hv. unfold dr_ReadUvarint. cbn [dr_r]. by rewrite ReadUvarint_app. Qed.

(** The body of an entry after its tag. *)
Definition dump_record_rest (kv : bytes * bytes) : bytes := AppendUvarint [] (blen kv.1) ++ kv.1 ++ AppendUvarint [] (blen kv.2) ++ kv.2.

Lemma dump_record_tag kv : dump_record kv = dumpTagRecord :: dump_record_rest kv.
Proof. done. Qed.

Lemma dr_next_entry kv rest h n : dumpable kv →
  dr_next (MkDR (dump_record kv ++ rest) h n) = Ok (kv.1, kv.2, MkDR rest (crc32c_Write h (dump_record kv)) (u64 (n + 1))).
Proof.
  intros [Hk Hv]. rewrite dump_record_tag. cbn [app]. unfold dr_next. cbn [dr_r dr_crc dr_count].
  rewrite bool_decide_false, (bool_decide_true (_ = _)) by done. cbn [negb].
  unfold dump_record_rest. rewrite <- !app_assoc. rewrite dr_ReadUvarint_app by (by apply blen_u64). rs.
  rewrite dr_readN_app by done. rs. rewrite dr_ReadUvarint_app by (by apply blen_u64). rs. rewrite dr_readN_app by done. rs.
  cbn [dr_r dr_crc dr_count]. by rewrite !crc_app.
Qed.

Lemma be_sum data : be_val (be_bytes 4 (crc32c_Sum32 (crc32c_Write crc32c_New data))) = crc32c_Sum32 (crc32c_Write crc32c_New data).
Proof.
  rewrite be_val_bytes. change (256 ^ Z.of_nat 4) with (2 ^ 32). apply Z.mod_small. exact (ChecksumC_range data).
Qed.

Lemma u64_range z : 0 ≤ u64 z < 2 ^ 64.
Proof. apply Z.mod_pos_bound. lia. Qed.

Lemma dr_next_trailer l : dr_next (MkDR (dump_trailer l) (crc32c_Write crc32c_New (dump_body l)) (u64 (Z.of_nat (length l)))) = Err io_EOF.
Proof.
  unfold dump_trailer, dr_next. cbn [dr_r app dr_crc dr_count]. rewrite bool_decide_true by done.
  unfold verifyTrailer. cbn [dr_r dr_crc dr_count]. rewrite ReadUvarint_app by apply u64_range.
  rewrite <- (app_nil_r (be_bytes 4 _)), stream_ReadFull_app by (by rewrite be_bytes_length).
  by rewrite Z.eqb_refl, be_sum, Z.eqb_refl.
Qed.

(** Everything a reader returns, and the error it ends with. *)
Fixpoint drain (fuel : nat) (d : dumpReader) : list (bytes * bytes) * res unit :=
  match fuel with
  | O => ([], OutOfFuel)
  | S fuel =>
      match dr_next d with
      | Ok (k, v, d) => let (l, r) := drain fuel d in ((k, v) :: l, r)
      | Err e => ([], Err e)
      | Panic s => ([], Panic s)
      | OutOfFuel => ([], OutOfFuel)
      end
  end.

(** The reader after the entries [l1]. *)
Definition reader_after (l1 : list (bytes * bytes)) (rest : bytes) : dumpReader :=
  MkDR rest (crc32c_Write crc32c_New (dump_body l1)) (u64 (Z.of_nat (length l1))).

Lemma reader_next l1 kv rest : dumpable kv →
  dr_next (reader_after l1 (dump_record kv ++ rest)) = Ok (kv.1, kv.2, reader_after (l1 ++ [kv]) rest).
Proof.
  intros Hd. unfold reader_after. rewrite dr_next_entry by done. by rewrite crc_app, dump_body_snoc, length_app, u64_succ.
Qed.

Lemma newDumpReader_magic rest : newDumpReader (dumpMagic ++ rest) = Ok (reader_after [] rest).
Proof. unfold newDumpReader. rewrite stream_ReadFull_app by done. by rewrite bytes_equal_refl. Qed.

Lemma drain_body l2 : ∀ l1 rest fuel, Forall dumpable l2 → (length l2 ≤ fuel)%nat →
  drain fuel (reader_after l1 (dump_body l2 ++ rest)) =
    let (l, r) := drain (fuel - length l2) (reader_after (l1 ++ l2) rest) in (l2 ++ l, r).
Proof.
  induction l2 as [|kv l2 IH]; intros l1 rest fuel Hd Hf.
  - rewrite app_nil_r, Nat.sub_0_r. cbn. by destruct (drain fuel _).
  - apply Forall_cons in Hd as [Hkv Hd]. destruct fuel as [|fuel]; [cbn in Hf; lia|]. cbn [length] in Hf.
    unfold dump_body. cbn [map concat drain]. fold (dump_body l2). rewrite <- app_assoc, reader_next by done.
    rewrite IH by (done || lia). replace ((l1 ++ [kv]) ++ l2) with (l1 ++ kv :: l2) by (by rewrite <- app_assoc).
    cbn [length Nat.sub]. destruct kv. by destruct (drain _ _).
Qed.

Lemma drain_dump l fuel : Forall dumpable l → (length l < fuel)%nat →
  drain fuel (reader_after [] (dump_body l ++ dump_trailer l)) = (l, Err io_EOF).
Proof.
  intros Hd Hf. rewrite drain_body by (done || lia). destruct (fuel - length l)%nat eqn:E; [lia|]. cbn [drain app].
  unfold reader_after. rewrite dr_next_trailer. by rewrite app_nil_r.
Qed.

(** ** Truncated streams *)

Lemma take_app_cases {A} n (a b : list A) :
  (n < length a)%nat ∧ take n (a ++ b) = take n a ∨ (length a ≤ n)%nat ∧ take n (a ++ b) = a ++ take (n - length a) b.
Proof. destruct (decide (n < length a)%nat); [left|right]; (split; [lia|]); [by rewrite take_app_le by lia|by rewrite take_app_ge by lia]. Qed.

Lemma dr_next_cut kv h n m : dumpable kv → (m < length (dump_record kv))%nat →
  dr_next (MkDR (take m (dump_record kv)) h n) = Err errDumpCorrupt.
Proof.
  intros [Hk Hv] Hm. rewrite dump_record_tag in *. destruct m as [|m]; [done|]. cbn [take length] in *.
  unfold dr_next. cbn [dr_r dr_crc dr_count]. rewrite bool_decide_false, (bool_decide_true (_ = _)) by done. cbn [negb].
  unfold dump_record_rest in *. rewrite !length_app in Hm. pose proof (blen_u64 _ Hk). pose proof (blen_u64 _ Hv).
  destruct (take_app_cases m (AppendUvarint [] (blen kv.1)) (kv.1 ++ AppendUvarint [] (blen kv.2) ++ kv.2)) as [[H1 ->]|[H1 ->]].
  { unfold dr_ReadUvarint. cbn [dr_r]. by rewrite ReadUvarint_cut by lia. }
  rewrite dr_ReadUvarint_app by done. rs. set (m1 := (m - _)%nat) in *.
  destruct (take_app_cases m1 kv.1 (AppendUvarint [] (blen kv.2) ++ kv.2)) as [[H2 ->]|[H2 ->]].
  { by rewrite dr_readN_cut by lia. }
  rewrite dr_readN_app by done. rs. set (m2 := (m1 - _)%nat) in *.
  destruct (take_app_cases m2 (AppendUvarint [] (blen kv.2)) kv.2) as [[H3 ->]|[H3 ->]].
  { unfold dr_ReadUvarint. cbn [dr_r]. by rewrite ReadUvarint_cut by lia. }
  rewrite dr_ReadUvarint_app by done. rs. by rewrite dr_readN_cut by lia.
Qed.

Lemma dr_trailer_cut l h n m : (m < length (dump_trailer l))%nat →
  dr_next (MkDR (take m (dump_trailer l)) h n) = Err errDumpCorrupt.
Proof.
  intros Hm. unfold dump_trailer in *. destruct m as [|m]; [done|]. cbn [app take length] in *. unfold dr_next. cbn [dr_r dr_crc dr_count].
  rewrite bool_decide_true by done. f_equal. unfold verifyTrailer. cbn [dr_r].
  pose proof (u64_range (Z.of_nat (length l))). rewrite length_app, be_bytes_length in Hm.
  destruct (take_app_cases m (AppendUvarint [] (u64 (Z.of_nat (length l)))) (be_bytes 4 (crc32c_Sum32 (crc32c_Write crc32c_New (dump_body l)))))
    as [[H1 ->]|[H1 ->]]; [by rewrite ReadUvarint_cut by lia|].
  rewrite ReadUvarint_app by done. destruct (stream_ReadFull_short (take (m - length (AppendUvarint [] (u64 (Z.of_nat (length l)))))
    (be_bytes 4 (crc32c_Sum32 (crc32c_Write crc32c_New (dump_body l))))) 4) as [e ->]; [|done].
  rewrite length_take. lia.
Qed.

Lemma drain_cut l : ∀ l1 n fuel, Forall dumpable l → (n < length (dump_body l ++ dump_trailer (l1 ++ l)))%nat → (n < fuel)%nat →
  ∃ l', drain fuel (reader_after l1 (take n (dump_body l ++ dump_trailer (l1 ++ l)))) = (l', Err errDumpCorrupt) ∧ l' `prefix_of` l.
Proof.
  induction l as [|kv l IH]; intros l1 n fuel Hd Hn Hf; (destruct fuel as [|fuel]; [lia|]).
  - rewrite app_nil_r in *. cbn [dump_body map concat app] in *. cbn [drain]. unfold reader_after. rewrite dr_trailer_cut by done.
    exists []. by split.
  - apply Forall_cons in Hd as [Hkv Hd]. unfold dump_body in *. cbn [map concat] in *. fold (dump_body l) in *. rewrite <- app_assoc in *.
    destruct (take_app_cases n (dump_record kv) (dump_body l ++ dump_trailer (l1 ++ kv :: l))) as [[H1 ->]|[H1 ->]]; cbn [drain].
    + unfold reader_after. rewrite dr_next_cut by done. exists []. split; [done|]. apply prefix_nil.
    + rewrite reader_next by done. rewrite length_app in Hn.
      replace (l1 ++ kv :: l) with ((l1 ++ [kv]) ++ l) in * by (by rewrite <- app_assoc).
      assert (0 < length (dump_record kv))%nat by (rewrite dump_record_tag; cbn; lia).
      destruct (IH (l1 ++ [kv]) (n - length (dump_record kv))%nat fuel Hd) as (l' & -> & Hp); [lia|lia|].
      exists (kv :: l'). destruct kv. split; [done|]. by apply prefix_cons.
Qed.

(** A proper prefix of a dump is never taken for a whole one. *)
Lemma read_cut_dump l n : Forall dumpable l → (n < length (dump_bytes l))%nat →
  newDumpReader (take n (dump_bytes l)) = Err errDumpCorrupt ∨
  ∃ d l', newDumpReader (take n (dump_bytes l)) = Ok d ∧ drain (S (length (dr_r d))) d = (l', Err errDumpCorrupt) ∧ l' `prefix_of` l.
Proof.
  intros Hd Hn. unfold dump_bytes in *. rewrite length_app in Hn.
  destruct (take_app_cases n dumpMagic (dump_body l ++ dump_trailer l)) as [[H1 ->]|[H1 ->]].
  - left. unfold newDumpReader. destruct (stream_ReadFull_short (take n dumpMagic) (length dumpMagic)) as [e ->]; [|done].
    rewrite length_take. lia.
  - right. rewrite newDumpReader_magic. destruct (drain_cut l [] (n - length dumpMagic) (S (length (take (n - length dumpMagic) (dump_body l ++ dump_trailer l)))) Hd)
      as (l' & E & Hp); [cbn [app]; lia|rewrite length_take; cbn [app]; lia|]. cbn [app] in E. eauto.
Qed.

(** * A remote dump is complete

    [dumpRemote] against the key-value service: whatever pages the row limit and
    the scan deadline of the server make, the pages add up to every key a client
    may read, once and in order. *)

(** ** One page *)

Definition resp (e : ent) : RangeResponse := MkRangeResp (e_key e) (Some (e_val e)).

Lemma dump_entry_new resume l added last e :
  resume ≠ Some (e_key e) →
  dump_entry resume (MkPage (writer_of l) added last) (resp e) =
    (MkPage (writer_of (l ++ [(e_key e, e_val e)])) (u64 (added + 1)) (wire_bytes (e_key e)), Ok tt).
Proof.
  intros Hr. unfold dump_entry. cbn [rp_Key rp_Value resp pg_writer pg_added default]. rewrite writeEntry_of.
  destruct resume as [k|]; [|done]. by rewrite bytes_equal_false by congruence.
Qed.

Lemma dump_entry_seen e p : dump_entry (Some (e_key e)) p (resp e) = (p, Ok tt).
Proof. unfold dump_entry. cbn [rp_Key resp]. by rewrite bytes_equal_refl. Qed.

Definition last_key (resume : option bytes) (es : list ent) : option bytes :=
  match last es with Some e => Some (e_key e) | None => resume end.

(** New rows are written in order. *)
Lemma dump_rows resume es : ∀ l n last,
  Forall (fun e => resume ≠ Some (e_key e) ∧ e_key e ≠ []) es →
  foldl (fun p m => fst (dump_entry resume p m)) (MkPage (writer_of l) (u64 (Z.of_nat n)) last) (resp <$> es) =
    MkPage (writer_of (l ++ pairs es)) (u64 (Z.of_nat (n + length es))) (last_key last es).
Proof.
  induction es as [|e es IH]; intros l n last He.
  - cbn. by rewrite app_nil_r, Nat.add_0_r.
  - apply Forall_cons in He as [[Hr Hk] He]. cbn [fmap list_fmap foldl]. rewrite dump_entry_new by done. cbn [fst].
    rewrite u64_succ, IH by done. cbn [pairs map length]. f_equal; [by rewrite <- app_assoc|f_equal; lia|].
    unfold last_key. destruct es as [|e' es'].
    2: { rewrite last_cons_cons. destruct (list.last (e' :: es')) eqn:El; [done|by apply last_None in El]. }
    cbn. unfold wire_bytes. by destruct (e_key e).
Qed.

Section page.
Context `{BL : BloomLaws} `{MetaJson}.
Context (limits : rangeLimits) (envs : nat → stream_env).
Context (Hlimit : 0 ≤ rl_limit limits < 2 ^ 64) (Hne1 : rl_limit limits ≠ 1).
Context (Hquiet : ∀ n i, ev_send (envs n) i = None ∧ ev_ctx (envs n) i = None).

(** The server at every address: the store and the number of scans so far. *)
Definition one_server (cn : string) (req : RangeRequest) (w : KV * nat) : (KV * nat) * (list RangeResponse * res unit) :=
  let (kv, r) := srv_Range (fst w) limits req (envs (snd w)) in ((kv, S (snd w)), r).

Definition page_req (start : bytes) (consistency : Z) : RangeRequest := MkRangeReq start [] false false 0 consistency.

(** The rows of a page that starts at [start], and how it ends. *)
Lemma scan_page start consistency n out x rows :
  delivered (newRangeScan (page_req start consistency) limits) (envs n) (resp <$> rows) out x →
  ∃ j, (j ≤ length rows)%nat ∧ out = resp <$> take j rows ∧
    (x = Ok tt ∧ (j = length rows ∨ (2 ≤ j)%nat) ∨
     (128 ≤ j)%nat ∧ ∃ msg, x = Err (status codes_DeadlineExceeded msg)).
Proof.
  intros [[-> ->]|(e & -> & Hc & Hp & _)].
  - cbn [newRangeScan page_req rs_limit rr_limit]. destruct (Z.eqb_spec 0 0); [|done]. cbn [orb].
    exists (if 0 <? rl_limit limits then Nat.min (Z.to_nat (rl_limit limits)) (length rows) else length rows).
    destruct (Z.ltb_spec 0 (rl_limit limits)).
    + split; [lia|]. split; [|left; split; [done|lia]]. rewrite <- fmap_take. f_equal.
      destruct (decide (Z.to_nat (rl_limit limits) ≤ length rows)%nat); [by rewrite Nat.min_l by lia|].
      by rewrite Nat.min_r, !take_ge by lia.
    + split; [done|]. split; [by rewrite take_ge|]. left. eauto.
  - assert (length out ≤ length rows)%nat as Hle by (apply prefix_length in Hp; by rewrite length_fmap in Hp).
    exists (length out). split; [done|]. split.
    + destruct Hp as [l Hl]. rewrite fmap_take, Hl. by rewrite take_app_length.
    + right. destruct Hc as [Hs|(Hn & Hm & Hc)].
      { unfold send_result in Hs. by rewrite (proj1 (Hquiet n _)) in Hs. }
      split; [|destruct Hc as [(c & Hc & _)|(_ & _ & ->)]; [by rewrite (proj2 (Hquiet n _)) in Hc|eauto]].
      destruct (decide (128 ≤ length out)%nat); [done|]. rewrite Z.mod_small in Hm by lia. lia.
Qed.

Section pages.
Context (init : list ent) (commits : list (list ent)).
Context (dial : string → res unit) (rpc_GetLeader : string → KV * nat → (KV * nat) * res string).

(** What clients may read. *)
Definition user_rows : list ent := filter (fun e => IsReservedKey (e_key e) = false) (contents init commits).

Context (Hinit : sorted init) (Hkeys : Forall (fun e => e_key e ≠ []) user_rows).
Context (Hcount : Z.of_nat (length user_rows) < 2 ^ 64).

Lemma user_rows_sorted : sorted user_rows.
Proof. apply sorted_filter, lives_sorted, state_at_sorted, Hinit. Qed.

(** What is still to come, and the last row again. *)
Lemma rows_from P R consistency : user_rows = P ++ R →
  let start := default [] (last_key None P) in
  scan_rows (newRangeScan (page_req start consistency) limits) (contents init commits) =
    resp <$> match last P with Some e => e :: R | None => R end.
Proof.
  intros HL start. unfold scan_rows, page_req, newRangeScan. cbn [rs_descending rr_descending id]. f_equal.
  rewrite (list_filter_iff _ (fun e => bytes_leb start (e_key e) = true ∧ IsReservedKey (e_key e) = false)).
  2: { intros e. unfold asked. cbn [rs_descending rs_start rs_stop rr_descending rr_start rr_stop is_empty].
       rewrite orb_true_l, andb_true_r, andb_true_iff, negb_true_iff. tauto. }
  rewrite <- list_filter_filter. fold user_rows. rewrite <- drop_below by apply user_rows_sorted.
  destruct (last P) as [e|] eqn:Hlast; unfold start, last_key; rewrite Hlast; cbn [default].
  - apply last_Some in Hlast as [P0 ->]. rewrite <- app_assoc in HL. cbn in HL.
    rewrite (cnt_below_lookup _ (length P0) e); [|apply user_rows_sorted|rewrite HL; by rewrite list_lookup_middle].
    by rewrite HL, drop_app_length.
  - apply last_None in Hlast as ->. cbn in HL. subst R.
    assert (cnt (below []) user_rows = 0%nat) as ->; [|done].
    rewrite <- (cnt_false user_rows). apply cnt_ext. intros x _. unfold below, bytes_ltb. by destruct (e_key x).
Qed.

(** The rows after the written ones are new. *)
Lemma rows_new P R resume es : user_rows = P ++ R → resume = last_key None P → es `prefix_of` R →
  Forall (fun e => resume ≠ Some (e_key e) ∧ e_key e ≠ []) es.
Proof.
  intros HL -> [R' ->]. apply Forall_forall. intros e He. split.
  - unfold last_key. destruct (last P) as [e0|] eqn:Hl; [|done]. intros [= Hk].
    apply last_Some in Hl as [P0 ->]. pose proof user_rows_sorted as Hs. rewrite HL in Hs.
    assert (ent_lt e0 e) as Hlt; [|unfold ent_lt in Hlt; rewrite Hk in Hlt; by apply bytes_lt_irrefl in Hlt].
    eapply (StronglySorted_app_1_elem_of ent_lt); [exact Hs|apply elem_of_app; right; by left|apply elem_of_app; by left].
  - rewrite Forall_forall in Hkeys. apply Hkeys. rewrite HL. apply elem_of_app. right. apply elem_of_app. by left.
Qed.

Definition page_entry (resume : option bytes) (p : page) (m : RangeResponse) : page := fst (dump_entry resume p m).

Lemma dump_entry_ok resume p m : dump_entry resume p m = (page_entry resume p m, Ok tt).
Proof. unfold page_entry, dump_entry. by destruct (match resume with Some k => bytes_equal (rp_Key m) k | None => false end). Qed.

(** The rows of the page that starts where [P] ends. *)
Definition page_rows (P R : list ent) : list ent := match last P with Some e => e :: R | None => R end.

(** A page of [j] rows writes [j'] new ones. *)
Lemma page_writes P R j : user_rows = P ++ R → (j ≤ length (page_rows P R))%nat →
  ∃ j', foldl (page_entry (last_key None P)) (MkPage (writer_of (pairs P)) 0 None) (resp <$> take j (page_rows P R)) =
      MkPage (writer_of (pairs (P ++ take j' R))) (u64 (Z.of_nat (length (take j' R)))) (last_key None (take j' R)) ∧
    (j = length (page_rows P R) → j' = length R) ∧ ((2 ≤ j)%nat → (0 < j' ∧ 0 < length (take j' R))%nat).
Proof.
  intros HL Hj.
  assert (∀ i, Forall (fun e => last_key None P ≠ Some (e_key e) ∧ e_key e ≠ []) (take i R)) as Hnew
    by (intros i; by eapply rows_new, prefix_take).
  assert (∀ i, foldl (page_entry (last_key None P)) (MkPage (writer_of (pairs P)) 0 None) (resp <$> take i R) =
      MkPage (writer_of (pairs (P ++ take i R))) (u64 (Z.of_nat (length (take i R)))) (last_key None (take i R))) as Hrows.
  { intros i. unfold pairs at 2. rewrite map_app. exact (dump_rows _ (take i R) (pairs P) 0 None (Hnew i)). }
  unfold page_rows, page_entry in *. destruct (last P) as [e|] eqn:Hl; cbn [length] in *.
  - destruct j as [|j]; [exists 0%nat; cbn; rewrite app_nil_r; split; [done|lia]|].
    exists j. cbn [take fmap list_fmap foldl]. rewrite <- Hrows.
    split; [|rewrite length_take; lia]. f_equal. unfold last_key. by rewrite Hl, dump_entry_seen.
  - exists j. split; [done|]. rewrite length_take. lia.
Qed.

(** One call of [Range]. *)
Lemma page_call c kv m P R consistency :
  cl_closed c = false → inv kv init commits → refs_ok kv → kv_closed kv = false → user_rows = P ++ R →
  let resume := last_key None P in
  ∃ kv' j r, client_Range dial rpc_GetLeader one_server c (kv, m) (page_req (default [] resume) consistency)
      (dump_entry resume) (MkPage (writer_of (pairs P)) 0 None) =
      (c, (((kv', S m), MkPage (writer_of (pairs (P ++ take j R))) (u64 (Z.of_nat (length (take j R)))) (last_key None (take j R))), r)) ∧
    inv kv' init commits ∧ refs_ok kv' ∧ kv_closed kv' = false ∧
    (r = Ok tt ∧ (j = length R ∨ (0 < length (take j R))%nat) ∨
     (0 < length (take j R))%nat ∧ ∃ msg, r = Err (status codes_DeadlineExceeded msg)).
Proof.
  intros Hc Hi Hr Ho HL resume. set (req := page_req (default [] resume) consistency).
  destruct (srv_Range_spec kv init commits Hi Hr Ho limits req (envs m)) as (kv' & out & x & Hsrv & Hi' & Hr' & Ho' & Hd);
    [cbn; lia|done|]. unfold req, resume in Hd. rewrite (rows_from P R consistency HL) in Hd.
  fold (page_rows P R) in Hd. apply scan_page in Hd as (j & Hj & -> & Hx).
  destruct (page_writes P R j HL Hj) as (j' & Hfold & Hend & Hprog).
  assert (ignoreClosedStream (resp <$> take j (page_rows P R), x) = (resp <$> take j (page_rows P R), x)) as Hig
    by (destruct Hx as [[-> _]|[_ [msg ->]]]; done).
  rewrite Hig in Hsrv. set (msgs := resp <$> take j (page_rows P R)) in *. fold resume in Hfold.
  set (r := match x with Err e => Err (guard e (negb (bool_decide (msgs = [])))) | _ => x end).
  exists kv', j', (match r with Err e => Err (unwrapNoRetry e) | _ => r end). split.
  { unfold client_Range. rewrite (call_once _ _ _ c _ ((kv', S m), foldl (page_entry resume) (MkPage (writer_of (pairs P)) 0 None) msgs) r).
    - by rewrite Hfold.
    - done.
    - unfold one_server. cbn [fst snd]. fold req. rewrite Hsrv. by rewrite (recv_fold _ (page_entry resume)) by apply dump_entry_ok.
    - unfold r. intros e. destruct Hx as [[-> _]|[_ [msg ->]]]; [done|]. intros [= <-]. unfold guard. by destruct (negb _). }
  split; [done|]. split; [done|]. split; [done|]. unfold r. destruct Hx as [[-> Hx]|[Hx [msg ->]]].
  - left. split; [done|]. destruct Hx as [Hx|Hx]; [left; by apply Hend|right; by apply Hprog].
  - right. split; [apply Hprog; lia|]. exists msg. unfold guard. by destruct (negb _).
Qed.

(** ** All pages *)

Lemma last_key_app P es : last_key None (P ++ es) = last_key (last_key None P) es.
Proof. unfold last_key. rewrite last_app. by destruct (last es). Qed.

Lemma dump_pages_spec fuel : ∀ c kv m n P R consistency,
  cl_closed c = false → inv kv init commits → refs_ok kv → kv_closed kv = false → user_rows = P ++ R → (length R + 1 < fuel)%nat →
  ∃ kv' m', dump_pages dial rpc_GetLeader one_server fuel (fun _ => false) n consistency (last_key None P) c (kv, m) (writer_of (pairs P)) =
      ((kv', m'), writer_of (pairs user_rows), Ok tt) ∧
    inv kv' init commits ∧ refs_ok kv' ∧ kv_closed kv' = false.
Proof.
  induction fuel as [|fuel IH]; intros c kv m n P R consistency Hc Hi Hr Ho HL Hf; [lia|]. cbn [dump_pages].
  destruct (page_call c kv m P R consistency Hc Hi Hr Ho HL) as (kv' & j & r & Hcall & Hi' & Hr' & Ho' & Hend).
  fold (page_req (default [] (last_key None P)) consistency). rewrite Hcall. cbn [pg_added pg_writer pg_lastKey].
  assert (Z.of_nat (length (take j R)) < 2 ^ 64) as Hsmall.
  { rewrite HL, length_app in Hcount. rewrite length_take. lia. }
  assert (u64 (Z.of_nat (length (take j R))) = Z.of_nat (length (take j R))) as -> by (apply Z.mod_small; lia).
  destruct (decide (length (take j R) = 0%nat)) as [Hz|Hz].
  - destruct Hend as [[-> [Hj|Hj]]|[Hj _]]; [|lia..].
    rewrite Hz. cbn [Z.eqb Z.of_nat]. eexists kv', _. split; [|done]. apply nil_length_inv in Hz. rewrite Hz, app_nil_r.
    rewrite length_take in *. subst j. rewrite take_ge in Hz by lia. rewrite Hz, app_nil_r in HL. by rewrite HL.
  - destruct (Z.eqb_spec (Z.of_nat (length (take j R))) 0) as [|_]; [lia|].
    destruct (IH c kv' (S m) (S n) (P ++ take j R) (drop j R) consistency Hc Hi' Hr' Ho') as (kv2 & m2 & E & Hinv2).
    { by rewrite <- app_assoc, take_drop. } { rewrite length_take in Hz. rewrite length_drop. lia. }
    assert (last_key None (P ++ take j R) = last_key None (take j R)) as Hlk.
    { rewrite last_key_app. unfold last_key. destruct (last (take j R)) eqn:El; [done|]. apply last_None in El. by rewrite El in Hz. }
    rewrite Hlk in E. exists kv2, m2. split; [|done]. rewrite E. destruct Hend as [[-> _]|[_ [msg ->]]]; done.
Qed.

End pages.
End page.
