(* ===== verification/DumpLocal.v ===== *)
(** * Dumping and restoring a local directory

    A dump lists the live pairs of the store; restoring a dump, in batches,
    writes its pairs over what the store held; a dump restored into an empty
    directory is dumped again byte for byte. *)

From Stdlib Require Import ZArith Lia.
From Stdlib.Strings Require Import Byte.
From stdpp Require Import base list numbers strings.
From S2P Require Import Prelude GoLib SortedSeq SortedKV SortedArray Merge File Entry SortedFile SortedFileProofs KVIterators.
From S2P Require Import Log LogProofs Metadata KV KVCompact KVProofs KVCompactProofs KVSystem KVOps LogHistory Reopen.
From S2P Require Import Command Snapshot FSM Restore SnapshotProofs Service ServiceProofs Client Dump DumpProofs.

Open Scope Z_scope.

(** ** Dumping *)

Section dump.
Context `{IterLaws It}.

Lemma dump_loop_spec rest : ∀ fuel (it : It) l, walks false it rest → (length rest ≤ fuel)%nat →
  dump_loop fuel it (writer_of l) = Ok (writer_of (l ++ pairs rest)).
Proof.
  induction rest as [|e rest IH]; intros fuel it l Hw Hf.
  - rewrite app_nil_r. destruct fuel; cbn [dump_loop]; by rewrite (walks_nil _ _ Hw).
  - destruct (walks_cons _ _ _ _ Hw) as (Hv & Hk & Hx & it' & Hn & Hw'). destruct fuel as [|fuel]; [cbn in Hf; lia|].
    cbn [dump_loop]. rewrite Hv, Hk, Hx. cbn [negb]. rs. rewrite Hn. rs. rewrite writeEntry_of, IH; [|done|cbn in Hf; lia].
    cbn [pairs map]. by rewrite <- app_assoc.
Qed.

End dump.

Section local.
Context `{BL : BloomLaws} `{MetaJson}.

(** [IterAll] of an open store. *)
Lemma kv_IterAll_spec kv init commits : inv kv init commits → refs_ok kv → kv_closed kv = false →
  ∃ kv1 it id tx, kv_IterAll kv = (kv1, Ok (it, id)) ∧ At it (contents init commits) 0 ∧ at_work kv init commits kv1 id tx [].
Proof.
  intros Hi Hr Ho. destruct (at_work_new kv init commits Hi Hr Ho) as (kv1 & id & tx & En & Hw & Hu).
  unfold kv_IterAll. rewrite En. cbn [bindS]. rewrite (proj2 (go_index_ok _ _ _) (aw_tx _ _ _ _ _ _ _ Hw)). cbn [bindS].
  rewrite set_no_updates by done.
  destruct (tx_IterAll_spec init commits tx (length commits) (i_init _ _ _ _ Hi) (aw_reads _ _ _ _ _ _ _ Hw)) as (it & -> & Hat).
  exists kv1, it, id, tx. split; [done|]. split; [|done]. unfold tx_view in Hat. rewrite Hu in Hat. exact Hat.
Qed.

(** A directory that opens to a store with the contents [m]. *)
Definition opens (opts : KVOptions) (d : disk) (m : list ent) : Prop :=
  ∃ kv init commits, kv_Open opts d = Ok kv ∧ inv kv init commits ∧ refs_ok kv ∧ contents init commits = m.

Lemma dumpLocal_spec opts d m : opens opts d m →
  ∃ d', dumpLocal opts d newDumpWriter = (d', Ok (writer_of (pairs m))).
Proof.
  intros (kv & init & commits & Eo & Hi & Hr & <-). unfold dumpLocal. rewrite Eo.
  destruct (kv_IterAll_spec kv init commits Hi Hr (kv_Open_open _ _ _ Eo)) as (kv1 & it & id & tx & -> & Hat & Hw).
  rewrite newDumpWriter_of. assert (walks false it (contents init commits)) as Hwalk by (by exists (contents init commits), 0).
  rewrite (dump_loop_spec (contents init commits)) by (done || by eapply walks_length).
  destruct (at_work_abort kv init commits kv1 id tx [] Hw) as (kv2 & -> & _ & Hr2 & _).
  destruct (Close_ok kv2 Hr2) as (kv3 & ->). cbn [bindS]. by eexists.
Qed.

(** ** Restoring *)

(** The pairs [l] written over [m], in order. *)
Definition put_all (m : kvmap) (l : list (bytes * bytes)) : kvmap := foldl (fun m kv => write m kv.1 (Some kv.2)) m l.

Lemma put_all_ext l : ∀ m m', (∀ k, m k = m' k) → ∀ k, put_all m l k = put_all m' l k.
Proof.
  induction l as [|kv l IH]; intros m m' He k; [done|]. cbn [put_all foldl]. apply IH. intros k'. unfold write. by rewrite He.
Qed.

(** What a transaction with the writes [u] reads. *)
Definition tx_map (init : list ent) (commits : list (list ent)) (u : list ent) : kvmap :=
  fun k => visible (assoc (overlay u (state_at init commits (length commits))) k).

Lemma upsert_length e s : (length (upsert e s) ≤ S (length s))%nat.
Proof. induction s as [|x s IH]; cbn; [lia|]. destruct (bytes_compare _ _); cbn; lia. Qed.

Lemma tx_map_upsert init commits u k v : sorted init → sorted u →
  ∀ k', tx_map init commits (upsert (Ent k v false) u) k' = write (tx_map init commits u) k (Some v) k'.
Proof.
  intros Hi Hu k'. unfold tx_map, write. rewrite !visible_overlay, assoc_upsert by (done || by apply state_at_sorted). cbn [e_key].
  destruct (decide (k' = k)) as [->|Hk]; [by rewrite bytes_equal_refl|]. by rewrite bytes_equal_false by congruence.
Qed.

(** A transaction that stages writes for a store that was never flushed. *)
Record staging (kv0 : KV) (init : list ent) (commits : list (list ent)) (us : list ent) (kv : KV) (id : nat) (tx : KVTX) (u : list ent) : Prop := {
  sg_work : at_work kv0 init commits kv id tx u;
  sg_logged : logged kv us;
  sg_snap : tx_mainSnap tx = [];
  sg_small : Forall small u;
}.

Lemma staging_Set kv0 init commits us kv id tx u k v :
  sorted init → staging kv0 init commits us kv id tx u → small (Ent k v false) →
  ∃ kv' b u', with_tx kv id (fun tx => tx_Set tx k v) = (kv', Ok b) ∧ staging kv0 init commits us kv' id tx u' ∧
    kv_log kv' = kv_log kv ∧ (length u' ≤ S (length u))%nat ∧
    ∀ k', tx_map init commits u' k' = write (tx_map init commits u) k (Some v) k'.
Proof.
  intros Hi [Hw Hl Hs Hsm] Hse. pose proof (aw_sorted _ _ _ _ _ _ _ Hw) as Hu.
  unfold with_tx. rewrite (aw_tx _ _ _ _ _ _ _ Hw). unfold tx_Set.
  rewrite (tx_SetEx_spec _ init commits (length commits) u k v ModeUpsert Hi); [|apply tx_reads_updates; [apply Hw|done]|done|done|by left].
  fold (tx_map init commits u k).
  destruct (mode_updates ModeUpsert (tx_map init commits u k) v) eqn:Em.
  - eexists _, _, (upsert (Ent k v false) u). split; [reflexivity|]. split; [|split; [done|split; [apply upsert_length|by apply tx_map_upsert]]].
    change (set_updates (set_updates tx (arr_of u)) ?a) with (set_updates tx a).
    split; [apply (at_work_write _ _ _ _ _ _ _ _ Hw); by apply upsert_sorted|by apply write_logged|done|].
    apply Forall_forall. intros x [->|Hx]%upsert_elem; [done|]. rewrite Forall_forall in Hsm. by apply Hsm.
  - eexists _, _, u. split; [reflexivity|]. split; [|split; [done|split; [lia|]]].
    + split; [by apply (at_work_write _ _ _ _ _ _ _ _ Hw)|by apply write_logged|done|done].
    + intros k'. unfold write. destruct (decide (k' = k)) as [->|]; [|done].
      unfold mode_updates in Em. cbn in Em. apply bool_decide_eq_false in Em. by apply dec_stable in Em.
Qed.

Lemma staging_new kv init commits us :
  inv kv init commits → refs_ok kv → kv_closed kv = false → logged kv us →
  ∃ kv1 id tx, NewTX kv = Ok (kv1, id) ∧ staging kv init commits us kv1 id tx [] ∧ kv_log kv1 = kv_log kv.
Proof.
  intros Hi Hr Ho Hl. destruct (begin_logged kv init commits us Hi Hr Ho Hl) as (kv1 & id & tx & En & Hw & _ & Hl1 & Hs).
  exists kv1, id, tx. split; [done|]. split; [by split|]. apply Hw.
Qed.

Lemma staging_commit kv0 init commits us kv id tx u :
  staging kv0 init commits us kv id tx u → Z.of_nat (length commits) < 2 ^ 64 - 1 →
  l_seq (kv_log kv) + Z.of_nat (length u) < 2 ^ 64 - 1 →
  ∃ kv' us' commits', applyTXSync kv id = (kv', Ok tt) ∧ logged kv' us' ∧ refs_ok kv' ∧ kv_closed kv' = false ∧ inv kv' init commits' ∧
    (length commits' ≤ S (length commits))%nat ∧ l_seq (kv_log kv') ≤ l_seq (kv_log kv) + Z.of_nat (length u) + 1 ∧
    ∀ k, tx_map init commits' [] k = tx_map init commits u k.
Proof.
  intros [Hw Hl Hs Hsm] Hlen Hq. destruct (commit_logged _ _ _ _ _ _ _ _ Hw Hl Hs Hsm Hlen Hq) as (kv' & E & Hl' & Hr' & Ho' & Hi' & Hq').
  eexists kv', _, _. split; [done|]. split; [exact Hl'|]. split; [done|]. split; [done|]. split; [exact Hi'|].
  split; [destruct (decide (u = [])); rewrite ?length_app; cbn; lia|]. split; [done|].
  intros k. destruct (decide (u = [])) as [->|Hu]; [done|]. unfold tx_map. rewrite length_app. cbn [length].
  replace (length commits + 1)%nat with (S (length commits)) by lia. by rewrite state_at_snoc.
Qed.

(** The loop of a restore: [l1] was read, [l] is still to come. *)
Lemma restore_loop_spec l : ∀ fuel l1 kv0 init commits us kv id tx u count pending,
  sorted init → staging kv0 init commits us kv id tx u → Forall (fun kv => small (Ent kv.1 kv.2 false)) l →
  (length l < fuel)%nat → Z.of_nat (length commits + length l) < 2 ^ 63 →
  l_seq (kv_log kv) + Z.of_nat (length u + 3 * length l) < 2 ^ 63 →
  ∃ kv' kv0' commits' us' id' tx' u',
    restore_loop fuel kv id (reader_after l1 (dump_body l ++ dump_trailer (l1 ++ l))) count pending =
      (kv', Ok (inl (id', foldl (fun c _ => u64 (c + 1)) count l))) ∧
    staging kv0' init commits' us' kv' id' tx' u' ∧ Z.of_nat (length commits') < 2 ^ 63 ∧
    l_seq (kv_log kv') + Z.of_nat (length u') < 2 ^ 63 ∧
    ∀ k, tx_map init commits' u' k = put_all (tx_map init commits u) l k.
Proof.
  induction l as [|kv1 l IH]; intros fuel l1 kv0 init commits us kv id tx u count pending Hi Hst Hsm Hf Hlen Hq;
    (destruct fuel as [|fuel]; [cbn in Hf; lia|]); cbn [restore_loop].
  - rewrite app_nil_r. cbn [dump_body map concat app]. unfold reader_after. rewrite dr_next_trailer, bool_decide_true by done.
    eexists kv, kv0, commits, us, id, tx, u. split_and!; [done|done|cbn in *; lia|cbn in *; lia|done].
  - apply Forall_cons in Hsm as [Hse Hsm]. cbn [length] in *.
    unfold dump_body. cbn [map concat]. fold (dump_body l). rewrite <- app_assoc, reader_next.
    2: { unfold dumpable, maxDumpEntryBytes, blen. unfold small, MaxEntrySize in Hse. cbn in Hse. lia. }
    destruct (staging_Set _ _ _ _ _ _ _ _ kv1.1 kv1.2 Hi Hst Hse) as (kv' & b & u' & -> & Hst' & Hlog & Hlu & Hmap).
    assert (l1 ++ kv1 :: l = (l1 ++ [kv1]) ++ l) as -> by (by rewrite <- app_assoc). cbn [foldl].
    destruct (restoreBatchSize <=? pending + 1).
    + destruct (staging_commit _ _ _ _ _ _ _ _ Hst') as (kv2 & us2 & commits2 & -> & Hl2 & Hr2 & Ho2 & Hi2 & Hlc & Hq2 & Hmap2); [lia|rewrite Hlog; lia|].
      cbn [bindS]. destruct (staging_new kv2 init commits2 us2 Hi2 Hr2 Ho2 Hl2) as (kv3 & id3 & tx3 & -> & Hst3 & Hlog3). cbn [bindS].
      destruct (IH fuel (l1 ++ [kv1]) kv2 init commits2 us2 kv3 id3 tx3 [] (u64 (count + 1)) 0 Hi Hst3 Hsm)
        as (kv4 & kv04 & commits4 & us4 & id4 & tx4 & u4 & E4 & Hst4 & Hlen4 & Hq4 & Hmap4);
        [lia|lia|cbn [length]; rewrite Hlog3; rewrite Hlog in Hq2; lia|].
      exists kv4, kv04, commits4, us4, id4, tx4, u4. split_and!; [done..|].
      intros k. rewrite Hmap4. cbn [put_all foldl]. apply put_all_ext. intros k'. by rewrite Hmap2.
    + destruct (IH fuel (l1 ++ [kv1]) kv0 init commits us kv' id tx u' (u64 (count + 1)) (pending + 1) Hi Hst' Hsm)
        as (kv4 & kv04 & commits4 & us4 & id4 & tx4 & u4 & E4 & Hst4 & Hlen4 & Hq4 & Hmap4); [lia|lia|rewrite Hlog; lia|].
      exists kv4, kv04, commits4, us4, id4, tx4, u4. split_and!; [done..|].
      intros k. rewrite Hmap4. cbn [put_all foldl]. by apply put_all_ext.
Qed.

Lemma count_all {A} (l : list A) n : foldl (fun c _ => u64 (c + 1)) (u64 (Z.of_nat n)) l = u64 (Z.of_nat (n + length l)).
Proof.
  revert n. induction l as [|a l IH]; intros n; [by rewrite Nat.add_0_r|]. cbn [foldl length]. rewrite u64_succ, IH. f_equal. lia.
Qed.

Lemma dump_body_length l : (length l ≤ length (dump_body l))%nat.
Proof.
  unfold dump_body. induction l as [|kv l IH]; [done|]. cbn [map concat length]. rewrite length_app, dump_record_tag. cbn. lia.
Qed.

(** A store that was never flushed, with the values [m]. *)
Record quiet (kv : KV) (us : list ent) (m : kvmap) : Prop := {
  qt_refs : refs_ok kv;
  qt_open : kv_closed kv = false;
  qt_logged : logged kv us;
  qt_map : ∀ k, visible (assoc (log_mem us) k) = m k;
}.

Lemma quiet_map kv us m init commits : quiet kv us m → inv kv init commits → ∀ k, tx_map init commits [] k = m k.
Proof. intros Hq Hi k. rewrite <- (qt_map _ _ _ Hq). exact (logged_current kv init commits us k Hi (qt_logged _ _ _ Hq)). Qed.

Lemma restore_store_spec kv us m l init commits :
  quiet kv us m → inv kv init commits → Forall (fun kv => small (Ent kv.1 kv.2 false)) l →
  Z.of_nat (length commits + length l) < 2 ^ 63 → l_seq (kv_log kv) + Z.of_nat (3 * length l) < 2 ^ 63 →
  ∃ kv' us', restore_store kv (reader_after [] (dump_body l ++ dump_trailer l)) = (kv', Ok (u64 (Z.of_nat (length l)))) ∧
    logged kv' us' ∧ refs_ok kv' ∧ ∀ k, visible (assoc (log_mem us') k) = put_all m l k.
Proof.
  intros Hqt Hi Hsm Hlen Hq. unfold restore_store. pose proof Hqt as [Hr Ho Hl Hm].
  destruct (staging_new kv init commits us Hi Hr Ho Hl) as (kv1 & id & tx & -> & Hst & Hlog). cbn [bindS].
  assert (length l < S (length (dr_r (reader_after [] (dump_body l ++ dump_trailer l)))))%nat as Hfuel.
  { cbn [reader_after dr_r]. rewrite length_app. pose proof (dump_body_length l). lia. }
  destruct (restore_loop_spec l _ [] kv init commits us kv1 id tx [] 0 0 (i_init _ _ _ _ Hi) Hst Hsm Hfuel Hlen)
    as (kv2 & kv02 & commits2 & us2 & id2 & tx2 & u2 & E & Hst2 & Hlen2 & Hq2 & Hmap); [rewrite Hlog; cbn; lia|].
  cbn [app] in E. rewrite E. cbn [bindS].
  destruct (staging_commit _ _ _ _ _ _ _ _ Hst2) as (kv3 & us3 & commits3 & -> & Hl3 & Hr3 & Ho3 & Hi3 & _ & _ & Hmap3); [lia|lia|].
  cbn [bindS]. eexists kv3, us3. split; [do 2 f_equal; exact (count_all l 0)|]. split; [done|]. split; [done|].
  intros k. rewrite <- (logged_current kv3 init commits3 us3 k Hi3 Hl3).
  change (current init commits3 k) with (tx_map init commits3 [] k). rewrite Hmap3, Hmap. apply put_all_ext.
  exact (quiet_map kv us m init commits Hqt Hi).
Qed.

(** Pairs in key order, written into an empty map. *)
Lemma put_all_pairs m : ∀ m0 k, sorted m →
  put_all m0 (pairs m) k = match assoc m k with Some e => Some (e_val e) | None => m0 k end.
Proof.
  induction m as [|e m IH]; intros m0 k Hs; [done|]. pose proof Hs as [Hs' Hf]%sorted_cons. cbn [pairs map put_all foldl]. fold (pairs m).
  fold (put_all (write m0 (e_key e) (Some (e_val e))) (pairs m)). cbn [fst snd]. rewrite IH by done. cbn [assoc]. unfold write.
  destruct (bytes_equal (e_key e) k) eqn:E.
  - apply bytes_equal_eq in E as <-. rewrite decide_True by done. destruct (assoc m (e_key e)) as [x|] eqn:Ea; [|done].
    exfalso. pose proof (assoc_Some_key _ _ _ Ea) as Hk. apply assoc_elem in Ea. rewrite Forall_forall in Hf. specialize (Hf _ Ea).
    unfold ent_lt in Hf. rewrite Hk in Hf. by apply bytes_lt_irrefl in Hf.
  - destruct (assoc m k); [done|]. rewrite decide_False; [done|]. intros ->. by rewrite bytes_equal_refl in E.
Qed.

(** A dump restored into an empty directory. *)
Lemma restoreLocal_empty opts m : sorted m → Forall (fun e => live e = true) m → Forall small m → 3 * Z.of_nat (length m) < 2 ^ 62 →
  ∃ d', restoreLocal opts empty_disk (reader_after [] (dump_body (pairs m) ++ dump_trailer (pairs m))) = (d', Ok (u64 (Z.of_nat (length m)))) ∧
    ∀ opts', opens opts' d' m.
Proof.
  intros Hs Hlv Hsm Hlen. destruct (fresh_logged opts) as (kv0 & E & Hlg & Hlog & Hi & Hr & Ho).
  assert (length (pairs m) = length m) as Hpl by apply length_map.
  assert (quiet kv0 [] (fun _ => None)) as Hqt by (by split).
  destruct (restore_store_spec kv0 [] (fun _ => None) (pairs m) [] [] Hqt Hi) as (kv' & us' & Er & Hl' & Hr' & Hmap).
  { apply Forall_map. eapply Forall_impl; [exact Hsm|]. intros e He. exact He. }
  { rewrite Hpl. cbn. lia. } { rewrite Hpl, Hlog. cbn [new_log l_seq]. lia. }
  unfold restoreLocal, empty_disk. rewrite E, Er. destruct (Close_ok kv' Hr') as (kv3 & ->). cbn [bindS]. eexists. split; [by rewrite Hpl|].
  intros opts'. destruct (reopen_logged opts' kv' us' Hl') as (kv4 & E4 & Hi4 & Hr4 & _ & _).
  exists kv4, (log_mem us'), []. split_and!; [done..|]. unfold contents. change (state_at (log_mem us') [] (length [])) with (log_mem us').
  rewrite <- (lives_all m Hlv). apply lives_same_view; [apply log_mem_sorted|done|]. intros k. rewrite Hmap, put_all_pairs by done.
  destruct (assoc m k) as [e|] eqn:Ea; [|done]. cbn. apply assoc_elem in Ea. rewrite Forall_forall in Hlv. specialize (Hlv _ Ea).
  unfold live in Hlv. by destruct (e_del e).
Qed.

End local.
