(* ===== verification/SqlService.v ===== *)
(** * SQL over the network: grpc/sql.go, grpc/sql_db.go and client/sql.go

    The server runs a statement on the database of DB.v and streams a header,
    the rows and, for a statement without columns, the number of affected rows.
    The client collects the stream.  [DBExecutor] and [dbCursor] pass calls on
    and have no definitions of their own. *)

From Stdlib Require Import ZArith Lia.
From Stdlib.Strings Require Import Byte.
From stdpp Require Import base list numbers strings.
From S2P Require Import Prelude GoLib SortedSeq SortedKV SortedArray Merge SortedFile KVIterators Metadata KV KVCompact.
From S2P Require Import Cell Row Sql Planner Parser TxKV TxInstance Table DB Service Client.

Open Scope Z_scope.

(** ** Messages *)

Definition VALUE_TYPE_UNSPECIFIED : Z := 0.
Definition VALUE_TYPE_INT64 : Z := 1.
Definition VALUE_TYPE_STRING : Z := 2.

Inductive WireValue := Int64Value (v : Z) | StringValue (v : bytes).
Record ColumnDescriptor := MkColumn { co_Name : bytes; co_Type : Z }.
Record QueryResponse := MkQuery { qr_Columns : list ColumnDescriptor; qr_Values : list WireValue; qr_RowsAffected : Z }.

Definition valueType (t : byte) : Z :=
  if decide (t = TypeI64) then VALUE_TYPE_INT64 else
  if decide (t = TypeStr) then VALUE_TYPE_STRING else VALUE_TYPE_UNSPECIFIED.

Definition columnDescriptors (columns : list ColumnDesc) : list ColumnDescriptor :=
  map (fun c => MkColumn (cd_Name c) (valueType (cd_Type c))) columns.

Definition cellValue (cell : Cell) : res WireValue :=
  if decide (c_type cell = TypeI64) then Ok (Int64Value (c_i64 cell)) else
  if decide (c_type cell = TypeStr) then Ok (StringValue (c_str cell)) else
  Err (errorsNew "unsupported cell type").

Definition rowValues (row : Row) : res (list WireValue) := mapM_res cellValue row.

(** ** The server *)

(** [strings.TrimSpace(s) == ""]: only white space of Unicode, in UTF-8. *)
Fixpoint only_space (s : bytes) : bool :=
  match s with
  | [] => true
  | (x09 | x0a | x0b | x0c | x0d | x20) :: s => only_space s
  | xc2 :: (x85 | xa0) :: s => only_space s
  | xe1 :: x9a :: x80 :: s => only_space s
  | xe2 :: x80 :: (x80 | x81 | x82 | x83 | x84 | x85 | x86 | x87 | x88 | x89 | x8a | xa8 | xa9 | xaf) :: s => only_space s
  | xe2 :: x81 :: x9f :: s => only_space s
  | xe3 :: x80 :: x80 :: s => only_space s
  | _ => false
  end.

Section server.
Context `{Bloom} `{MetaJson} {SJ : SchemaJson}.

(** One row of the loop: the context, the encoding, the message. *)
Definition send_row (env : stream_env) (out : list QueryResponse) (row : Row) : list QueryResponse * res unit :=
  let! (out, _u) := (out, ctx_check (ev_ctx env (length out))) in
  let! (out, values) := (out, or_status codes_Internal "encode row" (rowValues row)) in
  send env out (MkQuery [] values 0).

Fixpoint query_loop (env : stream_env) (fuel : nat) (r : Result) (out : list QueryResponse) : Result * (list QueryResponse * res unit) :=
  match sr_Next r with
  | Ok (r, false) => (r, (out, Ok tt))
  | Ok (r, true) =>
      match fuel with
      | O => (r, (out, OutOfFuel))
      | S fuel =>
          match send_row env out (sr_Row r) with
          | (out, Ok _) => query_loop env fuel r out
          | (out, x) => (r, (out, x))
          end
      end
  | Err e => (r, (out, Err e))
  | Panic s => (r, (out, Panic s))
  | OutOfFuel => (r, (out, OutOfFuel))
  end.

(** From the header to the end of the rows and the trailer. *)
Definition send_result_rows (env : stream_env) (r : Result) : Result * (list QueryResponse * res unit) :=
  match send env [] (MkQuery (columnDescriptors (sr_cols r)) [] 0) with
  | (out, Ok _) =>
      let fuel := match sr_cursor r with Some c => i_steps (ri_iter (cu_iter c)) | None => 0%nat end in
      let '(r, (out, x)) := query_loop env fuel r out in
      (r, let! (out, _u) := (out, x) in
          let! (out, _u) := (out, match sr_err r with
                                  | Some _ => Err (status codes_Internal "execute statement")
                                  | None => Ok tt
                                  end) in
          if bool_decide (sr_cols r = []) then send env out (MkQuery [] [] (sr_affected r)) else (out, Ok tt))
  | (out, x) => (r, (out, x))
  end.

(** [Query]: the deferred [Close] runs on every return and does nothing after
    the explicit one. *)
Definition srv_query (kv : KV) (statement : bytes) (env : stream_env) : KV * (list QueryResponse * res unit) :=
  if only_space statement then (kv, ([], Err (status codes_InvalidArgument "statement is required"))) else
  match ctx_check (ev_ctx env 0) with
  | Err e => (kv, ([], Err e))
  | _ =>
      match db_Query kv statement with
      | (kv, Ok (r, tx)) =>
          let '(r, (out, x)) := send_result_rows env r in
          let '(kv, _, c) := sr_Close kv (r, tx) in
          (kv, (out, match x, c with
                     | Ok _, _ => or_status codes_Internal "close cursor" c
                     | _, Panic s => Panic s
                     | _, OutOfFuel => OutOfFuel
                     | _, _ => x
                     end))
      | (kv, Err e) => (kv, ([], Err (status codes_InvalidArgument "execute statement")))
      | (kv, Panic s) => (kv, ([], Panic s))
      | (kv, OutOfFuel) => (kv, ([], OutOfFuel))
      end
  end.

Definition srv_Query (kv : KV) (statement : bytes) (env : stream_env) : KV * (list QueryResponse * res unit) :=
  let (kv, r) := srv_query kv statement env in (kv, ignoreClosedStream r).

End server.

(** ** The client *)

(** [Value] of the client; the type is that of the wire. *)
Record Value := MkValue { va_Type : Z; va_Int : Z; va_Str : bytes }.

Definition valueFromProto (v : WireValue) : Value :=
  match v with
  | Int64Value i => MkValue VALUE_TYPE_INT64 i []
  | StringValue s => MkValue VALUE_TYPE_STRING 0 s
  end.

Definition rowFromProto (values : list WireValue) : list Value := map valueFromProto values.

Definition valueTypeFromProto (t : Z) : Z :=
  if t =? VALUE_TYPE_INT64 then VALUE_TYPE_INT64 else
  if t =? VALUE_TYPE_STRING then VALUE_TYPE_STRING else VALUE_TYPE_UNSPECIFIED.

Definition columnsFromProto (columns : list ColumnDescriptor) : list ColumnDescriptor :=
  map (fun c => MkColumn (co_Name c) (valueTypeFromProto (co_Type c))) columns.

Record QueryResult := MkQResult { re_Columns : list ColumnDescriptor; re_Rows : list (list Value); re_RowsAffected : Z }.

Definition stopStream (e : error) : res unit := if bool_decide (e = io_EOF) then Ok tt else Err (noRetry e).

Section client.
Context {W : Type} (dial : string → res unit) (rpc_GetLeader : string → W → W * res string).
Context (rpc_Query : string → bytes → W → W * (list QueryResponse * res unit)).

Section stream.
(** The handlers, with the state they keep. *)
Context {S : Type} (onColumns : S → list ColumnDescriptor → S * res unit) (onRow : S → list Value → S * res unit).

(** The loop around [stream.Recv]; the state also holds [rowsAffected]. *)
Fixpoint query_recv (msgs : list QueryResponse) (status : res unit) (headerSeen : bool) (s : S * Z) : (S * Z) * res unit :=
  match msgs with
  | [] => (s, match status with Err e => Err (guard e headerSeen) | _ => status end)
  | msg :: msgs =>
      let continue (r : S * res unit) :=
        match r with
        | (s', Ok _) => query_recv msgs status true (s', snd s)
        | (s', Err e) => ((s', snd s), stopStream e)
        | (s', Panic m) => ((s', snd s), Panic m)
        | (s', OutOfFuel) => ((s', snd s), OutOfFuel)
        end in
      if negb headerSeen then continue (onColumns (fst s) (columnsFromProto (qr_Columns msg)))
      else if bool_decide (qr_Values msg = []) then query_recv msgs status true (fst s, qr_RowsAffected msg)
      else continue (onRow (fst s) (rowFromProto (qr_Values msg)))
  end.

Definition client_QueryStream (c : Client) (w : W) (statement : bytes) (s : S) : Client * ((W * (S * Z)) * res unit) :=
  if is_empty statement then (c, ((w, (s, 0)), Err (errorsNew "pallasdb: statement is required"))) else
  client_call dial rpc_GetLeader (fun cn '(w, (s, _)) =>
    let '(w, (msgs, status)) := rpc_Query cn statement w in
    let (s, r) := query_recv msgs status false (s, 0) in ((w, s), r)) c (w, (s, 0)).

End stream.

Definition client_Query (c : Client) (w : W) (statement : bytes) : Client * W * res QueryResult :=
  let '(c, ((w, (result, affected)), r)) :=
    client_QueryStream (S := QueryResult)
      (fun result cols => (MkQResult cols (re_Rows result) (re_RowsAffected result), Ok tt))
      (fun result row => (MkQResult (re_Columns result) (re_Rows result ++ [row]) (re_RowsAffected result), Ok tt))
      c w statement (MkQResult [] [] 0) in
  (c, w, match r with
         | Ok _ => Ok (MkQResult (re_Columns result) (re_Rows result) affected)
         | Err e => Err e
         | Panic s => Panic s
         | OutOfFuel => OutOfFuel
         end).

End client.
