(* ===== verification/SqlServiceProofs.v ===== *)
(** * SQL over the network is SQL

    From the text of a statement, through the stream of the server, to the
    result the client collects. *)

From Stdlib Require Import ZArith Lia.
From Stdlib.Strings Require Import Byte.
From stdpp Require Import base list numbers strings.
From S2P Require Import Prelude GoLib SortedSeq SortedKV SortedArray Merge File Entry SortedFile SortedFileProofs KVIterators.
From S2P Require Import Log Metadata KV KVCompact KVProofs KVCompactProofs KVSystem KVOps.
From S2P Require Import Cell Row RowProofs Sql EvalProofs Parser Planner PlannerProofs TxKV TxInstance Table.
From S2P Require Import TableProofs TableScan TableSelect TableStmt Relational DB Refine Service Client SqlService.

Open Scope Z_scope.

(** ** Cells on the wire *)

Definition cell_typed (c : Cell) : Prop := c_type c = TypeI64 ∨ c_type c = TypeStr.

Definition wire_cell (c : Cell) : WireValue := if decide (c_type c = TypeI64) then Int64Value (c_i64 c) else StringValue (c_str c).

Lemma cellValue_typed c : cell_typed c → cellValue c = Ok (wire_cell c).
Proof.
  unfold cellValue, wire_cell. intros [Ht|Ht]; rewrite Ht; [by rewrite !decide_True|]. rewrite !(decide_False (P := TypeStr = TypeI64)) by done.
  by rewrite decide_True.
Qed.

Lemma rowValues_typed row : Forall cell_typed row → rowValues row = Ok (map wire_cell row).
Proof.
  unfold rowValues. induction 1 as [|c row Hc _ IH]; [done|]. cbn [mapM_res map]. rewrite cellValue_typed by done. rs. by rewrite IH.
Qed.

(** What the client makes of a cell, a row and a column. *)
Definition client_cell (c : Cell) : Value :=
  if decide (c_type c = TypeI64) then MkValue VALUE_TYPE_INT64 (c_i64 c) [] else MkValue VALUE_TYPE_STRING 0 (c_str c).
Definition client_row (row : Row) : list Value := map client_cell row.
Definition client_column (c : ColumnDesc) : ColumnDescriptor := MkColumn (cd_Name c) (valueType (cd_Type c)).

Lemma rowFromProto_wire row : rowFromProto (map wire_cell row) = client_row row.
Proof.
  unfold rowFromProto, client_row. rewrite map_map. apply map_ext. intros c. unfold wire_cell, client_cell. by destruct (decide _).
Qed.

Lemma columns_roundtrip cols : columnsFromProto (columnDescriptors cols) = map client_column cols.
Proof.
  unfold columnsFromProto, columnDescriptors. rewrite map_map. apply map_ext. intros c. unfold client_column. cbn [co_Name co_Type]. f_equal.
  unfold valueType. by destruct (decide _); [|destruct (decide _)].
Qed.

(** The cells of a SELECT have types. *)
Lemma mapM_res_Forall {A B} (f : A → res B) (P : A → Prop) (Q : B → Prop) l : ∀ out,
  (∀ a b, P a → f a = Ok b → Q b) → Forall P l → mapM_res f l = Ok out → Forall Q out ∧ length out = length l.
Proof.
  induction l as [|a l IH]; intros out Hf Hp Hm; cbn [mapM_res] in Hm; [by injection Hm as <-|].
  apply Forall_cons in Hp as [Ha Hp]. apply bind_ok in Hm as (b & Hb & Hm). apply bind_ok in Hm as (bs & Hbs & Hm). injection Hm as <-.
  destruct (IH bs Hf Hp Hbs) as [Hq Hl]. split; [constructor; [by eapply Hf|done]|]. cbn. by rewrite Hl.
Qed.

Lemma projected_typed schema proj row : row_ok schema row → Forall lits_ok proj →
  (∃ out, mapM_res (evalExpr schema row) proj = Ok out) →
  Forall cell_typed (projected schema proj row) ∧ length (projected schema proj row) = length proj.
Proof.
  intros Hr Hl [out Ho]. unfold projected. rewrite Ho. eapply (mapM_res_Forall _ lits_ok); [|done|exact Ho].
  intros e c He Hc. destruct (eval_cell_ok schema row e _ _ Hr He Hc) as [[Ht _]|[Ht _]]; [by left|by right].
Qed.

Section server.
Context `{BL : BloomLaws} `{MetaJson} {SJ : SchemaJson} {SL : SchemaJsonLaws}.

(** A stream on which nothing fails: the client stays, and every message can be
    sent, which for a string asks that it is UTF-8. *)
Definition open_env (env : stream_env) : Prop := ∀ n, ev_send env n = None ∧ ev_ctx env n = None.

Definition row_msg (row : Row) : QueryResponse := MkQuery [] (map wire_cell row) 0.

Lemma send_ok {A} env (out : list A) m : open_env env → send env out m = (out ++ [m], Ok tt).
Proof. intros He. unfold send, send_result. by rewrite (proj1 (He _)). Qed.

Lemma send_row_ok env out row : open_env env → Forall cell_typed row → send_row env out row = (out ++ [row_msg row], Ok tt).
Proof.
  intros He Ht. unfold send_row, ctx_check. rewrite (proj2 (He _)). cbn [bindS]. rewrite rowValues_typed by done. cbn [or_status bindS].
  by rewrite send_ok.
Qed.

(** The fields of a result that moving its cursor keeps. *)
Record same_result (r r' : Result) : Prop := {
  sa_cols : sr_cols r' = sr_cols r;
  sa_affected : sr_affected r' = sr_affected r;
  sa_closed : sr_closed r' = sr_closed r;
  sa_err : sr_err r' = None → sr_err r = None;
}.

Lemma sr_Next_same (r r' : Result) ok : sr_Next r = Ok (r', ok) → same_result r r'.
Proof.
  unfold sr_Next. destruct (sr_cursor r); [|by intros [= <- _]]. case_if; [by intros [= <- _]|].
  destruct (cursor_next s) as [[c' ok']|e| |]; try done; by intros [= <- _].
Qed.

(** The loop of the server sends the rows a drained result returns. *)
Lemma query_loop_rows env fuel : ∀ (r r' : Result) out0 rows msgs, open_env env →
  rows_loop fuel r out0 = Ok (r', rows) →
  same_result r r' ∧ ∃ new, rows = out0 ++ new ∧
    (Forall (Forall cell_typed) new → query_loop env fuel r msgs = (r', (msgs ++ map row_msg new, Ok tt))).
Proof.
  induction fuel as [|fuel IH]; intros r r' out0 rows msgs He Hr; cbn [rows_loop] in Hr;
    apply bind_ok in Hr as ([r1 ok] & Hn & Hr); pose proof (sr_Next_same _ _ _ Hn) as [A1 A2 A3 A4].
  - destruct ok; cbn [negb] in Hr; [done|]. injection Hr as -> ->. split; [by split|].
    exists []. rewrite app_nil_r. split; [done|]. intros _. cbn [query_loop map]. by rewrite Hn, app_nil_r.
  - destruct ok; cbn [negb] in Hr.
    + destruct (IH r1 r' (out0 ++ [sr_Row r1]) rows (msgs ++ [row_msg (sr_Row r1)]) He Hr) as ([B1 B2 B3 B4] & new & -> & Hq).
      split; [split; [congruence..|auto]|]. exists (sr_Row r1 :: new). split; [by rewrite <- app_assoc|].
      intros [Ht Hnew]%Forall_cons. cbn [query_loop]. rewrite Hn, send_row_ok, Hq by done. cbn [map]. by rewrite <- app_assoc.
    + injection Hr as -> ->. split; [by split|].
      exists []. rewrite app_nil_r. split; [done|]. intros _. cbn [query_loop map]. by rewrite Hn, app_nil_r.
Qed.

(** The messages for a result that drains without error. *)
Lemma send_rows_ok env (r r' : Result) out : open_env env → sr_cols r ≠ [] → Rows r = Ok (r', (out, None)) → Forall (Forall cell_typed) out →
  send_result_rows env r = (r', (MkQuery (columnDescriptors (sr_cols r)) [] 0 :: map row_msg out, Ok tt)) ∧ same_result r r' ∧ sr_err r' = None.
Proof.
  intros He Hc Hr Ht. unfold Rows in Hr. apply bind_ok in Hr as ([r1 rows] & Hl & Hr). injection Hr as -> -> Herr.
  destruct (query_loop_rows env _ r r' [] out [MkQuery (columnDescriptors (sr_cols r)) [] 0] He Hl) as (Hs & new & Hnew & Hq).
  cbn [app] in Hnew. subst new. unfold send_result_rows. rewrite send_ok by done. cbn [app]. rewrite Hq by done. cbn [bindS].
  rewrite Herr. cbn [bindS]. rewrite (sa_cols _ _ Hs), bool_decide_false by done. done.
Qed.

Lemma Close_same kv (r r' : Result) tx kv2 x : same_result r r' → sr_err r' = None → sr_closed r = false →
  sr_Close kv (r, tx) = (kv2, (closed_result r, None), x) → sr_Close kv (r', tx) = (kv2, (closed_result r', None), x).
Proof.
  intros [S1 S2 S3 S4] He Hc. unfold sr_Close. rewrite S3, Hc, He, (S4 He). destruct tx as [id|]; [|by intros [= <- <-]].
  destruct (applyTXSync kv id) as [kv' c]. by intros [= <- <-].
Qed.

(** ** Answers *)

(** What the client gets for a statement. *)
Inductive sql_answer (db : database) : stmt → QueryResult → database → Prop :=
  | answer_select st schema rows proj cols out :
      (schema, rows) ∈ db → selects schema rows st proj cols → select_answer schema rows st proj out →
      sql_answer db (SSelect st) (MkQResult (map client_column cols) (map client_row out) 0) db
  | answer_write s db' n : sql_step db s db' n → sql_answer db s (MkQResult [] [] n) db'.

(** Statements the specification gives an answer to. *)
Inductive answerable (db : database) : stmt → Prop :=
  | able_select st schema rows proj cols :
      (schema, rows) ∈ db → selects schema rows st proj cols → cols ≠ [] → proj ≠ [] → Forall lits_ok proj →
      answerable db (SSelect st)
  | able_write s db' n : sql_step db s db' n → answerable db s.

Lemma answer_typed schema rows st proj out m :
  Rep schema m rows → selects schema rows st proj out → Forall lits_ok proj →
  ∀ ans, select_answer schema rows st proj ans → Forall (fun row => Forall cell_typed row ∧ length row = length proj) ans.
Proof.
  intros HR Hs Hl ans (l & i & desc & Hp & _ & ->). apply Forall_map, Forall_forall. intros row Hin.
  assert (row ∈ rows) as Hr.
  { assert (row ∈ l) as Hl2.
    { rewrite <- (take_drop (Z.to_nat (sel_offset st)) l). apply elem_of_app. right.
      unfold limited in Hin. destruct (sel_limit st <? 0); [done|].
      rewrite <- (take_drop (Z.to_nat (sel_limit st)) (drop _ l)). apply elem_of_app. by left. }
    rewrite Hp in Hl2. by apply list_elem_of_filter in Hl2 as [_ ?]. }
  apply projected_typed; [|done|by apply (se_projects _ _ _ _ _ Hs)]. by eapply rep_row.
Qed.

(** ** The server and the client *)

(** The stream of an answer. *)
Definition select_stream (cols : list ColumnDesc) (out : list Row) : list QueryResponse :=
  MkQuery (columnDescriptors cols) [] 0 :: map row_msg out.
Definition write_stream (n : Z) : list QueryResponse := [MkQuery [] [] 0; MkQuery [] [] n].

Section query.
Context (kv : KV) (init : list ent) (commits : list (list ent)) (db : database) (Hs : db_state kv init commits db).
Context (env : stream_env) (Henv : open_env env) (text : bytes) (s : stmt) (Hparse : ParseStmt text = Ok s) (Htext : only_space text = false).
Context (Hlen : Z.of_nat (length commits) < 2 ^ 64 - 1).

Lemma srv_select st schema rows proj cols : s = SSelect st → (schema, rows) ∈ db → selects schema rows st proj cols →
  cols ≠ [] → proj ≠ [] → Forall lits_ok proj →
  ∃ kv' out, srv_Query kv text env = (kv', (select_stream cols out, Ok tt)) ∧ select_answer schema rows st proj out ∧
    Forall (fun row => row ≠ []) out ∧ db_state kv' init commits db.
Proof.
  intros -> Hin Hsel Hc Hp Hl. destruct (exec_select kv init commits db Hs schema rows st proj cols Hin Hsel Hlen)
    as (kv1 & r & id & r' & out & kv2 & E & Ecols & Er & Ha & Ecl & Hs2).
  pose proof (answer_typed schema rows st proj cols _ (tr_rows _ _ _ (db_tables _ _ (ds_rep _ _ _ _ Hs) _ _ Hin)) Hsel Hl out Ha) as Ht.
  assert (Forall (Forall cell_typed) out) as Ht1 by (eapply Forall_impl; [exact Ht|]; by intros row []).
  assert (sr_closed r = false) as Hcl. { unfold sr_Close in Ecl. by destruct (sr_closed r). }
  rewrite <- Ecols in Hc. destruct (send_rows_ok env r r' out Henv Hc Er Ht1) as (Esend & Hsame & Herr).
  pose proof (Close_same kv1 r r' (Some id) kv2 (Ok tt) Hsame Herr Hcl Ecl) as Ecl'.
  exists kv2, out. split_and!; [|done| |done].
  - unfold srv_Query, srv_query. rewrite Htext. unfold ctx_check. rewrite (proj2 (Henv _)). unfold db_Query. rewrite Hparse. cbn [bindS].
    rewrite E, Esend, Ecl'. cbn [or_status]. by rewrite Ecols.
  - eapply Forall_impl; [exact Ht|]. intros row [_ Hlr] ->. by destruct proj.
Qed.

Lemma srv_write db' n : sql_step db s db' n →
  ∃ kv' u, writes_of kv s u ∧
    srv_Query kv text env =
      (kv', match log_result kv u with Ok _ => (write_stream n, Ok tt) | l => ([], or_status codes_InvalidArgument "execute statement" l) end) ∧
    match log_result kv u with Ok _ => ∃ commits', db_state kv' init commits' db' | _ => db_state kv' init commits db end.
Proof.
  intros Hst. destruct (exec_refines kv init commits db Hs s db' n Hst Hlen) as (kv1 & u & Hw & E & Hr). exists kv1, u. split; [done|].
  unfold srv_Query, srv_query. rewrite Htext. unfold ctx_check. rewrite (proj2 (Henv _)). unfold db_Query. rewrite Hparse. cbn [bindS]. rewrite E.
  destruct (log_result kv u) as [[]|e|m|]; rs; [|done..]. split; [|by destruct Hr as (commits' & Hd & _); exists commits'].
  unfold send_result_rows. rewrite send_ok by done. cbn [sr_cols sr_cursor affected_result app query_loop sr_Next bindS sr_err].
  by rewrite bool_decide_true, send_ok by done.
Qed.

(** The rows of a stream, as the client collects them. *)
Lemma query_recv_rows out : ∀ (result : QueryResult) a, Forall (fun row => row ≠ []) out →
  query_recv (S := QueryResult)
    (fun result cols => (MkQResult cols (re_Rows result) (re_RowsAffected result), Ok tt))
    (fun result row => (MkQResult (re_Columns result) (re_Rows result ++ [row]) (re_RowsAffected result), Ok tt))
    (map row_msg out) (Ok tt) true (result, a) =
  ((MkQResult (re_Columns result) (re_Rows result ++ map client_row out) (re_RowsAffected result), a), Ok tt).
Proof.
  induction out as [|row out IH]; intros result a Ho; cbn [map query_recv].
  - rewrite app_nil_r. by destruct result.
  - apply Forall_cons in Ho as [Hr Ho]. cbn [negb qr_Values row_msg fst snd]. rewrite bool_decide_false.
    2: { intros Hm. by apply map_eq_nil in Hm. }
    rewrite IH by done. cbn [re_Columns re_Rows re_RowsAffected]. by rewrite rowFromProto_wire, <- app_assoc.
Qed.

Context (dial : string → res unit) (rpc_GetLeader : string → KV → KV * res string).

(** The server at every address. *)
Definition sql_server (cn : string) (statement : bytes) (kv : KV) : KV * (list QueryResponse * res unit) := srv_Query kv statement env.

Lemma text_not_empty : is_empty text = false.
Proof. clear Hparse. by destruct text. Qed.

Lemma client_query_stream c kv' msgs x result affected :
  cl_closed c = false → srv_Query kv text env = (kv', (msgs, x)) →
  query_recv (S := QueryResult)
    (fun result cols => (MkQResult cols (re_Rows result) (re_RowsAffected result), Ok tt))
    (fun result row => (MkQResult (re_Columns result) (re_Rows result ++ [row]) (re_RowsAffected result), Ok tt))
    msgs x false (MkQResult [] [] 0, 0) = ((result, affected), Ok tt) →
  client_Query dial rpc_GetLeader sql_server c kv text =
    (c, kv', Ok (MkQResult (re_Columns result) (re_Rows result) affected)).
Proof.
  intros Hc Hq Hr. unfold client_Query, client_QueryStream. rewrite text_not_empty.
  rewrite (call_once dial rpc_GetLeader _ c _ (kv', (result, affected)) (Ok tt)); [done|done| |done].
  unfold sql_server. by rewrite Hq, Hr.
Qed.

(** A server error before the header that is not a redirect. *)
Lemma client_query_refused c kv' e :
  cl_closed c = false → srv_Query kv text env = (kv', ([], Err e)) → isRedirectable e = false →
  client_Query dial rpc_GetLeader sql_server c kv text = (c, kv', Err (unwrapNoRetry e)).
Proof.
  intros Hc Hq He. unfold client_Query, client_QueryStream. rewrite text_not_empty.
  rewrite (call_once dial rpc_GetLeader _ c _ (kv', (MkQResult [] [] 0, 0)) (Err e)); [done|done| |by intros e' [= <-]].
  unfold sql_server. by rewrite Hq.
Qed.

(** A SELECT is no step of the database. *)
Lemma sql_step_writes db0 st db' n : ¬ sql_step db0 (SSelect st) db' n.
Proof. inversion 1 as [| |? ? ? ? ? ? ? Hr]; subst; inversion Hr. Qed.

(** What the client gets for a statement whose writes the log refuses. *)
Definition query_refused (l : res unit) : res QueryResult :=
  match l with
  | Ok _ | Err _ => Err (status codes_InvalidArgument "execute statement")
  | Panic m => Panic m
  | OutOfFuel => OutOfFuel
  end.

Lemma client_answers c : cl_closed c = false → answerable db s →
  ∃ kv' r u, client_Query dial rpc_GetLeader sql_server c kv text = (c, kv', r) ∧ writes_of kv s u ∧
    ((∃ st, s = SSelect st) → u = []) ∧
    match log_result kv u with
    | Ok _ => ∃ ans db' commits', r = Ok ans ∧ sql_answer db s ans db' ∧ db_state kv' init commits' db'
    | l => r = query_refused l ∧ db_state kv' init commits db
    end.
Proof.
  intros Hc Hable. inversion Hable as [st schema rows proj cols Hin Hsel Hcols Hproj Hl Heq|s0 db' n Hst Heq].
  - destruct (srv_select st schema rows proj cols (eq_sym Heq) Hin Hsel Hcols Hproj Hl) as (kv' & out & Hq & Ha & Hne & Hs').
    eexists kv', _, []. split; [|split; [|split; [done|]]].
    + eapply client_query_stream; [done|exact Hq|]. unfold select_stream. cbn [query_recv negb qr_Columns fst snd]. by apply query_recv_rows.
    + by eapply select_writes.
    + unfold log_result. rewrite decide_True by done. eexists _, db, commits. split; [reflexivity|]. split; [|done].
      cbn [re_Columns re_Rows]. rewrite columns_roundtrip. by eapply answer_select.
  - destruct (srv_write db' n Hst) as (kv' & u & Hw & Hq & Hd). exists kv'.
    assert ((∃ st, s = SSelect st) → u = []) as Hsel by (intros [st ->]; by destruct (sql_step_writes _ _ _ _ Hst)).
    destruct (log_result kv u) as [[]|e|m|] eqn:El; cbn [or_status] in Hq.
    + destruct Hd as (commits' & Hs'). eexists _, u. split; [by eapply client_query_stream|]. split; [done|]. split; [done|]. rewrite El.
      eexists _, db', commits'. split; [reflexivity|]. split; [by apply answer_write|done].
    + eexists _, u. split; [by eapply client_query_refused|]. split; [done|]. split; [done|]. by rewrite El.
    + eexists _, u. unfold client_Query, client_QueryStream. rewrite text_not_empty.
      rewrite (call_once dial rpc_GetLeader _ c _ (kv', (MkQResult [] [] 0, 0)) (Panic m)); [|done|unfold sql_server; by rewrite Hq|done].
      split; [reflexivity|]. split; [done|]. split; [done|]. by rewrite El.
    + eexists _, u. unfold client_Query, client_QueryStream. rewrite text_not_empty.
      rewrite (call_once dial rpc_GetLeader _ c _ (kv', (MkQResult [] [] 0, 0)) OutOfFuel); [|done|unfold sql_server; by rewrite Hq|done].
      split; [reflexivity|]. split; [done|]. split; [done|]. by rewrite El.
Qed.

End query.
End server.
