(* ===== verification/ServiceTheorems.v ===== *)
(** * What the service, its client and backups guarantee

    Scans deliver what was asked for; the calls are steps of a map that keeps
    engine metadata out of reach; a redirected scan hands its rows over once; a
    remote dump is complete; a dump restores the store it was taken from; a
    statement sent as text comes back as the answer of the relational
    specification. *)

From Stdlib Require Import ZArith Lia.
From Stdlib.Strings Require Import Byte.
From stdpp Require Import base list numbers strings.
From S2P Require Import Prelude GoLib SortedSeq SortedKV SortedArray Merge File Entry SortedFile SortedFileProofs KVIterators.
From S2P Require Import Log LogProofs Metadata KV KVCompact KVProofs KVCompactProofs KVSystem KVOps LogHistory Reopen Samples KVTheorems.
From S2P Require Import Table Command Snapshot FSM Restore SnapshotProofs Service ServiceProofs Client Dump DumpProofs DumpLocal.
From S2P Require Import Cell Row RowProofs Sql EvalProofs SqlTheorems Parser Planner PlannerProofs TxKV TxInstance Table.
From S2P Require Import TableProofs TableScan TableSelect TableStmt SchemaSample Relational DB Refine DBTheorems.
From S2P Require Import SqlService SqlServiceProofs.

Open Scope Z_scope.

Section theorems.
Context `{BL : BloomLaws} `{MetaJson}.

(** C22: A Range call, ascending or descending, bounded or not, streams exactly
    the committed keys inside its bounds that are not reserved, in scan order
    and with their values, up to the smaller of the limits of the client and of
    the server; it stops early only with an error of the stream, of the context
    or of the scan deadline, and then it has sent a prefix; the call ends its
    transaction and changes nothing. *)
Theorem range_stream opts s limits req env :
  store_state opts s → kv_closed (sy_kv s) = false → 0 ≤ rr_limit req < 2 ^ 64 → 0 ≤ rl_limit limits < 2 ^ 64 →
  let scan := newRangeScan req limits in
  ∃ kv' out x, srv_Range (sy_kv s) limits req env = (kv', ignoreClosedStream (out, x)) ∧
    delivered scan env (scan_rows scan (contents [] (sy_commits s))) out x ∧
    kv_closed kv' = false ∧ ∀ k, snd (kv_Get kv' k) = snd (kv_Get (sy_kv s) k).
Proof.
  intros Hst Hcl Hreq Hlim scan. destruct (store_inv _ _ Hst) as [Hi Hr _ _ _ _].
  destruct (srv_Range_spec (sy_kv s) [] (sy_commits s) Hi Hr Hcl limits req env Hreq Hlim) as (kv' & out & x & E & Hi' & Hr' & Ho' & Hd).
  exists kv', out, x. split_and!; [done..|]. intros k.
  destruct (kv_Get_spec kv' _ _ Hi' Hr' Ho' k) as (? & -> & _). by destruct (kv_Get_spec (sy_kv s) _ _ Hi Hr Hcl k) as (? & -> & _).
Qed.

(** C19: The service is a map from keys to values: every Get, Put and Delete
    answers and changes the committed values as the specification [rpc_step]
    says, for every key, mode and state of the context, unless the call has an
    entry to write ([call_writes]) and the log refuses that entry; then the call
    answers Internal and nothing changes.  A call without an entry to write, a
    Get among them, never fails for the log. *)
Theorem service_refines kv init commits m ctx c :
  serves kv init commits m → Z.of_nat (length commits) < 2 ^ 64 - 1 →
  ∃ kv' r, serve kv ctx c = (kv', r) ∧
    match log_result kv (call_writes m ctx c) with
    | Ok _ => ∃ commits' m', rpc_step m ctx c r m' ∧ serves kv' init commits' m' ∧ (length commits' ≤ S (length commits))%nat
    | l => r = refused c l ∧ serves kv' init commits m
    end.
Proof. apply serve_refines. Qed.

(** The store after a sequence of calls. *)
Definition serve_all (kv : KV) (calls : list (option error * call)) : KV := foldl (fun kv c => fst (serve kv c.1 c.2)) kv calls.

Lemma serve_all_reserved calls : ∀ kv init commits m, serves kv init commits m → Z.of_nat (length commits + length calls) < 2 ^ 64 - 1 →
  ∃ commits' m', serves (serve_all kv calls) init commits' m' ∧ ∀ k, ¬ user_key k → m' k = m k.
Proof.
  induction calls as [|[ctx c] calls IH]; intros kv init commits m Hs Hlen; [by exists commits, m|]. cbn [length] in Hlen.
  destruct (serve_refines kv init commits m ctx c Hs ltac:(lia)) as (kv' & r & E & Hr).
  unfold serve_all. cbn [foldl fst snd]. rewrite E. cbn [fst]. fold (serve_all kv' calls).
  assert (∃ commits1 m1, serves kv' init commits1 m1 ∧ (length commits1 ≤ S (length commits))%nat ∧ ∀ k, ¬ user_key k → m1 k = m k)
    as (commits1 & m1 & Hs1 & Hl1 & Hk1).
  { unfold call_outcome in Hr. destruct (log_result _ _); [destruct Hr as (commits1 & m1 & Hstep & Hs1 & Hl1)|destruct Hr as [_ Hs1]..];
      [|exists commits, m; split_and!; [done|lia|done]..].
    exists commits1, m1. split_and!; [done..|]. intros k Hk. by eapply rpc_step_reserved. }
  destruct (IH kv' init commits1 m1 Hs1 ltac:(lia)) as (commits2 & m2 & Hs2 & Hk2). exists commits2, m2. split; [done|].
  intros k Hk. by rewrite Hk2, Hk1.
Qed.

(** No sequence of calls of a remote client changes engine metadata: every
    key with the reserved prefix, the table schemas among them, keeps its
    committed value. *)
Theorem service_confined opts s calls k :
  store_state opts s → kv_closed (sy_kv s) = false → Z.of_nat (length (sy_commits s) + length calls) < 2 ^ 64 - 1 →
  IsReservedKey k = true → snd (kv_Get (serve_all (sy_kv s) calls) k) = snd (kv_Get (sy_kv s) k).
Proof.
  intros Hst Hcl Hlen Hk. destruct (store_inv _ _ Hst) as [Hi Hr _ _ _ _].
  destruct (serve_all_reserved calls (sy_kv s) [] (sy_commits s) (current [] (sy_commits s))) as (commits' & m' & (Hi' & Hr' & Ho' & Hm') & Hres);
    [by split_and!|done|].
  destruct (kv_Get_spec _ _ _ Hi' Hr' Ho' k) as (? & -> & _). destruct (kv_Get_spec _ _ _ Hi Hr Hcl k) as (? & -> & _). cbn [snd].
  rewrite Hm', Hres; [done|]. intros [_ Hf]. congruence.
Qed.

(** C25: A redirected scan never hands a row over twice: however often the client
    repeats the call on another node, the rows it passes on are those of one
    stream of one server, and it reports success only if that stream ended
    without error. *)
Theorem rows_delivered_once {W} dial rpc_GetLeader rpc_Range c (w : W) req c' ws r :
  cl_closed c = false →
  client_Range dial rpc_GetLeader rpc_Range c w req (fun out kv => (out ++ [kv], Ok tt)) [] = (c', (ws, r)) →
  ∃ cn w0 w1 status, rpc_Range cn req w0 = (w1, (snd ws, status)) ∧ (r = Ok tt → status = Ok tt) ∧
    (∀ e, r = Err e → ∃ e', status = Err e' ∧ (e = e' ∨ e = unwrapNoRetry e')).
Proof. apply client_Range_one. Qed.

(** C23: A remote dump is complete and ends: if the server allows at least two
    rows per scan, whatever pages its row limit and its scan deadline make, the
    stream holds every key a client may read with its value, once and in order,
    and its number of keys, after at most one page per key and two more. *)
Theorem remote_dump_complete limits envs dial rpc_GetLeader kv init commits addr maxRedirects consistency fuel :
  inv kv init commits → refs_ok kv → kv_closed kv = false →
  0 ≤ rl_limit limits < 2 ^ 64 → rl_limit limits ≠ 1 →
  (∀ n i, ev_send (envs n) i = None ∧ ev_ctx (envs n) i = None) →
  let rows := user_rows init commits in
  Forall (fun e => e_key e ≠ []) rows → Z.of_nat (length rows) < 2 ^ 64 → addr ≠ EmptyString → (length rows + 2 ≤ fuel)%nat →
  ∃ w' writer, dumpRemote dial rpc_GetLeader (one_server limits envs) fuel addr maxRedirects consistency (fun _ => false) (kv, 0%nat) newDumpWriter =
      (w', writer, Ok tt) ∧
    dw_finish writer = (dump_bytes (pairs rows), Z.of_nat (length rows)).
Proof.
  intros Hi Hr Ho Hl Hl1 Hq rows Hk Hn Ha Hf. unfold dumpRemote, client_New. rewrite bool_decide_false by done.
  destruct (dump_pages_spec limits envs Hl Hl1 Hq init commits dial rpc_GetLeader (i_init _ _ _ _ Hi) Hk Hn fuel
    (MkClient maxRedirects addr [addr] addr false) kv 0%nat 0%nat [] rows consistency) as (kv' & m' & E & _); [done..|lia|].
  rewrite newDumpWriter_of. eexists _, _. split; [exact E|]. rewrite dw_finish_of. f_equal.
  unfold pairs. rewrite length_map. apply Z.mod_small. lia.
Qed.

(** C24: A dump restores the store: the dump of a directory, restored into an
    empty directory, gives a directory whose own dump is the same byte for
    byte; the number of keys both report is that of the live keys. *)
Theorem dump_restore opts d m :
  opens opts d m → Forall small m → 3 * Z.of_nat (length m) < 2 ^ 62 →
  let n := Z.of_nat (length m) in
  ∃ d1 writer data reader d2, dumpLocal opts d newDumpWriter = (d1, Ok writer) ∧ dw_finish writer = (data, n) ∧
    newDumpReader data = Ok reader ∧ restoreLocal opts empty_disk reader = (d2, Ok n) ∧
    ∀ opts', ∃ d3 writer', dumpLocal opts' d2 newDumpWriter = (d3, Ok writer') ∧ dw_finish writer' = (data, n).
Proof.
  intros Hop Hsm Hlen n. destruct (dumpLocal_spec opts d m Hop) as (d1 & E1).
  assert (u64 (Z.of_nat (length (pairs m))) = n) as Hn by (unfold pairs; rewrite length_map; apply Z.mod_small; lia).
  destruct Hop as (kv & init & commits & _ & Hi & _ & Hm).
  assert (sorted m ∧ Forall (fun e => live e = true) m) as [Hs Hlv].
  { subst m. split; [apply lives_sorted, state_at_sorted, (i_init _ _ _ _ Hi)|]. apply Forall_forall. by intros e [He _]%list_elem_of_filter. }
  destruct (restoreLocal_empty opts m Hs Hlv Hsm Hlen) as (d2 & E2 & Hop2).
  eexists d1, _, _, _, d2. split; [exact E1|]. split; [by rewrite dw_finish_of, Hn|]. split; [apply newDumpReader_magic|].
  split; [rewrite E2; do 2 f_equal; apply Z.mod_small; lia|]. intros opts'. destruct (dumpLocal_spec opts' d2 m (Hop2 opts')) as (d3 & E3).
  eexists d3, _. split; [exact E3|]. by rewrite dw_finish_of, Hn.
Qed.

(** A restore that reports success has read a whole stream. *)
Lemma restore_loop_drained fuel : ∀ kv id reader count pending kv' x,
  restore_loop fuel kv id reader count pending = (kv', Ok (inl x)) → ∃ l, drain fuel reader = (l, Err io_EOF).
Proof.
  induction fuel as [|fuel IH]; intros kv id reader count pending kv' x; cbn [restore_loop drain]; [done|].
  destruct (dr_next reader) as [[[k v] d]|e| |]; try done.
  2: { case_bool_decide as He; [|done]. intros _. subst e. by exists []. }
  destruct (with_tx kv id _) as [kv1 [b| | |]]; try done.
  destruct (restoreBatchSize <=? pending + 1); [destruct (applyTXSync kv1 id) as [kv2 [[]| | |]]; try done|].
  - destruct (NewTX kv2) as [[kv3 id3]| | |]; cbn [bindS]; try done. intros E. apply IH in E as [l ->]. by eexists.
  - intros E. apply IH in E as [l ->]. by eexists.
Qed.

(** A truncated dump is never taken for a whole one: no proper prefix of a
    dump stream, cut at any byte, can be restored with success, and what was
    read from it is a prefix of the entries. *)
Theorem dump_truncated opts d l n :
  Forall dumpable l → (n < length (dump_bytes l))%nat →
  newDumpReader (take n (dump_bytes l)) = Err errDumpCorrupt ∨
  ∃ reader l', newDumpReader (take n (dump_bytes l)) = Ok reader ∧
    drain (S (length (dr_r reader))) reader = (l', Err errDumpCorrupt) ∧ l' `prefix_of` l ∧
    ∀ d' count, restoreLocal opts d reader ≠ (d', Ok count).
Proof.
  intros Hd Hn. destruct (read_cut_dump l n Hd Hn) as [E|(reader & l' & E & Hdr & Hp)]; [by left|right].
  exists reader, l'. split_and!; [done..|]. intros d' count Hres. unfold restoreLocal in Hres.
  destruct (kv_Open opts d) as [store| | |]; [|done..]. destruct (restore_store store reader) as [kv1 r] eqn:Er.
  destruct (kv_Close kv1); cbn [bindS] in Hres; try done. injection Hres as _ ->.
  unfold restore_store in Er. destruct (NewTX store) as [[kv2 id]| | |]; cbn [bindS] in Er; try done.
  destruct (restore_loop (S (length (dr_r reader))) kv2 id reader 0 0) as [kv3 [[x|[e [i|]]]| | |]] eqn:El; cbn [bindS] in Er; try done.
  - apply restore_loop_drained in El as [l2 El]. congruence.
  - by destruct (abortTX kv3 i).
Qed.

End theorems.

(** ** The service at work

    The store of the sample run: the key k with the value v. *)

Definition quiet_env : stream_env := MkEnv (fun _ => None) (fun _ => None) (fun _ => false).
Definition w_limits : rangeLimits := MkLimits 10000 30.
Definition w_all : RangeRequest := MkRangeReq [] [] true false 0 0.

Lemma range_stream_witness :
  ∃ kv', srv_Range w_kv3 w_limits w_all quiet_env = (kv', ([MkRangeResp (bs "k") (Some (bs "v"))], Ok tt)).
Proof.
  destruct (range_stream w_opts w_s3 w_limits w_all quiet_env w_step3) as (kv' & out & x & E & Hd & _).
  - vm_compute. reflexivity.
  - cbn. lia.
  - cbn. lia.
  - exists kv'. refine (eq_trans E _). f_equal. destruct Hd as [[-> ->]|(e & _ & Hc & _)]; [vm_compute; reflexivity|].
    exfalso. destruct Hc as [Hc|(_ & _ & [(c & Hc & _)|(_ & Hc & _)])]; discriminate.
Defined.

Lemma w_serves : serves w_kv3 [] w_commits (current [] w_commits).
Proof.
  destruct (store_inv _ _ w_step3) as [Hi Hr _ _ _ _]. split; [exact Hi|]. split; [exact Hr|]. split; [vm_compute; reflexivity|reflexivity].
Qed.

(** A Put in insert mode does not touch a key that is there. *)
Lemma service_refines_witness :
  ∃ kv' r m', serve w_kv3 None (CPut (bs "k") (bs "w") 2) = (kv', r) ∧
    rpc_step (current [] w_commits) None (CPut (bs "k") (bs "w") 2) r m' ∧ m' (bs "k") = Some (bs "v").
Proof.
  assert (snd (serve w_kv3 None (CPut (bs "k") (bs "w") 2)) = Ok (RPut false)) as E2 by (vm_compute; reflexivity).
  destruct (service_refines w_kv3 [] w_commits (current [] w_commits) None (CPut (bs "k") (bs "w") 2) w_serves ltac:(vm_compute; reflexivity))
    as (kv' & r & E & Hr). rewrite E in E2. cbn [snd] in E2. subst r. exists kv', (Ok (RPut false)).
  destruct (answered_step w_kv3 kv' [] w_commits (current [] w_commits) None (CPut (bs "k") (bs "w") 2) (RPut false) Hr) as (m' & Hs).
  exists m'. split; [exact E|]. split; [exact Hs|]. rewrite (rpc_step_put _ _ _ _ _ _ Hs). vm_compute. reflexivity.
Defined.

(** A client that tries to overwrite and to delete the schema of a table. *)
Definition w_attack : list (option error * call) :=
  [(None, CPut (schemaKey (bs "t")) (bs "x") 0); (None, CDelete (schemaKey (bs "t"))); (None, CPut (bs "k") (bs "x") 1)].

Lemma service_confined_witness :
  snd (kv_Get (serve_all w_kv3 w_attack) (schemaKey (bs "t"))) = snd (kv_Get w_kv3 (schemaKey (bs "t"))).
Proof.
  apply (service_confined w_opts w_s3 w_attack (schemaKey (bs "t")) w_step3); vm_compute; reflexivity.
Defined.

(** Two nodes: the follower redirects to the leader, which sends one row. *)
Definition w_GetLeader (cn : string) (w : nat) : nat * res string := (S w, Ok "leader"%string).
Definition w_cluster (cn : string) (req : RangeRequest) (w : nat) : nat * (list RangeResponse * res unit) :=
  if bool_decide (cn = "leader"%string) then (w, ([MkRangeResp (bs "k") (Some (bs "v"))], Ok tt))
  else (w, ([], Err (status_Error codes_Unavailable "not leader" None))).
Definition w_client : Client := MkClient 1 "follower" ["follower"%string] "follower" false.

Lemma rows_delivered_once_witness :
  ∃ cn w0 w1 status, w_cluster cn w_all w0 = (w1, ([MkRangeResp (bs "k") (Some (bs "v"))], status)) ∧ status = Ok tt.
Proof.
  destruct (rows_delivered_once (fun _ => Ok tt) w_GetLeader w_cluster w_client 0%nat w_all
    (MkClient 1 "follower" ["leader"; "follower"]%string "leader" false) (1%nat, [MkRangeResp (bs "k") (Some (bs "v"))]) (Ok tt)
    eq_refl ltac:(vm_compute; reflexivity)) as (cn & w0 & w1 & status & E & Hok & _).
  exists cn, w0, w1, status. split; [exact E|exact (Hok eq_refl)].
Defined.

Lemma remote_dump_complete_witness :
  ∃ w' writer, dumpRemote (fun _ => Ok tt) (fun _ w => (w, Ok EmptyString)) (one_server (MkLimits 2 30) (fun _ => quiet_env))
      3 "server" 1 0 (fun _ => false) (w_kv3, 0%nat) newDumpWriter = (w', writer, Ok tt) ∧
    dw_finish writer = (dump_bytes [(bs "k", bs "v")], 1).
Proof.
  destruct (store_inv _ _ w_step3) as [Hi Hr _ _ _ _].
  apply (remote_dump_complete (MkLimits 2 30) (fun _ => quiet_env) (fun _ => Ok tt) (fun _ w => (w, Ok EmptyString)) w_kv3 [] w_commits
    "server" 1 0 3 Hi Hr).
  - vm_compute. reflexivity.
  - cbn. lia.
  - discriminate.
  - intros n i. split; reflexivity.
  - apply Forall_forall. apply (proj1 (Forall_forall _ _)). vm_compute. repeat constructor. discriminate.
  - vm_compute. reflexivity.
  - discriminate.
  - apply Nat.leb_le. vm_compute. reflexivity.
Defined.

(** A directory with one pair. *)
Definition w_pair : list ent := [Ent (bs "k") (bs "v") false].

Lemma w_opens : ∃ d, opens w_opts d w_pair.
Proof.
  destruct (restoreLocal_empty w_opts w_pair) as (d & _ & Ho).
  - repeat constructor.
  - repeat constructor.
  - repeat constructor. vm_compute. discriminate.
  - vm_compute. reflexivity.
  - exists d. exact (Ho w_opts).
Qed.

Lemma dump_restore_witness :
  ∃ d d1 writer reader d2, opens w_opts d w_pair ∧ dumpLocal w_opts d newDumpWriter = (d1, Ok writer) ∧
    newDumpReader (fst (dw_finish writer)) = Ok reader ∧ restoreLocal w_opts empty_disk reader = (d2, Ok 1).
Proof.
  destruct w_opens as [d Hd].
  destruct (dump_restore w_opts d w_pair Hd) as (d1 & writer & data & reader & d2 & E1 & E2 & E3 & E4 & _).
  - repeat constructor. vm_compute. discriminate.
  - vm_compute. reflexivity.
  - exists d, d1, writer, reader, d2. rewrite E2. split; [exact Hd|]. split; [exact E1|]. split; [exact E3|exact E4].
Defined.

(** The dump of one pair without its last byte. *)
Lemma dump_truncated_witness :
  ∃ reader, newDumpReader (take 21 (dump_bytes [(bs "k", bs "v")])) = Ok reader ∧
    ∀ d' count, restoreLocal w_opts fresh_disk reader ≠ (d', Ok count).
Proof.
  destruct (dump_truncated w_opts fresh_disk [(bs "k", bs "v")] 21) as [E|(reader & l' & E & _ & _ & Hr)].
  - repeat constructor; vm_compute; discriminate.
  - apply Nat.ltb_lt. vm_compute. reflexivity.
  - vm_compute in E. discriminate E.
  - exists reader. split; [exact E|exact Hr].
Defined.

(** ** The SQL service *)

Section sql_theorems.
Context `{BL : BloomLaws} `{MetaJson} {SJ : SchemaJson} {SL : SchemaJsonLaws}.

(** C20: A client that sends the text of a statement over an undisturbed stream
    gets the answer of the relational specification: for a SELECT the columns and
    the projected matching rows, cell by cell with their types, and a database
    left alone; for any other statement no row and the count of rows affected,
    with the database moved by one step.  [answerable] asks that the columns exist
    and that the condition and the projection evaluate on every row; the stream is
    undisturbed ([open_env]: every message is sent, the context is alive).  The
    log decides about the writes of the statement itself: only when it refuses
    them, which it cannot for a SELECT, the client gets the InvalidArgument of the
    server, and then nothing has changed. *)
Theorem query_answers kv init commits db env text s dial rpc_GetLeader c :
  db_state kv init commits db → Z.of_nat (length commits) < 2 ^ 64 - 1 →
  open_env env → cl_closed c = false →
  ParseStmt text = Ok s → only_space text = false → answerable db s →
  ∃ kv' r u, client_Query dial rpc_GetLeader (sql_server env) c kv text = (c, kv', r) ∧ writes_of kv s u ∧
    ((∃ st, s = SSelect st) → u = []) ∧
    match log_result kv u with
    | Ok _ => ∃ ans db' commits', r = Ok ans ∧ sql_answer db s ans db' ∧ db_state kv' init commits' db'
    | l => r = query_refused l ∧ db_state kv' init commits db
    end.
Proof. intros Hs Hlen Henv Hc Hp Ht Ha. exact (client_answers kv init commits db Hs env Henv text s Hp Ht Hlen dial rpc_GetLeader c Hc Ha). Qed.

End sql_theorems.

Definition w_text : bytes := bs "SELECT n + 1 FROM t WHERE name = 'ab';".
Definition w_env : stream_env := MkEnv (fun _ => None) (fun _ => None) (fun _ => false).
Definition w_sql_client : Client := MkClient 1 "s" ["s"%string] "s" false.

Lemma w_parse : ParseStmt w_text = Ok (SSelect w_select) ∧ only_space w_text = false.
Proof. split; vm_compute; reflexivity. Qed.

Definition w_query : Client * KV * res QueryResult :=
  client_Query (fun _ => Ok tt) (fun _ kv => (kv, Ok EmptyString)) (sql_server w_env) w_sql_client w_filled w_text.

Definition w_result : QueryResult :=
  MkQResult [MkColumn (expr2str w_proj) VALUE_TYPE_INT64] [[MkValue VALUE_TYPE_INT64 8 []]] 0.

(** An answer that came is the answer of the specification. *)
Lemma answered (q : Client * KV * res QueryResult) c kv' r x db commits s (l : res unit) :
  q = (c, kv', r) → snd q = Ok x →
  match l with
  | Ok _ => ∃ ans db' commits', r = Ok ans ∧ sql_answer db s ans db' ∧ db_state kv' [] commits' db'
  | Err e => r = query_refused (Err e) ∧ db_state kv' [] commits db
  | Panic m => r = query_refused (Panic m) ∧ db_state kv' [] commits db
  | OutOfFuel => r = query_refused OutOfFuel ∧ db_state kv' [] commits db
  end →
  ∃ db' commits', sql_answer db s x db' ∧ db_state (snd (fst q)) [] commits' db'.
Proof.
  intros -> Hr Hl. cbn [fst snd] in *. subst r. destruct l; [|by destruct Hl..].
  destruct Hl as (ans & db' & commits' & [= <-] & Ha & Hd). eauto.
Qed.

Lemma query_answers_witness :
  snd w_query = Ok w_result ∧
  ∃ db' commits', sql_answer [(w_schema, [w_row1])] (SSelect w_select) w_result db' ∧ db_state (snd (fst w_query)) [] commits' db'.
Proof.
  assert (snd w_query = Ok w_result) as Eq
    by (vm_compute; reflexivity).
  split; [exact Eq|]. destruct w_filled_state as (commits & Hs & Hl).
  destruct (query_answers w_filled [] commits _ w_env w_text (SSelect w_select) (fun _ => Ok tt) (fun _ kv => (kv, Ok EmptyString)) w_sql_client Hs)
    as (kv' & r & u & E & _ & _ & Hr).
  - lia.
  - intros n. split; reflexivity.
  - reflexivity.
  - exact (proj1 w_parse).
  - exact (proj2 w_parse).
  - eapply able_select; [apply list_elem_of_here|exact w_selects|discriminate|discriminate|]. repeat constructor; vm_compute; congruence.
  - exact (answered w_query w_sql_client kv' r w_result [(w_schema, [w_row1])] commits (SSelect w_select) (log_result w_filled u) E Eq Hr).
Defined.
