(* ===== verification/Membership.v ===== *)
(** * Gossip discovery and Raft membership: cluster/discovery and
      cluster/membership.go, with the configuration and the shutdown of
      cluster/node.go

    The node sees gossip through [NodeInfo]s and [Event]s.  [SerfDiscovery]
    makes them from the members and events of Serf, which come here as data:
    what Serf reports is an argument.

    A node keeps the gRPC addresses it has learnt, the timers of members that
    gossip reports as failed, and the members it has evicted; it changes the Raft
    configuration when it leads.  Raft, the gossip layer and the calls to other
    nodes are the interface [Cluster] on the state [W] of everything outside the
    node.  An operation that takes the lock is atomic. *)

From Stdlib Require Import ZArith Lia.
From Stdlib.Strings Require Import Byte.
From stdpp Require Import base list numbers gmap sorting strings.
From S2P Require Import Prelude GoLib.

Open Scope Z_scope.

(** ** Gossip *)

Inductive MemberStatus := MemberStatusUnknown | MemberStatusAlive | MemberStatusLeaving | MemberStatusLeft | MemberStatusFailed.

#[export] Instance MemberStatus_eq_dec : EqDecision MemberStatus.
Proof. solve_decision. Defined.

Record NodeInfo := MkInfo {
  ni_NodeID : string; ni_GRPCAddr : string; ni_RaftAddr : string; ni_SerfAddr : string; ni_Status : MemberStatus }.

Inductive EventType := EventMemberJoin | EventMemberUpdate | EventMemberLeave | EventMemberFailed.

Record Event := MkEvent { ev_Type : EventType; ev_Member : NodeInfo }.

(** ** What Serf reports *)

(** The events of Serf; [EventMemberReap], [EventUser] and [EventQuery] are not
    forwarded. *)
Inductive serf_EventType := serf_MemberJoin | serf_MemberLeave | serf_MemberFailed | serf_MemberUpdate | serf_MemberReap.
Inductive serf_Status := serf_StatusNone | serf_StatusAlive | serf_StatusLeaving | serf_StatusLeft | serf_StatusFailed.

(** A member, with [Addr.String()] for its address. *)
Record serf_Member := MkMember { sm_Tags : gmap string string; sm_Addr : string; sm_Port : Z; sm_Status : serf_Status }.

Inductive serf_Event := MemberEvent (t : serf_EventType) (members : list serf_Member) | OtherEvent.

Definition serfTagService : string := "service".
Definition serfTagNodeID : string := "node_id".
Definition serfTagGRPCAddr : string := "grpc_addr".
Definition serfTagRaftAddr : string := "raft_addr".
Definition serviceName : string := "pallasdb".

(** A missing key of a Go map reads as the zero value. *)
Definition tag (m : serf_Member) (key : string) : string := default EmptyString (sm_Tags m !! key).

Definition normalizeMemberStatus (s : serf_Status) : MemberStatus :=
  match s with
  | serf_StatusAlive => MemberStatusAlive
  | serf_StatusLeaving => MemberStatusLeaving
  | serf_StatusLeft => MemberStatusLeft
  | serf_StatusFailed => MemberStatusFailed
  | serf_StatusNone => MemberStatusUnknown
  end.

Definition normalizeEventType (t : serf_EventType) : option EventType :=
  match t with
  | serf_MemberJoin => Some EventMemberJoin
  | serf_MemberUpdate => Some EventMemberUpdate
  | serf_MemberLeave => Some EventMemberLeave
  | serf_MemberFailed => Some EventMemberFailed
  | serf_MemberReap => None
  end.

(** [net.JoinHostPort]: brackets around a host with a colon. *)
Definition JoinHostPort (host : string) (port : Z) : string :=
  let host := bs host in
  let host := if bool_decide (x3a ∈ host) then bs "[" ++ host ++ bs "]" else host in
  String.string_of_list_byte (host ++ bs ":" ++ FormatInt port).

Definition nodeInfoFromMember (m : serf_Member) : option NodeInfo :=
  if negb (bool_decide (tag m serfTagService = serviceName)) then None else
  let nodeID := tag m serfTagNodeID in
  let raftAddr := tag m serfTagRaftAddr in
  if bool_decide (nodeID = EmptyString) || bool_decide (raftAddr = EmptyString) then None else
  Some (MkInfo nodeID (tag m serfTagGRPCAddr) raftAddr (JoinHostPort (sm_Addr m) (sm_Port m)) (normalizeMemberStatus (sm_Status m))).

(** [Members]; [None] stands for an adapter that was not started. *)
Definition serf_Members (s : option (list serf_Member)) : list NodeInfo :=
  match s with None => [] | Some members => omap nodeInfoFromMember members end.

(** What [forwardEvents] sends for an event, in order. *)
Definition forward_event (e : serf_Event) : list Event :=
  match e with
  | MemberEvent t members =>
      match normalizeEventType t with
      | Some t => MkEvent t <$> omap nodeInfoFromMember members
      | None => []
      end
  | OtherEvent => []
  end.

Definition forwardEvents (events : list serf_Event) : list Event := mjoin (forward_event <$> events).

(** The node's own tags, as [Start] advertises them. *)
Definition start_tags (nodeID grpcAddr raftAddr : string) : gmap string string :=
  <[serfTagService := serviceName]> (<[serfTagNodeID := nodeID]>
    (<[serfTagGRPCAddr := grpcAddr]> (<[serfTagRaftAddr := raftAddr]> ∅))).

Definition validateEncryptKey (key : bytes) : res unit :=
  if bool_decide (Z.of_nat (length key) ∈ [0; 16; 24; 32]) then Ok tt
  else Err (errorsNew "serf encrypt key must be 16, 24, or 32 bytes").

(** A node that advertises itself is seen by its peers under the identity and
    addresses it was configured with. *)
Lemma advertised nodeID grpcAddr raftAddr addr port st :
  nodeID ≠ EmptyString → raftAddr ≠ EmptyString →
  nodeInfoFromMember (MkMember (start_tags nodeID grpcAddr raftAddr) addr port st) =
  Some (MkInfo nodeID grpcAddr raftAddr (JoinHostPort addr port) (normalizeMemberStatus st)).
Proof.
  intros Hn Hr. unfold nodeInfoFromMember, tag, start_tags. cbn [sm_Tags sm_Addr sm_Port sm_Status]. simplify_map_eq. cbn.
  by rewrite !bool_decide_false.
Qed.

(** Only members of the service with an identity and a Raft address are seen. *)
Lemma nodeInfo_known m info : nodeInfoFromMember m = Some info → ni_NodeID info ≠ EmptyString ∧ ni_RaftAddr info ≠ EmptyString.
Proof. unfold nodeInfoFromMember. repeat case_bool_decide; cbn; try done. by intros [= <-]. Qed.

(** ** Raft's data *)

Inductive RaftState := Follower | Candidate | Leader | Shutdown.
Inductive ServerSuffrage := Voter | Nonvoter | Staging.

#[export] Instance RaftState_eq_dec : EqDecision RaftState.
Proof. solve_decision. Defined.
#[export] Instance ServerSuffrage_eq_dec : EqDecision ServerSuffrage.
Proof. solve_decision. Defined.

Record Server := MkServer { sv_Suffrage : ServerSuffrage; sv_ID : string; sv_Address : string }.

#[export] Instance Server_eq_dec : EqDecision Server.
Proof. solve_decision. Defined.

Record JoinRequest := MkJoin { jr_NodeID : string; jr_RaftAddr : string; jr_GRPCAddr : string; jr_NonVoter : bool }.

(** ** What a node calls

    [LeaderWithID] gives the address, then the ID.  A change of the
    configuration is the outcome of its future.  [node_sleep] is what happens
    during a pause of the poll for a leader.  Timeouts are the concern of the
    other side and are not kept. *)
Class Cluster (W : Type) := {
  raft_State : W → RaftState;
  raft_LeaderWithID : W → string * string;
  raft_GetConfiguration : W → res (list Server);
  raft_Stats : W → string → bytes;
  raft_AddVoter : string → string → W → W * res unit;
  raft_AddNonvoter : string → string → W → W * res unit;
  raft_RemoveServer : string → W → W * res unit;
  raft_LeadershipTransfer : W → W * res unit;
  raft_BootstrapCluster : list Server → W → W * res unit;
  raft_Shutdown : W → W * res unit;
  disc_Members : W → list NodeInfo;
  disc_Leave : W → W * res unit;
  disc_Shutdown : W → W * res unit;
  joinRPC : string → JoinRequest → W → W * res unit;
  leaveRPC : string → string → W → W * res unit;
  node_sleep : W → W;
}.

(** ** The node *)

(** The settings the modelled code reads; [cf_discovery] tells whether a
    discovery was supplied. *)
Record Config := MkConfig {
  cf_NodeID : string; cf_GRPCAddr : string; cf_RaftAddr : string; cf_Bootstrap : bool; cf_JoinAddr : string;
  cf_Timeout : Z; cf_BootstrapExpect : Z; cf_NonVoter : bool; cf_FailureGracePeriod : Z; cf_PromotionInterval : Z;
  cf_LeaveOnShutdown : bool; cf_SerfEnabled : bool; cf_discovery : bool }.

Definition defaultApplyTimeout : Z := 10 * 10 ^ 9.
Definition defaultFailureGracePeriod : Z := 30 * 10 ^ 9.
Definition defaultPromotionInterval : Z := 10 ^ 9.

Definition applyDefaults (c : Config) : Config :=
  MkConfig (cf_NodeID c) (cf_GRPCAddr c) (cf_RaftAddr c) (cf_Bootstrap c) (cf_JoinAddr c)
    (if cf_Timeout c =? 0 then defaultApplyTimeout else cf_Timeout c) (cf_BootstrapExpect c) (cf_NonVoter c)
    (if cf_FailureGracePeriod c =? 0 then defaultFailureGracePeriod else cf_FailureGracePeriod c)
    (if cf_PromotionInterval c <=? 0 then defaultPromotionInterval else cf_PromotionInterval c)
    (cf_LeaveOnShutdown c) (cf_SerfEnabled c) (cf_discovery c).

Definition empty (s : string) : bool := bool_decide (s = EmptyString).

Definition validate (c : Config) : res unit :=
  if empty (cf_NodeID c) then Err (errorsNew "cluster: node id is required") else
  if cf_BootstrapExpect c =? 1 then Err (errorsNew "cluster: bootstrap expect 1 is ambiguous, use Bootstrap instead") else
  if (2 <=? cf_BootstrapExpect c) && negb (cf_SerfEnabled c) && negb (cf_discovery c)
  then Err (errorsNew "cluster: bootstrap expect requires discovery to be enabled") else
  if (2 <=? cf_BootstrapExpect c) && cf_Bootstrap c
  then Err (errorsNew "cluster: bootstrap and bootstrap expect are mutually exclusive") else
  Ok tt.

(** The fields of [Node] that membership uses.  [nd_timers] are the timers of
    [after] that have neither fired nor been stopped, with the node their
    function evicts; [nd_pending] is [pendingRemoval]; [nd_local] the address of
    the transport. *)
Record Node := MkNode {
  nd_cfg : Config;
  nd_local : option string;
  nd_discovery : bool;
  nd_closed : bool;
  nd_grpcAddrs : gmap string string;
  nd_pending : gmap string nat;
  nd_evicted : gset string;
  nd_timers : gmap nat string;
  nd_next : nat;
}.

Definition set_addrs (n : Node) (a : gmap string string) : Node :=
  MkNode (nd_cfg n) (nd_local n) (nd_discovery n) (nd_closed n) a (nd_pending n) (nd_evicted n) (nd_timers n) (nd_next n).
Definition set_evicted (n : Node) (e : gset string) : Node :=
  MkNode (nd_cfg n) (nd_local n) (nd_discovery n) (nd_closed n) (nd_grpcAddrs n) (nd_pending n) e (nd_timers n) (nd_next n).
Definition set_timers (n : Node) (p : gmap string nat) (t : gmap nat string) (next : nat) : Node :=
  MkNode (nd_cfg n) (nd_local n) (nd_discovery n) (nd_closed n) (nd_grpcAddrs n) p (nd_evicted n) t next.

Definition rememberGRPCAddr (n : Node) (nodeID grpcAddr : string) : Node :=
  if empty nodeID || empty grpcAddr then n else set_addrs n (<[nodeID := grpcAddr]> (nd_grpcAddrs n)).
Definition forgetGRPCAddr (n : Node) (nodeID : string) : Node := set_addrs n (delete nodeID (nd_grpcAddrs n)).
Definition markEvicted (n : Node) (nodeID : string) : Node := set_evicted n ({[nodeID]} ∪ nd_evicted n).
Definition clearEvicted (n : Node) (nodeID : string) : Node := set_evicted n (nd_evicted n ∖ {[nodeID]}).
Definition isEvicted (n : Node) (nodeID : string) : bool := bool_decide (nodeID ∈ nd_evicted n).

Definition cancelPendingRemoval (n : Node) (nodeID : string) : Node :=
  match nd_pending n !! nodeID with
  | Some timer => set_timers n (delete nodeID (nd_pending n)) (delete timer (nd_timers n)) (nd_next n)
  | None => n
  end.

Definition scheduleFailedEviction (n : Node) (nodeID : string) : Node :=
  if bool_decide (nodeID = cf_NodeID (nd_cfg n)) || (cf_FailureGracePeriod (nd_cfg n) <? 0) then n else
  if nd_closed n then n else
  match nd_pending n !! nodeID with
  | Some _ => n
  | None => set_timers n (<[nodeID := nd_next n]> (nd_pending n)) (<[nd_next n := nodeID]> (nd_timers n)) (S (nd_next n))
  end.

Definition findServer (servers : list Server) (nodeID : string) : option Server :=
  List.find (fun s => bool_decide (sv_ID s = nodeID)) servers.

Definition countVoters (servers : list Server) : nat := length (filter (fun s => sv_Suffrage s = Voter) servers).

Definition raftAdvertiseAddr (n : Node) : string := default (cf_RaftAddr (nd_cfg n)) (nd_local n).

Section node.
Context {W : Type} `{Cluster W}.

(** A call into Raft from the node. *)
Definition call_raft {A} (s : Node * W) (r : W * res A) : (Node * W) * res A := ((fst s, fst r), snd r).

Definition IsLeader (w : W) : bool := bool_decide (raft_State w = Leader).
Definition Configuration (w : W) : res (list Server) := raft_GetConfiguration w.
Definition DiscoveryMembers (n : Node) (w : W) : list NodeInfo := if nd_discovery n then disc_Members w else [].

Definition GRPCAddrForID (n : Node) (w : W) (id : string) : string :=
  if empty id then EmptyString else
  if bool_decide (id = cf_NodeID (nd_cfg n)) then cf_GRPCAddr (nd_cfg n) else
  let addr := default EmptyString (nd_grpcAddrs n !! id) in
  if negb (empty addr) then addr else
  match List.find (fun m => bool_decide (ni_NodeID m = id) && negb (empty (ni_GRPCAddr m))) (DiscoveryMembers n w) with
  | Some m => ni_GRPCAddr m
  | None => EmptyString
  end.

Definition LeaderGRPCAddr (n : Node) (w : W) : string := GRPCAddrForID n w (snd (raft_LeaderWithID w)).

(** *** Join and leave *)

Definition node_Join (s : Node * W) (nodeID raftAddr grpcAddr : string) (nonVoter : bool) : (Node * W) * res unit :=
  let (n, w) := s in
  if empty nodeID || empty raftAddr then (s, Err (errorsNew "cluster: join requires a node id and raft addr")) else
  if negb (IsLeader w) then (s, Err raft_ErrNotLeader) else
  let n := if empty grpcAddr then n else rememberGRPCAddr n nodeID grpcAddr in
  let n := cancelPendingRemoval n nodeID in
  let! (s, servers) := ((n, w), Configuration w) in
  let existing := findServer servers nodeID in
  let voter := match existing with Some e => bool_decide (sv_Suffrage e = Voter) | None => false end in
  let unmoved := match existing with Some e => bool_decide (sv_Address e = raftAddr) | None => false end in
  if unmoved && voter then (s, Ok tt) else
  if unmoved && nonVoter then (s, Ok tt) else
  if unmoved || voter then call_raft s (raft_AddVoter nodeID raftAddr w) else
  call_raft s (raft_AddNonvoter nodeID raftAddr w).

Definition removeServer (s : Node * W) (nodeID : string) : (Node * W) * res unit :=
  let! (s, servers) := (s, Configuration (snd s)) in
  match findServer servers nodeID with
  | None => (s, Ok tt)
  | Some server =>
      if bool_decide (sv_Suffrage server = Voter) && (countVoters servers <=? 1)%nat
      then (s, Err (errorsNew "cluster: refusing to remove the last voter")) else
      if (length servers <=? 1)%nat then (s, Err (errorsNew "cluster: refusing to remove the last server")) else
      call_raft s (raft_RemoveServer nodeID (snd s))
  end.

Definition transferLeadership (s : Node * W) : (Node * W) * res unit :=
  if negb (IsLeader (snd s)) then (s, Ok tt) else
  let! (s, servers) := (s, Configuration (snd s)) in
  if (countVoters servers <? 2)%nat then (s, Ok tt) else
  let (s, r) := call_raft s (raft_LeadershipTransfer (snd s)) in
  (s, match r with
      | Err e => if bool_decide (e ∈ [raft_ErrLeadershipTransferInProgress; raft_ErrNotLeader; raft_ErrRaftShutdown]) then Ok tt else Err e
      | _ => r
      end).

(** The poll for a leader; [polls] is the number of pauses until the deadline. *)
Fixpoint waitForLeaderGRPCAddr (polls : nat) (s : Node * W) : (Node * W) * string :=
  let addr := LeaderGRPCAddr (fst s) (snd s) in
  if negb (empty addr) && negb (bool_decide (addr = cf_GRPCAddr (nd_cfg (fst s)))) then (s, addr) else
  match polls with
  | O => (s, EmptyString)
  | S polls => if IsLeader (snd s) then (s, EmptyString) else waitForLeaderGRPCAddr polls (fst s, node_sleep (snd s))
  end.

Definition LeaveSelf (polls : nat) (s : Node * W) : (Node * W) * res unit :=
  let! (s, _u) := transferLeadership s in
  let cfg := nd_cfg (fst s) in
  if IsLeader (snd s) then
    let! (s, servers) := (s, Configuration (snd s)) in
    if (countVoters servers <=? 1)%nat then (s, Ok tt) else removeServer s (cf_NodeID cfg)
  else
    let (s, leader) := waitForLeaderGRPCAddr polls s in
    let leader := if empty leader then cf_JoinAddr cfg else leader in
    if empty leader then (s, Err (errorsNew "cluster: no known raft leader")) else
    call_raft s (leaveRPC leader (cf_NodeID cfg) (snd s)).

Definition node_Leave (polls : nat) (s : Node * W) (nodeID : string) : (Node * W) * res unit :=
  let (n, w) := s in
  if empty nodeID then (s, Err (errorsNew "cluster: leave requires a node id")) else
  if bool_decide (nodeID = cf_NodeID (nd_cfg n)) then LeaveSelf polls s else
  if negb (IsLeader w) then (s, Err raft_ErrNotLeader) else
  removeServer (markEvicted (forgetGRPCAddr (cancelPendingRemoval n nodeID) nodeID) nodeID, w) nodeID.

(** *** Gossip *)

(** [_ = f()]: the error of a call that is dropped. *)
Definition ignore {A} (r : (Node * W) * res A) : (Node * W) * res unit :=
  match r with
  | (s, Panic m) => (s, Panic m)
  | (s, OutOfFuel) => (s, OutOfFuel)
  | (s, _) => (s, Ok tt)
  end.

Definition addDiscoveredMember (s : Node * W) (member : NodeInfo) : (Node * W) * res unit :=
  let (n, w) := s in
  if bool_decide (ni_NodeID member = cf_NodeID (nd_cfg n)) || empty (ni_RaftAddr member) || negb (IsLeader w) then (s, Ok tt) else
  ignore (let! (s, servers) := (s, Configuration w) in
          if match findServer servers (ni_NodeID member) with
             | Some e => bool_decide (sv_Address e = ni_RaftAddr member)
             | None => false
             end
          then (s, Ok tt) else call_raft s (raft_AddNonvoter (ni_NodeID member) (ni_RaftAddr member) w)).

Definition evictMember (s : Node * W) (nodeID : string) : (Node * W) * res unit :=
  let (n, w) := s in
  if bool_decide (nodeID = cf_NodeID (nd_cfg n)) || negb (IsLeader w) then (s, Ok tt) else
  ignore (removeServer (markEvicted (forgetGRPCAddr n nodeID) nodeID, w) nodeID).

Definition handleMembershipEvent (s : Node * W) (event : Event) : (Node * W) * res unit :=
  let (n, w) := s in
  let member := ev_Member event in
  let id := ni_NodeID member in
  if empty id then (s, Ok tt) else
  match ev_Type event with
  | EventMemberJoin | EventMemberUpdate =>
      let n := rememberGRPCAddr n id (ni_GRPCAddr member) in
      addDiscoveredMember (clearEvicted (cancelPendingRemoval n id) id, w) member
  | EventMemberLeave => evictMember (cancelPendingRemoval n id, w) id
  | EventMemberFailed => ((scheduleFailedEviction n id, w), Ok tt)
  end.

(** The function of a timer. *)
Definition evictFailedMember (s : Node * W) (nodeID : string) : (Node * W) * res unit :=
  let (n, w) := s in
  let n := set_timers n (delete nodeID (nd_pending n)) (nd_timers n) (nd_next n) in
  if nd_closed n then ((n, w), Ok tt) else
  if existsb (fun m => bool_decide (ni_NodeID m = nodeID) && bool_decide (ni_Status m = MemberStatusAlive ∨ ni_Status m = MemberStatusLeaving))
       (DiscoveryMembers n w)
  then ((n, w), Ok tt) else evictMember (n, w) nodeID.

(** A timer fires: it no longer runs, then its function does. *)
Definition fire_timer (s : Node * W) (timer : nat) : (Node * W) * res unit :=
  match nd_timers (fst s) !! timer with
  | Some nodeID =>
      evictFailedMember (set_timers (fst s) (nd_pending (fst s)) (delete timer (nd_timers (fst s))) (nd_next (fst s)), snd s) nodeID
  | None => (s, Ok tt)
  end.

(** *** Reconciliation and promotion *)

(** The loop of [reconcileDiscovered], with the configuration it started from. *)
Fixpoint reconcile_loop (s : Node * W) (servers : list Server) (members : list NodeInfo) : (Node * W) * res unit :=
  match members with
  | [] => (s, Ok tt)
  | m :: members =>
      if bool_decide (ni_NodeID m = cf_NodeID (nd_cfg (fst s))) || empty (ni_RaftAddr m) then reconcile_loop s servers members else
      if negb (bool_decide (ni_Status m = MemberStatusAlive)) || isEvicted (fst s) (ni_NodeID m) then reconcile_loop s servers members else
      match findServer servers (ni_NodeID m) with
      | Some _ => reconcile_loop s servers members
      | None =>
          let s := (rememberGRPCAddr (fst s) (ni_NodeID m) (ni_GRPCAddr m), snd s) in
          let! (s, _u) := ignore (call_raft s (raft_AddNonvoter (ni_NodeID m) (ni_RaftAddr m) (snd s))) in
          reconcile_loop s servers members
      end
  end.

Definition reconcileDiscovered (s : Node * W) : (Node * W) * res unit :=
  if negb (IsLeader (snd s)) then (s, Ok tt) else
  match DiscoveryMembers (fst s) (snd s) with
  | [] => (s, Ok tt)
  | members => ignore (let! (s, servers) := (s, Configuration (snd s)) in reconcile_loop s servers members)
  end.

(** [strconv.ParseUint(s, 10, 64)] *)
Definition ParseUint (s : bytes) : res Z :=
  if bool_decide (s = []) || negb (forallb is_digit s) then Err (errorsNew "invalid syntax") else
  if digits_value s <? 2 ^ 64 then Ok (digits_value s) else Err (errorsNew "value out of range").

Definition caughtUp (w : W) : bool :=
  match ParseUint (raft_Stats w "commit_index"), ParseUint (raft_Stats w "applied_index") with
  | Ok commit, Ok applied => (0 <? commit) && (commit <=? applied)
  | _, _ => false
  end.

Definition promoteSelf (s : Node * W) : (Node * W) * res unit :=
  let (n, w) := s in
  let cfg := nd_cfg n in
  if IsLeader w then (s, Ok tt) else
  ignore (let! (s, servers) := (s, Configuration w) in
    let self := findServer servers (cf_NodeID cfg) in
    let found := match self with Some _ => true | None => false end in
    let voter := match self with Some e => bool_decide (sv_Suffrage e = Voter) | None => false end in
    if found && (voter || cf_NonVoter cfg) then (s, Ok tt) else
    if found && negb (caughtUp w) then (s, Ok tt) else
    let leader := LeaderGRPCAddr n w in
    let leader := if empty leader then cf_JoinAddr cfg else leader in
    if empty leader || bool_decide (leader = cf_GRPCAddr cfg) then (s, Ok tt) else
    call_raft s (joinRPC leader (MkJoin (cf_NodeID cfg) (raftAdvertiseAddr n) (cf_GRPCAddr cfg) (negb found || cf_NonVoter cfg)) w)).

(** *** Bootstrap *)

Definition id_le (a b : Server) : Prop := bytes_leb (bs (sv_ID a)) (bs (sv_ID b)) = true.

#[export] Instance id_le_dec : RelDecision id_le.
Proof. intros a b. unfold id_le. apply _. Defined.

(** The members that are added to this node, in the order of gossip. *)
Fixpoint discovered_peers (seen : gset string) (members : list NodeInfo) : list Server :=
  match members with
  | [] => []
  | m :: members =>
      if empty (ni_NodeID m) || empty (ni_RaftAddr m) then discovered_peers seen members else
      if negb (bool_decide (ni_Status m = MemberStatusAlive)) then discovered_peers seen members else
      if bool_decide (ni_NodeID m ∈ seen) then discovered_peers seen members else
      MkServer Voter (ni_NodeID m) (ni_RaftAddr m) :: discovered_peers ({[ni_NodeID m]} ∪ seen) members
  end.

(** The IDs are distinct, so every sort by ID gives this list. *)
Definition bootstrapCandidates (n : Node) (w : W) : list Server :=
  let id := cf_NodeID (nd_cfg n) in
  merge_sort id_le (MkServer Voter id (raftAdvertiseAddr n) :: discovered_peers {[id]} (DiscoveryMembers n w)).

Definition tryBootstrapExpect (s : Node * W) : (Node * W) * res bool :=
  let (n, w) := s in
  match Configuration w with
  | Ok (_ :: _) => (s, Ok true)
  | Panic m => (s, Panic m)
  | OutOfFuel => (s, OutOfFuel)
  | _ =>
      let expect := cf_BootstrapExpect (nd_cfg n) in
      let peers := bootstrapCandidates n w in
      if Z.of_nat (length peers) <? expect then (s, Ok false) else
      let peers := take (Z.to_nat expect) peers in
      let! (s, first) := (s, go_index peers 0) in
      if negb (bool_decide (sv_ID first = cf_NodeID (nd_cfg n))) then (s, Ok false) else
      let (s, r) := call_raft s (raft_BootstrapCluster peers w) in
      (s, match r with
          | Ok _ => Ok true
          | Err e => Ok (bool_decide (e = raft_ErrCantBootstrap))
          | Panic m => Panic m
          | OutOfFuel => OutOfFuel
          end)
  end.

(** ** Shutdown *)

(** The errors that [errors.Join] collects. *)
Definition or_errs (r : (Node * W) * res unit) : (Node * W) * list error :=
  match r with (s, Err e) => (s, [e]) | (s, _) => (s, []) end.

(** [shutdown]; the closers run last, the newest first. *)
Definition shutdown (polls : nat) (closers : list (W → W * res unit)) (s : Node * W) : (Node * W) * list error :=
  let (s, e1) :=
    if cf_LeaveOnShutdown (nd_cfg (fst s)) then
      let (s, e) := or_errs (LeaveSelf polls s) in
      let (s, e') := if nd_discovery (fst s) then or_errs (call_raft s (disc_Leave (snd s))) else (s, []) in (s, e ++ e')
    else or_errs (transferLeadership s) in
  let (n, w) := s in
  let stopped := foldr delete (nd_timers n) (snd <$> map_to_list (nd_pending n)) in
  let n := MkNode (nd_cfg n) (nd_local n) (nd_discovery n) true (nd_grpcAddrs n) ∅ (nd_evicted n) stopped (nd_next n) in
  let (s, e2) := if nd_discovery n then or_errs (call_raft (n, w) (disc_Shutdown w)) else ((n, w), []) in
  let (s, e3) := or_errs (call_raft s (raft_Shutdown (snd s))) in
  foldl (fun '(s, errs) close => let (s, e) := or_errs (call_raft s (close (snd s))) in (s, errs ++ e)) (s, e1 ++ e2 ++ e3) (reverse closers).

End node.
