(* ===== verification/MembershipProofs.v ===== *)
(** * Configurations under membership operations *)

From Stdlib Require Import ZArith Lia.
From Stdlib.Strings Require Import Byte.
From stdpp Require Import base list numbers gmap sorting strings relations.
From S2P Require Import Prelude GoLib Membership.

Open Scope Z_scope.

(** ** What Raft documents of configuration changes *)

Definition ids (c : list Server) : list string := sv_ID <$> c.
Definition unique_ids (c : list Server) : Prop := NoDup (ids c).
Definition is_voter (c : list Server) (id : string) : Prop := ∃ s, s ∈ c ∧ sv_ID s = id ∧ sv_Suffrage s = Voter.
Definition has_voter (c : list Server) : Prop := ∃ id, is_voter c id.

(** [AddNonvoter] updates the address of a server that is in the configuration,
    and does not demote it. *)
Definition conf_nonvoter (id addr : string) (c : list Server) : list Server :=
  if bool_decide (id ∈ ids c)
  then (fun s => if bool_decide (sv_ID s = id) then MkServer (sv_Suffrage s) id addr else s) <$> c
  else c ++ [MkServer Nonvoter id addr].

Definition conf_voter (id addr : string) (c : list Server) : list Server :=
  if bool_decide (id ∈ ids c)
  then (fun s => if bool_decide (sv_ID s = id) then MkServer Voter id addr else s) <$> c
  else c ++ [MkServer Voter id addr].

Definition conf_remove (id : string) (c : list Server) : list Server := filter (fun s => sv_ID s ≠ id) c.

(** ** The changes a node asks for

    A server enters without a vote, gets its vote as a member, and is removed
    only when another voter remains. *)
Inductive config_change (c : list Server) : list Server → Prop :=
  | cc_enter id addr : config_change c (conf_nonvoter id addr c)
  | cc_promote id addr : id ∈ ids c → config_change c (conf_voter id addr c)
  | cc_remove id : (is_voter c id → ∃ id', id' ≠ id ∧ is_voter c id') → config_change c (conf_remove id c)
  | cc_bootstrap peers : c = [] → unique_ids peers → has_voter peers → config_change c peers.

Definition config_changes : relation (list Server) := rtc config_change.

(** The laws: the latest configuration, what a change that was asked for does
    (an error leaves open whether it took effect), and that the other nodes, who
    run the same code, change the configuration in the same ways. *)
Class ClusterLaws (W : Type) `{Cluster W} := {
  config : W → list Server;
  cl_get w c : raft_GetConfiguration w = Ok c → c = config w;
  cl_nonvoter id addr w : let (w', r) := raft_AddNonvoter id addr w in
    config w' = conf_nonvoter id addr (config w) ∨ (config w' = config w ∧ r ≠ Ok tt);
  cl_voter id addr w : let (w', r) := raft_AddVoter id addr w in
    config w' = conf_voter id addr (config w) ∨ (config w' = config w ∧ r ≠ Ok tt);
  cl_remove id w : let (w', r) := raft_RemoveServer id w in
    config w' = conf_remove id (config w) ∨ (config w' = config w ∧ r ≠ Ok tt);
  cl_bootstrap peers w : let (w', r) := raft_BootstrapCluster peers w in
    (config w = [] ∧ config w' = peers) ∨ (config w' = config w ∧ r ≠ Ok tt);
  cl_transfer w : config (fst (raft_LeadershipTransfer w)) = config w;
  cl_joinRPC addr req w : config_changes (config w) (config (fst (joinRPC addr req w)));
  cl_leaveRPC addr id w : config_changes (config w) (config (fst (leaveRPC addr id w)));
  cl_sleep w : config_changes (config w) (config (node_sleep w));
}.

(** ** Invariants of configurations *)

Lemma ids_fmap c id (f : Server → Server) : (∀ s, sv_ID s = id → sv_ID (f s) = id) →
  ids ((fun s => if bool_decide (sv_ID s = id) then f s else s) <$> c) = ids c.
Proof.
  intros Hf. unfold ids. rewrite <- list_fmap_compose. apply list_fmap_ext. intros i s _. cbn. case_bool_decide as Hs; [|done].
  by rewrite Hf.
Qed.

Lemma unique_snoc c s : unique_ids c → sv_ID s ∉ ids c → unique_ids (c ++ [s]).
Proof.
  intros Hu Hs. unfold unique_ids, ids in *. rewrite fmap_app. apply NoDup_app. split_and!; [done| |apply NoDup_singleton].
  intros x Hx ->%list_elem_of_singleton. done.
Qed.

Lemma conf_nonvoter_unique id addr c : unique_ids c → unique_ids (conf_nonvoter id addr c).
Proof.
  intros Hu. unfold conf_nonvoter. case_bool_decide as Hi; [|by apply unique_snoc].
  unfold unique_ids. by rewrite ids_fmap.
Qed.

Lemma conf_voter_unique id addr c : unique_ids c → unique_ids (conf_voter id addr c).
Proof.
  intros Hu. unfold conf_voter. case_bool_decide as Hi; [|by apply unique_snoc].
  unfold unique_ids. by rewrite ids_fmap.
Qed.

Lemma filter_unique (P : Server → Prop) `{!∀ s, Decision (P s)} c : unique_ids c → unique_ids (filter P c).
Proof.
  unfold unique_ids, ids. induction c as [|s c IH]; [done|]. intros [Hs Hu]%NoDup_cons. rewrite filter_cons.
  case_decide; [|by apply IH]. cbn. apply NoDup_cons. split; [|by apply IH].
  intros (s' & Heq & [_ Hin]%list_elem_of_filter)%list_elem_of_fmap. apply Hs. cbn. rewrite Heq. by apply list_elem_of_fmap_2.
Qed.

Lemma conf_remove_unique id c : unique_ids c → unique_ids (conf_remove id c).
Proof. apply filter_unique. Qed.

Lemma voter_nonvoter id addr c id' : is_voter c id' → is_voter (conf_nonvoter id addr c) id'.
Proof.
  intros (s & Hin & Hid & Hv). unfold conf_nonvoter. case_bool_decide as Hi.
  - eexists. split; [by apply list_elem_of_fmap_2|]. cbn. case_bool_decide; cbn; [split; congruence|done].
  - exists s. split; [apply elem_of_app; by left|done].
Qed.

Lemma voter_promote id addr c id' : is_voter c id' → is_voter (conf_voter id addr c) id'.
Proof.
  intros (s & Hin & Hid & Hv). unfold conf_voter. case_bool_decide as Hi.
  - eexists. split; [by apply list_elem_of_fmap_2|]. cbn. case_bool_decide; cbn; [split; congruence|done].
  - exists s. split; [apply elem_of_app; by left|done].
Qed.

Lemma voter_remove id c id' : id' ≠ id → is_voter c id' → is_voter (conf_remove id c) id'.
Proof. intros Hne (s & Hin & Hid & Hv). exists s. split; [|done]. apply list_elem_of_filter. split; [congruence|done]. Qed.

(** One change keeps the identities distinct and a voter a voter, or another
    voter with a vote. *)
Lemma config_change_ok c c' : config_change c c' → unique_ids c → unique_ids c' ∧ (has_voter c → has_voter c').
Proof.
  intros [id addr|id addr Hi|id Hr|peers -> Hu Hp] Hc.
  - split; [by apply conf_nonvoter_unique|]. intros [id' Hv]. exists id'. by apply voter_nonvoter.
  - split; [by apply conf_voter_unique|]. intros [id' Hv]. exists id'. by apply voter_promote.
  - split; [by apply conf_remove_unique|]. intros [id' Hv]. destruct (decide (id' = id)) as [->|Hne].
    + destruct (Hr Hv) as (id'' & Hne & Hv'). exists id''. by apply voter_remove.
    + exists id'. by apply voter_remove.
  - done.
Qed.

Lemma config_changes_ok c c' : config_changes c c' → unique_ids c → unique_ids c' ∧ (has_voter c → has_voter c').
Proof.
  induction 1 as [|c c1 c' Hs _ IH]; [done|]. intros Hu. destruct (config_change_ok _ _ Hs Hu) as [Hu1 Hv1].
  destruct (IH Hu1). auto.
Qed.

(** A server becomes a voter as a member, or in the first configuration. *)
Lemma config_change_voter c c' id : config_change c c' → is_voter c' id → c = [] ∨ id ∈ ids c.
Proof.
  intros [i addr|i addr Hi|i Hr|peers -> Hu Hp] (s & Hin & Hid & Hv); [| | |by left]; right.
  - unfold conf_nonvoter in Hin. case_bool_decide as Hb.
    + apply list_elem_of_fmap in Hin as (s0 & -> & Hin). case_bool_decide; cbn in *; subst; [done|by apply list_elem_of_fmap_2].
    + apply elem_of_app in Hin as [Hin| ->%list_elem_of_singleton]; [subst; by apply list_elem_of_fmap_2|done].
  - unfold conf_voter in Hin. rewrite bool_decide_true in Hin by done.
    apply list_elem_of_fmap in Hin as (s0 & -> & Hin). case_bool_decide; cbn in *; subst; [done|by apply list_elem_of_fmap_2].
  - apply list_elem_of_filter in Hin as [_ Hin]. subst. by apply list_elem_of_fmap_2.
Qed.

(** ** Looking a server up *)

Lemma findServer_Some c id s : findServer c id = Some s → s ∈ c ∧ sv_ID s = id.
Proof. intros [Hin Hid%bool_decide_eq_true]%find_some. split; [by apply list_elem_of_In|done]. Qed.

Lemma findServer_None c id : findServer c id = None → id ∉ ids c.
Proof.
  intros Hf (s & -> & Hin)%list_elem_of_fmap. apply list_elem_of_In in Hin.
  pose proof (find_none _ _ Hf _ Hin) as Hb. cbn in Hb. by rewrite bool_decide_true in Hb.
Qed.

Lemma findServer_unique c s : unique_ids c → s ∈ c → findServer c (sv_ID s) = Some s.
Proof.
  intros Hu Hin. unfold findServer. induction c as [|s0 c IH]; [by apply not_elem_of_nil in Hin|].
  apply NoDup_cons in Hu as [Hs0 Hu]. cbn. apply elem_of_cons in Hin as [->|Hin]; [by rewrite bool_decide_true|].
  rewrite bool_decide_false; [by apply IH|]. intros Heq. apply Hs0. cbn. rewrite Heq. by apply list_elem_of_fmap_2.
Qed.

(** With two votes there is one besides any server's. *)
Lemma other_voter c id : unique_ids c → (2 ≤ countVoters c)%nat → ∃ id', id' ≠ id ∧ is_voter c id'.
Proof.
  intros Hu Hn. unfold countVoters in Hn.
  destruct (filter (fun s => sv_Suffrage s = Voter) c) as [|a [|b l]] eqn:E; cbn in Hn; [lia|lia|].
  assert (∀ s, s ∈ a :: b :: l → is_voter c (sv_ID s)) as Hv.
  { intros s Hs. rewrite <- E in Hs. apply list_elem_of_filter in Hs as [Hv Hs]. by exists s. }
  assert (sv_ID a ≠ sv_ID b) as Hne.
  { assert (NoDup (ids (filter (fun s => sv_Suffrage s = Voter) c))) as Hd.
    { by apply filter_unique. }
    rewrite E in Hd. apply NoDup_cons in Hd as [Hd _]. cbn in Hd. intros Heq. apply Hd. rewrite Heq. by left. }
  destruct (decide (sv_ID a = id)) as [<-|Hia]; [exists (sv_ID b)|exists (sv_ID a)]; (split; [done|]); apply Hv; by repeat constructor.
Qed.

(** ** Operations of a node *)

(** Everything a node does about membership: the calls of the service, a gossip
    event, a timer, and the rounds of its loops. *)
Inductive member_op :=
  | MJoin (nodeID raftAddr grpcAddr : string) (nonVoter : bool)
  | MLeave (nodeID : string)
  | MLeaveSelf
  | MEvent (event : Event)
  | MTimer (timer : nat)
  | MReconcile
  | MPromote
  | MBootstrap.

Section ops.
Context {W : Type} `{ClusterLaws W}.

Definition run_op (polls : nat) (s : Node * W) (op : member_op) : Node * W :=
  match op with
  | MJoin nodeID raftAddr grpcAddr nonVoter => fst (node_Join s nodeID raftAddr grpcAddr nonVoter)
  | MLeave nodeID => fst (node_Leave polls s nodeID)
  | MLeaveSelf => fst (LeaveSelf polls s)
  | MEvent event => fst (handleMembershipEvent s event)
  | MTimer timer => fst (fire_timer s timer)
  | MReconcile => fst (reconcileDiscovered s)
  | MPromote => fst (promoteSelf s)
  | MBootstrap => fst (tryBootstrapExpect s)
  end.

(** From [w] to [w'] the configuration only changes in the ways above. *)
Definition changes (w w' : W) : Prop := unique_ids (config w) → config_changes (config w) (config w').

Lemma changes_refl w : changes w w.
Proof. intros _. reflexivity. Qed.

Lemma changes_trans w1 w2 w3 : changes w1 w2 → changes w2 w3 → changes w1 w3.
Proof.
  intros H1 H2 Hu. etrans; [by apply H1|]. apply H2. by apply (config_changes_ok _ _ (H1 Hu)).
Qed.

Lemma changes_eq w w' : config w' = config w → changes w w'.
Proof. unfold changes. intros -> _. reflexivity. Qed.

Lemma changes_one w w' : (unique_ids (config w) → config_change (config w) (config w')) → changes w w'.
Proof. intros Hc Hu. by apply rtc_once, Hc. Qed.

(** A chain of calls. *)
Lemma changes_bind {A B} (m : (Node * W) * res A) (f : Node * W → A → (Node * W) * res B) w :
  changes w (snd (fst m)) → (∀ a, snd m = Ok a → changes (snd (fst m)) (snd (fst (f (fst m) a)))) →
  changes w (snd (fst (bindS m f))).
Proof. destruct m as [s [a|e|p|]]; cbn; intros H1 H2; try done. eapply changes_trans; [done|]. by apply H2. Qed.

Lemma changes_ignore {A} (m : (Node * W) * res A) w : changes w (snd (fst m)) → changes w (snd (fst (ignore m))).
Proof. by destruct m as [s []]. Qed.

Lemma changes_nonvoter n id addr w : changes w (snd (fst (call_raft (n, w) (raft_AddNonvoter id addr w)))).
Proof.
  pose proof (cl_nonvoter id addr w) as Hl. destruct (raft_AddNonvoter id addr w) as [w' r]. cbn.
  destruct Hl as [Hl|[Hl _]]; [|by apply changes_eq]. apply changes_one. rewrite Hl. constructor.
Qed.

Lemma changes_voter n id addr w c : raft_GetConfiguration w = Ok c → id ∈ ids c →
  changes w (snd (fst (call_raft (n, w) (raft_AddVoter id addr w)))).
Proof.
  intros ->%cl_get Hi. pose proof (cl_voter id addr w) as Hl. destruct (raft_AddVoter id addr w) as [w' r]. cbn.
  destruct Hl as [Hl|[Hl _]]; [|by apply changes_eq]. apply changes_one. rewrite Hl. by constructor.
Qed.

Lemma findServer_ids c id s : findServer c id = Some s → id ∈ ids c.
Proof. intros [Hin <-]%findServer_Some. by apply list_elem_of_fmap_2. Qed.

Lemma removeServer_changes s id : changes (snd s) (snd (fst (removeServer s id))).
Proof.
  unfold removeServer. apply changes_bind; [apply changes_refl|]. intros c Hc. cbn [fst snd] in *.
  destruct (findServer c id) as [server|] eqn:Ef; [|apply changes_refl]. case_if; [apply changes_refl|]. case_if; [apply changes_refl|].
  apply cl_get in Hc as ->. pose proof (cl_remove id (snd s)) as Hl. destruct (raft_RemoveServer id (snd s)) as [w' r]. cbn.
  destruct Hl as [Hl|[Hl _]]; [|by apply changes_eq]. apply changes_one. intros Hu. rewrite Hl. constructor. intros (s0 & Hin & Hid & Hv).
  rewrite <- Hid, findServer_unique in Ef by done. injection Ef as <-. rewrite Hv, bool_decide_true in * by done. cbn in *.
  apply other_voter; [done|]. destruct (Nat.leb_spec (countVoters (config (snd s))) 1); [done|lia].
Qed.

Lemma transfer_changes s : changes (snd s) (snd (fst (transferLeadership s))).
Proof.
  unfold transferLeadership. case_if; [apply changes_refl|]. apply changes_bind; [apply changes_refl|]. intros c Hc. cbn [fst snd].
  case_if; [apply changes_refl|]. apply changes_eq. cbn. apply cl_transfer.
Qed.

Lemma wait_changes polls s : changes (snd s) (snd (fst (waitForLeaderGRPCAddr polls s))).
Proof.
  revert s. induction polls as [|polls IH]; intros [n w]; cbn [waitForLeaderGRPCAddr fst snd]; case_if; try apply changes_refl.
  case_if; [apply changes_refl|]. eapply changes_trans; [|apply (IH (n, node_sleep w))]. intros _. apply cl_sleep.
Qed.

Lemma LeaveSelf_changes polls s : changes (snd s) (snd (fst (LeaveSelf polls s))).
Proof.
  unfold LeaveSelf. apply changes_bind; [apply transfer_changes|]. intros [] _. case_if.
  - apply changes_bind; [apply changes_refl|]. intros c _. cbn [fst snd]. case_if; [apply changes_refl|apply removeServer_changes].
  - pose proof (wait_changes polls (fst (transferLeadership s))) as Hw.
    destruct (waitForLeaderGRPCAddr polls (fst (transferLeadership s))) as [s' leader]. cbn [fst] in Hw. case_if; [done|].
    eapply changes_trans; [done|]. intros _. apply cl_leaveRPC.
Qed.

Lemma Leave_changes polls s id : changes (snd s) (snd (fst (node_Leave polls s id))).
Proof.
  destruct s as [n w]. change (snd (n, w)) with w. unfold node_Leave. case_if; [apply changes_refl|]. case_if; [apply (LeaveSelf_changes polls (n, w))|].
  case_if; [apply changes_refl|]. apply (removeServer_changes (_, w)).
Qed.

Lemma Join_changes s id addr grpc nv : changes (snd s) (snd (fst (node_Join s id addr grpc nv))).
Proof.
  destruct s as [n w]. change (snd (n, w)) with w. unfold node_Join. case_if; [apply changes_refl|]. case_if; [apply changes_refl|].
  set (n1 := cancelPendingRemoval _ _). clearbody n1. apply changes_bind; [apply changes_refl|]. intros c Hc. cbn [fst snd] in *.
  destruct (findServer c id) as [e|] eqn:Ef; cbn [andb orb].
  - case_if; [apply changes_refl|]. case_if; [apply changes_refl|]. apply findServer_ids in Ef.
    case_if; [by eapply changes_voter|apply changes_nonvoter].
  - apply changes_nonvoter.
Qed.

Lemma evict_changes s id : changes (snd s) (snd (fst (evictMember s id))).
Proof. destruct s as [n w]. change (snd (n, w)) with w. unfold evictMember. case_if; [apply changes_refl|]. apply changes_ignore, (removeServer_changes (_, w)). Qed.

Lemma event_changes s e : changes (snd s) (snd (fst (handleMembershipEvent s e))).
Proof.
  destruct s as [n w]. change (snd (n, w)) with w. unfold handleMembershipEvent. case_if; [apply changes_refl|].
  assert (∀ n, changes w (snd (fst (addDiscoveredMember (n, w) (ev_Member e))))) as Ha.
  { intros n'. unfold addDiscoveredMember. case_if; [apply changes_refl|]. apply changes_ignore, changes_bind; [apply changes_refl|].
    intros c _. cbn [fst snd]. case_if; [apply changes_refl|apply changes_nonvoter]. }
  destruct (ev_Type e); [apply Ha..|apply (evict_changes (_, w))|apply changes_refl].
Qed.

Lemma timer_changes s t : changes (snd s) (snd (fst (fire_timer s t))).
Proof.
  destruct s as [n w]. change (snd (n, w)) with w. unfold fire_timer, evictFailedMember. cbn [fst snd]. destruct (nd_timers n !! t); [|apply changes_refl].
  case_if; [apply changes_refl|]. case_if; [apply changes_refl|]. apply (evict_changes (_, w)).
Qed.

Lemma reconcile_changes s : changes (snd s) (snd (fst (reconcileDiscovered s))).
Proof.
  unfold reconcileDiscovered. case_if; [apply changes_refl|]. destruct (DiscoveryMembers _ _) as [|m ms]; [apply changes_refl|].
  apply changes_ignore, changes_bind; [apply changes_refl|]. intros c _. cbn [fst snd]. generalize (m :: ms) as l. intros l.
  clear -H0. revert s. induction l as [|x l IH]; intros [n w]; cbn [reconcile_loop fst snd]; [apply changes_refl|].
  case_if; [apply (IH (n, w))|]. case_if; [apply (IH (n, w))|]. destruct (findServer _ _); [apply (IH (n, w))|].
  apply changes_bind; [apply changes_ignore, changes_nonvoter|]. intros a _. apply IH.
Qed.

Lemma promote_changes s : changes (snd s) (snd (fst (promoteSelf s))).
Proof.
  destruct s as [n w]. change (snd (n, w)) with w. unfold promoteSelf. case_if; [apply changes_refl|]. apply changes_ignore, changes_bind; [apply changes_refl|].
  intros c _. cbn [fst snd]. case_if; [apply changes_refl|]. case_if; [apply changes_refl|]. case_if; [apply changes_refl|].
  intros _. apply cl_joinRPC.
Qed.

End ops.

(** * Bootstrap and eviction

    The nodes of a symmetric start agree on who bootstraps; the timers of failed
    members are those of [pendingRemoval]; histories of operations. *)

(** ** The order of the candidates *)

Lemma bs_inj a b : bs a = bs b → a = b.
Proof.
  unfold bs. intros Heq. apply (f_equal String.string_of_list_byte) in Heq. by rewrite !String.string_of_list_byte_of_string in Heq.
Qed.

#[export] Instance id_le_total : Total id_le.
Proof.
  intros a b. unfold id_le. rewrite !bytes_leb_le. destruct (bytes_lt_total (bs (sv_ID a)) (bs (sv_ID b))) as [Hl|[->|Hl]].
  - left. by apply bytes_lt_not.
  - left. apply bytes_lt_irrefl.
  - right. by apply bytes_lt_not.
Qed.

Lemma id_le_antisym a b : id_le a b → id_le b a → sv_ID a = sv_ID b.
Proof.
  unfold id_le. rewrite !bytes_leb_le. intros H1 H2. apply bs_inj.
  by destruct (bytes_lt_total (bs (sv_ID a)) (bs (sv_ID b))) as [?|[?|?]].
Qed.

#[export] Instance id_le_trans : Transitive id_le.
Proof.
  intros a b c. unfold id_le. rewrite !bytes_leb_le. intros H1 H2 H3.
  destruct (bytes_lt_total (bs (sv_ID a)) (bs (sv_ID b))) as [Hl|[Hl|Hl]]; [|congruence|done].
  apply H2. by etrans.
Qed.

Lemma same_id c a b : unique_ids c → a ∈ c → b ∈ c → sv_ID a = sv_ID b → a = b.
Proof. intros Hu Ha Hb Heq. pose proof (findServer_unique c a Hu Ha) as E. rewrite Heq, findServer_unique in E by done. by injection E. Qed.

(** Lists with the same servers sort to the same list. *)
Lemma sorted_same l1 l2 : unique_ids l1 → unique_ids l2 → (∀ s, s ∈ l1 ↔ s ∈ l2) → merge_sort id_le l1 = merge_sort id_le l2.
Proof.
  intros H1 H2 Hs. assert (l1 ≡ₚ l2) as Hp.
  { apply NoDup_Permutation; [by apply NoDup_fmap_1 in H1|by apply NoDup_fmap_1 in H2|done]. }
  apply (StronglySorted_unique_strong id_le); [|apply StronglySorted_merge_sort; apply _..|by rewrite !merge_sort_Permutation].
  intros a b Ha Hb Hab Hba. rewrite merge_sort_Permutation in Ha, Hb. apply (same_id l1); [done|done|by apply Hs|by apply id_le_antisym].
Qed.

Lemma discovered_peers_spec members : ∀ seen,
  unique_ids (discovered_peers seen members) ∧ ∀ s, s ∈ discovered_peers seen members → sv_Suffrage s = Voter ∧ sv_ID s ∉ seen.
Proof.
  induction members as [|m members IH]; intros seen; cbn [discovered_peers]; [split; [constructor|by intros s ?%not_elem_of_nil]|].
  repeat (case_if; [apply IH|]). destruct (IH ({[ni_NodeID m]} ∪ seen)) as [Hu Hs].
  assert (ni_NodeID m ∉ seen) as Hm by (by case_bool_decide). split.
  - apply NoDup_cons. split; [|done]. cbn. intros (s & Heq & Hin)%list_elem_of_fmap. destruct (Hs _ Hin) as [? Hn]. clear -Heq Hn. set_solver.
  - intros s [->|Hin]%elem_of_cons; [done|]. destruct (Hs _ Hin) as [? Hn]. split; [done|]. clear -Hn. set_solver.
Qed.

Section boot.
Context {W : Type} `{Cluster W}.

(** The candidates before they are sorted. *)
Definition candidates (n : Node) (w : W) : list Server :=
  MkServer Voter (cf_NodeID (nd_cfg n)) (raftAdvertiseAddr n) :: discovered_peers {[cf_NodeID (nd_cfg n)]} (DiscoveryMembers n w).

Lemma candidates_spec n w : unique_ids (candidates n w) ∧ ∀ s, s ∈ candidates n w → sv_Suffrage s = Voter.
Proof.
  destruct (discovered_peers_spec (DiscoveryMembers n w) {[cf_NodeID (nd_cfg n)]}) as [Hu Hs]. split.
  - apply NoDup_cons. split; [|done]. cbn. intros (s & Heq & Hin)%list_elem_of_fmap. destruct (Hs _ Hin) as [? Hn]. clear Hs. set_solver.
  - intros s [->|Hin]%elem_of_cons; [done|]. by destruct (Hs _ Hin).
Qed.

Lemma bootstrapCandidates_perm n w : bootstrapCandidates n w ≡ₚ candidates n w.
Proof. apply merge_sort_Permutation. Qed.

Lemma unique_perm l1 l2 : l1 ≡ₚ l2 → unique_ids l1 → unique_ids l2.
Proof. intros Hp. unfold unique_ids, ids. by rewrite Hp. Qed.

Lemma unique_take k l : unique_ids l → unique_ids (take k l).
Proof.
  intros Hu. unfold unique_ids, ids in *. rewrite <- (take_drop k l), fmap_app in Hu. by apply NoDup_app in Hu as [? _].
Qed.

(** The peers of a bootstrap are voters with distinct identities. *)
Lemma peers_ok n w k : (0 < k)%nat → unique_ids (take k (bootstrapCandidates n w)) ∧ has_voter (take k (bootstrapCandidates n w)).
Proof.
  intros Hk. destruct (candidates_spec n w) as [Hu Hv]. pose proof (bootstrapCandidates_perm n w) as Hp. split.
  - apply unique_take. by eapply unique_perm; [symmetry|].
  - destruct (bootstrapCandidates n w) as [|s l]; [by apply Permutation_nil_l in Hp|]. destruct k as [|k]; [lia|]. exists (sv_ID s), s.
    split_and!; [by left|done|]. apply Hv. rewrite <- Hp. by left.
Qed.

Lemma tryBootstrap_spec n w : raft_GetConfiguration w = Ok [] → 2 ≤ cf_BootstrapExpect (nd_cfg n) →
  let e := Z.to_nat (cf_BootstrapExpect (nd_cfg n)) in
  let peers := take e (bootstrapCandidates n w) in
  (e ≤ length (candidates n w))%nat →
  ∃ first rest, bootstrapCandidates n w = first :: rest ∧ Forall (id_le first) rest ∧
    (sv_ID first ≠ cf_NodeID (nd_cfg n) → tryBootstrapExpect (n, w) = ((n, w), Ok false)) ∧
    (sv_ID first = cf_NodeID (nd_cfg n) → fst (tryBootstrapExpect (n, w)) = (n, fst (raft_BootstrapCluster peers w))).
Proof.
  intros Hc He e peers Hlen. subst e peers. unfold tryBootstrapExpect, Configuration. rewrite Hc.
  pose proof (bootstrapCandidates_perm n w) as Hp. apply Permutation_length in Hp as Hpl.
  pose proof (StronglySorted_merge_sort id_le (candidates n w)) as Hsort. change (merge_sort id_le (candidates n w)) with (bootstrapCandidates n w) in Hsort.
  destruct (Z.ltb_spec (Z.of_nat (length (bootstrapCandidates n w))) (cf_BootstrapExpect (nd_cfg n))); [lia|].
  destruct (bootstrapCandidates n w) as [|first rest]; [by apply Permutation_nil_l in Hp|].
  apply StronglySorted_inv in Hsort as [_ Hsort]. exists first, rest. split; [done|]. split; [done|].
  destruct (Z.to_nat (cf_BootstrapExpect (nd_cfg n))) as [|e] eqn:Ee; [lia|]. cbn [take go_index lookup list_lookup]. cbn [bindS].
  split; intros Hid.
  - by rewrite bool_decide_false.
  - by rewrite bool_decide_true.
Qed.

End boot.

(** ** Timers *)

(** The timers that run are those of [pendingRemoval]. *)
Record timers_ok (n : Node) : Prop := {
  to_pending t id : nd_timers n !! t = Some id ↔ nd_pending n !! id = Some t;
  to_next t id : nd_timers n !! t = Some id → (t < nd_next n)%nat;
}.

Lemma timers_cancel n id : timers_ok n → timers_ok (cancelPendingRemoval n id) ∧ nd_pending (cancelPendingRemoval n id) !! id = None.
Proof.
  intros [Hp Hn]. unfold cancelPendingRemoval. destruct (nd_pending n !! id) as [t|] eqn:E; [|by split].
  split; [|cbn; by simplify_map_eq]. split; cbn.
  - intros t' id'. destruct (decide (t' = t)) as [->|Ht].
    + rewrite lookup_delete_eq. split; [done|]. intros [Hne Hl]%lookup_delete_Some. apply Hp in Hl. apply Hp in E. congruence.
    + rewrite lookup_delete_ne by done. rewrite Hp. split; [|by intros [_ ?]%lookup_delete_Some].
      intros Hl. rewrite lookup_delete_ne; [done|]. intros ->. congruence.
  - intros t' id' [_ Hl]%lookup_delete_Some. eauto.
Qed.

Lemma timers_schedule n id : timers_ok n → timers_ok (scheduleFailedEviction n id).
Proof.
  intros [Hp Hn]. unfold scheduleFailedEviction. case_if; [by split|]. case_if; [by split|]. destruct (nd_pending n !! id) eqn:E; [by split|].
  split; cbn.
  - intros t id'. rewrite !lookup_insert_Some. split.
    + intros [[<- <-]|[Ht Hl]]; [by left|]. right. apply Hp in Hl as Hl'. split; [|done]. intros ->. congruence.
    + intros [[<- <-]|[Hid Hl]]; [by left|]. right. apply Hp in Hl. split; [|done]. apply Hn in Hl. lia.
  - intros t id' [[<- <-]|[_ Hl]]%lookup_insert_Some; [lia|]. apply Hn in Hl. lia.
Qed.

(** A timer that has fired, with its entry. *)
Lemma timers_fire n t id next : timers_ok n → nd_timers n !! t = Some id → nd_next n = next →
  timers_ok (set_timers n (delete id (nd_pending n)) (delete t (nd_timers n)) next).
Proof.
  intros Hok Ht <-. apply (to_pending _ Hok) in Ht as Hp. pose proof (proj1 (timers_cancel n id Hok)) as Hc.
  unfold cancelPendingRemoval in Hc. by rewrite Hp in Hc.
Qed.

Lemma timers_ext n n' : nd_pending n' = nd_pending n → nd_timers n' = nd_timers n → nd_next n' = nd_next n → timers_ok n → timers_ok n'.
Proof. intros E1 E2 E3 [Hp Hn]. split; [by rewrite E1, E2|by rewrite E2, E3]. Qed.

Lemma timers_remember n id addr : timers_ok n → timers_ok (rememberGRPCAddr n id addr).
Proof. unfold rememberGRPCAddr. case_if; [done|]. by apply timers_ext. Qed.

(** ** Histories *)

Section history.
Context {W : Type} `{ClusterLaws W}.

Lemma bootstrap_changes s : 2 ≤ cf_BootstrapExpect (nd_cfg (fst s)) → changes (snd s) (snd (fst (tryBootstrapExpect s))).
Proof.
  destruct s as [n w]. change (snd (n, w)) with w. cbn [fst]. intros He. unfold tryBootstrapExpect.
  assert (∀ s', (∃ k, (0 < k)%nat ∧ s' = (n, fst (raft_BootstrapCluster (take k (bootstrapCandidates n w)) w))) → changes w (snd s')) as Hb.
  { intros s' (k & Hk & ->). cbn. pose proof (cl_bootstrap (take k (bootstrapCandidates n w)) w) as Hl.
    destruct (raft_BootstrapCluster _ w) as [w' r]. destruct Hl as [[H1 H2]|[Hl _]]; [|by apply changes_eq].
    apply changes_one. intros _. cbn. rewrite H2. by apply cc_bootstrap; [|apply peers_ok..]. }
  destruct (Configuration w) as [[|c cs]|e|m|]; try apply changes_refl.
  all: case_if; [apply changes_refl|]; apply changes_bind; [apply changes_refl|]; intros first _; cbn [fst snd];
    case_if; [apply changes_refl|]; apply Hb; eexists; (split; [|reflexivity]); lia.
Qed.

(** Bootstrapping is only tried with an expectation, as [validate] and [Open]
    have it. *)
Definition op_ok (n : Node) (op : member_op) : Prop := op = MBootstrap → 2 ≤ cf_BootstrapExpect (nd_cfg n).

Lemma run_op_changes polls s op : op_ok (fst s) op → changes (snd s) (snd (run_op polls s op)).
Proof.
  destruct op; intros Ho; cbn [run_op]; auto using Join_changes, Leave_changes, LeaveSelf_changes, event_changes, timer_changes,
    reconcile_changes, promote_changes, bootstrap_changes.
Qed.

(** What an operation may do to the node's own state. *)
Lemma removeServer_node (s : Node * W) id : fst (fst (removeServer s id)) = fst s.
Proof.
  unfold removeServer. destruct (Configuration (snd s)); cbn; try done. destruct (findServer _ _); [|done]. by repeat case_if.
Qed.

Lemma transfer_node (s : Node * W) : fst (fst (transferLeadership s)) = fst s.
Proof. unfold transferLeadership. case_if; [done|]. destruct (Configuration (snd s)); try done. cbn [bindS]. by case_if. Qed.

Lemma wait_node polls (s : Node * W) : fst (fst (waitForLeaderGRPCAddr polls s)) = fst s.
Proof.
  revert s. induction polls as [|polls IH]; intros [n w]; cbn [waitForLeaderGRPCAddr fst snd]; case_if; try done. case_if; [done|].
  by rewrite IH.
Qed.

Lemma LeaveSelf_node polls (s : Node * W) : fst (fst (LeaveSelf polls s)) = fst s.
Proof.
  unfold LeaveSelf. rewrite <- (transfer_node s). destruct (transferLeadership s) as [s1 [[]| | |]]; try done. cbn [bindS fst]. case_if.
  - destruct (Configuration (snd s1)); cbn; try done. case_if; [done|]. apply removeServer_node.
  - rewrite <- (wait_node polls s1). destruct (waitForLeaderGRPCAddr polls s1) as [s2 leader]. by case_if.
Qed.

Lemma ignore_node {A} (m : (Node * W) * res A) : fst (fst (ignore m)) = fst (fst m).
Proof. by destruct m as [s []]. Qed.

Lemma evict_timers (s : Node * W) id : timers_ok (fst s) → timers_ok (fst (fst (evictMember s id))).
Proof.
  destruct s as [n w]. intros Hok. unfold evictMember. case_if; [done|]. rewrite ignore_node, removeServer_node. by apply (timers_ext n).
Qed.

Lemma fire_timers (s : Node * W) t : timers_ok (fst s) → timers_ok (fst (fst (fire_timer s t))).
Proof.
  destruct s as [n w]. intros Hok. unfold fire_timer, evictFailedMember. cbn [fst snd] in *. destruct (nd_timers n !! t) as [id|] eqn:Et; [|done].
  pose proof (timers_fire n t id _ Hok Et eq_refl) as Hf. case_if; [done|]. case_if; [done|]. apply (evict_timers (_, w)). exact Hf.
Qed.

Lemma event_timers (s : Node * W) e : timers_ok (fst s) → timers_ok (fst (fst (handleMembershipEvent s e))).
Proof.
  destruct s as [n w]. intros Hok. cbn [fst] in Hok. unfold handleMembershipEvent. case_if; [done|].
  assert (∀ n', timers_ok n' → timers_ok (fst (fst (addDiscoveredMember (n', w) (ev_Member e))))) as Ha.
  { intros n' Hn'. unfold addDiscoveredMember. case_if; [done|]. rewrite ignore_node. destruct (Configuration w); cbn; try done.
    by case_if. }
  destruct (ev_Type e).
  - apply Ha, (timers_ext (cancelPendingRemoval (rememberGRPCAddr n (ni_NodeID (ev_Member e)) (ni_GRPCAddr (ev_Member e))) (ni_NodeID (ev_Member e)))); [done..|].
    by apply timers_cancel, timers_remember.
  - apply Ha, (timers_ext (cancelPendingRemoval (rememberGRPCAddr n (ni_NodeID (ev_Member e)) (ni_GRPCAddr (ev_Member e))) (ni_NodeID (ev_Member e)))); [done..|].
    by apply timers_cancel, timers_remember.
  - apply (evict_timers (_, w)). by apply timers_cancel.
  - by apply timers_schedule.
Qed.

Lemma reconcile_timers l : ∀ (s : Node * W) c, timers_ok (fst s) → timers_ok (fst (fst (reconcile_loop s c l))).
Proof.
  induction l as [|m l IH]; intros [n w] c Hok; cbn [reconcile_loop fst snd]; [done|]. cbn [fst] in Hok.
  case_if; [by apply IH|]. case_if; [by apply IH|]. destruct (findServer _ _); [by apply IH|].
  destruct (raft_AddNonvoter _ _ w) as [w' [[]|e|p|]]; cbn; try (by apply timers_remember); apply IH; by apply timers_remember.
Qed.

Lemma run_op_timers polls (s : Node * W) op : timers_ok (fst s) → timers_ok (fst (run_op polls s op)).
Proof.
  destruct s as [n w]. intros Hok. cbn [fst] in Hok. destruct op; cbn [run_op].
  - unfold node_Join. case_if; [done|]. case_if; [done|]. match goal with |- context [cancelPendingRemoval ?x _] => set (n0 := x) end.
    assert (timers_ok n0) as H0' by (subst n0; case_if; [done|]; by apply timers_remember). apply (timers_cancel n0 nodeID) in H0' as [H1' _].
    destruct (Configuration w); cbn; try done. repeat case_if; done.
  - unfold node_Leave. case_if; [done|]. case_if; [by rewrite LeaveSelf_node|]. case_if; [done|]. rewrite removeServer_node. cbn [fst].
    apply (timers_ext (cancelPendingRemoval n nodeID)); [done..|]. by apply timers_cancel.
  - by rewrite LeaveSelf_node.
  - by apply event_timers.
  - by apply fire_timers.
  - unfold reconcileDiscovered. case_if; [done|]. destruct (DiscoveryMembers _ _) as [|m ms]; [done|]. rewrite ignore_node.
    cbn [snd]. destruct (Configuration w); try done. cbn [bindS]. by apply reconcile_timers.
  - unfold promoteSelf. case_if; [done|]. rewrite ignore_node. destruct (Configuration w); try done. cbn [bindS]. by repeat case_if.
  - unfold tryBootstrapExpect. destruct (Configuration w) as [[|c cs]|e|m|]; try done.
    all: case_if; [done|]; destruct (go_index _ _); try done; cbn [bindS]; by case_if.
Qed.

(** *** Join on the leader *)

Lemma findServer_fresh c id : id ∉ ids c → findServer c id = None.
Proof.
  intros Hn. destruct (findServer c id) as [s|] eqn:E; [|done]. destruct (findServer_Some _ _ _ E) as [Hin <-].
  destruct Hn. by apply list_elem_of_fmap_2.
Qed.

Lemma findServer_enter c id addr : id ∉ ids c → findServer (conf_nonvoter id addr c) id = Some (MkServer Nonvoter id addr).
Proof.
  intros Hn. unfold conf_nonvoter. rewrite bool_decide_false by done. unfold findServer. induction c as [|s c IH]; cbn.
  - by rewrite bool_decide_true.
  - cbn in Hn. apply not_elem_of_cons in Hn as [Hs Hn]. rewrite bool_decide_false by done. by apply IH.
Qed.

Lemma findServer_promote c id addr s : findServer c id = Some s → findServer (conf_voter id addr c) id = Some (MkServer Voter id addr).
Proof.
  intros Hf. unfold conf_voter. rewrite bool_decide_true by (by eapply findServer_ids). unfold findServer in *.
  induction c as [|s0 c IH]; [done|]. cbn in Hf |- *. case_bool_decide as Hs; cbn; [by rewrite bool_decide_true|].
  rewrite bool_decide_false by done. by apply IH.
Qed.

Lemma join_enters nl (wl : W) c id addr grpc b nl' wl' :
  IsLeader wl = true → raft_GetConfiguration wl = Ok c → id ≠ EmptyString → addr ≠ EmptyString → id ∉ ids c →
  snd (raft_AddNonvoter id addr wl) = Ok tt → fst (node_Join (nl, wl) id addr grpc b) = (nl', wl') →
  findServer (config wl') id = Some (MkServer Nonvoter id addr).
Proof.
  intros Hl Hg Hi Ha Hn Hok. unfold node_Join, Configuration, empty. rewrite !bool_decide_false by done. cbn [orb]. rewrite Hl, Hg. cbn [negb bindS].
  rewrite findServer_fresh by done. cbn [andb orb]. apply cl_get in Hg as ->. pose proof (cl_nonvoter id addr wl) as Hc.
  destruct (raft_AddNonvoter id addr wl) as [w' r]. cbn in Hok |- *. subst r. intros [= _ <-].
  destruct Hc as [->|[_ Hc]]; [by apply findServer_enter|done].
Qed.

Lemma join_promotes nl (wl : W) c id addr grpc nl' wl' :
  IsLeader wl = true → raft_GetConfiguration wl = Ok c → id ≠ EmptyString → addr ≠ EmptyString →
  findServer c id = Some (MkServer Nonvoter id addr) →
  snd (raft_AddVoter id addr wl) = Ok tt → fst (node_Join (nl, wl) id addr grpc false) = (nl', wl') →
  findServer (config wl') id = Some (MkServer Voter id addr).
Proof.
  intros Hl Hg Hi Ha Hf Hok. unfold node_Join, Configuration, empty. rewrite !(bool_decide_false (_ = EmptyString)) by done.
  cbn [orb]. rewrite Hl, Hg. cbn [negb bindS]. rewrite Hf. cbn [sv_Suffrage sv_Address]. rewrite bool_decide_true by done. cbn [andb orb bool_decide].
  apply cl_get in Hg as ->. pose proof (cl_voter id addr wl) as Hc.
  destruct (raft_AddVoter id addr wl) as [w' r]. cbn in Hok |- *. subst r. intros [= _ <-].
  destruct Hc as [->|[_ Hc]]; [by eapply findServer_promote|done].
Qed.

(** What a timer that changes the configuration tells. *)
Lemma fire_evicts n (w : W) timer : timers_ok n →
  config (snd (fst (fire_timer (n, w) timer))) ≠ config w →
  ∃ id, nd_pending n !! id = Some timer ∧ config (snd (fst (fire_timer (n, w) timer))) = conf_remove id (config w) ∧
    IsLeader w = true ∧ nd_closed n = false ∧ id ≠ cf_NodeID (nd_cfg n) ∧
    ∀ m, m ∈ DiscoveryMembers n w → ni_NodeID m = id → ni_Status m ≠ MemberStatusAlive ∧ ni_Status m ≠ MemberStatusLeaving.
Proof.
  intros Hok. unfold fire_timer, evictFailedMember. cbn [fst snd]. destruct (nd_timers n !! timer) as [id|] eqn:Et; [|done].
  cbn [nd_closed set_timers]. destruct (nd_closed n) eqn:Ec; [done|]. case_if; [done|].
  unfold evictMember. cbn [nd_cfg set_timers]. case_bool_decide as Hid; [done|]. destruct (IsLeader w) eqn:El; [|done]. cbn [negb orb].
  intros Hne. exists id. split; [by apply Hok|]. split_and!; try done.
  - revert Hne. unfold removeServer, Configuration. cbn [snd]. destruct (raft_GetConfiguration w) as [c| | |]; try done. cbn [bindS].
    destruct (findServer c id); [|done]. case_if; [done|]. case_if; [done|]. cbn [snd].
    pose proof (cl_remove id w) as Hl. destruct (raft_RemoveServer id w) as [w' [[]|e|p|]]; cbn; destruct Hl as [Hl|[Hl _]]; congruence.
  - intros m Hm Hmid. match goal with Hx : existsb _ _ = false |- _ => rename Hx into Hex end. split; intros Hst.
    all: assert (existsb (fun m => bool_decide (ni_NodeID m = id) && bool_decide (ni_Status m = MemberStatusAlive ∨ ni_Status m = MemberStatusLeaving))
      (DiscoveryMembers n w) = true) as Hx; [|unfold DiscoveryMembers in Hx, Hex; cbn [nd_discovery set_timers] in Hex; congruence].
    all: apply existsb_exists; exists m; (split; [by apply list_elem_of_In|]); rewrite !bool_decide_true by auto; done.
Qed.

(** After a join or update event no timer runs for the member. *)
Lemma event_cancels polls (s : Node * W) t member i :
  timers_ok (fst s) → t = EventMemberJoin ∨ t = EventMemberUpdate → ni_NodeID member ≠ EmptyString →
  nd_timers (fst (run_op polls s (MEvent (MkEvent t member)))) !! i ≠ Some (ni_NodeID member).
Proof.
  destruct s as [n w]. cbn [fst run_op]. intros Hok Ht Hm. set (id := ni_NodeID member).
  assert (nd_timers (fst (fst (handleMembershipEvent (n, w) (MkEvent t member)))) =
    nd_timers (cancelPendingRemoval (rememberGRPCAddr n id (ni_GRPCAddr member)) id)) as ->.
  { unfold handleMembershipEvent, empty. cbn [ev_Member ev_Type]. rewrite bool_decide_false by done.
    assert (∀ n', nd_timers (fst (fst (addDiscoveredMember (n', w) member))) = nd_timers n') as Ha.
    { intros n'. unfold addDiscoveredMember. case_if; [done|]. rewrite ignore_node. destruct (Configuration w); cbn; try done. by case_if. }
    destruct Ht as [-> | ->]; rewrite Ha; done. }
  destruct (timers_cancel _ id (timers_remember n id (ni_GRPCAddr member) Hok)) as [Hok' Hnone].
  intros Hi. apply (to_pending _ Hok') in Hi. congruence.
Qed.

End history.
