(* ===== verification/MembershipTheorems.v ===== *)
(** * What membership guarantees

    The configuration only changes in ways that keep the cluster electable, one
    node bootstraps, a member that came back is not evicted, a new node gets its
    vote in two steps. *)

From Stdlib Require Import ZArith Lia.
From Stdlib.Strings Require Import Byte.
From stdpp Require Import base list numbers gmap sorting strings relations.
From S2P Require Import Prelude GoLib Membership MembershipProofs.

Open Scope Z_scope.

Section theorems.
Context {W : Type} `{ClusterLaws W}.

(** Any sequence of operations of a node; between two of them the rest of the
    world moves on by itself. *)
Inductive history (polls : nat) : Node * W → Node * W → Prop :=
  | hist_start s : history polls s s
  | hist_op s s1 op : history polls s s1 → op_ok (fst s1) op → history polls s (run_op polls s1 op)
  | hist_world s n w w' : history polls s (n, w) → config_changes (config w) (config w') → history polls s (n, w').

Lemma history_changes polls s s' : history polls s s' → changes (snd s) (snd s').
Proof.
  induction 1 as [s|s s1 op _ IH Hop|s n w w' _ IH Hw]; [apply changes_refl|..].
  - eapply changes_trans; [exact IH|]. by apply run_op_changes.
  - eapply changes_trans; [exact IH|]. intros _. exact Hw.
Qed.

Lemma history_timers polls s s' : history polls s s' → timers_ok (fst s) → timers_ok (fst s').
Proof. induction 1 as [s|s s1 op _ IH Hop|s n w w' _ IH Hw]; intros Hok; [done|apply run_op_timers|]; auto. Qed.

(** A node that was just opened. *)
Definition fresh (cfg : Config) (local : option string) (disc : bool) : Node := MkNode cfg local disc false ∅ ∅ ∅ ∅ 0.

Lemma fresh_timers cfg local disc : timers_ok (fresh cfg local disc).
Proof. split; cbn; intros t id; rewrite ?lookup_empty; done. Qed.

(** C12: Whatever a node is asked to do and whatever gossip tells it, in any order
    and interleaved with other nodes that run the same code, the Raft
    configuration keeps distinct identities and, once it has a voter, keeps one;
    it changes only by single steps in which a server enters without a vote, a
    server that is a member gets its vote or a new address, or a server leaves
    while another voter stays. *)
Theorem membership_safe polls n w s' :
  history polls (n, w) s' → unique_ids (config w) →
  config_changes (config w) (config (snd s')) ∧ unique_ids (config (snd s')) ∧
  (has_voter (config w) → has_voter (config (snd s'))).
Proof.
  intros Hh Hu. pose proof (history_changes _ _ _ Hh Hu) as Hc. split; [done|]. by apply config_changes_ok.
Qed.

(** C13: A symmetric start yields one cluster: of nodes that see the same
    candidates, themselves among them, exactly one bootstraps, with the expected
    number of distinct peers; every other node waits. *)
Theorem bootstrap_once (nodes : list (Node * W)) (seen : list Server) expect :
  2 ≤ expect → (Z.to_nat expect ≤ length seen)%nat → unique_ids seen →
  (∀ s, s ∈ nodes → raft_GetConfiguration (snd s) = Ok [] ∧ cf_BootstrapExpect (nd_cfg (fst s)) = expect ∧
     ∀ c, c ∈ candidates (fst s) (snd s) ↔ c ∈ seen) →
  (∀ c, c ∈ seen → ∃ s, s ∈ nodes ∧ cf_NodeID (nd_cfg (fst s)) = sv_ID c) →
  ∃ leader peers, leader ∈ nodes ∧ length peers = Z.to_nat expect ∧ unique_ids peers ∧
    fst (tryBootstrapExpect leader) = (fst leader, fst (raft_BootstrapCluster peers (snd leader))) ∧
    ∀ s, s ∈ nodes → cf_NodeID (nd_cfg (fst s)) ≠ cf_NodeID (nd_cfg (fst leader)) → tryBootstrapExpect s = (s, Ok false).
Proof.
  intros He Hlen Hu Hnodes Hall.
  assert (∀ s, s ∈ nodes → bootstrapCandidates (fst s) (snd s) = merge_sort id_le seen ∧ length (candidates (fst s) (snd s)) = length seen) as Hsame.
  { intros s Hs. destruct (Hnodes s Hs) as (_ & _ & Hc). destruct (candidates_spec (fst s) (snd s)) as [Hcu _].
    split; [by apply sorted_same|]. apply Permutation_length, NoDup_Permutation; [by apply NoDup_fmap_1 in Hcu|by apply NoDup_fmap_1 in Hu|done]. }
  pose proof (merge_sort_Permutation id_le seen) as Hp. destruct (merge_sort id_le seen) as [|c0 rest] eqn:Es.
  { apply Permutation_length in Hp. cbn in Hp. lia. }
  destruct (Hall c0) as ([n0 w0] & Hin0 & Hid0); [rewrite <- Hp; by left|]. cbn [fst snd] in *.
  assert (∀ s, s ∈ nodes →
    (sv_ID c0 ≠ cf_NodeID (nd_cfg (fst s)) → tryBootstrapExpect s = (s, Ok false)) ∧
    (sv_ID c0 = cf_NodeID (nd_cfg (fst s)) →
       fst (tryBootstrapExpect s) = (fst s, fst (raft_BootstrapCluster (take (Z.to_nat expect) (c0 :: rest)) (snd s))))) as Hs.
  { intros [n w] Hin. destruct (Hnodes _ Hin) as (Hc & Hex & _). destruct (Hsame _ Hin) as [Hb Hl]. cbn [fst snd] in *. subst expect.
    destruct (tryBootstrap_spec n w Hc He) as (c & l & E & _ & H1 & H2); [lia|]. rewrite Hb in E. injection E as <- <-. rewrite Hb in H2. done. }
  exists (n0, w0), (take (Z.to_nat expect) (c0 :: rest)). split; [done|]. apply Permutation_length in Hp as Hpl. split_and!.
  - rewrite length_take. lia.
  - apply unique_take. by apply (unique_perm seen).
  - by apply (Hs (n0, w0)).
  - intros s Hin Hne. apply (proj1 (Hs s Hin)). cbn [fst] in Hne. congruence.
Qed.

(** C26: A node is evicted for having failed only if it is still gone: a timer
    that changes the configuration belongs to the node that is removed, runs on
    an open leader and not on that node itself, and gossip lists no live member
    of that name; a join or update event before that has stopped the timer. *)
Theorem eviction_justified polls cfg local disc w0 n w timer :
  history polls (fresh cfg local disc, w0) (n, w) →
  let w' := snd (fst (fire_timer (n, w) timer)) in
  (config w' ≠ config w →
     ∃ id, nd_pending n !! id = Some timer ∧ config w' = conf_remove id (config w) ∧
       IsLeader w = true ∧ nd_closed n = false ∧ id ≠ cf_NodeID (nd_cfg n) ∧
       ∀ m, m ∈ DiscoveryMembers n w → ni_NodeID m = id → ni_Status m ≠ MemberStatusAlive ∧ ni_Status m ≠ MemberStatusLeaving) ∧
  (∀ t member, t = EventMemberJoin ∨ t = EventMemberUpdate → ni_NodeID member ≠ EmptyString →
     ∀ i, nd_timers (fst (run_op polls (n, w) (MEvent (MkEvent t member)))) !! i ≠ Some (ni_NodeID member)).
Proof.
  intros Hh w'. pose proof (history_timers _ _ _ Hh (fresh_timers cfg local disc)) as Hok. cbn [fst] in Hok. split.
  - subst w'. intros Hne. by apply fire_evicts.
  - intros t member Ht Hm i Hi. by apply (event_cancels polls (n, w) t member i Hok Ht Hm).
Qed.

(** A join request sent to [addr] is served by the [Join] of a leader that has
    the configuration of the cluster. *)
Definition served_by_leader (addr : string) : Prop := ∀ req w w' r, joinRPC addr req w = (w', r) →
  ∃ nl nl' wl wl', IsLeader wl = true ∧ raft_GetConfiguration wl = Ok (config w) ∧
    node_Join (nl, wl) (jr_NodeID req) (jr_RaftAddr req) (jr_GRPCAddr req) (jr_NonVoter req) = ((nl', wl'), r) ∧
    config w' = config wl'.

(** C27: A node gets its vote in two steps: a node that the configuration does not
    know enters it without a vote by its first request to the leader; it asks for
    nothing while it catches up; once it has, its next request makes it a voter;
    and a voter asks for nothing more. *)
Theorem joins_in_two_steps n w leader :
  let id := cf_NodeID (nd_cfg n) in
  let addr := raftAdvertiseAddr n in
  let w1 := snd (fst (promoteSelf (n, w))) in
  IsLeader w = false → raft_GetConfiguration w = Ok (config w) → unique_ids (config w) →
  cf_NonVoter (nd_cfg n) = false → id ≠ EmptyString → addr ≠ EmptyString →
  LeaderGRPCAddr n w = leader → leader ≠ EmptyString → leader ≠ cf_GRPCAddr (nd_cfg n) → served_by_leader leader →
  (∀ a w, snd (raft_AddNonvoter id a w) = Ok tt ∧ snd (raft_AddVoter id a w) = Ok tt) →
  (id ∉ ids (config w) → findServer (config w1) id = Some (MkServer Nonvoter id addr)) ∧
  (findServer (config w) id = Some (MkServer Nonvoter id addr) → caughtUp w = false → w1 = w) ∧
  (findServer (config w) id = Some (MkServer Nonvoter id addr) → caughtUp w = true →
     findServer (config w1) id = Some (MkServer Voter id addr)) ∧
  (is_voter (config w) id → w1 = w).
Proof.
  intros id addr w1 Hl Hg Hu Hnv Hid Haddr Hlead Hne Hown Hserved Hok. subst w1.
  assert (∀ b, promoteSelf (n, w) = ignore (call_raft (n, w) (joinRPC leader (MkJoin id addr (cf_GRPCAddr (nd_cfg n)) b) w)) →
    ∃ nl nl' wl wl', IsLeader wl = true ∧ raft_GetConfiguration wl = Ok (config w) ∧
      fst (node_Join (nl, wl) id addr (cf_GRPCAddr (nd_cfg n)) b) = (nl', wl') ∧
      config (snd (fst (promoteSelf (n, w)))) = config wl') as Hrpc.
  { intros b E. rewrite E. destruct (joinRPC leader (MkJoin id addr (cf_GRPCAddr (nd_cfg n)) b) w) as [w' r] eqn:Ej.
    destruct (Hserved _ _ _ _ Ej) as (nl & nl' & wl & wl' & L1 & L2 & L3 & L4). cbn [jr_NodeID jr_RaftAddr jr_GRPCAddr jr_NonVoter] in L3. exists nl, nl', wl, wl'.
    split_and!; try done; [by rewrite L3|]. rewrite <- L4. by destruct r. }
  unfold promoteSelf, Configuration in Hrpc |- *. rewrite Hl, Hg in Hrpc |- *. cbn [bindS] in Hrpc |- *.
  fold id in Hrpc |- *. rewrite Hlead, Hnv in Hrpc |- *. unfold empty in Hrpc |- *. rewrite !(bool_decide_false (leader = _)) in Hrpc |- * by done.
  split_and!.
  - intros Hnot. rewrite (findServer_fresh (config w)) in Hrpc |- * by done. cbn [andb negb orb] in Hrpc |- *.
    destruct (Hrpc _ eq_refl) as (nl & nl' & wl & wl' & L1 & L2 & L3 & ->). by apply (join_enters nl wl (config w) _ _ _ _ _ _ L1 L2 Hid Haddr Hnot (proj1 (Hok _ _)) L3).
  - intros -> Hc. cbn [sv_Suffrage]. by rewrite Hc.
  - intros Hf Hc. rewrite Hf, Hc in Hrpc |- *. cbn [andb negb orb sv_Suffrage] in Hrpc |- *.
    destruct (Hrpc _ eq_refl) as (nl & nl' & wl & wl' & L1 & L2 & L3 & ->). by apply (join_promotes nl wl (config w) _ _ _ _ _ L1 L2 Hid Haddr Hf (proj2 (Hok _ _)) L3).
  - intros (s & Hin & Hsid & Hv). rewrite <- Hsid, (findServer_unique _ s) by done. by rewrite Hv.
Qed.

End theorems.

(** ** Witnesses *)

(** A cluster whose changes take effect at once. *)
Record sample_world := MkSample {
  sa_config : list Server; sa_state : RaftState; sa_leader : string * string; sa_members : list NodeInfo; sa_index : bytes }.

Definition sample_set (w : sample_world) (c : list Server) : sample_world :=
  MkSample c (sa_state w) (sa_leader w) (sa_members w) (sa_index w).

(** A leader's [Join]. *)
Definition sample_join (req : JoinRequest) (c : list Server) : list Server :=
  match findServer c (jr_NodeID req) with
  | Some e =>
      let voter := bool_decide (sv_Suffrage e = Voter) in
      let unmoved := bool_decide (sv_Address e = jr_RaftAddr req) in
      if unmoved && (voter || jr_NonVoter req) then c else
      if unmoved || voter then conf_voter (jr_NodeID req) (jr_RaftAddr req) c else conf_nonvoter (jr_NodeID req) (jr_RaftAddr req) c
  | None => conf_nonvoter (jr_NodeID req) (jr_RaftAddr req) c
  end.

#[local] Instance sample_cluster : Cluster sample_world := {
  raft_State := sa_state;
  raft_LeaderWithID := sa_leader;
  raft_GetConfiguration w := Ok (sa_config w);
  raft_Stats w key := sa_index w;
  raft_AddVoter id addr w := (sample_set w (conf_voter id addr (sa_config w)), Ok tt);
  raft_AddNonvoter id addr w := (sample_set w (conf_nonvoter id addr (sa_config w)), Ok tt);
  raft_RemoveServer id w := (sample_set w (conf_remove id (sa_config w)), Ok tt);
  raft_LeadershipTransfer w := (w, Err raft_ErrNotLeader);
  raft_BootstrapCluster peers w :=
    match sa_config w with [] => (sample_set w peers, Ok tt) | _ => (w, Err raft_ErrCantBootstrap) end;
  raft_Shutdown w := (w, Ok tt);
  disc_Members := sa_members;
  disc_Leave w := (w, Ok tt);
  disc_Shutdown w := (w, Ok tt);
  joinRPC addr req w := if empty (jr_NodeID req) || empty (jr_RaftAddr req)
    then (w, Err (errorsNew "cluster: join requires a node id and raft addr")) else (sample_set w (sample_join req (sa_config w)), Ok tt);
  leaveRPC addr id w := (w, Err raft_ErrNotLeader);
  node_sleep w := w;
}.

#[local] Instance sample_laws : ClusterLaws sample_world.
Proof.
  refine {| config := sa_config |}; try (intros; cbn; by left); try (intros; reflexivity).
  - by intros w c [= <-].
  - intros peers w. cbn. destruct (sa_config w) eqn:E; [by left|right]. by rewrite E.
  - intros addr req w. cbn. case_if; [reflexivity|]. cbn. unfold sample_join. destruct (findServer _ _) as [e|] eqn:E.
    + case_if; [reflexivity|]. case_if; apply rtc_once; constructor. by eapply findServer_ids.
    + apply rtc_once. constructor.
Defined.

Definition w_cfg (id grpc raft : string) (expect : Z) : Config := MkConfig id grpc raft false EmptyString 1 expect false 1 1 false false true.
Definition w_member (id grpc raft : string) (st : MemberStatus) : NodeInfo := MkInfo id grpc raft EmptyString st.
Definition w_server (s : ServerSuffrage) (id raft : string) : Server := MkServer s id raft.

(** The node a leads a cluster of one; b joins, is promoted, and a leaves. *)
Definition w_alone : sample_world := MkSample [w_server Voter "a" "ra"] Leader ("ra"%string, "a"%string) [] [].
Definition w_node_a : Node := fresh (w_cfg "a" "ga" "ra" 0) None true.

Lemma membership_safe_witness :
  let s1 := run_op 1 (w_node_a, w_alone) (MJoin "b" "rb" "gb" false) in
  let s2 := run_op 1 (run_op 1 s1 (MJoin "b" "rb" "gb" false)) (MLeave "a") in
  config (snd s1) = [w_server Voter "a" "ra"; w_server Nonvoter "b" "rb"] ∧
  config (snd s2) = [w_server Voter "b" "rb"] ∧ config_changes (config w_alone) (config (snd s2)).
Proof.
  intros s1 s2. split; [vm_compute; reflexivity|]. split; [vm_compute; reflexivity|].
  apply (membership_safe 1 w_node_a w_alone s2).
  - repeat (apply hist_op; [|discriminate]). apply hist_start.
  - apply (bool_decide_unpack _). vm_compute. exact I.
Defined.

(** Two nodes that see each other. *)
Definition w_start_a : Node * sample_world :=
  (fresh (w_cfg "a" "ga" "ra" 2) None true, MkSample [] Follower (EmptyString, EmptyString) [w_member "b" "gb" "rb" MemberStatusAlive] []).
Definition w_start_b : Node * sample_world :=
  (fresh (w_cfg "b" "gb" "rb" 2) None true, MkSample [] Follower (EmptyString, EmptyString) [w_member "a" "ga" "ra" MemberStatusAlive] []).

Lemma bootstrap_once_witness :
  tryBootstrapExpect w_start_b = (w_start_b, Ok false) ∧
  ∃ leader peers, leader ∈ [w_start_a; w_start_b] ∧ length peers = 2%nat ∧
    fst (tryBootstrapExpect leader) = (fst leader, fst (raft_BootstrapCluster peers (snd leader))).
Proof.
  split; [vm_compute; reflexivity|].
  destruct (bootstrap_once [w_start_a; w_start_b] [w_server Voter "a" "ra"; w_server Voter "b" "rb"] 2)
    as (leader & peers & H1 & H2 & _ & H3 & _).
  - lia.
  - apply le_n.
  - apply (bool_decide_unpack _). vm_compute. exact I.
  - intros s [->|[->|[]%not_elem_of_nil]%elem_of_cons]%elem_of_cons; (split; [reflexivity|]); (split; [reflexivity|]); intros c.
    + reflexivity.
    + change (candidates _ _) with [w_server Voter "b" "rb"; w_server Voter "a" "ra"]. rewrite !elem_of_cons. tauto.
  - intros c [->|[->|[]%not_elem_of_nil]%elem_of_cons]%elem_of_cons; [exists w_start_a|exists w_start_b]; (split; [|reflexivity]); [left|right; left].
  - exists leader, peers. split; [exact H1|]. split; [exact H2|exact H3].
Defined.

(** The member b fails and does not come back. *)
Definition w_pair_world (st : MemberStatus) : sample_world :=
  MkSample [w_server Voter "a" "ra"; w_server Nonvoter "b" "rb"] Leader ("ra"%string, "a"%string) [w_member "b" "gb" "rb" st] [].
Definition w_failed : Node * sample_world :=
  run_op 1 (w_node_a, w_pair_world MemberStatusFailed) (MEvent (MkEvent EventMemberFailed (w_member "b" "gb" "rb" MemberStatusFailed))).

Lemma eviction_justified_witness :
  config (snd (fst (fire_timer w_failed 0))) = [w_server Voter "a" "ra"] ∧
  ∃ id, nd_pending (fst w_failed) !! id = Some 0%nat ∧ config (snd (fst (fire_timer w_failed 0))) = conf_remove id (config (snd w_failed)).
Proof.
  split; [vm_compute; reflexivity|].
  destruct (eviction_justified 1 (w_cfg "a" "ga" "ra" 0) None true (w_pair_world MemberStatusFailed) (fst w_failed) (snd w_failed) 0) as [He _].
  - rewrite <- surjective_pairing. apply (hist_op 1 _ (w_node_a, w_pair_world MemberStatusFailed)); [apply hist_start|discriminate].
  - destruct He as (id & H1 & H2 & _); [vm_compute; discriminate|]. exists id. split; [exact H1|exact H2].
Defined.

(** The node b asks the leader a for its vote. *)
Definition w_joiner : Node := rememberGRPCAddr (fresh (w_cfg "b" "gb" "rb" 0) None true) "a" "ga".
Definition w_joining : sample_world :=
  MkSample [w_server Voter "a" "ra"; w_server Nonvoter "b" "rb"] Follower ("ra"%string, "a"%string) [] (bs "7").

Lemma sample_served addr : served_by_leader addr.
Proof.
  intros req w w' r. change (joinRPC addr req w) with
    (if empty (jr_NodeID req) || empty (jr_RaftAddr req)
     then (w, Err (A := unit) (errorsNew "cluster: join requires a node id and raft addr")) else (sample_set w (sample_join req (sa_config w)), Ok tt)).
  set (wl := MkSample (sa_config w) Leader (sa_leader w) [] []).
  intros Hj. exists w_node_a. destruct (node_Join (w_node_a, wl) (jr_NodeID req) (jr_RaftAddr req) (jr_GRPCAddr req) (jr_NonVoter req)) as [[nl' wl'] r'] eqn:Ej.
  exists nl', wl, wl'. split; [reflexivity|]. split; [reflexivity|].
  assert (r' = r ∧ config w' = config wl') as [<- Hc]; [|by split]. unfold node_Join in Ej.
  destruct (empty (jr_NodeID req) || empty (jr_RaftAddr req)); [injection Hj as <- <-; by injection Ej as <- <- <-|].
  injection Hj as <- <-. change (IsLeader wl) with true in Ej. change (Configuration wl) with (Ok (sa_config w)) in Ej. cbn [negb bindS] in Ej.
  change (config (sample_set w (sample_join req (sa_config w)))) with (sample_join req (sa_config w)). unfold sample_join.
  destruct (findServer (sa_config w) (jr_NodeID req)) as [e|]; [|cbn [andb orb] in Ej; by injection Ej as <- <- <-].
  destruct (bool_decide (sv_Address e = jr_RaftAddr req)), (bool_decide (sv_Suffrage e = Voter)), (jr_NonVoter req);
    cbn [andb orb] in Ej |- *; by injection Ej as <- <- <-.
Qed.

Lemma joins_in_two_steps_witness :
  caughtUp w_joining = true ∧
  findServer (config (snd (fst (promoteSelf (w_joiner, w_joining))))) "b" = Some (w_server Voter "b" "rb").
Proof.
  split; [vm_compute; reflexivity|].
  destruct (joins_in_two_steps w_joiner w_joining "ga") as (_ & _ & Hp & _).
  - vm_compute. reflexivity.
  - reflexivity.
  - apply (bool_decide_unpack _). vm_compute. exact I.
  - reflexivity.
  - discriminate.
  - discriminate.
  - vm_compute. reflexivity.
  - discriminate.
  - discriminate.
  - apply sample_served.
  - intros a w. split; reflexivity.
  - apply Hp; vm_compute; reflexivity.
Defined.
