(* ===== verification/ClusterService.v ===== *)
(** * The replicated service: grpc/cluster_server.go, grpc/cluster_node.go,
      grpc/errors.go and cluster/fence.go

    Writes go through Raft; reads are served from the local state machine after
    the node has confirmed that it leads and has applied what was committed.
    Raft's log is the interface [RaftLog] on the state [W], which also holds the
    node's state machine: Raft calls its [Apply] on its own. *)

From Stdlib Require Import ZArith Lia.
From Stdlib.Strings Require Import Byte.
From stdpp Require Import base list numbers gmap strings.
From S2P Require Import Prelude GoLib SortedSeq SortedKV SortedArray Merge SortedFile KVIterators Metadata KV Command Snapshot FSM.
From S2P Require Import Service Membership.

Open Scope Z_scope.

(** ** Errors of the replicated service *)

Definition raftErrorCode (e : error) : Code :=
  match e with
  | raft_ErrNotLeader | raft_ErrLeadershipLost | raft_ErrRaftShutdown
  | raft_ErrLeadershipTransferInProgress | raft_ErrCantBootstrap => codes_Unavailable
  | raft_ErrEnqueueTimeout => codes_DeadlineExceeded
  | raft_ErrAbortedByRestore => codes_Aborted
  | _ => codes_Internal
  end.

Definition known (l : leaderInfo) : bool := negb (empty (li_ID l)) || negb (empty (li_RaftAddr l)) || negb (empty (li_GRPCAddr l)).

Definition leader_target (l : leaderInfo) : string := if negb (empty (li_GRPCAddr l)) then li_GRPCAddr l else "unknown".

(** The details of a status are the leader's, with the reason NOT_LEADER. *)
Definition withLeaderDetails (c : Code) (msg : string) (l : leaderInfo) : error :=
  status_Error c msg (if known l then Some l else None).

Definition notLeaderError (l : leaderInfo) : error :=
  withLeaderDetails codes_Unavailable
    (if known l then String.append "not leader; retry against " (leader_target l) else "not leader; no leader elected") l.

Definition raftStatusError (op : string) (e : error) (l : leaderInfo) : error :=
  match e with
  | context_Canceled | context_DeadlineExceeded => FromContextError e
  | _ =>
      let code := raftErrorCode e in
      if bool_decide (code = codes_Unavailable) then withLeaderDetails code op l else status code op
  end.

Definition membershipStatusError (op : string) (e : error) (l : leaderInfo) : error :=
  if negb (known l) && bool_decide (raftErrorCode e = codes_Internal) then status codes_Unavailable op else raftStatusError op e l.

(** [LeaderFromError]: the node and the address to dial. *)
Definition LeaderFromError (e : error) : option (string * string) :=
  match e with
  | status_Error _ _ (Some l) => Some (li_ID l, li_GRPCAddr l)
  | _ => None
  end.

(** ** Contexts

    [cx_err] is what [ctx.Err()] answers on entry, [cx_wait n] whether the n-th
    wait ends because the context is done, [cx_remaining] the time until the
    deadline, if there is one. *)
Record call_ctx := MkCtx { cx_err : option error; cx_wait : nat → option error; cx_remaining : option Z }.

Definition applyDeadline (timeout : Z) (ctx : call_ctx) : Z :=
  match cx_remaining ctx with
  | None => timeout
  | Some remaining => if (timeout <=? 0) || (remaining <? timeout) then remaining else timeout
  end.

(** Raft goes on with what it was asked for also when nobody waits for it. *)
Definition waitFuture {W A} (ctx : call_ctx) (n : nat) (r : W * res A) : W * res A :=
  match cx_wait ctx n with
  | Some e => (fst r, Err e)
  | None => r
  end.

Section service.
Context `{Bloom} `{MetaJson} `{CommandJson}.

(** Raft's log, and the state machine of the node.  [raft_Apply] gives the
    response of the state machine ([None] if it is not an [FSMResult]),
    [raft_Barrier] the index of the barrier ([None] if the future has none);
    [node_wait] is what happens while a call waits for an index. *)
Class RaftLog (W : Type) := {
  node_fsm : W → FSM;
  node_set_fsm : FSM → W → W;
  raft_CommitIndex : W → Z;
  raft_VerifyLeader : W → W * res unit;
  raft_Apply : bytes → Z → W → W * res (option FSMResult);
  raft_Barrier : Z → W → W * res (option Z);
  node_wait : W → W;
}.

Context {W : Type} `{Cluster W} `{RaftLog W}.

(** ** The node of a server *)

Definition grpcAddr (n : Node) (w : W) (nodeID raftAddr : string) : string :=
  let addr := if negb (empty nodeID) then GRPCAddrForID n w nodeID else EmptyString in
  if negb (empty addr) then addr else
  match List.find (fun m => bool_decide (ni_NodeID m = nodeID) ||
                            (empty nodeID && bool_decide (ni_RaftAddr m = raftAddr) && negb (empty raftAddr))) (DiscoveryMembers n w) with
  | Some m => ni_GRPCAddr m
  | None => EmptyString
  end.

Definition leader (n : Node) (w : W) : leaderInfo :=
  let (raftAddr, id) := raft_LeaderWithID w in
  let addr := LeaderGRPCAddr n w in
  MkLeader id (if empty addr then grpcAddr n w id raftAddr else addr) raftAddr.

Definition isMember (w : W) (nodeID : string) : res bool :=
  servers ← raft_GetConfiguration w;
  Ok (existsb (fun s => bool_decide (sv_ID s = nodeID)) servers).

(** ** Writes *)

(** A failure in Raft, as a status. *)
Definition or_raft_status {A} (op : string) (n : Node) (r : W * res A) : W * res A :=
  match r with
  | (w, Err e) => (w, Err (raftStatusError op e (leader n w)))
  | _ => r
  end.

Definition srv_applyCommand (n : Node) (timeout : Z) (ctx : call_ctx) (w : W) (cmd : Command) : W * res FSMResult :=
  if negb (IsLeader w) then (w, Err (notLeaderError (leader n w))) else
  let! (w, data) := (w, or_status codes_Internal "encode command" (EncodeCommand cmd)) in
  let timeout := applyDeadline timeout ctx in
  if timeout <=? 0 then (w, Err (status codes_DeadlineExceeded "raft apply: deadline already expired")) else
  let! (w, response) := or_raft_status "raft apply" n (waitFuture ctx 0 (raft_Apply data timeout w)) in
  (w, match response with
      | None => Err (status codes_Internal "unexpected fsm result type")
      | Some r => match fr_Err r with Some _ => Err (status codes_Internal "fsm apply") | None => Ok r end
      end).

Definition cluster_Put (n : Node) (timeout : Z) (ctx : call_ctx) (w : W) (key val : bytes) (mode : Z) : W * res bool :=
  let! (w, _u) := (w, validateKey key) in
  let! (w, _u) := (w, ctx_check (cx_err ctx)) in
  let! (w, mode) := (w, rpc_updateMode mode) in
  let! (w, r) := srv_applyCommand n timeout ctx w (MkCmd OpPut key val mode []) in
  (w, Ok (fr_Updated r)).

Definition cluster_Delete (n : Node) (timeout : Z) (ctx : call_ctx) (w : W) (key : bytes) : W * res bool :=
  let! (w, _u) := (w, validateKey key) in
  let! (w, _u) := (w, ctx_check (cx_err ctx)) in
  let! (w, r) := srv_applyCommand n timeout ctx w (MkCmd OpDel key [] 0 []) in
  (w, Ok (fr_Updated r)).

(** ** Reads *)

Definition CONSISTENCY_UNSPECIFIED : Z := 0.
Definition CONSISTENCY_LINEARIZABLE : Z := 1.
Definition CONSISTENCY_STALE : Z := 2.

(** [WaitForAppliedIndex]: a round of its loop, then what happens until the
    next; [fuel] bounds the rounds that are looked at. *)
Fixpoint await_applied (fuel : nat) (ctx : call_ctx) (k : nat) (w : W) (idx : Z) : W * res unit :=
  if idx <=? AppliedIndex (node_fsm w) then (w, Ok tt) else
  match cx_wait ctx k with
  | Some e => (w, Err e)
  | None => match fuel with O => (w, OutOfFuel) | S fuel => await_applied fuel ctx (S k) (node_wait w) idx end
  end.

(** The state machine has [WaitForAppliedIndex], so the barrier is never the
    way a read takes. *)
Definition readReady (fuel : nat) (n : Node) (ctx : call_ctx) (w : W) (consistency : Z) : W * res unit :=
  if consistency =? CONSISTENCY_STALE then (w, Ok tt) else
  let! (w, _u) := or_raft_status "verify leader" n (waitFuture ctx 0 (raft_VerifyLeader w)) in
  or_raft_status "await applied index" n (await_applied fuel ctx 1 w (raft_CommitIndex w)).

Definition barrier (n : Node) (timeout : Z) (ctx : call_ctx) (w : W) : W * res unit :=
  let timeout := applyDeadline timeout ctx in
  if timeout <=? 0 then (w, Err (status codes_DeadlineExceeded "raft barrier: deadline already expired")) else
  let! (w, _i) := or_raft_status "raft barrier" n (waitFuture ctx 0 (raft_Barrier timeout w)) in (w, Ok tt).

Definition cluster_Get (fuel : nat) (n : Node) (ctx : call_ctx) (w : W) (consistency : Z) (key : bytes) : W * res bytes :=
  let! (w, _u) := (w, validateKey key) in
  let! (w, _u) := (w, ctx_check (cx_err ctx)) in
  let! (w, _u) := readReady fuel n ctx w consistency in
  let (f, r) := fsm_Get (node_fsm w) key in
  let! (w, v) := (node_set_fsm f w, or_status codes_Internal "get key" r) in
  (w, match v with Some value => Ok value | None => Err (status codes_NotFound "key not found") end).

(** [Range]: the deferred [release] runs on every return. *)
Definition cluster_Range (fuel : nat) (n : Node) (ctx : call_ctx) (w : W) (limits : rangeLimits) (req : RangeRequest) (env : stream_env) :
    W * (list RangeResponse * res unit) :=
  let (w, ready) := readReady fuel n ctx w (rr_consistency req) in
  match ready with
  | Ok _ =>
      let (f, r) := fsm_NewTX (node_fsm w) in
      match r with
      | Ok id =>
          match kv_txs (f_store f) !! id with
          | Some tx =>
              let out := ignoreClosedStream (rs_stream (newRangeScan req limits) tx env) in
              let (f, r) := fsm_release f id in
              (node_set_fsm f w, (fst out, _ ← r; snd out))
          | None => (node_set_fsm f w, ([], Panic "index out of range"))
          end
      | Err e => (node_set_fsm f w, ([], Err e))
      | Panic s => (node_set_fsm f w, ([], Panic s))
      | OutOfFuel => (node_set_fsm f w, ([], OutOfFuel))
      end
  | r => (w, ([], r))
  end.

(** ** The fence of the applied index *)

Definition fenceAppliedIndex (timeout : Z) (force : bool) (w : W) : W :=
  if negb (IsLeader w) then w else
  if negb force && (raft_CommitIndex w <=? AppliedIndex (node_fsm w)) then w else
  match raft_Barrier timeout w with
  | (w, Ok (Some index)) => node_set_fsm (ObserveAppliedIndex (node_fsm w) index) w
  | (w, _) => w
  end.

(** ** The management service *)

Definition cluster_Join (ctx : option error) (s : Node * W) (nodeID raftAddr grpc : string) (nonVoter : bool) : (Node * W) * res unit :=
  if empty nodeID || empty raftAddr then (s, Err (status codes_InvalidArgument "node_id and raft_addr are required")) else
  let! (s, _u) := (s, ctx_check ctx) in
  if negb (IsLeader (snd s)) then (s, Err (notLeaderError (leader (fst s) (snd s)))) else
  match node_Join s nodeID raftAddr grpc nonVoter with
  | (s, Err e) => (s, Err (membershipStatusError "join cluster" e (leader (fst s) (snd s))))
  | r => r
  end.

(** An empty ID removes the node itself; the node routes a removal on its own. *)
Definition cluster_Leave (polls : nat) (ctx : option error) (s : Node * W) (nodeID : string) : (Node * W) * res unit :=
  let! (s, _u) := (s, ctx_check ctx) in
  let leave (s : Node * W) :=
    match (if empty nodeID then LeaveSelf polls s else node_Leave polls s nodeID) with
    | (s, Err e) => (s, Err (membershipStatusError "leave cluster" e (leader (fst s) (snd s))))
    | r => r
    end in
  if empty nodeID then leave s else
  match isMember (snd s) nodeID with
  | Ok true => leave s
  | Ok false => (s, Ok tt)
  | Err e => (s, Err (raftStatusError "raft configuration" e (leader (fst s) (snd s))))
  | Panic m => (s, Panic m)
  | OutOfFuel => (s, OutOfFuel)
  end.

Definition cluster_GetLeader (ctx : option error) (n : Node) (w : W) : res leaderInfo :=
  _ ← ctx_check ctx; Ok (leader n w).

(** [pbv1.ClusterMember] *)
Record ClusterMember := MkClusterMember {
  cm_RaftAddr : string; cm_GrpcAddr : string; cm_SerfAddr : string; cm_RaftVoter : bool; cm_Leader : bool; cm_Status : MemberStatus }.

(** The members by node ID; the list of the answer has no order. *)
Definition cluster_ListMembers (ctx : option error) (n : Node) (w : W) : res (gmap string ClusterMember) :=
  _ ← ctx_check ctx;
  let (leaderAddr, leaderID) := raft_LeaderWithID w in
  servers ← or_status codes_Unavailable "raft configuration" (raft_GetConfiguration w);
  let raftMembers := foldl (fun ms s =>
    <[sv_ID s := MkClusterMember (sv_Address s) (grpcAddr n w (sv_ID s) (sv_Address s)) EmptyString
       (bool_decide (sv_Suffrage s = Voter)) (bool_decide (sv_ID s = leaderID)) MemberStatusUnknown]> ms) ∅ servers in
  Ok (foldl (fun ms d =>
    let m := default (MkClusterMember EmptyString EmptyString EmptyString false false MemberStatusUnknown) (ms !! ni_NodeID d) in
    <[ni_NodeID d := MkClusterMember (if empty (cm_RaftAddr m) then ni_RaftAddr d else cm_RaftAddr m)
       (if empty (ni_GRPCAddr d) then cm_GrpcAddr m else ni_GRPCAddr d) (ni_SerfAddr d) (cm_RaftVoter m)
       (cm_Leader m || bool_decide (ni_RaftAddr d = leaderAddr)) (ni_Status d)]> ms) raftMembers (DiscoveryMembers n w)).

End service.
