(* ===== verification/ClusterServiceProofs.v ===== *)
(** * The replicated service over a Raft log *)

From Stdlib Require Import ZArith Lia.
From Stdlib.Strings Require Import Byte.
From stdpp Require Import base list numbers gmap strings.
From S2P Require Import Prelude GoLib SortedSeq SortedKV SortedArray Merge File Entry SortedFile SortedFileProofs KVIterators.
From S2P Require Import Log LogProofs Metadata KV KVCompact KVProofs KVCompactProofs KVSystem KVOps LogHistory Reopen.
From S2P Require Import TxKV TxInstance Table Relational Command Snapshot FSM FSMProofs ClusterTheorems.
From S2P Require Import Service ServiceProofs Client Membership ClusterService.

Open Scope Z_scope.

(** The entries of Raft's log: only commands are handed to [Apply]; a
    configuration is handed to [StoreConfiguration], the no-op of a term and a
    barrier to nobody. *)
Inductive LogEntry := LogCommand (data : bytes) | LogNoop | LogBarrier | LogConfiguration.

Section raft.
Context `{BL : BloomLaws} `{MetaJson} `{CommandJson}.

(** ** A state machine that is fed a log

    [fed first f0 log f]: the state machine that was [f0] at the index [first]
    and was handed [log], entry by entry, is now [f].  In between the fence may
    have raised the applied index to an index it was fed, and the store may have
    been read, flushed or merged. *)
Inductive fed (first : Z) (f0 : FSM) : list LogEntry → FSM → Prop :=
  | fed_start : fed first f0 [] f0
  | fed_command log f data cmd f' r : fed first f0 log f → DecodeCommand data = Ok cmd → known_cmd cmd →
      Apply f (first + Z.of_nat (length log) + 1) data = (f', Ok r) → fed first f0 (log ++ [LogCommand data]) f'
  | fed_noop log f : fed first f0 log f → fed first f0 (log ++ [LogNoop]) f
  | fed_barrier log f : fed first f0 log f → fed first f0 (log ++ [LogBarrier]) f
  | fed_config log f : fed first f0 log f →
      fed first f0 (log ++ [LogConfiguration]) (StoreConfiguration f (first + Z.of_nat (length log) + 1))
  | fed_fence log f idx : fed first f0 log f → idx ≤ first + Z.of_nat (length log) → fed first f0 log (ObserveAppliedIndex f idx)
  | fed_store log f kv : fed first f0 log f → (∀ m n, fsm_state f m n → fsm_state (set_store f kv) m n) → fed first f0 log (set_store f kv).

(** What the log means. *)
Definition entry_view (m : list ent) (e : LogEntry) : list ent :=
  match e with
  | LogCommand data => match DecodeCommand data with Ok cmd => (spec_apply m cmd).2 | _ => m end
  | _ => m
  end.
Definition log_view (m : list ent) (log : list LogEntry) : list ent := foldl entry_view m log.

Lemma log_view_snoc m log e : log_view m (log ++ [e]) = entry_view (log_view m log) e.
Proof. apply foldl_snoc. Qed.

Lemma advance_state f m n idx : fsm_state f m n → fsm_state (advanceApplied f idx) m n.
Proof. intros [Hi Hr Ho Hc]. unfold advanceApplied. case_if; by split. Qed.

Lemma advance_applied f idx : f_applied (advanceApplied f idx) = Z.max (f_applied f) idx.
Proof. unfold advanceApplied. destruct (Z.leb_spec idx (f_applied f)); cbn; lia. Qed.

Lemma fsm_state_le f m n n' : fsm_state f m n → (n ≤ n')%nat → fsm_state f m n'.
Proof. intros [(init & commits & Hi & Hv & Hl) Hr Ho Hc] Hn. split; [|done..]. exists init, commits. split_and!; [done|done|lia]. Qed.

(** A state machine holds exactly what it was fed, and its applied index is
    sound: every entry up to it has been handed over. *)
Lemma fed_spec first f0 m n0 log f : fed first f0 log f →
  fsm_state f0 m n0 → f_applied f0 ≤ first → Z.of_nat n0 ≤ first → first + Z.of_nat (length log) < 2 ^ 64 - 1 →
  fsm_state f (log_view m log) (n0 + length log) ∧ f_applied f ≤ first + Z.of_nat (length log).
Proof.
  intros Hfed Hf0 Ha Hn. induction Hfed as [|log f data cmd f' r Hf IH Hd Hk Hap|log f Hf IH|log f Hf IH|log f Hf IH|log f idx Hf IH Hi|log f kv Hf IH Hkv];
    intros Hlen; rewrite ?length_app in *; cbn [length] in *.
  - rewrite Nat.add_0_r. split; [done|]. cbn. lia.
  - destruct IH as [Hs Hi]; [lia|]. destruct (Apply_spec f _ _ (first + Z.of_nat (length log) + 1) data cmd Hs ltac:(lia) Hd Hk)
      as (f1 & r1 & E & [(-> & Hs1 & Ha1)|[s ->]]); rewrite Hap in E; injection E as <- Er; [|done].
    rewrite log_view_snoc. cbn [entry_view]. rewrite Hd. split; [eapply fsm_state_le; [done|lia]|]. rewrite Ha1. lia.
  - destruct IH as [Hs Hi]; [lia|]. rewrite log_view_snoc. split; [eapply fsm_state_le; [done|lia]|lia].
  - destruct IH as [Hs Hi]; [lia|]. rewrite log_view_snoc. split; [eapply fsm_state_le; [done|lia]|lia].
  - destruct IH as [Hs Hi]; [lia|]. rewrite log_view_snoc. unfold StoreConfiguration. rewrite advance_applied.
    split; [|lia]. apply advance_state. eapply fsm_state_le; [done|lia].
  - destruct IH as [Hs Hi']; [done|]. unfold ObserveAppliedIndex. rewrite advance_applied. split; [by apply advance_state|lia].
  - destruct IH as [Hs Hi]; [done|]. split; [by apply Hkv|done].
Qed.

(** ** Reads of the state machine *)

Lemma get_state f m n k : fsm_state f m n → ∃ kv, fst (fsm_Get f k) = set_store f kv ∧ fsm_state (set_store f kv) m n.
Proof.
  intros [(init & commits & Hi & Hv & Hl) Hr Ho Hc]. unfold fsm_Get. rewrite Hc.
  destruct (kv_Get_spec (f_store f) init commits Hi Hr Ho k) as (kv' & -> & Hi' & Hr' & Ho').
  exists kv'. split; [done|]. split; [by exists init, commits|done..].
Qed.

Lemma fed_get first f0 log f k : fed first f0 log f → fed first f0 log (fst (fsm_Get f k)).
Proof.
  intros Hf. destruct (f_closed f) eqn:Ec; [by unfold fsm_Get; rewrite Ec|].
  assert (fst (fsm_Get f k) = set_store f (fst (kv_Get (f_store f) k))) as ->.
  { unfold fsm_Get. rewrite Ec. by destruct (kv_Get (f_store f) k). }
  apply fed_store; [done|]. intros m n Hs. destruct (get_state f m n k Hs) as (kv & E & Hs').
  unfold fsm_Get in E. rewrite Ec in E. destruct (kv_Get (f_store f) k) as [kv1 r]. cbn in *. by rewrite E.
Qed.

(** ** What Raft documents of its log

    [rf_log] is the cluster's committed log, from the index after [rf_first] on,
    whether or not this node knows of it; the node's state machine has been fed
    the first [rf_fed] entries of it.  Committed entries stay ([rf_moves]).  A
    future of [Apply] that succeeded has the response of the entry, which is in
    the log after those that were there when it was proposed.  A barrier that
    succeeded has been reached by the state machine.  A leader that was verified
    knows the commit index of the cluster once it has committed an entry of its
    own term ([rf_current]), not before. *)
Class RaftLogLaws (W : Type) {RL : RaftLog W} := {
  rf_ok : W → Prop;
  rf_current : W → Prop;
  rf_log : W → list LogEntry;
  rf_fed : W → nat;
  rf_first : Z;
  rf_f0 : FSM;
  rf_moves (w w' : W) : Prop := rf_ok w' ∧ rf_log w `prefix_of` rf_log w' ∧ (rf_fed w ≤ rf_fed w')%nat;
  rf_delivery w : rf_ok w → (rf_fed w ≤ length (rf_log w))%nat ∧ fed rf_first rf_f0 (take (rf_fed w) (rf_log w)) (node_fsm w);
  rf_commit w : rf_ok w → raft_CommitIndex w ≤ rf_first + Z.of_nat (length (rf_log w));
  rf_index w : rf_ok w → rf_first + Z.of_nat (length (rf_log w)) < 2 ^ 64 - 1;
  rf_set f w : rf_ok w → fed rf_first rf_f0 (take (rf_fed w) (rf_log w)) f →
    rf_ok (node_set_fsm f w) ∧ rf_log (node_set_fsm f w) = rf_log w ∧ rf_fed (node_set_fsm f w) = rf_fed w ∧
    node_fsm (node_set_fsm f w) = f;
  rf_wait w : rf_ok w → rf_moves w (node_wait w);
  rf_verify w : rf_ok w → rf_moves w (fst (raft_VerifyLeader w));
  rf_verified w w' : rf_ok w → rf_current w → raft_VerifyLeader w = (w', Ok tt) →
    rf_first + Z.of_nat (length (rf_log w)) ≤ raft_CommitIndex w';
  rf_apply data timeout w : rf_ok w → rf_moves w (fst (raft_Apply data timeout w));
  rf_applied data timeout w w' r : rf_ok w → raft_Apply data timeout w = (w', Ok (Some r)) →
    ∃ i f f', (length (rf_log w) ≤ i < rf_fed w')%nat ∧ rf_log w' !! i = Some (LogCommand data) ∧
      fed rf_first rf_f0 (take i (rf_log w')) f ∧ Apply f (rf_first + Z.of_nat i + 1) data = (f', Ok r);
  rf_barrier timeout w : rf_ok w → rf_moves w (fst (raft_Barrier timeout w));
  rf_barred timeout w w' idx : rf_ok w → raft_Barrier timeout w = (w', Ok (Some idx)) →
    rf_first + Z.of_nat (length (rf_log w)) < idx ≤ rf_first + Z.of_nat (rf_fed w');
}.

Section service.
Context {W : Type} `{Cluster W} {RL : RaftLog W} {LL : RaftLogLaws W}.
Context (m0 : list ent) (n0 : nat) (Hstart : fsm_state rf_f0 m0 n0) (Happlied : f_applied rf_f0 ≤ rf_first) (Hn0 : Z.of_nat n0 ≤ rf_first).

Lemma moves_refl w : rf_ok w → rf_moves w w.
Proof. intros Hok. unfold rf_moves. by split_and!. Qed.

Lemma moves_trans w1 w2 w3 : rf_moves w1 w2 → rf_moves w2 w3 → rf_moves w1 w3.
Proof. intros (_ & Hp1 & Hf1) (Ho & Hp2 & Hf2). unfold rf_moves. split_and!; [done|by etrans|lia]. Qed.

(** The node's state machine. *)
Lemma node_state w : rf_ok w →
  fsm_state (node_fsm w) (log_view m0 (take (rf_fed w) (rf_log w))) (n0 + rf_fed w) ∧
  f_applied (node_fsm w) ≤ rf_first + Z.of_nat (rf_fed w).
Proof.
  intros Hok. destruct (rf_delivery w Hok) as [Hle Hfed]. pose proof (rf_index w Hok) as Hi.
  pose proof (fed_spec _ _ m0 n0 _ _ Hfed Hstart Happlied Hn0) as Hs. rewrite length_take, Nat.min_l in Hs by done. apply Hs. lia.
Qed.

Lemma await_spec fuel : ∀ ctx k w idx w' r, rf_ok w → await_applied fuel ctx k w idx = (w', r) →
  rf_moves w w' ∧ (r = Ok tt → idx ≤ f_applied (node_fsm w')) ∧ (∀ e, r = Err e → ∃ i, cx_wait ctx i = Some e).
Proof.
  induction fuel as [|fuel IH]; intros ctx k w idx w' r Hok; cbn [await_applied]; unfold AppliedIndex;
    (destruct (Z.leb_spec idx (f_applied (node_fsm w))); [intros [= <- <-]; split; [by apply moves_refl|by split]|]);
    (destruct (cx_wait ctx k) as [e|] eqn:Ek; [intros [= <- <-]; split; [by apply moves_refl|split; [done|]]; intros ? [= <-]; eauto|]).
  - intros [= <- <-]. split; [by apply moves_refl|by split].
  - intros E. pose proof (rf_wait w Hok) as Hw. destruct (IH _ _ _ _ _ _ (proj1 Hw) E) as (Hm & Hr1 & Hr2).
    split; [by eapply moves_trans|by split].
Qed.

(** After [readReady] the state machine has been fed everything that was
    committed when the call began. *)
Lemma readReady_spec fuel n ctx w consistency w' r : rf_ok w → readReady fuel n ctx w consistency = (w', r) →
  rf_moves w w' ∧ (r = Ok tt → consistency ≠ CONSISTENCY_STALE → rf_current w → (length (rf_log w) ≤ rf_fed w')%nat) ∧
  (∀ e, r = Err e → ∃ op e' l, e = raftStatusError op e' l).
Proof.
  intros Hok. unfold readReady. destruct (Z.eqb_spec consistency CONSISTENCY_STALE); [intros [= <- <-]; split; [by apply moves_refl|by split]|].
  unfold waitFuture. pose proof (rf_verify w Hok) as Hv. destruct (raft_VerifyLeader w) as [w1 r1] eqn:Ev. cbn [fst] in Hv.
  destruct (cx_wait ctx 0) as [e|]; [cbn; intros [= <- <-]; split; [done|split; [done|]]; intros ? [= <-]; eauto|].
  destruct r1 as [[]|e|p|]; cbn [or_raft_status bindS]; [|intros [= <- <-]; split; [done|split; [done|]]; try done; intros ? [= <-]; eauto..].
  destruct (await_applied fuel ctx 1 w1 (raft_CommitIndex w1)) as [w2 r2] eqn:Ea.
  destruct (await_spec _ _ _ _ _ _ _ (proj1 Hv) Ea) as (Hm & Hr1 & Hr2).
  assert (rf_moves w w2) as Hm2 by (by eapply moves_trans).
  destruct r2 as [[]|e|p|]; cbn [or_raft_status]; intros [= <- <-]; (split; [done|]); split; try done; [|intros ? [= <-]; eauto].
  intros _ _ Hcur. specialize (Hr1 eq_refl). pose proof (rf_verified w w1 Hok Hcur Ev). destruct (node_state w2 (proj1 Hm2)) as [_ Hap]. lia.
Qed.

(** A write that was acknowledged. *)
Lemma applyCommand_ok n timeout ctx w cmd w' r : rf_ok w → Forall mode_fits (Mutations cmd) →
  srv_applyCommand n timeout ctx w cmd = (w', r) →
  rf_moves w w' ∧
  (IsLeader w = false → w' = w ∧ r = Err (notLeaderError (leader n w))) ∧
  (∀ res, r = Ok res → ∃ i data, (length (rf_log w) ≤ i < rf_fed w')%nat ∧ rf_log w' !! i = Some (LogCommand data) ∧
     EncodeCommand cmd = Ok data ∧ res = (spec_apply (log_view m0 (take i (rf_log w'))) (canonical_cmd cmd)).1).
Proof.
  intros Hok Hmode. unfold srv_applyCommand. destruct (IsLeader w); cbn [negb]; [|intros [= <- <-]; split; [by apply moves_refl|by split]].
  assert (∀ r, (w, r) = (w', r) → rf_moves w w') as Hsame by (intros ? [= <-]; by apply moves_refl).
  destruct (EncodeCommand cmd) as [data|e|p|] eqn:Ee; cbn [or_status bindS]; [|intros [= <- <-]; split; [by apply moves_refl|by split]..].
  case_if; [intros [= <- <-]; split; [by apply moves_refl|by split]|].
  pose proof (rf_apply data (applyDeadline timeout ctx) w Hok) as Hm. unfold waitFuture.
  destruct (raft_Apply data (applyDeadline timeout ctx) w) as [w1 r1] eqn:Ea. cbn [fst] in Hm.
  destruct (cx_wait ctx 0); [cbn; intros [= <- <-]; split; [done|by split]|].
  destruct r1 as [[res|]|e|p|]; cbn [or_raft_status bindS]; intros [= <- <-]; (split; [done|]); (split; [done|]); try done.
  intros res'. destruct (fr_Err res); [done|]. intros [= <-].
  destruct (rf_applied _ _ _ _ _ Hok Ea) as (i & f & f' & Hi & Hl & Hfed & Hap). exists i, data. split_and!; try done; [lia|lia|].
  destruct (proposed_known (0, data) cmd (conj Ee Hmode)) as [Hd Hk]. cbn [snd] in Hd.
  pose proof (rf_index w1 (proj1 Hm)) as Hx. apply lookup_lt_Some in Hl as Hlt.
  destruct (fed_spec _ _ m0 n0 _ _ Hfed Hstart Happlied Hn0) as [Hs _]; [rewrite length_take; lia|]. rewrite length_take, Nat.min_l in Hs by lia.
  destruct (Apply_spec f _ _ (rf_first + Z.of_nat i + 1) data _ Hs ltac:(lia) Hd Hk) as (f1 & r1 & E & [(-> & _)|[s ->]]); rewrite Hap in E;
    injection E as _ Er; congruence.
Qed.

(** The fence: the applied index stays sound, and reaches what was committed. *)
Lemma fence_spec timeout force w : rf_ok w →
  rf_moves w (fenceAppliedIndex timeout force w) ∧
  (∀ w1 idx, IsLeader w = true → force = true → raft_Barrier timeout w = (w1, Ok (Some idx)) →
     raft_CommitIndex w ≤ f_applied (node_fsm (fenceAppliedIndex timeout force w))).
Proof.
  clear Hstart Happlied Hn0. intros Hok. unfold fenceAppliedIndex. destruct (IsLeader w); cbn [negb]; [|split; [by apply moves_refl|done]].
  destruct (negb force && _) eqn:Ef; [split; [by apply moves_refl|by intros ? ? _ ->]|].
  pose proof (rf_barrier timeout w Hok) as Hm. destruct (raft_Barrier timeout w) as [w1 [[idx|]| | |]] eqn:Eb; try (split; [done|by intros]).
  cbn [fst] in Hm. destruct (rf_delivery w1 (proj1 Hm)) as [Hle Hfed]. pose proof (rf_barred _ _ _ _ Hok Eb) as [Hb Hi].
  destruct (rf_set (ObserveAppliedIndex (node_fsm w1) idx) w1 (proj1 Hm)) as (Ho & E1 & E2 & E3).
  { apply fed_fence; [done|]. rewrite length_take, Nat.min_l by done. done. }
  destruct Hm as (_ & Hp & Hf). split; [unfold rf_moves; split_and!; [done|by rewrite E1|by rewrite E2]|].
  intros ? ? _ _ _. rewrite E3. unfold ObserveAppliedIndex. rewrite advance_applied. pose proof (rf_commit w Hok). lia.
Qed.

End service.
End raft.
