(* ===== verification/ClusterServiceTheorems.v ===== *)
(** * What clients of a replicated node are promised

    Acknowledged writes are in the log with the answer the log gives them; a
    linearizable read sees everything that was committed before it; the fence
    keeps such reads from blocking. *)

From Stdlib Require Import ZArith Lia.
From Stdlib.Strings Require Import Byte.
From stdpp Require Import base list numbers gmap strings.
From S2P Require Import Prelude GoLib SortedSeq SortedKV SortedArray Merge File Entry SortedFile SortedFileProofs KVIterators.
From S2P Require Import Log LogProofs Metadata KV KVCompact KVProofs KVCompactProofs KVSystem KVOps LogHistory Reopen.
From S2P Require Import TxKV TxInstance Table Relational Command Snapshot FSM FSMProofs Samples KVTheorems ClusterTheorems.
From S2P Require Import Service ServiceProofs Client Membership MembershipProofs ClusterService ClusterServiceProofs.

Open Scope Z_scope.

Lemma raftStatusError_found op e l : status_Code (raftStatusError op e l) ≠ codes_NotFound.
Proof. destruct e; cbn; try done; unfold withLeaderDetails; by destruct (known l). Qed.

Lemma validate_found k e : validateKey k = Err e → status_Code e ≠ codes_NotFound.
Proof. unfold validateKey. repeat case_if; intros [= <-]; done. Qed.

Lemma ctx_found c e : ctx_check c = Err e → status_Code e ≠ codes_NotFound.
Proof. destruct c as [x|]; [|done]. intros [= <-]. by destruct x. Qed.

Lemma notLeader_redirects l : isRedirectable (notLeaderError l) = true ∧
  (known l = true → LeaderFromError (notLeaderError l) = Some (li_ID l, li_GRPCAddr l)).
Proof. split; [done|]. unfold notLeaderError, withLeaderDetails. by intros ->. Qed.

Section theorems.
Context `{BL : BloomLaws} `{MetaJson} `{CommandJson}.
Context {W : Type} `{Cluster W} {RL : RaftLog W} {LL : RaftLogLaws W}.

(** The state machine the node started from: its entries, as of the first index. *)
Definition started (m0 : list ent) : Prop :=
  ∃ n0, fsm_state rf_f0 m0 n0 ∧ f_applied rf_f0 ≤ rf_first ∧ Z.of_nat n0 ≤ rf_first.

(** C10: A linearizable Get answers from a state of the replicated log that
    contains every entry committed in the cluster before the call began, whoever
    acknowledged it: the value, or that there is none, is that of the key after
    such a prefix of the committed log, provided the leader has committed an
    entry of its own term. *)
Theorem linearizable_read m0 fuel n ctx w consistency key w' r :
  started m0 → rf_ok w → rf_current w → consistency ≠ CONSISTENCY_STALE →
  cluster_Get fuel n ctx w consistency key = (w', r) →
  rf_moves w w' ∧
  (∀ v, r = Ok v → ∃ i, (length (rf_log w) ≤ i ≤ length (rf_log w'))%nat ∧ val_at (log_view m0 (take i (rf_log w'))) key = Some v) ∧
  (∀ e, r = Err e → status_Code e = codes_NotFound →
     ∃ i, (length (rf_log w) ≤ i ≤ length (rf_log w'))%nat ∧ val_at (log_view m0 (take i (rf_log w'))) key = None).
Proof.
  intros (n0 & Hs & Ha & Hn) Hok Hcur Hc. unfold cluster_Get.
  destruct (validateKey key) as [[]|e|p|] eqn:Ek; cbn [bindS];
    [|intros [= <- <-]; (split; [by apply moves_refl|split; [done|]]); try done; intros ? [= <-] Hf; by destruct (validate_found _ _ Ek)..].
  destruct (ctx_check (cx_err ctx)) as [[]|e|p|] eqn:Ec; cbn [bindS];
    [|intros [= <- <-]; (split; [by apply moves_refl|split; [done|]]); try done; intros ? [= <-] Hf; by destruct (ctx_found _ _ Ec)..].
  destruct (readReady fuel n ctx w consistency) as [w1 r1] eqn:Er.
  destruct (readReady_spec m0 n0 Hs Ha Hn _ _ _ _ _ _ _ Hok Er) as (Hm & Hr1 & Hr2).
  destruct r1 as [[]|e|p|]; cbn [bindS].
  2: { intros [= <- <-]. split; [done|]. split; [done|]. intros ? [= <-] Hf. destruct (Hr2 _ eq_refl) as (op & e' & l & ->). by destruct (raftStatusError_found op e' l). }
  2-3: intros [= <- <-]; by split.
  specialize (Hr1 eq_refl Hc Hcur). destruct (node_state m0 n0 Hs Ha Hn w1 (proj1 Hm)) as [Hst _].
  pose proof (fsm_Get_spec _ _ _ key Hst) as Hg. destruct (rf_delivery w1 (proj1 Hm)) as [Hle Hfed].
  pose proof (fed_get _ _ _ _ key Hfed) as Hfed'. destruct (fsm_Get (node_fsm w1) key) as [f x]. cbn [fst snd] in *. subst x.
  destruct (rf_set f w1 (proj1 Hm) Hfed') as (Ho & E1 & E2 & E3). cbn [or_status bindS].
  assert (rf_moves w (node_set_fsm f w1)) as Hm'.
  { destruct Hm as (_ & Hp & Hf). unfold rf_moves. rewrite E1, E2. by split_and!. }
  set (v := val_at _ _). destruct v as [v0|] eqn:Ev; subst v; intros [= <- <-]; (split; [done|]).
  - split; [|done]. intros ? [= <-]. exists (rf_fed w1). by rewrite E1.
  - split; [done|]. intros ? _ _. exists (rf_fed w1). by rewrite E1.
Qed.

(** C11: A write that is acknowledged is in the committed log, after everything
    committed before the call began, and the answer is the one the log gives it
    there; a node that does not lead changes nothing and names the leader in an
    error the client follows. *)
Theorem acknowledged_write m0 n timeout ctx w key val mode w' r :
  started m0 → rf_ok w → cluster_Put n timeout ctx w key val mode = (w', r) →
  rf_moves w w' ∧
  (∀ updated, r = Ok updated → ∃ i data md, (length (rf_log w) ≤ i < rf_fed w')%nat ∧ rf_log w' !! i = Some (LogCommand data) ∧
     rpc_updateMode mode = Ok md ∧ DecodeCommand data = Ok (MkCmd OpPut key val md []) ∧
     updated = (spec_put (log_view m0 (take i (rf_log w'))) key val md).1) ∧
  (IsLeader w = false → w' = w ∧ ∃ e, r = Err e ∧
     (user_key key → cx_err ctx = None → put_stores mode None val ≠ None → e = notLeaderError (leader n w) ∧ isRedirectable e = true ∧
        (known (leader n w) = true → LeaderFromError e = Some (li_ID (leader n w), li_GRPCAddr (leader n w))))).
Proof.
  intros (n0 & Hs & Ha & Hn) Hok. unfold cluster_Put.
  destruct (validateKey_cases key) as [[Huk ->]|[Huk [msg ->]]]; cbn [bindS].
  2: { intros [= <- <-]. split; [by apply moves_refl|]. split; [done|]. intros _. split; [done|]. eexists. by split. }
  destruct (ctx_check (cx_err ctx)) as [[]|e|p|] eqn:Ec; cbn [bindS].
  2: { intros [= <- <-]. split; [by apply moves_refl|]. split; [done|]. intros _. split; [done|]. eexists. split; [done|]. intros _ Hx. by rewrite Hx in Ec. }
  2-3: by destruct (cx_err ctx).
  pose proof (rpc_updateMode_stores mode None val) as Hmode. destruct (rpc_updateMode mode) as [md|e|p|] eqn:Em; cbn [bindS]; [|..|done|done].
  2: { intros [= <- <-]. split; [by apply moves_refl|]. split; [done|]. intros _. split; [done|]. eexists. split; [done|]. by destruct Hmode. }
  destruct Hmode as [Hmd _]. set (cmd := MkCmd OpPut key val md []).
  assert (Forall mode_fits (Mutations cmd)) as Hfits.
  { constructor; [|constructor]. intros _. cbn. unfold mode_valid, ModeUpsert, ModeInsert, ModeUpdate in Hmd. lia. }
  destruct (srv_applyCommand n timeout ctx w cmd) as [w1 r1] eqn:E1.
  destruct (applyCommand_ok m0 n0 Hs Ha Hn _ _ _ _ _ _ _ Hok Hfits E1) as (Hm & Hnl & Hr).
  assert (w' = w1 → rf_moves w w') as Hmw by (by intros ->).
  intros E. assert (w' = w1) as -> by (destruct r1; by injection E as <- _). split; [done|]. split.
  - intros updated ->. destruct r1 as [res|e|p|]; try done. injection E as <-.
    destruct (Hr res eq_refl) as (i & data & Hi & Hl & He & ->). exists i, data, md. split; [done|]. split; [done|]. split; [done|].
    pose proof (decode_encode cmd data He Hfits) as Hd. split; [exact Hd|]. clear -Hmd. subst cmd. by destruct Hmd as [-> | [-> | ->]].
  - intros Hl. destruct (Hnl Hl) as [-> ->]. injection E as <-. split; [done|]. eexists. split; [done|]. intros _ _ _.
    split; [done|]. apply notLeader_redirects.
Qed.

(** C17: Linearizable reads are not left waiting: once the fence of a leader has
    succeeded, the applied index of the state machine has reached the commit
    index the leader had, so a read that waits for that index returns at once; and
    the applied index never passes an entry that was not handed over. *)
Theorem fence_unblocks m0 timeout w w1 idx ctx k :
  started m0 → rf_ok w → IsLeader w = true → raft_Barrier timeout w = (w1, Ok (Some idx)) →
  let w' := fenceAppliedIndex timeout true w in
  rf_moves w w' ∧ await_applied 0 ctx k w' (raft_CommitIndex w) = (w', Ok tt) ∧
  AppliedIndex (node_fsm w') ≤ rf_first + Z.of_nat (rf_fed w').
Proof.
  intros (n0 & Hs & Ha & Hn) Hok Hl Hb w'. destruct (fence_spec timeout true w Hok) as [Hm Hf]. specialize (Hf w1 idx Hl eq_refl Hb). fold w' in Hm, Hf.
  split; [done|]. split; [|apply (node_state m0 n0 Hs Ha Hn w' (proj1 Hm))].
  cbn [await_applied]. unfold AppliedIndex. destruct (Z.leb_spec (raft_CommitIndex w) (f_applied (node_fsm w'))); [done|lia].
Qed.

End theorems.

(** ** Witnesses *)

#[local] Existing Instance sample_command_json.

(** A cluster seen from one node: the committed log, how much of it the node has
    been fed, the commit index it knows, its state machine. *)
Record sample_node := MkSampleNode { sn_log : list LogEntry; sn_fed : nat; sn_commit : Z; sn_fsm : FSM; sn_state : RaftState }.

Definition small_log (log : list LogEntry) : bool := (Z.of_nat (length log) <? 2 ^ 64 - 2).

(** Proposals are committed and fed at once, when the node is not behind. *)
Definition sample_apply (data : bytes) (w : sample_node) : sample_node * res (option FSMResult) :=
  let n := length (sn_log w) in
  if negb ((sn_fed w =? n)%nat && small_log (sn_log w)) then (w, Err raft_ErrLeadershipLost) else
  match DecodeCommand data with
  | Ok cmd =>
      if bool_decide (cm_Op cmd = OpPut ∨ cm_Op cmd = OpDel) then
        match Apply (sn_fsm w) (Z.of_nat n + 1) data with
        | (f, Ok r) => (MkSampleNode (sn_log w ++ [LogCommand data]) (S n) (Z.of_nat n + 1) f (sn_state w), Ok (Some r))
        | _ => (w, Err raft_ErrLeadershipLost)
        end
      else (w, Err raft_ErrLeadershipLost)
  | _ => (w, Err raft_ErrLeadershipLost)
  end.

Definition sample_barrier (w : sample_node) : sample_node * res (option Z) :=
  let n := length (sn_log w) in
  if negb ((sn_fed w =? n)%nat && small_log (sn_log w)) then (w, Err raft_ErrLeadershipLost) else
  (MkSampleNode (sn_log w ++ [LogBarrier]) (S n) (Z.of_nat n + 1) (sn_fsm w) (sn_state w), Ok (Some (Z.of_nat n + 1))).

#[local] Instance sample_raft : RaftLog sample_node := {
  node_fsm := sn_fsm;
  node_set_fsm f w := MkSampleNode (sn_log w) (sn_fed w) (sn_commit w) f (sn_state w);
  raft_CommitIndex := sn_commit;
  raft_VerifyLeader w := (w, if bool_decide (sn_state w = Leader) then Ok tt else Err raft_ErrNotLeader);
  raft_Apply data _ := sample_apply data;
  raft_Barrier _ := sample_barrier;
  node_wait w := w;
}.

#[local] Instance sample_peers : Cluster sample_node := {
  raft_State := sn_state;
  raft_LeaderWithID _ := ("ra"%string, "a"%string);
  raft_GetConfiguration _ := Ok [MkServer Voter "a" "ra"];
  raft_Stats _ _ := [];
  raft_AddVoter _ _ w := (w, Err raft_ErrNotLeader);
  raft_AddNonvoter _ _ w := (w, Err raft_ErrNotLeader);
  raft_RemoveServer _ w := (w, Err raft_ErrNotLeader);
  raft_LeadershipTransfer w := (w, Err raft_ErrNotLeader);
  raft_BootstrapCluster _ w := (w, Err raft_ErrCantBootstrap);
  raft_Shutdown w := (w, Ok tt);
  disc_Members _ := [];
  disc_Leave w := (w, Ok tt);
  disc_Shutdown w := (w, Ok tt);
  joinRPC _ _ w := (w, Err raft_ErrNotLeader);
  leaveRPC _ _ w := (w, Err raft_ErrNotLeader);
  node_sleep w := w;
}.

Definition sample_f0 : FSM := NewFSM w_kv0.

Record sample_ok (w : sample_node) : Prop := {
  so_fed : (sn_fed w ≤ length (sn_log w))%nat;
  so_fsm : fed 0 sample_f0 (take (sn_fed w) (sn_log w)) (sn_fsm w);
  so_commit : sn_commit w ≤ Z.of_nat (length (sn_log w));
  so_small : Z.of_nat (length (sn_log w)) < 2 ^ 64 - 1;
}.

(** One more entry, which the node is fed. *)
Lemma sample_grows w e f : sample_ok w → sn_fed w = length (sn_log w) → small_log (sn_log w) = true →
  (fed 0 sample_f0 (sn_log w) (sn_fsm w) → fed 0 sample_f0 (sn_log w ++ [e]) f) →
  sample_ok (MkSampleNode (sn_log w ++ [e]) (S (length (sn_log w))) (Z.of_nat (length (sn_log w)) + 1) f (sn_state w)).
Proof.
  intros [Hf Hs Hc Hl] Hn Hsm He. unfold small_log in Hsm. split; cbn [sn_log sn_fed sn_commit sn_fsm]; rewrite ?length_app; cbn [length]; [lia| |lia|lia].
  rewrite take_ge by (rewrite length_app; cbn; lia). apply He. by rewrite take_ge in Hs by lia.
Qed.

Lemma sample_apply_cases data w : sample_ok w →
  let (w', r) := sample_apply data w in
  (w' = w ∧ ∀ x, r ≠ Ok x) ∨
  (∃ f x, r = Ok (Some x) ∧ sn_fed w = length (sn_log w) ∧ Apply (sn_fsm w) (Z.of_nat (length (sn_log w)) + 1) data = (f, Ok x) ∧
     sn_log w' = sn_log w ++ [LogCommand data] ∧ sn_fed w' = S (length (sn_log w)) ∧ sample_ok w').
Proof.
  intros Hok. unfold sample_apply. destruct (Nat.eqb_spec (sn_fed w) (length (sn_log w))) as [Hn|]; cbn [andb negb]; [|by left].
  destruct (small_log (sn_log w)) eqn:Hsm; cbn [negb]; [|by left]. destruct (DecodeCommand data) as [cmd| | |] eqn:Ed; try (by left).
  case_bool_decide as Ho; [|by left]. destruct (Apply _ _ _) as [f [x| | |]] eqn:Ea; try (by left).
  right. exists f, x. split_and!; try done. apply sample_grows; try done. intros Hfed. eapply fed_command; [done|done| |exact Ea].
  destruct Ho; [by left|by right; left].
Qed.

#[local] Instance sample_log_laws : RaftLogLaws sample_node.
Proof.
  refine {| rf_ok := sample_ok; rf_current w := Z.of_nat (length (sn_log w)) ≤ sn_commit w; rf_log := sn_log; rf_fed := sn_fed;
            rf_first := 0; rf_f0 := sample_f0 |}.
  - intros w [Hf Hs _ _]. by split.
  - intros w [_ _ Hc _]. exact Hc.
  - intros w [_ _ _ Hl]. exact Hl.
  - intros f w [Hf Hs Hc Hl] Hfed. split; [by split|]. by split_and!.
  - intros w Hok. by split_and!.
  - intros w Hok. by split_and!.
  - intros w w' _ Hcur [= <- _]. exact Hcur.
  - intros data timeout w Hok. cbn [raft_Apply sample_raft]. pose proof (sample_apply_cases data w Hok) as Hc. destruct (sample_apply data w) as [w' r].
    destruct Hc as [[-> _]|(f & x & _ & Hn & _ & El & Ef & Hok')]; [by split_and!|]. cbn [fst]. rewrite El, Ef.
    split_and!; [done|by apply prefix_app_r|lia].
  - intros data timeout w w' r Hok E. cbn [raft_Apply sample_raft] in E. pose proof (sample_apply_cases data w Hok) as Hc. rewrite E in Hc.
    destruct Hc as [[_ Hc]|(f & x & [= ->] & Hn & Ha & El & Ef & Hok')]; [by destruct (Hc (Some r))|].
    exists (length (sn_log w)), (sn_fsm w), f. rewrite El, Ef. split_and!; [lia|lia| | |exact Ha].
    + by rewrite lookup_app_r, Nat.sub_diag by lia.
    + rewrite take_app_length. pose proof (so_fsm _ Hok) as Hs. by rewrite Hn, firstn_all in Hs.
  - intros timeout w Hok. cbn [raft_Barrier sample_raft]. unfold sample_barrier.
    destruct (Nat.eqb_spec (sn_fed w) (length (sn_log w))) as [Hn|]; cbn [andb negb]; [|by split_and!].
    destruct (small_log (sn_log w)) eqn:Hsm; cbn [negb]; [|by split_and!]. cbn [fst sn_log sn_fed].
    split_and!; [|by apply prefix_app_r|lia]. apply sample_grows; try done. apply fed_barrier.
  - intros timeout w w' idx Hok. cbn [raft_Barrier sample_raft]. unfold sample_barrier.
    destruct (Nat.eqb_spec (sn_fed w) (length (sn_log w))) as [Hn|]; cbn [andb negb]; [|done].
    destruct (small_log (sn_log w)) eqn:Hsm; cbn [negb]; [|done]. intros [= <- <-]. cbn [sn_fed]. lia.
Defined.

Definition w_node : Node :=
  MkNode (MkConfig "a" "ga" "ra" false EmptyString 1 0 false 1 1 false false false) None false false ∅ ∅ ∅ ∅ 0.
Definition w_ctx : call_ctx := MkCtx None (fun _ => None) None.

Lemma w_started : started [].
Proof. exists 0%nat. split; [exact w_world_state|]. split; [vm_compute; discriminate|vm_compute; discriminate]. Qed.

(** A leader with an empty log. *)
Definition w_leader : sample_node := MkSampleNode [] 0 0 sample_f0 Leader.

Lemma w_leader_ok : sample_ok w_leader.
Proof. split; [apply le_n|apply fed_start|vm_compute; discriminate|vm_compute; reflexivity]. Qed.

(** After a Put. *)
Definition w_put : sample_node * res bool := cluster_Put w_node 10 w_ctx w_leader (bs "k") (bs "v") 0.

Lemma w_put_pair : cluster_Put w_node 10 w_ctx w_leader (bs "k") (bs "v") 0 = (fst w_put, snd w_put).
Proof. fold w_put. apply surjective_pairing. Qed.

Lemma acknowledged_write_witness :
  snd w_put = Ok true ∧ ∃ i data, rf_log (fst w_put) !! i = Some (LogCommand data) ∧ DecodeCommand data = Ok (MkCmd OpPut (bs "k") (bs "v") ModeUpsert []).
Proof.
  assert (snd w_put = Ok true) as Er by (vm_compute; reflexivity). split; [exact Er|].
  destruct (acknowledged_write [] w_node 10 w_ctx w_leader (bs "k") (bs "v") 0 (fst w_put) (snd w_put) w_started w_leader_ok) as (_ & Hr & _).
  - exact w_put_pair.
  - destruct (Hr true Er) as (i & data & md & _ & Hl & Hmd & Hd & _). exists i, data. split; [exact Hl|]. injection Hmd as <-. exact Hd.
Defined.

Definition w_put_data : bytes := w_data (MkCmd OpPut (bs "k") (bs "v") ModeUpsert []).

Lemma w_put_applies : fst w_put = fst (sample_apply w_put_data w_leader).
Proof. vm_compute. reflexivity. Qed.

Lemma w_put_ok : sample_ok (fst w_put).
Proof. rewrite w_put_applies. exact (proj1 (rf_apply w_put_data 10 w_leader w_leader_ok)). Qed.

Definition w_get (w : sample_node) : sample_node * res bytes := cluster_Get 0 w_node w_ctx w CONSISTENCY_LINEARIZABLE (bs "k").

Lemma w_get_pair w : cluster_Get 0 w_node w_ctx w CONSISTENCY_LINEARIZABLE (bs "k") = (fst (w_get w), snd (w_get w)).
Proof. fold (w_get w). apply surjective_pairing. Qed.

Lemma linearizable_read_witness :
  snd (w_get (fst w_put)) = Ok (bs "v") ∧
  ∃ i, (1 ≤ i)%nat ∧ val_at (log_view [] (take i (rf_log (fst (w_get (fst w_put)))))) (bs "k") = Some (bs "v").
Proof.
  assert (snd (w_get (fst w_put)) = Ok (bs "v")) as Er by (vm_compute; reflexivity). split; [exact Er|].
  assert (length (rf_log (fst w_put)) = 1%nat) as El by (vm_compute; reflexivity).
  destruct (linearizable_read [] 0 w_node w_ctx (fst w_put) CONSISTENCY_LINEARIZABLE (bs "k") (fst (w_get (fst w_put))) (snd (w_get (fst w_put)))
    w_started w_put_ok) as (_ & Hr & _).
  - vm_compute. discriminate.
  - discriminate.
  - exact (w_get_pair (fst w_put)).
  - destruct (Hr _ Er) as (i & [Hi _] & Hv). rewrite El in Hi. exists i. split; [exact Hi|exact Hv].
Defined.

(** The no-op of the term is committed; the state machine was not handed it. *)
Definition w_new_term : sample_node := MkSampleNode [LogNoop] 1 1 sample_f0 Leader.

Lemma w_new_term_ok : sample_ok w_new_term.
Proof.
  split; [apply le_n| |vm_compute; discriminate|vm_compute; reflexivity].
  exact (fed_noop 0 sample_f0 [] sample_f0 (fed_start 0 sample_f0)).
Qed.

Lemma fence_unblocks_witness :
  snd (await_applied 0 w_ctx 1 w_new_term (raft_CommitIndex w_new_term)) = OutOfFuel ∧
  let w' := fenceAppliedIndex 10 true w_new_term in await_applied 0 w_ctx 1 w' (raft_CommitIndex w_new_term) = (w', Ok tt).
Proof.
  split; [vm_compute; reflexivity|].
  apply (fence_unblocks [] 10 w_new_term (fst (sample_barrier w_new_term)) 2 w_ctx 1 w_started w_new_term_ok); vm_compute; reflexivity.
Defined.

(** A leader that was just elected: the log holds a write that the leader before
    it acknowledged, and it does not know yet that the entry is committed. *)
Definition w_elected : sample_node := MkSampleNode [LogCommand w_put_data] 0 0 sample_f0 Leader.

Lemma w_elected_ok : sample_ok w_elected.
Proof. split; [apply Nat.le_0_l|apply fed_start|vm_compute; discriminate|vm_compute; reflexivity]. Qed.

(** The condition on the leader is needed: with every other law in force, a
    linearizable Get on a leader that has committed nothing in its term misses a
    write that was acknowledged before. *)
Lemma stale_after_election :
  rf_ok w_elected ∧ IsLeader w_elected = true ∧
  val_at (log_view [] (rf_log w_elected)) (bs "k") = Some (bs "v") ∧
  snd (w_get w_elected) = Err (status codes_NotFound "key not found").
Proof. split; [exact w_elected_ok|]. split; [reflexivity|]. split; vm_compute; reflexivity. Qed.
