(* ===== verification/Access.v ===== *)
(** * Interceptors, authentication and options of the gRPC servers:
      grpc/auth.go, grpc/interceptors.go, grpc/metrics.go, grpc/options.go

    A call runs through the interceptors that [buildConfig] chose, the first one
    outermost, and then through its handler.  What the interceptors add to a
    server is its log and its counters ([Server]); the state behind the handlers
    is a parameter. *)

From Stdlib Require Import ZArith Lia.
From Stdlib.Strings Require Import Byte Ascii String.
From stdpp Require Import base list numbers gmap strings.
From S2P Require Import Prelude GoLib File Service Membership ClusterService.

Open Scope Z_scope.

(** ** Callers *)

Record Certificate := MkCert { ce_CommonName : string; ce_DNSNames : list string }.

(** [peer.AuthInfo]: TLS, with the chains that were verified, or anything else. *)
Inductive AuthInfo := TLSInfo (VerifiedChains : list (list Certificate)) | OtherAuth.

(** What the context of a call says about its caller: the metadata it sent and
    the connection it came on. *)
Record Caller := MkCaller { ca_md : option (gmap string (list string)); ca_peer : option AuthInfo }.

(** ** Authentication *)

Definition clusterServicePrefix : string := "/pallasdb.v1.ClusterService/".
Definition authorizationMetadataKey : string := "authorization".

Record AuthConfig := MkAuth { au_token : string; au_peerAuth : bool; au_allowedNames : list string }.

(** [clone]; a nil pointer is [None]. *)
Definition auth_clone (a : option AuthConfig) : AuthConfig := default (MkAuth "" false []) a.

Definition withToken (a : option AuthConfig) (token : string) : AuthConfig :=
  let out := auth_clone a in MkAuth token (au_peerAuth out) (au_allowedNames out).

Definition withPeerNames (a : option AuthConfig) (names : list string) : AuthConfig :=
  let out := auth_clone a in MkAuth (au_token out) true (au_allowedNames out ++ names).

(** [strings.CutPrefix] *)
Fixpoint CutPrefix (s prefix : string) : option string :=
  match prefix, s with
  | EmptyString, _ => Some s
  | String c prefix, String c' s => if decide (c = c') then CutPrefix s prefix else None
  | String _ _, EmptyString => None
  end.

Definition HasPrefixS (s prefix : string) : bool := match CutPrefix s prefix with Some _ => true | None => false end.

Fixpoint first_bearer (values : list string) : string :=
  match values with
  | [] => ""
  | value :: values => match CutPrefix value "Bearer " with Some after => after | None => first_bearer values end
  end.

Definition tokenFromContext (ctx : Caller) : string :=
  match ca_md ctx with
  | None => ""
  | Some md => first_bearer (default [] (md !! authorizationMetadataKey))
  end.

Definition contains (l : list string) (x : string) : bool := bool_decide (x ∈ l).

Definition authenticatePeer (a : AuthConfig) (ctx : Caller) : res unit :=
  match ca_peer ctx with
  | None => Err (status codes_Unauthenticated "no peer information")
  | Some OtherAuth => Err (status codes_Unauthenticated "connection is not mutually authenticated")
  | Some (TLSInfo ((leaf :: _) :: _)) =>
      if (length (au_allowedNames a) =? 0)%nat then Ok tt else
      if contains (au_allowedNames a) (ce_CommonName leaf) then Ok tt else
      if existsb (contains (au_allowedNames a)) (ce_DNSNames leaf) then Ok tt else
      Err (status codes_PermissionDenied ("client " +:+ ce_CommonName leaf +:+ " is not allowed to manage cluster membership"))
  | Some (TLSInfo _) => Err (status codes_Unauthenticated "no verified client certificate")
  end.

(** [Authenticate]: the mechanisms in order, the last failure is reported. *)
Definition Authenticate (a : option AuthConfig) (ctx : Caller) : res unit :=
  match a with
  | None => Ok tt
  | Some a =>
      let presented := tokenFromContext ctx in
      let by_token : option (option error) :=
        if empty (au_token a) then Some None
        else if empty presented then Some (Some (status codes_Unauthenticated "missing authorization token"))
        else if bool_decide (presented = au_token a) then None
        else Some (Some (status codes_Unauthenticated "invalid authentication token")) in
      match by_token with
      | None => Ok tt
      | Some failure =>
          if au_peerAuth a then
            match authenticatePeer a ctx with Ok _ => Ok tt | r => r end
          else match failure with Some e => Err e | None => Ok tt end
      end
  end.

Definition guarded (fullMethod : string) : bool := HasPrefixS fullMethod clusterServicePrefix.

(** ** The server around the handlers *)

(** [status.Code] of a result. *)
Definition code_of {A} (r : res A) : Code := match r with Err e => status_Code e | _ => codes_OK end.

Definition rpc_labels : Type := (string * string * string).

#[export] Instance Code_countable : Countable Code.
Proof.
  refine (inj_countable' (fun c => match c with codes_OK => 0 | codes_Canceled => 1 | codes_Unknown => 2 | codes_InvalidArgument => 3
    | codes_DeadlineExceeded => 4 | codes_NotFound => 5 | codes_PermissionDenied => 6 | codes_Aborted => 7 | codes_Internal => 8
    | codes_Unavailable => 9 | codes_Unauthenticated => 10 end)%nat
    (fun n => match n with 0 => codes_OK | 1 => codes_Canceled | 2 => codes_Unknown | 3 => codes_InvalidArgument
    | 4 => codes_DeadlineExceeded | 5 => codes_NotFound | 6 => codes_PermissionDenied | 7 => codes_Aborted | 8 => codes_Internal
    | 9 => codes_Unavailable | _ => codes_Unauthenticated end)%nat _).
  by intros [].
Defined.

(** [type Metrics struct], the latencies left out. *)
Record Metrics := MkMetrics {
  me_started : gmap rpc_labels Z;
  me_handled : gmap (rpc_labels * Code) Z;
  me_inFlight : gmap rpc_labels Z;
}.

Inductive LogLine :=
  | LogRequest (method : string) (code : Code)
  | LogPanic (method : string).

Record Server (W : Type) := MkServer { sv_log : list LogLine; sv_metrics : Metrics; sv_app : W }.
Arguments MkServer {W} sv_log sv_metrics sv_app.
Arguments sv_log {W} s.
Arguments sv_metrics {W} s.
Arguments sv_app {W} s.

Definition counter_add {K} `{Countable K} (m : gmap K Z) (k : K) (n : Z) : gmap K Z := <[k := default 0 (m !! k) + n]> m.

(** [splitMethod] *)
Fixpoint cut_slash (s : string) : option (string * string) :=
  match s with
  | EmptyString => None
  | String c s => if decide (c = "/"%char) then Some (EmptyString, s)
                  else '(a, b) ← cut_slash s; Some (String c a, b)
  end.

Definition TrimPrefix (s prefix : string) : string := default s (CutPrefix s prefix).

Definition splitMethod (fullMethod : string) : string * string :=
  let trimmed := TrimPrefix fullMethod "/" in
  default (trimmed, EmptyString) (cut_slash trimmed).

Definition streamType (IsServerStream IsClientStream : bool) : string :=
  if IsServerStream && IsClientStream then "bidi_stream" else if IsClientStream then "client_stream" else "server_stream".

(** A call: its method, its type ("unary" or a [streamType]) and its caller. *)
Record RPC := MkRPC { rpc_FullMethod : string; rpc_type : string; rpc_caller : Caller }.

Definition labels_of (rpc : RPC) : rpc_labels := (splitMethod (rpc_FullMethod rpc), rpc_type rpc).

(** [begin] and the function it returns. *)
Definition metrics_begin (m : Metrics) (rpc : RPC) : Metrics :=
  MkMetrics (counter_add (me_started m) (labels_of rpc) 1) (me_handled m) (counter_add (me_inFlight m) (labels_of rpc) 1).

Definition metrics_done (m : Metrics) (rpc : RPC) (code : Code) : Metrics :=
  MkMetrics (me_started m) (counter_add (me_handled m) (labels_of rpc, code) 1) (counter_add (me_inFlight m) (labels_of rpc) (-1)).

(** ** Interceptors *)

Section interceptors.
Context {W A : Type}.

Definition Handler : Type := Server W → Server W * res A.

Definition add_log (s : Server W) (l : LogLine) : Server W := MkServer (sv_log s ++ [l]) (sv_metrics s) (sv_app s).
Definition set_metrics (s : Server W) (m : Metrics) : Server W := MkServer (sv_log s) m (sv_app s).

(** A panic passes through an interceptor that does not recover. *)
Definition after (s : Server W) (r : res A) (f : Server W → Server W) : Server W * res A :=
  match r with Ok _ | Err _ => (f s, r) | _ => (s, r) end.

Definition recoveredError (s : Server W) (method : string) : Server W * res A :=
  (add_log s (LogPanic method), Err (status codes_Internal ("internal error handling " +:+ method))).

Definition RecoveryInterceptor (rpc : RPC) (handler : Handler) : Handler := fun s =>
  match handler s with
  | (s, Panic _) => recoveredError s (rpc_FullMethod rpc)
  | r => r
  end.

Definition LoggingInterceptor (rpc : RPC) (handler : Handler) : Handler := fun s =>
  let (s, r) := handler s in
  after s r (fun s => add_log s (LogRequest (rpc_FullMethod rpc) (code_of r))).

Definition MetricsInterceptor (rpc : RPC) (handler : Handler) : Handler := fun s =>
  let s := set_metrics s (metrics_begin (sv_metrics s) rpc) in
  let (s, r) := handler s in
  after s r (fun s => set_metrics s (metrics_done (sv_metrics s) rpc (code_of r))).

Definition AuthInterceptor (a : AuthConfig) (rpc : RPC) (handler : Handler) : Handler := fun s =>
  if guarded (rpc_FullMethod rpc) then
    match Authenticate (Some a) (rpc_caller rpc) with
    | Ok _ => handler s
    | Err e => (s, Err e)
    | Panic m => (s, Panic m)
    | OutOfFuel => (s, OutOfFuel)
    end
  else handler s.

End interceptors.

(** ** Options *)

Definition DefaultMaxRecvMsgSize : Z := Z.shiftl 16 20.
Definition DefaultMaxSendMsgSize : Z := Z.shiftl 16 20.
Definition DefaultMaxConcurrentStreams : Z := 1024.
Definition DefaultRangeLimit : Z := 10000.
(** Durations in nanoseconds. *)
Definition second : Z := 1000000000.
Definition DefaultRangeMaxDuration : Z := 30 * second.
Definition defaultKeepaliveMinTime : Z := 20 * second.
Definition defaultKeepalivePing : Z := 30 * second.
Definition defaultKeepaliveTimeout : Z := 10 * second.

Record EnforcementPolicy := MkEnforcement { ep_MinTime : Z; ep_PermitWithoutStream : bool }.
Record ServerParameters := MkParameters { kp_Time : Z; kp_Timeout : Z }.

(** Transport credentials: built from certificates, or [failClosedCredentials],
    which reject every handshake with the error. *)
Inductive TransportCredentials := TransportCreds (name : string) | failClosedCredentials (e : error).

(** [type serverConfig struct]; a context is its name, a logger, metrics and an
    executor are present or not. *)
Record serverConfig := MkServerConfig {
  sc_ctx : string; sc_logger : bool; sc_recovery : bool; sc_reflection : bool; sc_creds : option TransportCredentials; sc_auth : option AuthConfig;
  sc_metrics : bool; sc_sql : bool; sc_maxRecvMsgSize : Z; sc_maxSendMsgSize : Z; sc_maxConcurrentStreams : Z;
  sc_enforcement : EnforcementPolicy; sc_keepalive : ServerParameters; sc_ranges : rangeLimits }.

Definition defaultConfig : serverConfig :=
  MkServerConfig "background" false true false None None false false DefaultMaxRecvMsgSize DefaultMaxSendMsgSize DefaultMaxConcurrentStreams
    (MkEnforcement defaultKeepaliveMinTime true) (MkParameters defaultKeepalivePing defaultKeepaliveTimeout)
    (MkLimits DefaultRangeLimit DefaultRangeMaxDuration).

(** The options, by their constructors: [WithTLS] carries what
    [TLSConfig.Credentials] returned, [WithContext None] a nil context; [RawOption] is any other
    [grpc.ServerOption], [NilOption] an Option without a function. *)
Inductive ServerOption :=
  | WithContext (ctx : option string) | WithTLS (credentials : res string) | WithLogger (present : bool) | WithRecovery (enabled : bool) | WithReflection | WithCredentials (creds : option TransportCredentials)
  | WithAuthToken (token : string) | WithMTLSAuth (allowedNames : list string) | WithMetrics (present : bool) | WithSQL (present : bool)
  | WithMessageSize (recv send : Z) | WithMaxConcurrentStreams (n : Z)
  | WithKeepalivePolicy (enforcement : EnforcementPolicy) (params : ServerParameters)
  | WithRangeBounds (limit maxDuration : Z) | NilOption | RawOption (name : string).

Definition apply_option (c : serverConfig) (o : ServerOption) : serverConfig :=
  let '(MkServerConfig cx lg rc rf cr au me sq mr ms mc en ka ra) := c in
  match o with
  | WithContext ctx => MkServerConfig (default cx ctx) lg rc rf cr au me sq mr ms mc en ka ra
  | WithTLS (Ok creds) => MkServerConfig cx lg rc rf (Some (TransportCreds creds)) au me sq mr ms mc en ka ra
  | WithTLS (Err e) => MkServerConfig cx lg rc rf (Some (failClosedCredentials e)) au me sq mr ms mc en ka ra
  | WithLogger b => MkServerConfig cx b rc rf cr au me sq mr ms mc en ka ra
  | WithRecovery b => MkServerConfig cx lg b rf cr au me sq mr ms mc en ka ra
  | WithReflection => MkServerConfig cx lg rc true cr au me sq mr ms mc en ka ra
  | WithCredentials creds => MkServerConfig cx lg rc rf creds au me sq mr ms mc en ka ra
  | WithAuthToken token => MkServerConfig cx lg rc rf cr (Some (withToken au token)) me sq mr ms mc en ka ra
  | WithMTLSAuth names => MkServerConfig cx lg rc rf cr (Some (withPeerNames au names)) me sq mr ms mc en ka ra
  | WithMetrics b => MkServerConfig cx lg rc rf cr au b sq mr ms mc en ka ra
  | WithSQL b => MkServerConfig cx lg rc rf cr au me b mr ms mc en ka ra
  | WithMessageSize r s => MkServerConfig cx lg rc rf cr au me sq r s mc en ka ra
  | WithMaxConcurrentStreams n => MkServerConfig cx lg rc rf cr au me sq mr ms n en ka ra
  | WithKeepalivePolicy e p => MkServerConfig cx lg rc rf cr au me sq mr ms mc e p ra
  | WithRangeBounds l d => MkServerConfig cx lg rc rf cr au me sq mr ms mc en ka (MkLimits l d)
  | WithTLS _ | NilOption | RawOption _ => c
  end.

Inductive InterceptorKind := KLogging | KMetrics | KAuth (a : AuthConfig) | KRecovery.

(** The [grpc.ServerOption]s a server is built with, in order. *)
Inductive GrpcOption :=
  | MaxRecvMsgSize (n : Z) | MaxSendMsgSize (n : Z) | MaxConcurrentStreams (n : Z)
  | KeepaliveEnforcementPolicy (e : EnforcementPolicy) | KeepaliveParams (p : ServerParameters) | Creds (c : TransportCredentials)
  | ChainUnaryInterceptor (ks : list InterceptorKind) | ChainStreamInterceptor (ks : list InterceptorKind) | Passthrough (name : string).

(** The interceptors of a configuration; unary and streaming calls have the
    same. *)
Definition interceptors (c : serverConfig) : list InterceptorKind :=
  (if sc_logger c then [KLogging] else []) ++ (if sc_metrics c then [KMetrics] else []) ++
  (match sc_auth c with Some a => [KAuth a] | None => [] end) ++ (if sc_recovery c then [KRecovery] else []).

Definition passthrough (o : ServerOption) : list GrpcOption := match o with RawOption name => [Passthrough name] | _ => [] end.

Definition buildConfig (opts : list ServerOption) : serverConfig * list GrpcOption :=
  let cfg := foldl apply_option defaultConfig opts in
  let built := [MaxRecvMsgSize (sc_maxRecvMsgSize cfg); MaxSendMsgSize (sc_maxSendMsgSize cfg);
                MaxConcurrentStreams (sc_maxConcurrentStreams cfg); KeepaliveEnforcementPolicy (sc_enforcement cfg);
                KeepaliveParams (sc_keepalive cfg)] in
  let built := built ++ match sc_creds cfg with Some c => [Creds c] | None => [] end in
  let built := built ++ match interceptors cfg with [] => [] | ks => [ChainUnaryInterceptor ks; ChainStreamInterceptor ks] end in
  (cfg, built ++ mjoin (map passthrough opts)).

(** ** Serving a call *)

Section serve.
Context {W A : Type}.

Definition run_interceptor (k : InterceptorKind) (rpc : RPC) (handler : Handler (W := W) (A := A)) : Handler :=
  match k with
  | KLogging => LoggingInterceptor rpc handler
  | KMetrics => MetricsInterceptor rpc handler
  | KAuth a => AuthInterceptor a rpc handler
  | KRecovery => RecoveryInterceptor rpc handler
  end.

(** [grpc.ChainUnaryInterceptor]: the first is the outermost. *)
Definition chain (ks : list InterceptorKind) (rpc : RPC) (handler : Handler) : Handler :=
  foldr (fun k h => run_interceptor k rpc h) handler ks.

(** A handler works on the state behind the server. *)
Definition lift (h : W → W * res A) : Handler := fun s => let (w, r) := h (sv_app s) in (MkServer (sv_log s) (sv_metrics s) w, r).

Definition serve (cfg : serverConfig) (rpc : RPC) (h : W → W * res A) : Handler := chain (interceptors cfg) rpc (lift h).

End serve.

(** ** Who may call what *)

(** A mechanism is configured. *)
Definition mechanism (a : AuthConfig) : Prop := au_token a ≠ "" ∨ au_peerAuth a = true.

(** The caller presents the token, or came with a verified certificate whose
    name is allowed. *)
Definition token_accepted (a : AuthConfig) (ctx : Caller) : Prop := au_token a ≠ "" ∧ tokenFromContext ctx = au_token a.

Definition certificate_accepted (a : AuthConfig) (ctx : Caller) : Prop :=
  au_peerAuth a = true ∧ ∃ leaf rest chains, ca_peer ctx = Some (TLSInfo ((leaf :: rest) :: chains)) ∧
    (au_allowedNames a = [] ∨ ce_CommonName leaf ∈ au_allowedNames a ∨ ∃ name, name ∈ ce_DNSNames leaf ∧ name ∈ au_allowedNames a).

Definition authorised (a : AuthConfig) (ctx : Caller) : Prop := token_accepted a ctx ∨ certificate_accepted a ctx.

Definition denial (e : error) : Prop := status_Code e = codes_Unauthenticated ∨ status_Code e = codes_PermissionDenied.

Lemma authenticatePeer_spec a ctx : au_peerAuth a = true →
  (authenticatePeer a ctx = Ok tt ∧ certificate_accepted a ctx) ∨
  (∃ e, authenticatePeer a ctx = Err e ∧ denial e ∧ ¬ certificate_accepted a ctx).
Proof.
  intros Hp. unfold authenticatePeer, certificate_accepted, denial.
  destruct (ca_peer ctx) as [[[|[|leaf rest] chains]|]|] eqn:E;
    try (right; eexists; split; [done|]; split; [by left|]; intros (_ & l & r & c & [=] & _)).
  destruct (Nat.eqb_spec (length (au_allowedNames a)) 0) as [Hz|Hz].
  { left. split; [done|]. split; [done|]. exists leaf, rest, chains. split; [done|]. left. by apply nil_length_inv. }
  destruct (contains (au_allowedNames a) (ce_CommonName leaf)) eqn:Ec; [apply bool_decide_eq_true in Ec|apply bool_decide_eq_false in Ec].
  { left. split; [done|]. split; [done|]. exists leaf, rest, chains. auto. }
  destruct (existsb (contains (au_allowedNames a)) (ce_DNSNames leaf)) eqn:Ed.
  - left. split; [done|]. split; [done|]. exists leaf, rest, chains. split; [done|]. right; right.
    apply existsb_exists in Ed as (n & Hn & Hb). apply bool_decide_eq_true in Hb. exists n. by rewrite list_elem_of_In.
  - right. eexists. split; [done|]. split; [by right|]. intros (_ & l & r & c & [= <- <- <-] & [Hx|[Hx|(n & Hn & Hx)]]); [by rewrite Hx in Hz|done|].
    apply not_true_iff_false in Ed. apply Ed, existsb_exists. exists n. rewrite <- list_elem_of_In. split; [done|]. by apply bool_decide_eq_true.
Qed.

Lemma Authenticate_spec a ctx : mechanism a →
  (Authenticate (Some a) ctx = Ok tt ∧ authorised a ctx) ∨ (∃ e, Authenticate (Some a) ctx = Err e ∧ denial e ∧ ¬ authorised a ctx).
Proof.
  intros Hm. unfold Authenticate, authorised, token_accepted, empty.
  destruct (bool_decide_reflect (au_token a = EmptyString)) as [Ht|Ht].
  - assert (au_peerAuth a = true) as Hp by (destruct Hm; [done|done]). rewrite Hp.
    destruct (authenticatePeer_spec a ctx Hp) as [[-> Hc]|(e & -> & He & Hc)]; [by left; auto|].
    right. exists e. split; [done|]. split; [done|]. intros [[? _]|?]; done.
  - assert (∀ e, denial e → tokenFromContext ctx ≠ au_token a →
      (match (if au_peerAuth a then match authenticatePeer a ctx with Ok _ => Ok tt | r => r end else Err e) with r => r end = Ok tt ∧
         (au_token a ≠ "" ∧ tokenFromContext ctx = au_token a ∨ certificate_accepted a ctx)) ∨
      (∃ e0, (if au_peerAuth a then match authenticatePeer a ctx with Ok _ => Ok tt | r => r end else Err e) = Err e0 ∧ denial e0 ∧
         ¬ (au_token a ≠ "" ∧ tokenFromContext ctx = au_token a ∨ certificate_accepted a ctx))) as Hother.
    { intros e He Hne. destruct (au_peerAuth a) eqn:Hp.
      - destruct (authenticatePeer_spec a ctx Hp) as [[-> Hc]|(e0 & -> & He0 & Hc)]; [by left; auto|].
        right. exists e0. split; [done|]. split; [done|]. intros [[_ ?]|?]; done.
      - right. exists e. split; [done|]. split; [done|]. intros [[_ ?]|[? _]]; congruence. }
    destruct (bool_decide_reflect (tokenFromContext ctx = EmptyString)) as [Hx|Hx].
    + apply Hother; [by left|]. rewrite Hx. congruence.
    + destruct (bool_decide_reflect (tokenFromContext ctx = au_token a)) as [Hy|Hy]; [left; auto|]. apply Hother; [by left|done].
Qed.

Section calls.
Context {W A : Type}.

(** What the caller sees of a result: panics are recovered or not. *)
Definition recovered_result (cfg : serverConfig) (rpc : RPC) (r : res A) : res A :=
  match r with
  | Panic m => if sc_recovery cfg then Err (status codes_Internal ("internal error handling " +:+ rpc_FullMethod rpc)) else Panic m
  | _ => r
  end.

(** The interceptors outside of [AuthInterceptor] change neither the state
    behind the server nor the result. *)
Lemma outer_transparent (lg me : bool) rpc (h : Handler (W := W) (A := A)) s :
  let k := (if lg then [KLogging] else []) ++ (if me then [KMetrics] else []) in
  snd (chain k rpc h s) = snd (h (if me then set_metrics s (metrics_begin (sv_metrics s) rpc) else s)) ∧
  sv_app (fst (chain k rpc h s)) = sv_app (fst (h (if me then set_metrics s (metrics_begin (sv_metrics s) rpc) else s))).
Proof.
  destruct lg, me; cbn [app chain foldr run_interceptor]; unfold LoggingInterceptor, MetricsInterceptor, after; cbv zeta;
    destruct (h _) as [s' [| | |]]; done.
Qed.

Lemma chain_app k1 k2 rpc (h : Handler (W := W) (A := A)) : chain (k1 ++ k2) rpc h = chain k1 rpc (chain k2 rpc h).
Proof. unfold chain. by rewrite foldr_app. Qed.

(** The inner part of the chain: authentication, recovery, handler. *)
Definition inner (cfg : serverConfig) : list InterceptorKind :=
  (match sc_auth cfg with Some a => [KAuth a] | None => [] end) ++ (if sc_recovery cfg then [KRecovery] else []).

Lemma recovery_spec cfg rpc (h : W → W * res A) s :
  let r := chain (if sc_recovery cfg then [KRecovery] else []) rpc (lift h) s in
  snd r = recovered_result cfg rpc (snd (h (sv_app s))) ∧ sv_app (fst r) = fst (h (sv_app s)).
Proof.
  unfold recovered_result. destruct (sc_recovery cfg); cbn [chain foldr run_interceptor]; unfold RecoveryInterceptor, lift;
    destruct (h (sv_app s)) as [w [| | |]]; done.
Qed.

Lemma serve_split cfg rpc (h : W → W * res A) s : ∃ s1, sv_app s1 = sv_app s ∧
  snd (serve cfg rpc h s) = snd (chain (inner cfg) rpc (lift h) s1) ∧
  sv_app (fst (serve cfg rpc h s)) = sv_app (fst (chain (inner cfg) rpc (lift h) s1)).
Proof.
  unfold serve, interceptors. rewrite (assoc_L (++)), chain_app.
  destruct (outer_transparent (sc_logger cfg) (sc_metrics cfg) rpc (chain (inner cfg) rpc (lift h)) s) as [H1 H2].
  eexists. split; [|split; [exact H1|exact H2]]. by destruct (sc_metrics cfg).
Qed.

(** The gauge of the calls in flight. *)
Definition in_flight (s : Server W) (l : rpc_labels) : Z := default 0 (me_inFlight (sv_metrics s) !! l).

Lemma counter_add_cancel (m : gmap rpc_labels Z) k l : default 0 (counter_add (counter_add m k 1) k (-1) !! l) = default 0 (m !! l).
Proof. unfold counter_add. destruct (decide (l = k)) as [->|Hne]; simplify_map_eq; [lia|done]. Qed.

(** The inner part of the chain touches no counter. *)
Lemma inner_metrics cfg rpc (h : W → W * res A) s : sv_metrics (fst (chain (inner cfg) rpc (lift h) s)) = sv_metrics s.
Proof.
  unfold inner. destruct (sc_auth cfg) as [a|], (sc_recovery cfg); cbn [app chain foldr run_interceptor];
    unfold AuthInterceptor, RecoveryInterceptor, lift; repeat case_match; simplify_eq/=; done.
Qed.

(** A result that came back: a value or an error. *)
Definition came_back (r : res A) : Prop := match r with Ok _ | Err _ => True | _ => False end.

Lemma Authenticate_total a ctx : match Authenticate a ctx with Ok _ | Err _ => True | _ => False end.
Proof. destruct a as [a|]; unfold Authenticate, authenticatePeer; by repeat case_match. Qed.

(** With recovery no panic reaches the outer interceptors. *)
Lemma inner_returns cfg rpc (h : W → W * res A) s :
  sc_recovery cfg = true → snd (h (sv_app s)) ≠ OutOfFuel → came_back (snd (chain (inner cfg) rpc (lift h) s)).
Proof.
  unfold inner, came_back. intros -> Hh.
  assert (∀ k, match snd (RecoveryInterceptor rpc (lift h) s) with Ok _ | Err _ => True | _ => k end) as Hr.
  { unfold RecoveryInterceptor, recoveredError, lift. by destruct (h (sv_app s)) as [w [| | |]]. }
  destruct (sc_auth cfg) as [a|]; cbn [app chain foldr run_interceptor]; [|apply (Hr False)].
  unfold AuthInterceptor. pose proof (Authenticate_total (Some a) (rpc_caller rpc)) as Ht.
  destruct (guarded _); [|apply (Hr False)]. by destruct (Authenticate _ _); [apply (Hr False)|..].
Qed.

End calls.

(** ** Theorems *)

(** C21: A cluster management call is served to authorised callers only, whatever
    the options the server was built with: when a mechanism is configured (a
    token, or client certificates, [mechanism]) a guarded call of a caller who
    neither presents the token nor came with a verified certificate of an
    allowed name never reaches its handler - the state behind the server is
    unchanged and the error is a denial; an authorised caller gets exactly the
    handler's effect and its result, a panic turned into an Internal error when
    recovery is on. *)
Theorem guarded_access {W A} (opts : list ServerOption) (a : AuthConfig) (rpc : RPC) (h : W → W * res A) (s : Server W) :
  let cfg := fst (buildConfig opts) in
  sc_auth cfg = Some a → mechanism a → guarded (rpc_FullMethod rpc) = true →
  let (s', r) := serve cfg rpc h s in
  (authorised a (rpc_caller rpc) → sv_app s' = fst (h (sv_app s)) ∧ r = recovered_result cfg rpc (snd (h (sv_app s)))) ∧
  (¬ authorised a (rpc_caller rpc) → sv_app s' = sv_app s ∧ ∃ e, r = Err e ∧ denial e).
Proof.
  intros cfg Ha Hm Hg. destruct (serve cfg rpc h s) as [s' r] eqn:Es.
  destruct (serve_split cfg rpc h s) as (s1 & Happ & Hr & Hs). rewrite Es in Hr, Hs. cbn [fst snd] in Hr, Hs.
  unfold inner in Hr, Hs. rewrite Ha in Hr, Hs. rewrite chain_app in Hr, Hs.
  cbn [chain foldr run_interceptor] in Hr, Hs. unfold AuthInterceptor in Hr, Hs. rewrite Hg in Hr, Hs.
  fold (chain (if sc_recovery cfg then [KRecovery] else []) rpc (lift h)) in Hr, Hs.
  destruct (Authenticate_spec a (rpc_caller rpc) Hm) as [[He Hauth]|(e & He & Hd & Hna)]; rewrite He in Hr, Hs.
  - split; [intros _|done]. destruct (recovery_spec cfg rpc h s1) as [H1 H2]. rewrite Hs, Hr, <- Happ. auto.
  - split; [done|intros _]. cbn [fst snd] in Hr, Hs. rewrite Hs. eauto.
Qed.

(** The metrics of a server that recovers panics balance: whatever a call's
    handler does - it returns, fails or panics - no panic escapes the server and
    the gauge of calls in flight is what it was before the call. *)
Theorem calls_balanced {W A} (cfg : serverConfig) (rpc : RPC) (h : W → W * res A) (s : Server W) l :
  sc_recovery cfg = true → snd (h (sv_app s)) ≠ OutOfFuel →
  let (s', r) := serve cfg rpc h s in in_flight s' l = in_flight s l ∧ came_back r.
Proof.
  intros Hrec Hh. unfold serve, interceptors. rewrite (assoc_L (++)), chain_app. fold (inner cfg).
  assert (∀ s1, sv_app s1 = sv_app s → came_back (snd (chain (inner cfg) rpc (lift h) s1))) as Hr
    by (intros s1 Hs1; apply inner_returns; [done|by rewrite Hs1]).
  assert (∀ s1 s2 r, chain (inner cfg) rpc (lift h) s1 = (s2, r) → sv_metrics s2 = sv_metrics s1) as Hi
    by (intros s1 s2 r E; by rewrite <- (inner_metrics cfg rpc h s1), E).
  destruct (sc_logger cfg), (sc_metrics cfg); cbn [app chain foldr run_interceptor];
    unfold LoggingInterceptor, MetricsInterceptor, after; fold (chain (inner cfg) rpc (lift h)).
  all: destruct (chain (inner cfg) rpc (lift h) _) as [s2 r] eqn:E.
  all: match type of E with chain _ _ _ ?s1 = _ => specialize (Hr s1 eq_refl); rewrite E in Hr end; apply Hi in E.
  all: destruct r; try done; unfold in_flight; cbn [fst snd sv_metrics add_log set_metrics]; rewrite E; split; try done.
  all: apply counter_add_cancel.
Qed.

(** ** Samples *)

Definition w_opts : list ServerOption := [WithLogger true; WithMTLSAuth ["node-b"]; WithMetrics true; RawOption "x"; WithAuthToken "s3cret"].
Definition w_auth : AuthConfig := MkAuth "s3cret" true ["node-b"].
Definition w_stranger : RPC :=
  MkRPC "/pallasdb.v1.ClusterService/Join" "unary" (MkCaller (Some {["authorization" := ["Bearer guess"]]}) (Some (TLSInfo [[MkCert "node-c" ["c.local"]]]))).
Definition w_server : Server nat := MkServer [] (MkMetrics ∅ ∅ ∅) 7%nat.
Definition w_handler (w : nat) : nat * res unit := (S w, Panic "boom").

Lemma w_stranger_denied : ¬ authorised w_auth (rpc_caller w_stranger).
Proof.
  assert (mechanism w_auth) as Hm by (right; reflexivity).
  destruct (Authenticate_spec w_auth (rpc_caller w_stranger) Hm) as [[H _]|(e & _ & _ & H)]; [|exact H].
  vm_compute in H. discriminate H.
Qed.

(** The stranger's Join is refused, logged and counted, and its handler never
    ran. *)
Lemma guarded_access_witness :
  sc_auth (fst (buildConfig w_opts)) = Some w_auth ∧
  (let (s', r) := serve (fst (buildConfig w_opts)) w_stranger w_handler w_server in
   (authorised w_auth (rpc_caller w_stranger) → sv_app s' = fst (w_handler (sv_app w_server)) ∧
      r = recovered_result (fst (buildConfig w_opts)) w_stranger (snd (w_handler (sv_app w_server)))) ∧
   (¬ authorised w_auth (rpc_caller w_stranger) → sv_app s' = sv_app w_server ∧ ∃ e, r = Err e ∧ denial e)) ∧
  ¬ authorised w_auth (rpc_caller w_stranger).
Proof.
  split; [reflexivity|]. split; [|exact w_stranger_denied].
  apply (guarded_access w_opts w_auth w_stranger w_handler w_server); [reflexivity|right; reflexivity|reflexivity].
Defined.

Lemma calls_balanced_witness : in_flight (fst (serve defaultConfig w_stranger w_handler w_server)) (labels_of w_stranger) = 0 ∧
  came_back (snd (serve defaultConfig w_stranger w_handler w_server)).
Proof.
  apply (calls_balanced defaultConfig w_stranger w_handler w_server (labels_of w_stranger)); [reflexivity|discriminate].
Defined.

(** An empty token configures no mechanism, but installs the interceptor: every
    caller is accepted. *)
Lemma empty_token_open ctx : sc_auth (fst (buildConfig [WithAuthToken ""])) = Some (MkAuth "" false []) ∧
  Authenticate (sc_auth (fst (buildConfig [WithAuthToken ""]))) ctx = Ok tt.
Proof. by split. Qed.
