(* ===== verification/Cli.v ===== *)
(** * The command line: cmd/pallasdb/cluster.go, config.go, serve.go, root.go, sql.go

    From settings to the configuration of a node and of its store, and the
    interactive SQL session.  Flags, files and the decoding of settings are
    cobra's and viper's: a command starts from the resolved values. *)

From Stdlib Require Import ZArith Lia.
From Stdlib.Strings Require Import Byte Ascii String.
From stdpp Require Import base list numbers strings.
From S2P Require Import Prelude GoLib SortedSeq KV KVCompact Cache Membership.

Open Scope Z_scope.

(** ** Settings *)

Record CacheConfig := MkCacheConfig { cc_Enabled : bool; cc_MaxCostBytes : Z; cc_NumCounters : Z }.

(** [SerfConfig] and [ClusterTLSConfig], parts of [ClusterConfig]. *)
Record SerfConfig := MkSerfConfig {
  se_Enabled : bool; se_Addr : string; se_AdvertiseAddr : string; se_Join : list string; se_EventBuffer : Z; se_EncryptKey : string }.

Record ClusterTLSConfig := MkClusterTLS {
  ct_CertFile : string; ct_KeyFile : string; ct_ClientCAFile : string; ct_RequireClientCert : bool; ct_MinVersion : string }.

Record ClusterConfig := MkClusterConfig {
  cl_GRPCAddr : string; cl_DataDir : string; cl_RaftAddr : string; cl_RaftDir : string; cl_NodeID : string; cl_Join : string;
  cl_ApplyTimeout : Z; cl_BootstrapExpect : Z; cl_NonVoter : bool; cl_LeaveOnShutdown : bool; cl_FailureGracePeriod : Z;
  cl_AutoCompact : bool; cl_Serf : SerfConfig; cl_TLS : ClusterTLSConfig }.

Record clusterStartOptions := MkStart {
  so_grpcAddr : string; so_dataDir : string; so_raftAddr : string; so_raftDir : string; so_nodeID : string; so_joinAddr : string;
  so_applyTimeout : Z; so_bootstrapExpect : Z; so_autoCompact : bool; so_nonVoter : bool; so_leaveOnShutdown : bool;
  so_failureGracePeriod : Z; so_serfEnabled : bool; so_serfAddr : string; so_serfAdvertiseAddr : string; so_serfJoinAddrs : list string;
  so_serfEventBuffer : Z; so_serfEncryptKey : string; so_tlsCertFile : string; so_tlsKeyFile : string; so_tlsClientCAFile : string;
  so_tlsRequireClientCert : bool; so_tlsMinVersion : string }.

(** The hook of [newClusterStartCommand] that copies the resolved settings [v]
    into the options; [autoCompact] is not among them. *)
Definition apply_settings (v : ClusterConfig) (opts : clusterStartOptions) : clusterStartOptions :=
  MkStart (cl_GRPCAddr v) (cl_DataDir v) (cl_RaftAddr v) (cl_RaftDir v) (cl_NodeID v) (cl_Join v)
    (cl_ApplyTimeout v) (cl_BootstrapExpect v) (so_autoCompact opts) (cl_NonVoter v) (cl_LeaveOnShutdown v)
    (cl_FailureGracePeriod v) (se_Enabled (cl_Serf v)) (se_Addr (cl_Serf v)) (se_AdvertiseAddr (cl_Serf v)) (se_Join (cl_Serf v))
    (se_EventBuffer (cl_Serf v)) (se_EncryptKey (cl_Serf v)) (ct_CertFile (cl_TLS v)) (ct_KeyFile (cl_TLS v)) (ct_ClientCAFile (cl_TLS v))
    (ct_RequireClientCert (cl_TLS v)) (ct_MinVersion (cl_TLS v)).

(** *** Checks *)

(** [errors.Join]: the errors of a list, if it has any. *)
Definition joinErrors (errs : list (res unit)) : res unit :=
  match mjoin (map (fun r => match r with Err e => [e] | _ => [] end) errs) with
  | [] => Ok tt
  | [e] => Err e
  | e :: es => Err (errorsNew (String.concat (String "010" EmptyString) (map (fun e => match e with errorsNew m => m | _ => EmptyString end) (e :: es))))
  end.

Definition requirePositiveDuration (name : string) (d : Z) : res unit :=
  if d <=? 0 then Err (errorsNew (name +:+ " must be positive")) else Ok tt.

Definition requirePositiveInt (name : string) (n : Z) : res unit :=
  if n <=? 0 then Err (errorsNew (name +:+ " must be positive")) else Ok tt.

Definition requireNonEmptyFlag (name value : string) : res unit :=
  if empty value then Err (errorsNew ("--" +:+ name +:+ " is required")) else Ok tt.

Definition validateBootstrapExpect (opts : clusterStartOptions) : res unit :=
  if so_bootstrapExpect opts <? 1 then Err (errorsNew "--bootstrap-expect must be at least 1") else
  if (2 <=? so_bootstrapExpect opts) && negb (so_serfEnabled opts) then Err (errorsNew "--bootstrap-expect requires --serf-enabled") else
  if (2 <=? so_bootstrapExpect opts) && negb (empty (so_joinAddr opts))
  then Err (errorsNew "--bootstrap-expect and --join are mutually exclusive") else Ok tt.

Definition validateClusterStartOptions (shutdownTimeout : Z) (opts : clusterStartOptions) : res unit :=
  joinErrors [requireNonEmptyFlag "node-id" (so_nodeID opts);
              requirePositiveDuration "--apply-timeout" (so_applyTimeout opts);
              requirePositiveDuration "--shutdown-timeout" shutdownTimeout;
              requirePositiveInt "--serf-event-buffer" (so_serfEventBuffer opts);
              validateBootstrapExpect opts].

Definition cache_validate (c : CacheConfig) : res unit :=
  if negb (cc_Enabled c) then Ok tt else
  joinErrors
    [if cc_MaxCostBytes c <=? 0 then Err (errorsNew "cache.max_cost_bytes must be positive when cache.enabled is true") else Ok tt;
     if cc_NumCounters c <=? 0 then Err (errorsNew "cache.num_counters must be positive when cache.enabled is true") else Ok tt;
     if (0 <? cc_MaxCostBytes c) && (cc_MaxCostBytes c <? cc_NumCounters c)
     then Err (errorsNew "cache.num_counters must not exceed cache.max_cost_bytes; counters should be ~10x the expected item count") else Ok tt].

(** *** Options of the store *)

Definition kvOptsFromViper (v : CacheConfig) : list KVOption :=
  if negb (cc_Enabled v) then [] else [WithCache (cc_MaxCostBytes v) (cc_NumCounters v)].

Definition clusterKVOptions (opts : clusterStartOptions) (v : CacheConfig) : list KVOption :=
  WithAutoCompact (so_autoCompact opts) :: kvOptsFromViper v.

(** The loop of [NewKV] over its options, from the zero options. *)
Definition resolve_options (opts : list KVOption) : res Settings :=
  foldM (fun options (opt : KVOption) => opt options) (MkSettings (MkOptions 0 0 (f32_of_Z 0)) false false 0 0) opts.

(** *** How a node enters a cluster *)

Definition shouldBootstrapCluster (opts : clusterStartOptions) : bool :=
  if negb (empty (so_joinAddr opts)) then false else
  if so_nonVoter opts then false else
  if 2 <=? so_bootstrapExpect opts then false else
  if so_serfEnabled opts && (0 <? length (so_serfJoinAddrs opts))%nat then false else true.

Definition bootstrapExpectCount (opts : clusterStartOptions) : Z :=
  if negb (empty (so_joinAddr opts)) || (so_bootstrapExpect opts <? 2) then 0 else so_bootstrapExpect opts.

(** *** Keys and TLS *)

Definition b64_value (c : byte) : option Z :=
  let n := b2z c in
  if (65 <=? n) && (n <=? 90) then Some (n - 65) else
  if (97 <=? n) && (n <=? 122) then Some (n - 71) else
  if (48 <=? n) && (n <=? 57) then Some (n + 4) else
  if n =? 43 then Some 62 else if n =? 47 then Some 63 else None.

Fixpoint b64_quanta (s : bytes) : option bytes :=
  match s with
  | [] => Some []
  | a :: b :: c :: d :: s =>
      a ← b64_value a; b ← b64_value b;
      if bool_decide (d = x3d) then
        match s with
        | [] =>
            if bool_decide (c = x3d) then Some [z2b (a * 4 + b / 16)]
            else c ← b64_value c; Some [z2b (a * 4 + b / 16); z2b (b mod 16 * 16 + c / 4)]
        | _ => None
        end
      else
        c ← b64_value c; d ← b64_value d; rest ← b64_quanta s;
        Some (z2b (a * 4 + b / 16) :: z2b (b mod 16 * 16 + c / 4) :: z2b (c mod 4 * 64 + d) :: rest)
  | _ => None
  end.

(** [base64.StdEncoding.DecodeString], which skips line ends. *)
Definition b64_DecodeString (s : bytes) : option bytes := b64_quanta (filter (fun c => c ≠ x0a ∧ c ≠ x0d) s).

Definition decodeSerfEncryptKey (encoded : string) : res bytes :=
  if empty encoded then Ok [] else
  match b64_DecodeString (bs encoded) with
  | None => Err (errorsNew "--serf-encrypt-key must be base64")
  | Some key => if bool_decide (length key ∈ [16; 24; 32]%nat) then Ok key
                else Err (errorsNew "--serf-encrypt-key must decode to 16, 24, or 32 bytes")
  end.

(** [tls.VersionTLS12] and [tls.VersionTLS13]. *)
Definition tlsMinVersion (name : string) : res Z :=
  if bool_decide (name ∈ [EmptyString; "1.2"]%string) then Ok 771 else
  if bool_decide (name = "1.3"%string) then Ok 772 else
  Err (errorsNew ("--tls-min-version must be 1.2 or 1.3, got " +:+ name)).

(** [cluster.TLSConfig]; [None] is plaintext. *)
Record TLSConfig := MkTLS { tc_CertFile : string; tc_KeyFile : string; tc_ClientCAFile : string; tc_RequireClientCert : bool; tc_MinVersion : Z }.

Definition clusterTLSConfig (opts : clusterStartOptions) : res (option TLSConfig) :=
  if empty (so_tlsCertFile opts) && empty (so_tlsKeyFile opts) && empty (so_tlsClientCAFile opts) then
    if so_tlsRequireClientCert opts
    then Err (errorsNew "--tls-require-client-cert needs --tls-cert-file and --tls-client-ca-file") else Ok None
  else
    minVersion ← tlsMinVersion (so_tlsMinVersion opts);
    Ok (Some (MkTLS (so_tlsCertFile opts) (so_tlsKeyFile opts) (so_tlsClientCAFile opts) (so_tlsRequireClientCert opts) minVersion)).

(** The [cluster.Config] of [cluster start]: the fields membership uses, the
    gossip key and the TLS settings of both transports. *)
Definition clusterNodeConfig (opts : clusterStartOptions) : Config :=
  MkConfig (so_nodeID opts) (so_grpcAddr opts) (so_raftAddr opts) (shouldBootstrapCluster opts) (so_joinAddr opts)
    (so_applyTimeout opts) (bootstrapExpectCount opts) (so_nonVoter opts) (so_failureGracePeriod opts) 0
    (so_leaveOnShutdown opts) (so_serfEnabled opts) false.

(** What [RunE] of [cluster start] decides before it opens the node: the checks,
    the options of the store, the key, TLS and the configuration.  The logger and
    the files of the store, which [NewKV] opens here, are left out. *)
Definition clusterStart (shutdownTimeout : Z) (opts : clusterStartOptions) (cache : CacheConfig) :
  res (Settings * bytes * option TLSConfig * Config) :=
  _ ← validateClusterStartOptions shutdownTimeout opts;
  store ← resolve_options (clusterKVOptions opts cache);
  encryptKey ← decodeSerfEncryptKey (so_serfEncryptKey opts);
  tlsCfg ← clusterTLSConfig opts;
  Ok (store, encryptKey, tlsCfg, clusterNodeConfig opts).

(** ** The interactive session *)

(** White space of Unicode, in UTF-8: the length of the white space character a
    string starts with, 0 if it starts with none; and from its end. *)
Definition ws1 : list bytes := [[x09]; [x0a]; [x0b]; [x0c]; [x0d]; [x20]].
Definition ws2 : list bytes := [[xc2; x85]; [xc2; xa0]].
Definition ws3 : list bytes :=
  [[xe1; x9a; x80]; [xe2; x81; x9f]; [xe3; x80; x80]] ++
  ((fun b => [xe2; x80; b]) <$> [x80; x81; x82; x83; x84; x85; x86; x87; x88; x89; x8a; xa8; xa9; xaf]).

Definition space_len (s : bytes) : nat :=
  if bool_decide (take 1 s ∈ ws1) then 1%nat else if bool_decide (take 2 s ∈ ws2) then 2%nat else if bool_decide (take 3 s ∈ ws3) then 3%nat else 0%nat.

(** The same on a string that is read backwards. *)
Definition space_len_rev (s : bytes) : nat :=
  if bool_decide (reverse (take 1 s) ∈ ws1) then 1%nat else
  if bool_decide (reverse (take 2 s) ∈ ws2) then 2%nat else if bool_decide (reverse (take 3 s) ∈ ws3) then 3%nat else 0%nat.

Fixpoint trim (len : bytes → nat) (fuel : nat) (s : bytes) : bytes :=
  match fuel with
  | O => s
  | S fuel => match len s with O => s | n => trim len fuel (drop n s) end
  end.

(** [strings.TrimSpace] *)
Definition TrimSpace (s : bytes) : bytes :=
  let s := trim space_len (length s) s in
  reverse (trim space_len_rev (length s) (reverse s)).

Definition HasSemicolon (s : bytes) : bool := bool_decide (last s = Some x3b).

Definition normalizeStatement (statement : bytes) : bytes :=
  let trimmed := TrimSpace statement in
  if bool_decide (trimmed = []) || HasSemicolon trimmed then trimmed else trimmed ++ [x3b].

(** What [next] of the line reader returns: a line, or an error ([ctx.Err()], or
    that of the scanner); the end of the list is the end of the input. *)
Inductive lineResult := LineText (text : bytes) | LineErr (e : error).

(** What the session writes. *)
Inductive Output :=
  | OutBanner | OutPrompt | OutContinue | OutHelp | OutNewline
  | OutResult (text : bytes)
  | OutError (e : error).

Section repl.
Context {W R : Type}.
(** [Query] of the client, and the rendering of its result. *)
Variable query : W → bytes → W * res R.
Variable renderResult : R → res bytes.
(** [ctx.Err() != nil] after the statement that the number of unread lines
    tells. *)
Variable cancelled : nat → bool.
Variable interactive : bool.

Definition execute (w : W) (statement : bytes) : W * res bytes :=
  let (w, r) := query w (normalizeStatement statement) in (w, result ← r; renderResult result).

Definition prompt (buffer : bytes) (out : list Output) : list Output :=
  if interactive then out ++ [if (length buffer =? 0)%nat then OutPrompt else OutContinue] else out.

(** The commands of an empty buffer. *)
Inductive replCommand := Skip | Quit | Help.

Definition command (trimmed : bytes) : option replCommand :=
  if bool_decide (trimmed = []) then Some Skip else
  if bool_decide (trimmed = bs "\q" ∨ trimmed = bs "\quit") then Some Quit else
  if bool_decide (trimmed = bs "\?" ∨ trimmed = bs "\h") then Some Help else None.

(** The loop of [repl]. *)
Fixpoint repl_loop (lines : list lineResult) (buffer : bytes) (w : W) (out : list Output) : W * list Output * res unit :=
  let out := prompt buffer out in
  match lines with
  | [] => (w, if interactive then out ++ [OutNewline] else out, Ok tt)
  | LineErr e :: _ =>
      if bool_decide (e = io_EOF ∨ e = context_Canceled) then (w, if interactive then out ++ [OutNewline] else out, Ok tt)
      else (w, out, Err e)
  | LineText line :: lines =>
      let trimmed := TrimSpace line in
      match (if (length buffer =? 0)%nat then command trimmed else None) with
      | Some Skip => repl_loop lines buffer w out
      | Some Quit => (w, out, Ok tt)
      | Some Help => repl_loop lines buffer w (out ++ [OutHelp])
      | None =>
          let buffer := (if (0 <? length buffer)%nat then buffer ++ [x0a] else buffer) ++ line in
          if negb (HasSemicolon trimmed) then repl_loop lines buffer w out else
          let (w, r) := execute w buffer in
          match r with
          | Ok text => repl_loop lines [] w (out ++ [OutResult text])
          | Err e => if cancelled (length lines) then (w, out, Ok tt) else repl_loop lines [] w (out ++ [OutError e])
          | Panic m => (w, out, Panic m)
          | OutOfFuel => (w, out, OutOfFuel)
          end
      end
  end.

Definition repl (lines : list lineResult) (w : W) : W * list Output * res unit :=
  repl_loop lines [] w (if interactive then [OutBanner] else []).

(** *** Scripts *)

(** A statement in a script: its lines, of which only the last ends in a
    semicolon, and the first is no command of the session. *)
Definition unfinished (line : bytes) : Prop := HasSemicolon (TrimSpace line) = false.

Record statement_lines (ls : list bytes) : Prop := {
  sl_parts : ∃ init fin, ls = init ++ [fin] ∧ Forall unfinished init ∧ HasSemicolon (TrimSpace fin) = true;
  sl_first : ∀ l, head ls = Some l → command (TrimSpace l) = None;
}.

(** The text of a statement: its lines joined by line feeds. *)
Fixpoint join_lines (ls : list bytes) : bytes :=
  match ls with [] => [] | [l] => l | l :: ls => l ++ [x0a] ++ join_lines ls end.

(** The statements of a script, run one after the other, whatever each returns. *)
Definition run_statements (w : W) (stmts : list (list bytes)) : W :=
  foldl (fun w ls => fst (query w (normalizeStatement (join_lines ls)))) w stmts.

(** The answers, in order. *)
Fixpoint answers (w : W) (stmts : list (list bytes)) : list Output :=
  match stmts with
  | [] => []
  | ls :: stmts =>
      match execute w (join_lines ls) with
      | (w, Ok text) => OutResult text :: answers w stmts
      | (w, Err e) => OutError e :: answers w stmts
      | (w, _) => answers w stmts
      end
  end.

(** Prompts, banner and help aside. *)
Definition is_answer (o : Output) : Prop := match o with OutResult _ | OutError _ => True | _ => False end.
#[export] Instance is_answer_dec o : Decision (is_answer o).
Proof. destruct o; cbn; apply _. Defined.

Definition observe (r : W * list Output * res unit) : W * list Output * res unit :=
  let '(w, out, r) := r in (w, filter is_answer out, r).

Lemma observe_prompt b out : filter is_answer (prompt b out) = filter is_answer out.
Proof.
  unfold prompt. destruct interactive; [|done]. rewrite filter_app. by destruct (length b =? 0)%nat; rewrite app_nil_r.
Qed.

Lemma observe_end out : filter is_answer (if interactive then out ++ [OutNewline] else out) = filter is_answer out.
Proof. destruct interactive; [|done]. by rewrite filter_app, app_nil_r. Qed.

(** What was written before does not matter. *)
Lemma observe_loop lines : ∀ b w out out', filter is_answer out = filter is_answer out' →
  observe (repl_loop lines b w out) = observe (repl_loop lines b w out').
Proof.
  assert (∀ out out' o, filter is_answer out = filter is_answer out' → filter is_answer (out ++ [o]) = filter is_answer (out' ++ [o])) as Hs
    by (intros ??? E; by rewrite !filter_app, E).
  induction lines as [|[line|e] lines IH]; intros b w out out' E;
    assert (filter is_answer (prompt b out) = filter is_answer (prompt b out')) as Ep by (by rewrite !observe_prompt);
    cbn [repl_loop observe]; [by rewrite !observe_end, Ep| |by destruct (bool_decide _); cbn [observe]; rewrite ?observe_end, Ep].
  destruct (if (length b =? 0)%nat then command (TrimSpace line) else None) as [[]|]; cbn [observe]; [by apply IH|by rewrite Ep|by apply IH, Hs|].
  destruct (negb _); [by apply IH|]. destruct (execute w _) as [w1 [text|e|m|]]; cbn [observe]; rewrite ?Ep; [by apply IH, Hs| |done..].
  destruct (cancelled _); cbn [observe]; rewrite ?Ep; [done|by apply IH, Hs].
Qed.

(** A finished statement is executed, whatever lines it has. *)
Definition executed (rest : list lineResult) (w : W) (out : list Output) (text : bytes) : W * list Output * res unit :=
  let (w, r) := execute w text in
  match r with
  | Ok text => repl_loop rest [] w (out ++ [OutResult text])
  | Err e => if cancelled (length rest) then (w, out, Ok tt) else repl_loop rest [] w (out ++ [OutError e])
  | Panic m => (w, out, Panic m)
  | OutOfFuel => (w, out, OutOfFuel)
  end.

Lemma executed_observe rest w out out' text : filter is_answer out = filter is_answer out' →
  observe (executed rest w out text) = observe (executed rest w out' text).
Proof.
  intros E. unfold executed. destruct (execute w text) as [w1 [t|e|m|]]; cbn [observe]; rewrite ?E; [|destruct (cancelled _)|done..].
  2: by cbn [observe]; rewrite E.
  all: apply observe_loop; by rewrite !filter_app, E.
Qed.

(** The lines behind the first. *)
Lemma repl_lines ls fin : ∀ buffer w out rest, buffer ≠ [] → Forall unfinished ls → HasSemicolon (TrimSpace fin) = true →
  observe (repl_loop ((LineText <$> ls) ++ LineText fin :: rest) buffer w out) =
  observe (executed rest w out (buffer ++ [x0a] ++ join_lines (ls ++ [fin]))).
Proof.
  induction ls as [|l ls IH]; intros buffer w out rest Hb Hu Hf; cbn [fmap list_fmap app].
  - cbn [repl_loop]. destruct buffer as [|b buffer]; [done|]. cbn [length Nat.eqb Nat.ltb Nat.leb].
    rewrite Hf. cbn [negb]. rewrite <- app_assoc. apply (executed_observe rest w), observe_prompt.
  - apply Forall_cons in Hu as [Hl Hu]. cbn [repl_loop]. destruct buffer as [|b buffer]; [done|].
    cbn [length Nat.eqb Nat.ltb Nat.leb]. unfold unfinished in Hl. rewrite Hl. cbn [negb]. rewrite IH by done.
    replace (join_lines (l :: ls ++ [fin])) with (l ++ [x0a] ++ join_lines (ls ++ [fin])) by (by destruct ls).
    rewrite <- !app_assoc. apply executed_observe, observe_prompt.
Qed.

Lemma repl_statement ls w out rest : statement_lines ls →
  observe (repl_loop ((LineText <$> ls) ++ rest) [] w out) = observe (executed rest w out (join_lines ls)).
Proof.
  intros [(init & fin & -> & Hu & Hf) Hc]. rewrite fmap_app, <- app_assoc. destruct init as [|l init].
  - specialize (Hc fin eq_refl). cbn [fmap list_fmap app repl_loop length Nat.eqb Nat.ltb Nat.leb].
    rewrite Hc, Hf. cbn [negb]. apply (executed_observe rest w), observe_prompt.
  - specialize (Hc l eq_refl). apply Forall_cons in Hu as [Hl Hu]. cbn [fmap list_fmap app repl_loop length Nat.eqb Nat.ltb Nat.leb].
    rewrite Hc. unfold unfinished in Hl. rewrite Hl. cbn [negb]. rewrite repl_lines; [|by intros ->|done..].
    replace (join_lines (l :: init ++ [fin])) with (l ++ [x0a] ++ join_lines (init ++ [fin])) by (by destruct init).
    apply executed_observe, observe_prompt.
Qed.

(** C29: An SQL session runs a script faithfully: for every list of statements,
    each spread over any lines of which only the last ends in a semicolon, the
    session sends exactly these statements to the server, each once, normalized
    and in order, prints one answer for each - a failed statement is reported
    and the session goes on - and ends without an error at the end of the
    input. *)
Theorem repl_script (stmts : list (list bytes)) (w : W) :
  Forall statement_lines stmts → (∀ n, cancelled n = false) → (∀ w s, match snd (execute w s) with Ok _ | Err _ => True | _ => False end) →
  let '(w', out, r) := repl (LineText <$> mjoin stmts) w in
  w' = run_statements w stmts ∧ filter is_answer out = answers w stmts ∧ length (answers w stmts) = length stmts ∧ r = Ok tt.
Proof.
  intros Hs Hc Hx. unfold repl. set (out0 := if interactive then _ else _).
  assert (∀ out, observe (repl_loop (LineText <$> mjoin stmts) [] w out) = (run_statements w stmts, filter is_answer out ++ answers w stmts, Ok tt) ∧
    length (answers w stmts) = length stmts) as Hmain.
  { clear out0. revert w. induction Hs as [|ls stmts Hl Hs IH]; intros w out.
    - cbn [mjoin list_join fmap list_fmap repl_loop observe answers]. by rewrite observe_end, observe_prompt, app_nil_r.
    - change (mjoin (ls :: stmts)) with (ls ++ mjoin stmts). rewrite fmap_app, repl_statement by done. unfold executed, run_statements. cbn [foldl answers length].
      specialize (Hx w (join_lines ls)). unfold execute in *. destruct (query w _) as [w1 r1]. cbn [fst snd] in *.
      destruct (result ← r1; renderResult result) as [text|e|m|]; [| |done..].
      + destruct (IH w1 (out ++ [OutResult text])) as [-> E]. rewrite filter_app, <- app_assoc. cbn [length]. by rewrite E.
      + rewrite Hc. destruct (IH w1 (out ++ [OutError e])) as [-> E]. rewrite filter_app, <- app_assoc. cbn [length]. by rewrite E. }
  destruct (Hmain out0) as [Ho Hlen]. destruct (repl_loop _ _ _ _) as [[w' out] r]. cbn [observe] in Ho. injection Ho as -> Ho ->.
  split_and!; try done. rewrite Ho. subst out0. by destruct interactive.
Qed.

End repl.

(** ** Starting a node *)

Lemma joinErrors_ok errs : Forall (fun r => match r with Ok _ | Err _ => True | _ => False end) errs → joinErrors errs = Ok tt → Forall (eq (Ok tt)) errs.
Proof.
  intros Ht. unfold joinErrors. set (f := fun r => _). intros Hj. assert (mjoin (map f errs) = []) as Hn by (destruct (mjoin (map f errs)) as [|? []]; done).
  clear Hj. induction Ht as [|r errs Hr Ht IH]; [constructor|]. change (f r ++ mjoin (map f errs) = []) in Hn. apply app_eq_nil in Hn as [H1 H2].
  constructor; [|auto]. destruct r as [[]| | |]; done.
Qed.

(** The ways to enter a cluster that a configuration asks for: forming one
    alone, forming one with others, joining one. *)
Definition ways (cfg : Config) : nat :=
  ((if cf_Bootstrap cfg then 1 else 0) + (if (2 <=? cf_BootstrapExpect cfg)%Z then 1 else 0) + (if empty (cf_JoinAddr cfg) then 0 else 1))%nat.

Lemma validated sh opts : validateClusterStartOptions sh opts = Ok tt →
  so_nodeID opts ≠ EmptyString ∧ 0 < so_applyTimeout opts ∧ validateBootstrapExpect opts = Ok tt.
Proof.
  unfold validateClusterStartOptions. intros Hv%joinErrors_ok.
  - rewrite !Forall_cons in Hv. destruct Hv as (H1 & H2 & _ & _ & H3 & _). split_and!; [| |done].
    + intros E. unfold requireNonEmptyFlag in H1. by rewrite E in H1.
    + unfold requirePositiveDuration in H2. destruct (Z.leb_spec (so_applyTimeout opts) 0); [done|lia].
  - unfold requireNonEmptyFlag, requirePositiveDuration, requirePositiveInt, validateBootstrapExpect. repeat constructor; repeat case_match; done.
Qed.

Lemma cache_options opts cache : cache_validate cache = Ok tt →
  ∃ st, resolve_options (clusterKVOptions opts cache) = Ok st ∧
    st_AutoCompact st = so_autoCompact opts ∧ st_CacheEnabled st = cc_Enabled cache.
Proof.
  unfold cache_validate, clusterKVOptions, kvOptsFromViper, resolve_options. destruct (cc_Enabled cache); cbn [negb orb].
  - intros Hv%joinErrors_ok; [|repeat constructor; repeat case_match; done]. rewrite !Forall_cons in Hv. destruct Hv as (H1 & H2 & _).
    cbn [foldM]. unfold WithAutoCompact, WithCache. destruct (Z.leb_spec (cc_MaxCostBytes cache) 0); [done|].
    destruct (Z.leb_spec (cc_NumCounters cache) 0); [done|]. by eexists.
  - intros _. by eexists.
Qed.

(** What Serf gets for a key. *)
Lemma key_accepted encoded :
  match decodeSerfEncryptKey encoded with Ok key => validateEncryptKey key = Ok tt | Err _ => True | _ => False end.
Proof.
  unfold decodeSerfEncryptKey, validateEncryptKey. destruct (empty encoded); [done|]. destruct (b64_DecodeString _) as [key|]; [|done].
  destruct (bool_decide_reflect (length key ∈ [16; 24; 32]%nat)) as [Hk|]; [|done]. rewrite bool_decide_true; [done|].
  apply list_elem_of_In in Hk. apply list_elem_of_In. cbn [In] in *. lia.
Qed.

Lemma tls_required opts :
  match clusterTLSConfig opts with Ok tls => so_tlsRequireClientCert opts = true → is_Some tls | Err _ => True | _ => False end.
Proof. unfold clusterTLSConfig, tlsMinVersion. repeat case_match; simplify_eq/=; done. Qed.

(** The checks of [cluster.Open]. *)
Lemma config_accepted opts : so_nodeID opts ≠ EmptyString → validateBootstrapExpect opts = Ok tt →
  let cfg := clusterNodeConfig opts in
  validate (applyDefaults cfg) = Ok tt ∧ (ways cfg ≤ 1)%nat ∧
  (cf_Bootstrap cfg = true → cf_NonVoter cfg = false ∧ (so_serfEnabled opts = true → so_serfJoinAddrs opts = [])).
Proof.
  intros Hn Hb. cbn zeta. unfold validateBootstrapExpect in Hb. unfold validate, applyDefaults, ways, clusterNodeConfig.
  cbn [cf_NodeID cf_BootstrapExpect cf_SerfEnabled cf_discovery cf_Bootstrap cf_JoinAddr cf_NonVoter].
  unfold bootstrapExpectCount, shouldBootstrapCluster. unfold empty at 1. rewrite (bool_decide_false _ Hn).
  destruct (Z.ltb_spec (so_bootstrapExpect opts) 1); [done|].
  destruct (Z.leb_spec 2 (so_bootstrapExpect opts)), (Z.ltb_spec (so_bootstrapExpect opts) 2); try lia;
    destruct (so_serfEnabled opts), (empty (so_joinAddr opts)), (so_nonVoter opts), (so_serfJoinAddrs opts); cbn in *; try done.
  all: destruct (Z.eqb_spec (so_bootstrapExpect opts) 1), (Z.leb_spec 2 (so_bootstrapExpect opts)); try lia; cbn; split_and!; (done || lia || intros; split; done).
Qed.

(** C28: What [cluster start] hands to a node is consistent: options and cache
    settings that pass the checks make a store configuration every option
    accepts, with compaction as asked; a node configuration that [cluster.Open]
    accepts and that asks for at most one way to enter a cluster, forming one
    alone only as a voter that knows of no other node; a gossip key that Serf
    accepts; and TLS whenever client certificates are required. *)
Theorem start_consistent sh opts cache :
  validateClusterStartOptions sh opts = Ok tt → cache_validate cache = Ok tt →
  match clusterStart sh opts cache with
  | Ok (store, key, tls, cfg) =>
      validate (applyDefaults cfg) = Ok tt ∧ (ways cfg ≤ 1)%nat ∧
      (cf_Bootstrap cfg = true → cf_NonVoter cfg = false ∧ (so_serfEnabled opts = true → so_serfJoinAddrs opts = [])) ∧
      st_AutoCompact store = so_autoCompact opts ∧ st_CacheEnabled store = cc_Enabled cache ∧
      validateEncryptKey key = Ok tt ∧ (so_tlsRequireClientCert opts = true → is_Some tls)
  | Err e => decodeSerfEncryptKey (so_serfEncryptKey opts) = Err e ∨ clusterTLSConfig opts = Err e
  | _ => False
  end.
Proof.
  intros Hv Hc. unfold clusterStart. rewrite Hv. cbn [mbind res_bind].
  destruct (cache_options opts cache Hc) as (st & -> & Ha & Hce). cbn [mbind res_bind].
  pose proof (key_accepted (so_serfEncryptKey opts)) as Hk. pose proof (tls_required opts) as Ht.
  destruct (decodeSerfEncryptKey (so_serfEncryptKey opts)) as [key|e| |]; [|by left|done..]. cbn [mbind res_bind].
  destruct (clusterTLSConfig opts) as [tls|e| |]; [|by right|done..]. cbn [mbind res_bind].
  destruct (validated _ _ Hv) as (Hn & _ & Hb). destruct (config_accepted opts Hn Hb) as (H1 & H2 & H3).
  auto 10.
Qed.

(** The setting of cluster.auto_compact has no effect: only the flag has. *)
Lemma auto_compact_ignored v v' opts cache :
  cl_Serf v = cl_Serf v' → cl_TLS v = cl_TLS v' →
  resolve_options (clusterKVOptions (apply_settings v opts) cache) = resolve_options (clusterKVOptions (apply_settings v' opts) cache).
Proof. done. Qed.

(** ** Samples *)

(** A server that refuses empty statements and records the others. *)
Definition w_query (w : list bytes) (s : bytes) : list bytes * res bytes :=
  (w ++ [s], if (length s <? 5)%nat then Err (errorsNew "syntax error") else Ok s).

Definition w_stmts : list (list bytes) := [[bs "SELECT a"; bs ""; bs " FROM t ; "]; [bs ";;;"]; [bs "DROP TABLE t;"]].

Lemma repl_script_witness :
  let '(w', out, r) := repl w_query Ok (fun _ => false) true (LineText <$> mjoin w_stmts) [] in
  w' = run_statements w_query [] w_stmts ∧ filter is_answer out = answers w_query Ok [] w_stmts ∧
  length (answers w_query Ok [] w_stmts) = length w_stmts ∧ r = Ok tt.
Proof.
  apply (repl_script w_query Ok (fun _ => false) true w_stmts []); [|reflexivity|].
  - repeat constructor.
    + exists [bs "SELECT a"; bs ""], (bs " FROM t ; "). split; [reflexivity|]. split; [repeat constructor|reflexivity].
    + intros l [= <-]. reflexivity.
    + exists [], (bs ";;;"). repeat split; constructor.
    + intros l [= <-]. reflexivity.
    + exists [], (bs "DROP TABLE t;"). repeat split; constructor.
    + intros l [= <-]. reflexivity.
  - intros w s. unfold execute, w_query. by destruct (length (normalizeStatement s) <? 5)%nat.
Defined.

Definition w_start : clusterStartOptions :=
  MkStart ":50051" "data" ":7001" "raft" "n1" "" 10 3 true false true 30 true ":7946" "" ["10.0.0.2:7946"] 64
    "AAECAwQFBgcICQoLDA0ODw==" "cert.pem" "key.pem" "ca.pem" true "1.3".

Lemma start_consistent_witness :
  match clusterStart 15 w_start (MkCacheConfig true 100 10) with
  | Ok (store, key, tls, cfg) =>
      validate (applyDefaults cfg) = Ok tt ∧ (ways cfg ≤ 1)%nat ∧
      (cf_Bootstrap cfg = true → cf_NonVoter cfg = false ∧ (so_serfEnabled w_start = true → so_serfJoinAddrs w_start = [])) ∧
      st_AutoCompact store = so_autoCompact w_start ∧ st_CacheEnabled store = cc_Enabled (MkCacheConfig true 100 10) ∧
      validateEncryptKey key = Ok tt ∧ (so_tlsRequireClientCert w_start = true → is_Some tls)
  | Err e => decodeSerfEncryptKey (so_serfEncryptKey w_start) = Err e ∨ clusterTLSConfig w_start = Err e
  | _ => False
  end ∧ is_ok (clusterStart 15 w_start (MkCacheConfig true 100 10)).
Proof.
  split; [|eexists; vm_compute; reflexivity].
  apply (start_consistent 15 w_start (MkCacheConfig true 100 10)); vm_compute; reflexivity.
Defined.
